(* ===== verification/_CoqProject ===== *)
-Q . S2P
Prelude.v
SphTypes.v
SphStream.v
Blake.v
Bmw.v
Keccak.v
GroestlTables.v
Groestl.v
Skein.v
BaseUint.v
Hex.v
Uint256.v
Params.v
Chain.v
HashStream.v
Sha256.v
Sha512.v
Hmac.v
Sha1.v
Ripemd160.v
Merkle.v
Pow.v
Kernel.v
Script.v
SigEncoding.v
Standard.v
Interpreter.v
ScriptSafety.v
ScriptVerify.v
Serialize.v
Transaction.v
SigHash.v
Compressor.v
Bits.v
Coins.v
CoinsView.v
Block.v
PartialMerkle.v
Bloom.v
MerkleBlock.v
StakePointers.v
BlockTree.v
BlockTreeInv.v
BlockTreeOps.v
BestChain.v
BlockTreeSteps.v
BlockTreeJudge.v
BlockTreeReach.v
BlockTreeExample.v
TxCheck.v
Connect.v
Undo.v
ConnectBlock.v
ConnectExample.v
Double.v
FeeEstimator.v
MemPool.v
AcceptToMemoryPool.v
CoinSet.v
MemPoolSpec.v
MemPoolOps.v
MemPoolAccept.v
MemPoolCheck.v
MemPoolTip.v
MemPoolReorg.v
MemPoolTheorems.v
MemPoolExample.v
