(* ===== verification/Prelude.v ===== *)
(** * Agouti: a verification of its consensus core

    The program is a full node of a proof-of-stake chain, written in C and
    C++.  This library models the parts that decide what is a valid block and
    proves what they promise.  The definitions are shallow embeddings of the
    source under [src/src/]; each file says at its top which source it models.

    ** The parts and how they meet

    - Words, numbers, text.  [Prelude] (machine words as [Z] with the
      truncation written out, list and bit lemmas, the hint databases),
      [BaseUint] (uint256.h, uint256.cpp: limbs of 32 bits, compact targets),
      [Uint256] (the 256-bit instance seen by its clients), [Hex].
    - Hash functions.  The sphlib functions of the block hash share macros and
      encoders ([SphTypes], sph_types.h) and one buffered absorption loop
      ([SphStream]); [Blake], [Bmw], [Keccak], [Groestl] (tables in
      [GroestlTables]) and [Skein] are the functions.  The hasher classes of
      crypto/ share a stream ([HashStream]); [Sha256] (with the double
      hash), [Sha512], [Sha1], [Ripemd160] are its instances and [Hmac] is
      built from two of them.
    - Consensus parameters and the chain.  [Params] (chainparams.cpp) is a
      typeclass read by all consensus code, the networks are its instances.
      [Chain] (chain.h, chain.cpp) is the block index as a heap of records
      with skip pointers, and the active chain.  [Pow] (pow.cpp) computes
      targets from it, [Kernel] (kernel.cpp) decides who may stake, [Merkle]
      (primitives/block.cpp) commits to the transactions.
    - Scripts.  [Script] (script.h, script.cpp) has the opcodes, numbers and
      the reading of scripts, [SigEncoding] the accepted encodings,
      [Standard] (standard.cpp) the standard forms, [Interpreter]
      (interpreter.cpp) the machine, over an arbitrary signature checker.
      [ScriptSafety] and [ScriptVerify] hold its theorems.
    - Transactions.  [Serialize] (serialize.h) is a record of writer, reader
      and size with two classes of laws, [Lawful] (what is written reads back)
      and [Canonical] (nothing else reads as it); [Transaction]
      (primitives/transaction.h), [Compressor] and [Coins] (coins.h, undo.h)
      are formats built from its combinators.  [SigHash] (interpreter.cpp)
      gives the checker of the machine: what a signature signs.
    - The unspent outputs.  [CoinsView] (coins.cpp, txdb.cpp) has the virtual
      interface as a class, the database, which keeps serialized coins, and
      the cache as its instances, and
      the promises [ReadableView] and [LawfulView]: a view stands for a map
      from identifiers to unspent coins that reading does not change, and
      writing updates.  A cache over a lawful view is a lawful view, so every
      client below is proved against the interface and holds for any stack of
      caches.  [TxCheck] (main.cpp) checks a transaction alone, [Connect]
      (main.cpp) checks and spends it over a view and undoes it, [Undo] and
      [ConnectBlock] prove that these refine the specification on the map,
      for a transaction and for the transactions of a block;
      [ConnectExample] runs them on a small chain.
    - Blocks and their stake.  [Block] (primitives/block.h, stakepointer.h) has
      headers, blocks, stake pointers and signatures with their formats.
      [StakePointers] (main.cpp) decides whether a block may use its
      pointer and keeps the global map of used ones while the chain is
      extended, reorganised and the node restarted.
    - The tree of blocks.  [BlockTree] (main.cpp, chain.h) is the state around
      the index (status words, candidates, unlinked blocks, the active chain)
      and the operations on it: new headers and data, the choice of the chain
      with most work, connecting and disconnecting, invalidating and
      reconsidering, and the assertions of [CheckBlockIndex].  What connecting
      a block does is behind the class [ChainClient], its promise is
      [LawfulClient].  [BlockTreeInv] is the invariant, [BlockTreeOps],
      [BestChain], [BlockTreeSteps] and [BlockTreeJudge] show that the
      operations keep it, [BlockTreeReach] has the reachable states and the
      theorems on them, [BlockTreeExample] runs.
    - The memory pool.  [Double] is binary64 arithmetic; [FeeEstimator] and
      [MemPool] (txmempool.h, txmempool.cpp) are the estimator, the pool with
      its maps and its view of the unspent outputs, and the sanity check;
      [AcceptToMemoryPool] (main.cpp) is the acceptance of a transaction and
      what a change of the tip does to the pool.  Its promise is
      [MemPoolSpec.pool_ok], over the unspent outputs by outpoint
      ([CoinSet]): what is stored could be connected on top of the tip.
      [MemPoolOps] refines the maps to a list of transactions,
      [MemPoolAccept], [MemPoolCheck], [MemPoolTip] and [MemPoolReorg] show
      that the operations keep the promise, [MemPoolTheorems] states it and
      [MemPoolExample] runs it.
    - Light clients.  [Bloom] (bloom.cpp, hash.cpp) is the filter of a peer,
      [PartialMerkle] (merkleblock.cpp) the proof that transactions are in a
      block, [MerkleBlock] the filtered block made of both; [Bits] holds the
      bit arrays they share.

    ** What the theorems show

    - A block's transactions connect exactly as specified on the map of
      unspent outputs, create money only in coinbase and coinstakes, and
      disconnect back to it, but for the two blocks exempt from BIP30; a
      flushed database reads back the same, negative versions excepted ([ConnectBlock_accepts],
      [disconnect_block_restores], [CheckInputs_iff], [UpdateCoins_refines],
      [Flush_correct], [Spend_spec], [supply_bounded]).
    - The memory pool is consistent with the tip after every acceptance,
      removal and change of the tip, what a disconnected block held comes
      back if it is accepted, the assertions of its sanity check hold and the
      calls end ([AcceptToMemoryPool_consistent],
      [ConnectTip_consistent], [DisconnectTip_consistent], [check_passes],
      [remove_descendants]); fee estimates fall with patience
      ([estimates_reliable]).
    - In every state the node can reach the assertions of [CheckBlockIndex]
      hold, [ActivateBestChain] ends with the best valid branch active, and a
      decision about a block can be taken back ([CheckBlockIndex_holds],
      [ActivateBestChain_best], [InvalidateBlock_reconsidered]).
    - No block whose pointer was consumed in the window of its branch is
      accepted; the map of used pointers refuses only reuse, and all of it
      while no reorganisation goes below the depth limit; a staking block is
      signed by who owns the pointed output ([stake_pointer_unique], [stake_map_exact],
      [CheckStake_authorised]).
    - A light client is sent what it asked for, and a false proof under a
      block's root contains a collision or a wrong number of transactions
      ([merkle_block_delivers], [partial_merkle_complete],
      [partial_merkle_sound], [bloom_follows_spends], [peer_filter_safe]).
    - What a signature and an identifier bind ([signature_hash],
      [sighash_all_commits], [transaction_codec], [merkle_root_binds]).
    - Scripts end, stay within their limits, do exact arithmetic, and decide
      the standard forms as intended; the encodings of signatures are
      decided under all flags, and solving a script is defined but on one
      ([scripts_terminate], [eval_within_limits], [script_arithmetic_exact],
      [flags_only_forbid], [pay_to_key_hash], [pay_to_script_hash],
      [signature_encoding], [Solver_undefined]).
    - Targets and kernels are what the rules say over the integers
      ([next_work_valid], [pos_retarget_exact],
      [CheckStakePointerKernelHash_iff]).
    - The index and active chain keep their invariants and their walks are
      right ([GetAncestor_correct], with [link_preserves], [SetTip_branch] and
      [FindFork_correct] beside it).
    - The optimised hash functions compute their specifications however the
      message is split ([sha256_stream], [sph_blake512_digest],
      [keccak_digest], [skein512_digest]); the stored forms read back
      ([coins_codec], [amount_compression], [scriptnum_codec]).

    ** State, errors and recursion

    Pointers are indices into the heap of the index; a dereference of one
    that is not there is [None].  Caches that reading fills return the view
    they leave.  Exceptions, failing assertions and undefined behaviour are
    values: [None], [Throw], [Aborts], [Undefined].  Signed amounts are exact
    integers; where the code relies on their width, the bound is a theorem.

    Loops that are not structural have fuel that a theorem shows to be enough:
    [EvalScript] the length of the script (every instruction takes a byte),
    ancestor walks and locators the height, long division and the search for
    a fork the number of steps of the loop variable, [WriteVarInt] the size
    of its buffer, byte vectors one turn per block of 5000000 bytes, the
    height of a partial tree the 31 shifts an [int] allows, the choice of the
    active chain [enough] turns: each finds an invalid block or gains work,
    the queue of [remove] its length and the number of spent outpoints (each
    enters it once), the queue of the pool's sanity check a square of its
    length (one round over it finds a transaction that is ready).

    ** What is not modelled

    The verification of a signature by a key and the decompression of points
    (secp256k1), the XEVAN chain of the old block hash, reading a block back
    from disk, what connecting a block does to the rest of the node, the
    sizes the bloom filter's constructor computes in floating point, the key-value store and the clock are parameters.  Wallet,
    networking, RPC, masternodes and budgets, the graphical interface and the
    bundled libraries are left out: they are I/O, glue or third-party code, or
    wait for a later extension (the acceptance of whole blocks, the orphan
    transactions and the files of the fee estimator, loading the index from
    disk, the other sphlib functions). *)
From Stdlib Require Export ZArith List Lia Bool Btauto.
Export ListNotations.
#[export] Set Default Goal Selector "!".

(** * Machine words

    The program's [uint8_t], [uint32_t] and [uint64_t] are [Z] with the
    truncation of the C code written out. *)

Declare Scope word_scope.
Delimit Scope word_scope with word.
Open Scope Z_scope.

Infix "⊕" := Z.lxor (at level 50, left associativity) : word_scope.
Infix ".&" := Z.land (at level 48, left associativity) : word_scope.
Infix ".|" := Z.lor (at level 51, left associativity) : word_scope.
Infix "<<" := Z.shiftl (at level 40, left associativity) : word_scope.
Infix ">>" := Z.shiftr (at level 40, left associativity) : word_scope.

Open Scope word_scope.

Definition u8 (x : Z) : Prop := 0 <= x < 2 ^ 8.
Definition u32 (x : Z) : Prop := 0 <= x < 2 ^ 32.
Definition u64 (x : Z) : Prop := 0 <= x < 2 ^ 64.

(** [(unsigned char)x] *)
Definition T8 (x : Z) : Z := x .& 0xFF.

Create HintDb words discriminated.

(** ** Truncation and its range *)

Lemma land_ones_mod (w x : Z) : 0 <= w -> x .& Z.ones w = x mod 2 ^ w.
Proof. apply Z.land_ones. Qed.

Lemma T8_mod x : T8 x = x mod 2 ^ 8.
Proof. exact (Z.land_ones x 8 ltac:(lia)). Qed.

Lemma T8_u8 x : u8 (T8 x).
Proof. rewrite T8_mod; apply Z.mod_pos_bound; lia. Qed.

Lemma T8_id x : u8 x -> T8 x = x.
Proof. intros H; rewrite T8_mod; apply Z.mod_small; exact H. Qed.

(** Closure of a range [0 <= x < 2 ^ w] under the bit operations. *)
Definition in_width (w x : Z) : Prop := 0 <= x < 2 ^ w.

Lemma in_width_bits w x :
  0 <= w -> in_width w x <-> 0 <= x /\ forall i, w <= i -> Z.testbit x i = false.
Proof.
  intros Hw; unfold in_width; split.
  - intros [H0 H]; split; [lia|]; intros i Hi.
    destruct (Z.eq_dec x 0) as [->|Hx]; [apply Z.bits_0|].
    apply Z.bits_above_log2; [lia|].
    apply Z.log2_lt_pow2 in H; lia.
  - intros [H0 H]; split; [lia|].
    destruct (Z.eq_dec x 0) as [->|Hx]; [apply Z.pow_pos_nonneg; lia|].
    apply Z.log2_lt_pow2; [lia|].
    destruct (Z.lt_ge_cases (Z.log2 x) w) as [?|Hge]; [assumption|].
    specialize (H (Z.log2 x) Hge); rewrite Z.bit_log2 in H; [discriminate|lia].
Qed.

Lemma in_width_high w x i : 0 <= w -> in_width w x -> w <= i -> Z.testbit x i = false.
Proof. intros Hw H; apply (in_width_bits w x Hw) in H; apply H. Qed.

Lemma in_width_lxor w x y : 0 <= w -> in_width w x -> in_width w y -> in_width w (x ⊕ y).
Proof.
  intros Hw Hx Hy; apply in_width_bits; [exact Hw|]; split.
  - apply Z.lxor_nonneg; unfold in_width in *; lia.
  - intros i Hi; rewrite Z.lxor_spec, !(in_width_high w) by assumption; reflexivity.
Qed.

Lemma in_width_land w x y : 0 <= w -> in_width w x -> 0 <= y -> in_width w (x .& y).
Proof.
  intros Hw Hx Hy; apply in_width_bits; [exact Hw|]; split.
  - apply Z.land_nonneg; lia.
  - intros i Hi; rewrite Z.land_spec, (in_width_high w) by assumption; reflexivity.
Qed.

Lemma in_width_lor w x y : 0 <= w -> in_width w x -> in_width w y -> in_width w (x .| y).
Proof.
  intros Hw Hx Hy; apply in_width_bits; [exact Hw|]; split.
  - apply Z.lor_nonneg; unfold in_width in *; lia.
  - intros i Hi; rewrite Z.lor_spec, !(in_width_high w) by assumption; reflexivity.
Qed.

Lemma in_width_mod w x : 0 <= w -> in_width w (x mod 2 ^ w).
Proof. intros Hw; apply Z.mod_pos_bound, Z.pow_pos_nonneg; lia. Qed.

Lemma in_width_shiftr w x n : 0 <= w -> in_width w x -> 0 <= n -> in_width w (x >> n).
Proof.
  intros Hw Hx Hn; apply in_width_bits; [exact Hw|]; split.
  - apply Z.shiftr_nonneg; apply Hx.
  - intros i Hi; rewrite Z.shiftr_spec by lia; apply (in_width_high w); [lia|exact Hx|lia].
Qed.

(** Two words of the same width are equal when their bits are. *)
Lemma in_width_ext w x y :
  0 <= w -> in_width w x -> in_width w y ->
  (forall i, 0 <= i < w -> Z.testbit x i = Z.testbit y i) -> x = y.
Proof.
  intros Hw Hx Hy H; apply Z.bits_inj'; intros i Hi.
  destruct (Z.lt_ge_cases i w); [apply H; lia|].
  rewrite !(in_width_high w) by assumption; reflexivity.
Qed.

#[export] Hint Resolve T8_u8 : words.

(** ** Casts of the language

    [(uint32_t)x] and [(uint64_t)x], which are also the reductions every
    unsigned operation of that width performs. *)
Definition T32 (x : Z) : Z := x .& 0xFFFFFFFF.
Definition T64 (x : Z) : Z := x .& 0xFFFFFFFFFFFFFFFF.

Lemma T32_mod x : T32 x = x mod 2 ^ 32.
Proof. exact (Z.land_ones x 32 ltac:(lia)). Qed.

Lemma T64_mod x : T64 x = x mod 2 ^ 64.
Proof. exact (Z.land_ones x 64 ltac:(lia)). Qed.

Lemma T32_u32 x : u32 (T32 x).
Proof. rewrite T32_mod; apply (in_width_mod 32); lia. Qed.

Lemma T64_u64 x : u64 (T64 x).
Proof. rewrite T64_mod; apply (in_width_mod 64); lia. Qed.

Lemma T32_id x : u32 x -> T32 x = x.
Proof. intros H; rewrite T32_mod; apply Z.mod_small; exact H. Qed.

Lemma T64_id x : u64 x -> T64 x = x.
Proof. intros H; rewrite T64_mod; apply Z.mod_small; exact H. Qed.

Lemma T64_testbit x i : 0 <= i -> Z.testbit (T64 x) i = (i <? 64) && Z.testbit x i.
Proof.
  intros Hi; rewrite T64_mod; destruct (Z.ltb_spec i 64).
  - rewrite Z.mod_pow2_bits_low by lia; reflexivity.
  - rewrite Z.mod_pow2_bits_high by lia; reflexivity.
Qed.

Lemma T32_testbit x i : 0 <= i -> Z.testbit (T32 x) i = (i <? 32) && Z.testbit x i.
Proof.
  intros Hi; rewrite T32_mod; destruct (Z.ltb_spec i 32).
  - rewrite Z.mod_pow2_bits_low by lia; reflexivity.
  - rewrite Z.mod_pow2_bits_high by lia; reflexivity.
Qed.

Lemma T8_testbit x i : 0 <= i -> Z.testbit (T8 x) i = (i <? 8) && Z.testbit x i.
Proof.
  intros Hi; rewrite T8_mod; destruct (Z.ltb_spec i 8).
  - rewrite Z.mod_pow2_bits_low by lia; reflexivity.
  - rewrite Z.mod_pow2_bits_high by lia; reflexivity.
Qed.

Lemma u64_lxor x y : u64 x -> u64 y -> u64 (x ⊕ y).
Proof. apply (in_width_lxor 64); lia. Qed.
Lemma u32_lxor x y : u32 x -> u32 y -> u32 (x ⊕ y).
Proof. apply (in_width_lxor 32); lia. Qed.
Lemma u64_land x y : u64 x -> u64 y -> u64 (x .& y).
Proof. intros Hx Hy; apply (in_width_land 64); [lia|exact Hx|apply Hy]. Qed.
Lemma u32_land x y : u32 x -> u32 y -> u32 (x .& y).
Proof. intros Hx Hy; apply (in_width_land 32); [lia|exact Hx|apply Hy]. Qed.
Lemma u64_lor x y : u64 x -> u64 y -> u64 (x .| y).
Proof. apply (in_width_lor 64); lia. Qed.
Lemma u32_lor x y : u32 x -> u32 y -> u32 (x .| y).
Proof. apply (in_width_lor 32); lia. Qed.
Lemma u64_shiftr x n : u64 x -> 0 <= n -> u64 (x >> n).
Proof. apply (in_width_shiftr 64); lia. Qed.
Lemma u32_shiftr x n : u32 x -> 0 <= n -> u32 (x >> n).
Proof. apply (in_width_shiftr 32); lia. Qed.

#[export] Hint Resolve T32_u32 T64_u64 u64_lxor u32_lxor u64_land u32_land
  u64_lor u32_lor u64_shiftr u32_shiftr : words.

(** Closing range goals: [u64 (a ⊕ T64 b)] and the like. *)
Ltac width := solve [eauto 12 with words | unfold u8, u32, u64 in *; lia].

Lemma lxor_cancel_r x y : (x ⊕ y) ⊕ y = x.
Proof. rewrite Z.lxor_assoc, Z.lxor_nilpotent, Z.lxor_0_r; reflexivity. Qed.

Lemma lxor_cancel_l x y : y ⊕ (y ⊕ x) = x.
Proof. rewrite <- Z.lxor_assoc, Z.lxor_nilpotent, Z.lxor_0_l; reflexivity. Qed.

(** Subtraction undoes a truncated addition. *)
Lemma T64_add_sub x y : u64 x -> T64 (T64 (x + y) - y) = x.
Proof.
  intros H; rewrite !T64_mod, Zminus_mod_idemp_l, Z.add_simpl_r.
  apply Z.mod_small; exact H.
Qed.

(** ** Proving word equations bit by bit

    [bitwise] reduces an equation between words to one between the bits at
    an index [i], normalises [Z.testbit] over the operations, decides the
    index comparisons and closes the boolean equation. *)
Ltac decide_index :=
  repeat match goal with
  | |- context [Z.testbit _ ?k] =>
      progress (rewrite ?(Z.testbit_neg_r _ k) by lia)
  | |- context [?a <? ?b] => destruct (Z.ltb_spec a b); try lia
  end.

Ltac bits_step :=
  rewrite ?Z.lor_spec, ?Z.land_spec, ?Z.lxor_spec,
    ?Z.shiftr_spec, ?T8_testbit, ?T32_testbit, ?T64_testbit by lia.

(** ** Arrays

    An array [a] is a list; [a.[i]] reads it, [upd a i x] writes it. Every
    use is in range (the arrays of the program have constant lengths); the
    default 0 is never read there. *)
Definition get (a : list Z) (i : nat) : Z := nth i a 0.
Notation "a .[ i ]" := (get a i) (at level 1, left associativity, format "a .[ i ]") : word_scope.

Fixpoint upd (a : list Z) (i : nat) (x : Z) : list Z :=
  match a, i with
  | [], _ => []
  | _ :: a, O => x :: a
  | y :: a, S i => y :: upd a i x
  end.

Lemma Some_inj {A} (a b : A) : Some a = Some b -> a = b.
Proof. intros [= ->]; reflexivity. Qed.

Lemma Forall_split {A} (Q : A -> Prop) k l : Forall Q l -> Forall Q (firstn k l) /\ Forall Q (skipn k l).
Proof. intros H; apply Forall_app; rewrite firstn_skipn; exact H. Qed.

Lemma upd_length a i x : length (upd a i x) = length a.
Proof. revert i; induction a; destruct i; simpl; auto. Qed.

Lemma get_upd_eq a i x : (i < length a)%nat -> (upd a i x).[i] = x.
Proof.
  revert i; induction a as [|y a IH]; intros i Hi; simpl in *; [lia|].
  destruct i; [reflexivity|]; apply IH; lia.
Qed.

Lemma get_upd_ne a i j x : i <> j -> (upd a i x).[j] = a.[j].
Proof.
  revert i j; induction a as [|y a IH]; intros i j Hij; simpl; [reflexivity|].
  destruct i, j; try congruence; simpl; try reflexivity.
  unfold get in *; simpl; apply IH; congruence.
Qed.

Lemma upd_get a i : upd a i a.[i] = a.
Proof.
  revert i; induction a as [|y a IH]; intros [|i]; simpl; try reflexivity.
  unfold get in *; simpl; f_equal; apply IH.
Qed.

Lemma upd_upd_eq a i x y : upd (upd a i x) i y = upd a i y.
Proof. revert i; induction a; intros [|i]; simpl; f_equal; auto. Qed.

Lemma upd_comm a i j x y : i <> j -> upd (upd a i x) j y = upd (upd a j y) i x.
Proof.
  revert i j; induction a as [|z a IH]; intros [|i] [|j] H; simpl; try congruence.
  f_equal; apply IH; congruence.
Qed.

(** [memcpy(dst + off, src, length src)]. *)
Definition memcpy (dst : list Z) (off : nat) (src : list Z) : list Z :=
  firstn off dst ++ src ++ skipn (off + length src) dst.

Lemma memcpy_length dst off src :
  (off + length src <= length dst)%nat -> length (memcpy dst off src) = length dst.
Proof.
  intros H; unfold memcpy; rewrite !length_app, length_firstn, length_skipn; lia.
Qed.

Lemma memcpy_nil dst off : memcpy dst off [] = dst.
Proof. unfold memcpy; simpl; rewrite Nat.add_0_r; apply firstn_skipn. Qed.

(** Two adjacent copies are one. *)
Lemma memcpy_memcpy dst off a b :
  (off + length a + length b <= length dst)%nat ->
  memcpy (memcpy dst off a) (off + length a) b = memcpy dst off (a ++ b).
Proof.
  intros H; unfold memcpy at 1.
  assert (Hf : firstn (off + length a) (memcpy dst off a) = firstn off dst ++ a).
  { unfold memcpy; rewrite firstn_app, length_firstn, Nat.min_l by lia.
    rewrite firstn_all2 by (rewrite length_firstn; lia).
    replace (off + length a - off)%nat with (length a) by lia.
    rewrite firstn_app, Nat.sub_diag, firstn_all; simpl; rewrite app_nil_r; reflexivity. }
  assert (Hs : skipn (off + length a + length b) (memcpy dst off a)
               = skipn (off + length a + length b) dst).
  { unfold memcpy; rewrite skipn_app, length_firstn, Nat.min_l by lia.
    rewrite skipn_all2 by (rewrite length_firstn; lia); simpl.
    rewrite skipn_app, skipn_all2 by lia; simpl.
    rewrite skipn_skipn; f_equal; lia. }
  rewrite Hf, Hs; unfold memcpy; rewrite length_app, <- !app_assoc; simpl.
  rewrite Nat.add_assoc; reflexivity.
Qed.

(** Reading and writing inside and behind a copied region. *)
Lemma get_app_r a b i : (length a <= i)%nat -> (a ++ b).[i] = b.[i - length a].
Proof. intros H; unfold get; apply app_nth2; exact H. Qed.

Lemma get_app_l a b i : (i < length a)%nat -> (a ++ b).[i] = a.[i].
Proof. intros H; unfold get; apply app_nth1; exact H. Qed.

Lemma upd_app_r a b i x :
  (length a <= i)%nat -> upd (a ++ b) i x = a ++ upd b (i - length a) x.
Proof.
  revert i; induction a as [|y a IH]; intros i H; simpl in *.
  - rewrite Nat.sub_0_r; reflexivity.
  - destruct i; [lia|]; simpl; f_equal; apply IH; lia.
Qed.

Lemma upd_app_l a b i x : (i < length a)%nat -> upd (a ++ b) i x = upd a i x ++ b.
Proof.
  revert i; induction a as [|y a IH]; intros i H; simpl in *; [lia|].
  destruct i; [reflexivity|]; simpl; f_equal; apply IH; lia.
Qed.

Lemma get_memcpy dst off src j :
  (off <= length dst)%nat -> (j < length src)%nat -> (memcpy dst off src).[off + j] = src.[j].
Proof.
  intros Ho Hj; unfold memcpy.
  rewrite get_app_r; rewrite length_firstn, Nat.min_l by lia; [|lia].
  rewrite get_app_l by lia; f_equal; lia.
Qed.

Lemma upd_memcpy dst off src j x :
  (off <= length dst)%nat -> (j < length src)%nat ->
  upd (memcpy dst off src) (off + j) x = memcpy dst off (upd src j x).
Proof.
  intros Ho Hj; unfold memcpy; rewrite upd_length.
  rewrite upd_app_r; rewrite length_firstn, Nat.min_l by lia; [|lia].
  rewrite upd_app_l by lia; replace (off + j - off)%nat with j by lia; reflexivity.
Qed.

Lemma skipn_memcpy dst off src :
  (off + length src)%nat = length dst -> skipn off (memcpy dst off src) = src.
Proof.
  intros H; unfold memcpy.
  rewrite (skipn_all2 dst), app_nil_r by lia.
  rewrite skipn_app, skipn_all2 by (rewrite length_firstn; lia).
  rewrite length_firstn, Nat.min_l, Nat.sub_diag by lia; reflexivity.
Qed.

Lemma firstn_memcpy dst off src : (off <= length dst)%nat -> firstn off (memcpy dst off src) = firstn off dst.
Proof.
  intros H; unfold memcpy; rewrite firstn_app, firstn_firstn, Nat.min_id.
  rewrite length_firstn, Nat.min_l, Nat.sub_diag by lia; simpl; apply app_nil_r.
Qed.

(** ** Finite checks

    A statement about every byte is decided by evaluating it at 0..255. *)
Definition bytes256 : list Z := map Z.of_nat (seq 0 256).

Lemma bytes256_spec x : u8 x -> In x bytes256.
Proof.
  intros [H0 H]; unfold bytes256; apply in_map_iff.
  exists (Z.to_nat x); rewrite in_seq; split; lia.
Qed.

Lemma forall_u8 (P : Z -> bool) :
  forallb P bytes256 = true -> forall x, u8 x -> P x = true.
Proof. rewrite forallb_forall; intros H x Hx; apply H, bytes256_spec, Hx. Qed.

(** ** Loops as folds *)

Lemma fold_left_cons {A B} (f : A -> B -> A) x l a : fold_left f (x :: l) a = fold_left f l (f a x).
Proof. reflexivity. Qed.

(** Two loops whose bodies correspond through [g] on the states where [P]
    holds. *)
Lemma fold_left_sim {A B I} (g : B -> A) (P : B -> Prop) (f : A -> I -> A) (f' : B -> I -> B) l b :
  (forall i b, In i l -> P b -> f (g b) i = g (f' b i) /\ P (f' b i)) -> P b ->
  fold_left f l (g b) = g (fold_left f' l b) /\ P (fold_left f' l b).
Proof.
  revert b; induction l as [|i l IH]; intros b H Hb; [split; [reflexivity|exact Hb]|].
  destruct (H i b (or_introl eq_refl) Hb) as [E Hf]; rewrite !fold_left_cons, E.
  apply IH; [intros k c Hk; apply H; right; exact Hk|exact Hf].
Qed.

Lemma fold_left_shift {A} (f : A -> nat -> A) j n a x :
  fold_left (fun x i => f x (j + i)%nat) (seq a n) x = fold_left f (seq (j + a) n) x.
Proof.
  revert x a; induction n as [|n IH]; intros x a; [reflexivity|].
  cbn [seq fold_left]; rewrite IH, Nat.add_succ_r; reflexivity.
Qed.

Lemma fold_left_ext {A B} (f g : A -> B -> A) l a :
  (forall a b, In b l -> f a b = g a b) -> fold_left f l a = fold_left g l a.
Proof.
  revert a; induction l as [|b l IH]; intros a H; [reflexivity|]; cbn [fold_left].
  rewrite H by (left; reflexivity); apply IH; intros; apply H; right; assumption.
Qed.

Lemma firstn_S_get l k : (k < length l)%nat -> firstn (S k) l = firstn k l ++ [l.[k]].
Proof.
  revert k; induction l as [|x l IH]; intros [|k] H; cbn [length] in H; try lia; [reflexivity|].
  change (x :: firstn (S k) l = x :: (firstn k l ++ [l.[k]])); f_equal; apply IH; lia.
Qed.
