(* ===== verification/SphTypes.v ===== *)
(** The word macros and the byte encoders of [src/src/crypto/sph_types.h].

    The build modelled is the one the repository's platforms select: 64-bit
    integers native ([SPH_64_TRUE]), little-endian, [SPH_UPTR] defined.  On
    it the encoders store [sph_bswap32]/[sph_bswap64] of the value (or the
    value) with one word access; the definitions below write the bytes that
    access leaves in memory, which is what the portable branch of the same
    functions spells out. *)
From S2P Require Import Prelude.

Definition SPH_T32 (x : Z) : Z := x .& 0xFFFFFFFF.
Definition SPH_T64 (x : Z) : Z := x .& 0xFFFFFFFFFFFFFFFF.
Definition SPH_ROTL32 (x n : Z) : Z := SPH_T32 ((x << n) .| (x >> (32 - n))).
Definition SPH_ROTR32 (x n : Z) : Z := SPH_ROTL32 x (32 - n).
Definition SPH_ROTL64 (x n : Z) : Z := SPH_T64 ((x << n) .| (x >> (64 - n))).
Definition SPH_ROTR64 (x n : Z) : Z := SPH_ROTL64 x (64 - n).

(** [~x] on a 32- and a 64-bit operand. *)
Definition NOT32 (x : Z) : Z := x ⊕ 0xFFFFFFFF.
Definition NOT64 (x : Z) : Z := x ⊕ 0xFFFFFFFFFFFFFFFF.

Definition sph_enc32be (val : Z) : list Z :=
  [T8 (val >> 24); T8 (val >> 16); T8 (val >> 8); T8 val].

Definition sph_dec32be (src : list Z) : Z :=
  (src.[0] << 24) .| (src.[1] << 16) .| (src.[2] << 8) .| src.[3].

Definition sph_enc32le (val : Z) : list Z :=
  [T8 val; T8 (val >> 8); T8 (val >> 16); T8 (val >> 24)].

Definition sph_dec32le (src : list Z) : Z :=
  src.[0] .| (src.[1] << 8) .| (src.[2] << 16) .| (src.[3] << 24).

Definition sph_enc64be (val : Z) : list Z :=
  [T8 (val >> 56); T8 (val >> 48); T8 (val >> 40); T8 (val >> 32);
   T8 (val >> 24); T8 (val >> 16); T8 (val >> 8); T8 val].

Definition sph_dec64be (src : list Z) : Z :=
  (src.[0] << 56) .| (src.[1] << 48) .| (src.[2] << 40) .| (src.[3] << 32)
  .| (src.[4] << 24) .| (src.[5] << 16) .| (src.[6] << 8) .| src.[7].

Definition sph_enc64le (val : Z) : list Z :=
  [T8 val; T8 (val >> 8); T8 (val >> 16); T8 (val >> 24);
   T8 (val >> 32); T8 (val >> 40); T8 (val >> 48); T8 (val >> 56)].

Definition sph_dec64le (src : list Z) : Z :=
  src.[0] .| (src.[1] << 8) .| (src.[2] << 16) .| (src.[3] << 24)
  .| (src.[4] << 32) .| (src.[5] << 40) .| (src.[6] << 48) .| (src.[7] << 56).

Definition sph_bswap32 (x : Z) : Z :=
  let x := SPH_T32 ((x << 16) .| (x >> 16)) in
  ((x .& 0xFF00FF00) >> 8) .| ((x .& 0x00FF00FF) << 8).

Definition sph_bswap64 (x : Z) : Z :=
  let x := SPH_T64 ((x << 32) .| (x >> 32)) in
  let x := ((x .& 0xFFFF0000FFFF0000) >> 16) .| ((x .& 0x0000FFFF0000FFFF) << 16) in
  ((x .& 0xFF00FF00FF00FF00) >> 8) .| ((x .& 0x00FF00FF00FF00FF) << 8).

(** Reading the [n] consecutive words of a buffer. *)
Definition words64be (n : nat) (buf : list Z) : list Z :=
  map (fun k => sph_dec64be (skipn (8 * k) buf)) (seq 0 n).
Definition words64le (n : nat) (buf : list Z) : list Z :=
  map (fun k => sph_dec64le (skipn (8 * k) buf)) (seq 0 n).
Definition words32be (n : nat) (buf : list Z) : list Z :=
  map (fun k => sph_dec32be (skipn (4 * k) buf)) (seq 0 n).
Definition words32le (n : nat) (buf : list Z) : list Z :=
  map (fun k => sph_dec32le (skipn (4 * k) buf)) (seq 0 n).

(** ** Lengths *)

Lemma enc64be_length x : length (sph_enc64be x) = 8%nat.
Proof. reflexivity. Qed.

Lemma enc64le_length x : length (sph_enc64le x) = 8%nat.
Proof. reflexivity. Qed.

Lemma enc32be_length x : length (sph_enc32be x) = 4%nat.
Proof. reflexivity. Qed.

Lemma enc32le_length x : length (sph_enc32le x) = 4%nat.
Proof. reflexivity. Qed.

(** Length side conditions of the buffer lemmas. *)
Ltac lens :=
  rewrite ?repeat_length, ?length_app, ?repeat_length, ?upd_length, ?enc64be_length, ?enc64le_length,
    ?enc32be_length, ?enc32le_length, ?repeat_length, ?length_firstn, ?length_skipn;
  cbn [length]; try lia.

(** ** Ranges *)

Lemma SPH_T32_T32 x : SPH_T32 x = T32 x.
Proof. reflexivity. Qed.

Lemma SPH_T64_T64 x : SPH_T64 x = T64 x.
Proof. reflexivity. Qed.

Lemma SPH_T32_u32 x : u32 (SPH_T32 x).
Proof. apply T32_u32. Qed.

Lemma SPH_T64_u64 x : u64 (SPH_T64 x).
Proof. apply T64_u64. Qed.

Lemma ROTL64_u64 x n : u64 (SPH_ROTL64 x n).
Proof. apply T64_u64. Qed.

Lemma ROTR64_u64 x n : u64 (SPH_ROTR64 x n).
Proof. apply T64_u64. Qed.

Lemma ROTL32_u32 x n : u32 (SPH_ROTL32 x n).
Proof. apply T32_u32. Qed.

Lemma ROTR32_u32 x n : u32 (SPH_ROTR32 x n).
Proof. apply T32_u32. Qed.

Lemma NOT64_u64 x : u64 x -> u64 (NOT64 x).
Proof. intros H; apply u64_lxor; [exact H|unfold u64; lia]. Qed.

Lemma NOT32_u32 x : u32 x -> u32 (NOT32 x).
Proof. intros H; apply u32_lxor; [exact H|unfold u32; lia]. Qed.

#[export] Hint Resolve SPH_T32_u32 SPH_T64_u64 ROTL64_u64 ROTR64_u64 ROTL32_u32
  ROTR32_u32 NOT64_u64 NOT32_u32 : words.

(** ** Rotations *)

(** The bit at [i] of a rotation left by [n] is the bit at [i - n], cyclically. *)
Lemma ROTL64_testbit x n i :
  u64 x -> 0 < n < 64 -> 0 <= i < 64 ->
  Z.testbit (SPH_ROTL64 x n) i = Z.testbit x (if i <? n then i - n + 64 else i - n).
Proof.
  intros Hx Hn Hi; unfold SPH_ROTL64, SPH_T64.
  change 0xFFFFFFFFFFFFFFFF with (Z.ones 64).
  rewrite Z.land_spec, Z.ones_spec_low, andb_true_r by lia.
  rewrite Z.lor_spec, Z.shiftl_spec, Z.shiftr_spec by lia.
  destruct (Z.ltb_spec i n).
  - rewrite Z.testbit_neg_r, orb_false_l by lia; f_equal; lia.
  - rewrite (in_width_high 64 x (i + (64 - n))) by (exact Hx || lia).
    apply orb_false_r.
Qed.

(** Rotating right undoes rotating left, and conversely. *)
Lemma ROTR64_ROTL64 x n : u64 x -> 0 < n < 64 -> SPH_ROTR64 (SPH_ROTL64 x n) n = x.
Proof.
  intros Hx Hn; apply (in_width_ext 64); [lia| apply ROTR64_u64 | exact Hx |].
  intros i Hi; unfold SPH_ROTR64.
  rewrite ROTL64_testbit by (apply ROTL64_u64 || lia).
  destruct (Z.ltb_spec i (64 - n)); rewrite ROTL64_testbit by (exact Hx || lia).
  - destruct (Z.ltb_spec (i - (64 - n) + 64) n); [lia|]; f_equal; lia.
  - destruct (Z.ltb_spec (i - (64 - n)) n); [|lia]; f_equal; lia.
Qed.

Lemma ROTL64_0 x : u64 x -> SPH_ROTL64 x 0 = x.
Proof.
  intros Hx; unfold SPH_ROTL64; change (SPH_T64 (Z.lor (x << 0) (x >> (64 - 0)))) with (T64 (Z.lor (x << 0) (x >> 64))).
  rewrite Z.shiftr_div_pow2, Z.div_small, Z.lor_0_r, Z.shiftl_0_r by (exact Hx || lia); apply T64_id, Hx.
Qed.

(** Rotation is linear. *)
Lemma ROTL64_lxor x y n : u64 x -> u64 y -> 0 <= n < 64 -> SPH_ROTL64 (x ⊕ y) n = SPH_ROTL64 x n ⊕ SPH_ROTL64 y n.
Proof.
  intros Hx Hy Hn; destruct (Z.eqb_spec n 0) as [->|Hn0].
  { rewrite !ROTL64_0 by (try apply u64_lxor; assumption); reflexivity. }
  apply (in_width_ext 64); [lia|apply ROTL64_u64|apply u64_lxor; apply ROTL64_u64|]; intros i Hi.
  rewrite Z.lxor_spec, !ROTL64_testbit, Z.lxor_spec by (try apply u64_lxor; assumption || lia); reflexivity.
Qed.

Lemma ROTL64_ROTR64 x n : u64 x -> 0 < n < 64 -> SPH_ROTL64 (SPH_ROTR64 x n) n = x.
Proof.
  intros Hx Hn; generalize (ROTR64_ROTL64 x (64 - n) Hx ltac:(lia)); unfold SPH_ROTR64.
  replace (64 - (64 - n)) with n by lia; intros ->; reflexivity.
Qed.

(** ** Words of a buffer depend on its first bytes only *)

Lemma get_firstn l n i : (i < n)%nat -> (firstn n l).[i] = l.[i].
Proof.
  unfold get; revert n i; induction l as [|x l IH]; intros [|n] [|i] H; simpl; try lia; auto.
  apply IH; lia.
Qed.

Lemma get_skipn l n i : (skipn n l).[i] = l.[n + i].
Proof.
  unfold get; revert l; induction n as [|n IH]; intros [|x l]; simpl; auto.
  destruct i; reflexivity.
Qed.

Lemma dec64be_firstn_skipn l n k :
  (k + 8 <= n)%nat -> sph_dec64be (skipn k l) = sph_dec64be (skipn k (firstn n l)).
Proof. intros H; unfold sph_dec64be; rewrite !get_skipn, !get_firstn by lia; reflexivity. Qed.

Lemma dec64le_firstn_skipn l n k :
  (k + 8 <= n)%nat -> sph_dec64le (skipn k l) = sph_dec64le (skipn k (firstn n l)).
Proof. intros H; unfold sph_dec64le; rewrite !get_skipn, !get_firstn by lia; reflexivity. Qed.

Lemma dec32be_firstn_skipn l n k :
  (k + 4 <= n)%nat -> sph_dec32be (skipn k l) = sph_dec32be (skipn k (firstn n l)).
Proof. intros H; unfold sph_dec32be; rewrite !get_skipn, !get_firstn by lia; reflexivity. Qed.

Lemma dec32le_firstn_skipn l n k :
  (k + 4 <= n)%nat -> sph_dec32le (skipn k l) = sph_dec32le (skipn k (firstn n l)).
Proof. intros H; unfold sph_dec32le; rewrite !get_skipn, !get_firstn by lia; reflexivity. Qed.

Lemma words64be_firstn n l : words64be n l = words64be n (firstn (8 * n) l).
Proof.
  apply map_ext_in; intros k Hk; apply in_seq in Hk; apply dec64be_firstn_skipn; lia.
Qed.

Lemma words64le_firstn n l : words64le n l = words64le n (firstn (8 * n) l).
Proof.
  apply map_ext_in; intros k Hk; apply in_seq in Hk; apply dec64le_firstn_skipn; lia.
Qed.

Lemma words32be_firstn n l : words32be n l = words32be n (firstn (4 * n) l).
Proof.
  apply map_ext_in; intros k Hk; apply in_seq in Hk; apply dec32be_firstn_skipn; lia.
Qed.

Lemma words32le_firstn n l : words32le n l = words32le n (firstn (4 * n) l).
Proof.
  apply map_ext_in; intros k Hk; apply in_seq in Hk; apply dec32le_firstn_skipn; lia.
Qed.

(** ** Encoding and decoding

    Little-endian numbers as Horner sums; the shifts and ors of the encoders
    compute them. *)

Fixpoint le_val (b : list Z) : Z :=
  match b with
  | [] => 0
  | x :: b => x + 2 ^ 8 * le_val b
  end.

Fixpoint le_bytes (n : nat) (x : Z) : list Z :=
  match n with
  | O => []
  | S n => x mod 2 ^ 8 :: le_bytes n (x / 2 ^ 8)
  end.

Lemma le_bytes_length n x : length (le_bytes n x) = n.
Proof. revert x; induction n; simpl; auto. Qed.

Lemma le_bytes_u8 n x : Forall u8 (le_bytes n x).
Proof. revert x; induction n; constructor; [apply (in_width_mod 8); lia|auto]. Qed.

Lemma le_val_bound b : Forall u8 b -> 0 <= le_val b < 2 ^ (8 * Z.of_nat (length b)).
Proof.
  induction 1 as [|x b Hx _ IH]; [cbn; lia|].
  replace (8 * Z.of_nat (length (x :: b))) with (8 + 8 * Z.of_nat (length b)) by (cbn [length]; lia).
  rewrite Z.pow_add_r by lia; unfold u8 in Hx; cbn [le_val]; lia.
Qed.

Lemma le_val_bytes n : forall x, 0 <= x < 2 ^ (8 * Z.of_nat n) -> le_val (le_bytes n x) = x.
Proof.
  induction n as [|n IH]; intros x Hx.
  - change (2 ^ (8 * Z.of_nat 0)) with 1 in Hx; cbn; lia.
  - replace (8 * Z.of_nat (S n)) with (8 + 8 * Z.of_nat n) in Hx by lia.
    rewrite Z.pow_add_r in Hx by lia; cbn [le_bytes le_val].
    rewrite IH by (split; [apply Z.div_pos; lia|apply Z.div_lt_upper_bound; lia]).
    rewrite (Z.div_mod x (2 ^ 8)) at 3 by lia; ring.
Qed.

Lemma le_bytes_val b : Forall u8 b -> le_bytes (length b) (le_val b) = b.
Proof.
  induction 1 as [|x b Hx Hb IH]; [reflexivity|]; cbn [length le_bytes le_val]; unfold u8 in Hx.
  rewrite (Z.mul_comm (2 ^ 8)), Z.mod_add, Z.mod_small, Z.div_add, Z.div_small, Z.add_0_l by lia.
  f_equal; exact IH.
Qed.

Lemma le_val_app a b : le_val (a ++ b) = le_val a + 2 ^ (8 * Z.of_nat (length a)) * le_val b.
Proof.
  induction a as [|x a IH]; [cbn [app le_val length]; rewrite Z.mul_1_l; reflexivity|].
  cbn [app le_val]; rewrite IH; replace (8 * Z.of_nat (length (x :: a))) with (8 + 8 * Z.of_nat (length a))
    by (cbn [length]; lia).
  rewrite Z.pow_add_r by lia; ring.
Qed.

(** Disjoint or is addition. *)
Lemma lor_shl_add a b k : 0 <= a < 2 ^ k -> 0 <= k -> a .| (b << k) = a + b * 2 ^ k.
Proof.
  intros Ha Hk; rewrite Z.shiftl_mul_pow2 by lia.
  assert (Hl : a .& (b * 2 ^ k) = 0).
  { apply Z.bits_inj'; intros i Hi; rewrite Z.land_spec, Z.bits_0.
    destruct (Z.lt_ge_cases i k).
    - rewrite Z.mul_pow2_bits, (Z.testbit_neg_r b) by lia; apply andb_false_r.
    - rewrite (in_width_high k a) by (lia || exact Ha); reflexivity. }
  rewrite <- Z.lxor_lor, <- Z.add_nocarry_lxor by exact Hl; reflexivity.
Qed.

Lemma T8_shr x k : 0 <= k -> T8 (x >> k) = x / 2 ^ k mod 2 ^ 8.
Proof. intros Hk; rewrite T8_mod, Z.shiftr_div_pow2 by exact Hk; reflexivity. Qed.

Lemma div_div_pow2 x a b : 0 <= a -> 0 <= b -> x / 2 ^ a / 2 ^ b = x / 2 ^ (a + b).
Proof. intros; rewrite Z.div_div by (try apply Z.pow_nonzero; lia); rewrite Z.pow_add_r by lia; reflexivity. Qed.

Lemma enc32le_bytes x : sph_enc32le x = le_bytes 4 x.
Proof. unfold sph_enc32le; cbn [le_bytes]; rewrite !T8_shr, T8_mod, !div_div_pow2 by lia; reflexivity. Qed.

Lemma enc64le_bytes x : sph_enc64le x = le_bytes 8 x.
Proof. unfold sph_enc64le; cbn [le_bytes]; rewrite !T8_shr, T8_mod, !div_div_pow2 by lia; reflexivity. Qed.

Lemma enc32be_bytes x : sph_enc32be x = rev (le_bytes 4 x).
Proof. rewrite <- enc32le_bytes; reflexivity. Qed.

Lemma enc64be_bytes x : sph_enc64be x = rev (le_bytes 8 x).
Proof. rewrite <- enc64le_bytes; reflexivity. Qed.

Ltac bytes_of b Hb :=
  repeat (destruct b as [|? b]; try discriminate);
  repeat match goal with H : Forall u8 (_ :: _) |- _ => inversion_clear H end;
  unfold u8 in *.

Lemma dec32le_val b : Forall u8 b -> length b = 4%nat -> sph_dec32le b = le_val b.
Proof.
  intros Hb Hl; destruct b as [|b0 [|b1 [|b2 [|b3 [|]]]]]; try discriminate Hl.
  repeat match goal with H : Forall u8 (_ :: _) |- _ => inversion_clear H end; unfold u8 in *.
  unfold sph_dec32le, get; cbn [nth le_val].
  rewrite (lor_shl_add b0 b1), (lor_shl_add _ b2), (lor_shl_add _ b3) by lia; lia.
Qed.

Lemma dec64le_val b : Forall u8 b -> length b = 8%nat -> sph_dec64le b = le_val b.
Proof.
  intros Hb Hl; destruct b as [|b0 [|b1 [|b2 [|b3 [|b4 [|b5 [|b6 [|b7 [|]]]]]]]]]; try discriminate Hl.
  repeat match goal with H : Forall u8 (_ :: _) |- _ => inversion_clear H end; unfold u8 in *.
  unfold sph_dec64le, get; cbn [nth le_val].
  rewrite (lor_shl_add b0 b1), (lor_shl_add _ b2), (lor_shl_add _ b3), (lor_shl_add _ b4),
    (lor_shl_add _ b5), (lor_shl_add _ b6), (lor_shl_add _ b7) by lia; lia.
Qed.

(** The big-endian decoders read the reversed bytes. *)
Lemma dec32be_rev b : length b = 4%nat -> sph_dec32be b = sph_dec32le (rev b).
Proof.
  intros Hl; destruct b as [|b0 [|b1 [|b2 [|b3 [|]]]]]; try discriminate Hl.
  unfold sph_dec32be, sph_dec32le, get; cbn [nth rev app].
  apply Z.bits_inj'; intros i Hi; rewrite !Z.lor_spec; btauto.
Qed.

Lemma dec64be_rev b : length b = 8%nat -> sph_dec64be b = sph_dec64le (rev b).
Proof.
  intros Hl; destruct b as [|b0 [|b1 [|b2 [|b3 [|b4 [|b5 [|b6 [|b7 [|]]]]]]]]]; try discriminate Hl.
  unfold sph_dec64be, sph_dec64le, get; cbn [nth rev app].
  apply Z.bits_inj'; intros i Hi; rewrite !Z.lor_spec; btauto.
Qed.

Lemma dec_enc32le x : u32 x -> sph_dec32le (sph_enc32le x) = x.
Proof.
  intros Hx; rewrite enc32le_bytes, dec32le_val by (apply le_bytes_u8 || apply le_bytes_length).
  apply le_val_bytes; exact Hx.
Qed.

Lemma dec_enc64le x : u64 x -> sph_dec64le (sph_enc64le x) = x.
Proof.
  intros Hx; rewrite enc64le_bytes, dec64le_val by (apply le_bytes_u8 || apply le_bytes_length).
  apply le_val_bytes; exact Hx.
Qed.

Lemma dec_enc32be x : u32 x -> sph_dec32be (sph_enc32be x) = x.
Proof. intros Hx; rewrite dec32be_rev by reflexivity; apply (dec_enc32le x Hx). Qed.

Lemma dec_enc64be x : u64 x -> sph_dec64be (sph_enc64be x) = x.
Proof. intros Hx; rewrite dec64be_rev by reflexivity; apply (dec_enc64le x Hx). Qed.

Lemma enc_dec32le b : Forall u8 b -> length b = 4%nat -> sph_enc32le (sph_dec32le b) = b.
Proof. intros Hb Hl; rewrite dec32le_val, enc32le_bytes, <- Hl by assumption; apply le_bytes_val, Hb. Qed.

Lemma enc_dec64le b : Forall u8 b -> length b = 8%nat -> sph_enc64le (sph_dec64le b) = b.
Proof. intros Hb Hl; rewrite dec64le_val, enc64le_bytes, <- Hl by assumption; apply le_bytes_val, Hb. Qed.

Lemma enc_dec32be b : Forall u8 b -> length b = 4%nat -> sph_enc32be (sph_dec32be b) = b.
Proof.
  intros Hb Hl; rewrite dec32be_rev, enc32be_bytes, <- enc32le_bytes by exact Hl.
  rewrite enc_dec32le, rev_involutive by (try apply Forall_rev; rewrite ?length_rev; assumption); reflexivity.
Qed.

Lemma enc_dec64be b : Forall u8 b -> length b = 8%nat -> sph_enc64be (sph_dec64be b) = b.
Proof.
  intros Hb Hl; rewrite dec64be_rev, enc64be_bytes, <- enc64le_bytes by exact Hl.
  rewrite enc_dec64le, rev_involutive by (try apply Forall_rev; rewrite ?length_rev; assumption); reflexivity.
Qed.

(** Decoder ranges, for bytes. *)
Lemma dec32le_u32 b : Forall u8 b -> length b = 4%nat -> u32 (sph_dec32le b).
Proof. intros Hb Hl; rewrite dec32le_val by assumption; pose proof (le_val_bound b Hb) as H; rewrite Hl in H; exact H. Qed.

Lemma dec64le_u64 b : Forall u8 b -> length b = 8%nat -> u64 (sph_dec64le b).
Proof. intros Hb Hl; rewrite dec64le_val by assumption; pose proof (le_val_bound b Hb) as H; rewrite Hl in H; exact H. Qed.

(** ** The byte swaps *)

(** The positions [0..n-1], to check a statement on each bit. *)
Lemma index_cases n i : 0 <= i < Z.of_nat n -> In i (map Z.of_nat (seq 0 n)).
Proof. intros Hi; apply in_map_iff; exists (Z.to_nat i); rewrite in_seq; split; lia. Qed.

Lemma testbit_shl x n i : 0 <= n -> Z.testbit (x << n) i = (n <=? i) && Z.testbit x (i - n).
Proof.
  intros Hn; destruct (Z.leb_spec n i); [apply Z.shiftl_spec; lia|].
  destruct (Z.lt_ge_cases i 0); [apply Z.testbit_neg_r; assumption|].
  rewrite Z.shiftl_spec, Z.testbit_neg_r by lia; reflexivity.
Qed.

Lemma testbit_shr0 x n i : 0 <= n -> Z.testbit (x >> n) i = (0 <=? i) && Z.testbit x (i + n).
Proof.
  intros Hn; destruct (Z.leb_spec 0 i); [apply Z.shiftr_spec; lia|apply Z.testbit_neg_r; assumption].
Qed.

(** Bit [i] of a swapped word is bit [i mod 8] of the mirrored byte. *)
Ltac swap_bits x w n i Hx Hi :=
  repeat (rewrite ?Z.lor_spec, ?Z.land_spec; rewrite ?testbit_shl, ?testbit_shr0 by lia);
  let Hin := fresh "Hin" in
  pose proof (index_cases n i Hi) as Hin;
  let Hf := fresh "Hf" in
  assert (Hf : forall k, w <= k -> Z.testbit x k = false)
    by (intros k Hk; apply (in_width_high w); (exact Hx || lia));
  revert Hf; generalize (Z.testbit x); let f := fresh "f" in intros f Hf; vm_compute in Hin;
  repeat (destruct Hin as [<-|Hin];
    [vm_compute;
     repeat match goal with |- context [f ?k] => first [rewrite (Hf k) by lia | destruct (f k)] end;
     reflexivity|]);
  contradiction.

Lemma bswap64_testbit x i :
  u64 x -> 0 <= i < 64 -> Z.testbit (sph_bswap64 x) i = Z.testbit x (56 - 8 * (i / 8) + i mod 8).
Proof. intros Hx Hi; unfold sph_bswap64, SPH_T64; cbv zeta; swap_bits x 64 64%nat i Hx Hi. Qed.

Lemma bswap32_testbit x i :
  u32 x -> 0 <= i < 32 -> Z.testbit (sph_bswap32 x) i = Z.testbit x (24 - 8 * (i / 8) + i mod 8).
Proof. intros Hx Hi; unfold sph_bswap32, SPH_T32; cbv zeta; swap_bits x 32 32%nat i Hx Hi. Qed.

Lemma T8_shr_ext x y j k :
  0 <= j -> 0 <= k ->
  (forall i, 0 <= i < 8 -> Z.testbit x (i + j) = Z.testbit y (i + k)) -> T8 (x >> j) = T8 (y >> k).
Proof.
  intros Hj Hk H; apply (in_width_ext 8); [lia|apply T8_u8|apply T8_u8|].
  intros i Hi; rewrite !T8_testbit, !Z.shiftr_spec, H by lia; reflexivity.
Qed.

Lemma T8_shr0 x : T8 x = T8 (x >> 0).
Proof. rewrite Z.shiftr_0_r; reflexivity. Qed.

Lemma enc64_bswap x : u64 x -> sph_enc64le (sph_bswap64 x) = sph_enc64be x.
Proof.
  intros Hx; unfold sph_enc64le, sph_enc64be; rewrite (T8_shr0 (sph_bswap64 x)), (T8_shr0 x).
  repeat (apply (f_equal2 (@cons Z)); [|]); try reflexivity;
    (apply T8_shr_ext; [lia|lia|]; intros i Hi;
     rewrite bswap64_testbit by (exact Hx || lia); f_equal; Z.div_mod_to_equations; lia).
Qed.

Lemma enc32_bswap x : u32 x -> sph_enc32le (sph_bswap32 x) = sph_enc32be x.
Proof.
  intros Hx; unfold sph_enc32le, sph_enc32be; rewrite (T8_shr0 (sph_bswap32 x)), (T8_shr0 x).
  repeat (apply (f_equal2 (@cons Z)); [|]); try reflexivity;
    (apply T8_shr_ext; [lia|lia|]; intros i Hi;
     rewrite bswap32_testbit by (exact Hx || lia); f_equal; Z.div_mod_to_equations; lia).
Qed.

(** The encoders and decoders of [sph_types.h] invert each other, in both
    byte orders and both widths, and the word-access build (store the
    byte-swapped word) leaves the bytes the portable build writes. *)
Theorem sph_codec :
  (forall x, u32 x -> sph_dec32le (sph_enc32le x) = x /\ sph_dec32be (sph_enc32be x) = x) /\
  (forall x, u64 x -> sph_dec64le (sph_enc64le x) = x /\ sph_dec64be (sph_enc64be x) = x) /\
  (forall b, Forall u8 b -> length b = 4%nat -> sph_enc32le (sph_dec32le b) = b /\ sph_enc32be (sph_dec32be b) = b) /\
  (forall b, Forall u8 b -> length b = 8%nat -> sph_enc64le (sph_dec64le b) = b /\ sph_enc64be (sph_dec64be b) = b) /\
  (forall x, u64 x -> sph_enc64le (sph_bswap64 x) = sph_enc64be x) /\
  (forall x, u32 x -> sph_enc32le (sph_bswap32 x) = sph_enc32be x).
Proof.
  repeat split; auto using dec_enc32le, dec_enc32be, dec_enc64le, dec_enc64be, enc_dec32le, enc_dec32be,
    enc_dec64le, enc_dec64be, enc64_bswap, enc32_bswap.
Qed.

Lemma sph_codec_witness :
  u64 0x0123456789ABCDEF /\ sph_dec64be (sph_enc64be 0x0123456789ABCDEF) = 0x0123456789ABCDEF /\
  sph_enc64le (sph_bswap64 0x0123456789ABCDEF) = [1; 0x23; 0x45; 0x67; 0x89; 0xAB; 0xCD; 0xEF].
Proof.
  assert (H : u64 0x0123456789ABCDEF) by (unfold u64; lia).
  split; [exact H|split].
  - apply (proj1 (proj2 sph_codec) _ H).
  - rewrite (proj1 (proj2 (proj2 (proj2 (proj2 sph_codec)))) _ H); reflexivity.
Defined.
