(* ===== verification/SphStream.v ===== *)
(** The buffered absorption loop shared by the hash functions of
  [src/src/crypto/].

  Every sphlib function keeps a context with a block-sized buffer [buf],
  the number [ptr] of pending bytes and its chaining state, and absorbs data
  with the same loop: fill the buffer, compress when it is full, repeat.
  [Stream.core] is that loop, with the block size and the step performed
  on a full buffer as parameters; each hash file instantiates it.

  The specification is the machine [absorb] that takes one byte at a time.
  [core] implements it ([core_absorb]), so splitting the input over several
  calls does not change the context ([core_app]). *)
From S2P Require Import Prelude.

Record context (St : Type) : Type := mkContext {
  buf : list Z;
  ptr : nat;
  chain : St
}.
Arguments mkContext {St}.
Arguments buf {St}.
Arguments ptr {St}.
Arguments chain {St}.

Section Stream.
Context {St : Type}.
(** [sizeof sc->buf], or the rate for a sponge. *)
Variable size : nat.
(** What the loop does when the buffer is full. *)
Variable step : list Z -> St -> St.

(** The [while (len > 0)] loop; [fuel] bounds its iterations. *)
Fixpoint core_loop (fuel : nat) (c : context St) (data : list Z) : context St :=
  match fuel, data with
  | _, [] => c
  | O, _ => c
  | S fuel, _ =>
      let clen := Nat.min (size - ptr c) (length data) in
      let b := memcpy (buf c) (ptr c) (firstn clen data) in
      let p := (ptr c + clen)%nat in
      let data := skipn clen data in
      if (p =? size)%nat
      then core_loop fuel (mkContext b 0 (step b (chain c))) data
      else core_loop fuel (mkContext b p (chain c)) data
  end.

(** The whole function: the early return when the data does not fill the
    buffer, then the loop.  Every iteration consumes a byte, so [length
    data] iterations are enough. *)
Definition core (c : context St) (data : list Z) : context St :=
  if (length data <? size - ptr c)%nat
  then mkContext (memcpy (buf c) (ptr c) data) (ptr c + length data) (chain c)
  else core_loop (length data) c data.

(** The specification: one byte at a time. *)
Definition absorb (c : context St) (x : Z) : context St :=
  let b := memcpy (buf c) (ptr c) [x] in
  if (S (ptr c) =? size)%nat
  then mkContext b 0 (step b (chain c))
  else mkContext b (S (ptr c)) (chain c).

(** The invariant of a context between two calls. *)
Definition wf (c : context St) : Prop :=
  (ptr c < size <= length (buf c))%nat.

Lemma absorb_wf c x : wf c -> wf (absorb c x).
Proof.
  unfold wf, absorb; intros H.
  destruct (Nat.eqb_spec (S (ptr c)) size); simpl; rewrite memcpy_length;
    simpl; lia.
Qed.

Lemma absorb_all_wf data c : wf c -> wf (fold_left absorb data c).
Proof. revert c; induction data; simpl; auto using absorb_wf. Qed.

(** A chunk that does not fill the buffer is one [memcpy]. *)
Lemma absorb_chunk data c :
  wf c -> (ptr c + length data < size)%nat ->
  fold_left absorb data c
  = mkContext (memcpy (buf c) (ptr c) data) (ptr c + length data) (chain c).
Proof.
  revert c; induction data as [|x data IH]; intros c Hw Hl; simpl in *.
  - rewrite memcpy_nil, Nat.add_0_r; destruct c; reflexivity.
  - assert (Ha : absorb c x = mkContext (memcpy (buf c) (ptr c) [x]) (S (ptr c)) (chain c)).
    { unfold absorb; destruct (Nat.eqb_spec (S (ptr c)) size); [lia|reflexivity]. }
    rewrite IH; rewrite ?Ha; simpl; [|rewrite <- Ha; apply absorb_wf, Hw|lia].
    f_equal; [|lia].
    replace (S (ptr c)) with (ptr c + length [x])%nat by (simpl; lia).
    rewrite memcpy_memcpy; [reflexivity|unfold wf in Hw; simpl; lia].
Qed.

(** A chunk that exactly fills it is one [memcpy] and one [step]. *)
Lemma absorb_block data c :
  wf c -> (ptr c + length data)%nat = size -> data <> [] ->
  fold_left absorb data c
  = let b := memcpy (buf c) (ptr c) data in mkContext b 0 (step b (chain c)).
Proof.
  intros Hw Hl Hne; destruct (exists_last Hne) as (d & x & ->).
  rewrite length_app in Hl; simpl in Hl.
  rewrite fold_left_app, (absorb_chunk d c) by (try assumption; lia).
  cbn [fold_left]; unfold absorb; cbn [buf ptr chain].
  destruct (Nat.eqb_spec (S (ptr c + length d)) size) as [_|]; [|lia].
  unfold wf in Hw; rewrite memcpy_memcpy by (cbn [length]; lia); reflexivity.
Qed.

Lemma core_loop_absorb fuel data c :
  wf c -> (length data <= fuel)%nat -> core_loop fuel c data = fold_left absorb data c.
Proof.
  revert data c; induction fuel as [|fuel IH]; intros data c Hw Hf.
  - destruct data; simpl in *; [reflexivity|lia].
  - destruct data as [|x data]; [reflexivity|].
    assert (Hne : x :: data <> []) by discriminate.
    revert Hf Hne; generalize (x :: data) as d; clear x data; intros data Hf Hne.
    replace (core_loop (S fuel) c data) with
      (let clen := Nat.min (size - ptr c) (length data) in
       let b := memcpy (buf c) (ptr c) (firstn clen data) in
       if (ptr c + clen =? size)%nat
       then core_loop fuel (mkContext b 0 (step b (chain c))) (skipn clen data)
       else core_loop fuel (mkContext b (ptr c + clen) (chain c)) (skipn clen data))
      by (destruct data; [congruence|reflexivity]).
    cbv zeta; set (clen := Nat.min _ _).
    assert (Hd : (0 < length data)%nat) by (destruct data; simpl; [congruence|lia]).
    assert (Hc : (0 < clen)%nat) by (unfold wf in Hw; lia).
    transitivity (fold_left absorb (skipn clen data) (fold_left absorb (firstn clen data) c));
      [|rewrite <- fold_left_app, firstn_skipn; reflexivity].
    assert (Hlen : length (firstn clen data) = clen) by (rewrite length_firstn; lia).
    destruct (Nat.eqb_spec (ptr c + clen) size) as [He|He].
    + rewrite (absorb_block (firstn clen data) c) by
        (try assumption; try lia; intros E; rewrite E in Hlen; simpl in Hlen; lia).
      apply IH; [|rewrite length_skipn; lia].
      unfold wf in *; simpl; rewrite memcpy_length; lia.
    + rewrite (absorb_chunk (firstn clen data) c) by (try assumption; lia).
      rewrite Hlen; apply IH; [|rewrite length_skipn; lia].
      unfold wf in *; simpl; rewrite memcpy_length; lia.
Qed.

(** The loop implements the byte-at-a-time machine. *)
Lemma core_absorb data c : wf c -> core c data = fold_left absorb data c.
Proof.
  intros Hw; unfold core; destruct (Nat.ltb_spec (length data) (size - ptr c)).
  - symmetry; apply absorb_chunk; [exact Hw|lia].
  - apply core_loop_absorb; [exact Hw|lia].
Qed.

Lemma core_wf data c : wf c -> wf (core c data).
Proof. intros Hw; rewrite core_absorb by exact Hw; apply absorb_all_wf, Hw. Qed.

Lemma core_app a b c : wf c -> core (core c a) b = core c (a ++ b).
Proof.
  intros Hw; rewrite !core_absorb by (try apply core_wf; exact Hw).
  symmetry; apply fold_left_app.
Qed.
End Stream.

(** ** Absorption by blocks

  On a fresh buffer the loop cuts the data into blocks of [size] bytes,
  steps on each of them in order, and leaves the rest in the buffer. *)

(** The [n] first blocks of [data]. *)
Fixpoint blocks (size n : nat) (data : list Z) : list (list Z) :=
match n with
| O => []
| S n => firstn size data :: blocks size n (skipn size data)
end.

(** Running the step over a list of blocks. *)
Definition run {St} (step : list Z -> St -> St) (bs : list (list Z)) (st : St) : St :=
fold_left (fun st b => step b st) bs st.

Lemma run_app {St} (step : list Z -> St -> St) a b st :
run step (a ++ b) st = run step b (run step a st).
Proof. apply fold_left_app. Qed.

Lemma run_cons {St} (step : list Z -> St -> St) b bs st :
run step (b :: bs) st = run step bs (step b st).
Proof. reflexivity. Qed.

Lemma blocks_length size n data : length (blocks size n data) = n.
Proof. revert data; induction n; simpl; auto. Qed.

Lemma blocks_app size n m data :
blocks size (n + m) data = blocks size n data ++ blocks size m (skipn (n * size) data).
Proof.
revert data; induction n as [|n IH]; intros data; [reflexivity|].
simpl; rewrite IH, skipn_skipn, (Nat.add_comm size); reflexivity.
Qed.

Lemma blocks_full size n data :
(n * size <= length data)%nat ->
blocks size n data = blocks size n (firstn (n * size) data).
Proof.
revert data; induction n as [|n IH]; intros data Hl; [reflexivity|].
simpl in *; f_equal.
- rewrite firstn_firstn; f_equal; lia.
- rewrite IH by (rewrite length_skipn; lia); f_equal.
  rewrite skipn_firstn_comm; f_equal; lia.
Qed.

Lemma blocks_app_l size n a b :
length a = (n * size)%nat -> blocks size n (a ++ b) = blocks size n a.
Proof.
intros H; rewrite (blocks_full _ _ (a ++ b)) by (rewrite length_app; lia).
rewrite firstn_app, <- H, Nat.sub_diag, firstn_all; simpl; rewrite app_nil_r; reflexivity.
Qed.

Lemma blocks_cons size n a b :
length a = size -> blocks size (S n) (a ++ b) = a :: blocks size n b.
Proof.
intros <-; cbn [blocks]; rewrite firstn_app, skipn_app, firstn_all, skipn_all, Nat.sub_diag.
cbn [firstn skipn app]; rewrite app_nil_r; reflexivity.
Qed.

Lemma blocks_one size a : length a = size -> blocks size 1 a = [a].
Proof. intros <-; cbn [blocks]; rewrite firstn_all; reflexivity. Qed.

(** Data behind [n] blocks and a rest. *)
Lemma blocks_tail size n k data tail d :
length data = (n * size + length tail)%nat -> skipn (n * size) data = tail ->
blocks size (n + k) (data ++ d) = blocks size n data ++ blocks size k (tail ++ d).
Proof.
intros Hl Hs; rewrite blocks_app; f_equal.
- rewrite <- (firstn_skipn (n * size) data), <- app_assoc, !blocks_app_l by (rewrite length_firstn; lia).
  reflexivity.
- rewrite skipn_app, Hs; replace (n * size - length data)%nat with 0%nat by lia; reflexivity.
Qed.

Lemma memcpy_firstn dst off src :
(off <= length dst)%nat -> firstn (off + length src) (memcpy dst off src) = firstn off dst ++ src.
Proof.
intros H; unfold memcpy; rewrite app_assoc, firstn_app.
rewrite length_app, length_firstn, Nat.min_l, Nat.sub_diag by lia.
rewrite firstn_all2 by (rewrite length_app, length_firstn; lia).
simpl; apply app_nil_r.
Qed.

Section Blocks.
Context {St : Type}.
Variable size : nat.
Variable step : list Z -> St -> St.
(** The step reads the first [size] bytes of the buffer only. *)
Hypothesis step_firstn : forall b st, step b st = step (firstn size b) st.

(** What the context holds after [data] has been absorbed from a chaining
    state [st]. *)
Definition holds (st : St) (data : list Z) (c : context St) : Prop :=
  wf size c /\
  exists n tail, length data = (n * size + length tail)%nat /\
    ptr c = length tail /\ firstn (ptr c) (buf c) = tail /\
    skipn (n * size) data = tail /\
    chain c = run step (blocks size n data) st.

Lemma holds_init st b : (0 < size <= length b)%nat -> holds st [] (mkContext b 0 st).
Proof.
  intros H; split; [exact H|]; exists 0%nat, (@nil Z); repeat split.
Qed.

Lemma holds_absorb st data x c : holds st data c -> holds st (data ++ [x]) (absorb size step c x).
Proof.
  intros (Hw & n & tail & Hl & Hp & Hb & Hs & Hc).
  split; [apply absorb_wf; exact Hw|].
  assert (Hm : firstn (S (ptr c)) (memcpy (buf c) (ptr c) [x]) = tail ++ [x]).
  { rewrite <- Hb; replace (S (ptr c)) with (ptr c + length [x])%nat by (simpl; lia).
    apply memcpy_firstn; unfold wf in Hw; lia. }
  assert (Hd : firstn (n * size) data ++ tail = data) by (rewrite <- Hs; apply firstn_skipn).
  assert (Hn : blocks size n (data ++ [x]) = blocks size n data).
  { rewrite <- Hd, <- app_assoc, !blocks_app_l by (rewrite length_firstn; lia); reflexivity. }
  assert (Hk : skipn (n * size) (data ++ [x]) = tail ++ [x]).
  { rewrite skipn_app, Hs; replace (n * size - length data)%nat with 0%nat by lia; reflexivity. }
  unfold absorb; destruct (Nat.eqb_spec (S (ptr c)) size) as [He|He]; cbn [ptr buf chain].
  - exists (S n), []; repeat split.
    + rewrite length_app; simpl; lia.
    + apply skipn_all2; rewrite length_app; simpl; lia.
    + replace (S n) with (n + 1)%nat by lia.
      rewrite blocks_app, run_app, Hn, <- Hc, Hk; cbn [blocks run fold_left].
      rewrite (step_firstn (memcpy _ _ _)), <- He, Hm, firstn_all2; [reflexivity|].
      rewrite length_app; simpl; lia.
  - exists n, (tail ++ [x]); rewrite Hn; repeat split.
    + rewrite !length_app; simpl; lia.
    + rewrite length_app; simpl; lia.
    + exact Hm.
    + exact Hk.
    + exact Hc.
Qed.

Lemma holds_absorb_all st data data' c :
  holds st data c -> holds st (data ++ data') (fold_left (absorb size step) data' c).
Proof.
  revert data c; induction data' as [|x data' IH]; intros data c H; simpl.
  - rewrite app_nil_r; exact H.
  - replace (data ++ x :: data') with ((data ++ [x]) ++ data') by (rewrite <- app_assoc; reflexivity).
    apply IH, holds_absorb, H.
Qed.

Lemma holds_core st data data' c :
  holds st data c -> holds st (data ++ data') (core size step c data').
Proof.
  intros H; rewrite core_absorb by apply H; apply holds_absorb_all, H.
Qed.

Lemma core_holds st b data :
  (0 < size <= length b)%nat -> holds st data (core size step (mkContext b 0 st) data).
Proof. intros H; apply (holds_core st []), holds_init, H. Qed.

(** Data that exactly completes the buffer makes one step. *)
Lemma core_fill c d :
  wf size c -> (ptr c + length d)%nat = size ->
  ptr (core size step c d) = 0%nat /\
  wf size (core size step c d) /\
  chain (core size step c d) = step (firstn (ptr c) (buf c) ++ d) (chain c).
Proof.
  intros Hw Hl; split; [|split; [apply core_wf, Hw|]];
    rewrite core_absorb, absorb_block by
      (try assumption; intros ->; unfold wf in Hw; simpl in *; lia);
    cbn [ptr chain]; [reflexivity|].
  rewrite step_firstn, <- Hl, memcpy_firstn by (unfold wf in Hw; lia); reflexivity.
Qed.

(** Data that completes the buffer is a sequence of whole blocks. *)
Lemma holds_complete st data c :
  holds st data c -> (length data mod size)%nat = 0%nat ->
  ptr c = 0%nat /\ chain c = run step (blocks size (length data / size) data) st.
Proof.
  intros (Hw & n & tail & Hl & Hp & Hb & Hs & Hc) Hm; unfold wf in Hw.
  assert (Ht : length tail = 0%nat).
  { rewrite Hl, Nat.add_comm, Nat.Div0.mod_add, Nat.mod_small in Hm; lia. }
  split; [lia|]; rewrite Hc; do 2 f_equal.
  rewrite Hl, Ht, Nat.add_0_r, Nat.div_mul; lia.
Qed.
End Blocks.

(** Mapping the chaining state by a function that commutes with the step
  commutes with the loop. *)
Section Simulation.
Context {A B : Type}.
Variable size : nat.
Variable stepA : list Z -> A -> A.
Variable stepB : list Z -> B -> B.
Variable f : A -> B.
Hypothesis f_step : forall b a, f (stepA b a) = stepB b (f a).

Definition map_chain (c : context A) : context B := mkContext (buf c) (ptr c) (f (chain c)).

Lemma core_loop_sim fuel c data :
  map_chain (core_loop size stepA fuel c data) = core_loop size stepB fuel (map_chain c) data.
Proof.
  revert c data; induction fuel as [|fuel IH]; intros c [|x data]; try reflexivity.
  simpl; destruct (_ =? _)%nat; rewrite IH; unfold map_chain; simpl; rewrite ?f_step; reflexivity.
Qed.
End Simulation.

Create HintDb stream discriminated.
#[export] Hint Resolve core_wf absorb_wf : stream.
