(* ===== verification/Blake.v ===== *)
(** BLAKE-512 and BLAKE-384: [src/src/crypto/blake.c] and its context
    [sph_blake_big_context], 64-bit build ([SPH_64_TRUE], so the unrolled
    [COMPRESS64] of the [#else] branch; the [SPH_COMPACT_BLAKE_64] branch is
    modelled too, as [COMPRESS64_compact], and proved equal). *)
From S2P Require Import Prelude SphTypes SphStream.

Module Blake.

Definition IV384 : list Z :=
  [0xCBBB9D5DC1059ED8; 0x629A292A367CD507; 0x9159015A3070DD17; 0x152FECD8F70E5939;
   0x67332667FFC00B31; 0x8EB44A8768581511; 0xDB0C2E0D64F98FA7; 0x47B5481DBEFA4FA4].

Definition IV512 : list Z :=
  [0x6A09E667F3BCC908; 0xBB67AE8584CAA73B; 0x3C6EF372FE94F82B; 0xA54FF53A5F1D36F1;
   0x510E527FADE682D1; 0x9B05688C2B3E6C1F; 0x1F83D9ABFB41BD6B; 0x5BE0CD19137E2179].

(** The table of the compact build. *)
Definition sigma : list (list nat) := [
  [ 0;  1;  2;  3;  4;  5;  6;  7;  8;  9; 10; 11; 12; 13; 14; 15 ];
  [14; 10;  4;  8;  9; 15; 13;  6;  1; 12;  0;  2; 11;  7;  5;  3 ];
  [11;  8; 12;  0;  5;  2; 15; 13; 10; 14;  3;  6;  7;  1;  9;  4 ];
  [ 7;  9;  3;  1; 13; 12; 11; 14;  2;  6;  5; 10;  4;  0; 15;  8 ];
  [ 9;  0;  5;  7;  2;  4; 10; 15; 14;  1; 11; 12;  6;  8;  3; 13 ];
  [ 2; 12;  6; 10;  0; 11;  8;  3;  4; 13;  7;  5; 15; 14;  1;  9 ];
  [12;  5;  1; 15; 14; 13;  4; 10;  0;  7;  6;  3;  9;  2;  8; 11 ];
  [13; 11;  7; 14; 12;  1;  3;  9;  5;  0; 15;  4;  8;  6;  2; 10 ];
  [ 6; 15; 14;  9; 11;  3;  0;  8; 12;  2; 13;  7;  1;  4; 10;  5 ];
  [10;  2;  8;  4;  7;  6;  1;  5; 15; 11;  9; 14;  3; 12; 13;  0 ];
  [ 0;  1;  2;  3;  4;  5;  6;  7;  8;  9; 10; 11; 12; 13; 14; 15 ];
  [14; 10;  4;  8;  9; 15; 13;  6;  1; 12;  0;  2; 11;  7;  5;  3 ];
  [11;  8; 12;  0;  5;  2; 15; 13; 10; 14;  3;  6;  7;  1;  9;  4 ];
  [ 7;  9;  3;  1; 13; 12; 11; 14;  2;  6;  5; 10;  4;  0; 15;  8 ];
  [ 9;  0;  5;  7;  2;  4; 10; 15; 14;  1; 11; 12;  6;  8;  3; 13 ];
  [ 2; 12;  6; 10;  0; 11;  8;  3;  4; 13;  7;  5; 15; 14;  1;  9 ]]%nat.

(** The [Zri] macros of the unrolled build: the message word used at
    position [i] of round [r]. *)
Definition Z0 : list nat := [ 0;  1;  2;  3;  4;  5;  6;  7;  8;  9; 10; 11; 12; 13; 14; 15]%nat.
Definition Z1 : list nat := [14; 10;  4;  8;  9; 15; 13;  6;  1; 12;  0;  2; 11;  7;  5;  3]%nat.
Definition Z2 : list nat := [11;  8; 12;  0;  5;  2; 15; 13; 10; 14;  3;  6;  7;  1;  9;  4]%nat.
Definition Z3 : list nat := [ 7;  9;  3;  1; 13; 12; 11; 14;  2;  6;  5; 10;  4;  0; 15;  8]%nat.
Definition Z4 : list nat := [ 9;  0;  5;  7;  2;  4; 10; 15; 14;  1; 11; 12;  6;  8;  3; 13]%nat.
Definition Z5 : list nat := [ 2; 12;  6; 10;  0; 11;  8;  3;  4; 13;  7;  5; 15; 14;  1;  9]%nat.
Definition Z6 : list nat := [12;  5;  1; 15; 14; 13;  4; 10;  0;  7;  6;  3;  9;  2;  8; 11]%nat.
Definition Z7 : list nat := [13; 11;  7; 14; 12;  1;  3;  9;  5;  0; 15;  4;  8;  6;  2; 10]%nat.
Definition Z8 : list nat := [ 6; 15; 14;  9; 11;  3;  0;  8; 12;  2; 13;  7;  1;  4; 10;  5]%nat.
Definition Z9 : list nat := [10;  2;  8;  4;  7;  6;  1;  5; 15; 11;  9; 14;  3; 12; 13;  0]%nat.

Definition CB : list Z :=
  [0x243F6A8885A308D3; 0x13198A2E03707344; 0xA4093822299F31D0; 0x082EFA98EC4E6C89;
   0x452821E638D01377; 0xBE5466CF34E90C6C; 0xC0AC29B7C97C50DD; 0x3F84D5B5B5470917;
   0x9216D5D98979FB1B; 0xD1310BA698DFB5AC; 0x2FFD72DBD01ADFB7; 0xB8E1AFED6A267E96;
   0xBA7C9045F12C7F99; 0x24A19947B3916CF7; 0x0801F2E2858EFC16; 0x636920D871574E69].

(** ** The round *)

Definition GB (m0 m1 c0 c1 a b c d : Z) : Z * Z * Z * Z :=
  let a := SPH_T64 (a + b + (m0 ⊕ c1)) in
  let d := SPH_ROTR64 (d ⊕ a) 32 in
  let c := SPH_T64 (c + d) in
  let b := SPH_ROTR64 (b ⊕ c) 25 in
  let a := SPH_T64 (a + b + (m1 ⊕ c0)) in
  let d := SPH_ROTR64 (d ⊕ a) 16 in
  let c := SPH_T64 (c + d) in
  let b := SPH_ROTR64 (b ⊕ c) 11 in
  (a, b, c, d).

(** [GB] applied to four of the variables [V0..VF]. *)
Definition GB_on (m0 m1 c0 c1 : Z) (a b c d : nat) (V : list Z) : list Z :=
  let '(va, vb, vc, vd) := GB m0 m1 c0 c1 V.[a] V.[b] V.[c] V.[d] in
  upd (upd (upd (upd V a va) b vb) c vc) d vd.

(** [Mx(r, i)] and [CBx(r, i)], for the row [row] of round [r]. *)
Definition Mx (M : list Z) (row : list nat) (i : nat) : Z := M.[nth i row 0%nat].
Definition CBx (row : list nat) (i : nat) : Z := CB.[nth i row 0%nat].

Definition ROUND_B (M : list Z) (row : list nat) (V : list Z) : list Z :=
  let G (i j : nat) := GB_on (Mx M row i) (Mx M row j) (CBx row i) (CBx row j) in
  let V := (G 0x0 0x1 0x0 0x4 0x8 0xC V)%nat in
  let V := (G 0x2 0x3 0x1 0x5 0x9 0xD V)%nat in
  let V := (G 0x4 0x5 0x2 0x6 0xA 0xE V)%nat in
  let V := (G 0x6 0x7 0x3 0x7 0xB 0xF V)%nat in
  let V := (G 0x8 0x9 0x0 0x5 0xA 0xF V)%nat in
  let V := (G 0xA 0xB 0x1 0x6 0xB 0xC V)%nat in
  let V := (G 0xC 0xD 0x2 0x7 0x8 0xD V)%nat in
  (G 0xE 0xF 0x3 0x4 0x9 0xE V)%nat.

(** ** The compression function *)

(** [sph_blake_big_context] without its buffer. *)
Record chaining := mkChaining { H : list Z; Salt : list Z; T0 : Z; T1 : Z }.

Definition init_V (st : chaining) : list Z :=
  [(H st).[0]; (H st).[1]; (H st).[2]; (H st).[3];
   (H st).[4]; (H st).[5]; (H st).[6]; (H st).[7];
   (Salt st).[0] ⊕ CB.[0]; (Salt st).[1] ⊕ CB.[1]; (Salt st).[2] ⊕ CB.[2]; (Salt st).[3] ⊕ CB.[3];
   T0 st ⊕ CB.[4]; T0 st ⊕ CB.[5]; T1 st ⊕ CB.[6]; T1 st ⊕ CB.[7]].

Definition feed_H (st : chaining) (V : list Z) : chaining :=
  let h i := (H st).[i] ⊕ ((Salt st).[i mod 4]%nat ⊕ V.[i] ⊕ V.[8 + i]) in
  mkChaining [h 0; h 1; h 2; h 3; h 4; h 5; h 6; h 7]%nat (Salt st) (T0 st) (T1 st).

Definition COMPRESS64_compact (buf : list Z) (st : chaining) : chaining :=
  let M := words64be 16 buf in
  let V := fold_left (fun V r => ROUND_B M (nth r sigma []) V) (seq 0 16) (init_V st) in
  feed_H st V.

Definition COMPRESS64 (buf : list Z) (st : chaining) : chaining :=
  let M := words64be 16 buf in
  let V := init_V st in
  let V := ROUND_B M Z0 V in
  let V := ROUND_B M Z1 V in
  let V := ROUND_B M Z2 V in
  let V := ROUND_B M Z3 V in
  let V := ROUND_B M Z4 V in
  let V := ROUND_B M Z5 V in
  let V := ROUND_B M Z6 V in
  let V := ROUND_B M Z7 V in
  let V := ROUND_B M Z8 V in
  let V := ROUND_B M Z9 V in
  let V := ROUND_B M Z0 V in
  let V := ROUND_B M Z1 V in
  let V := ROUND_B M Z2 V in
  let V := ROUND_B M Z3 V in
  let V := ROUND_B M Z4 V in
  let V := ROUND_B M Z5 V in
  feed_H st V.

(** ** The streaming interface *)

Definition salt_zero_big : list Z := [0; 0; 0; 0].

Definition blake64_init (iv salt : list Z) : context chaining :=
  mkContext (repeat 0 128) 0 (mkChaining iv salt 0 0).

(** What the loop of [blake64] does with a full buffer: count its 1024 bits
    in [T1:T0], then compress. *)
Definition blake64_block (buf : list Z) (st : chaining) : chaining :=
  let t0 := SPH_T64 (T0 st + 1024) in
  let t1 := if t0 <? 1024 then SPH_T64 (T1 st + 1) else T1 st in
  COMPRESS64 buf (mkChaining (H st) (Salt st) t0 t1).

Definition blake64 : context chaining -> list Z -> context chaining :=
  core 128 blake64_block.

Definition set_T (c : context chaining) (t0 t1 : Z) : context chaining :=
  mkContext (buf c) (ptr c) (mkChaining (H (chain c)) (Salt (chain c)) t0 t1).

(** Padding, last block(s) and output. [u] is the local array [u.buf]; it is
    not initialised in C, and what precedes [ptr] is never read. *)
Definition blake64_close (sc : context chaining) (ub n : Z) (out_size_w64 : nat) : list Z :=
  let p := ptr sc in
  let bit_len := Z.of_nat p * 8 + n in
  let z := 0x80 >> n in
  let u := memcpy (repeat 0 128) p [((ub .& T32 (- z)) .| z) .& 0xFF] in
  let tl := T64 (T0 (chain sc) + bit_len) in
  let th := T1 (chain sc) in
  let sc :=
    if (p =? 0)%nat && (n =? 0) then set_T sc 0xFFFFFFFFFFFFFC00 0xFFFFFFFFFFFFFFFF
    else if T0 (chain sc) =? 0
    then set_T sc (T64 (0xFFFFFFFFFFFFFC00 + bit_len)) (SPH_T64 (T1 (chain sc) - 1))
    else set_T sc (T64 (T0 (chain sc) - (1024 - bit_len))) (T1 (chain sc)) in
  let sc :=
    if bit_len <=? 894
    then
      let u := memcpy u (p + 1) (repeat 0 (111 - p)) in
      let u := if (out_size_w64 =? 8)%nat then upd u 111 (u.[111] .| 1) else u in
      let u := memcpy u 112 (sph_enc64be th) in
      let u := memcpy u 120 (sph_enc64be tl) in
      blake64 sc (firstn (128 - p) (skipn p u))
    else
      let u := memcpy u (p + 1) (repeat 0 (127 - p)) in
      let sc := blake64 sc (firstn (128 - p) (skipn p u)) in
      let sc := set_T sc 0xFFFFFFFFFFFFFC00 0xFFFFFFFFFFFFFFFF in
      let u := memcpy u 0 (repeat 0 112) in
      let u := if (out_size_w64 =? 8)%nat then upd u 111 1 else u in
      let u := memcpy u 112 (sph_enc64be th) in
      let u := memcpy u 120 (sph_enc64be tl) in
      blake64 sc u in
  flat_map sph_enc64be (firstn out_size_w64 (H (chain sc))).

Definition sph_blake384_init : context chaining := blake64_init IV384 salt_zero_big.
Definition sph_blake384 : context chaining -> list Z -> context chaining := blake64.
Definition sph_blake384_addbits_and_close (c : context chaining) (ub n : Z)
  : list Z * context chaining := (blake64_close c ub n 6, sph_blake384_init).
Definition sph_blake384_close (c : context chaining) : list Z * context chaining :=
  sph_blake384_addbits_and_close c 0 0.

Definition sph_blake512_init : context chaining := blake64_init IV512 salt_zero_big.
Definition sph_blake512 : context chaining -> list Z -> context chaining := blake64.
Definition sph_blake512_addbits_and_close (c : context chaining) (ub n : Z)
  : list Z * context chaining := (blake64_close c ub n 8, sph_blake512_init).
Definition sph_blake512_close (c : context chaining) : list Z * context chaining :=
  sph_blake512_addbits_and_close c 0 0.

(** ** The specification

    BLAKE-512 and BLAKE-384 of a byte string as the designers' document gives
    it: pad, cut into 128-byte blocks, compress block [i] with the number of
    message bits hashed so far, or 0 when the block holds none of them. *)

(** The bytes between the message and its length: a first bit 1, zeros, a
    last bit [last] just before the length. *)
Definition padding (last : Z) (len : nat) : list Z :=
  let k := (S ((239 - len mod 128) mod 128))%nat in
  let p := upd (repeat 0 k) 0 0x80 in
  upd p (k - 1) (p.[k - 1] .| last).

Definition padded (last : Z) (msg : list Z) : list Z :=
  let bits := 8 * Z.of_nat (length msg) in
  msg ++ padding last (length msg)
  ++ sph_enc64be (bits / 2 ^ 64) ++ sph_enc64be (bits mod 2 ^ 64).

(** The counter of block [i] of a message of [bits] bits. *)
Definition counter (bits i : Z) : Z :=
  if bits <=? 1024 * i then 0 else Z.min bits (1024 * (i + 1)).

Definition compress_at (t : Z) (salt block : list Z) (h : list Z) : list Z :=
  H (COMPRESS64 block (mkChaining h salt (t mod 2 ^ 64) (t / 2 ^ 64))).

Fixpoint compress_all (bits i : Z) (salt : list Z) (bs : list (list Z)) (h : list Z) : list Z :=
  match bs with
  | [] => h
  | b :: bs => compress_all bits (i + 1) salt bs (compress_at (counter bits i) salt b h)
  end.

Definition blake_spec (iv salt : list Z) (last : Z) (out : nat) (msg : list Z) : list Z :=
  let m := padded last msg in
  let bs := blocks 128 (length m / 128) m in
  flat_map sph_enc64be (firstn out (compress_all (8 * Z.of_nat (length msg)) 0 salt bs iv)).

(** ** The unrolled compression function is the compact one *)

(** [COMPRESS64] as compiled, with its sixteen rounds unrolled over the
    message-word macros [Z0x]..[Z9x], computes on every block and chaining
    value what the [sigma]-driven loop of the compact build computes. *)
Theorem COMPRESS64_unrolled b st : COMPRESS64 b st = COMPRESS64_compact b st.
Proof.
  unfold COMPRESS64, COMPRESS64_compact, Z0, Z1, Z2, Z3, Z4, Z5, Z6, Z7, Z8, Z9.
  cbv zeta; cbv [fold_left seq nth sigma]; reflexivity.
Qed.

(** ** The digest *)

(** The chaining state after [t] message bits. *)
Definition at_count (h salt : list Z) (t : Z) : chaining := mkChaining h salt (t mod 2 ^ 64) (t / 2 ^ 64).

(** Compression changes the chaining value only. *)
Lemma COMPRESS64_at b h salt t :
  COMPRESS64 b (at_count h salt t) = at_count (compress_at t salt b h) salt t.
Proof. reflexivity. Qed.

(** The two-word counter of [blake64] is 128-bit addition. *)
Lemma count_block t :
  0 <= t -> t mod 1024 = 0 -> t + 1024 < 2 ^ 128 ->
  let t0 := SPH_T64 (t mod 2 ^ 64 + 1024) in
  t0 = (t + 1024) mod 2 ^ 64 /\
  (if t0 <? 1024 then SPH_T64 (t / 2 ^ 64 + 1) else t / 2 ^ 64) = (t + 1024) / 2 ^ 64.
Proof.
  intros H0 Hm Hl; cbv zeta; rewrite !SPH_T64_T64, !T64_mod, Zplus_mod_idemp_l.
  split; [reflexivity|].
  destruct (Z.ltb_spec ((t + 1024) mod 2 ^ 64) 1024); rewrite ?Z.mod_small; Z.div_mod_to_equations; lia.
Qed.

Lemma block_at b h salt t :
  0 <= t -> t mod 1024 = 0 -> t + 1024 < 2 ^ 128 ->
  blake64_block b (at_count h salt t) = at_count (compress_at (t + 1024) salt b h) salt (t + 1024).
Proof.
  intros H0 Hm Hl; rewrite <- COMPRESS64_at; unfold blake64_block, at_count; cbn [T0 T1 H Salt].
  destruct (count_block t) as [-> ->]; auto.
Qed.

(** Full blocks of the message, in order. *)
Lemma run_at bits salt bs : forall i h,
  0 <= i -> 1024 * (i + Z.of_nat (length bs)) <= bits < 2 ^ 128 ->
  run blake64_block bs (at_count h salt (1024 * i))
  = at_count (compress_all bits i salt bs h) salt (1024 * (i + Z.of_nat (length bs))).
Proof.
  induction bs as [|b bs IH]; intros i h Hi Hb; cbn [length] in *.
  - rewrite Z.add_0_r; reflexivity.
  - rewrite run_cons; cbn [compress_all]; rewrite block_at by (rewrite ?(Z.mul_comm 1024), ?Z.mod_mul; lia).
    replace (1024 * i + 1024) with (1024 * (i + 1)) by lia.
    rewrite IH by lia; unfold counter.
    destruct (Z.leb_spec bits (1024 * i)); [lia|].
    rewrite Z.min_r by lia; f_equal; lia.
Qed.

Lemma compress_all_app bits salt a b : forall i h,
  compress_all bits i salt (a ++ b) h
  = compress_all bits (i + Z.of_nat (length a)) salt b (compress_all bits i salt a h).
Proof.
  induction a as [|x a IH]; intros i h; cbn [app compress_all length].
  - rewrite Z.add_0_r; reflexivity.
  - rewrite IH; replace (i + 1 + Z.of_nat (length a)) with (i + Z.of_nat (S (length a))) by lia; reflexivity.
Qed.

(** The padding the last call writes behind the [p] pending bytes, when one
    block is enough. *)
Lemma close_tail_short p x y last th tl :
  (p <= 111)%nat -> y = padding last p ->
  x = (let u := memcpy (repeat 0 128) p [0x80] in
       let u := memcpy u (p + 1) (repeat 0 (111 - p)) in
       let u := upd u 111 (u.[111] .| last) in
       let u := memcpy u 112 (sph_enc64be th) in
       memcpy u 120 (sph_enc64be tl)) ->
  firstn (128 - p) (skipn p x) = y ++ sph_enc64be th ++ sph_enc64be tl.
Proof.
  intros Hp -> ->; cbv zeta.
  assert (Hk : ((239 - p mod 128) mod 128 = 111 - p)%nat).
  { rewrite (Nat.mod_small p) by lia; replace (239 - p)%nat with (111 - p + 1 * 128)%nat by lia.
    rewrite Nat.Div0.mod_add; apply Nat.mod_small; lia. }
  unfold padding; rewrite Hk; replace (S (111 - p) - 1)%nat with (111 - p)%nat by lia.
  replace (p + 1)%nat with (p + length [128])%nat by reflexivity.
  rewrite (memcpy_memcpy _ p [128]) by lens.
  assert (Hz : [128] ++ repeat 0 (111 - p) = upd (repeat 0 (S (111 - p))) 0 128) by reflexivity.
  rewrite Hz; clear Hz; set (z := upd _ 0 _).
  assert (Hlz : length z = S (111 - p)) by (unfold z; rewrite upd_length, repeat_length; reflexivity).
  pose proof (get_memcpy (repeat 0 128) p z (111 - p)) as Hg.
  pose proof (upd_memcpy (repeat 0 128) p z (111 - p)) as Hu.
  rewrite repeat_length in Hg, Hu; replace (p + (111 - p))%nat with 111%nat in Hg, Hu by lia.
  rewrite Hg, Hu by lia.
  set (w := upd z _ _).
  assert (Hlw : length w = S (111 - p)) by (unfold w; rewrite upd_length; exact Hlz).
  replace (memcpy (memcpy _ p w) 112) with (memcpy (memcpy (repeat 0 128) p w) (p + length w))
    by (f_equal; lia).
  rewrite (memcpy_memcpy _ p w) by lens.
  replace (memcpy (memcpy _ p _) 120)
    with (memcpy (memcpy (repeat 0 128) p (w ++ sph_enc64be th)) (p + length (w ++ sph_enc64be th)))
    by (f_equal; lens).
  rewrite memcpy_memcpy by lens.
  rewrite skipn_memcpy by lens.
  rewrite firstn_all2 by lens.
  rewrite <- app_assoc; reflexivity.
Qed.

(** The same when the padding spills into a second block: what goes behind
    the pending bytes, then the whole second block. *)
Lemma padding_long p last :
  (112 <= p < 128)%nat ->
  padding last p = ([0x80] ++ repeat 0 (127 - p)) ++ upd (repeat 0 112) 111 last.
Proof.
  intros Hp; assert (Hk : ((239 - p mod 128) mod 128 = 239 - p)%nat).
  { rewrite (Nat.mod_small p) by lia; apply Nat.mod_small; lia. }
  unfold padding; rewrite Hk; replace (S (239 - p) - 1)%nat with (239 - p)%nat by lia.
  replace (upd (repeat 0 (S (239 - p))) 0 128) with (([0x80] ++ repeat 0 (127 - p)) ++ repeat 0 112)
    by (change (upd (repeat 0 (S (239 - p))) 0 128) with ([0x80] ++ repeat 0 (239 - p));
        rewrite <- app_assoc, <- repeat_app; do 2 f_equal; lia).
  set (l := [128] ++ _); assert (Hl : length l = (128 - p)%nat) by (unfold l; lens).
  rewrite upd_app_r, get_app_r by lia; rewrite Hl.
  replace (239 - p - (128 - p))%nat with 111%nat by lia; reflexivity.
Qed.

Lemma close_tail_long p :
  (112 <= p < 128)%nat ->
  let u := memcpy (repeat 0 128) p [0x80] in
  firstn (128 - p) (skipn p (memcpy u (p + 1) (repeat 0 (127 - p)))) = [0x80] ++ repeat 0 (127 - p).
Proof.
  intros Hp u; unfold u; replace (p + 1)%nat with (p + length [128])%nat by reflexivity.
  rewrite memcpy_memcpy by lens.
  rewrite skipn_memcpy by lens; rewrite firstn_all2 by lens; reflexivity.
Qed.

Lemma second_block u last th tl :
  length u = 128%nat ->
  memcpy (memcpy (upd (memcpy u 0 (repeat 0 112)) 111 last) 112 (sph_enc64be th)) 120 (sph_enc64be tl)
  = upd (repeat 0 112) 111 last ++ sph_enc64be th ++ sph_enc64be tl.
Proof.
  intros Hu; pose proof (upd_memcpy u 0 (repeat 0 112) 111 last) as H1.
  cbn [Nat.add] in H1; rewrite H1 by lens; clear H1; set (w := upd _ _ _).
  assert (Hw : length w = 112%nat) by (unfold w; lens).
  replace (memcpy (memcpy u 0 w) 112) with (memcpy (memcpy u 0 w) (0 + length w)) by (rewrite Hw; reflexivity).
  rewrite (memcpy_memcpy u 0 w) by lens.
  replace (memcpy (memcpy u 0 _) 120)
    with (memcpy (memcpy u 0 (w ++ sph_enc64be th)) (0 + length (w ++ sph_enc64be th)))
    by (f_equal; lens).
  rewrite memcpy_memcpy by lens.
  change (memcpy u 0) with (fun s => s ++ skipn (0 + length s) u); cbv beta.
  rewrite skipn_all2 by lens; rewrite app_nil_r, <- app_assoc; reflexivity.
Qed.

(** The counter surgery of the last call: after it, the increment performed
    by [blake64] gives the counter the specification asks for. *)
Lemma close_count (sc : context chaining) h salt n :
  chain sc = at_count h salt (1024 * n) -> (ptr sc < 128)%nat -> 0 <= n ->
  let bits := 1024 * n + 8 * Z.of_nat (ptr sc) in
  bits < 2 ^ 128 ->
  exists sc',
    (if (ptr sc =? 0)%nat && (0 =? 0) then set_T sc 0xFFFFFFFFFFFFFC00 0xFFFFFFFFFFFFFFFF
     else if T0 (chain sc) =? 0
     then set_T sc (T64 (0xFFFFFFFFFFFFFC00 + (Z.of_nat (ptr sc) * 8 + 0))) (SPH_T64 (T1 (chain sc) - 1))
     else set_T sc (T64 (T0 (chain sc) - (1024 - (Z.of_nat (ptr sc) * 8 + 0)))) (T1 (chain sc))) = sc'
    /\ ptr sc' = ptr sc /\ buf sc' = buf sc
    /\ forall x, blake64_block x (chain sc')
                 = at_count (compress_at (counter bits n) salt x h) salt (counter bits n).
Proof.
  intros Hc Hp Hn bits Hb; eexists; split; [reflexivity|].
  assert (Hcnt : forall t0 t1,
    (let t0' := SPH_T64 (t0 + 1024) in
     t0' = counter bits n mod 2 ^ 64 /\
     (if t0' <? 1024 then SPH_T64 (t1 + 1) else t1) = counter bits n / 2 ^ 64) ->
    forall x, blake64_block x (mkChaining h salt t0 t1)
              = at_count (compress_at (counter bits n) salt x h) salt (counter bits n)).
  { intros t0 t1 [E0 E1] x; rewrite <- COMPRESS64_at; unfold blake64_block, at_count.
    cbn [T0 T1 H Salt]; rewrite E1, E0; reflexivity. }
  rewrite Hc; unfold at_count; cbn [T0 T1].
  destruct (Nat.eqb_spec (ptr sc) 0) as [E|E]; cbn [andb Z.eqb].
  - repeat split; unfold set_T; rewrite Hc; cbn [chain H Salt at_count].
    apply Hcnt; unfold counter, bits; rewrite E.
    destruct (Z.leb_spec (1024 * n + 8 * Z.of_nat 0) (1024 * n)); [split; reflexivity|lia].
  - assert (Ec : counter bits n = 1024 * n + 8 * Z.of_nat (ptr sc)).
    { unfold counter, bits; destruct (Z.leb_spec (1024 * n + 8 * Z.of_nat (ptr sc)) (1024 * n)); lia. }
    rewrite Ec in *; unfold bits in *; clear bits Ec.
    destruct (Z.eqb_spec ((1024 * n) mod 2 ^ 64) 0) as [E0|E0];
      (repeat split); unfold set_T; rewrite Hc; cbn [chain H Salt at_count]; apply Hcnt; cbv zeta;
      rewrite ?SPH_T64_T64, ?T64_mod.
    + split; [Z.div_mod_to_equations; lia|].
      destruct (Z.ltb_spec (((0xFFFFFFFFFFFFFC00 + (Z.of_nat (ptr sc) * 8 + 0)) mod 2 ^ 64 + 1024) mod 2 ^ 64) 1024);
        Z.div_mod_to_equations; lia.
    + split; [Z.div_mod_to_equations; lia|].
      destruct (Z.ltb_spec ((((1024 * n) mod 2 ^ 64 - (1024 - (Z.of_nat (ptr sc) * 8 + 0))) mod 2 ^ 64 + 1024) mod 2 ^ 64) 1024);
        Z.div_mod_to_equations; lia.
Qed.

Lemma block_firstn b st : blake64_block b st = blake64_block (firstn 128 b) st.
Proof.
  unfold blake64_block, COMPRESS64; rewrite (words64be_firstn 16 b); reflexivity.
Qed.

Lemma padding_mod last len p : (len mod 128 = p)%nat -> padding last len = padding last p.
Proof. intros <-; unfold padding; rewrite Nat.Div0.mod_mod; reflexivity. Qed.

Lemma padding_length last p :
  length (padding last p) = S ((239 - p mod 128) mod 128).
Proof. unfold padding; rewrite !upd_length; apply repeat_length. Qed.

(** The blocks of the padded message: those of the message, then those of
    the pending bytes with the padding. *)
Lemma padded_blocks last msg n tail :
  length msg = (n * 128 + length tail)%nat -> skipn (n * 128) msg = tail -> (length tail < 128)%nat ->
  let p := length tail in
  let k := if (p <=? 111)%nat then 1%nat else 2%nat in
  let bits := 8 * Z.of_nat (length msg) in
  let m := padded last msg in
  blocks 128 (length m / 128) m
  = blocks 128 n msg
    ++ blocks 128 k (tail ++ padding last p ++ sph_enc64be (bits / 2 ^ 64) ++ sph_enc64be (bits mod 2 ^ 64)).
Proof.
  intros Hl Hs Ht p k bits m; unfold m, padded; fold bits.
  assert (Hp : (length msg mod 128 = p)%nat).
  { rewrite Hl, Nat.add_comm, Nat.Div0.mod_add; apply Nat.mod_small; exact Ht. }
  rewrite (padding_mod last _ p Hp); clear Hp.
  rewrite <- (blocks_tail 128 n k msg tail) by assumption; f_equal.
  rewrite !length_app, padding_length, !enc64be_length, (Nat.mod_small p) by exact Ht.
  rewrite Hl; fold p.
  enough (E : (p + (S ((239 - p) mod 128) + 16) = k * 128)%nat).
  { replace (n * 128 + p + _)%nat with ((n + k) * 128)%nat by (cbn [Nat.add] in *; lia).
    apply Nat.div_mul; lia. }
  unfold k; destruct (Nat.leb_spec p 111).
  - replace (239 - p)%nat with (111 - p + 1 * 128)%nat by lia.
    rewrite Nat.Div0.mod_add, Nat.mod_small; lia.
  - rewrite Nat.mod_small; unfold p in *; lia.
Qed.

(** The two ways to close, on the chaining state [h] of the full blocks. *)
Lemma close_short sc h salt n last th tl x :
  wf 128 sc -> (ptr sc <= 111)%nat ->
  (forall b, blake64_block b (chain sc) = at_count (compress_at n salt b h) salt n) ->
  firstn (128 - ptr sc) (skipn (ptr sc) x) = padding last (ptr sc) ++ sph_enc64be th ++ sph_enc64be tl ->
  H (chain (blake64 sc (firstn (128 - ptr sc) (skipn (ptr sc) x))))
  = compress_at n salt
      (firstn (ptr sc) (buf sc) ++ padding last (ptr sc) ++ sph_enc64be th ++ sph_enc64be tl) h.
Proof.
  intros Hw Hp Hb ->; unfold blake64.
  destruct (core_fill 128 blake64_block block_firstn sc
              (padding last (ptr sc) ++ sph_enc64be th ++ sph_enc64be tl)) as (_ & _ & ->).
  - exact Hw.
  - rewrite !length_app, padding_length, !enc64be_length, (Nat.mod_small (ptr sc)) by lia.
    replace (239 - ptr sc)%nat with (111 - ptr sc + 1 * 128)%nat by lia.
    rewrite Nat.Div0.mod_add, Nat.mod_small; lia.
  - rewrite Hb; reflexivity.
Qed.

Lemma close_long sc h salt n d u :
  wf 128 sc -> (ptr sc + length d)%nat = 128%nat -> length u = 128%nat ->
  (forall b, blake64_block b (chain sc) = at_count (compress_at n salt b h) salt n) ->
  H (chain (blake64 (set_T (blake64 sc d) 0xFFFFFFFFFFFFFC00 0xFFFFFFFFFFFFFFFF) u))
  = compress_at 0 salt u (compress_at n salt (firstn (ptr sc) (buf sc) ++ d) h).
Proof.
  intros Hw Hd Hu Hb; unfold blake64.
  destruct (core_fill 128 blake64_block block_firstn sc d) as (Hp & Hw' & Hc); [assumption..|].
  set (c1 := core 128 blake64_block sc d) in *.
  set (c2 := set_T c1 _ _).
  destruct (core_fill 128 blake64_block block_firstn c2 u) as (_ & _ & ->).
  - exact Hw'.
  - unfold c2, set_T; cbn [ptr]; lia.
  - unfold c2, set_T; cbn [ptr buf chain]; rewrite Hp, Hc, Hb; reflexivity.
Qed.

(** The separator bit of BLAKE-512, absent in BLAKE-384. *)
Lemma sep_short (e : bool) u :
  (if e then upd u 111 (u.[111] .| 1) else u) = upd u 111 (u.[111] .| (if e then 1 else 0)).
Proof. destruct e; [reflexivity|]; rewrite Z.lor_0_r; symmetry; apply upd_get. Qed.

Lemma sep_long (e : bool) u :
  (if e then upd (memcpy u 0 (repeat 0 112)) 111 1 else memcpy u 0 (repeat 0 112))
  = upd (memcpy u 0 (repeat 0 112)) 111 (if e then 1 else 0).
Proof.
  destruct e; [reflexivity|]; symmetry.
  assert (E : (memcpy u 0 (repeat 0 112)).[111] = 0).
  { apply (get_memcpy u 0 (repeat 0 112) 111); lens. }
  rewrite <- E at 2; apply upd_get.
Qed.

(** The last blocks, as the specification compresses them. *)
Lemma last_short bits n salt last th tl tail h :
  (length tail <= 111)%nat ->
  compress_all bits n salt (blocks 128 1 (tail ++ padding last (length tail) ++ sph_enc64be th ++ sph_enc64be tl)) h
  = compress_at (counter bits n) salt (tail ++ padding last (length tail) ++ sph_enc64be th ++ sph_enc64be tl) h.
Proof.
  intros Hp; rewrite blocks_one; [reflexivity|].
  rewrite !length_app, padding_length, !enc64be_length, (Nat.mod_small (length tail)) by lia.
  replace (239 - length tail)%nat with (111 - length tail + 1 * 128)%nat by lia.
  rewrite Nat.Div0.mod_add, Nat.mod_small; lia.
Qed.

Lemma last_long n salt last th tl tail h :
  (112 <= length tail < 128)%nat ->
  let bits := 1024 * n + 8 * Z.of_nat (length tail) in
  compress_all bits n salt (blocks 128 2 (tail ++ padding last (length tail) ++ sph_enc64be th ++ sph_enc64be tl)) h
  = compress_at 0 salt (upd (repeat 0 112) 111 last ++ sph_enc64be th ++ sph_enc64be tl)
      (compress_at (counter bits n) salt (tail ++ [0x80] ++ repeat 0 (127 - length tail)) h).
Proof.
  intros Hp bits; rewrite padding_long by exact Hp.
  set (d := [128] ++ _); rewrite <- (app_assoc d), (app_assoc tail d); set (u := upd _ _ _ ++ _).
  rewrite blocks_cons, blocks_one by (unfold d, u; lens); cbn [compress_all].
  unfold counter at 1, bits at 1; destruct (Z.leb_spec (1024 * n + 8 * Z.of_nat (length tail)) (1024 * (n + 1))); [|lia].
  reflexivity.
Qed.

(** Closing: the message absorbed so far is [msg], the output its digest. *)
Lemma close_spec iv salt out msg c :
  8 * Z.of_nat (length msg) < 2 ^ 128 ->
  holds 128 blake64_block (mkChaining iv salt 0 0) msg c ->
  blake64_close c 0 0 out
  = blake_spec iv salt (if (out =? 8)%nat then 1 else 0) out msg.
Proof.
  intros Hbits (Hw & n & tail & Hl & Hp & Hb & Hs & Hc).
  assert (Ht : (length tail < 128)%nat) by (unfold wf in Hw; lia).
  change (mkChaining iv salt 0 0) with (at_count iv salt (1024 * 0)) in Hc.
  rewrite (run_at (8 * Z.of_nat (length msg))) in Hc by (rewrite ?blocks_length; lia).
  rewrite blocks_length, Z.add_0_l in Hc; set (h := compress_all _ _ _ _ _) in Hc.
  unfold blake_spec; rewrite (padded_blocks _ msg n tail), compress_all_app by assumption.
  fold h; rewrite blocks_length, Z.add_0_l.
  set (bits := 8 * Z.of_nat (length msg)) in *.
  assert (Ebits : bits = 1024 * Z.of_nat n + 8 * Z.of_nat (ptr c)) by (unfold bits; lia).
  destruct (close_count c h salt (Z.of_nat n) Hc) as (sc & Esc & Ep & Eb & Hblk); [lia|lia|lia|].
  rewrite <- Ebits in Hblk.
  assert (Eth : T1 (chain c) = bits / 2 ^ 64).
  { rewrite Hc; cbn [T1 at_count]; Z.div_mod_to_equations; lia. }
  assert (Etl : T64 (T0 (chain c) + (Z.of_nat (ptr c) * 8 + 0)) = bits mod 2 ^ 64).
  { rewrite Hc, T64_mod; cbn [T0 at_count]; rewrite Zplus_mod_idemp_l; f_equal; lia. }
  unfold blake64_close; rewrite Esc, Eth, Etl; change (((0 .& T32 (- (128 >> 0))) .| (128 >> 0)) .& 255) with 128.
  assert (Hw' : wf 128 sc) by (unfold wf; rewrite Ep, Eb; exact Hw).
  assert (Hlt : (Z.of_nat (ptr c) * 8 + 0 <=? 894) = (length tail <=? 111)%nat).
  { destruct (Z.leb_spec (Z.of_nat (ptr c) * 8 + 0) 894), (Nat.leb_spec (length tail) 111); lia || reflexivity. }
  rewrite Hlt, sep_short, sep_long; rewrite <- Ep in *; do 2 f_equal.
  destruct (Nat.leb_spec (length tail) 111) as [Hs1|Hs1].
  - rewrite last_short by exact Hs1.
    erewrite close_short; [rewrite Eb, Hb, Hp; reflexivity|exact Hw'|lia|exact Hblk|].
    eapply close_tail_short; [lia|reflexivity|reflexivity].
  - rewrite Ebits, Hp, last_long, <- Hp, <- Ebits by lia.
    rewrite second_block by (rewrite !memcpy_length; lens; rewrite memcpy_length; lens).
    rewrite close_tail_long by lia.
    erewrite close_long; [rewrite Eb, Hb; reflexivity|exact Hw'|lens|lens|exact Hblk].
Qed.

(** C40: BLAKE-512 as the program computes it (buffered absorption, a two-word
    bit counter, padding in one or two blocks with the counter rewound) is
    the specification [blake_spec], for every message shorter than 2^128 bits. *)
Theorem sph_blake512_digest msg :
  8 * Z.of_nat (length msg) < 2 ^ 128 ->
  fst (sph_blake512_close (sph_blake512 sph_blake512_init msg)) = blake_spec IV512 salt_zero_big 1 8 msg.
Proof.
  intros Hb; apply (close_spec IV512 salt_zero_big 8 msg); [exact Hb|].
  apply core_holds; [apply block_firstn|cbn; lia].
Qed.

Lemma sph_blake512_digest_witness :
  8 * Z.of_nat (length [97; 98; 99]) < 2 ^ 128 /\
  fst (sph_blake512_close (sph_blake512 sph_blake512_init [97; 98; 99])) = blake_spec IV512 salt_zero_big 1 8 [97; 98; 99].
Proof. split; [reflexivity|]; apply sph_blake512_digest; reflexivity. Defined.

End Blake.
