(* ===== verification/Bmw.v ===== *)
(** BMW-512 (Blue Midnight Wish) and BMW-384: [src/src/crypto/bmw.c],
    64-bit build without [SPH_SMALL_FOOTPRINT_BMW]. *)
From S2P Require Import Prelude SphTypes SphStream.

Module Bmw.

Definition IV384 : list Z :=
  [0x0001020304050607; 0x08090A0B0C0D0E0F; 0x1011121314151617; 0x18191A1B1C1D1E1F;
   0x2021222324252627; 0x28292A2B2C2D2E2F; 0x3031323334353637; 0x38393A3B3C3D3E3F;
   0x4041424344454647; 0x48494A4B4C4D4E4F; 0x5051525354555657; 0x58595A5B5C5D5E5F;
   0x6061626364656667; 0x68696A6B6C6D6E6F; 0x7071727374757677; 0x78797A7B7C7D7E7F].

Definition IV512 : list Z :=
  [0x8081828384858687; 0x88898A8B8C8D8E8F; 0x9091929394959697; 0x98999A9B9C9D9E9F;
   0xA0A1A2A3A4A5A6A7; 0xA8A9AAABACADAEAF; 0xB0B1B2B3B4B5B6B7; 0xB8B9BABBBCBDBEBF;
   0xC0C1C2C3C4C5C6C7; 0xC8C9CACBCCCDCECF; 0xD0D1D2D3D4D5D6D7; 0xD8D9DADBDCDDDEDF;
   0xE0E1E2E3E4E5E6E7; 0xE8E9EAEBECEDEEEF; 0xF0F1F2F3F4F5F6F7; 0xF8F9FAFBFCFDFEFF].

(** The index macros [I16_r] (the sixteen previous [qt] words of round [r])
    and [M16_r] (the message words and rotation counts of [add_elt_b]). *)
Definition I16 : list (list nat) := [
  [ 0;  1;  2;  3;  4;  5;  6;  7;  8;  9; 10; 11; 12; 13; 14; 15];
  [ 1;  2;  3;  4;  5;  6;  7;  8;  9; 10; 11; 12; 13; 14; 15; 16];
  [ 2;  3;  4;  5;  6;  7;  8;  9; 10; 11; 12; 13; 14; 15; 16; 17];
  [ 3;  4;  5;  6;  7;  8;  9; 10; 11; 12; 13; 14; 15; 16; 17; 18];
  [ 4;  5;  6;  7;  8;  9; 10; 11; 12; 13; 14; 15; 16; 17; 18; 19];
  [ 5;  6;  7;  8;  9; 10; 11; 12; 13; 14; 15; 16; 17; 18; 19; 20];
  [ 6;  7;  8;  9; 10; 11; 12; 13; 14; 15; 16; 17; 18; 19; 20; 21];
  [ 7;  8;  9; 10; 11; 12; 13; 14; 15; 16; 17; 18; 19; 20; 21; 22];
  [ 8;  9; 10; 11; 12; 13; 14; 15; 16; 17; 18; 19; 20; 21; 22; 23];
  [ 9; 10; 11; 12; 13; 14; 15; 16; 17; 18; 19; 20; 21; 22; 23; 24];
  [10; 11; 12; 13; 14; 15; 16; 17; 18; 19; 20; 21; 22; 23; 24; 25];
  [11; 12; 13; 14; 15; 16; 17; 18; 19; 20; 21; 22; 23; 24; 25; 26];
  [12; 13; 14; 15; 16; 17; 18; 19; 20; 21; 22; 23; 24; 25; 26; 27];
  [13; 14; 15; 16; 17; 18; 19; 20; 21; 22; 23; 24; 25; 26; 27; 28];
  [14; 15; 16; 17; 18; 19; 20; 21; 22; 23; 24; 25; 26; 27; 28; 29];
  [15; 16; 17; 18; 19; 20; 21; 22; 23; 24; 25; 26; 27; 28; 29; 30]]%nat.

Definition M16 : list (list nat) := [
  [ 0;  1;  3;  4;  7; 10; 11];
  [ 1;  2;  4;  5;  8; 11; 12];
  [ 2;  3;  5;  6;  9; 12; 13];
  [ 3;  4;  6;  7; 10; 13; 14];
  [ 4;  5;  7;  8; 11; 14; 15];
  [ 5;  6;  8;  9; 12; 15; 16];
  [ 6;  7;  9; 10; 13;  0;  1];
  [ 7;  8; 10; 11; 14;  1;  2];
  [ 8;  9; 11; 12; 15;  2;  3];
  [ 9; 10; 12; 13;  0;  3;  4];
  [10; 11; 13; 14;  1;  4;  5];
  [11; 12; 14; 15;  2;  5;  6];
  [12; 13; 15; 16;  3;  6;  7];
  [13; 14;  0;  1;  4;  7;  8];
  [14; 15;  1;  2;  5;  8;  9];
  [15; 16;  2;  3;  6;  9; 10]]%nat.

Definition shl64 (x n : Z) : Z := T64 (x << n).

Definition sb0 (x : Z) : Z := (x >> 1) ⊕ SPH_T64 (x << 3) ⊕ SPH_ROTL64 x 4 ⊕ SPH_ROTL64 x 37.
Definition sb1 (x : Z) : Z := (x >> 1) ⊕ SPH_T64 (x << 2) ⊕ SPH_ROTL64 x 13 ⊕ SPH_ROTL64 x 43.
Definition sb2 (x : Z) : Z := (x >> 2) ⊕ SPH_T64 (x << 1) ⊕ SPH_ROTL64 x 19 ⊕ SPH_ROTL64 x 53.
Definition sb3 (x : Z) : Z := (x >> 2) ⊕ SPH_T64 (x << 2) ⊕ SPH_ROTL64 x 28 ⊕ SPH_ROTL64 x 59.
Definition sb4 (x : Z) : Z := (x >> 1) ⊕ x.
Definition sb5 (x : Z) : Z := (x >> 2) ⊕ x.
Definition rb1 (x : Z) : Z := SPH_ROTL64 x 5.
Definition rb2 (x : Z) : Z := SPH_ROTL64 x 11.
Definition rb3 (x : Z) : Z := SPH_ROTL64 x 27.
Definition rb4 (x : Z) : Z := SPH_ROTL64 x 32.
Definition rb5 (x : Z) : Z := SPH_ROTL64 x 37.
Definition rb6 (x : Z) : Z := SPH_ROTL64 x 43.
Definition rb7 (x : Z) : Z := SPH_ROTL64 x 53.

Definition Kb (j : nat) : Z := SPH_T64 (Z.of_nat j * 0x0515151515151555).

(** [add_elt_b(M, H, M16_j16, j16)]; [m] is the row [M16_j16]. *)
Definition add_elt_b (M H : list Z) (m : list nat) (j16 : nat) : Z :=
  let rol k off := SPH_ROTL64 M.[nth k m 0%nat] (Z.of_nat (nth off m 0%nat)) in
  SPH_T64 (rol 0%nat 1%nat + rol 2%nat 3%nat - rol 5%nat 6%nat + Kb j16) ⊕ H.[nth 4 m 0%nat].

(** [expand1b(Qb, M, H, i16)]. *)
Definition expand1b (qt M H : list Z) (i16 : nat) : Z :=
  let ix := nth (i16 - 16) I16 [] in
  let iy := nth (i16 - 16) M16 [] in
  let q k := qt.[nth k ix 0%nat] in
  SPH_T64 (sb1 (q 0%nat) + sb2 (q 1%nat) + sb3 (q 2%nat) + sb0 (q 3%nat)
    + sb1 (q 4%nat) + sb2 (q 5%nat) + sb3 (q 6%nat) + sb0 (q 7%nat)
    + sb1 (q 8%nat) + sb2 (q 9%nat) + sb3 (q 10%nat) + sb0 (q 11%nat)
    + sb1 (q 12%nat) + sb2 (q 13%nat) + sb3 (q 14%nat) + sb0 (q 15%nat)
    + add_elt_b M H iy i16).

Definition expand2b (qt M H : list Z) (i16 : nat) : Z :=
  let ix := nth (i16 - 16) I16 [] in
  let iy := nth (i16 - 16) M16 [] in
  let q k := qt.[nth k ix 0%nat] in
  SPH_T64 (q 0%nat + rb1 (q 1%nat) + q 2%nat + rb2 (q 3%nat)
    + q 4%nat + rb3 (q 5%nat) + q 6%nat + rb4 (q 7%nat)
    + q 8%nat + rb5 (q 9%nat) + q 10%nat + rb6 (q 11%nat)
    + q 12%nat + rb7 (q 13%nat) + sb4 (q 14%nat) + sb5 (q 15%nat)
    + add_elt_b M H iy i16).

(** The sixteen words [Wb0..Wb15]. *)
Definition MAKE_W (M H : list Z) : list Z :=
  let x i := M.[i] ⊕ H.[i] in
  [SPH_T64 (x 5%nat - x 7%nat + x 10%nat + x 13%nat + x 14%nat);
   SPH_T64 (x 6%nat - x 8%nat + x 11%nat + x 14%nat - x 15%nat);
   SPH_T64 (x 0%nat + x 7%nat + x 9%nat - x 12%nat + x 15%nat);
   SPH_T64 (x 0%nat - x 1%nat + x 8%nat - x 10%nat + x 13%nat);
   SPH_T64 (x 1%nat + x 2%nat + x 9%nat - x 11%nat - x 14%nat);
   SPH_T64 (x 3%nat - x 2%nat + x 10%nat - x 12%nat + x 15%nat);
   SPH_T64 (x 4%nat - x 0%nat - x 3%nat - x 11%nat + x 13%nat);
   SPH_T64 (x 1%nat - x 4%nat - x 5%nat - x 12%nat - x 14%nat);
   SPH_T64 (x 2%nat - x 5%nat - x 6%nat + x 13%nat - x 15%nat);
   SPH_T64 (x 0%nat - x 3%nat + x 6%nat - x 7%nat + x 14%nat);
   SPH_T64 (x 8%nat - x 1%nat - x 4%nat - x 7%nat + x 15%nat);
   SPH_T64 (x 8%nat - x 0%nat - x 2%nat - x 5%nat + x 9%nat);
   SPH_T64 (x 1%nat + x 3%nat - x 6%nat - x 9%nat + x 10%nat);
   SPH_T64 (x 2%nat + x 4%nat + x 7%nat + x 10%nat + x 11%nat);
   SPH_T64 (x 3%nat - x 5%nat + x 8%nat - x 11%nat - x 12%nat);
   SPH_T64 (x 12%nat - x 4%nat - x 6%nat - x 9%nat + x 13%nat)].

Definition MAKE_Qab (M H : list Z) : list Z :=
  let w i := (MAKE_W M H).[i] in
  [SPH_T64 (sb0 (w 0%nat) + H.[1]);
   SPH_T64 (sb1 (w 1%nat) + H.[2]);
   SPH_T64 (sb2 (w 2%nat) + H.[3]);
   SPH_T64 (sb3 (w 3%nat) + H.[4]);
   SPH_T64 (sb4 (w 4%nat) + H.[5]);
   SPH_T64 (sb0 (w 5%nat) + H.[6]);
   SPH_T64 (sb1 (w 6%nat) + H.[7]);
   SPH_T64 (sb2 (w 7%nat) + H.[8]);
   SPH_T64 (sb3 (w 8%nat) + H.[9]);
   SPH_T64 (sb4 (w 9%nat) + H.[10]);
   SPH_T64 (sb0 (w 10%nat) + H.[11]);
   SPH_T64 (sb1 (w 11%nat) + H.[12]);
   SPH_T64 (sb2 (w 12%nat) + H.[13]);
   SPH_T64 (sb3 (w 13%nat) + H.[14]);
   SPH_T64 (sb4 (w 14%nat) + H.[15]);
   SPH_T64 (sb0 (w 15%nat) + H.[0])].

(** [qt[16..31]]; the array is extended in place. *)
Definition MAKE_Qbb (M H qt : list Z) : list Z :=
  let qt := upd qt 16 (expand1b qt M H 16) in
  let qt := upd qt 17 (expand1b qt M H 17) in
  let qt := upd qt 18 (expand2b qt M H 18) in
  let qt := upd qt 19 (expand2b qt M H 19) in
  let qt := upd qt 20 (expand2b qt M H 20) in
  let qt := upd qt 21 (expand2b qt M H 21) in
  let qt := upd qt 22 (expand2b qt M H 22) in
  let qt := upd qt 23 (expand2b qt M H 23) in
  let qt := upd qt 24 (expand2b qt M H 24) in
  let qt := upd qt 25 (expand2b qt M H 25) in
  let qt := upd qt 26 (expand2b qt M H 26) in
  let qt := upd qt 27 (expand2b qt M H 27) in
  let qt := upd qt 28 (expand2b qt M H 28) in
  let qt := upd qt 29 (expand2b qt M H 29) in
  let qt := upd qt 30 (expand2b qt M H 30) in
  let qt := upd qt 31 (expand2b qt M H 31) in
  qt.

Definition MAKE_Qb (M H : list Z) : list Z :=
  MAKE_Qbb M H (MAKE_Qab M H ++ repeat 0 16).

Definition FOLDb (M H : list Z) : list Z :=
  let qt := MAKE_Qb M H in
  let q i := qt.[i] in
  let mf i := M.[i] in
  let xl := q 16%nat ⊕ q 17%nat ⊕ q 18%nat ⊕ q 19%nat
    ⊕ q 20%nat ⊕ q 21%nat ⊕ q 22%nat ⊕ q 23%nat in
  let xh := xl ⊕ q 24%nat ⊕ q 25%nat ⊕ q 26%nat ⊕ q 27%nat
    ⊕ q 28%nat ⊕ q 29%nat ⊕ q 30%nat ⊕ q 31%nat in

  let dh0 := SPH_T64 ((shl64 xh 5 ⊕ ((q 16%nat) >> 5) ⊕ mf 0%nat) + (xl ⊕ q 24%nat ⊕ q 0%nat)) in
  let dh1 := SPH_T64 (((xh >> 7) ⊕ shl64 (q 17%nat) 8 ⊕ mf 1%nat) + (xl ⊕ q 25%nat ⊕ q 1%nat)) in
  let dh2 := SPH_T64 (((xh >> 5) ⊕ shl64 (q 18%nat) 5 ⊕ mf 2%nat) + (xl ⊕ q 26%nat ⊕ q 2%nat)) in
  let dh3 := SPH_T64 (((xh >> 1) ⊕ shl64 (q 19%nat) 5 ⊕ mf 3%nat) + (xl ⊕ q 27%nat ⊕ q 3%nat)) in
  let dh4 := SPH_T64 (((xh >> 3) ⊕ shl64 (q 20%nat) 0 ⊕ mf 4%nat) + (xl ⊕ q 28%nat ⊕ q 4%nat)) in
  let dh5 := SPH_T64 ((shl64 xh 6 ⊕ ((q 21%nat) >> 6) ⊕ mf 5%nat) + (xl ⊕ q 29%nat ⊕ q 5%nat)) in
  let dh6 := SPH_T64 (((xh >> 4) ⊕ shl64 (q 22%nat) 6 ⊕ mf 6%nat) + (xl ⊕ q 30%nat ⊕ q 6%nat)) in
  let dh7 := SPH_T64 (((xh >> 11) ⊕ shl64 (q 23%nat) 2 ⊕ mf 7%nat) + (xl ⊕ q 31%nat ⊕ q 7%nat)) in
  let dh8 := SPH_T64 (SPH_ROTL64 dh4 9 + (xh ⊕ q 24%nat ⊕ mf 8%nat)
    + (shl64 xl 8 ⊕ q 23%nat ⊕ q 8%nat)) in
  let dh9 := SPH_T64 (SPH_ROTL64 dh5 10 + (xh ⊕ q 25%nat ⊕ mf 9%nat)
    + ((xl >> 6) ⊕ q 16%nat ⊕ q 9%nat)) in
  let dh10 := SPH_T64 (SPH_ROTL64 dh6 11 + (xh ⊕ q 26%nat ⊕ mf 10%nat)
    + (shl64 xl 6 ⊕ q 17%nat ⊕ q 10%nat)) in
  let dh11 := SPH_T64 (SPH_ROTL64 dh7 12 + (xh ⊕ q 27%nat ⊕ mf 11%nat)
    + (shl64 xl 4 ⊕ q 18%nat ⊕ q 11%nat)) in
  let dh12 := SPH_T64 (SPH_ROTL64 dh0 13 + (xh ⊕ q 28%nat ⊕ mf 12%nat)
    + ((xl >> 3) ⊕ q 19%nat ⊕ q 12%nat)) in
  let dh13 := SPH_T64 (SPH_ROTL64 dh1 14 + (xh ⊕ q 29%nat ⊕ mf 13%nat)
    + ((xl >> 4) ⊕ q 20%nat ⊕ q 13%nat)) in
  let dh14 := SPH_T64 (SPH_ROTL64 dh2 15 + (xh ⊕ q 30%nat ⊕ mf 14%nat)
    + ((xl >> 7) ⊕ q 21%nat ⊕ q 14%nat)) in
  let dh15 := SPH_T64 (SPH_ROTL64 dh3 16 + (xh ⊕ q 31%nat ⊕ mf 15%nat)
    + ((xl >> 2) ⊕ q 22%nat ⊕ q 15%nat)) in
  [dh0; dh1; dh2; dh3; dh4; dh5; dh6; dh7; dh8; dh9; dh10; dh11; dh12; dh13; dh14; dh15].

Definition compress_big (data h : list Z) : list Z := FOLDb (words64le 16 data) h.

Definition final_b : list Z :=
  [0xaaaaaaaaaaaaaaa0; 0xaaaaaaaaaaaaaaa1; 0xaaaaaaaaaaaaaaa2; 0xaaaaaaaaaaaaaaa3;
   0xaaaaaaaaaaaaaaa4; 0xaaaaaaaaaaaaaaa5; 0xaaaaaaaaaaaaaaa6; 0xaaaaaaaaaaaaaaa7;
   0xaaaaaaaaaaaaaaa8; 0xaaaaaaaaaaaaaaa9; 0xaaaaaaaaaaaaaaaa; 0xaaaaaaaaaaaaaaab;
   0xaaaaaaaaaaaaaaac; 0xaaaaaaaaaaaaaaad; 0xaaaaaaaaaaaaaaae; 0xaaaaaaaaaaaaaaaf].

(** ** The streaming interface *)

(** [sph_bmw_big_context]: the chain of the buffered context is [H]. *)
Record big_context := mkBig { sc : context (list Z); bit_count : Z }.

Definition bmw64_init (iv : list Z) : big_context :=
  mkBig (mkContext (repeat 0 128) 0 iv) 0.

(** One full buffer: [compress_big(buf, h1, h2)], then the pointers [h1] and
    [h2] are swapped. *)
Definition bmw64_block (buf : list Z) (h : list Z * list Z) : list Z * list Z :=
  let '(h1, h2) := h in
  let h2 := compress_big buf h1 in
  (h2, h1).

(** [h1] starts as [sc->H] and [h2] as the uninitialised local [htmp]; at the
    end the words [h1] points to are left in [sc->H]. *)
Definition bmw64 (c : big_context) (data : list Z) : big_context :=
  let count := T64 (bit_count c + T64 (Z.of_nat (length data) << 3)) in
  let htmp := repeat 0 16 in
  let start := mkContext (buf (sc c)) (ptr (sc c)) (chain (sc c), htmp) in
  let stop := core_loop 128 bmw64_block (length data) start data in
  mkBig (mkContext (buf stop) (ptr stop) (fst (chain stop))) count.

Definition bmw64_close (c : big_context) (ub n : Z) (out_size_w64 : nat) : list Z :=
  let b := buf (sc c) in
  let p := ptr (sc c) in
  let z := 0x80 >> n in
  let b := upd b p (((ub .& T32 (- z)) .| z) .& 0xFF) in
  let p := S p in
  let h := chain (sc c) in
  let '(b, p, h) :=
    if (128 - 8 <? p)%nat
    then let b := memcpy b p (repeat 0 (128 - p)) in (b, 0%nat, compress_big b h)
    else (b, p, h) in
  let b := memcpy b p (repeat 0 (128 - 8 - p)) in
  let b := memcpy b (128 - 8) (sph_enc64le (SPH_T64 (bit_count c + n))) in
  let h2 := compress_big b h in
  let b := memcpy b 0 (flat_map sph_enc64le h2) in
  let h1 := compress_big b final_b in
  flat_map sph_enc64le (skipn (16 - out_size_w64) h1).

Definition sph_bmw384_init : big_context := bmw64_init IV384.
Definition sph_bmw384 : big_context -> list Z -> big_context := bmw64.
Definition sph_bmw384_addbits_and_close (c : big_context) (ub n : Z)
  : list Z * big_context := (bmw64_close c ub n 6, sph_bmw384_init).
Definition sph_bmw384_close (c : big_context) : list Z * big_context :=
  sph_bmw384_addbits_and_close c 0 0.

Definition sph_bmw512_init : big_context := bmw64_init IV512.
Definition sph_bmw512 : big_context -> list Z -> big_context := bmw64.
Definition sph_bmw512_addbits_and_close (c : big_context) (ub n : Z)
  : list Z * big_context := (bmw64_close c ub n 8, sph_bmw512_init).
Definition sph_bmw512_close (c : big_context) : list Z * big_context :=
  sph_bmw512_addbits_and_close c 0 0.

(** The constant of BMW is [j * floor(2^64/48)]; the code's multiplies another
    number. *)
Theorem Kb_not_bmw : map (fun j => Kb j =? Z.of_nat j * (2 ^ 64 / 48)) (seq 16 16) = repeat false 16.
Proof. vm_compute; reflexivity. Qed.

End Bmw.
