(* ===== verification/Keccak.v ===== *)
(** Keccak: [src/src/crypto/keccak.c], the 64-bit build without local copies
    of the state ([SPH_KECCAK_64], [SPH_KECCAK_NOCOPY], x86-64), with
    [SPH_KECCAK_UNROLL] = 8: rounds are unrolled by eight over renamed lanes
    ([P0..P8]) and six lanes are kept complemented. *)
From S2P Require Import Prelude SphTypes SphStream.

Module Keccak.

Definition RC : list Z :=
  [0x0000000000000001; 0x0000000000008082; 0x800000000000808A; 0x8000000080008000;
   0x000000000000808B; 0x0000000080000001; 0x8000000080008081; 0x8000000000008009;
   0x000000000000008A; 0x0000000000000088; 0x0000000080008009; 0x000000008000000A;
   0x000000008000808B; 0x800000000000008B; 0x8000000000008089; 0x8000000000008003;
   0x8000000000008002; 0x8000000000000080; 0x000000000000800A; 0x800000008000000A;
   0x8000000080008081; 0x8000000000008080; 0x0000000080000001; 0x8000000080008008].

(** ** Lane names

    [a10] and so on name the words [kc->u.wide[x + 5 y]].  A macro argument
    list [b00, b01, .., b44] is a list [p] of 25 word indices: [b x y] is the
    word at index [p[5 x + y]]. *)

Definition P0 : list nat :=
  [0; 5; 10; 15; 20; 1; 6; 11; 16; 21; 2; 7; 12; 17; 22; 3; 8; 13; 18; 23; 4; 9; 14; 19; 24]%nat.
Definition P1 : list nat :=
  [0; 3; 1; 4; 2; 6; 9; 7; 5; 8; 12; 10; 13; 11; 14; 18; 16; 19; 17; 15; 24; 22; 20; 23; 21]%nat.
Definition P2 : list nat :=
  [0; 18; 6; 24; 12; 9; 22; 10; 3; 16; 13; 1; 19; 7; 20; 17; 5; 23; 11; 4; 21; 14; 2; 15; 8]%nat.
Definition P3 : list nat :=
  [0; 17; 9; 21; 13; 22; 14; 1; 18; 5; 19; 6; 23; 10; 2; 11; 3; 15; 7; 24; 8; 20; 12; 4; 16]%nat.
Definition P4 : list nat :=
  [0; 11; 22; 8; 19; 14; 20; 6; 17; 3; 23; 9; 15; 1; 12; 7; 18; 4; 10; 21; 16; 2; 13; 24; 5]%nat.
Definition P5 : list nat :=
  [0; 7; 14; 16; 23; 20; 2; 9; 11; 18; 15; 22; 4; 6; 13; 10; 17; 24; 1; 8; 5; 12; 19; 21; 3]%nat.
Definition P6 : list nat :=
  [0; 10; 20; 5; 15; 2; 12; 22; 7; 17; 4; 14; 24; 9; 19; 1; 11; 21; 6; 16; 3; 13; 23; 8; 18]%nat.
Definition P7 : list nat :=
  [0; 1; 2; 3; 4; 12; 13; 14; 10; 11; 24; 20; 21; 22; 23; 6; 7; 8; 9; 5; 18; 19; 15; 16; 17]%nat.
Definition P8 : list nat :=
  [0; 6; 12; 18; 24; 13; 19; 20; 1; 7; 21; 2; 8; 14; 15; 9; 10; 16; 22; 3; 17; 23; 4; 5; 11]%nat.
Definition P9 : list nat :=
  [0; 9; 13; 17; 21; 19; 23; 2; 6; 10; 8; 12; 16; 20; 4; 22; 1; 5; 14; 18; 11; 15; 24; 3; 7]%nat.
Definition P10 : list nat :=
  [0; 22; 19; 11; 8; 23; 15; 12; 9; 1; 16; 13; 5; 2; 24; 14; 6; 3; 20; 17; 7; 4; 21; 18; 10]%nat.
Definition P11 : list nat :=
  [0; 14; 23; 7; 16; 15; 4; 13; 22; 6; 5; 19; 3; 12; 21; 20; 9; 18; 2; 11; 10; 24; 8; 17; 1]%nat.
Definition P12 : list nat :=
  [0; 20; 15; 10; 5; 4; 24; 19; 14; 9; 3; 23; 18; 13; 8; 2; 22; 17; 12; 7; 1; 21; 16; 11; 6]%nat.
Definition P13 : list nat :=
  [0; 2; 4; 1; 3; 24; 21; 23; 20; 22; 18; 15; 17; 19; 16; 12; 14; 11; 13; 10; 6; 8; 5; 7; 9]%nat.
Definition P14 : list nat :=
  [0; 12; 24; 6; 18; 21; 8; 15; 2; 14; 17; 4; 11; 23; 5; 13; 20; 7; 19; 1; 9; 16; 3; 10; 22]%nat.
Definition P15 : list nat :=
  [0; 13; 21; 9; 17; 8; 16; 4; 12; 20; 11; 24; 7; 15; 3; 19; 2; 10; 23; 6; 22; 5; 18; 1; 14]%nat.
Definition P16 : list nat :=
  [0; 19; 8; 22; 11; 16; 5; 24; 13; 2; 7; 21; 10; 4; 18; 23; 12; 1; 15; 9; 14; 3; 17; 6; 20]%nat.
Definition P17 : list nat :=
  [0; 23; 16; 14; 7; 5; 3; 21; 19; 12; 10; 8; 1; 24; 17; 15; 13; 6; 4; 22; 20; 18; 11; 9; 2]%nat.
Definition P18 : list nat :=
  [0; 15; 5; 20; 10; 3; 18; 8; 23; 13; 1; 16; 6; 21; 11; 4; 19; 9; 24; 14; 2; 17; 7; 22; 12]%nat.
Definition P19 : list nat :=
  [0; 4; 3; 2; 1; 18; 17; 16; 15; 19; 6; 5; 9; 8; 7; 24; 23; 22; 21; 20; 12; 11; 10; 14; 13]%nat.
Definition P20 : list nat :=
  [0; 24; 18; 12; 6; 17; 11; 5; 4; 23; 9; 3; 22; 16; 10; 21; 15; 14; 8; 2; 13; 7; 1; 20; 19]%nat.
Definition P21 : list nat :=
  [0; 21; 17; 13; 9; 11; 7; 3; 24; 15; 22; 18; 14; 5; 1; 8; 4; 20; 16; 12; 19; 10; 6; 2; 23]%nat.
Definition P22 : list nat :=
  [0; 8; 11; 19; 22; 7; 10; 18; 21; 4; 14; 17; 20; 3; 6; 16; 24; 2; 5; 13; 23; 1; 9; 12; 15]%nat.
Definition P23 : list nat :=
  [0; 16; 7; 23; 14; 10; 1; 17; 8; 24; 20; 11; 2; 18; 9; 5; 21; 12; 3; 19; 15; 6; 22; 13; 4]%nat.

Definition rd (p : list nat) (A : list Z) (x y : nat) : Z := A.[nth (5 * x + y) p 0%nat].
Definition wr (p : list nat) (A : list Z) (x y : nat) (v : Z) : list Z :=
  upd A (nth (5 * x + y) p 0%nat) v.

(** ** The round macros *)

Definition TH_ELT (c0 c1 c2 c3 c4 d0 d1 d2 d3 d4 : Z) : Z :=
  let tt0 := d0 ⊕ d1 in
  let tt1 := d2 ⊕ d3 in
  let tt0 := tt0 ⊕ d4 in
  let tt0 := tt0 ⊕ tt1 in
  let tt0 := SPH_ROTL64 tt0 1 in
  let tt2 := c0 ⊕ c1 in
  let tt3 := c2 ⊕ c3 in
  let tt0 := tt0 ⊕ c4 in
  let tt2 := tt2 ⊕ tt3 in
  tt0 ⊕ tt2.

Definition TH_COLS (p : list nat) (A : list Z) (c d : nat) : Z :=
  TH_ELT (rd p A c 0) (rd p A c 1) (rd p A c 2) (rd p A c 3) (rd p A c 4)
    (rd p A d 0) (rd p A d 1) (rd p A d 2) (rd p A d 3) (rd p A d 4).

Definition XOR_COL (p : list nat) (x : nat) (t : Z) (A : list Z) : list Z :=
  let A := wr p A x 0 (rd p A x 0 ⊕ t) in
  let A := wr p A x 1 (rd p A x 1 ⊕ t) in
  let A := wr p A x 2 (rd p A x 2 ⊕ t) in
  let A := wr p A x 3 (rd p A x 3 ⊕ t) in
  wr p A x 4 (rd p A x 4 ⊕ t).

Definition THETA (p : list nat) (A : list Z) : list Z :=
  let t0 := TH_COLS p A 4 1 in
  let t1 := TH_COLS p A 0 2 in
  let t2 := TH_COLS p A 1 3 in
  let t3 := TH_COLS p A 2 4 in
  let t4 := TH_COLS p A 3 0 in
  XOR_COL p 4 t4 (XOR_COL p 3 t3 (XOR_COL p 2 t2 (XOR_COL p 1 t1 (XOR_COL p 0 t0 A)))).

(** [ROL64(bxy, bxy, n)]; [b00] is not rotated. *)
Definition ROL_AT (p : list nat) (x y : nat) (n : Z) (A : list Z) : list Z :=
  wr p A x y (SPH_ROTL64 (rd p A x y) n).

Definition RHO (p : list nat) (A : list Z) : list Z :=
  let A := ROL_AT p 0 1 36 A in
  let A := ROL_AT p 0 2 3 A in
  let A := ROL_AT p 0 3 41 A in
  let A := ROL_AT p 0 4 18 A in
  let A := ROL_AT p 1 0 1 A in
  let A := ROL_AT p 1 1 44 A in
  let A := ROL_AT p 1 2 10 A in
  let A := ROL_AT p 1 3 45 A in
  let A := ROL_AT p 1 4 2 A in
  let A := ROL_AT p 2 0 62 A in
  let A := ROL_AT p 2 1 6 A in
  let A := ROL_AT p 2 2 43 A in
  let A := ROL_AT p 2 3 15 A in
  let A := ROL_AT p 2 4 61 A in
  let A := ROL_AT p 3 0 28 A in
  let A := ROL_AT p 3 1 55 A in
  let A := ROL_AT p 3 2 25 A in
  let A := ROL_AT p 3 3 21 A in
  let A := ROL_AT p 3 4 56 A in
  let A := ROL_AT p 4 0 27 A in
  let A := ROL_AT p 4 1 20 A in
  let A := ROL_AT p 4 2 39 A in
  let A := ROL_AT p 4 3 8 A in
  let A := ROL_AT p 4 4 14 A in
  A.

Definition KHI_XO (a b c : Z) : Z := let kt := b .| c in a ⊕ kt.
Definition KHI_XA (a b c : Z) : Z := let kt := b .& c in a ⊕ kt.

(** The five [MOV64]s that end the treatment of row [y]. *)
Definition MOV_ROW (p : list nat) (y : nat) (c0 c1 c2 c3 c4 : Z) (A : list Z) : list Z :=
  let A := wr p A 0 y c0 in
  let A := wr p A 1 y c1 in
  let A := wr p A 2 y c2 in
  let A := wr p A 3 y c3 in
  wr p A 4 y c4.

Definition KHI_ROW0 (p : list nat) (A : list Z) : list Z :=
  let b0 := rd p A 0 0 in let b1 := rd p A 1 0 in let b2 := rd p A 2 0 in
  let b3 := rd p A 3 0 in let b4 := rd p A 4 0 in
  let bnn := NOT64 b2 in
  let c0 := KHI_XO b0 b1 b2 in
  let c1 := KHI_XO b1 bnn b3 in
  let c2 := KHI_XA b2 b3 b4 in
  let c3 := KHI_XO b3 b4 b0 in
  let c4 := KHI_XA b4 b0 b1 in
  MOV_ROW p 0 c0 c1 c2 c3 c4 A.

Definition KHI_ROW1 (p : list nat) (A : list Z) : list Z :=
  let b0 := rd p A 0 1 in let b1 := rd p A 1 1 in let b2 := rd p A 2 1 in
  let b3 := rd p A 3 1 in let b4 := rd p A 4 1 in
  let bnn := NOT64 b4 in
  let c0 := KHI_XO b0 b1 b2 in
  let c1 := KHI_XA b1 b2 b3 in
  let c2 := KHI_XO b2 b3 bnn in
  let c3 := KHI_XO b3 b4 b0 in
  let c4 := KHI_XA b4 b0 b1 in
  MOV_ROW p 1 c0 c1 c2 c3 c4 A.

Definition KHI_ROW2 (p : list nat) (A : list Z) : list Z :=
  let b0 := rd p A 0 2 in let b1 := rd p A 1 2 in let b2 := rd p A 2 2 in
  let b3 := rd p A 3 2 in let b4 := rd p A 4 2 in
  let bnn := NOT64 b3 in
  let c0 := KHI_XO b0 b1 b2 in
  let c1 := KHI_XA b1 b2 b3 in
  let c2 := KHI_XA b2 bnn b4 in
  let c3 := KHI_XO bnn b4 b0 in
  let c4 := KHI_XA b4 b0 b1 in
  MOV_ROW p 2 c0 c1 c2 c3 c4 A.

Definition KHI_ROW3 (p : list nat) (A : list Z) : list Z :=
  let b0 := rd p A 0 3 in let b1 := rd p A 1 3 in let b2 := rd p A 2 3 in
  let b3 := rd p A 3 3 in let b4 := rd p A 4 3 in
  let bnn := NOT64 b3 in
  let c0 := KHI_XA b0 b1 b2 in
  let c1 := KHI_XO b1 b2 b3 in
  let c2 := KHI_XO b2 bnn b4 in
  let c3 := KHI_XA bnn b4 b0 in
  let c4 := KHI_XO b4 b0 b1 in
  MOV_ROW p 3 c0 c1 c2 c3 c4 A.

Definition KHI_ROW4 (p : list nat) (A : list Z) : list Z :=
  let b0 := rd p A 0 4 in let b1 := rd p A 1 4 in let b2 := rd p A 2 4 in
  let b3 := rd p A 3 4 in let b4 := rd p A 4 4 in
  let bnn := NOT64 b1 in
  let c0 := KHI_XA b0 bnn b2 in
  let c1 := KHI_XO bnn b2 b3 in
  let c2 := KHI_XA b2 b3 b4 in
  let c3 := KHI_XO b3 b4 b0 in
  let c4 := KHI_XA b4 b0 b1 in
  MOV_ROW p 4 c0 c1 c2 c3 c4 A.

Definition KHI (p : list nat) (A : list Z) : list Z :=
  KHI_ROW4 p (KHI_ROW3 p (KHI_ROW2 p (KHI_ROW1 p (KHI_ROW0 p A)))).

Definition IOTA (r : Z) (A : list Z) : list Z := upd A 0 (A.[0] ⊕ r).

Definition KF_ELT (r s : list nat) (k : Z) (A : list Z) : list Z :=
  IOTA k (KHI s (RHO r (THETA r A))).

(** [MOV64(d, s)] on words of the state. *)
Definition MOV64 (d s : nat) (A : list Z) : list Z := upd A d A.[s].

Definition P8_TO_P0 (A : list Z) : list Z :=
  let t := A.[5] in
  let A := MOV64 5 6 A in
  let A := MOV64 6 19 A in
  let A := upd A 19 t in
  let t := A.[10] in
  let A := MOV64 10 12 A in
  let A := MOV64 12 8 A in
  let A := upd A 8 t in
  let t := A.[15] in
  let A := MOV64 15 18 A in
  let A := MOV64 18 22 A in
  let A := upd A 22 t in
  let t := A.[20] in
  let A := MOV64 20 24 A in
  let A := MOV64 24 11 A in
  let A := upd A 11 t in
  let t := A.[1] in
  let A := MOV64 1 13 A in
  let A := MOV64 13 16 A in
  let A := upd A 16 t in
  let t := A.[21] in
  let A := MOV64 21 7 A in
  let A := MOV64 7 2 A in
  let A := upd A 2 t in
  let t := A.[17] in
  let A := MOV64 17 14 A in
  let A := MOV64 14 4 A in
  let A := upd A 4 t in
  let t := A.[3] in
  let A := MOV64 3 9 A in
  let A := MOV64 9 23 A in
  let A := upd A 23 t in
  A.

(** The body of the loop [for (j = 0; j < 24; j += 8)]. *)
Definition KECCAK_F_8 (j : nat) (A : list Z) : list Z :=
  let A := KF_ELT P0 P1 RC.[j + 0] A in
  let A := KF_ELT P1 P2 RC.[j + 1] A in
  let A := KF_ELT P2 P3 RC.[j + 2] A in
  let A := KF_ELT P3 P4 RC.[j + 3] A in
  let A := KF_ELT P4 P5 RC.[j + 4] A in
  let A := KF_ELT P5 P6 RC.[j + 5] A in
  let A := KF_ELT P6 P7 RC.[j + 6] A in
  let A := KF_ELT P7 P8 RC.[j + 7] A in
  P8_TO_P0 A.

Definition KECCAK_F_1600 (A : list Z) : list Z :=
  KECCAK_F_8 16 (KECCAK_F_8 8 (KECCAK_F_8 0 A)).

(** ** The streaming interface *)

(** [INPUT_BUF(size)]: the loop [for (j = 0; j < size; j += 8)]. *)
Definition INPUT_BUF (size : nat) (buf : list Z) (A : list Z) : list Z :=
  fold_left (fun A j => upd A j (A.[j] ⊕ sph_dec64le (skipn (8 * j) buf)))
    (seq 0 (size / 8)) A.

Definition keccak_init (out_size : Z) : context (list Z) :=
  let A := repeat 0 25 in
  let A := upd A 1 0xFFFFFFFFFFFFFFFF in
  let A := upd A 2 0xFFFFFFFFFFFFFFFF in
  let A := upd A 8 0xFFFFFFFFFFFFFFFF in
  let A := upd A 12 0xFFFFFFFFFFFFFFFF in
  let A := upd A 17 0xFFFFFFFFFFFFFFFF in
  let A := upd A 20 0xFFFFFFFFFFFFFFFF in
  mkContext (repeat 0 144) 0 A.

Definition keccak_block (lim : nat) (buf : list Z) (A : list Z) : list Z :=
  KECCAK_F_1600 (INPUT_BUF lim buf A).

Definition keccak_core (lim : nat) : context (list Z) -> list Z -> context (list Z) :=
  core lim (keccak_block lim).

(** The end of [keccak_close]: undo the lane complement. *)
Definition uncomplement (A : list Z) : list Z :=
  let A := upd A 1 (NOT64 A.[1]) in
  let A := upd A 2 (NOT64 A.[2]) in
  let A := upd A 8 (NOT64 A.[8]) in
  let A := upd A 12 (NOT64 A.[12]) in
  let A := upd A 17 (NOT64 A.[17]) in
  upd A 20 (NOT64 A.[20]).

(** The bytes [u.tmp[0..j-1]] that [DEFCLOSE(d, lim)] feeds to the core. *)
Definition close_tmp (lim p : nat) (ub n : Z) : list Z :=
  let eb := (0x100 .| (ub .& 0xFF)) >> (8 - n) in
  if (p =? lim - 1)%nat
  then if n =? 7
       then [T8 eb] ++ repeat 0 (lim - 1) ++ [0x80]
       else [T8 (eb .| 0x80)]
  else [T8 eb] ++ repeat 0 (lim - p - 2) ++ [0x80].

(** [DEFCLOSE(d, lim)]: the digest of [d] bytes. *)
Definition keccak_close (d lim : nat) (kc : context (list Z)) (ub n : Z) : list Z :=
  let kc := keccak_core lim kc (close_tmp lim (ptr kc) ub n) in
  let A := uncomplement (chain kc) in
  firstn d (flat_map sph_enc64le (firstn ((d + 7) / 8) A)).

Definition sph_keccak224_init : context (list Z) := keccak_init 224.
Definition sph_keccak224 : context (list Z) -> list Z -> context (list Z) :=
  keccak_core 144.
Definition sph_keccak224_addbits_and_close (c : context (list Z)) (ub n : Z)
  : list Z * context (list Z) := (keccak_close 28 144 c ub n, sph_keccak224_init).
Definition sph_keccak224_close (c : context (list Z)) : list Z * context (list Z) :=
  sph_keccak224_addbits_and_close c 0 0.

Definition sph_keccak256_init : context (list Z) := keccak_init 256.
Definition sph_keccak256 : context (list Z) -> list Z -> context (list Z) :=
  keccak_core 136.
Definition sph_keccak256_addbits_and_close (c : context (list Z)) (ub n : Z)
  : list Z * context (list Z) := (keccak_close 32 136 c ub n, sph_keccak256_init).
Definition sph_keccak256_close (c : context (list Z)) : list Z * context (list Z) :=
  sph_keccak256_addbits_and_close c 0 0.

Definition sph_keccak384_init : context (list Z) := keccak_init 384.
Definition sph_keccak384 : context (list Z) -> list Z -> context (list Z) :=
  keccak_core 104.
Definition sph_keccak384_addbits_and_close (c : context (list Z)) (ub n : Z)
  : list Z * context (list Z) := (keccak_close 48 104 c ub n, sph_keccak384_init).
Definition sph_keccak384_close (c : context (list Z)) : list Z * context (list Z) :=
  sph_keccak384_addbits_and_close c 0 0.

Definition sph_keccak512_init : context (list Z) := keccak_init 512.
Definition sph_keccak512 : context (list Z) -> list Z -> context (list Z) :=
  keccak_core 72.
Definition sph_keccak512_addbits_and_close (c : context (list Z)) (ub n : Z)
  : list Z * context (list Z) := (keccak_close 64 72 c ub n, sph_keccak512_init).
Definition sph_keccak512_close (c : context (list Z)) : list Z * context (list Z) :=
  sph_keccak512_addbits_and_close c 0 0.

(** ** The specification: Keccak-f[1600] *)
Module Spec.

(** A state is 25 lanes, lane (x, y) at index x + 5 y. *)
Definition tab (f : nat -> Z) : list Z := map f (seq 0 25).

Definition column (A : list Z) (x : nat) : Z :=
  A.[x] ⊕ A.[x + 5] ⊕ A.[x + 10] ⊕ A.[x + 15] ⊕ A.[x + 20].

Definition theta (A : list Z) : list Z :=
  tab (fun i => A.[i] ⊕ (column A ((i + 4) mod 5) ⊕ SPH_ROTL64 (column A ((i + 1) mod 5)) 1)).

(** The rotation offsets: the triangular numbers along the walk
    (x, y) -> (y, 2 x + 3 y) from (1, 0). *)
Fixpoint walk (n x y : nat) : list nat :=
  match n with O => [] | S n => (x + 5 * y)%nat :: walk n y ((2 * x + 3 * y) mod 5) end.

Definition offset (i : nat) : Z :=
  match find (fun t => nth t (walk 24 1 0) 0%nat =? i)%nat (seq 0 24) with
  | Some t => Z.of_nat ((t + 1) * (t + 2) / 2) mod 64
  | None => 0
  end.

Definition rho (A : list Z) : list Z := tab (fun i => SPH_ROTL64 A.[i] (offset i)).

Definition pi (A : list Z) : list Z :=
  tab (fun i => let x := (i mod 5)%nat in let y := (i / 5)%nat in A.[(x + 3 * y) mod 5 + 5 * x]).

Definition chi (A : list Z) : list Z :=
  tab (fun i => let x := (i mod 5)%nat in let y := (i / 5)%nat in
         A.[i] ⊕ (NOT64 A.[(x + 1) mod 5 + 5 * y] .& A.[(x + 2) mod 5 + 5 * y])).

(** The round constants come from a linear feedback shift register. *)
Definition lfsr (R : Z) : Z := if Z.testbit R 7 then (2 * R) ⊕ 0x171 else 2 * R.
Definition rc (t : nat) : bool := Z.testbit (Nat.iter t lfsr 1) 0.
Definition constant (ir : nat) : Z :=
  fold_right (fun j c => (if rc (j + 7 * ir) then 2 ^ (2 ^ Z.of_nat j - 1) else 0) + c) 0 (seq 0 7).

Definition round (ir : nat) (A : list Z) : list Z :=
  let A := chi (pi (rho (theta A))) in upd A 0 (A.[0] ⊕ constant ir).

Definition keccak_f (A : list Z) : list Z := fold_left (fun A ir => round ir A) (seq 0 24) A.

End Spec.

Import Spec (tab).

Example RC_lfsr : map Spec.constant (seq 0 24) = RC.
Proof. vm_compute; reflexivity. Qed.

(** ** The relabelled rounds *)

(** The state the lane names [p] describe. *)
Definition view (p : list nat) (A : list Z) : list Z := tab (fun i => rd p A (i mod 5) (i / 5)).

Definition lanes (A : list Z) : Prop := length A = 25%nat /\ Forall u64 A.

#[local] Opaque TH_ELT SPH_ROTL64 NOT64 Z.lxor Z.lor Z.land.

Ltac lanes25 A H :=
  destruct A as [|? [|? [|? [|? [|? [|? [|? [|? [|? [|? [|? [|? [|? [|? [|? [|? [|? [|? [|? [|? [|? [|? [|? [|? [|? [|? A]]]]]]]]]]]]]]]]]]]]]]]]]];
  try discriminate H; clear H.

Lemma view_P0 A : length A = 25%nat -> view P0 A = A.
Proof. intros H; lanes25 A H; reflexivity. Qed.

(** A round on plainly named lanes, six of them complemented. *)
Definition kround (k : Z) (L : list Z) : list Z := IOTA k (KHI P0 (view P1 (RHO P0 (THETA P0 L)))).

Definition relabels (r s : list nat) : Prop :=
  forall k A, length A = 25%nat ->
    view s (KF_ELT r s k A) = kround k (view r A) /\ length (KF_ELT r s k A) = 25%nat.

Ltac relabel :=
  intros k A H; lanes25 A H; split; [|reflexivity];
  cbv -[TH_ELT SPH_ROTL64 NOT64 Z.lxor Z.lor Z.land]; reflexivity.

Lemma relabels_01 : relabels P0 P1. Proof. relabel. Qed.
Lemma relabels_12 : relabels P1 P2. Proof. relabel. Qed.
Lemma relabels_23 : relabels P2 P3. Proof. relabel. Qed.
Lemma relabels_34 : relabels P3 P4. Proof. relabel. Qed.
Lemma relabels_45 : relabels P4 P5. Proof. relabel. Qed.
Lemma relabels_56 : relabels P5 P6. Proof. relabel. Qed.
Lemma relabels_67 : relabels P6 P7. Proof. relabel. Qed.
Lemma relabels_78 : relabels P7 P8. Proof. relabel. Qed.

Lemma P8_TO_P0_view A : length A = 25%nat -> P8_TO_P0 A = view P8 A.
Proof. intros H; lanes25 A H; reflexivity. Qed.

(** Eight relabelled rounds and the final move are eight plain rounds. *)
Lemma KECCAK_F_8_rounds j A : length A = 25%nat ->
  KECCAK_F_8 j A = fold_left (fun L i => kround RC.[j + i] L) (seq 0 8) A.
Proof.
  intros H; unfold KECCAK_F_8; cbn [seq fold_left].
  destruct (relabels_01 RC.[j + 0] A H) as [E1 H1].
  destruct (relabels_12 RC.[j + 1] _ H1) as [E2 H2].
  destruct (relabels_23 RC.[j + 2] _ H2) as [E3 H3].
  destruct (relabels_34 RC.[j + 3] _ H3) as [E4 H4].
  destruct (relabels_45 RC.[j + 4] _ H4) as [E5 H5].
  destruct (relabels_56 RC.[j + 5] _ H5) as [E6 H6].
  destruct (relabels_67 RC.[j + 6] _ H6) as [E7 H7].
  destruct (relabels_78 RC.[j + 7] _ H7) as [E8 H8].
  rewrite P8_TO_P0_view, E8, E7, E6, E5, E4, E3, E2, E1, view_P0 by assumption; reflexivity.
Qed.

(** ** Lanes *)

Lemma tab_length f : length (tab f) = 25%nat.
Proof. reflexivity. Qed.

Lemma get_tab f i : (i < 25)%nat -> (tab f).[i] = f i.
Proof.
  intros H; unfold tab, get; rewrite (nth_indep _ 0 (f 0%nat)) by (rewrite length_map, length_seq; exact H).
  rewrite (map_nth f), seq_nth by exact H; reflexivity.
Qed.

Lemma tab_ext f g : (forall i, (i < 25)%nat -> f i = g i) -> tab f = tab g.
Proof. intros H; apply map_ext_in; intros i Hi; apply in_seq in Hi; apply H; lia. Qed.

Lemma tab_get A : length A = 25%nat -> tab (fun i => A.[i]) = A.
Proof. intros H; lanes25 A H; reflexivity. Qed.

Lemma tab_lanes f : (forall i, (i < 25)%nat -> u64 (f i)) -> lanes (tab f).
Proof.
  intros H; split; [reflexivity|]; apply Forall_map, Forall_forall; intros i Hi; apply in_seq in Hi; apply H; lia.
Qed.

Lemma lanes_get A i : lanes A -> u64 A.[i].
Proof.
  intros [Hl H]; unfold get; destruct (Nat.ltb_spec i (length A)) as [Hi|Hi].
  - rewrite Forall_forall in H; apply H, nth_In, Hi.
  - rewrite nth_overflow by exact Hi; unfold u64; lia.
Qed.

(** Every step of the specification is linear, chi apart: with [xorl K] for
    adding a constant state [K]. *)
Definition xorl (K A : list Z) : list Z := tab (fun i => A.[i] ⊕ K.[i]).

Lemma lxor_swap a b c d : (a ⊕ b) ⊕ (c ⊕ d) = (a ⊕ c) ⊕ (b ⊕ d).
Proof. rewrite !Z.lxor_assoc, <- (Z.lxor_assoc b), (Z.lxor_comm b c), Z.lxor_assoc; reflexivity. Qed.

Lemma get_xorl K A i : (i < 25)%nat -> (xorl K A).[i] = A.[i] ⊕ K.[i].
Proof. apply (get_tab (fun i => A.[i] ⊕ K.[i])). Qed.

Lemma lanes_xorl K A : lanes K -> lanes A -> lanes (xorl K A).
Proof. intros HK HA; apply tab_lanes; intros i _; apply u64_lxor; apply lanes_get; assumption. Qed.

Lemma column_xorl K A x : (x < 5)%nat ->
  Spec.column (xorl K A) x = Spec.column A x ⊕ Spec.column K x.
Proof.
  intros H; unfold Spec.column; rewrite !get_xorl by lia.
  rewrite (lxor_swap A.[x]), (lxor_swap (A.[x] ⊕ _)), (lxor_swap (A.[x] ⊕ _ ⊕ _)), (lxor_swap (A.[x] ⊕ _ ⊕ _ ⊕ _)); reflexivity.
Qed.

Lemma column_u64 A x : lanes A -> u64 (Spec.column A x).
Proof. intros H; unfold Spec.column; repeat apply u64_lxor; apply lanes_get, H. Qed.

Lemma mod5_lt i : (i mod 5 < 5)%nat.
Proof. apply Nat.mod_upper_bound; lia. Qed.

Lemma theta_linear K A : lanes K -> lanes A -> Spec.theta (xorl K A) = xorl (Spec.theta K) (Spec.theta A).
Proof.
  intros HK HA; apply tab_ext; intros i Hi; unfold Spec.theta; rewrite get_xorl, !get_tab by exact Hi.
  rewrite !column_xorl, ROTL64_lxor by (apply mod5_lt || (apply column_u64; assumption) || lia).
  rewrite (lxor_swap (Spec.column A _)), (lxor_swap A.[i]); reflexivity.
Qed.

Lemma theta_lanes A : lanes A -> lanes (Spec.theta A).
Proof. intros H; apply tab_lanes; intros; repeat apply u64_lxor; try apply ROTL64_u64; try apply column_u64; try apply lanes_get; exact H. Qed.

Lemma offset_range i : 0 <= Spec.offset i < 64.
Proof. unfold Spec.offset; destruct (find _ _); [apply Z.mod_pos_bound|]; lia. Qed.

Lemma rho_linear K A : lanes K -> lanes A -> Spec.rho (xorl K A) = xorl (Spec.rho K) (Spec.rho A).
Proof.
  intros HK HA; apply tab_ext; intros i Hi; unfold Spec.rho; rewrite get_xorl, !get_tab by exact Hi.
  apply ROTL64_lxor; try apply lanes_get; try assumption; apply offset_range.
Qed.

Lemma rho_lanes A : lanes (Spec.rho A).
Proof. apply tab_lanes; intros; apply ROTL64_u64. Qed.

Lemma pi_linear K A : Spec.pi (xorl K A) = xorl (Spec.pi K) (Spec.pi A).
Proof.
  apply tab_ext; intros i Hi; unfold Spec.pi; rewrite !get_tab by exact Hi; cbv zeta; apply get_xorl.
  assert (i / 5 <= 4)%nat by (apply Nat.lt_succ_r, Nat.Div0.div_lt_upper_bound; lia).
  pose proof (mod5_lt i); pose proof (mod5_lt (i mod 5 + 3 * (i / 5))); lia.
Qed.

Lemma pi_lanes A : lanes A -> lanes (Spec.pi A).
Proof. intros H; apply tab_lanes; intros; apply lanes_get, H. Qed.

(** ** The steps of the code *)

#[local] Transparent TH_ELT.

Lemma TH_ELT_spec c0 c1 c2 c3 c4 d0 d1 d2 d3 d4 :
  TH_ELT c0 c1 c2 c3 c4 d0 d1 d2 d3 d4
  = (c0 ⊕ c1 ⊕ c2 ⊕ c3 ⊕ c4) ⊕ SPH_ROTL64 (d0 ⊕ d1 ⊕ d2 ⊕ d3 ⊕ d4) 1.
Proof.
  unfold TH_ELT; cbv zeta.
  rewrite (Z.lxor_assoc (d0 ⊕ d1) d4), (Z.lxor_comm d4 (d2 ⊕ d3)), <- !(Z.lxor_assoc (d0 ⊕ d1)).
  rewrite <- (Z.lxor_assoc (c0 ⊕ c1) c2); set (r := SPH_ROTL64 _ 1).
  rewrite Z.lxor_assoc, (Z.lxor_comm r), (Z.lxor_comm c4); reflexivity.
Qed.

#[local] Opaque TH_ELT.

Lemma THETA_spec A : length A = 25%nat -> THETA P0 A = Spec.theta A.
Proof.
  intros H; lanes25 A H; cbv -[TH_ELT SPH_ROTL64 Z.lxor]; rewrite !TH_ELT_spec; reflexivity.
Qed.

Lemma RHO_spec A : lanes A -> RHO P0 A = Spec.rho A.
Proof.
  intros [H Hu]; lanes25 A H; cbv -[SPH_ROTL64 u64]; rewrite (ROTL64_0 z) by (inversion Hu; assumption); reflexivity.
Qed.

Lemma view_pi A : length A = 25%nat -> view P1 A = Spec.pi A.
Proof. intros H; lanes25 A H; reflexivity. Qed.

(** ** The complemented lanes *)

Definition ones64 : Z := 0xFFFFFFFFFFFFFFFF.

(** The lanes kept complemented between rounds, and where theta, rho and pi
    bring the complement. *)
Definition K0 : list Z := tab (fun i => if existsb (Nat.eqb i) [1; 2; 8; 12; 17; 20]%nat then ones64 else 0).
Definition K2 : list Z := tab (fun i => if existsb (Nat.eqb i) [0; 2; 3; 5; 7; 10; 12; 16; 18; 19; 20; 23]%nat then ones64 else 0).

Lemma K_lanes l : lanes (tab (fun i => if existsb (Nat.eqb i) l then ones64 else 0)).
Proof. apply tab_lanes; intros i _; destruct (existsb _ _); unfold u64, ones64; lia. Qed.

Lemma K0_K2 : Spec.pi (Spec.rho (Spec.theta K0)) = K2.
Proof. vm_compute. reflexivity. Qed.

#[local] Transparent NOT64.

Lemma uncomplement_xorl A : length A = 25%nat -> uncomplement A = xorl K0 A.
Proof.

  intros H; lanes25 A H; cbv -[Z.lxor]; rewrite !Z.lxor_0_r; reflexivity.
Qed.

#[local] Opaque ones64.

Lemma ones64_bits i : 0 <= i -> Z.testbit ones64 i = (i <? 64).
Proof.
  intros Hi; change ones64 with (Z.ones 64); destruct (Z.ltb_spec i 64);
    [apply Z.ones_spec_low|apply Z.ones_spec_high]; lia.
Qed.

(** The chi of the code on complemented lanes: one boolean identity per lane. *)
Lemma chi_complement B : lanes B -> xorl K0 (KHI P0 B) = Spec.chi (xorl K2 B).
Proof.
  intros [H Hu]; lanes25 B H.
  cbv -[Z.lxor Z.land Z.lor NOT64 ones64 u64]; unfold NOT64; change 0xFFFFFFFFFFFFFFFF with ones64.
  repeat (apply (f_equal2 (@cons Z)); [|]); try reflexivity; apply Z.bits_inj'; intros i Hi;
    rewrite ?Z.lxor_spec, ?Z.land_spec, ?Z.lor_spec, ?Z.lxor_spec, ?ones64_bits, ?Z.bits_0 by exact Hi;
    (destruct (Z.ltb_spec i 64) as [H64|H64];
     [repeat match goal with |- context [Z.testbit ?z i] => destruct (Z.testbit z i) end; reflexivity
     |assert (Hb : Forall (fun z => Z.testbit z i = false) [z; z0; z1; z2; z3; z4; z5; z6; z7; z8; z9; z10; z11; z12; z13; z14; z15; z16; z17; z18; z19; z20; z21; z22; z23])
        by (eapply Forall_impl; [|exact Hu]; intros x Hx; apply (in_width_high 64); assumption || lia);
      repeat match type of Hb with Forall _ (_ :: _) => apply Forall_cons_iff in Hb as [?E Hb] end;
      repeat match goal with E : Z.testbit _ i = false |- _ => rewrite E; clear E end; reflexivity]).
Qed.

Lemma xorl_involutive K A : length A = 25%nat -> xorl K (xorl K A) = A.
Proof.
  intros H; rewrite <- (tab_get A H) at 2; apply tab_ext; intros i Hi.
  rewrite get_xorl, Z.lxor_assoc, Z.lxor_nilpotent by exact Hi; apply Z.lxor_0_r.
Qed.

Lemma xorl_comm J K A : xorl J (xorl K A) = xorl K (xorl J A).
Proof.
  apply tab_ext; intros i Hi; rewrite !get_xorl, !Z.lxor_assoc, (Z.lxor_comm K.[i]) by exact Hi; reflexivity.
Qed.

Lemma IOTA_xorl k A : length A = 25%nat -> IOTA k (xorl K0 A) = xorl K0 (IOTA k A).
Proof.
  intros H; lanes25 A H; cbv -[Z.lxor ones64]; rewrite !Z.lxor_0_r; reflexivity.
Qed.

Lemma chi_lanes A : lanes A -> lanes (Spec.chi A).
Proof.
  intros H; apply tab_lanes; intros i Hi; cbv zeta; apply u64_lxor; [apply lanes_get, H|].
  apply u64_land; [apply NOT64_u64, lanes_get, H|apply lanes_get, H].
Qed.

Lemma RC_u64 i : u64 RC.[i].
Proof.
  assert (H : forallb (fun x => (0 <=? x) && (x <? 2 ^ 64)) RC = true) by (vm_compute; reflexivity).
  rewrite forallb_forall in H; unfold get; destruct (Nat.ltb_spec i 24).
  - apply (nth_In RC 0) in H0; apply H in H0; unfold u64; lia.
  - rewrite nth_overflow by exact H0; unfold u64; lia.
Qed.

Lemma constant_RC ir : (ir < 24)%nat -> Spec.constant ir = RC.[ir].
Proof.
  intros H; rewrite <- RC_lfsr; unfold get.
  rewrite (nth_indep _ 0 (Spec.constant 0)) by (rewrite length_map, length_seq; exact H).
  rewrite (map_nth Spec.constant), seq_nth by exact H; reflexivity.
Qed.

Lemma upd_lanes A i x : lanes A -> u64 x -> lanes (upd A i x).
Proof.
  intros [Hl H] Hx; split; [rewrite upd_length; exact Hl|]; clear Hl; revert i.
  induction H as [|a A Ha H IH]; intros [|i]; cbn [upd]; constructor; auto.
Qed.

Lemma round_lanes ir A : (ir < 24)%nat -> lanes A -> lanes (Spec.round ir A).
Proof.
  intros Hi H; unfold Spec.round; cbv zeta; rewrite constant_RC by exact Hi.
  assert (H1 : lanes (Spec.chi (Spec.pi (Spec.rho (Spec.theta A))))) by (apply chi_lanes, pi_lanes, rho_lanes).
  apply upd_lanes; [exact H1|apply u64_lxor; [apply lanes_get, H1|apply RC_u64]].
Qed.

Lemma MOV_ROW_length p y c0 c1 c2 c3 c4 A : length (MOV_ROW p y c0 c1 c2 c3 c4 A) = length A.
Proof. unfold MOV_ROW, wr; cbv zeta; rewrite !upd_length; reflexivity. Qed.

Lemma KHI_length p A : length (KHI p A) = length A.
Proof.
  unfold KHI, KHI_ROW4; rewrite MOV_ROW_length; unfold KHI_ROW3; rewrite MOV_ROW_length.
  unfold KHI_ROW2; rewrite MOV_ROW_length; unfold KHI_ROW1; rewrite MOV_ROW_length; apply MOV_ROW_length.
Qed.

Lemma round_IOTA ir A : (ir < 24)%nat ->
  Spec.round ir A = IOTA RC.[ir] (Spec.chi (Spec.pi (Spec.rho (Spec.theta A)))).
Proof. intros H; unfold Spec.round, IOTA; cbv zeta; rewrite constant_RC by exact H; reflexivity. Qed.

(** Up to chi, the complement is moved along. *)
Lemma steps_spec A : lanes A ->
  view P1 (RHO P0 (THETA P0 (xorl K0 A))) = xorl K2 (Spec.pi (Spec.rho (Spec.theta A))).
Proof.
  intros H; assert (HK : lanes K0) by apply K_lanes.
  assert (HA : lanes (xorl K0 A)) by (apply lanes_xorl; assumption).
  rewrite THETA_spec, RHO_spec, view_pi by (apply rho_lanes || (apply theta_lanes, HA) || apply HA).
  rewrite theta_linear, rho_linear, pi_linear, K0_K2 by (assumption || (apply theta_lanes; assumption)).
  reflexivity.
Qed.

Lemma chi_spec B : lanes B -> KHI P0 (xorl K2 B) = xorl K0 (Spec.chi B).
Proof.
  intros HB; assert (HB2 : lanes (xorl K2 B)) by (apply lanes_xorl; [apply K_lanes|exact HB]).
  pose proof (chi_complement (xorl K2 B) HB2) as E; rewrite xorl_involutive in E by apply HB.
  rewrite <- E; symmetry; apply xorl_involutive; rewrite KHI_length; apply HB2.
Qed.

Lemma kround_eq k L : kround k L = IOTA k (KHI P0 (view P1 (RHO P0 (THETA P0 L)))).
Proof. reflexivity. Qed.

Lemma chi_length A : length (Spec.chi A) = 25%nat.
Proof. apply tab_length. Qed.

Lemma steps_chi A : lanes A ->
  KHI P0 (view P1 (RHO P0 (THETA P0 (xorl K0 A)))) = xorl K0 (Spec.chi (Spec.pi (Spec.rho (Spec.theta A)))).
Proof. intros H; rewrite (steps_spec A H); apply chi_spec, pi_lanes, rho_lanes. Qed.

Lemma IOTA_chi k A : IOTA k (xorl K0 (Spec.chi A)) = xorl K0 (IOTA k (Spec.chi A)).
Proof. apply IOTA_xorl, chi_length. Qed.

Lemma kround_IOTA k L B : KHI P0 (view P1 (RHO P0 (THETA P0 L))) = B -> kround k L = IOTA k B.
Proof. intros <-; apply kround_eq. Qed.

(** A round of the code on the complemented state is a round of Keccak. *)
Lemma kround_spec ir A : (ir < 24)%nat -> lanes A -> kround RC.[ir] (xorl K0 A) = xorl K0 (Spec.round ir A).
Proof.
  intros Hi H; exact (eq_trans (kround_IOTA _ _ _ (steps_chi A H))
    (eq_trans (IOTA_chi _ _) (f_equal (xorl K0) (eq_sym (round_IOTA ir A Hi))))).
Qed.

(** The whole permutation. *)
Lemma krounds_spec l A : (forall i, In i l -> (i < 24)%nat) -> lanes A ->
  fold_left (fun L i => kround RC.[i] L) l (xorl K0 A) = xorl K0 (fold_left (fun A ir => Spec.round ir A) l A) /\
  lanes (fold_left (fun A ir => Spec.round ir A) l A).
Proof.
  intros Hl HA; apply (fold_left_sim (xorl K0) lanes); [|exact HA].
  intros i B Hi HB; split; [apply kround_spec|apply round_lanes]; auto.
Qed.

Lemma keccak_f_lanes A : lanes A -> lanes (Spec.keccak_f A).
Proof. intros H; apply krounds_spec; [intros i Hi; apply in_seq in Hi; lia|exact H]. Qed.

Lemma fold_kround j n a A :
  fold_left (fun L i => kround RC.[j + i] L) (seq a n) A = fold_left (fun L i => kround RC.[i] L) (seq (j + a) n) A.
Proof. exact (fold_left_shift (fun L i => kround RC.[i] L) j n a A). Qed.

Lemma KECCAK_F_1600_spec A : lanes A -> KECCAK_F_1600 (xorl K0 A) = xorl K0 (Spec.keccak_f A).
Proof.
  intros H; unfold KECCAK_F_1600, Spec.keccak_f.
  assert (E : forall j B, (j + 8 <= 24)%nat -> lanes B -> KECCAK_F_8 j (xorl K0 B)
    = xorl K0 (fold_left (fun A ir => Spec.round ir A) (seq j 8) B) /\
      lanes (fold_left (fun A ir => Spec.round ir A) (seq j 8) B)).
  { intros j B Hj HB; rewrite KECCAK_F_8_rounds, fold_kround, Nat.add_0_r by apply tab_length.
    apply krounds_spec; [intros i Hi; apply in_seq in Hi; lia|exact HB]. }
  change (seq 0 24) with (seq 0 8 ++ seq 8 8 ++ seq 16 8); rewrite !fold_left_app.
  destruct (E 0%nat A ltac:(lia) H) as [E0 H0]; rewrite E0.
  destruct (E 8%nat _ ltac:(lia) H0) as [E1 H1]; rewrite E1.
  destruct (E 16%nat _ ltac:(lia) H1) as [E2 H2]; rewrite E2; reflexivity.
Qed.

(** ** The sponge *)

(** The bytes a message is padded with: a bit 1, zeros, a bit 1. *)
Definition pad101 (lim len : nat) : list Z :=
  let k := (lim - len mod lim)%nat in
  let z := upd (repeat 0 k) 0 1 in upd z (k - 1) (z.[k - 1] .| 0x80).

(** The lanes a block is added to. *)
Definition block_lanes (lim : nat) (b : list Z) : list Z :=
  tab (fun i => if (i <? lim / 8)%nat then sph_dec64le (skipn (8 * i) b) else 0).

Definition sponge_step (lim : nat) (b A : list Z) : list Z := Spec.keccak_f (xorl (block_lanes lim b) A).

Definition keccak_spec (d lim : nat) (msg : list Z) : list Z :=
  let m := msg ++ pad101 lim (length msg) in
  firstn d (flat_map sph_enc64le (run (sponge_step lim) (blocks lim (length m / lim) m) (repeat 0 25))).

(** The four variants: digest and block sizes in bytes. *)
Definition variants : list (nat * nat) := [(28, 144); (32, 136); (48, 104); (64, 72)]%nat.

Lemma variant_sizes d lim : In (d, lim) variants ->
  (0 < lim <= 144)%nat /\ (lim = 8 * (lim / 8))%nat /\ (lim / 8 <= 25)%nat /\ (d <= 8 * ((d + 7) / 8) <= 200)%nat.
Proof. intros [[= <- <-]|[[= <- <-]|[[= <- <-]|[[= <- <-]|[]]]]]; cbn; lia. Qed.

Lemma fold_upd_lanes (w : nat -> Z) n A : (n <= 25)%nat -> length A = 25%nat ->
  fold_left (fun A j => upd A j (A.[j] ⊕ w j)) (seq 0 n) A
  = tab (fun i => A.[i] ⊕ (if (i <? n)%nat then w i else 0)).
Proof.
  intros Hn HA; induction n as [|n IH].
  - cbn [seq fold_left]; rewrite <- (tab_get A HA) at 1; apply tab_ext; intros i _; symmetry; apply Z.lxor_0_r.
  - rewrite seq_S, fold_left_app, IH by lia; cbn [Nat.add]; rewrite fold_left_cons; cbn [fold_left].
    set (T := tab _); apply (nth_ext _ _ 0 0); [rewrite upd_length; reflexivity|].
    rewrite upd_length; intros i Hi; change (length T) with 25%nat in Hi; fold (get (upd T n (Z.lxor T.[n] (w n))) i).
    fold (get (tab (fun i => Z.lxor A.[i] (if (i <? S n)%nat then w i else 0))) i); rewrite get_tab by exact Hi.
    destruct (Nat.eq_dec i n) as [->|Hne].
    + rewrite get_upd_eq by exact Hi; unfold T; rewrite get_tab by exact Hi.
      rewrite Nat.ltb_irrefl, Z.lxor_0_r; destruct (Nat.ltb_spec n (S n)); [reflexivity|lia].
    + rewrite get_upd_ne by auto; unfold T; rewrite get_tab by exact Hi.
      destruct (Nat.ltb_spec i n), (Nat.ltb_spec i (S n)); lia || reflexivity.
Qed.

Lemma INPUT_BUF_spec lim b A : (lim / 8 <= 25)%nat -> length A = 25%nat ->
  INPUT_BUF lim b A = xorl (block_lanes lim b) A.
Proof.
  intros Hl HA; unfold INPUT_BUF; rewrite (fold_upd_lanes (fun j => sph_dec64le (skipn (8 * j) b))) by assumption.
  apply tab_ext; intros i Hi; unfold block_lanes; rewrite get_tab by exact Hi; reflexivity.
Qed.

Lemma block_lanes_lanes lim b : Forall u8 b -> length b = lim -> (lim = 8 * (lim / 8))%nat -> lanes (block_lanes lim b).
Proof.
  intros Hb Hl Hlim; apply tab_lanes; intros i _; destruct (Nat.ltb_spec i (lim / 8)); [|unfold u64; lia].
  pose proof (dec64le_firstn_skipn (skipn (8 * i) b) 8 0 (le_n 8)) as E; rewrite !skipn_O in E; rewrite E.
  apply dec64le_u64; [apply Forall_split, Forall_split, Hb|rewrite length_firstn, length_skipn; lia].
Qed.

(** The code keeps the sponge state complemented. *)
Lemma keccak_block_spec lim b A :
  (lim / 8 <= 25)%nat -> lanes A -> lanes (block_lanes lim b) ->
  keccak_block lim b (xorl K0 A) = xorl K0 (sponge_step lim b A) /\ lanes (sponge_step lim b A).
Proof.
  intros Hl HA Hb; unfold keccak_block, sponge_step.
  assert (HX : lanes (xorl (block_lanes lim b) A)) by (apply lanes_xorl; assumption).
  rewrite INPUT_BUF_spec, xorl_comm, KECCAK_F_1600_spec by (assumption || apply tab_length).
  split; [reflexivity|apply keccak_f_lanes, HX].
Qed.

Lemma blocks_u8 size n data : Forall u8 data -> (n * size <= length data)%nat ->
  forall b, In b (blocks size n data) -> Forall u8 b /\ length b = size.
Proof.
  revert data; induction n as [|n IH]; intros data Hd Hl b; [intros []|]; intros [<-|Hb].
  - split; [apply Forall_split, Hd|rewrite length_firstn; lia].
  - apply (IH (skipn size data)); [apply Forall_split, Hd|rewrite length_skipn; lia|exact Hb].
Qed.

Lemma sponge_run lim bs A : (lim / 8 <= 25)%nat -> lanes A -> (forall b, In b bs -> lanes (block_lanes lim b)) ->
  run (keccak_block lim) bs (xorl K0 A) = xorl K0 (run (sponge_step lim) bs A) /\ lanes (run (sponge_step lim) bs A).
Proof.
  intros Hl HA Hb; apply (fold_left_sim (xorl K0) lanes (fun st b => keccak_block lim b st) (fun st b => sponge_step lim b st));
    [|exact HA].
  intros b B Hi HB; apply keccak_block_spec; auto.
Qed.

Lemma keccak_block_firstn lim b A : (lim = 8 * (lim / 8))%nat -> keccak_block lim b A = keccak_block lim (firstn lim b) A.
Proof.
  intros H; unfold keccak_block, INPUT_BUF; f_equal.
  assert (G : forall l, (forall j, In j l -> (j < lim / 8)%nat) -> forall A,
    fold_left (fun A j => upd A j (A.[j] ⊕ sph_dec64le (skipn (8 * j) b))) l A
    = fold_left (fun A j => upd A j (A.[j] ⊕ sph_dec64le (skipn (8 * j) (firstn lim b)))) l A).
  { induction l as [|k l IH]; intros Hk B; [reflexivity|]; rewrite !fold_left_cons.
    rewrite (dec64le_firstn_skipn b lim (8 * k)) by (specialize (Hk k (or_introl eq_refl)); lia).
    apply IH; intros j Hj; apply Hk; right; exact Hj. }
  apply G; intros j Hj; apply in_seq in Hj; lia.
Qed.

Lemma pad_shape k :
  upd (1 :: repeat 0 (S k)) (S k) ((1 :: repeat 0 (S k)).[S k] .| 0x80) = 1 :: repeat 0 k ++ [0x80].
Proof.
  replace ((1 :: repeat 0 (S k)).[S k]) with 0 by (symmetry; apply (nth_repeat 0 (S k))).
  change (1 :: upd (repeat 0 (S k)) k 0x80 = 1 :: repeat 0 k ++ [0x80]); f_equal.
  rewrite <- Nat.add_1_r, repeat_app; pose proof (upd_app_r (repeat 0 k) [0] k 0x80) as E.
  rewrite repeat_length, Nat.sub_diag in E; apply E; lia.
Qed.

(** The padding bytes of [keccak_close]. *)
Lemma close_tmp_pad lim p : (p < lim)%nat -> close_tmp lim p 0 0 = pad101 lim p.
Proof.
  intros H; unfold pad101; rewrite Nat.mod_small by exact H; cbv zeta; unfold close_tmp.
  destruct (Nat.eqb_spec p (lim - 1)) as [->|Hne].
  - replace (lim - (lim - 1))%nat with 1%nat by lia; reflexivity.
  - replace (lim - p)%nat with (S (S (lim - p - 2))) by lia; generalize (lim - p - 2)%nat as k; intros k.
    replace (S (S k) - 1)%nat with (S k) by lia; replace (S (S k) - 2)%nat with k by lia.
    change (upd (repeat 0 (S (S k))) 0 1) with (1 :: repeat 0 (S k)); rewrite pad_shape; reflexivity.
Qed.

Lemma pad101_mod lim len : pad101 lim (len mod lim) = pad101 lim len.
Proof. unfold pad101; rewrite Nat.Div0.mod_mod; reflexivity. Qed.

Lemma pad101_length lim len : length (pad101 lim len) = (lim - len mod lim)%nat.
Proof. unfold pad101; rewrite !upd_length; apply repeat_length. Qed.

Lemma pad101_u8 lim len : Forall u8 (pad101 lim len).
Proof.
  unfold pad101; set (k := (lim - _)%nat).
  assert (U : forall l i x, Forall u8 l -> u8 x -> Forall u8 (upd l i x)).
  { intros l i x H Hx; revert i; induction H as [|a l Ha H IH]; intros [|i]; cbn [upd]; constructor; auto. }
  assert (R : Forall u8 (upd (repeat 0 k) 0 1)).
  { apply U; [apply Forall_forall; intros x Hx; apply repeat_spec in Hx; subst|]; unfold u8; lia. }
  apply U; [exact R|]; apply in_width_lor; [lia| |unfold in_width; lia].
  unfold get; destruct (nth_in_or_default (k - 1) (upd (repeat 0 k) 0 1) 0) as [Hn| ->]; [|unfold in_width; lia].
  rewrite Forall_forall in R; apply R, Hn.
Qed.

Lemma keccak_padded_mod lim len : (0 < lim)%nat -> ((len + (lim - len mod lim)) mod lim = 0)%nat.
Proof.
  intros H; pose proof (Nat.mod_upper_bound len lim ltac:(lia)).
  rewrite (Nat.div_mod_eq len lim) at 1.
  replace (lim * (len / lim) + len mod lim + (lim - len mod lim))%nat with (0 + (len / lim + 1) * lim)%nat by lia.
  rewrite Nat.Div0.mod_add; apply Nat.Div0.mod_0_l.
Qed.

Lemma firstn_flat_map_enc d n A : (d <= 8 * n)%nat -> (n <= length A)%nat ->
  firstn d (flat_map sph_enc64le (firstn n A)) = firstn d (flat_map sph_enc64le A).
Proof.
  intros Hd Hn; rewrite <- (firstn_skipn n A) at 2; rewrite flat_map_app, firstn_app.
  replace (d - _)%nat with 0%nat; [rewrite firstn_O, app_nil_r; reflexivity|].
  rewrite (flat_map_constant_length (c := 8)) by reflexivity; rewrite length_firstn; lia.
Qed.

(** The permutation of [keccak.c] - rounds unrolled by eight over lanes
    that are renamed instead of moved, six lanes stored complemented, one OR
    or AND per chi output - computes Keccak-f[1600] on the complemented
    state, with the rotation offsets and round constants of the standard. *)
Theorem keccak_permutation A :
  lanes A -> KECCAK_F_1600 (uncomplement A) = uncomplement (Spec.keccak_f A).
Proof.
  intros H; rewrite (uncomplement_xorl A (proj1 H)), (uncomplement_xorl _ (proj1 (keccak_f_lanes A H))).
  apply KECCAK_F_1600_spec, H.
Qed.

Lemma keccak_permutation_witness :
  lanes (repeat 5 25) /\ KECCAK_F_1600 (uncomplement (repeat 5 25)) = uncomplement (Spec.keccak_f (repeat 5 25)).
Proof.
  assert (H : lanes (repeat 5 25)) by (split; [reflexivity|repeat constructor; unfold u64; lia]).
  split; [exact H|apply (keccak_permutation (repeat 5 25) H)].
Defined.

Lemma fold_core_concat size (step : list Z -> list Z -> list Z) pieces : forall c, wf size c ->
  fold_left (core size step) pieces c = core size step c (concat pieces).
Proof.
  induction pieces as [|p ps IH]; intros c Hc; cbn [fold_left concat].
  - rewrite core_absorb by exact Hc; reflexivity.
  - rewrite IH by (apply core_wf, Hc); apply core_app, Hc.
Qed.

Lemma keccak_init_state n : keccak_init n = mkContext (repeat 0 144) 0 (xorl K0 (repeat 0 25)).
Proof. unfold keccak_init; f_equal; vm_compute; reflexivity. Qed.

(** Keccak-512 of the empty message, as its designers publish it. *)
Example keccak512_empty :
  fold_left (fun a b => 256 * a + b) (fst (sph_keccak512_close sph_keccak512_init)) 0
  = 0x0EAB42DE4C3CEB9235FC91ACFFE746B29C29A8C366B7C60E4E67C466F36A4304C00FA9CAF9D87976BA469BCBE06713B435F091EF2769FB160CDAB33D3670680E.
Proof. vm_compute; reflexivity. Qed.

(** For each of the four digest sizes, whatever the pieces a message
    arrives in, closing the context gives the Keccak sponge of the message:
    its bytes padded with 1 0* 1 and absorbed by blocks of the rate. *)
Theorem keccak_digest d lim pieces :
  In (d, lim) variants -> Forall u8 (concat pieces) ->
  keccak_close d lim (fold_left (keccak_core lim) pieces (keccak_init (8 * Z.of_nat d))) 0 0
  = keccak_spec d lim (concat pieces).
Proof.
  intros Hv Hb; destruct (variant_sizes d lim Hv) as ([H0 H144] & H8 & H25 & Hd); set (msg := concat pieces) in *.
  rewrite keccak_init_state; unfold keccak_core, keccak_close, keccak_spec; cbn [Z.eqb].
  set (c0 := mkContext (repeat 0 144) 0 (xorl K0 (repeat 0 25))).
  assert (Hw : wf lim c0) by (unfold wf; cbn [ptr buf c0]; rewrite repeat_length; lia).
  rewrite fold_core_concat by exact Hw; fold msg.
  pose proof (core_holds lim (keccak_block lim) (fun b st => keccak_block_firstn lim b st H8)
    (xorl K0 (repeat 0 25)) (repeat 0 144)) as Hh; fold c0 in Hh.
  assert (Hp : ptr (core lim (keccak_block lim) c0 msg) = (length msg mod lim)%nat).
  { destruct (Hh msg) as (Hw' & n & tail & Hl & Hp & _); [rewrite repeat_length; lia|].
    unfold wf in Hw'; rewrite Hl, Hp, Nat.add_comm, Nat.Div0.mod_add, Nat.mod_small; lia. }
  unfold keccak_core; rewrite Hp, close_tmp_pad, pad101_mod, core_app by (assumption || (apply Nat.mod_upper_bound; lia)).
  set (m := msg ++ pad101 lim (length msg)).
  assert (Hm : (length m mod lim = 0)%nat) by (unfold m; rewrite length_app, pad101_length; apply keccak_padded_mod; lia).
  destruct (holds_complete lim (keccak_block lim) _ m _ (Hh m ltac:(rewrite repeat_length; lia)) Hm) as [_ E].
  rewrite E; clear E.
  assert (Hm8 : Forall u8 m) by (apply Forall_app; split; [exact Hb|apply pad101_u8]).
  assert (Hle : (length m / lim * lim <= length m)%nat) by (pose proof (Nat.div_mod_eq (length m) lim); lia).
  destruct (sponge_run lim (blocks lim (length m / lim) m) (repeat 0 25) H25) as [E HL].
  { split; [reflexivity|repeat constructor; unfold u64; lia]. }
  { intros b Hi; apply blocks_u8 in Hi; [|exact Hm8|exact Hle].
    apply block_lanes_lanes; [apply Hi|apply Hi|exact H8]. }
  rewrite E, uncomplement_xorl, xorl_involutive by (apply tab_length || apply HL).
  apply firstn_flat_map_enc; [lia|rewrite (proj1 HL); lia].
Qed.

Lemma keccak_digest_witness :
  (In (64%nat, 72%nat) variants /\ Forall u8 (concat [[1; 2; 3]; []; repeat 9 90])) /\
  keccak_close 64 72 (fold_left (keccak_core 72) [[1; 2; 3]; []; repeat 9 90] (keccak_init 512)) 0 0
  = keccak_spec 64 72 (1 :: 2 :: 3 :: repeat 9 90).
Proof.
  assert (H : Forall u8 (concat [[1; 2; 3]; []; repeat 9 90])) by (repeat constructor; unfold u8; lia).
  assert (V : In (64%nat, 72%nat) variants) by (do 3 right; left; reflexivity).
  split; [split; [exact V|exact H]|apply (keccak_digest 64 72 [[1; 2; 3]; []; repeat 9 90] V H)].
Defined.

End Keccak.
