(* ===== verification/Groestl.v ===== *)
(** Grøstl-224/256/384/512: [src/src/crypto/groestl.c], 64-bit columns
    ([SPH_GROESTL_64]), little-endian platform ([USE_LE]). *)
From S2P Require Import Prelude SphTypes SphStream GroestlTables.

Module Groestl.
Import GroestlTables.

Definition B64_0 (x : Z) : Z := x .& 0xFF.
Definition B64_1 (x : Z) : Z := (x >> 8) .& 0xFF.
Definition B64_2 (x : Z) : Z := (x >> 16) .& 0xFF.
Definition B64_3 (x : Z) : Z := (x >> 24) .& 0xFF.
Definition B64_4 (x : Z) : Z := (x >> 32) .& 0xFF.
Definition B64_5 (x : Z) : Z := (x >> 40) .& 0xFF.
Definition B64_6 (x : Z) : Z := (x >> 48) .& 0xFF.
Definition B64_7 (x : Z) : Z := x >> 56.

Definition PC64 (j r : Z) : Z := T64 (j + r).
Definition QC64 (j r : Z) : Z := T64 (r << 56) ⊕ SPH_T64 (NOT64 (T64 (j << 56))).

Definition lut (T : list Z) (b : Z) : Z := T.[Z.to_nat b].

(** ** The small permutations (8 columns) *)

Definition RSTT (a : list Z) (b0 b1 b2 b3 b4 b5 b6 b7 : nat) : Z :=
  lut T0 (B64_0 a.[b0]) ⊕ lut T1 (B64_1 a.[b1]) ⊕ lut T2 (B64_2 a.[b2])
  ⊕ lut T3 (B64_3 a.[b3]) ⊕ lut T4 (B64_4 a.[b4]) ⊕ lut T5 (B64_5 a.[b5])
  ⊕ lut T6 (B64_6 a.[b6]) ⊕ lut T7 (B64_7 a.[b7]).

Definition ROUND_SMALL_P (r : Z) (a : list Z) : list Z :=
  let a := upd a 0 (a.[0] ⊕ PC64 0x00 r) in
  let a := upd a 1 (a.[1] ⊕ PC64 0x10 r) in
  let a := upd a 2 (a.[2] ⊕ PC64 0x20 r) in
  let a := upd a 3 (a.[3] ⊕ PC64 0x30 r) in
  let a := upd a 4 (a.[4] ⊕ PC64 0x40 r) in
  let a := upd a 5 (a.[5] ⊕ PC64 0x50 r) in
  let a := upd a 6 (a.[6] ⊕ PC64 0x60 r) in
  let a := upd a 7 (a.[7] ⊕ PC64 0x70 r) in
  [RSTT a 0 1 2 3 4 5 6 7;
   RSTT a 1 2 3 4 5 6 7 0;
   RSTT a 2 3 4 5 6 7 0 1;
   RSTT a 3 4 5 6 7 0 1 2;
   RSTT a 4 5 6 7 0 1 2 3;
   RSTT a 5 6 7 0 1 2 3 4;
   RSTT a 6 7 0 1 2 3 4 5;
   RSTT a 7 0 1 2 3 4 5 6].

Definition ROUND_SMALL_Q (r : Z) (a : list Z) : list Z :=
  let a := upd a 0 (a.[0] ⊕ QC64 0x00 r) in
  let a := upd a 1 (a.[1] ⊕ QC64 0x10 r) in
  let a := upd a 2 (a.[2] ⊕ QC64 0x20 r) in
  let a := upd a 3 (a.[3] ⊕ QC64 0x30 r) in
  let a := upd a 4 (a.[4] ⊕ QC64 0x40 r) in
  let a := upd a 5 (a.[5] ⊕ QC64 0x50 r) in
  let a := upd a 6 (a.[6] ⊕ QC64 0x60 r) in
  let a := upd a 7 (a.[7] ⊕ QC64 0x70 r) in
  [RSTT a 1 3 5 7 0 2 4 6;
   RSTT a 2 4 6 0 1 3 5 7;
   RSTT a 3 5 7 1 2 4 6 0;
   RSTT a 4 6 0 2 3 5 7 1;
   RSTT a 5 7 1 3 4 6 0 2;
   RSTT a 6 0 2 4 5 7 1 3;
   RSTT a 7 1 3 5 6 0 2 4;
   RSTT a 0 2 4 6 7 1 3 5].

(** [for (r = 0; r < 10; r += 2)], two rounds an iteration. *)
Definition PERM_SMALL_P (a : list Z) : list Z :=
  fold_left (fun a r => ROUND_SMALL_P (r + 1) (ROUND_SMALL_P (r + 0) a)) [0; 2; 4; 6; 8] a.
Definition PERM_SMALL_Q (a : list Z) : list Z :=
  fold_left (fun a r => ROUND_SMALL_Q (r + 1) (ROUND_SMALL_Q (r + 0) a)) [0; 2; 4; 6; 8] a.

(** Word-wise exclusive or of two arrays. *)
Definition xorw (a b : list Z) : list Z := map (fun '(x, y) => x ⊕ y) (combine a b).

Definition COMPRESS_SMALL (buf H : list Z) : list Z :=
  let m := words64le 8 buf in
  let g := xorw m H in
  let g := PERM_SMALL_P g in
  let m := PERM_SMALL_Q m in
  xorw H (xorw g m).

Definition FINAL_SMALL (H : list Z) : list Z :=
  let x := PERM_SMALL_P H in
  xorw H x.

(** ** The big permutations (16 columns) *)

Definition RBTT (a : list Z) (b0 b1 b2 b3 b4 b5 b6 b7 : nat) : Z :=
  lut T0 (B64_0 a.[b0]) ⊕ lut T1 (B64_1 a.[b1]) ⊕ lut T2 (B64_2 a.[b2])
  ⊕ lut T3 (B64_3 a.[b3]) ⊕ lut T4 (B64_4 a.[b4]) ⊕ lut T5 (B64_5 a.[b5])
  ⊕ lut T6 (B64_6 a.[b6]) ⊕ lut T7 (B64_7 a.[b7]).

Definition ROUND_BIG_P (r : Z) (a : list Z) : list Z :=
  let a := upd a 0 (a.[0] ⊕ PC64 0x00 r) in
  let a := upd a 1 (a.[1] ⊕ PC64 0x10 r) in
  let a := upd a 2 (a.[2] ⊕ PC64 0x20 r) in
  let a := upd a 3 (a.[3] ⊕ PC64 0x30 r) in
  let a := upd a 4 (a.[4] ⊕ PC64 0x40 r) in
  let a := upd a 5 (a.[5] ⊕ PC64 0x50 r) in
  let a := upd a 6 (a.[6] ⊕ PC64 0x60 r) in
  let a := upd a 7 (a.[7] ⊕ PC64 0x70 r) in
  let a := upd a 8 (a.[8] ⊕ PC64 0x80 r) in
  let a := upd a 9 (a.[9] ⊕ PC64 0x90 r) in
  let a := upd a 10 (a.[10] ⊕ PC64 0xA0 r) in
  let a := upd a 11 (a.[11] ⊕ PC64 0xB0 r) in
  let a := upd a 12 (a.[12] ⊕ PC64 0xC0 r) in
  let a := upd a 13 (a.[13] ⊕ PC64 0xD0 r) in
  let a := upd a 14 (a.[14] ⊕ PC64 0xE0 r) in
  let a := upd a 15 (a.[15] ⊕ PC64 0xF0 r) in
  [RBTT a 0 1 2 3 4 5 6 11;
   RBTT a 1 2 3 4 5 6 7 12;
   RBTT a 2 3 4 5 6 7 8 13;
   RBTT a 3 4 5 6 7 8 9 14;
   RBTT a 4 5 6 7 8 9 10 15;
   RBTT a 5 6 7 8 9 10 11 0;
   RBTT a 6 7 8 9 10 11 12 1;
   RBTT a 7 8 9 10 11 12 13 2;
   RBTT a 8 9 10 11 12 13 14 3;
   RBTT a 9 10 11 12 13 14 15 4;
   RBTT a 10 11 12 13 14 15 0 5;
   RBTT a 11 12 13 14 15 0 1 6;
   RBTT a 12 13 14 15 0 1 2 7;
   RBTT a 13 14 15 0 1 2 3 8;
   RBTT a 14 15 0 1 2 3 4 9;
   RBTT a 15 0 1 2 3 4 5 10].

Definition ROUND_BIG_Q (r : Z) (a : list Z) : list Z :=
  let a := upd a 0 (a.[0] ⊕ QC64 0x00 r) in
  let a := upd a 1 (a.[1] ⊕ QC64 0x10 r) in
  let a := upd a 2 (a.[2] ⊕ QC64 0x20 r) in
  let a := upd a 3 (a.[3] ⊕ QC64 0x30 r) in
  let a := upd a 4 (a.[4] ⊕ QC64 0x40 r) in
  let a := upd a 5 (a.[5] ⊕ QC64 0x50 r) in
  let a := upd a 6 (a.[6] ⊕ QC64 0x60 r) in
  let a := upd a 7 (a.[7] ⊕ QC64 0x70 r) in
  let a := upd a 8 (a.[8] ⊕ QC64 0x80 r) in
  let a := upd a 9 (a.[9] ⊕ QC64 0x90 r) in
  let a := upd a 10 (a.[10] ⊕ QC64 0xA0 r) in
  let a := upd a 11 (a.[11] ⊕ QC64 0xB0 r) in
  let a := upd a 12 (a.[12] ⊕ QC64 0xC0 r) in
  let a := upd a 13 (a.[13] ⊕ QC64 0xD0 r) in
  let a := upd a 14 (a.[14] ⊕ QC64 0xE0 r) in
  let a := upd a 15 (a.[15] ⊕ QC64 0xF0 r) in
  [RBTT a 1 3 5 11 0 2 4 6;
   RBTT a 2 4 6 12 1 3 5 7;
   RBTT a 3 5 7 13 2 4 6 8;
   RBTT a 4 6 8 14 3 5 7 9;
   RBTT a 5 7 9 15 4 6 8 10;
   RBTT a 6 8 10 0 5 7 9 11;
   RBTT a 7 9 11 1 6 8 10 12;
   RBTT a 8 10 12 2 7 9 11 13;
   RBTT a 9 11 13 3 8 10 12 14;
   RBTT a 10 12 14 4 9 11 13 15;
   RBTT a 11 13 15 5 10 12 14 0;
   RBTT a 12 14 0 6 11 13 15 1;
   RBTT a 13 15 1 7 12 14 0 2;
   RBTT a 14 0 2 8 13 15 1 3;
   RBTT a 15 1 3 9 14 0 2 4;
   RBTT a 0 2 4 10 15 1 3 5].

Definition PERM_BIG_P (a : list Z) : list Z :=
  fold_left (fun a r => ROUND_BIG_P (r + 1) (ROUND_BIG_P (r + 0) a)) [0; 2; 4; 6; 8; 10; 12] a.
Definition PERM_BIG_Q (a : list Z) : list Z :=
  fold_left (fun a r => ROUND_BIG_Q (r + 1) (ROUND_BIG_Q (r + 0) a)) [0; 2; 4; 6; 8; 10; 12] a.

Definition COMPRESS_BIG (buf H : list Z) : list Z :=
  let m := words64le 16 buf in
  let g := xorw m H in
  let g := PERM_BIG_P g in
  let m := PERM_BIG_Q m in
  xorw H (xorw g m).

Definition FINAL_BIG (H : list Z) : list Z :=
  let x := PERM_BIG_P H in
  xorw H x.

(** ** The streaming interface *)

(** The words [state.wide] and the number of blocks compressed. *)
Record chaining := mkChaining { wide : list Z; count : Z }.

Definition groestl_small_init (out_size : Z) : context chaining :=
  mkContext (repeat 0 64) 0
    (mkChaining (repeat 0 7 ++ [T64 ((out_size .& 0xFF) << 56) .| ((out_size .& 0xFF00) << 40)]) 0).

Definition groestl_small_block (buf : list Z) (st : chaining) : chaining :=
  mkChaining (COMPRESS_SMALL buf (wide st)) (T64 (count st + 1)).

Definition groestl_small_core : context chaining -> list Z -> context chaining :=
  core 64 groestl_small_block.

Definition groestl_small_close (sc : context chaining) (ub n : Z) (out_len : nat) : list Z :=
  let p := ptr sc in
  let z := 0x80 >> n in
  let pad0 := ((ub .& T32 (- z)) .| z) .& 0xFF in
  let '(pad_len, cnt) :=
    if (p <? 56)%nat
    then ((64 - p)%nat, SPH_T64 (count (chain sc) + 1))
    else ((128 - p)%nat, SPH_T64 (count (chain sc) + 2)) in
  let pad := [pad0] ++ repeat 0 (pad_len - 9) ++ sph_enc64be cnt in
  let sc := groestl_small_core sc pad in
  let H := FINAL_SMALL (wide (chain sc)) in
  let out := flat_map sph_enc64le (firstn 4 (skipn 4 H)) in
  firstn out_len (skipn (32 - out_len) out).

Definition groestl_big_init (out_size : Z) : context chaining :=
  mkContext (repeat 0 128) 0
    (mkChaining (repeat 0 15 ++ [T64 ((out_size .& 0xFF) << 56) .| ((out_size .& 0xFF00) << 40)]) 0).

Definition groestl_big_block (buf : list Z) (st : chaining) : chaining :=
  mkChaining (COMPRESS_BIG buf (wide st)) (T64 (count st + 1)).

Definition groestl_big_core : context chaining -> list Z -> context chaining :=
  core 128 groestl_big_block.

Definition groestl_big_close (sc : context chaining) (ub n : Z) (out_len : nat) : list Z :=
  let p := ptr sc in
  let z := 0x80 >> n in
  let pad0 := ((ub .& T32 (- z)) .| z) .& 0xFF in
  let '(pad_len, cnt) :=
    if (p <? 120)%nat
    then ((128 - p)%nat, SPH_T64 (count (chain sc) + 1))
    else ((256 - p)%nat, SPH_T64 (count (chain sc) + 2)) in
  let pad := [pad0] ++ repeat 0 (pad_len - 9) ++ sph_enc64be cnt in
  let sc := groestl_big_core sc pad in
  let H := FINAL_BIG (wide (chain sc)) in
  let out := flat_map sph_enc64le (firstn 8 (skipn 8 H)) in
  firstn out_len (skipn (64 - out_len) out).

Definition sph_groestl224_init : context chaining := groestl_small_init 224.
Definition sph_groestl224 : context chaining -> list Z -> context chaining :=
  groestl_small_core.
Definition sph_groestl224_addbits_and_close (c : context chaining) (ub n : Z)
  : list Z * context chaining := (groestl_small_close c ub n 28, groestl_small_init 224).
Definition sph_groestl224_close (c : context chaining) : list Z * context chaining :=
  sph_groestl224_addbits_and_close c 0 0.

Definition sph_groestl256_init : context chaining := groestl_small_init 256.
Definition sph_groestl256 : context chaining -> list Z -> context chaining :=
  groestl_small_core.
Definition sph_groestl256_addbits_and_close (c : context chaining) (ub n : Z)
  : list Z * context chaining := (groestl_small_close c ub n 32, groestl_small_init 256).
Definition sph_groestl256_close (c : context chaining) : list Z * context chaining :=
  sph_groestl256_addbits_and_close c 0 0.

Definition sph_groestl384_init : context chaining := groestl_big_init 384.
Definition sph_groestl384 : context chaining -> list Z -> context chaining :=
  groestl_big_core.
Definition sph_groestl384_addbits_and_close (c : context chaining) (ub n : Z)
  : list Z * context chaining := (groestl_big_close c ub n 48, groestl_big_init 384).
Definition sph_groestl384_close (c : context chaining) : list Z * context chaining :=
  sph_groestl384_addbits_and_close c 0 0.

Definition sph_groestl512_init : context chaining := groestl_big_init 512.
Definition sph_groestl512 : context chaining -> list Z -> context chaining :=
  groestl_big_core.
Definition sph_groestl512_addbits_and_close (c : context chaining) (ub n : Z)
  : list Z * context chaining := (groestl_big_close c ub n 64, groestl_big_init 512).
Definition sph_groestl512_close (c : context chaining) : list Z * context chaining :=
  sph_groestl512_addbits_and_close c 0 0.

(** ** The tables *)

(** In the cipher every table is the first one with its words rotated by
    whole bytes.  Two entries of each of [T1] .. [T7] are not: their bytes
    [0x66 0x66] and [0x55 0x55] read [0x61 0x61] and [0x51 0x51]. *)
Definition rotation_of (k : Z) (T : list Z) (x : nat) : bool := T.[x] =? SPH_ROTL64 T0.[x] (8 * k).

Theorem tables_not_rotations :
  map (fun '(k, T) => filter (fun x => negb (rotation_of k T x)) (seq 0 256))
    [(1, T1); (2, T2); (3, T3); (4, T4); (5, T5); (6, T6); (7, T7)] = repeat [102; 137]%nat 7.
Proof. vm_compute; reflexivity. Qed.

End Groestl.
