(* ===== verification/Skein.v ===== *)
(** Skein-224/256/384/512 (the 512-bit internal state): [src/src/crypto/skein.c].

    The build modelled is the 64-bit one without [SPH_SMALL_FOOTPRINT_SKEIN];
    the compression function of the small-footprint build is modelled too
    ([UBI_BIG_small]) and proved equal. *)
From S2P Require Import Prelude SphTypes SphStream.

Module Skein.

(** The macros [M9_s_i], row [s], column [i]. *)
Definition M9 : list (list nat) :=
  [
   [0; 1; 2; 3; 4; 5; 6; 7];
   [1; 2; 3; 4; 5; 6; 7; 8];
   [2; 3; 4; 5; 6; 7; 8; 0];
   [3; 4; 5; 6; 7; 8; 0; 1];
   [4; 5; 6; 7; 8; 0; 1; 2];
   [5; 6; 7; 8; 0; 1; 2; 3];
   [6; 7; 8; 0; 1; 2; 3; 4];
   [7; 8; 0; 1; 2; 3; 4; 5];
   [8; 0; 1; 2; 3; 4; 5; 6];
   [0; 1; 2; 3; 4; 5; 6; 7];
   [1; 2; 3; 4; 5; 6; 7; 8];
   [2; 3; 4; 5; 6; 7; 8; 0];
   [3; 4; 5; 6; 7; 8; 0; 1];
   [4; 5; 6; 7; 8; 0; 1; 2];
   [5; 6; 7; 8; 0; 1; 2; 3];
   [6; 7; 8; 0; 1; 2; 3; 4];
   [7; 8; 0; 1; 2; 3; 4; 5];
   [8; 0; 1; 2; 3; 4; 5; 6];
   [0; 1; 2; 3; 4; 5; 6; 7]
  ]%nat.

(** The macros [M3_s_i]. *)
Definition M3 : list (list nat) :=
  [
   [0; 1];
   [1; 2];
   [2; 0];
   [0; 1];
   [1; 2];
   [2; 0];
   [0; 1];
   [1; 2];
   [2; 0];
   [0; 1];
   [1; 2];
   [2; 0];
   [0; 1];
   [1; 2];
   [2; 0];
   [0; 1];
   [1; 2];
   [2; 0];
   [0; 1]
  ]%nat.

(** [SKBI(k, s, i)] and [SKBT(t, s, v)]. *)
Definition SKBI (k : list Z) (s i : nat) : Z := k.[nth i (nth s M9 []) 0%nat].
Definition SKBT (t : list Z) (s v : nat) : Z := t.[nth v (nth s M3 []) 0%nat].

(** ** Threefish-512 *)

(** [h8] and [t2]: the extended key [h0..h8] and tweak [t0..t2]. *)
Definition TFBIG_KINIT (h : list Z) (t0 t1 : Z) : list Z * list Z :=
  let h8 := ((h.[0] ⊕ h.[1]) ⊕ (h.[2] ⊕ h.[3])) ⊕ ((h.[4] ⊕ h.[5]) ⊕ (h.[6] ⊕ h.[7]))
            ⊕ 0x1BD11BDAA9FC1A22 in
  ([h.[0]; h.[1]; h.[2]; h.[3]; h.[4]; h.[5]; h.[6]; h.[7]; h8], [t0; t1; t0 ⊕ t1]).

Definition TFBIG_ADDKEY (k t : list Z) (s : nat) (p : list Z) : list Z :=
  [SPH_T64 (p.[0] + SKBI k s 0);
   SPH_T64 (p.[1] + SKBI k s 1);
   SPH_T64 (p.[2] + SKBI k s 2);
   SPH_T64 (p.[3] + SKBI k s 3);
   SPH_T64 (p.[4] + SKBI k s 4);
   SPH_T64 (p.[5] + SKBI k s 5 + SKBT t s 0);
   SPH_T64 (p.[6] + SKBI k s 6 + SKBT t s 1);
   SPH_T64 (p.[7] + SKBI k s 7 + Z.of_nat s)].

Definition TFBIG_MIX (x0 x1 rc : Z) : Z * Z :=
  let x0 := SPH_T64 (x0 + x1) in
  let x1 := SPH_ROTL64 x1 rc ⊕ x0 in
  (x0, x1).

(** [TFBIG_MIX] on the variables [p_a] and [p_b]. *)
Definition MIX_on (a b : nat) (rc : Z) (p : list Z) : list Z :=
  let '(x0, x1) := TFBIG_MIX p.[a] p.[b] rc in upd (upd p a x0) b x1.

Definition TFBIG_MIX8 (w0 w1 w2 w3 w4 w5 w6 w7 : nat) (rc0 rc1 rc2 rc3 : Z) (p : list Z) : list Z :=
  let p := MIX_on w0 w1 rc0 p in
  let p := MIX_on w2 w3 rc1 p in
  let p := MIX_on w4 w5 rc2 p in
  MIX_on w6 w7 rc3 p.

(** The four mixing layers of an even and of an odd group of rounds. *)
Definition mix4e (p : list Z) : list Z :=
  let p := TFBIG_MIX8 0 1 2 3 4 5 6 7 46 36 19 37 p in
  let p := TFBIG_MIX8 2 1 4 7 6 5 0 3 33 27 14 42 p in
  let p := TFBIG_MIX8 4 1 6 3 0 5 2 7 17 49 36 39 p in
  TFBIG_MIX8 6 1 0 7 2 5 4 3 44 9 54 56 p.

Definition mix4o (p : list Z) : list Z :=
  let p := TFBIG_MIX8 0 1 2 3 4 5 6 7 39 30 34 24 p in
  let p := TFBIG_MIX8 2 1 4 7 6 5 0 3 13 50 10 17 p in
  let p := TFBIG_MIX8 4 1 6 3 0 5 2 7 25 29 39 43 p in
  TFBIG_MIX8 6 1 0 7 2 5 4 3 8 35 56 22 p.

Definition TFBIG_4e (h t : list Z) (s : nat) (p : list Z) : list Z := mix4e (TFBIG_ADDKEY h t s p).
Definition TFBIG_4o (h t : list Z) (s : nat) (p : list Z) : list Z := mix4o (TFBIG_ADDKEY h t s p).

(** ** The UBI step: one block under a tweak *)

(** The chaining state: [h0..h7] and [bcount]. *)
Record state := mkState { h : list Z; bcount : Z }.

Definition tweak0 (bcount extra : Z) : Z := T64 (SPH_T64 (bcount << 6) + extra).
Definition tweak1 (bcount etype : Z) : Z := T64 ((bcount >> 58) + T64 (etype << 55)).

Definition feed (m p : list Z) : list Z :=
  [m.[0] ⊕ p.[0]; m.[1] ⊕ p.[1]; m.[2] ⊕ p.[2]; m.[3] ⊕ p.[3];
   m.[4] ⊕ p.[4]; m.[5] ⊕ p.[5]; m.[6] ⊕ p.[6]; m.[7] ⊕ p.[7]].

Definition UBI_BIG (buf : list Z) (etype extra : Z) (st : state) : state :=
  let m := words64le 8 buf in
  let t0 := tweak0 (bcount st) extra in
  let t1 := tweak1 (bcount st) etype in
  let '(h, t) := TFBIG_KINIT (h st) t0 t1 in
  let p := TFBIG_4e h t 0 m in
  let p := TFBIG_4o h t 1 p in
  let p := TFBIG_4e h t 2 p in
  let p := TFBIG_4o h t 3 p in
  let p := TFBIG_4e h t 4 p in
  let p := TFBIG_4o h t 5 p in
  let p := TFBIG_4e h t 6 p in
  let p := TFBIG_4o h t 7 p in
  let p := TFBIG_4e h t 8 p in
  let p := TFBIG_4o h t 9 p in
  let p := TFBIG_4e h t 10 p in
  let p := TFBIG_4o h t 11 p in
  let p := TFBIG_4e h t 12 p in
  let p := TFBIG_4o h t 13 p in
  let p := TFBIG_4e h t 14 p in
  let p := TFBIG_4o h t 15 p in
  let p := TFBIG_4e h t 16 p in
  let p := TFBIG_4o h t 17 p in
  let p := TFBIG_ADDKEY h t 18 p in
  mkState (feed m p) (bcount st).

(** The small-footprint build: the key is an array extended to 27 words, the
    tweak words rotate through three variables. *)
Definition TFBIG_ADDKEY_small (h : list Z) (s : nat) (tt0 tt1 : Z) (p : list Z) : list Z :=
  [SPH_T64 (p.[0] + h.[s + 0]);
   SPH_T64 (p.[1] + h.[s + 1]);
   SPH_T64 (p.[2] + h.[s + 2]);
   SPH_T64 (p.[3] + h.[s + 3]);
   SPH_T64 (p.[4] + h.[s + 4]);
   SPH_T64 (p.[5] + h.[s + 5] + tt0);
   SPH_T64 (p.[6] + h.[s + 6] + tt1);
   SPH_T64 (p.[7] + h.[s + 7] + Z.of_nat s)].

(** [for (u = 0; u <= 15; u += 3) h[u + 9 + j] = h[u + j]] for [j] in 0..2. *)
Definition extend_key (h : list Z) : list Z :=
  fold_left (fun h u => upd (upd (upd h (u + 9) h.[u + 0]) (u + 10) h.[u + 1]) (u + 11) h.[u + 2])
    [0; 3; 6; 9; 12; 15]%nat (h ++ repeat 0 18).

Definition UBI_BIG_small (buf : list Z) (etype extra : Z) (st : state) : state :=
  let m := words64le 8 buf in
  let t0 := tweak0 (bcount st) extra in
  let t1 := tweak1 (bcount st) etype in
  let '(h9, _) := TFBIG_KINIT (h st) t0 t1 in
  let h := extend_key h9 in
  let body '(p, t0, t1, t2) u :=
    let s := (2 * u)%nat in
    let p := mix4e (TFBIG_ADDKEY_small h s t0 t1 p) in
    let p := mix4o (TFBIG_ADDKEY_small h (s + 1) t1 t2 p) in
    (p, t2, t0, t1) in
  let '(p, t0, t1, _) := fold_left body (seq 0 9) (m, t0, t1, t0 ⊕ t1) in
  let p := TFBIG_ADDKEY_small h 18 t0 t1 p in
  mkState (feed m p) (bcount st).

(** ** The streaming interface *)

Definition skein_big_init (iv : list Z) : context state := mkContext (repeat 0 64) 0 (mkState iv 0).

(** The [do ... while (len > 0)] loop; [fuel] bounds its iterations. *)
Fixpoint skein_loop (fuel : nat) (first : Z) (c : context state) (data : list Z) : context state :=
  match fuel with
  | O => c
  | S fuel =>
      let '(c, first) :=
        if (ptr c =? 64)%nat
        then
          let st := mkState (h (chain c)) (T64 (bcount (chain c) + 1)) in
          (mkContext (buf c) 0 (UBI_BIG (buf c) (96 + first) 0 st), 0)
        else (c, first) in
      let clen := Nat.min (64 - ptr c) (length data) in
      let c := mkContext (memcpy (buf c) (ptr c) (firstn clen data)) (ptr c + clen) (chain c) in
      let data := skipn clen data in
      if (0 <? length data)%nat then skein_loop fuel first c data else c
  end.

Definition skein_big_core (c : context state) (data : list Z) : context state :=
  if (length data <=? 64 - ptr c)%nat
  then mkContext (memcpy (buf c) (ptr c) data) (ptr c + length data) (chain c)
  else
    let first := if bcount (chain c) =? 0 then 128 else 0 in
    skein_loop (length data) first c data.

Definition skein_big_close (sc : context state) (ub n : Z) (out_len : nat) : list Z :=
  let sc :=
    if n =? 0 then sc
    else
      let z := 0x80 >> n in
      let x := ((ub .& T32 (- z)) .| z) .& 0xFF in
      skein_big_core sc [x] in
  let buf := memcpy (buf sc) (ptr sc) (repeat 0 (64 - ptr sc)) in
  let et := 352 + (if bcount (chain sc) =? 0 then 128 else 0) + (if n =? 0 then 0 else 1) in
  let st := UBI_BIG buf et (Z.of_nat (ptr sc)) (chain sc) in
  let buf := repeat 0 64 in
  let st := UBI_BIG buf 510 8 (mkState (h st) 0) in
  firstn out_len (flat_map sph_enc64le (h st)).

Definition IV224 : list Z :=
  [0xCCD0616248677224; 0xCBA65CF3A92339EF; 0x8CCD69D652FF4B64; 0x398AED7B3AB890B4;
   0x0F59D1B1457D2BD0; 0x6776FE6575D4EB3D; 0x99FBC70E997413E9; 0x9E2CFCCFE1C41EF7].

Definition IV256 : list Z :=
  [0xCCD044A12FDB3E13; 0xE83590301A79A9EB; 0x55AEA0614F816E6F; 0x2A2767A4AE9B94DB;
   0xEC06025E74DD7683; 0xE7A436CDC4746251; 0xC36FBAF9393AD185; 0x3EEDBA1833EDFC13].

Definition IV384 : list Z :=
  [0xA3F6C6BF3A75EF5F; 0xB0FEF9CCFD84FAA4; 0x9D77DD663D770CFE; 0xD798CBF3B468FDDA;
   0x1BC4A6668A0E4465; 0x7ED7D434E5807407; 0x548FC1ACD4EC44D6; 0x266E17546AA18FF8].

Definition IV512 : list Z :=
  [0x4903ADFF749C51CE; 0x0D95DE399746DF03; 0x8FD1934127C79BCE; 0x9A255629FF352CB1;
   0x5DB62599DF6CA7B0; 0xEABE394CA9D5C3F4; 0x991112C71A75B523; 0xAE18A40B660FCC33].

Definition sph_skein224_init : context state := skein_big_init IV224.
Definition sph_skein224 : context state -> list Z -> context state := skein_big_core.
Definition sph_skein224_addbits_and_close (c : context state) (ub n : Z)
  : list Z * context state := (skein_big_close c ub n 28, sph_skein224_init).
Definition sph_skein224_close (c : context state) : list Z * context state :=
  sph_skein224_addbits_and_close c 0 0.

Definition sph_skein256_init : context state := skein_big_init IV256.
Definition sph_skein256 : context state -> list Z -> context state := skein_big_core.
Definition sph_skein256_addbits_and_close (c : context state) (ub n : Z)
  : list Z * context state := (skein_big_close c ub n 32, sph_skein256_init).
Definition sph_skein256_close (c : context state) : list Z * context state :=
  sph_skein256_addbits_and_close c 0 0.

Definition sph_skein384_init : context state := skein_big_init IV384.
Definition sph_skein384 : context state -> list Z -> context state := skein_big_core.
Definition sph_skein384_addbits_and_close (c : context state) (ub n : Z)
  : list Z * context state := (skein_big_close c ub n 48, sph_skein384_init).
Definition sph_skein384_close (c : context state) : list Z * context state :=
  sph_skein384_addbits_and_close c 0 0.

Definition sph_skein512_init : context state := skein_big_init IV512.
Definition sph_skein512 : context state -> list Z -> context state := skein_big_core.
Definition sph_skein512_addbits_and_close (c : context state) (ub n : Z)
  : list Z * context state := (skein_big_close c ub n 64, sph_skein512_init).
Definition sph_skein512_close (c : context state) : list Z * context state :=
  sph_skein512_addbits_and_close c 0 0.

(** ** The specification: Threefish-512 of Skein 1.3

    A subkey every four rounds; a round mixes neighbouring words and permutes
    all eight; the key and tweak indices run modulo 9 and 3. *)
Module Spec.

Definition rotations : list (list Z) :=
  [[46; 36; 19; 37]; [33; 27; 14; 42]; [17; 49; 36; 39]; [44; 9; 54; 56];
   [39; 30; 34; 24]; [13; 50; 10; 17]; [25; 29; 39; 43]; [8; 35; 56; 22]].

Definition mix (d j : nat) (x0 x1 : Z) : Z * Z :=
  let y0 := T64 (x0 + x1) in
  (y0, SPH_ROTL64 x1 (nth j (nth (d mod 8) rotations []) 0) ⊕ y0).

Definition permutation : list nat := [2; 1; 4; 7; 6; 5; 0; 3]%nat.

Definition round (d : nat) (v : list Z) : list Z :=
  let f := flat_map (fun j => let '(a, b) := mix d j v.[2 * j] v.[2 * j + 1] in [a; b]) (seq 0 4) in
  map (fun i => f.[nth i permutation 0%nat]) (seq 0 8).

Definition subkey (k t : list Z) (s i : nat) : Z :=
  k.[(s + i) mod 9] +
  (if (i =? 5)%nat then t.[s mod 3] else if (i =? 6)%nat then t.[(s + 1) mod 3]
   else if (i =? 7)%nat then Z.of_nat s else 0).

Definition add_subkey (k t : list Z) (s : nat) (v : list Z) : list Z :=
  map (fun i => T64 (v.[i] + subkey k t s i)) (seq 0 8).

Definition rounds4 (k t : list Z) (v : list Z) (s : nat) : list Z :=
  fold_left (fun v d => round (4 * s + d) v) (seq 0 4) (add_subkey k t s v).

Definition threefish (key : list Z) (t0 t1 : Z) (plain : list Z) : list Z :=
  let k := key ++ [fold_left Z.lxor key 0x1BD11BDAA9FC1A22] in
  let t := [t0; t1; t0 ⊕ t1] in
  add_subkey k t 18 (fold_left (rounds4 k t) (seq 0 18) plain).

(** UBI: encrypt under the chaining value, add the plain text. *)
Definition ubi (key : list Z) (t0 t1 : Z) (block : list Z) : list Z :=
  let m := words64le 8 block in
  map (fun i => m.[i] ⊕ (threefish key t0 t1 m).[i]) (seq 0 8).

End Spec.

#[local] Opaque SPH_ROTL64 SPH_T64 T64 Z.add Z.lxor.

Lemma list8 (p : list Z) : length p = 8%nat -> p = [p.[0]; p.[1]; p.[2]; p.[3]; p.[4]; p.[5]; p.[6]; p.[7]].
Proof. intros H; do 8 (destruct p as [|? p]; [discriminate H|]); destruct p; [reflexivity|discriminate H]. Qed.

Lemma SPH_T64_eq x : SPH_T64 x = T64 x.
Proof. apply SPH_T64_T64. Qed.

(** The two words of a mix, as functions. *)
Definition mx0 (a b : Z) : Z := T64 (a + b).
Definition mx1 (r a b : Z) : Z := SPH_ROTL64 b r ⊕ T64 (a + b).

Lemma round_list d r0 r1 r2 r3 a b c e f g i j : nth (d mod 8) Spec.rotations [] = [r0; r1; r2; r3] ->
  Spec.round d [a; b; c; e; f; g; i; j]
  = [mx0 c e; mx1 r0 a b; mx0 f g; mx1 r3 i j; mx0 i j; mx1 r2 f g; mx0 a b; mx1 r1 c e].
Proof. intros E; unfold Spec.round, Spec.mix; rewrite E; reflexivity. Qed.

Lemma mix_layers a b c e f g i j r0 r1 r2 r3 :
  TFBIG_MIX8 0 1 2 3 4 5 6 7 r0 r1 r2 r3 [a; b; c; e; f; g; i; j]
  = [mx0 a b; mx1 r0 a b; mx0 c e; mx1 r1 c e; mx0 f g; mx1 r2 f g; mx0 i j; mx1 r3 i j] /\
  TFBIG_MIX8 2 1 4 7 6 5 0 3 r0 r1 r2 r3 [a; b; c; e; f; g; i; j]
  = [mx0 a e; mx1 r0 c b; mx0 c b; mx1 r3 a e; mx0 f j; mx1 r2 i g; mx0 i g; mx1 r1 f j] /\
  TFBIG_MIX8 4 1 6 3 0 5 2 7 r0 r1 r2 r3 [a; b; c; e; f; g; i; j]
  = [mx0 a g; mx1 r0 f b; mx0 c j; mx1 r1 i e; mx0 f b; mx1 r2 a g; mx0 i e; mx1 r3 c j] /\
  TFBIG_MIX8 6 1 0 7 2 5 4 3 r0 r1 r2 r3 [a; b; c; e; f; g; i; j]
  = [mx0 a j; mx1 r0 i b; mx0 c g; mx1 r3 f e; mx0 f e; mx1 r2 c g; mx0 i b; mx1 r1 a j].
Proof. repeat split; unfold TFBIG_MIX8, MIX_on, TFBIG_MIX; rewrite !SPH_T64_eq; reflexivity. Qed.

Ltac four_layers R :=
  rewrite (round_list _ _ _ _ _ _ _ _ _ _ _ _ _ (R 0%nat ltac:(lia))),
    (round_list _ _ _ _ _ _ _ _ _ _ _ _ _ (R 1%nat ltac:(lia))),
    (round_list _ _ _ _ _ _ _ _ _ _ _ _ _ (R 2%nat ltac:(lia))),
    (round_list _ _ _ _ _ _ _ _ _ _ _ _ _ (R 3%nat ltac:(lia)));
  rewrite (proj1 (mix_layers _ _ _ _ _ _ _ _ _ _ _ _)), (proj1 (proj2 (mix_layers _ _ _ _ _ _ _ _ _ _ _ _))),
    (proj1 (proj2 (proj2 (mix_layers _ _ _ _ _ _ _ _ _ _ _ _)))),
    (proj2 (proj2 (proj2 (mix_layers _ _ _ _ _ _ _ _ _ _ _ _)))); reflexivity.

(** Naming the permuted words is permuting them: four rounds restore the
    order. *)
Lemma mix4_spec (e : bool) (s : nat) p : length p = 8%nat -> (4 * s mod 8 = if e then 0 else 4)%nat ->
  (if e then mix4e p else mix4o p) = fold_left (fun v d => Spec.round (4 * s + d) v) (seq 0 4) p.
Proof.
  intros H Hs; rewrite (list8 p H).
  assert (D : forall k, (k < 4)%nat -> ((4 * s + k) mod 8 = (if e then 0 else 4) + k)%nat).
  { intros k Hk; pose proof (Nat.div_mod_eq (4 * s) 8); rewrite Hs in *.
    symmetry; apply (Nat.mod_unique _ _ (4 * s / 8)); destruct e; lia. }
  assert (R : forall k, (k < 4)%nat ->
    nth ((4 * s + k) mod 8) Spec.rotations [] = nth ((if e then 0 else 4) + k) Spec.rotations [])
    by (intros k Hk; rewrite D by exact Hk; reflexivity).
  cbn [seq fold_left]; destruct e; unfold mix4e, mix4o; cbv zeta.
  - four_layers R.
  - four_layers R.
Qed.

(** The macro tables are sums modulo 9 and 3. *)
Lemma M9_mod s i : (s < 19)%nat -> (i < 8)%nat -> nth i (nth s M9 []) 0%nat = ((s + i) mod 9)%nat.
Proof.
  intros Hs Hi; apply Nat.eqb_eq.
  assert (H : forallb (fun s => forallb (fun i => (nth i (nth s M9 []) 0 =? (s + i) mod 9)%nat) (seq 0 8)) (seq 0 19) = true)
    by (vm_compute; reflexivity).
  apply (proj1 (forallb_forall _ _) (proj1 (forallb_forall _ _) H s ltac:(apply in_seq; lia))), in_seq; lia.
Qed.

Lemma M3_mod s v : (s < 19)%nat -> (v < 2)%nat -> nth v (nth s M3 []) 0%nat = ((s + v) mod 3)%nat.
Proof.
  intros Hs Hv; apply Nat.eqb_eq.
  assert (H : forallb (fun s => forallb (fun v => (nth v (nth s M3 []) 0 =? (s + v) mod 3)%nat) (seq 0 2)) (seq 0 19) = true)
    by (vm_compute; reflexivity).
  apply (proj1 (forallb_forall _ _) (proj1 (forallb_forall _ _) H s ltac:(apply in_seq; lia))), in_seq; lia.
Qed.

Lemma ADDKEY_spec k t s p : (s < 19)%nat -> TFBIG_ADDKEY k t s p = Spec.add_subkey k t s p.
Proof.
  intros Hs; unfold TFBIG_ADDKEY, SKBI, SKBT, Spec.add_subkey, Spec.subkey.
  rewrite !M9_mod, !M3_mod, !SPH_T64_eq by lia; cbn [seq map Nat.eqb]; rewrite !Z.add_0_r, !Nat.add_0_r, !Z.add_assoc.
  reflexivity.
Qed.

(** The key array of the small build is the key read modulo 9. *)
Lemma extend_key_mod k n : length k = 9%nat -> (n < 27)%nat -> (extend_key k).[n] = k.[n mod 9].
Proof.
  intros Hk Hn; do 9 (destruct k as [|? k]; [discriminate Hk|]); destruct k; [|discriminate Hk].
  do 27 (destruct n as [|n]; [reflexivity|]); lia.
Qed.

Lemma ADDKEY_small_spec k t s tt0 tt1 p : length k = 9%nat -> (s < 19)%nat -> tt0 = t.[s mod 3] -> tt1 = t.[(s + 1) mod 3] ->
  TFBIG_ADDKEY_small (extend_key k) s tt0 tt1 p = Spec.add_subkey k t s p.
Proof.
  intros Hk Hs -> ->; unfold TFBIG_ADDKEY_small, Spec.add_subkey, Spec.subkey.
  rewrite !extend_key_mod, !SPH_T64_eq by (assumption || lia); cbn [seq map Nat.eqb].
  rewrite !Z.add_0_r, !Nat.add_0_r, !Z.add_assoc; reflexivity.
Qed.

Lemma add_subkey_length k t s p : length (Spec.add_subkey k t s p) = 8%nat.
Proof. reflexivity. Qed.

Lemma even_rounds s : (4 * (2 * s) mod 8 = 0)%nat.
Proof. replace (4 * (2 * s))%nat with (s * 8)%nat by lia; apply Nat.Div0.mod_mul. Qed.

Lemma odd_rounds s : (4 * (2 * s + 1) mod 8 = 4)%nat.
Proof. replace (4 * (2 * s + 1))%nat with (4 + s * 8)%nat by lia; rewrite Nat.Div0.mod_add; reflexivity. Qed.

Lemma rounds_4e k t s p : (2 * s < 19)%nat -> TFBIG_4e k t (2 * s) p = Spec.rounds4 k t p (2 * s).
Proof.
  intros Hs; unfold TFBIG_4e, Spec.rounds4; rewrite ADDKEY_spec by exact Hs.
  apply (mix4_spec true); [reflexivity|apply even_rounds].
Qed.

Lemma rounds_4o k t s p : (2 * s + 1 < 19)%nat -> TFBIG_4o k t (2 * s + 1) p = Spec.rounds4 k t p (2 * s + 1).
Proof.
  intros Hs; unfold TFBIG_4o, Spec.rounds4; rewrite ADDKEY_spec by exact Hs.
  apply (mix4_spec false); [reflexivity|apply odd_rounds].
Qed.

Lemma KINIT_spec key t0 t1 : length key = 8%nat ->
  TFBIG_KINIT key t0 t1 = (key ++ [fold_left Z.lxor key 0x1BD11BDAA9FC1A22], [t0; t1; t0 ⊕ t1]).
Proof.
  intros H; do 8 (destruct key as [|? key]; [discriminate H|]); destruct key; [|discriminate H].
  unfold TFBIG_KINIT; unfold get; cbn [nth app fold_left].
  match goal with |- ([_; _; _; _; _; _; _; _; ?x], _) = ([_; _; _; _; _; _; _; _; ?y], _) => replace x with y; [reflexivity|] end.
  apply Z.bits_inj'; intros i Hi; rewrite !Z.lxor_spec; btauto.
Qed.

Lemma feed_spec m p : feed m p = map (fun i => m.[i] ⊕ p.[i]) (seq 0 8).
Proof. reflexivity. Qed.

Lemma fold_pairs {A} (f : A -> nat -> A) p n :
  fold_left f (seq 0 (2 * n)) p = fold_left (fun p u => f (f p (2 * u)%nat) (2 * u + 1)%nat) (seq 0 n) p.
Proof.
  induction n as [|n IH]; [reflexivity|]; replace (2 * S n)%nat with (S (S (2 * n))) by lia.
  rewrite !seq_S, !fold_left_app, IH; cbn [fold_left Nat.add]; do 2 f_equal; lia.
Qed.

(** The unrolled function is UBI. *)
Lemma UBI_BIG_spec buf etype extra st : length (h st) = 8%nat ->
  UBI_BIG buf etype extra st
  = mkState (Spec.ubi (h st) (tweak0 (bcount st) extra) (tweak1 (bcount st) etype) buf) (bcount st).
Proof.
  intros H; unfold UBI_BIG, Spec.ubi, Spec.threefish; rewrite KINIT_spec by exact H.
  set (k := h st ++ _); set (t := [_; _; _]); set (m := words64le 8 buf); rewrite (fold_pairs _ m 9), feed_spec.
  rewrite ADDKEY_spec by lia; do 2 f_equal; cbn [seq fold_left].
  rewrite (rounds_4e k t 0), (rounds_4o k t 0), (rounds_4e k t 1), (rounds_4o k t 1), (rounds_4e k t 2), (rounds_4o k t 2),
    (rounds_4e k t 3), (rounds_4o k t 3), (rounds_4e k t 4), (rounds_4o k t 4), (rounds_4e k t 5), (rounds_4o k t 5),
    (rounds_4e k t 6), (rounds_4o k t 6), (rounds_4e k t 7), (rounds_4o k t 7), (rounds_4e k t 8), (rounds_4o k t 8) by lia.
  reflexivity.
Qed.

(** So is the loop of the small-footprint build, whose tweak words rotate. *)
Lemma small_loop k t0 t1 m n : length k = 9%nat -> (n <= 9)%nat ->
  let t := [t0; t1; t0 ⊕ t1] in
  fold_left (fun '(p, t0, t1, t2) u =>
      let s := (2 * u)%nat in
      let p := mix4e (TFBIG_ADDKEY_small (extend_key k) s t0 t1 p) in
      let p := mix4o (TFBIG_ADDKEY_small (extend_key k) (s + 1) t1 t2 p) in
      (p, t2, t0, t1)) (seq 0 n) (m, t0, t1, t0 ⊕ t1)
  = (fold_left (fun p u => Spec.rounds4 k t (Spec.rounds4 k t p (2 * u)) (2 * u + 1)) (seq 0 n) m,
     t.[(2 * n) mod 3], t.[(2 * n + 1) mod 3], t.[(2 * n + 2) mod 3]).
Proof.
  intros Hk Hn t; induction n as [|n IH]; [reflexivity|].
  rewrite seq_S, !fold_left_app, IH by lia; cbn [fold_left Nat.add].
  rewrite (ADDKEY_small_spec k t (2 * n)) by (assumption || reflexivity || lia).
  rewrite (ADDKEY_small_spec k t (2 * n + 1)) by
    (try assumption; try reflexivity; try lia; replace (2 * n + 1 + 1)%nat with (2 * n + 2)%nat by lia; reflexivity).
  rewrite (mix4_spec true (2 * n) _ (add_subkey_length _ _ _ _) (even_rounds n)),
    (mix4_spec false (2 * n + 1) _ (add_subkey_length _ _ _ _) (odd_rounds n)).
  replace ((2 * S n) mod 3)%nat with ((2 * n + 2) mod 3)%nat by (f_equal; lia).
  replace ((2 * S n + 1) mod 3)%nat with ((2 * n) mod 3)%nat by (rewrite <- (Nat.Div0.mod_add (2 * n) 1 3); f_equal; lia).
  replace ((2 * S n + 2) mod 3)%nat with ((2 * n + 1) mod 3)%nat by (rewrite <- (Nat.Div0.mod_add (2 * n + 1) 1 3); f_equal; lia).
  reflexivity.
Qed.

Lemma UBI_BIG_small_spec buf etype extra st : length (h st) = 8%nat ->
  UBI_BIG_small buf etype extra st
  = mkState (Spec.ubi (h st) (tweak0 (bcount st) extra) (tweak1 (bcount st) etype) buf) (bcount st).
Proof.
  intros H; unfold UBI_BIG_small, Spec.ubi, Spec.threefish; rewrite KINIT_spec by exact H.
  set (k := h st ++ _); set (m := words64le 8 buf).
  assert (Hk : length k = 9%nat) by (unfold k; rewrite length_app, H; reflexivity).
  rewrite (small_loop k _ _ m 9 Hk (le_n _)), (ADDKEY_small_spec k [tweak0 (bcount st) extra; tweak1 (bcount st) etype;
    tweak0 (bcount st) extra ⊕ tweak1 (bcount st) etype] 18) by (assumption || reflexivity || lia).
  rewrite (fold_pairs _ m 9), feed_spec; reflexivity.
Qed.

(** ** The message: UBI over its blocks *)

(** The tweak: position in bytes, and the type of block with the flags for the
    first (128) and last (256) block. *)
Definition flags (i : Z) : Z := if i =? 0 then 128 else 0.
Definition type_word (etype : Z) : Z := etype * 2 ^ 55.

(** The first [k] blocks of [data], the first of them block [i]. *)
Fixpoint full (k : nat) (i : Z) (key data : list Z) : list Z :=
  match k with
  | O => key
  | S k => full k (i + 1) (Spec.ubi key (64 * (i + 1)) (type_word (96 + flags i)) (firstn 64 data)) (skipn 64 data)
  end.

(** All blocks; the last one, padded with zeros, is never empty unless the
    message is. *)
Definition last_index (len : nat) : nat := ((len - 1) / 64)%nat.

Definition message_ubi (iv msg : list Z) : list Z :=
  let k := last_index (length msg) in
  let tail := skipn (64 * k) msg in
  Spec.ubi (full k 0 iv msg) (Z.of_nat (length msg)) (type_word (352 + flags (Z.of_nat k)))
    (tail ++ repeat 0 (64 - length tail)).

Definition skein_spec (iv : list Z) (out_len : nat) (msg : list Z) : list Z :=
  firstn out_len (flat_map sph_enc64le (Spec.ubi (message_ubi iv msg) 8 (type_word 510) (repeat 0 64))).

Lemma full_S k : forall i key data,
  full (S k) i key data
  = Spec.ubi (full k i key data) (64 * (i + Z.of_nat k + 1)) (type_word (96 + flags (i + Z.of_nat k)))
      (firstn 64 (skipn (64 * k) data)).
Proof.
  induction k as [|k IH]; intros i key data; [cbn [full]; rewrite Z.add_0_r; reflexivity|].
  change (full (S (S k)) i key data) with (full (S k) (i + 1)
    (Spec.ubi key (64 * (i + 1)) (type_word (96 + flags i)) (firstn 64 data)) (skipn 64 data)).
  rewrite IH, skipn_skipn; replace (i + 1 + Z.of_nat k) with (i + Z.of_nat (S k)) by lia.
  replace (64 * k + 64)%nat with (64 * S k)%nat by lia; reflexivity.
Qed.

Lemma full_app k : forall i key a b, (64 * k <= length a)%nat -> full k i key (a ++ b) = full k i key a.
Proof.
  induction k as [|k IH]; intros i key a b H; [reflexivity|]; cbn [full].
  rewrite firstn_app, skipn_app; replace (64 - length a)%nat with 0%nat by lia.
  rewrite firstn_O, skipn_O, app_nil_r; apply IH; rewrite length_skipn; lia.
Qed.

Lemma ubi_length key t0 t1 b : length (Spec.ubi key t0 t1 b) = 8%nat.
Proof. reflexivity. Qed.

Lemma full_length k : forall i key data, length key = 8%nat -> length (full k i key data) = 8%nat.
Proof. induction k as [|k IH]; intros i key data H; [exact H|]; apply IH, ubi_length. Qed.

#[local] Transparent SPH_T64 T64 Z.add.

(** The counter words are the position while it fits in 64 bits. *)
Lemma tweak0_pos b extra : 0 <= b -> 0 <= extra -> 64 * b + extra < 2 ^ 64 -> tweak0 b extra = 64 * b + extra.
Proof.
  intros Hb He H; unfold tweak0; rewrite Z.shiftl_mul_pow2 by lia.
  change (SPH_T64 (b * 2 ^ 6)) with (T64 (b * 2 ^ 6)).
  rewrite (T64_id (b * 2 ^ 6)), T64_id by (unfold u64; lia); lia.
Qed.

Lemma tweak1_type b etype : 0 <= b < 2 ^ 58 -> 0 <= etype < 512 -> tweak1 b etype = type_word etype.
Proof.
  intros Hb He; unfold tweak1, type_word; rewrite Z.shiftr_div_pow2, Z.div_small, Z.shiftl_mul_pow2 by lia.
  rewrite (T64_id (etype * 2 ^ 55)) by (unfold u64; lia); rewrite Z.add_0_l; apply T64_id; unfold u64; lia.
Qed.

Lemma words64le_pad b : words64le 8 b = words64le 8 (firstn 64 b).
Proof. exact (words64le_firstn 8 b). Qed.

Lemma ubi_firstn key t0 t1 b : Spec.ubi key t0 t1 (firstn 64 b) = Spec.ubi key t0 t1 b.
Proof. unfold Spec.ubi; rewrite <- words64le_pad; reflexivity. Qed.

(** What the context holds after [msg]: [k] blocks hashed, the rest, which may
    be a whole block, in the buffer. *)
Definition holding (iv msg : list Z) (k : nat) (c : context state) : Prop :=
  let tail := skipn (64 * k) msg in
  (length msg = 64 * k + length tail)%nat /\ (length tail <= 64)%nat /\ ptr c = length tail /\
  length (buf c) = 64%nat /\ firstn (ptr c) (buf c) = tail /\
  bcount (chain c) = Z.of_nat k /\ h (chain c) = full k 0 iv msg.

Lemma holding_copy iv msg k c d : holding iv msg k c -> (ptr c + length d <= 64)%nat ->
  holding iv (msg ++ d) k (mkContext (memcpy (buf c) (ptr c) d) (ptr c + length d) (chain c)).
Proof.
  unfold holding; intros (Hl & Ht & Hp & Hb & Hf & Hc & Hh) Hd; cbn [ptr buf chain].
  assert (E : skipn (64 * k) (msg ++ d) = skipn (64 * k) msg ++ d).
  { rewrite skipn_app; replace (64 * k - length msg)%nat with 0%nat by lia; reflexivity. }
  rewrite E, !length_app; repeat split; try lia.
  - rewrite memcpy_length; lia.
  - rewrite memcpy_firstn, Hf by lia; reflexivity.
  - rewrite Hh, full_app by lia; reflexivity.
Qed.

Lemma flags_range i : 0 <= flags i <= 128.
Proof. unfold flags; destruct (i =? 0); lia. Qed.

(** A full buffer is flushed as block [k]. *)
Lemma holding_flush iv msg k c : length iv = 8%nat -> holding iv msg k c -> ptr c = 64%nat -> Z.of_nat (length msg) < 2 ^ 64 ->
  holding iv msg (S k)
    (mkContext (buf c) 0 (UBI_BIG (buf c) (96 + flags (bcount (chain c))) 0
       (mkState (h (chain c)) (T64 (bcount (chain c) + 1))))).
Proof.
  unfold holding; intros Hiv (Hl & Ht & Hp & Hb & Hf & Hc & Hh) H64 Hlen; cbn [ptr buf chain].
  assert (Ek : length msg = (64 * S k)%nat) by lia.
  rewrite Hc, Hh, T64_id, UBI_BIG_spec by (unfold u64; lia || (apply full_length, Hiv)); cbn [h bcount].
  pose proof (flags_range (Z.of_nat k)); rewrite tweak0_pos, tweak1_type by lia.
  rewrite skipn_all2 by lia; repeat split; try (cbn [length]; lia).
  rewrite full_S, Z.add_0_l; rewrite H64 in Hf; rewrite <- Hf, ubi_firstn, ubi_firstn.
  f_equal; lia.
Qed.

(** The unrolled UBI function with its key and tweak index tables and
    renamed words, and the looping function of the small-footprint build, both
    compute UBI over Threefish-512 as Skein 1.3 defines it, on every block and
    state. *)
Theorem skein_ubi_builds buf etype extra st :
  length (h st) = 8%nat ->
  UBI_BIG buf etype extra st = UBI_BIG_small buf etype extra st /\
  h (UBI_BIG buf etype extra st) = Spec.ubi (h st) (tweak0 (bcount st) extra) (tweak1 (bcount st) etype) buf.
Proof. intros H; rewrite UBI_BIG_spec, UBI_BIG_small_spec by exact H; split; reflexivity. Qed.

Lemma skein_ubi_builds_witness :
  length IV512 = 8%nat /\
  UBI_BIG (repeat 1 64) 480 8 (mkState IV512 0) = UBI_BIG_small (repeat 1 64) 480 8 (mkState IV512 0).
Proof. split; [reflexivity|apply (skein_ubi_builds (repeat 1 64) 480 8 (mkState IV512 0)); reflexivity]. Defined.

Lemma holding_index iv msg k c : holding iv msg k c -> (0 < ptr c)%nat -> k = last_index (length msg).
Proof.
  unfold holding, last_index; intros (Hl & Ht & Hp & _) H; rewrite Hl.
  apply (Nat.div_unique _ 64 k (length (skipn (64 * k) msg) - 1)); lia.
Qed.

(** The loop hashes every full block that more data follows. *)
Lemma skein_loop_holding iv fuel : length iv = 8%nat -> forall data msg k c,
  holding iv msg k c -> (0 < length data <= fuel)%nat -> Z.of_nat (length msg + length data) < 2 ^ 64 ->
  exists k', holding iv (msg ++ data) k' (skein_loop fuel (flags (bcount (chain c))) c data) /\
    (0 < ptr (skein_loop fuel (flags (bcount (chain c))) c data))%nat.
Proof.
  intros Hiv; induction fuel as [|fuel IH]; intros data msg k c H Hf Hlen; [lia|].
  assert (Hs : exists k1 c1, holding iv msg k1 c1 /\ (ptr c1 < 64)%nat /\
    (if (ptr c =? 64)%nat
     then (mkContext (buf c) 0 (UBI_BIG (buf c) (96 + flags (bcount (chain c))) 0
             (mkState (h (chain c)) (T64 (bcount (chain c) + 1)))), 0)
     else (c, flags (bcount (chain c)))) = (c1, flags (bcount (chain c1)))).
  { destruct (Nat.eqb_spec (ptr c) 64) as [E|E].
    - pose proof (holding_flush iv msg k c Hiv H E ltac:(lia)) as H1.
      eexists (S k), _; split; [exact H1|]; split; [cbn [ptr]; lia|].
      destruct H1 as (_ & _ & _ & _ & _ & Hb & _); rewrite Hb; unfold flags.
      destruct (Z.eqb_spec (Z.of_nat (S k)) 0); [lia|reflexivity].
    - exists k, c; split; [exact H|]; split; [|reflexivity].
      destruct H as (_ & Ht & Hp & _); lia. }
  destruct Hs as (k1 & c1 & H1 & Hp1 & E1); cbn [skein_loop]; rewrite E1; clear E1; cbv zeta.
  set (clen := Nat.min (64 - ptr c1) (length data)).
  assert (Hc : length (firstn clen data) = clen) by (rewrite length_firstn; lia).
  pose proof (holding_copy iv msg k1 c1 (firstn clen data) H1 ltac:(lia)) as H2; rewrite Hc in H2.
  destruct (Nat.ltb_spec 0 (length (skipn clen data))) as [Hd|Hd].
  - pose proof (IH (skipn clen data) _ _ _ H2) as IH'; rewrite length_app, Hc, length_skipn, <- app_assoc, firstn_skipn in IH'.
    rewrite length_skipn in Hd; apply IH'; lia.
  - rewrite length_skipn in Hd; rewrite (firstn_all2 data) in H2 |- * by lia.
    exists k1; split; [exact H2|cbn [ptr]; lia].
Qed.

(** What the context holds between calls. *)
Definition held (iv msg : list Z) (c : context state) : Prop := holding iv msg (last_index (length msg)) c.

Lemma held_index iv msg k c : holding iv msg k c -> (0 < ptr c)%nat -> held iv msg c.
Proof. intros H Hp; unfold held; rewrite <- (holding_index iv msg k c H Hp); exact H. Qed.

Lemma held_init iv : held iv [] (skein_big_init iv).
Proof. unfold held, holding; cbn; repeat split; lia. Qed.

Lemma held_core iv msg data c : length iv = 8%nat -> Z.of_nat (length msg + length data) < 2 ^ 64 ->
  held iv msg c -> held iv (msg ++ data) (skein_big_core c data).
Proof.
  intros Hiv Hlen H; destruct data as [|x data].
  { unfold skein_big_core; cbn [length Nat.leb]; rewrite app_nil_r, memcpy_nil, Nat.add_0_r; destruct c; exact H. }
  unfold skein_big_core; destruct (Nat.leb_spec (length (x :: data)) (64 - ptr c)) as [Hl|Hl].
  - eapply held_index; [apply holding_copy; [exact H|cbn [length] in *; lia]|cbn [ptr length]; lia].
  - destruct (skein_loop_holding iv (length (x :: data)) Hiv (x :: data) msg _ c H) as (k & Hk & Hp);
      [cbn [length]; lia|exact Hlen|].
    eapply held_index; [exact Hk|exact Hp].
Qed.

(** Closing hashes the pending block, padded, then the output block. *)
Lemma close_held iv msg c out_len : length iv = 8%nat -> Z.of_nat (length msg) < 2 ^ 64 ->
  held iv msg c -> skein_big_close c 0 0 out_len = skein_spec iv out_len msg.
Proof.
  unfold held, holding; set (k := last_index _); intros Hiv Hlen (Hl & Ht & Hp & Hb & Hf & Hc & Hh).
  unfold skein_big_close, skein_spec, message_ubi; cbn [Z.eqb]; fold k; cbv zeta; rewrite Z.add_0_r.
  rewrite !UBI_BIG_spec by (reflexivity || (rewrite Hh; apply full_length, Hiv)); cbn [h bcount].
  fold (flags (bcount (chain c))); rewrite Hh, Hc, <- Hp; pose proof (flags_range (Z.of_nat k)).
  rewrite !tweak0_pos, !tweak1_type by lia.
  replace (64 * Z.of_nat k + Z.of_nat (ptr c)) with (Z.of_nat (length msg)) by lia.
  do 3 f_equal; rewrite <- ubi_firstn.
  replace (firstn 64 (memcpy (buf c) (ptr c) (repeat 0 (64 - ptr c)))) with (skipn (64 * k) msg ++ repeat 0 (64 - ptr c));
    [reflexivity|].
  pose proof (memcpy_firstn (buf c) (ptr c) (repeat 0 (64 - ptr c)) ltac:(lia)) as M.
  rewrite repeat_length, Hf in M; replace (ptr c + (64 - ptr c))%nat with 64%nat in M by lia.
  symmetry; exact M.
Qed.

(** [sph_skein512_close] on a context that received a message in pieces
    of any sizes returns Skein-512-512 of the message: UBI over its blocks
    with their positions, first and final flags, the last block kept back
    even when it is full, then UBI on the output counter; and the context is
    initialised again. *)
Theorem skein512_digest pieces :
  Z.of_nat (length (concat pieces)) < 2 ^ 64 ->
  sph_skein512_close (fold_left sph_skein512 pieces sph_skein512_init)
  = (skein_spec IV512 64 (concat pieces), sph_skein512_init).
Proof.
  intros H; unfold sph_skein512_close, sph_skein512_addbits_and_close; f_equal.
  apply close_held; [reflexivity|exact H|].
  assert (G : forall msg c, held IV512 msg c -> Z.of_nat (length (msg ++ concat pieces)) < 2 ^ 64 ->
    held IV512 (msg ++ concat pieces) (fold_left sph_skein512 pieces c)).
  { clear H; induction pieces as [|p ps IH]; intros msg c Hc Hlen; cbn [concat fold_left] in *;
      [rewrite app_nil_r; exact Hc|].
    rewrite app_assoc in Hlen |- *; apply IH; [|exact Hlen].
    rewrite !length_app in Hlen; apply held_core; [reflexivity|lia|exact Hc]. }
  apply (G []); [apply held_init|exact H].
Qed.

Lemma skein512_digest_witness :
  Z.of_nat (length (concat [repeat 7 60; repeat 9 70])) < 2 ^ 64 /\
  sph_skein512_close (fold_left sph_skein512 [repeat 7 60; repeat 9 70] sph_skein512_init)
  = (skein_spec IV512 64 (repeat 7 60 ++ repeat 9 70), sph_skein512_init).
Proof. split; [reflexivity|apply (skein512_digest [repeat 7 60; repeat 9 70]); reflexivity]. Defined.

End Skein.
