(* ===== verification/BaseUint.v ===== *)
(** Fixed-width unsigned integers: [src/src/uint256.h] and
    [src/src/uint256.cpp].

    [base_uint<BITS>] is its array [pn] of 32-bit limbs, least significant
    first; [WIDTH] is the length of the list.  Every operation is the loop
    of the source over the limbs, with the 32- and 64-bit truncations of its
    intermediate values written out.  [val] is the number an array stands
    for; the theorems relate each operation to arithmetic on [val], modulo
    [2 ^ (32 * WIDTH)] where the source wraps. *)
From S2P Require Import Prelude SphTypes.

Module BaseUint.

(** [pn] *)
Definition base_uint : Type := list Z.

Definition IsNull (a : base_uint) : bool := forallb (fun x => x =? 0) a.

Definition SetNull (w : nat) : base_uint := repeat 0 w.

(** [base_uint(uint64_t b)], and [operator=(uint64_t b)]. *)
Definition of_u64 (w : nat) (b : Z) : base_uint :=
  upd (upd (repeat 0 w) 0 (T32 b)) 1 (T32 (b >> 32)).

(** ** Bitwise operators *)

Definition op_not (a : base_uint) : base_uint := map NOT32 a.

Fixpoint map2 (f : Z -> Z -> Z) (a b : list Z) : list Z :=
  match a, b with
  | x :: a, y :: b => f x y :: map2 f a b
  | _, _ => []
  end.

Definition op_xor (a b : base_uint) : base_uint := map2 Z.lxor a b.
Definition op_and (a b : base_uint) : base_uint := map2 Z.land a b.
Definition op_or (a b : base_uint) : base_uint := map2 Z.lor a b.

(** ** Addition and subtraction *)

(** [operator++]: the loop stops at the first limb that does not wrap. *)
Fixpoint op_inc (a : base_uint) : base_uint :=
  match a with
  | [] => []
  | x :: a =>
      let x := T32 (x + 1) in
      if x =? 0 then x :: op_inc a else x :: a
  end.

(** [operator--]. *)
Fixpoint op_dec (a : base_uint) : base_uint :=
  match a with
  | [] => []
  | x :: a =>
      let x := T32 (x - 1) in
      if x =? 0xFFFFFFFF then x :: op_dec a else x :: a
  end.

(** Unary [operator-]. *)
Definition op_neg (a : base_uint) : base_uint := op_inc (op_not a).

(** The loop of [operator+=]. *)
Fixpoint add_loop (carry : Z) (a b : base_uint) : base_uint :=
  match a, b with
  | x :: a, y :: b =>
      let n := T64 (carry + x + y) in
      (n .& 0xFFFFFFFF) :: add_loop (n >> 32) a b
  | _, _ => []
  end.

Definition op_add (a b : base_uint) : base_uint := add_loop 0 a b.
Definition op_sub (a b : base_uint) : base_uint := op_add a (op_neg b).
Definition op_add64 (a : base_uint) (b64 : Z) : base_uint := op_add a (of_u64 (length a) b64).
Definition op_sub64 (a : base_uint) (b64 : Z) : base_uint := op_add a (op_neg (of_u64 (length a) b64)).

(** ** Multiplication *)

(** The loop of [operator*=(uint32_t)]. *)
Fixpoint mul32_loop (carry b32 : Z) (a : base_uint) : base_uint :=
  match a with
  | [] => []
  | x :: a =>
      let n := T64 (carry + b32 * x) in
      (n .& 0xFFFFFFFF) :: mul32_loop (n >> 32) b32 a
  end.

Definition op_mul32 (a : base_uint) (b32 : Z) : base_uint := mul32_loop 0 b32 a.

(** The inner loop of [operator*=(base_uint)]: [p] is [pn] from limb [j]. *)
Fixpoint mul_row (carry aj : Z) (p b : base_uint) : base_uint :=
  match p, b with
  | x :: p, y :: b =>
      let n := T64 (carry + x + aj * y) in
      (n .& 0xFFFFFFFF) :: mul_row (n >> 32) aj p b
  | _, _ => []
  end.

(** One iteration of the outer loop. *)
Definition mul_step (a b : base_uint) (pn : base_uint) (j : nat) : base_uint :=
  firstn j pn ++ mul_row 0 a.[j] (skipn j pn) b.

Definition op_mul (a b : base_uint) : base_uint :=
  fold_left (mul_step a b) (seq 0 (length a)) (SetNull (length a)).

(** ** Shifts *)

(** One iteration of the loop of [operator<<=], for limb [i]. *)
Definition shl_step (a : base_uint) (k : nat) (shift : Z) (pn : base_uint) (i : nat) : base_uint :=
  let w := length a in
  let pn :=
    if (i + k + 1 <? w)%nat && negb (shift =? 0)
    then upd pn (i + k + 1) (pn.[i + k + 1] .| (a.[i] >> (32 - shift))) else pn in
  if (i + k <? w)%nat
  then upd pn (i + k) (pn.[i + k] .| T32 (a.[i] << shift)) else pn.

Definition op_shl (a : base_uint) (shift : Z) : base_uint :=
  let k := Z.to_nat (shift / 32) in
  fold_left (shl_step a k (shift mod 32)) (seq 0 (length a)) (SetNull (length a)).

(** One iteration of the loop of [operator>>=]. *)
Definition shr_step (a : base_uint) (k : nat) (shift : Z) (pn : base_uint) (i : nat) : base_uint :=
  let pn :=
    if (k + 1 <=? i)%nat && negb (shift =? 0)
    then upd pn (i - k - 1) (pn.[i - k - 1] .| T32 (a.[i] << (32 - shift))) else pn in
  if (k <=? i)%nat
  then upd pn (i - k) (pn.[i - k] .| (a.[i] >> shift)) else pn.

Definition op_shr (a : base_uint) (shift : Z) : base_uint :=
  let k := Z.to_nat (shift / 32) in
  fold_left (shr_step a k (shift mod 32)) (seq 0 (length a)) (SetNull (length a)).

(** ** Comparison *)

(** The loop of [CompareTo], on the limbs from the most significant down. *)
Fixpoint compare_loop (a b : list Z) : Z :=
  match a, b with
  | x :: a, y :: b =>
      if x <? y then -1 else if y <? x then 1 else compare_loop a b
  | _, _ => 0
  end.

Definition CompareTo (a b : base_uint) : Z := compare_loop (rev a) (rev b).

Definition op_gt (a b : base_uint) : bool := 0 <? CompareTo a b.
Definition op_lt (a b : base_uint) : bool := CompareTo a b <? 0.
Definition op_ge (a b : base_uint) : bool := 0 <=? CompareTo a b.
Definition op_le (a b : base_uint) : bool := CompareTo a b <=? 0.

(** [memcmp(a.pn, b.pn, sizeof(a.pn)) == 0] *)
Fixpoint op_eq (a b : base_uint) : bool :=
  match a, b with
  | [], [] => true
  | x :: a, y :: b => (x =? y) && op_eq a b
  | _, _ => false
  end.

(** The limbs above 64 bits must be null, the two low ones those of [b]. *)
Definition EqualTo (a : base_uint) (b : Z) : bool :=
  forallb (fun x => x =? 0) (skipn 2 a) && (a.[1] =? b >> 32) && (a.[0] =? b .& 0xFFFFFFFF).

(** ** Bit length and division *)

(** The inner loop of [bits]: the highest set bit of a non-null limb, plus 1. *)
Fixpoint limb_bits (bits : nat) (x : Z) : Z :=
  match bits with
  | O => 1
  | S b => if Z.testbit x (Z.of_nat bits) then Z.of_nat bits + 1 else limb_bits b x
  end.

(** The outer loop, on the limbs from the most significant down. *)
Fixpoint bits_loop (a : list Z) : Z :=
  match a with
  | [] => 0
  | x :: rest => if x =? 0 then bits_loop rest else 32 * Z.of_nat (length rest) + limb_bits 31 x
  end.

Definition bits (a : base_uint) : Z := bits_loop (rev a).

(** [pn[shift / 32] |= (1 << (shift & 31))] *)
Definition set_bit (pn : base_uint) (shift : nat) : base_uint :=
  upd pn (shift / 32) (pn.[shift / 32] .| T32 (1 << Z.of_nat (shift mod 32))).

(** The [while (shift >= 0)] loop of [operator/=]. *)
Fixpoint div_loop (shift : nat) (num div pn : base_uint) : base_uint :=
  let '(num, pn) := if op_ge num div then (op_sub num div, set_bit pn shift) else (num, pn) in
  let div := op_shr div 1 in
  match shift with
  | O => pn
  | S shift => div_loop shift num div pn
  end.

(** [operator/=]; [None] is the [uint_error] thrown on a null divisor. *)
Definition op_div (a b : base_uint) : option base_uint :=
  let num_bits := bits a in
  let div_bits := bits b in
  if div_bits =? 0 then None
  else if num_bits <? div_bits then Some (SetNull (length a))
  else
    let shift := num_bits - div_bits in
    Some (div_loop (Z.to_nat shift) a (op_shl b shift) (SetNull (length a))).

(** ** Accessors *)

Definition GetLow64 (a : base_uint) : Z := a.[0] .| T64 (a.[1] << 32).
Definition Get64 (a : base_uint) (n : nat) : Z := a.[2 * n] .| T64 (a.[2 * n + 1] << 32).
Definition Get32 (a : base_uint) (n : nat) : Z := a.[2 * n].

(** [uint512::trim256]. *)
Definition trim256 (a : base_uint) : base_uint := firstn 8 a.

(** ** The compact representation *)

(** [SetCompact]: the number, [*pfNegative] and [*pfOverflow]. *)
Definition SetCompact (nCompact : Z) : base_uint * bool * bool :=
  let nSize := nCompact >> 24 in
  let nWord := nCompact .& 0x007FFFFF in
  let '(nWord, this) :=
    if nSize <=? 3
    then let nWord := nWord >> (8 * (3 - nSize)) in (nWord, of_u64 8 nWord)
    else (nWord, op_shl (of_u64 8 nWord) (8 * (nSize - 3))) in
  let pfNegative := negb (nWord =? 0) && negb (nCompact .& 0x00800000 =? 0) in
  let pfOverflow :=
    negb (nWord =? 0) &&
    ((34 <? nSize) || ((0xFF <? nWord) && (33 <? nSize)) || ((0xFFFF <? nWord) && (32 <? nSize))) in
  (this, pfNegative, pfOverflow).

(** [GetCompact(fNegative)]; its two assertions are [GetCompact_asserts]. *)
Definition compact_parts (a : base_uint) : Z * Z :=
  let nSize := (bits a + 7) / 8 in
  let nCompact :=
    if nSize <=? 3 then T32 (T64 (GetLow64 a << (8 * (3 - nSize))))
    else T32 (GetLow64 (op_shr a (8 * (nSize - 3)))) in
  if negb (nCompact .& 0x00800000 =? 0) then (nCompact >> 8, nSize + 1) else (nCompact, nSize).

Definition GetCompact_asserts (a : base_uint) : bool :=
  let '(nCompact, nSize) := compact_parts a in
  (nCompact .& NOT32 0x007FFFFF =? 0) && (nSize <? 256).

Definition GetCompact (a : base_uint) (fNegative : bool) : Z :=
  let '(nCompact, nSize) := compact_parts a in
  let nCompact := nCompact .| T32 (nSize << 24) in
  nCompact .| (if fNegative && negb (nCompact .& 0x007FFFFF =? 0) then 0x00800000 else 0).

(** ** The number an array stands for *)

Fixpoint val (a : base_uint) : Z :=
  match a with
  | [] => 0
  | x :: a => x + 2 ^ 32 * val a
  end.

(** Every limb is a [uint32_t]. *)
Definition limbs (a : base_uint) : Prop := Forall u32 a.

(** [2 ^ BITS] *)
Definition modulus (w : nat) : Z := 2 ^ (32 * Z.of_nat w).

Lemma modulus_S w : modulus (S w) = 2 ^ 32 * modulus w.
Proof.
  unfold modulus; rewrite <- Z.pow_add_r by lia; f_equal; lia.
Qed.

Lemma modulus_pos w : 0 < modulus w.
Proof. apply Z.pow_pos_nonneg; lia. Qed.

Lemma modulus_add v w : modulus (v + w) = modulus v * modulus w.
Proof. unfold modulus; rewrite <- Z.pow_add_r by lia; f_equal; lia. Qed.

Lemma val_bound a : limbs a -> 0 <= val a < modulus (length a).
Proof.
  induction 1 as [|x a Hx _ IH]; cbn [val length]; [unfold modulus; cbn; lia|].
  rewrite modulus_S; unfold u32 in Hx; pose proof (modulus_pos (length a)); nia.
Qed.

Lemma val_app a b : val (a ++ b) = val a + modulus (length a) * val b.
Proof.
  induction a as [|x a IH]; cbn [val app length]; [change (modulus 0) with 1; lia|].
  rewrite IH, modulus_S; ring.
Qed.

Lemma val_repeat n : val (repeat 0 n) = 0.
Proof. induction n; cbn [repeat val]; lia. Qed.

Lemma limbs_repeat n : limbs (repeat 0 n).
Proof. apply Forall_forall; intros x Hx; apply repeat_spec in Hx; subst; unfold u32; lia. Qed.

Lemma val_inj a : forall b,
  limbs a -> limbs b -> length a = length b -> val a = val b -> a = b.
Proof.
  induction a as [|x a IH]; intros [|y b] Ha Hb Hl Hv; try discriminate; [reflexivity|].
  inversion_clear Ha as [|? ? Hx Ha']; inversion_clear Hb as [|? ? Hy Hb'].
  cbn [val] in Hv; unfold u32 in Hx, Hy.
  assert (x = y /\ val a = val b) as [-> Hv'] by lia.
  f_equal; apply IH; auto.
Qed.

(** Splitting off the low limb of a sum modulo. *)
Lemma mod_split x y w :
  0 < w -> x mod 2 ^ 32 + 2 ^ 32 * ((x / 2 ^ 32 + y) mod w) = (x + 2 ^ 32 * y) mod (2 ^ 32 * w).
Proof.
  intros Hw; rewrite Z.rem_mul_r by lia.
  rewrite (Z.mul_comm (2 ^ 32) y), Z.mod_add, Z.div_add by lia; reflexivity.
Qed.

Lemma limb_low n : 0 <= n -> n .& 0xFFFFFFFF = n mod 2 ^ 32.
Proof. intros _; apply (T32_mod n). Qed.

Lemma limb_carry n : n >> 32 = n / 2 ^ 32.
Proof. apply Z.shiftr_div_pow2; lia. Qed.

Lemma u32_mod n : u32 (n mod 2 ^ 32).
Proof. apply (in_width_mod 32); lia. Qed.

(** *** Increment, decrement, complement *)

Lemma length_op_inc a : length (op_inc a) = length a.
Proof. induction a as [|x a IH]; cbn [op_inc length]; [reflexivity|]; destruct (_ =? 0); cbn; auto. Qed.

Lemma limbs_op_inc a : limbs a -> limbs (op_inc a).
Proof.
  induction 1 as [|x a Hx Ha IH]; cbn [op_inc]; [constructor|].
  destruct (_ =? 0); constructor; try apply T32_u32; auto.
Qed.

Lemma val_op_inc a : limbs a -> val (op_inc a) = (val a + 1) mod modulus (length a).
Proof.
  induction 1 as [|x a Hx Ha IH]; cbn [op_inc length]; [unfold modulus; rewrite Z.mod_1_r; reflexivity|].
  rewrite modulus_S; cbn [val]; unfold u32 in Hx.
  replace (x + 2 ^ 32 * val a + 1) with ((x + 1) + 2 ^ 32 * val a) by lia.
  rewrite <- mod_split by apply modulus_pos; rewrite T32_mod.
  pose proof (val_bound a Ha).
  destruct (Z.eqb_spec ((x + 1) mod 2 ^ 32) 0) as [E|E]; cbn [val].
  - assert (x = 2 ^ 32 - 1) as -> by (Z.div_mod_to_equations; lia).
    rewrite IH; change ((2 ^ 32 - 1 + 1) / 2 ^ 32) with 1; rewrite (Z.add_comm 1); reflexivity.
  - assert ((x + 1) / 2 ^ 32 = 0) as -> by (Z.div_mod_to_equations; lia).
    rewrite (Z.mod_small (0 + val a)); lia.
Qed.

Lemma length_op_dec a : length (op_dec a) = length a.
Proof. induction a as [|x a IH]; cbn [op_dec length]; [reflexivity|]; destruct (_ =? _); cbn; auto. Qed.

Lemma limbs_op_dec a : limbs a -> limbs (op_dec a).
Proof.
  induction 1 as [|x a Hx Ha IH]; cbn [op_dec]; [constructor|].
  destruct (_ =? _); constructor; try apply T32_u32; auto.
Qed.

Lemma val_op_dec a : limbs a -> val (op_dec a) = (val a - 1) mod modulus (length a).
Proof.
  induction 1 as [|x a Hx Ha IH]; cbn [op_dec length]; [unfold modulus; rewrite Z.mod_1_r; reflexivity|].
  rewrite modulus_S; cbn [val]; unfold u32 in Hx.
  replace (x + 2 ^ 32 * val a - 1) with ((x - 1) + 2 ^ 32 * val a) by lia.
  rewrite <- mod_split by apply modulus_pos; rewrite T32_mod.
  pose proof (val_bound a Ha).
  destruct (Z.eqb_spec ((x - 1) mod 2 ^ 32) 0xFFFFFFFF) as [E|E]; cbn [val].
  - assert (x = 0) as -> by (Z.div_mod_to_equations; lia).
    rewrite IH; change ((0 - 1) / 2 ^ 32) with (-1); rewrite (Z.add_comm (-1)); reflexivity.
  - assert ((x - 1) / 2 ^ 32 = 0) as -> by (Z.div_mod_to_equations; lia).
    rewrite (Z.mod_small (0 + val a)); lia.
Qed.

Lemma NOT32_sub x : u32 x -> NOT32 x = 2 ^ 32 - 1 - x.
Proof.
  intros Hx; unfold NOT32; change (2 ^ 32 - 1) with (Z.ones 32); change 0xFFFFFFFF with (Z.ones 32).
  rewrite Z.sub_nocarry_ldiff.
  - apply (in_width_ext 32); [lia|apply u32_lxor; [exact Hx|split; [discriminate|reflexivity]]| |].
    + apply in_width_bits; [lia|]; split; [apply Z.ldiff_nonneg; left; discriminate|].
      intros i Hi; rewrite Z.ldiff_spec, Z.ones_spec_high by lia; reflexivity.
    + intros i Hi; rewrite Z.lxor_spec, Z.ldiff_spec, Z.ones_spec_low by lia.
      destruct (Z.testbit x i); reflexivity.
  - apply Z.bits_inj'; intros i Hi; rewrite Z.ldiff_spec, Z.bits_0.
    destruct (Z.lt_ge_cases i 32); [rewrite Z.ones_spec_low by lia; apply andb_false_r|].
    rewrite (in_width_high 32) by (exact Hx || lia); reflexivity.
Qed.

Lemma length_op_not a : length (op_not a) = length a.
Proof. apply length_map. Qed.

Lemma limbs_op_not a : limbs a -> limbs (op_not a).
Proof. induction 1; constructor; auto using NOT32_u32. Qed.

Lemma val_op_not a : limbs a -> val (op_not a) = modulus (length a) - 1 - val a.
Proof.
  induction 1 as [|x a Hx Ha IH]; [reflexivity|].
  change (op_not (x :: a)) with (NOT32 x :: op_not a); cbn [val length].
  rewrite IH, NOT32_sub, modulus_S by exact Hx; ring.
Qed.

Lemma length_op_neg a : length (op_neg a) = length a.
Proof. unfold op_neg; rewrite length_op_inc; apply length_op_not. Qed.

Lemma limbs_op_neg a : limbs a -> limbs (op_neg a).
Proof. intros; apply limbs_op_inc, limbs_op_not; assumption. Qed.

Lemma val_op_neg a : limbs a -> val (op_neg a) = (- val a) mod modulus (length a).
Proof.
  intros Ha; unfold op_neg; rewrite val_op_inc by (apply limbs_op_not, Ha).
  rewrite length_op_not, val_op_not by exact Ha.
  replace (modulus (length a) - 1 - val a + 1) with (- val a + 1 * modulus (length a)) by ring.
  apply Z.mod_add; pose proof (modulus_pos (length a)); lia.
Qed.

(** *** Addition, subtraction *)

(** The 64-bit intermediate of the carry loops never wraps. *)
Lemma add_no_wrap c x y : 0 <= c <= 1 -> u32 x -> u32 y -> T64 (c + x + y) = c + x + y.
Proof. unfold u32; intros; apply T64_id; unfold u64; lia. Qed.

Lemma length_add_loop c a b : length a = length b -> length (add_loop c a b) = length a.
Proof. revert c b; induction a; intros c [|y b] H; cbn in *; try discriminate; auto. Qed.

Lemma limbs_add_loop a : forall c b, limbs (add_loop c a b).
Proof.
  induction a as [|x a IH]; intros c [|y b]; cbn [add_loop]; constructor; [apply (T32_u32 _)|apply IH].
Qed.

Lemma val_add_loop a : forall c b,
  0 <= c <= 1 -> limbs a -> limbs b -> length a = length b ->
  val (add_loop c a b) = (c + val a + val b) mod modulus (length a).
Proof.
  induction a as [|x a IH]; intros c [|y b] Hc Ha Hb Hl; try discriminate Hl.
  - unfold modulus; cbn; rewrite Z.mod_1_r; reflexivity.
  - inversion_clear Ha as [|? ? Hx Ha']; inversion_clear Hb as [|? ? Hy Hb'].
    cbn [add_loop]; rewrite add_no_wrap by assumption; unfold u32 in *; cbn [val length].
    rewrite limb_low, limb_carry by lia.
    rewrite IH; [|Z.div_mod_to_equations; lia|assumption|assumption|cbn in Hl; lia].
    rewrite modulus_S, <- (Z.add_assoc (_ / _)), mod_split by apply modulus_pos.
    f_equal; ring.
Qed.

Lemma length_op_add a b : length a = length b -> length (op_add a b) = length a.
Proof. apply length_add_loop. Qed.

Lemma limbs_op_add a b : limbs (op_add a b).
Proof. apply limbs_add_loop. Qed.

Lemma val_op_add a b :
  limbs a -> limbs b -> length a = length b -> val (op_add a b) = (val a + val b) mod modulus (length a).
Proof. intros; apply val_add_loop; auto; lia. Qed.

Lemma length_op_sub a b : length a = length b -> length (op_sub a b) = length a.
Proof. intros; apply length_op_add; rewrite length_op_neg; assumption. Qed.

Lemma val_op_sub a b :
  limbs a -> limbs b -> length a = length b -> val (op_sub a b) = (val a - val b) mod modulus (length a).
Proof.
  intros Ha Hb Hl; unfold op_sub; rewrite val_op_add; [|assumption|apply limbs_op_neg, Hb|rewrite length_op_neg; assumption].
  rewrite val_op_neg, <- Hl, Zplus_mod_idemp_r by exact Hb; reflexivity.
Qed.

(** *** Multiplication *)

Lemma mul_no_wrap c x a y : u32 c -> u32 x -> u32 a -> u32 y -> T64 (c + x + a * y) = c + x + a * y.
Proof. unfold u32; intros; apply T64_id; unfold u64; nia. Qed.

Lemma mul_carry c x a y : u32 c -> u32 x -> u32 a -> u32 y -> u32 ((c + x + a * y) / 2 ^ 32).
Proof.
  unfold u32; intros; split; [apply Z.div_pos; nia|apply Z.div_lt_upper_bound; nia].
Qed.

Lemma length_mul_row c aj p : forall b, (length p <= length b)%nat -> length (mul_row c aj p b) = length p.
Proof.
  revert c; induction p as [|x p IH]; intros c [|y b] H; cbn in *; try lia.
  rewrite IH; lia.
Qed.

Lemma limbs_mul_row aj p : forall c b, limbs (mul_row c aj p b).
Proof.
  induction p as [|x p IH]; intros c [|y b]; cbn [mul_row]; constructor; [apply (T32_u32 _)|apply IH].
Qed.

Lemma val_mul_row aj p : forall c b,
  u32 c -> u32 aj -> limbs p -> limbs b -> (length p <= length b)%nat ->
  val (mul_row c aj p b) = (c + val p + aj * val b) mod modulus (length p).
Proof.
  induction p as [|x p IH]; intros c b Hc Haj Hp Hb Hl.
  - unfold modulus; cbn; rewrite Z.mod_1_r; reflexivity.
  - destruct b as [|y b]; [cbn in Hl; lia|].
    inversion_clear Hp as [|? ? Hx Hp']; inversion_clear Hb as [|? ? Hy Hb'].
    cbn [mul_row]; rewrite mul_no_wrap by assumption; cbn [val length].
    rewrite limb_low, limb_carry by (unfold u32 in *; nia).
    rewrite IH; [|apply mul_carry; assumption|assumption..|cbn in Hl; lia].
    rewrite modulus_S, <- (Z.add_assoc (_ / _)), mod_split by apply modulus_pos.
    f_equal; ring.
Qed.

Lemma limbs_split j a : limbs a -> limbs (firstn j a) /\ limbs (skipn j a).
Proof. apply Forall_split. Qed.

Lemma limbs_get a j : limbs a -> u32 a.[j].
Proof.
  intros H; unfold get; destruct (nth_in_or_default j a 0) as [Hi| ->]; [|unfold u32; lia].
  apply (proj1 (Forall_forall _ _) H), Hi.
Qed.

(** One row adds [a_j * b] shifted by [j] limbs. *)
Lemma val_mul_step a b pn j :
  limbs a -> limbs b -> limbs pn -> length pn = length a -> length b = length a -> (j < length a)%nat ->
  let r := mul_step a b pn j in
  limbs r /\ length r = length a /\
  val r = (val pn + modulus j * (a.[j] * val b)) mod modulus (length a).
Proof.
  intros Ha Hb Hp Hlp Hlb Hj r; unfold r, mul_step.
  pose proof (limbs_get a j Ha) as Haj.
  assert (Hpj : val pn = val (firstn j pn) + modulus j * val (skipn j pn)).
  { rewrite <- (firstn_skipn j pn) at 1; rewrite val_app, length_firstn, Nat.min_l by lia; reflexivity. }
  destruct (limbs_split j pn Hp) as [Hf Hs].
  pose proof (val_bound _ Hf) as Hfb; rewrite length_firstn, Nat.min_l in Hfb by lia.
  split; [apply Forall_app; split; [exact Hf|apply limbs_mul_row]|].
  split; [rewrite length_app, length_mul_row, length_firstn, length_skipn; [|rewrite length_skipn]; lia|].
  rewrite val_app, length_firstn, Nat.min_l, val_mul_row, Hpj, length_skipn by
    (unfold u32 in *; rewrite ?length_skipn; (assumption || lia)).
  set (lo := val (firstn j pn)) in *; set (hi := val (skipn j pn)).
  replace (modulus (length a)) with (modulus j * modulus (length pn - j))
    by (rewrite <- modulus_add; f_equal; lia).
  replace (lo + modulus j * hi + modulus j * (a.[j] * val b))
    with (lo + modulus j * (0 + hi + a.[j] * val b)) by ring.
  pose proof (modulus_pos j); pose proof (modulus_pos (length pn - j)).
  rewrite (Z.rem_mul_r (lo + _)) by lia.
  rewrite (Z.mul_comm (modulus j) (0 + hi + _)), Z.mod_add, Z.div_add, (Z.mod_small lo), (Z.div_small lo) by lia.
  reflexivity.
Qed.

Lemma val_firstn_S a j : (j < length a)%nat -> val (firstn (S j) a) = val (firstn j a) + modulus j * a.[j].
Proof.
  revert j; induction a as [|x a IH]; intros j Hj; cbn [length] in *; [lia|].
  destruct j as [|j]; [cbn [firstn val]; change (modulus 0) with 1; change ((x :: a).[0]) with x; lia|].
  change (firstn (S (S j)) (x :: a)) with (x :: firstn (S j) a).
  change (firstn (S j) (x :: a)) with (x :: firstn j a); cbn [val].
  rewrite IH, modulus_S by lia; change ((x :: a).[S j]) with (a.[j]); ring.
Qed.

Lemma val_mul_loop a b n :
  limbs a -> limbs b -> length b = length a -> (n <= length a)%nat ->
  let r := fold_left (mul_step a b) (seq 0 n) (SetNull (length a)) in
  limbs r /\ length r = length a /\ val r = (val (firstn n a) * val b) mod modulus (length a).
Proof.
  intros Ha Hb Hl; induction n as [|n IH]; intros Hn r.
  - unfold r; cbn [seq fold_left firstn val]; unfold SetNull.
    split; [apply limbs_repeat|split; [apply repeat_length|]].
    rewrite val_repeat, Z.mod_small; [reflexivity|]; pose proof (modulus_pos (length a)); lia.
  - unfold r; rewrite seq_S, fold_left_app; cbn [fold_left Nat.add].
    destruct IH as (H1 & H2 & H3); [lia|].
    destruct (val_mul_step a b _ n Ha Hb H1 H2 Hl ltac:(lia)) as (G1 & G2 & G3).
    split; [exact G1|split; [exact G2|]].
    rewrite G3, H3, Zplus_mod_idemp_l, val_firstn_S by lia; f_equal; ring.
Qed.

Lemma val_op_mul a b :
  limbs a -> limbs b -> length b = length a ->
  limbs (op_mul a b) /\ length (op_mul a b) = length a /\
  val (op_mul a b) = (val a * val b) mod modulus (length a).
Proof.
  intros Ha Hb Hl; destruct (val_mul_loop a b (length a) Ha Hb Hl ltac:(lia)) as (H1 & H2 & H3).
  rewrite firstn_all in H3; auto.
Qed.

Lemma length_mul32_loop a : forall c b, length (mul32_loop c b a) = length a.
Proof. induction a; intros; cbn [mul32_loop length]; auto. Qed.

Lemma limbs_mul32_loop a : forall c b, limbs (mul32_loop c b a).
Proof. induction a; intros; cbn [mul32_loop]; constructor; [apply (T32_u32 _)|]; apply IHa. Qed.

Lemma val_mul32_loop b32 a : forall c,
  u32 c -> u32 b32 -> limbs a ->
  val (mul32_loop c b32 a) = (c + b32 * val a) mod modulus (length a).
Proof.
  induction a as [|x a IH]; intros c Hc Hb Ha.
  - unfold modulus; cbn; rewrite Z.mod_1_r; reflexivity.
  - inversion_clear Ha as [|? ? Hx Ha']; cbn [mul32_loop].
    assert (H0 : u32 0) by (unfold u32; lia).
    pose proof (mul_no_wrap c 0 b32 x Hc H0 Hb Hx) as Hw; pose proof (mul_carry c 0 b32 x Hc H0 Hb Hx) as Hk.
    rewrite Z.add_0_r in Hw, Hk; rewrite Hw; cbn [val length].
    rewrite limb_low, limb_carry, IH by (try assumption; unfold u32 in *; nia).
    rewrite modulus_S, mod_split by apply modulus_pos; f_equal; ring.
Qed.

Lemma val_op_mul32 a b32 :
  limbs a -> u32 b32 -> val (op_mul32 a b32) = (b32 * val a) mod modulus (length a).
Proof. intros; unfold op_mul32; rewrite val_mul32_loop by (assumption || (unfold u32; lia)); reflexivity. Qed.

(** *** Bits of the number and bits of the limbs *)

Lemma testbit_limb x v n :
  u32 x -> 0 <= v -> 0 <= n ->
  Z.testbit (x + 2 ^ 32 * v) n = if n <? 32 then Z.testbit x n else Z.testbit v (n - 32).
Proof.
  intros Hx Hv Hn; unfold u32 in Hx; destruct (Z.ltb_spec n 32).
  - rewrite <- (Z.mod_pow2_bits_low (x + 2 ^ 32 * v) 32) by lia.
    rewrite (Z.mul_comm (2 ^ 32)), Z.mod_add, Z.mod_small by lia; reflexivity.
  - replace n with (n - 32 + 32) at 1 by lia; rewrite <- Z.div_pow2_bits by lia.
    rewrite (Z.mul_comm (2 ^ 32)), Z.div_add, Z.div_small by lia; reflexivity.
Qed.

Lemma val_testbit a : forall n,
  limbs a -> 0 <= n -> Z.testbit (val a) n = Z.testbit a.[Z.to_nat (n / 32)] (n mod 32).
Proof.
  induction a as [|x a IH]; intros n Ha Hn.
  - cbn [val]; unfold get; destruct (Z.to_nat (n / 32)); rewrite !Z.bits_0; reflexivity.
  - inversion_clear Ha as [|? ? Hx Ha']; pose proof (val_bound a Ha') as Hb; cbn [val].
    rewrite testbit_limb by (assumption || lia); destruct (Z.ltb_spec n 32).
    + rewrite Z.div_small, Z.mod_small by lia; reflexivity.
    + rewrite IH by (assumption || lia).
      replace (n / 32) with (Z.succ ((n - 32) / 32)) by (Z.div_mod_to_equations; lia).
      rewrite Z2Nat.inj_succ by (apply Z.div_pos; lia).
      replace (n mod 32) with ((n - 32) mod 32) by (Z.div_mod_to_equations; lia); reflexivity.
Qed.

(** A number given by its limbs is determined by them. *)
Lemma val_bits_eq r x :
  limbs r -> in_width (32 * Z.of_nat (length r)) x ->
  (forall j b, (j < length r)%nat -> 0 <= b < 32 -> Z.testbit r.[j] b = Z.testbit x (32 * Z.of_nat j + b)) ->
  val r = x.
Proof.
  intros Hr Hx H; apply (in_width_ext (32 * Z.of_nat (length r))); [lia|exact (val_bound r Hr)|exact Hx|].
  intros i Hi; rewrite val_testbit, H by
    (try assumption; try apply Z.mod_pos_bound; (lia || (Z.div_mod_to_equations; lia))).
  f_equal; Z.div_mod_to_equations; lia.
Qed.

(** *** Shifts

    Every iteration of a shift loop ORs the bits of limb [i] into at most
    two limbs of the result; the loop's closed form says which bits limb [j]
    ends up with. *)

Lemma get_upd a i j x : (upd a i x).[j] = if (i =? j)%nat && (i <? length a)%nat then x else a.[j].
Proof.
  destruct (Nat.eqb_spec i j) as [->|Hij]; cbn [andb]; [|apply get_upd_ne; exact Hij].
  destruct (Nat.ltb_spec j (length a)); [apply get_upd_eq; assumption|].
  unfold get; rewrite !nth_overflow; rewrite ?upd_length; auto.
Qed.

Ltac nat_cases :=
  repeat match goal with
  | |- context [(?a <=? ?b)%nat] => destruct (Nat.leb_spec a b); try lia
  | |- context [(?a <? ?b)%nat] => destruct (Nat.ltb_spec a b); try lia
  | |- context [(?a =? ?b)%nat] => destruct (Nat.eqb_spec a b); try lia
  end; cbn [andb negb] in *; rewrite ?Z.lor_0_l, ?Z.lor_0_r.

(** The contribution of limb [i] of [a] to limb [j] of [a << (32 k + s)]. *)
Definition shl_part (a : base_uint) (k : nat) (s : Z) (i j : nat) : Z :=
  (if (j =? i + k + 1)%nat && negb (s =? 0) then a.[i] >> (32 - s) else 0)
  .| (if (j =? i + k)%nat then T32 (a.[i] << s) else 0).

Lemma shl_step_spec a k s pn i :
  length pn = length a ->
  length (shl_step a k s pn i) = length a /\
  forall j, (j < length a)%nat -> (shl_step a k s pn i).[j] = pn.[j] .| shl_part a k s i j.
Proof.
  intros Hl; split.
  - unfold shl_step; destruct (_ && _), (_ <? _)%nat; rewrite ?upd_length; exact Hl.
  - intros j Hj; unfold shl_step, shl_part; destruct (negb (s =? 0));
      rewrite ?andb_true_r, ?andb_false_r; nat_cases; rewrite ?get_upd, ?upd_length, ?Hl;
      nat_cases; subst; try reflexivity; f_equal; f_equal; lia.
Qed.

Definition shl_limb (a : base_uint) (k : nat) (s : Z) (m j : nat) : Z :=
  (if (k + 1 <=? j)%nat && (j - k - 1 <? m)%nat && negb (s =? 0) then a.[j - k - 1] >> (32 - s) else 0)
  .| (if (k <=? j)%nat && (j - k <? m)%nat then T32 (a.[j - k] << s) else 0).

Lemma shl_limb_S a k s m j : shl_limb a k s (S m) j = shl_limb a k s m j .| shl_part a k s m j.
Proof.
  unfold shl_limb, shl_part; destruct (negb (s =? 0)); rewrite ?andb_true_r, ?andb_false_r;
    nat_cases; subst; rewrite ?Z.lor_0_l, ?Z.lor_0_r; try reflexivity.
  all: try (replace (m + k + 1 - k - 1)%nat with m by lia; reflexivity).
  all: try (replace (m + k - k)%nat with m by lia; reflexivity).
Qed.

Lemma shl_loop a k s m :
  let r := fold_left (shl_step a k s) (seq 0 m) (SetNull (length a)) in
  length r = length a /\ forall j, (j < length a)%nat -> r.[j] = shl_limb a k s m j.
Proof.
  induction m as [|m [Hl IH]].
  - cbn [seq fold_left]; unfold SetNull; split; [apply repeat_length|].
    intros j Hj; unfold shl_limb, get; rewrite nth_repeat; nat_cases; reflexivity.
  - cbv zeta in *; rewrite seq_S, fold_left_app; cbn [fold_left Nat.add].
    destruct (shl_step_spec a k s _ m Hl) as [Hl' Hs]; split; [exact Hl'|].
    intros j Hj; rewrite Hs, IH, shl_limb_S by exact Hj; reflexivity.
Qed.

Definition shr_part (a : base_uint) (k : nat) (s : Z) (i j : nat) : Z :=
  (if (i =? j + k + 1)%nat && negb (s =? 0) then T32 (a.[i] << (32 - s)) else 0)
  .| (if (i =? j + k)%nat then a.[i] >> s else 0).

Lemma shr_step_spec a k s pn i :
  length pn = length a -> (i < length a)%nat ->
  length (shr_step a k s pn i) = length a /\
  forall j, (j < length a)%nat -> (shr_step a k s pn i).[j] = pn.[j] .| shr_part a k s i j.
Proof.
  intros Hl Hi; split.
  - unfold shr_step; destruct (_ && _), (_ <=? _)%nat; rewrite ?upd_length; exact Hl.
  - intros j Hj; unfold shr_step, shr_part; destruct (negb (s =? 0));
      rewrite ?andb_true_r, ?andb_false_r; nat_cases; rewrite ?get_upd, ?upd_length, ?Hl;
      nat_cases; subst; try reflexivity; f_equal; f_equal; lia.
Qed.

Definition shr_limb (a : base_uint) (k : nat) (s : Z) (m j : nat) : Z :=
  (if (j + k <? m)%nat then a.[j + k] >> s else 0)
  .| (if (j + k + 1 <? m)%nat && negb (s =? 0) then T32 (a.[j + k + 1] << (32 - s)) else 0).

Lemma shr_limb_S a k s m j : shr_limb a k s (S m) j = shr_limb a k s m j .| shr_part a k s m j.
Proof.
  unfold shr_limb, shr_part; destruct (negb (s =? 0)); rewrite ?andb_true_r, ?andb_false_r;
    nat_cases; subst; rewrite ?Z.lor_0_l, ?Z.lor_0_r; try reflexivity.
Qed.

Lemma shr_loop a k s m :
  (m <= length a)%nat ->
  let r := fold_left (shr_step a k s) (seq 0 m) (SetNull (length a)) in
  length r = length a /\ forall j, (j < length a)%nat -> r.[j] = shr_limb a k s m j.
Proof.
  induction m as [|m IH]; intros Hm.
  - cbn [seq fold_left]; unfold SetNull; split; [apply repeat_length|].
    intros j Hj; unfold shr_limb, get; rewrite nth_repeat; nat_cases; reflexivity.
  - cbv zeta in *; rewrite seq_S, fold_left_app; cbn [fold_left Nat.add].
    destruct IH as [Hl IH]; [lia|].
    destruct (shr_step_spec a k s _ m Hl) as [Hl' Hs]; [lia|]; split; [exact Hl'|].
    intros j Hj; rewrite Hs, IH, shr_limb_S by exact Hj; reflexivity.
Qed.

Lemma limbs_of_get r : (forall j, (j < length r)%nat -> u32 r.[j]) -> limbs r.
Proof.
  intros H; apply Forall_forall; intros x Hx.
  apply (In_nth _ _ 0) in Hx; destruct Hx as (j & Hj & <-); apply H, Hj.
Qed.

Lemma u32_0 : u32 0.
Proof. unfold u32; lia. Qed.

Lemma shl_limb_u32 a k s m j : limbs a -> 0 <= s < 32 -> u32 (shl_limb a k s m j).
Proof.
  intros Ha Hs; unfold shl_limb; apply u32_lor.
  - destruct (_ && _); [apply u32_shiftr; [apply limbs_get, Ha|lia]|apply u32_0].
  - destruct (_ && _); [apply T32_u32|apply u32_0].
Qed.

Lemma shr_limb_u32 a k s m j : limbs a -> 0 <= s < 32 -> u32 (shr_limb a k s m j).
Proof.
  intros Ha Hs; unfold shr_limb; apply u32_lor.
  - destruct (_ <? _)%nat; [apply u32_shiftr; [apply limbs_get, Ha|lia]|apply u32_0].
  - destruct (_ && _); [apply T32_u32|apply u32_0].
Qed.

(** Bits of a limb shifted into its own and into the next position. *)
Lemma testbit_shl_lo x s b : 0 <= s < 32 -> 0 <= b < 32 -> Z.testbit (T32 (x << s)) b = Z.testbit x (b - s).
Proof.
  intros Hs Hb; rewrite T32_testbit, Z.shiftl_spec by lia.
  destruct (Z.ltb_spec b 32); [reflexivity|lia].
Qed.

Lemma testbit_shr x s b : 0 <= s -> 0 <= b -> Z.testbit (x >> s) b = Z.testbit x (b + s).
Proof. intros; apply Z.shiftr_spec; lia. Qed.

Lemma testbit_u32_high x b : u32 x -> 32 <= b -> Z.testbit x b = false.
Proof. intros Hx Hb; apply (in_width_high 32); (exact Hx || lia). Qed.

(** Position [32 i + c] of a number, [c] a bit of limb [i]. *)
Lemma val_testbit_at a i c :
  limbs a -> 0 <= c < 32 -> Z.testbit (val a) (32 * Z.of_nat i + c) = Z.testbit a.[i] c.
Proof.
  intros Ha Hc; rewrite val_testbit by (assumption || lia).
  replace (Z.to_nat ((32 * Z.of_nat i + c) / 32)) with i by (Z.div_mod_to_equations; lia).
  f_equal; Z.div_mod_to_equations; lia.
Qed.

(** Past the last limb there are no bits. *)
Lemma get_overflow a i : (length a <= i)%nat -> a.[i] = 0.
Proof. intros H; apply nth_overflow, H. Qed.

Lemma val_op_shl a n :
  limbs a -> 0 <= n ->
  limbs (op_shl a n) /\ length (op_shl a n) = length a /\
  val (op_shl a n) = (val a * 2 ^ n) mod modulus (length a).
Proof.
  intros Ha Hn; unfold op_shl; set (k := Z.to_nat (n / 32)); set (s := n mod 32).
  assert (Hs : 0 <= s < 32) by (apply Z.mod_pos_bound; lia).
  assert (En : n = 32 * Z.of_nat k + s) by (unfold k, s; rewrite Z2Nat.id; Z.div_mod_to_equations; lia).
  destruct (shl_loop a k s (length a)) as [Hl Hg]; set (r := fold_left _ _ _) in *.
  assert (Hr : limbs r).
  { apply limbs_of_get; intros j Hj; rewrite Hg by lia; apply shl_limb_u32; assumption. }
  split; [exact Hr|split; [exact Hl|]]; rewrite <- Hl.
  apply val_bits_eq; [exact Hr|apply in_width_mod; lia|].
  intros j b Hj Hb; rewrite Hg by lia; unfold shl_limb, modulus.
  rewrite Z.mod_pow2_bits_low, Z.mul_pow2_bits, Z.lor_spec by lia.
  destruct (Z.ltb_spec b s) as [Hbs|Hbs].
  - assert (Hz : (s =? 0) = false) by (apply Z.eqb_neq; lia); rewrite Hz; cbn [negb]; rewrite andb_true_r.
    replace (32 * Z.of_nat j + b - n) with (32 * (Z.of_nat j - Z.of_nat k - 1) + (b + (32 - s))) by lia.
    assert (H2 : Z.testbit (if (k <=? j)%nat && (j - k <? length a)%nat then T32 (a.[j - k] << s) else 0) b = false).
    { destruct (_ && _); [rewrite testbit_shl_lo, Z.testbit_neg_r by lia|rewrite Z.bits_0]; reflexivity. }
    rewrite H2, orb_false_r; nat_cases.
    + rewrite testbit_shr by lia.
      replace (Z.of_nat j - Z.of_nat k - 1) with (Z.of_nat (j - k - 1)) by lia.
      rewrite val_testbit_at by (assumption || lia); reflexivity.
    + rewrite Z.bits_0, Z.testbit_neg_r by lia; reflexivity.
  - replace (32 * Z.of_nat j + b - n) with (32 * (Z.of_nat j - Z.of_nat k) + (b - s)) by lia.
    assert (H1 : Z.testbit (if (k + 1 <=? j)%nat && (j - k - 1 <? length a)%nat && negb (s =? 0)
                            then a.[j - k - 1] >> (32 - s) else 0) b = false).
    { destruct (_ && _); [|apply Z.bits_0]; rewrite testbit_shr by lia.
      apply testbit_u32_high; [apply limbs_get, Ha|lia]. }
    rewrite H1; cbn [orb]; nat_cases.
    + rewrite testbit_shl_lo by lia.
      replace (Z.of_nat j - Z.of_nat k) with (Z.of_nat (j - k)) by lia.
      rewrite val_testbit_at by (assumption || lia); reflexivity.
    + rewrite Z.bits_0, Z.testbit_neg_r by lia; reflexivity.
Qed.

Lemma val_op_shr a n :
  limbs a -> 0 <= n ->
  limbs (op_shr a n) /\ length (op_shr a n) = length a /\ val (op_shr a n) = val a / 2 ^ n.
Proof.
  intros Ha Hn; unfold op_shr; set (k := Z.to_nat (n / 32)); set (s := n mod 32).
  assert (Hs : 0 <= s < 32) by (apply Z.mod_pos_bound; lia).
  assert (En : n = 32 * Z.of_nat k + s) by (unfold k, s; rewrite Z2Nat.id; Z.div_mod_to_equations; lia).
  destruct (shr_loop a k s (length a) ltac:(lia)) as [Hl Hg]; set (r := fold_left _ _ _) in *.
  assert (Hr : limbs r).
  { apply limbs_of_get; intros j Hj; rewrite Hg by lia; apply shr_limb_u32; assumption. }
  split; [exact Hr|split; [exact Hl|]].
  pose proof (val_bound a Ha) as Hv.
  apply val_bits_eq; [exact Hr| |].
  { rewrite Hl; split; [apply Z.div_pos; lia|].
    apply (Z.le_lt_trans _ (val a)); [apply Z.div_le_upper_bound; nia|apply Hv]. }
  intros j b Hj Hb; rewrite Hg by lia; unfold shr_limb.
  rewrite Z.div_pow2_bits, Z.lor_spec by lia.
  destruct (Z.ltb_spec (b + s) 32) as [Hbs|Hbs].
  - replace (32 * Z.of_nat j + b + n) with (32 * Z.of_nat (j + k) + (b + s)) by lia.
    rewrite val_testbit_at by (assumption || lia).
    assert (H2 : Z.testbit (if (j + k + 1 <? length a)%nat && negb (s =? 0)
                            then T32 (a.[j + k + 1] << (32 - s)) else 0) b = false).
    { destruct (Z.eqb_spec s 0); cbn [negb]; [rewrite andb_false_r; apply Z.bits_0|].
      destruct (_ && _); [|apply Z.bits_0]; rewrite testbit_shl_lo, Z.testbit_neg_r by lia; reflexivity. }
    rewrite H2, orb_false_r; destruct (Nat.ltb_spec (j + k) (length a)).
    + apply testbit_shr; lia.
    + rewrite get_overflow, !Z.bits_0 by lia; reflexivity.
  - replace (32 * Z.of_nat j + b + n) with (32 * Z.of_nat (j + k + 1) + (b + s - 32)) by lia.
    rewrite val_testbit_at by (assumption || lia).
    assert (Hz : (s =? 0) = false) by (apply Z.eqb_neq; lia); rewrite Hz; cbn [negb]; rewrite andb_true_r.
    assert (H1 : Z.testbit (if (j + k <? length a)%nat then a.[j + k] >> s else 0) b = false).
    { destruct (_ <? _)%nat; [|apply Z.bits_0]; rewrite testbit_shr by lia.
      apply testbit_u32_high; [apply limbs_get, Ha|lia]. }
    rewrite H1; cbn [orb]; destruct (Nat.ltb_spec (j + k + 1) (length a)).
    + rewrite testbit_shl_lo by lia; f_equal; lia.
    + rewrite get_overflow, !Z.bits_0 by lia; reflexivity.
Qed.

(** *** Comparison *)

Lemma val_rev_cons x a : val (rev (x :: a)) = val (rev a) + modulus (length a) * x.
Proof. cbn [rev]; rewrite val_app, length_rev; cbn [val]; ring. Qed.

Lemma limbs_rev a : limbs a -> limbs (rev a).
Proof. apply Forall_rev. Qed.

(** The sign of a comparison as [CompareTo] returns it. *)
Definition sign (c : comparison) : Z := match c with Lt => -1 | Eq => 0 | Gt => 1 end.

Lemma compare_loop_spec a : forall b,
  limbs a -> limbs b -> length a = length b ->
  compare_loop a b = sign (val (rev a) ?= val (rev b)).
Proof.
  induction a as [|x a IH]; intros [|y b] Ha Hb Hl; try discriminate Hl; [reflexivity|].
  inversion_clear Ha as [|? ? Hx Ha']; inversion_clear Hb as [|? ? Hy Hb'].
  injection Hl as Hl; rewrite !val_rev_cons, <- Hl; cbn [compare_loop].
  pose proof (val_bound _ (limbs_rev _ Ha')) as B1; pose proof (val_bound _ (limbs_rev _ Hb')) as B2.
  rewrite length_rev in B1, B2; rewrite <- Hl in B2; set (m := modulus (length a)) in *.
  destruct (Z.ltb_spec x y); [symmetry|destruct (Z.ltb_spec y x); [symmetry|]].
  - replace (_ ?= _) with Lt by (symmetry; apply Z.compare_lt_iff; nia); reflexivity.
  - replace (_ ?= _) with Gt by (symmetry; apply Z.compare_gt_iff; nia); reflexivity.
  - replace y with x by lia; rewrite IH by assumption; f_equal.
    rewrite (Z.add_comm (val (rev a))), (Z.add_comm (val (rev b))), Z.add_compare_mono_l; reflexivity.
Qed.

Lemma CompareTo_spec a b :
  limbs a -> limbs b -> length a = length b -> CompareTo a b = sign (val a ?= val b).
Proof.
  intros Ha Hb Hl; unfold CompareTo.
  rewrite compare_loop_spec by (try apply limbs_rev; rewrite ?length_rev; assumption).
  rewrite !rev_involutive; reflexivity.
Qed.

Lemma op_ge_spec a b : limbs a -> limbs b -> length a = length b -> op_ge a b = (val b <=? val a).
Proof.
  intros Ha Hb Hl; unfold op_ge; rewrite CompareTo_spec by assumption; unfold Z.leb.
  rewrite (Z.compare_antisym (val a)); destruct (val a ?= val b); reflexivity.
Qed.

Lemma op_gt_spec a b : limbs a -> limbs b -> length a = length b -> op_gt a b = (val b <? val a).
Proof.
  intros Ha Hb Hl; unfold op_gt; rewrite CompareTo_spec by assumption; unfold Z.ltb.
  rewrite (Z.compare_antisym (val a)); destruct (val a ?= val b); reflexivity.
Qed.

Lemma op_lt_spec a b : limbs a -> limbs b -> length a = length b -> op_lt a b = (val a <? val b).
Proof.
  intros Ha Hb Hl; unfold op_lt; rewrite CompareTo_spec by assumption; unfold Z.ltb.
  destruct (val a ?= val b); reflexivity.
Qed.

Lemma op_le_spec a b : limbs a -> limbs b -> length a = length b -> op_le a b = (val a <=? val b).
Proof.
  intros Ha Hb Hl; unfold op_le; rewrite CompareTo_spec by assumption; unfold Z.leb.
  destruct (val a ?= val b); reflexivity.
Qed.

Lemma op_eq_spec a : forall b, op_eq a b = true <-> a = b.
Proof.
  induction a as [|x a IH]; intros [|y b]; cbn [op_eq]; try (split; [discriminate|discriminate]); [tauto|].
  rewrite andb_true_iff, Z.eqb_eq, IH; split; [intros [-> ->]; reflexivity|intros [= -> ->]; auto].
Qed.

Lemma op_eq_val a b : limbs a -> limbs b -> length a = length b -> op_eq a b = (val a =? val b).
Proof.
  intros Ha Hb Hl; apply eq_true_iff_eq; rewrite op_eq_spec, Z.eqb_eq.
  split; [intros ->; reflexivity|apply val_inj; assumption].
Qed.

(** *** Bit length *)

Lemma limb_bits_spec n x : 0 < x < 2 ^ (Z.of_nat n + 1) -> limb_bits n x = Z.log2 x + 1.
Proof.
  induction n as [|n IH]; intros Hx; cbn [limb_bits].
  - assert (x = 1) as -> by (change (2 ^ (Z.of_nat 0 + 1)) with 2 in Hx; lia); reflexivity.
  - destruct (Z.testbit x (Z.of_nat (S n))) eqn:E.
    + f_equal; symmetry; apply Z.log2_unique; [lia|]; rewrite <- Z.add_1_r; split; [|apply Hx].
      destruct (Z.le_gt_cases (2 ^ Z.of_nat (S n)) x) as [?|Hlt]; [assumption|].
      rewrite (in_width_high (Z.of_nat (S n)) x) in E; [discriminate|lia|split; lia|lia].
    + apply IH; split; [lia|].
      replace (Z.of_nat n + 1) with (Z.of_nat (S n)) by lia.
      assert (Hw : in_width (Z.of_nat (S n)) x); [|apply Hw].
      apply in_width_bits; [lia|]; split; [lia|]; intros i Hi.
      destruct (Z.eq_dec i (Z.of_nat (S n))) as [->|]; [exact E|].
      apply (in_width_high (Z.of_nat (S n) + 1)); [lia|split; lia|lia].
Qed.

Definition bit_length (x : Z) : Z := if x =? 0 then 0 else Z.log2 x + 1.

Lemma bits_loop_spec a : limbs a -> bits_loop a = bit_length (val (rev a)).
Proof.
  induction 1 as [|x a Hx Ha IH]; [reflexivity|].
  rewrite val_rev_cons; cbn [bits_loop]; pose proof (val_bound _ (limbs_rev _ Ha)) as B.
  rewrite length_rev in B; pose proof (modulus_pos (length a)) as M; unfold u32 in Hx.
  destruct (Z.eqb_spec x 0) as [->|Hx0]; [rewrite IH, Z.mul_0_r, Z.add_0_r; reflexivity|].
  rewrite limb_bits_spec by (change (2 ^ (Z.of_nat 31 + 1)) with (2 ^ 32); lia).
  unfold bit_length; destruct (Z.eqb_spec (val (rev a) + modulus (length a) * x) 0); [nia|].
  rewrite Z.add_assoc; f_equal; symmetry; unfold modulus in *.
  pose proof (Z.log2_spec x ltac:(lia)) as [L1 L2]; pose proof (Z.log2_nonneg x).
  apply Z.log2_unique; [lia|]; rewrite <- Z.add_succ_r, !Z.pow_add_r by lia; nia.
Qed.

Lemma bits_spec a : limbs a -> bits a = bit_length (val a).
Proof.
  intros Ha; unfold bits; rewrite bits_loop_spec by (apply limbs_rev, Ha).
  rewrite rev_involutive; reflexivity.
Qed.

Lemma bit_length_bounds x : 0 < x -> 0 < bit_length x /\ 2 ^ (bit_length x - 1) <= x < 2 ^ bit_length x.
Proof.
  intros Hx; unfold bit_length; destruct (Z.eqb_spec x 0); [lia|].
  pose proof (Z.log2_spec x Hx); pose proof (Z.log2_nonneg x).
  rewrite Z.add_simpl_r; split; [lia|]; exact H.
Qed.

Lemma bit_length_mono x y : 0 <= x -> 0 <= y -> bit_length x < bit_length y -> x < y.
Proof.
  unfold bit_length; intros Hx Hy; destruct (Z.eqb_spec x 0), (Z.eqb_spec y 0); try lia.
  - pose proof (Z.log2_nonneg x); lia.
  - intros H; apply Z.log2_lt_cancel; lia.
Qed.

(** *** Division *)

Lemma val_upd a i x : (i < length a)%nat -> val (upd a i x) = val a + modulus i * (x - a.[i]).
Proof.
  revert i; induction a as [|y a IH]; intros [|i] Hi; cbn [length] in Hi; try lia.
  - cbn [upd val]; change (modulus 0) with 1; change ((y :: a).[0]) with y; lia.
  - cbn [upd val]; rewrite IH, modulus_S by lia; change ((y :: a).[S i]) with (a.[i]); ring.
Qed.

Lemma limbs_upd a i x : limbs a -> u32 x -> limbs (upd a i x).
Proof.
  intros Ha Hx; revert i; induction Ha as [|y a Hy Ha IH]; intros [|i]; cbn [upd]; constructor;
    first [assumption | apply IH].
Qed.

Lemma lor_pow2 x n : 0 <= n -> Z.testbit x n = false -> x .| (1 << n) = x + 2 ^ n.
Proof.
  intros Hn Hb; rewrite Z.shiftl_1_l.
  assert (Hl : x .& (2 ^ n) = 0).
  { apply Z.bits_inj'; intros i Hi; rewrite Z.land_spec, Z.pow2_bits_eqb, Z.bits_0 by lia.
    destruct (Z.eqb_spec n i) as [<-|]; [rewrite Hb|]; auto using andb_false_r. }
  rewrite Z.add_nocarry_lxor, Z.lxor_lor by exact Hl; reflexivity.
Qed.

Lemma set_bit_spec pn s :
  limbs pn -> (s < 32 * length pn)%nat -> Z.testbit (val pn) (Z.of_nat s) = false ->
  limbs (set_bit pn s) /\ length (set_bit pn s) = length pn /\ val (set_bit pn s) = val pn + 2 ^ Z.of_nat s.
Proof.
  intros Hp Hs Hb; unfold set_bit.
  pose proof (Nat.div_mod_eq s 32) as Es; pose proof (Nat.mod_upper_bound s 32 ltac:(lia)) as Hm.
  set (i := (s / 32)%nat) in *; set (r := (s mod 32)%nat) in *.
  assert (Hi : (i < length pn)%nat) by lia.
  replace (Z.of_nat s) with (32 * Z.of_nat i + Z.of_nat r) in * by lia.
  rewrite val_testbit_at in Hb by (assumption || lia).
  rewrite T32_id.
  2:{ rewrite Z.shiftl_1_l; split; [lia|apply Z.pow_lt_mono_r; lia]. }
  split; [|split; [apply upd_length|]].
  - apply limbs_upd; [exact Hp|apply u32_lor; [apply limbs_get, Hp|]].
    rewrite Z.shiftl_1_l; split; [lia|apply Z.pow_lt_mono_r; lia].
  - rewrite val_upd, lor_pow2 by (assumption || lia).
    rewrite Z.pow_add_r by lia; unfold modulus; ring.
Qed.

Lemma div_loop_spec B N : forall shift num div pn,
  limbs num -> limbs div -> limbs pn -> length div = length num -> length pn = length num ->
  (shift < 32 * length num)%nat -> 0 < B ->
  val div = B * 2 ^ Z.of_nat shift ->
  val num < B * 2 ^ (Z.of_nat shift + 1) ->
  (2 ^ (Z.of_nat shift + 1) | val pn) ->
  N = val pn * B + val num ->
  let r := div_loop shift num div pn in
  limbs r /\ length r = length num /\ val r = N / B.
Proof.
  induction shift as [|shift IH]; intros num div pn Hn Hd Hp Hld Hlp Hs HB Ed Hlt [q Eq] EN r; unfold r; cbn [div_loop].
  all: rewrite op_ge_spec by auto.
  all: pose proof (val_bound num Hn) as Bn.
  - destruct (set_bit_spec pn 0 Hp) as (P1 & P2 & P3); [lia| |].
    { rewrite Eq, Z.mul_pow2_bits, Z.testbit_neg_r by lia; reflexivity. }
    change (2 ^ Z.of_nat 0) with 1 in *; rewrite Z.pow_add_r in * by lia; change (2 ^ Z.of_nat 0) with 1 in *.
    destruct (Z.leb_spec (val div) (val num)).
    + split; [exact P1|split; [lia|]]; rewrite P3.
      apply (Z.div_unique _ _ _ (val num - B)); lia.
    + split; [exact Hp|split; [lia|]].
      apply (Z.div_unique _ _ _ (val num)); lia.
  - destruct (set_bit_spec pn (S shift) Hp) as (P1 & P2 & P3); [lia| |].
    { rewrite Eq, Z.mul_pow2_bits, Z.testbit_neg_r by lia; reflexivity. }
    destruct (val_op_shr div 1 Hd ltac:(lia)) as (D1 & D2 & D3).
    assert (Ed' : val (op_shr div 1) = B * 2 ^ Z.of_nat shift).
    { rewrite D3, Ed, Nat2Z.inj_succ, Z.pow_succ_r by lia.
      replace (B * (2 * 2 ^ Z.of_nat shift)) with (B * 2 ^ Z.of_nat shift * 2 ^ 1) by ring.
      apply Z.div_mul; lia. }
    assert (E1 : Z.of_nat shift + 1 = Z.of_nat (S shift)) by lia.
    assert (E2 : 2 ^ (Z.of_nat (S shift) + 1) = 2 * 2 ^ Z.of_nat (S shift)) by (rewrite Z.pow_add_r by lia; ring).
    rewrite E2 in *.
    destruct (Z.leb_spec (val div) (val num)).
    + pose proof (val_op_sub num div Hn Hd (eq_sym Hld)) as Es.
      rewrite Z.mod_small in Es by (pose proof (val_bound div Hd); lia).
      pose proof (length_op_sub num div (eq_sym Hld)) as Ls.
      destruct (IH (op_sub num div) (op_shr div 1) (set_bit pn (S shift))) as (R1 & R2 & R3);
        rewrite ?E1; try assumption; try lia.
      * apply limbs_op_add.
      * exists (2 * q + 1); lia.
      * split; [exact R1|split; [lia|exact R3]].
    + destruct (IH num (op_shr div 1) pn) as (R1 & R2 & R3); rewrite ?E1; try assumption; try lia.
      * exists (2 * q); lia.
      * split; [exact R1|split; [lia|exact R3]].
Qed.

Lemma op_div_spec a b :
  limbs a -> limbs b -> length b = length a ->
  match op_div a b with
  | None => val b = 0
  | Some q => val b <> 0 /\ limbs q /\ length q = length a /\ val q = val a / val b
  end.
Proof.
  intros Ha Hb Hl; unfold op_div; rewrite !bits_spec by assumption.
  pose proof (val_bound a Ha) as Ba; pose proof (val_bound b Hb) as Bb; rewrite Hl in Bb.
  destruct (Z.eqb_spec (bit_length (val b)) 0) as [E|E].
  { unfold bit_length in E; destruct (Z.eqb_spec (val b) 0); [assumption|].
    pose proof (Z.log2_nonneg (val b)); lia. }
  assert (Hb0 : 0 < val b).
  { destruct (Z.eq_dec (val b) 0) as [E0|]; [rewrite E0 in E; elim E; reflexivity|lia]. }
  pose proof (bit_length_bounds _ Hb0) as [L1 L2].
  destruct (Z.ltb_spec (bit_length (val a)) (bit_length (val b))) as [Hlt|Hge].
  { split; [lia|]; split; [apply limbs_repeat|split; [apply repeat_length|]].
    unfold SetNull; rewrite val_repeat, Z.div_small; [reflexivity|].
    split; [lia|apply bit_length_mono; lia]. }
  assert (Ha0 : 0 < val a).
  { destruct (Z.eq_dec (val a) 0) as [E0|]; [rewrite E0 in Hge; change (bit_length 0) with 0 in Hge; lia|lia]. }
  pose proof (bit_length_bounds _ Ha0) as [L3 L4].
  set (s := bit_length (val a) - bit_length (val b)) in *.
  assert (Hw : bit_length (val a) <= 32 * Z.of_nat (length a)).
  { destruct (Z.le_gt_cases (bit_length (val a)) (32 * Z.of_nat (length a))) as [?|Hgt]; [assumption|].
    assert (2 ^ (32 * Z.of_nat (length a)) <= 2 ^ (bit_length (val a) - 1)) by (apply Z.pow_le_mono_r; lia).
    unfold modulus in Ba; lia. }
  assert (Hs : 2 ^ bit_length (val a) = 2 ^ bit_length (val b) * 2 ^ s).
  { rewrite <- Z.pow_add_r by lia; f_equal; lia. }
  assert (Hpb : 2 ^ bit_length (val b) = 2 * 2 ^ (bit_length (val b) - 1)).
  { rewrite <- Z.pow_succ_r by lia; f_equal; lia. }
  assert (Hps : 0 < 2 ^ s) by (apply Z.pow_pos_nonneg; lia).
  destruct (val_op_shl b s Hb ltac:(lia)) as (S1 & S2 & S3).
  rewrite Z.mod_small in S3.
  2:{ rewrite Hl; split; [nia|]; apply (Z.lt_le_trans _ (2 ^ bit_length (val a))); [nia|].
      unfold modulus; apply Z.pow_le_mono_r; lia. }
  split; [lia|].
  apply (div_loop_spec (val b) (val a)); try assumption; try (rewrite Z2Nat.id by lia; assumption).
  - apply limbs_repeat.
  - lia.
  - apply repeat_length.
  - lia.
  - rewrite Z2Nat.id, Z.pow_add_r by lia; nia.
  - unfold SetNull; rewrite val_repeat; exists 0; reflexivity.
  - unfold SetNull; rewrite val_repeat; reflexivity.
Qed.

(** *** The compact representation *)

Lemma val_of_u64 w b : (2 <= w)%nat -> u64 b ->
  limbs (of_u64 w b) /\ length (of_u64 w b) = w /\ val (of_u64 w b) = b.
Proof.
  intros Hw Hb; unfold of_u64; split; [|split].
  - repeat apply limbs_upd; try apply T32_u32; apply limbs_repeat.
  - rewrite !upd_length; apply repeat_length.
  - destruct w as [|[|w]]; try lia; cbn [repeat upd val]; rewrite val_repeat, !T32_mod, limb_carry.
    unfold u64 in Hb; Z.div_mod_to_equations; lia.
Qed.

Lemma GetLow64_spec a : limbs a -> (2 <= length a)%nat -> GetLow64 a = val a mod 2 ^ 64.
Proof.
  intros Ha Hl; apply (in_width_ext 64); [lia| |apply in_width_mod; lia|].
  - apply u64_lor; [|apply T64_u64]; pose proof (limbs_get a 0 Ha); unfold u32, u64 in *; lia.
  - intros i Hi; unfold GetLow64; rewrite Z.mod_pow2_bits_low, val_testbit by (assumption || lia).
    rewrite Z.lor_spec, T64_testbit, Z.shiftl_spec by lia.
    destruct (Z.ltb_spec i 64) as [_|]; [|lia]; rewrite andb_true_l.
    destruct (Z.lt_ge_cases i 32) as [Hi2|Hi2].
    + rewrite (Z.testbit_neg_r a.[1]), orb_false_r, Z.div_small, Z.mod_small by lia; reflexivity.
    + rewrite testbit_u32_high by (try apply limbs_get; assumption); rewrite orb_false_l.
      replace (i / 32) with 1 by (Z.div_mod_to_equations; lia).
      f_equal; Z.div_mod_to_equations; lia.
Qed.

(** Mantissa and exponent of a positive number: the exponent is the least for
    which the mantissa stays below the sign bit. *)
Definition is_compact (v m s : Z) : Prop :=
  0 < s /\ 2 ^ 15 <= m < 2 ^ 23 /\ m = if s <=? 3 then v * 2 ^ (8 * (3 - s)) else v / 2 ^ (8 * (s - 3)).

Lemma pow8_split a b : 0 <= a -> 0 <= b -> 2 ^ (a + b) = 2 ^ a * 2 ^ b.
Proof. intros; apply Z.pow_add_r; lia. Qed.

(** The exponent of a mantissa in range bounds the number. *)
Lemma is_compact_bounds v m s :
  is_compact v m s -> 2 ^ (8 * s - 1) <= v * 2 ^ 8 /\ v < 2 ^ (8 * s - 1) /\ 0 < v.
Proof.
  intros (Hs & Hm & E); destruct (Z.leb_spec s 3).
  - assert (s = 1 \/ s = 2 \/ s = 3) as [->|[->| ->]] by lia; cbn in E |- *; lia.
  - set (p := 2 ^ (8 * (s - 3))) in *; assert (Hp : 0 < p) by (apply Z.pow_pos_nonneg; lia).
    replace (2 ^ (8 * s - 1)) with (2 ^ 23 * p) by (unfold p; rewrite <- Z.pow_add_r by lia; f_equal; lia).
    pose proof (Z.div_mod v p ltac:(lia)); pose proof (Z.mod_pos_bound v p Hp); nia.
Qed.

Lemma is_compact_unique v m s m' s' : is_compact v m s -> is_compact v m' s' -> m = m' /\ s = s'.
Proof.
  intros C C'; pose proof (is_compact_bounds _ _ _ C) as (B1 & B2 & _).
  pose proof (is_compact_bounds _ _ _ C') as (B1' & B2' & _).
  destruct C as (Hs & _ & E), C' as (Hs' & _ & E').
  assert (s = s') as <-; [|split; [congruence|reflexivity]].
  assert (Hlt : forall x y, 0 < x -> v < 2 ^ (8 * x - 1) -> 2 ^ (8 * y - 1) <= v * 2 ^ 8 -> x < y -> False).
  { intros x y Hx H1 H2 Hxy.
    assert (2 ^ (8 * x - 1) * 2 ^ 8 <= 2 ^ (8 * y - 1)) by
      (rewrite <- Z.pow_add_r by lia; apply Z.pow_le_mono_r; lia).
    lia. }
  destruct (Z.lt_trichotomy s s') as [?|[?|?]]; [elim (Hlt s s')|assumption|elim (Hlt s' s)]; assumption.
Qed.

Lemma land_sign x : 0 <= x < 2 ^ 24 -> (x .& 0x00800000 =? 0) = (x <? 2 ^ 23).
Proof.
  intros Hx; change 0x00800000 with (1 << 23).
  assert (E : Z.testbit x 23 = negb (x <? 2 ^ 23)).
  { rewrite Z.testbit_odd, Z.shiftr_div_pow2 by lia; destruct (Z.ltb_spec x (2 ^ 23)).
    - rewrite Z.div_small by lia; reflexivity.
    - replace (x / 2 ^ 23) with 1 by (Z.div_mod_to_equations; lia); reflexivity. }
  assert (E2 : x .& (1 << 23) = if Z.testbit x 23 then 2 ^ 23 else 0).
  { apply Z.bits_inj'; intros i Hi; rewrite Z.land_spec, Z.shiftl_1_l, Z.pow2_bits_eqb by lia.
    destruct (Z.eqb_spec 23 i) as [<-|Hn].
    - rewrite andb_true_r; destruct (Z.testbit x 23); reflexivity.
    - rewrite andb_false_r; destruct (Z.testbit x 23); [|rewrite Z.bits_0; reflexivity].
      rewrite Z.pow2_bits_eqb by lia; symmetry; apply Z.eqb_neq; exact Hn. }
  rewrite E2, E; destruct (x <? 2 ^ 23); reflexivity.
Qed.

(** The size in bytes [GetCompact] starts from. *)
Lemma byte_size v : 0 < v ->
  let s := (bit_length v + 7) / 8 in 0 < s /\ 2 ^ (8 * (s - 1)) <= v < 2 ^ (8 * s).
Proof.
  intros Hv s; pose proof (bit_length_bounds v Hv) as (L1 & L2 & L3).
  assert (Hs : bit_length v <= 8 * s /\ 8 * (s - 1) <= bit_length v - 1 /\ 0 < s)
    by (unfold s; Z.div_mod_to_equations; lia).
  split; [lia|]; split.
  - apply (Z.le_trans _ (2 ^ (bit_length v - 1))); [apply Z.pow_le_mono_r; lia|exact L2].
  - apply (Z.lt_le_trans _ (2 ^ bit_length v)); [exact L3|apply Z.pow_le_mono_r; lia].
Qed.

Lemma compact_parts_spec a :
  limbs a -> length a = 8%nat -> 0 < val a ->
  let '(m, s) := compact_parts a in is_compact (val a) m s /\ s <= 33.
Proof.
  intros Ha Hl Hv; unfold compact_parts; rewrite bits_spec by exact Ha.
  pose proof (byte_size _ Hv) as (Hs & B1 & B2); pose proof (val_bound a Ha) as Bv.
  rewrite Hl in Bv; set (s := (bit_length (val a) + 7) / 8) in *; set (v := val a) in *.
  assert (Hs32 : s <= 32).
  { destruct (Z.le_gt_cases s 32) as [?|Hgt]; [assumption|].
    assert (2 ^ 256 <= 2 ^ (8 * (s - 1))) by (apply Z.pow_le_mono_r; lia).
    change (modulus 8) with (2 ^ 256) in Bv; lia. }
  set (n0 := if s <=? 3 then v * 2 ^ (8 * (3 - s)) else v / 2 ^ (8 * (s - 3))).
  assert (Hn0 : 2 ^ 16 <= n0 < 2 ^ 24).
  { unfold n0; destruct (Z.leb_spec s 3).
    - assert (s = 1 \/ s = 2 \/ s = 3) as [E|[E|E]] by lia; rewrite E in *; cbn in B1, B2 |- *; lia.
    - assert (Hp : 0 < 2 ^ (8 * (s - 3))) by (apply Z.pow_pos_nonneg; lia).
      split; [apply Z.div_le_lower_bound; [lia|]|apply Z.div_lt_upper_bound; [lia|]].
      + rewrite Z.mul_comm, <- Z.pow_add_r by lia; replace (16 + 8 * (s - 3)) with (8 * (s - 1)) by lia; lia.
      + rewrite <- Z.pow_add_r by lia; replace (8 * (s - 3) + 24) with (8 * s) by lia; lia. }
  replace (if s <=? 3 then _ else _) with n0.
  2:{ unfold n0; destruct (Z.leb_spec s 3).
      - rewrite GetLow64_spec by (assumption || lia); fold v.
        assert (2 ^ (8 * s) <= 2 ^ 24) by (apply Z.pow_le_mono_r; lia).
        rewrite (Z.mod_small v), Z.shiftl_mul_pow2 by lia.
        unfold n0 in Hn0; destruct (Z.leb_spec s 3); [|lia].
        rewrite T64_id, T32_id by (unfold u32, u64; lia); reflexivity.
      - destruct (val_op_shr a (8 * (s - 3)) Ha ltac:(lia)) as (R1 & R2 & R3).
        rewrite GetLow64_spec, R3 by (assumption || lia); fold v.
        unfold n0 in Hn0; destruct (Z.leb_spec s 3); [lia|].
        rewrite Z.mod_small, T32_id by (unfold u32; lia); reflexivity. }
  rewrite land_sign by lia; destruct (Z.ltb_spec n0 (2 ^ 23)); cbn [negb].
  - split; [|lia]; split; [lia|split; [lia|reflexivity]].
  - split; [|lia]; rewrite Z.shiftr_div_pow2 by lia.
    split; [lia|split; [Z.div_mod_to_equations; lia|]].
    unfold n0; destruct (Z.leb_spec s 3), (Z.leb_spec (s + 1) 3); try lia.
    + replace (2 ^ (8 * (3 - s))) with (2 ^ (8 * (3 - (s + 1))) * 2 ^ 8)
        by (rewrite <- Z.pow_add_r by lia; f_equal; lia).
      rewrite Z.mul_assoc, Z.div_mul by lia; reflexivity.
    + replace s with 3 by lia; cbn; rewrite Z.mul_1_r; reflexivity.
    + rewrite Z.div_div by (try apply Z.pow_nonzero; lia); rewrite <- Z.pow_add_r by lia.
      do 2 f_equal; lia.
Qed.

(** The number a compact value denotes: mantissa times [256 ^ (size - 3)]. *)
Definition compact_value (c : Z) : Z :=
  let s := c / 2 ^ 24 in
  let m := c mod 2 ^ 23 in
  if s <=? 3 then m / 2 ^ (8 * (3 - s)) else m * 2 ^ (8 * (s - 3)).

Lemma compact_fields c : u32 c ->
  c >> 24 = c / 2 ^ 24 /\ c .& 0x007FFFFF = c mod 2 ^ 23 /\ 0 <= c / 2 ^ 24 < 256 /\ 0 <= c mod 2 ^ 23 < 2 ^ 23.
Proof.
  intros Hc; split; [apply Z.shiftr_div_pow2; lia|]; split; [exact (Z.land_ones c 23 ltac:(lia))|].
  unfold u32 in Hc; split; [Z.div_mod_to_equations; lia|apply Z.mod_pos_bound; lia].
Qed.

(** The three size tests of [SetCompact] say exactly that the value needs more
    than 256 bits. *)
Lemma compact_overflow m s :
  0 <= m < 2 ^ 23 -> 3 < s ->
  negb (m =? 0) && ((34 <? s) || ((0xFF <? m) && (33 <? s)) || ((0xFFFF <? m) && (32 <? s)))
  = (2 ^ 256 <=? m * 2 ^ (8 * (s - 3))).
Proof.
  intros Hm Hs; assert (Hp : 0 < 2 ^ (8 * (s - 3))) by (apply Z.pow_pos_nonneg; lia).
  destruct (Z.eqb_spec m 0) as [->|H0]; cbn [negb andb].
  { symmetry; apply Z.leb_gt; lia. }
  destruct (Z.ltb_spec 34 s); cbn [orb].
  { symmetry; apply Z.leb_le.
    assert (2 ^ 256 <= 2 ^ (8 * (s - 3))) by (apply Z.pow_le_mono_r; lia); nia. }
  destruct (Z.ltb_spec 33 s).
  { assert (s = 34) as -> by lia; change (2 ^ (8 * (34 - 3))) with (2 ^ 248).
    destruct (Z.ltb_spec 0xFF m), (Z.ltb_spec 0xFFFF m), (Z.leb_spec (2 ^ 256) (m * 2 ^ 248)); cbn; lia || reflexivity. }
  destruct (Z.ltb_spec 32 s).
  { assert (s = 33) as -> by lia; change (2 ^ (8 * (33 - 3))) with (2 ^ 240).
    destruct (Z.ltb_spec 0xFF m), (Z.ltb_spec 0xFFFF m), (Z.leb_spec (2 ^ 256) (m * 2 ^ 240)); cbn; lia || reflexivity. }
  assert (2 ^ (8 * (s - 3)) <= 2 ^ 232) by (apply Z.pow_le_mono_r; lia).
  rewrite !andb_false_r; symmetry; apply Z.leb_gt; nia.
Qed.

Lemma SetCompact_spec c : u32 c ->
  let '(a, neg, ovf) := SetCompact c in
  limbs a /\ length a = 8%nat /\ val a = compact_value c mod 2 ^ 256 /\
  neg = negb (compact_value c =? 0) && negb (c .& 0x00800000 =? 0) /\
  ovf = (2 ^ 256 <=? compact_value c).
Proof.
  intros Hc; destruct (compact_fields c Hc) as (E1 & E2 & Hs & Hm).
  unfold SetCompact, compact_value; rewrite E1, E2.
  set (s := c / 2 ^ 24) in *; set (m := c mod 2 ^ 23) in *.
  destruct (Z.leb_spec s 3) as [H3|H3].
  - assert (Hp : 0 < 2 ^ (8 * (3 - s))) by (apply Z.pow_pos_nonneg; lia).
    rewrite Z.shiftr_div_pow2 by lia; set (e := m / 2 ^ (8 * (3 - s))).
    assert (He : 0 <= e < 2 ^ 23).
    { split; [apply Z.div_pos; lia|apply Z.div_lt_upper_bound; nia]. }
    destruct (val_of_u64 8 e ltac:(lia)) as (V1 & V2 & V3); [unfold u64; lia|].
    split; [exact V1|split; [exact V2|split; [rewrite V3, Z.mod_small; lia|split; [reflexivity|]]]].
    destruct (Z.ltb_spec 34 s), (Z.ltb_spec 33 s), (Z.ltb_spec 32 s); lia.
  - destruct (val_of_u64 8 m ltac:(lia)) as (V1 & V2 & V3); [unfold u64; lia|].
    destruct (val_op_shl (of_u64 8 m) (8 * (s - 3)) V1 ltac:(lia)) as (S1 & S2 & S3).
    assert (Hp : 0 < 2 ^ (8 * (s - 3))) by (apply Z.pow_pos_nonneg; lia).
    split; [exact S1|split; [lia|split; [rewrite S3, V2, V3; reflexivity|split]]].
    + f_equal; f_equal; destruct (Z.eqb_spec m 0), (Z.eqb_spec (m * 2 ^ (8 * (s - 3))) 0); nia || reflexivity.
    + apply compact_overflow; lia.
Qed.

(** Packing mantissa and size, and reading them back. *)
Lemma compact_pack m s : 0 <= m < 2 ^ 23 -> 0 <= s < 256 ->
  m .| T32 (s << 24) = m + s * 2 ^ 24.
Proof.
  intros Hm Hs; rewrite Z.shiftl_mul_pow2, T32_id by (unfold u32; lia).
  assert (Hl : m .& (s * 2 ^ 24) = 0).
  { apply Z.bits_inj'; intros i Hi; rewrite Z.land_spec, Z.bits_0.
    destruct (Z.lt_ge_cases i 24).
    - rewrite Z.mul_pow2_bits, (Z.testbit_neg_r s) by lia; apply andb_false_r.
    - rewrite (in_width_high 23 m) by (lia || (split; lia)); reflexivity. }
  rewrite <- Z.lxor_lor, <- Z.add_nocarry_lxor by exact Hl; reflexivity.
Qed.

Lemma GetCompact_pos a :
  limbs a -> length a = 8%nat -> 0 < val a ->
  exists m s, is_compact (val a) m s /\ s <= 33 /\ compact_parts a = (m, s) /\
    GetCompact a false = m + s * 2 ^ 24.
Proof.
  intros Ha Hl Hv; pose proof (compact_parts_spec a Ha Hl Hv) as H; unfold GetCompact.
  destruct (compact_parts a) as [m s] eqn:E; destruct H as [C Hs]; exists m, s.
  split; [exact C|split; [exact Hs|split; [reflexivity|]]]; cbn [andb]; rewrite Z.lor_0_r.
  destruct C as (H0 & Hm & _); apply compact_pack; lia.
Qed.

Lemma compact_value_pack m s : 0 <= m < 2 ^ 23 -> 0 <= s < 256 ->
  compact_value (m + s * 2 ^ 24) = if s <=? 3 then m / 2 ^ (8 * (3 - s)) else m * 2 ^ (8 * (s - 3)).
Proof.
  intros Hm Hs; unfold compact_value.
  rewrite Z.div_add, Z.div_small by lia; rewrite Z.add_0_l.
  replace (m + s * 2 ^ 24) with (m + (2 * s) * 2 ^ 23) by ring.
  rewrite Z.mod_add, Z.mod_small by lia; reflexivity.
Qed.

(** Decoding what [GetCompact] encoded keeps the leading bytes. *)
Lemma is_compact_decode v m s :
  is_compact v m s -> s <= 33 -> v < 2 ^ 256 ->
  let e := compact_value (m + s * 2 ^ 24) in
  is_compact e m s /\ e <= v < e + 2 ^ (8 * (s - 3)) + (if s <=? 3 then 1 else 0) /\ e < 2 ^ 256.
Proof.
  intros (Hs & Hm & E) H33 Hv e; unfold e; rewrite compact_value_pack by lia.
  unfold is_compact; destruct (Z.leb_spec s 3) as [H3|H3].
  - assert (Hp : 0 < 2 ^ (8 * (3 - s))) by (apply Z.pow_pos_nonneg; lia).
    assert (Ev : m / 2 ^ (8 * (3 - s)) = v) by (rewrite E; apply Z.div_mul; lia).
    assert (0 <= 2 ^ (8 * (s - 3))) by (apply Z.pow_nonneg; lia).
    rewrite Ev; repeat split; lia.
  - assert (Hp : 0 < 2 ^ (8 * (s - 3))) by (apply Z.pow_pos_nonneg; lia).
    rewrite Z.div_mul by lia.
    pose proof (Z.div_mod v (2 ^ (8 * (s - 3))) ltac:(lia)).
    pose proof (Z.mod_pos_bound v (2 ^ (8 * (s - 3))) Hp).
    repeat split; lia.
Qed.

(** ** What the operators compute *)

(** On arrays of the same width the operators of [base_uint] are ring
    arithmetic modulo [2 ^ BITS], and no 64-bit intermediate of their carry
    loops overflows on the way. *)
Theorem base_uint_ring a b b32 :
  limbs a -> limbs b -> length b = length a -> u32 b32 ->
  let M := modulus (length a) in
  val (op_add a b) = (val a + val b) mod M /\
  val (op_sub a b) = (val a - val b) mod M /\
  val (op_mul a b) = (val a * val b) mod M /\
  val (op_mul32 a b32) = (val a * b32) mod M /\
  val (op_neg a) = (- val a) mod M /\
  val (op_not a) = M - 1 - val a /\
  val (op_inc a) = (val a + 1) mod M /\
  val (op_dec a) = (val a - 1) mod M.
Proof.
  intros Ha Hb Hl H32; cbv zeta; repeat split;
    auto using val_op_add, val_op_sub, val_op_neg, val_op_not, val_op_inc, val_op_dec.
  - apply val_op_mul; assumption.
  - rewrite Z.mul_comm; apply val_op_mul32; assumption.
Qed.

Lemma base_uint_ring_witness :
  limbs [0xFFFFFFFF; 0xFFFFFFFF] /\
  val (op_mul [0xFFFFFFFF; 0xFFFFFFFF] [0xFFFFFFFF; 3])
  = (val [0xFFFFFFFF; 0xFFFFFFFF] * val [0xFFFFFFFF; 3]) mod modulus 2.
Proof.
  assert (H : limbs [0xFFFFFFFF; 0xFFFFFFFF]) by (repeat constructor; unfold u32; lia).
  split; [exact H|].
  apply (base_uint_ring [0xFFFFFFFF; 0xFFFFFFFF] [0xFFFFFFFF; 3] 7);
    [exact H|repeat constructor; unfold u32; lia|reflexivity|unfold u32; lia].
Defined.

(** Shifting by any count, also past the width, multiplies modulo
    [2 ^ BITS] or divides by the power of two; no bit is lost or misplaced
    where limbs meet, and a count that is a multiple of 32 is not special. *)
Theorem base_uint_shift a n :
  limbs a -> 0 <= n ->
  val (op_shl a n) = (val a * 2 ^ n) mod modulus (length a) /\ val (op_shr a n) = val a / 2 ^ n /\
  limbs (op_shl a n) /\ limbs (op_shr a n).
Proof.
  intros Ha Hn; destruct (val_op_shl a n Ha Hn) as (S1 & _ & S3), (val_op_shr a n Ha Hn) as (R1 & _ & R3); auto.
Qed.

Lemma base_uint_shift_witness :
  limbs [0x80000001; 5] /\ val (op_shl [0x80000001; 5] 33) = (val [0x80000001; 5] * 2 ^ 33) mod modulus 2.
Proof.
  assert (H : limbs [0x80000001; 5]) by (repeat constructor; unfold u32; lia).
  split; [exact H|apply (base_uint_shift _ 33 H); lia].
Defined.

(** The comparison operators decide the order of the numbers, and equality
    of the arrays is equality of the numbers. *)
Theorem base_uint_order a b :
  limbs a -> limbs b -> length a = length b ->
  op_lt a b = (val a <? val b) /\ op_le a b = (val a <=? val b) /\
  op_gt a b = (val b <? val a) /\ op_ge a b = (val b <=? val a) /\
  op_eq a b = (val a =? val b) /\ (op_eq a b = true <-> a = b).
Proof.
  intros Ha Hb Hl; repeat split; auto using op_lt_spec, op_le_spec, op_gt_spec, op_ge_spec, op_eq_val;
    apply op_eq_spec.
Qed.

Lemma base_uint_order_witness :
  limbs [7; 1] /\ limbs [9; 0] /\ op_lt [9; 0] [7; 1] = (val [9; 0] <? val [7; 1]).
Proof.
  assert (H : limbs [7; 1]) by (repeat constructor; unfold u32; lia).
  assert (H' : limbs [9; 0]) by (repeat constructor; unfold u32; lia).
  split; [exact H|split; [exact H'|exact (proj1 (base_uint_order [9; 0] [7; 1] H' H eq_refl))]].
Defined.

(** Long division terminates with the floor of the quotient, and throws
    exactly when the divisor is 0. *)
Theorem base_uint_division a b :
  limbs a -> limbs b -> length b = length a ->
  (op_div a b = None <-> val b = 0) /\
  (forall q, op_div a b = Some q -> limbs q /\ length q = length a /\ val q = val a / val b).
Proof.
  intros Ha Hb Hl; pose proof (op_div_spec a b Ha Hb Hl) as H; destruct (op_div a b) as [q|].
  - split; [split; [discriminate|tauto]|]; intros q' [= <-]; tauto.
  - split; [tauto|discriminate].
Qed.

Lemma base_uint_division_witness :
  limbs [0; 0; 1] /\ limbs [3; 0; 0] /\ op_div [0; 0; 1] [3; 0; 0] = Some [0x55555555; 0x55555555; 0] /\
  val [0x55555555; 0x55555555; 0] = val [0; 0; 1] / val [3; 0; 0].
Proof.
  assert (H : limbs [0; 0; 1]) by (repeat constructor; unfold u32; lia).
  assert (H' : limbs [3; 0; 0]) by (repeat constructor; unfold u32; lia).
  split; [exact H|split; [exact H'|split; [vm_compute; reflexivity|]]].
  apply (proj2 (base_uint_division _ _ H H' eq_refl)); vm_compute; reflexivity.
Defined.

(** [SetCompact] stores the value the compact number denotes modulo
    2^256; its overflow flag is set exactly when that value does not fit in
    256 bits, its sign flag exactly for a negative non-zero number. *)
Theorem SetCompact_value c :
  u32 c ->
  let '(a, neg, ovf) := SetCompact c in
  limbs a /\ length a = 8%nat /\ val a = compact_value c mod 2 ^ 256 /\
  (neg = true <-> compact_value c <> 0 /\ c .& 0x00800000 <> 0) /\
  (ovf = true <-> 2 ^ 256 <= compact_value c).
Proof.
  intros Hc; pose proof (SetCompact_spec c Hc) as H; destruct (SetCompact c) as [[a neg] ovf].
  destruct H as (H1 & H2 & H3 & -> & ->).
  rewrite andb_true_iff, !negb_true_iff, !Z.eqb_neq, Z.leb_le; tauto.
Qed.

Lemma SetCompact_value_witness :
  u32 0x1e0ffff0 /\ val (fst (fst (SetCompact 0x1e0ffff0))) = compact_value 0x1e0ffff0 mod 2 ^ 256.
Proof.
  assert (H : u32 0x1e0ffff0) by (unfold u32; lia).
  split; [exact H|].
  pose proof (SetCompact_value 0x1e0ffff0 H) as T; destruct (SetCompact 0x1e0ffff0) as [[a neg] ovf].
  apply T.
Defined.

(** [GetCompact] never fails its assertions on a 256-bit number, and the
    compact number it returns decodes without sign or overflow to the number
    cut to its leading bytes; encoding that again gives the same compact
    number. *)
Theorem compact_roundtrip a :
  limbs a -> length a = 8%nat ->
  GetCompact_asserts a = true /\
  let c := GetCompact a false in
  let '(a', neg, ovf) := SetCompact c in
  neg = false /\ ovf = false /\
  val a' <= val a /\ (val a - val a') * 2 ^ 15 <= val a /\
  GetCompact a' false = c.
Proof.
  intros Ha Hl; pose proof (val_bound a Ha) as Bv; rewrite Hl in Bv; change (modulus 8) with (2 ^ 256) in Bv.
  destruct (Z.eq_dec (val a) 0) as [E0|E0].
  { assert (a = repeat 0 8) as ->.
    { apply val_inj; rewrite ?val_repeat, ?repeat_length; auto using limbs_repeat. }
    split; [reflexivity|]; vm_compute; repeat split; congruence. }
  destruct (GetCompact_pos a Ha Hl ltac:(lia)) as (m & s & C & Hs & Ep & Ec).
  pose proof C as (H0 & Hm & Em); cbv zeta; rewrite Ec.
  split.
  { unfold GetCompact_asserts; rewrite Ep, andb_true_iff; split; [|apply Z.ltb_lt; lia].
    apply Z.eqb_eq, Z.bits_inj'; intros i Hi; rewrite Z.land_spec, Z.bits_0.
    destruct (Z.lt_ge_cases i 23).
    - change (NOT32 0x7FFFFF) with ((2 ^ 9 - 1) << 23); rewrite Z.shiftl_spec, (Z.testbit_neg_r (2 ^ 9 - 1)) by lia.
      apply andb_false_r.
    - rewrite (in_width_high 23 m) by (lia || (split; lia)); reflexivity. }
  assert (Hu : u32 (m + s * 2 ^ 24)) by (unfold u32; lia).
  pose proof (SetCompact_spec _ Hu) as S; destruct (SetCompact (m + s * 2 ^ 24)) as [[a' neg] ovf].
  destruct S as (S1 & S2 & S3 & -> & ->).
  destruct (is_compact_decode _ _ _ C Hs ltac:(lia)) as (D1 & D2 & D3); set (e := compact_value _) in *.
  pose proof (is_compact_bounds _ _ _ D1) as (_ & _ & De).
  rewrite Z.mod_small in S3 by lia.
  assert (Hbit : (m + s * 2 ^ 24) .& 0x00800000 = 0).
  { apply Z.bits_inj'; intros i Hi; rewrite Z.land_spec, Z.bits_0.
    change 0x00800000 with (2 ^ 23); rewrite Z.pow2_bits_eqb by lia.
    destruct (Z.eqb_spec 23 i) as [<-|]; [|apply andb_false_r]; rewrite andb_true_r.
    rewrite <- (Z.mod_pow2_bits_low _ 24), Z.mod_add, Z.mod_small by lia.
    apply (in_width_high 23); [lia|split; lia|lia]. }
  rewrite Hbit, andb_false_r; split; [reflexivity|split; [apply Z.leb_gt; lia|split; [lia|split]]].
  - rewrite S3; clear - C D2 De; destruct C as (H0 & Hm & Em), (Z.leb_spec s 3) as [H3|H3].
    + destruct (Z.eq_dec s 3) as [->|]; [cbn in D2; lia|].
      rewrite (Z.pow_neg_r 2 (8 * (s - 3))) in D2 by lia; lia.
    + assert (Hp : 0 < 2 ^ (8 * (s - 3))) by (apply Z.pow_pos_nonneg; lia).
      pose proof (Z.div_mod (val a) (2 ^ (8 * (s - 3))) ltac:(lia)); pose proof (Z.mod_pos_bound (val a) _ Hp); nia.
  - destruct (GetCompact_pos a' S1 S2 ltac:(lia)) as (m' & s' & C' & Hs' & Ep' & Ec').
    rewrite S3 in C'; destruct (is_compact_unique _ _ _ _ _ D1 C') as [-> ->]; exact Ec'.
Qed.

Lemma compact_roundtrip_witness :
  limbs [0; 0; 0; 0; 0; 0; 0xABCDEF; 0] /\
  GetCompact_asserts [0; 0; 0; 0; 0; 0; 0xABCDEF; 0] = true /\
  GetCompact [0; 0; 0; 0; 0; 0; 0xABCDEF; 0] false = 0x1c00abcd.
Proof.
  assert (H : limbs [0; 0; 0; 0; 0; 0; 0xABCDEF; 0]) by (repeat constructor; unfold u32; lia).
  split; [exact H|split; [exact (proj1 (compact_roundtrip _ H eq_refl))|vm_compute; reflexivity]].
Defined.

End BaseUint.
