(* ===== verification/Hex.v ===== *)
(** Hexadecimal text: the digit table of [src/src/utilstrencodings.cpp] and
    the conversions [GetHex]/[SetHex] of [src/src/uint256.cpp].

    A C string is the list of its characters without the final NUL; reading
    past its end gives 0, which is the NUL. *)
From S2P Require Import Prelude SphTypes BaseUint.

Module Hex.
Import BaseUint.

Definition p_util_hexdigit : list Z :=
  [-1; -1; -1; -1; -1; -1; -1; -1; -1; -1; -1; -1; -1; -1; -1; -1;
   -1; -1; -1; -1; -1; -1; -1; -1; -1; -1; -1; -1; -1; -1; -1; -1;
   -1; -1; -1; -1; -1; -1; -1; -1; -1; -1; -1; -1; -1; -1; -1; -1;
   0; 1; 2; 3; 4; 5; 6; 7; 8; 9; -1; -1; -1; -1; -1; -1;
   -1; 10; 11; 12; 13; 14; 15; -1; -1; -1; -1; -1; -1; -1; -1; -1;
   -1; -1; -1; -1; -1; -1; -1; -1; -1; -1; -1; -1; -1; -1; -1; -1;
   -1; 10; 11; 12; 13; 14; 15; -1; -1; -1; -1; -1; -1; -1; -1; -1;
   -1; -1; -1; -1; -1; -1; -1; -1; -1; -1; -1; -1; -1; -1; -1; -1;
   -1; -1; -1; -1; -1; -1; -1; -1; -1; -1; -1; -1; -1; -1; -1; -1;
   -1; -1; -1; -1; -1; -1; -1; -1; -1; -1; -1; -1; -1; -1; -1; -1;
   -1; -1; -1; -1; -1; -1; -1; -1; -1; -1; -1; -1; -1; -1; -1; -1;
   -1; -1; -1; -1; -1; -1; -1; -1; -1; -1; -1; -1; -1; -1; -1; -1;
   -1; -1; -1; -1; -1; -1; -1; -1; -1; -1; -1; -1; -1; -1; -1; -1;
   -1; -1; -1; -1; -1; -1; -1; -1; -1; -1; -1; -1; -1; -1; -1; -1;
   -1; -1; -1; -1; -1; -1; -1; -1; -1; -1; -1; -1; -1; -1; -1; -1;
   -1; -1; -1; -1; -1; -1; -1; -1; -1; -1; -1; -1; -1; -1; -1; -1].

Definition HexDigit (c : Z) : Z := p_util_hexdigit.[Z.to_nat (T8 c)].

(** [isspace] of the C locale, [tolower]. *)
Definition isspace (c : Z) : bool := (c =? 32) || ((9 <=? c) && (c <=? 13)).
Definition tolower (c : Z) : Z := if (65 <=? c) && (c <=? 90) then c + 32 else c.

(** [while (isspace( *psz)) psz++]. *)
Fixpoint skip_spaces (s : list Z) : list Z :=
  match s with
  | c :: r => if isspace c then skip_spaces r else s
  | [] => []
  end.

(** [while (HexDigit( *psz) != -1) psz++]: the characters scanned. *)
Fixpoint take_digits (s : list Z) : list Z :=
  match s with
  | c :: r => if HexDigit c =? -1 then [] else c :: take_digits r
  | [] => []
  end.

(** The loop that fills the bytes [p1..pend-1], [n] of them, reading the
    digits backwards. *)
Fixpoint fill (n : nat) (digits : list Z) : list Z :=
  match n, digits with
  | O, _ => []
  | S n, [] => 0 :: fill n []
  | S n, [c] => T8 (HexDigit c) :: fill n []
  | S n, c :: c' :: r => (T8 (HexDigit c) .| T8 (T8 (HexDigit c') << 4)) :: fill n r
  end.

(** The bytes of [pn] in memory, and [pn] from its bytes. *)
Definition bytes (a : base_uint) : list Z := flat_map sph_enc32le a.
Definition of_bytes (w : nat) (b : list Z) : base_uint := words32le w b.

Definition skip_0x (s : list Z) : list Z :=
  if (s.[0] =? 48) && (tolower s.[1] =? 120) then skipn 2 s else s.

Definition SetHex (w : nat) (psz : list Z) : base_uint :=
  of_bytes w (fill (4 * w) (rev (take_digits (skip_0x (skip_spaces psz))))).

(** [sprintf("%02x")] of a byte. *)
Definition hexchar (d : Z) : Z := if d <? 10 then 48 + d else 87 + d.
Definition sprintf02x (b : Z) : list Z := [hexchar (b / 16); hexchar (b mod 16)].

Definition GetHex (a : base_uint) : list Z := flat_map sprintf02x (rev (bytes a)).
Definition ToString (a : base_uint) : list Z := GetHex a.
Definition ToStringReverseEndian (a : base_uint) : list Z := flat_map sprintf02x (bytes a).

(** ** Round trip *)

Definition is_hex (c : Z) : bool :=
  negb (HexDigit c =? -1) && negb (isspace c) && negb (tolower c =? 120).

Lemma hexchar_digit b : u8 b ->
  HexDigit (hexchar (b mod 16)) = b mod 16 /\ HexDigit (hexchar (b / 16)) = b / 16 /\
  is_hex (hexchar (b mod 16)) = true /\ is_hex (hexchar (b / 16)) = true.
Proof.
  intros Hb.
  pose proof (forall_u8 (fun b => (HexDigit (hexchar (b mod 16)) =? b mod 16) &&
    (HexDigit (hexchar (b / 16)) =? b / 16) && is_hex (hexchar (b mod 16)) && is_hex (hexchar (b / 16)))
    ltac:(vm_compute; reflexivity) b Hb) as H; cbv beta in H.
  rewrite !andb_true_iff, !Z.eqb_eq in H; tauto.
Qed.

Lemma nibbles b : u8 b -> T8 (b mod 16) .| T8 (T8 (b / 16) << 4) = b.
Proof.
  intros Hb; apply Z.eqb_eq.
  exact (forall_u8 (fun b => T8 (b mod 16) .| T8 (T8 (b / 16) << 4) =? b) ltac:(vm_compute; reflexivity) b Hb).
Qed.

Lemma fill_rev_hex b : Forall u8 b -> fill (length b) (rev (flat_map sprintf02x (rev b))) = b.
Proof.
  induction 1 as [|x b Hx Hb IH]; [reflexivity|].
  cbn [rev length]; rewrite flat_map_app, rev_app_distr; cbn [flat_map sprintf02x app rev].
  destruct (hexchar_digit x Hx) as (E1 & E2 & _ & _); cbn [fill].
  rewrite E1, E2, IH, nibbles by exact Hx; reflexivity.
Qed.

Lemma hex_text b : Forall u8 b -> forallb is_hex (flat_map sprintf02x b) = true.
Proof.
  induction 1 as [|x b Hx Hb IH]; [reflexivity|].
  cbn [flat_map sprintf02x app forallb]; destruct (hexchar_digit x Hx) as (_ & _ & E1 & E2).
  rewrite E1, E2; exact IH.
Qed.

Lemma take_hex s : forallb is_hex s = true -> take_digits s = s.
Proof.
  induction s as [|c s IH]; [reflexivity|]; cbn [forallb take_digits]; unfold is_hex at 1.
  rewrite !andb_true_iff; intros [[[H1 _] _] H2]; apply negb_true_iff in H1; rewrite H1, IH by exact H2; reflexivity.
Qed.

Lemma hex_no_prefix s : forallb is_hex s = true -> skip_0x (skip_spaces s) = s.
Proof.
  destruct s as [|c [|c' s]]; cbn [forallb]; try reflexivity; unfold is_hex; rewrite ?andb_true_iff, ?negb_true_iff.
  - intros [[[_ H] _] _]; cbn [skip_spaces]; rewrite H; unfold skip_0x, get; cbn [nth].
    change (tolower 0 =? 120) with false; rewrite andb_false_r; reflexivity.
  - intros [[[_ H] _] [[_ H'] _]]; cbn [skip_spaces]; rewrite H; unfold skip_0x, get; cbn [nth].
    rewrite H', andb_false_r; reflexivity.
Qed.

Lemma words_bytes a : limbs a -> words32le (length a) (flat_map sph_enc32le a) = a.
Proof.
  unfold words32le; induction 1 as [|x a Hx Ha IH]; [reflexivity|].
  cbn [length seq map]; f_equal; [exact (dec_enc32le x Hx)|].
  rewrite <- seq_shift, map_map; transitivity (map (fun k => sph_dec32le (skipn (4 * k) (flat_map sph_enc32le a))) (seq 0 (length a))); [|exact IH].
  apply map_ext; intros k; replace (4 * S k)%nat with (4 + 4 * k)%nat by lia; reflexivity.
Qed.

Lemma bytes_u8 a : Forall u8 (bytes a).
Proof.
  unfold bytes; induction a as [|x a IH]; [constructor|]; cbn [flat_map].
  apply Forall_app; split; [rewrite enc32le_bytes; apply le_bytes_u8|exact IH].
Qed.

Lemma bytes_length a : length (bytes a) = (4 * length a)%nat.
Proof. induction a as [|x a IH]; [reflexivity|]; unfold bytes in *; cbn [flat_map length]; rewrite length_app, enc32le_length; lia. Qed.

(** Reading back the hexadecimal text of a number gives the number, also
    after leading spaces and a [0x] prefix. *)
Theorem SetHex_GetHex a :
  limbs a ->
  SetHex (length a) (GetHex a) = a /\ SetHex (length a) (32 :: 9 :: 48 :: 120 :: GetHex a) = a.
Proof.
  intros Ha.
  assert (Hh : forallb is_hex (GetHex a) = true) by (apply hex_text, Forall_rev, bytes_u8).
  assert (Hf : fill (4 * length a) (rev (GetHex a)) = bytes a).
  { rewrite <- bytes_length; apply fill_rev_hex, bytes_u8. }
  unfold SetHex; split; [rewrite hex_no_prefix by exact Hh|change (skip_0x _) with (GetHex a)];
    rewrite take_hex, Hf by exact Hh; apply words_bytes, Ha.
Qed.

Lemma SetHex_GetHex_witness :
  limbs [0xDEADBEEF; 1] /\ SetHex 2 (GetHex [0xDEADBEEF; 1]) = [0xDEADBEEF; 1].
Proof.
  assert (H : limbs [0xDEADBEEF; 1]) by (repeat constructor; unfold u32; lia).
  split; [exact H|exact (proj1 (SetHex_GetHex _ H))].
Defined.

End Hex.
