(* ===== verification/Uint256.v ===== *)
(** 256-bit numbers: [uint256] of [src/src/uint256.h], that is
    [base_uint<256>], seen from its clients.

    [u256 a v] says that the array [a] is a well-formed [uint256] holding the
    number [v]; each operation of [BaseUint] has one lemma that takes such
    facts to such a fact, so a client computes with numbers and discharges the
    limbs with [auto with u256]. *)
From S2P Require Import Prelude SphTypes BaseUint.

Module Uint256.
Import BaseUint.

Definition WIDTH : nat := 8.

Definition u256 (a : base_uint) (v : Z) : Prop := limbs a /\ length a = WIDTH /\ val a = v.

(** [uint256(uint64_t)]. *)
Definition uint256 (b : Z) : base_uint := of_u64 WIDTH b.

(** [uint256().SetCompact(nBits)]: the flags are not asked for. *)
Definition target_of (nBits : Z) : base_uint := fst (fst (SetCompact nBits)).

(** [uint256_max >> n], the form every limit of the program is written in. *)
Definition limit_shr (n : Z) : base_uint := op_shr (op_not (uint256 0)) n.

Create HintDb u256 discriminated.

Lemma modulus_8 : modulus WIDTH = 2 ^ 256.
Proof. reflexivity. Qed.

Lemma u256_val a : limbs a -> length a = WIDTH -> u256 a (val a).
Proof. repeat split; assumption. Qed.

Lemma u256_range a v : u256 a v -> 0 <= v < 2 ^ 256.
Proof. intros (Ha & Hl & <-); rewrite <- modulus_8, <- Hl; apply val_bound, Ha. Qed.

Lemma u256_inj a b v : u256 a v -> u256 b v -> a = b.
Proof. intros (Ha & Hl & E) (Hb & Hm & F); apply val_inj; assumption || congruence. Qed.

Lemma u256_uint256 b : u64 b -> u256 (uint256 b) b.
Proof. intros Hb; apply (val_of_u64 8 b); [lia|exact Hb]. Qed.

Lemma u256_add a b x y : u256 a x -> u256 b y -> u256 (op_add a b) ((x + y) mod 2 ^ 256).
Proof.
  intros (Ha & Hl & <-) (Hb & Hm & <-); split; [apply limbs_op_add|split].
  - rewrite length_op_add; congruence.
  - rewrite <- modulus_8, <- Hl; apply val_op_add; assumption || congruence.
Qed.

Lemma u256_mul a b x y : u256 a x -> u256 b y -> u256 (op_mul a b) ((x * y) mod 2 ^ 256).
Proof.
  intros (Ha & Hl & <-) (Hb & Hm & <-); destruct (val_op_mul a b Ha Hb ltac:(congruence)) as (H1 & H2 & H3).
  split; [exact H1|split; [congruence|rewrite H3, Hl; reflexivity]].
Qed.

Lemma u256_mul32 a x b : u256 a x -> u32 b -> u256 (op_mul32 a b) ((x * b) mod 2 ^ 256).
Proof.
  intros (Ha & Hl & <-) Hb; split; [apply limbs_mul32_loop|split].
  - unfold op_mul32; rewrite length_mul32_loop; exact Hl.
  - rewrite <- modulus_8, <- Hl, (Z.mul_comm (val a)); apply val_op_mul32; assumption.
Qed.

Lemma u256_not a x : u256 a x -> u256 (op_not a) (2 ^ 256 - 1 - x).
Proof.
  intros (Ha & Hl & <-); split; [apply limbs_op_not, Ha|split].
  - rewrite length_op_not; exact Hl.
  - rewrite <- modulus_8, <- Hl; apply val_op_not, Ha.
Qed.

Lemma u256_shr a x n : u256 a x -> 0 <= n -> u256 (op_shr a n) (x / 2 ^ n).
Proof.
  intros (Ha & Hl & <-) Hn; destruct (val_op_shr a n Ha Hn) as (H1 & H2 & H3).
  split; [exact H1|split; [congruence|exact H3]].
Qed.

Lemma u256_shl a x n : u256 a x -> 0 <= n -> u256 (op_shl a n) ((x * 2 ^ n) mod 2 ^ 256).
Proof.
  intros (Ha & Hl & <-) Hn; destruct (val_op_shl a n Ha Hn) as (H1 & H2 & H3).
  split; [exact H1|split; [congruence|rewrite H3, Hl; reflexivity]].
Qed.

Lemma u256_div a b x y : u256 a x -> u256 b y ->
  match op_div a b with None => y = 0 | Some q => y <> 0 /\ u256 q (x / y) end.
Proof.
  intros (Ha & Hl & <-) (Hb & Hm & <-); pose proof (op_div_spec a b Ha Hb ltac:(congruence)) as H.
  destruct (op_div a b) as [q|]; [|exact H]; destruct H as (H0 & H1 & H2 & H3).
  split; [exact H0|split; [exact H1|split; [congruence|exact H3]]].
Qed.

Lemma u256_div_pos a b x y : u256 a x -> u256 b y -> y <> 0 ->
  exists q, op_div a b = Some q /\ u256 q (x / y).
Proof.
  intros Ha Hb Hy; pose proof (u256_div a b x y Ha Hb) as H; destruct (op_div a b) as [q|]; [|contradiction].
  exists q; split; [reflexivity|apply H].
Qed.

Lemma u256_gt a b x y : u256 a x -> u256 b y -> op_gt a b = (y <? x).
Proof. intros (Ha & Hl & <-) (Hb & Hm & <-); apply op_gt_spec; assumption || congruence. Qed.

Lemma u256_lt a b x y : u256 a x -> u256 b y -> op_lt a b = (x <? y).
Proof. intros (Ha & Hl & <-) (Hb & Hm & <-); apply op_lt_spec; assumption || congruence. Qed.

Lemma u256_ge a b x y : u256 a x -> u256 b y -> op_ge a b = (y <=? x).
Proof. intros (Ha & Hl & <-) (Hb & Hm & <-); apply op_ge_spec; assumption || congruence. Qed.

Lemma u256_le a b x y : u256 a x -> u256 b y -> op_le a b = (x <=? y).
Proof. intros (Ha & Hl & <-) (Hb & Hm & <-); apply op_le_spec; assumption || congruence. Qed.

Lemma u256_eq a b x y : u256 a x -> u256 b y -> op_eq a b = (x =? y).
Proof. intros (Ha & Hl & <-) (Hb & Hm & <-); apply op_eq_val; assumption || congruence. Qed.

Lemma forallb_zero l : limbs l -> forallb (fun x => x =? 0) l = (val l =? 0).
Proof.
  induction 1 as [|x l Hx Hl IH]; [reflexivity|]; cbn [forallb val]; rewrite IH.
  pose proof (val_bound l Hl); unfold u32 in Hx.
  destruct (Z.eqb_spec x 0), (Z.eqb_spec (val l) 0), (Z.eqb_spec (x + 2 ^ 32 * val l) 0); cbn; lia.
Qed.

(** [a == 0], through [EqualTo(uint64_t)]. *)
Lemma u256_is0 a x : u256 a x -> EqualTo a 0 = (x =? 0).
Proof.
  intros (Ha & Hl & <-); destruct a as [|x0 [|x1 r]]; try discriminate Hl.
  unfold EqualTo; cbn [skipn]; change (x0 :: x1 :: r).[1] with x1; change (x0 :: x1 :: r).[0] with x0.
  change (0 >> 32) with 0; change (0 .& 0xFFFFFFFF) with 0.
  assert (Hr : limbs (x0 :: x1 :: r)) by exact Ha; inversion_clear Hr as [|? ? H0 H1]; inversion_clear H1 as [|? ? H1' Hr].
  rewrite forallb_zero by exact Hr; cbn [val]; pose proof (val_bound r Hr); unfold u32 in *.
  destruct (Z.eqb_spec (val r) 0), (Z.eqb_spec x1 0), (Z.eqb_spec x0 0),
    (Z.eqb_spec (x0 + 2 ^ 32 * (x1 + 2 ^ 32 * val r)) 0); cbn; lia.
Qed.

#[export] Hint Resolve u256_uint256 u256_add u256_mul u256_mul32 u256_not u256_shr u256_shl : u256.

Lemma u256_limit n : 0 <= n -> u256 (limit_shr n) ((2 ^ 256 - 1) / 2 ^ n).
Proof.
  intros Hn; replace (2 ^ 256 - 1) with (2 ^ 256 - 1 - 0) by lia.
  apply u256_shr; [apply u256_not, u256_uint256; unfold u64; lia|exact Hn].
Qed.

(** ** Compact targets *)

Lemma u256_target c : u32 c -> u256 (target_of c) (compact_value c mod 2 ^ 256).
Proof.
  intros Hc; pose proof (SetCompact_spec c Hc) as H; unfold target_of.
  destruct (SetCompact c) as [[a neg] ovf]; cbn [fst]; unfold u256; tauto.
Qed.

(** What [GetCompact] gives is a 32-bit number that decodes without sign or
    overflow to the number cut to its leading bytes, which are not all 0. *)
Lemma u256_GetCompact a v : u256 a v ->
  let c := GetCompact a false in
  u32 c /\ exists e, SetCompact c = (target_of c, false, false) /\ u256 (target_of c) e /\
    compact_value c = e /\ 0 <= e <= v /\ (0 < v -> 0 < e) /\ (v - e) * 2 ^ 15 <= v.
Proof.
  intros Ha c; pose proof (u256_range a v Ha) as Hv; destruct Ha as (Ha & Hl & <-).
  destruct (Z.eq_dec (val a) 0) as [E0|E0].
  { assert (a = repeat 0 8) as ->.
    { apply val_inj; rewrite ?val_repeat, ?repeat_length; auto using limbs_repeat. }
    vm_compute in c; subst c; split; [unfold u32; lia|]; exists 0; split; [reflexivity|].
    split; [apply (u256_target 0); unfold u32; lia|]; vm_compute; repeat split; congruence. }
  destruct (GetCompact_pos a Ha Hl ltac:(lia)) as (m & s & C & Hs & _ & Ec).
  pose proof C as (H0 & Hm & Em).
  assert (Hu : u32 c) by (unfold c; rewrite Ec; unfold u32; lia); split; [exact Hu|].
  destruct (is_compact_decode _ _ _ C Hs ltac:(lia)) as (D1 & D2 & D3); rewrite <- Ec in D1, D2, D3; fold c in D1, D2, D3.
  pose proof (is_compact_bounds _ _ _ D1) as (_ & _ & De).
  exists (compact_value c); pose proof (SetCompact_spec _ Hu) as S.
  pose proof (u256_target c Hu) as T; rewrite Z.mod_small in T by lia.
  assert (Hbit : c .& 0x00800000 = 0).
  { unfold c; rewrite Ec; apply Z.bits_inj'; intros i Hi; rewrite Z.land_spec, Z.bits_0.
    change 0x00800000 with (2 ^ 23); rewrite Z.pow2_bits_eqb by lia.
    destruct (Z.eqb_spec 23 i) as [<-|]; [|apply andb_false_r]; rewrite andb_true_r.
    rewrite <- (Z.mod_pow2_bits_low _ 24), Z.mod_add, Z.mod_small by lia.
    apply (in_width_high 23); [lia|split; lia|lia]. }
  unfold target_of in *; destruct (SetCompact c) as [[a' neg] ovf]; cbn [fst] in *.
  destruct S as (_ & _ & _ & -> & ->); rewrite Hbit, andb_false_r.
  assert (Ho : (2 ^ 256 <=? compact_value c) = false) by (apply Z.leb_gt; lia); rewrite Ho.
  repeat split; try (apply T || lia); [].
  destruct C as (_ & _ & E), (Z.leb_spec s 3) as [H3|H3].
  - destruct (Z.eq_dec s 3) as [->|]; [cbn in D2; lia|].
    rewrite (Z.pow_neg_r 2 (8 * (s - 3))) in D2 by lia; lia.
  - assert (Hp : 0 < 2 ^ (8 * (s - 3))) by (apply Z.pow_pos_nonneg; lia).
    pose proof (Z.div_mod (val a) (2 ^ (8 * (s - 3))) ltac:(lia)); pose proof (Z.mod_pos_bound (val a) _ Hp); nia.
Qed.

End Uint256.
