(* ===== verification/Params.v ===== *)
(** The consensus parameters of a network: [src/src/chainparams.h] and
    [src/src/chainparams.cpp].

    [Params()] is a typeclass, so a definition that reads the parameters takes
    the network implicitly; the three networks are its instances.  What the
    consensus rules rely on is a second class, [LawfulParams], proved of each. *)
From S2P Require Import Prelude BaseUint Uint256.

Module Params.
Import BaseUint Uint256.

Definition COIN : Z := 100000000.

(** primitives/block.h *)
Definition MAX_BLOCK_SIZE_CURRENT : Z := 2000000.

Class CChainParams := mkParams {
  ProofOfWorkLimit : base_uint;
  SubsidyHalvingInterval : Z;
  MaxReorganizationDepth : Z;
  TargetSpacing : Z;
  COINBASE_MATURITY : Z;
  MaxMoneyOut : Z;
  LAST_POW_BLOCK : Z;
  ModifierUpgradeBlock : Z;
  SkipProofOfWorkCheck : bool;
  StakeMinAge : Z;
  KernelModifierOffset : Z;
  ValidStakePointerDuration : Z;
  StakePointerForkHeight : Z
}.

Definition CMainParams : CChainParams := {|
  ProofOfWorkLimit := limit_shr 20;
  SubsidyHalvingInterval := 99999999;
  MaxReorganizationDepth := 100;
  TargetSpacing := 10 * 60;
  COINBASE_MATURITY := 15;
  MaxMoneyOut := 3000000 * COIN;
  LAST_POW_BLOCK := 500;
  ModifierUpgradeBlock := 999999999;
  SkipProofOfWorkCheck := false;
  StakeMinAge := 60 * 60;
  KernelModifierOffset := 100;
  ValidStakePointerDuration := 4320;
  StakePointerForkHeight := 2675000
|}.

(** [class CTestNetParams : public CMainParams] *)
Definition CTestNetParams : CChainParams := {|
  ProofOfWorkLimit := @ProofOfWorkLimit CMainParams;
  SubsidyHalvingInterval := @SubsidyHalvingInterval CMainParams;
  MaxReorganizationDepth := 10;
  TargetSpacing := 10;
  COINBASE_MATURITY := 15;
  MaxMoneyOut := 43199500 * COIN;
  LAST_POW_BLOCK := 100;
  ModifierUpgradeBlock := 51197;
  SkipProofOfWorkCheck := @SkipProofOfWorkCheck CMainParams;
  StakeMinAge := 5 * 60;
  KernelModifierOffset := 10;
  ValidStakePointerDuration := 200;
  StakePointerForkHeight := 101
|}.

(** [class CRegTestParams : public CTestNetParams] *)
Definition CRegTestParams : CChainParams := {|
  ProofOfWorkLimit := limit_shr 1;
  SubsidyHalvingInterval := 150;
  MaxReorganizationDepth := @MaxReorganizationDepth CTestNetParams;
  TargetSpacing := 10;
  COINBASE_MATURITY := @COINBASE_MATURITY CTestNetParams;
  MaxMoneyOut := @MaxMoneyOut CTestNetParams;
  LAST_POW_BLOCK := @LAST_POW_BLOCK CTestNetParams;
  ModifierUpgradeBlock := @ModifierUpgradeBlock CTestNetParams;
  SkipProofOfWorkCheck := @SkipProofOfWorkCheck CTestNetParams;
  StakeMinAge := 60;
  KernelModifierOffset := 5;
  ValidStakePointerDuration := 50;
  StakePointerForkHeight := 101
|}.

(** ** What the consensus rules rely on *)

(** The proof-of-work limit as a number, at least the proof-of-stake limit
    [~uint256(0) >> 24]; the reorganisation and kernel depths are positive. *)
Definition pos_limit : Z := (2 ^ 256 - 1) / 2 ^ 24.

Class LawfulParams (P : CChainParams) := {
  pow_limit : Z;
  pow_limit_ok : u256 ProofOfWorkLimit pow_limit;
  pow_limit_pos : pos_limit <= pow_limit;
  last_pow_ok : 24 <= LAST_POW_BLOCK;
  offset_ok : 0 < KernelModifierOffset <= MaxReorganizationDepth;
  fork_ok : LAST_POW_BLOCK < StakePointerForkHeight
}.

(** The limit of the main and test networks also leaves the 20 high bits the
    average of the proof-of-work retarget needs. *)
Class RoomyParams (P : CChainParams) {L : LawfulParams P} := {
  pow_limit_roomy : pow_limit <= (2 ^ 256 - 1) / 2 ^ 20
}.

#[export] Instance CMainParams_lawful : LawfulParams CMainParams.
Proof.
  refine {| pow_limit := (2 ^ 256 - 1) / 2 ^ 20 |}; try (apply u256_limit; lia); vm_compute; intuition congruence.
Defined.

#[export] Instance CTestNetParams_lawful : LawfulParams CTestNetParams.
Proof.
  refine {| pow_limit := (2 ^ 256 - 1) / 2 ^ 20 |}; try (apply u256_limit; lia); vm_compute; intuition congruence.
Defined.

#[export] Instance CRegTestParams_lawful : LawfulParams CRegTestParams.
Proof.
  refine {| pow_limit := (2 ^ 256 - 1) / 2 ^ 1 |}; try (apply u256_limit; lia); vm_compute; intuition congruence.
Defined.

#[export] Instance CMainParams_roomy : RoomyParams CMainParams.
Proof. split; vm_compute; congruence. Qed.

#[export] Instance CTestNetParams_roomy : RoomyParams CTestNetParams.
Proof. split; vm_compute; congruence. Qed.

End Params.
