(* ===== verification/Chain.v ===== *)
(** The block index and the active chain: [src/src/chain.h],
    [src/src/chain.cpp] and the skip-list walk of [src/src/main.cpp].

    The index is a heap of [CBlockIndex] objects that point at each other
    ([pprev], [pskip]): a list of records, a pointer being a position in it
    and NULL being [None].  Following a pointer that is NULL is undefined in
    the program; here the walk gives [None], and the theorems show it does not
    happen on a well-formed index. *)
From S2P Require Import Prelude BaseUint.
From Stdlib Require Import Permutation Sorted.

Module Chain.
Import BaseUint.

(** The fields of [CBlockIndex] the chain logic, the retarget and the kernels
    read. *)
Record CBlockIndex := mkIndex {
  GetBlockHash : base_uint;
  pprev : option nat;
  pskip : option nat;
  nHeight : Z;
  nTime : Z;
  nBits : Z;
  nFlags : Z;
  nStakeModifier : Z;
  nChainWork : base_uint
}.

Definition index : Type := list CBlockIndex.

Definition deref (m : index) (p : nat) : option CBlockIndex := nth_error m p.

Definition BLOCK_PROOF_OF_STAKE : Z := 1.
Definition BLOCK_STAKE_ENTROPY : Z := 2.
Definition BLOCK_STAKE_MODIFIER : Z := 4.

Definition GetBlockTime (b : CBlockIndex) : Z := nTime b.
Definition IsProofOfStake (b : CBlockIndex) : bool := negb (nFlags b .& BLOCK_PROOF_OF_STAKE =? 0).
Definition GeneratedStakeModifier (b : CBlockIndex) : bool := negb (nFlags b .& BLOCK_STAKE_MODIFIER =? 0).
Definition GetStakeEntropyBit (b : CBlockIndex) : Z := Get64 (GetBlockHash b) 0 .& 1.

(** ** The skip list *)

Definition InvertLowestOne (n : Z) : Z := n .& (n - 1).

Definition GetSkipHeight (height : Z) : Z :=
  if height <? 2 then 0
  else if negb (height .& 1 =? 0)
  then InvertLowestOne (InvertLowestOne (height - 1)) + 1
  else InvertLowestOne height.

(** The [while (heightWalk > height)] loop of [GetAncestor]. *)
Fixpoint walk (fuel : nat) (m : index) (pindexWalk : nat) (heightWalk height : Z) : option nat :=
  if height <? heightWalk then
    match fuel, deref m pindexWalk with
    | S fuel, Some b =>
        let heightSkip := GetSkipHeight heightWalk in
        let heightSkipPrev := GetSkipHeight (heightWalk - 1) in
        if (heightSkip =? height) ||
           ((height <? heightSkip) && negb ((heightSkipPrev <? heightSkip - 2) && (height <=? heightSkipPrev)))
        then match pskip b with Some q => walk fuel m q heightSkip height | None => None end
        else match pprev b with Some q => walk fuel m q (heightWalk - 1) height | None => None end
    | _, _ => None
    end
  else Some pindexWalk.

(** [pindex->GetAncestor(height)]; every iteration lowers [heightWalk], so
    [nHeight] iterations are enough. *)
Definition GetAncestor (m : index) (p : nat) (height : Z) : option nat :=
  match deref m p with
  | None => None
  | Some b =>
      if (nHeight b <? height) || (height <? 0) then None
      else walk (Z.to_nat (nHeight b)) m p (nHeight b) height
  end.

(** [AddToBlockIndex]'s linking of a new entry: [pprev], [nHeight] and
    [BuildSkip].  [blk] carries the header fields and the chain work. *)
Definition link (m : index) (prev : nat) (blk : CBlockIndex) : option index :=
  match deref m prev with
  | None => None
  | Some b =>
      let h := nHeight b + 1 in
      let skip := GetAncestor m prev (GetSkipHeight h) in
      Some (m ++ [mkIndex (GetBlockHash blk) (Some prev) skip h (nTime blk) (nBits blk) (nFlags blk)
                    (nStakeModifier blk) (nChainWork blk)])
  end.

(** ** [CChain] *)

Definition CChain : Type := list (option nat).

Definition Height (v : CChain) : Z := Z.of_nat (length v) - 1.
Definition Tip (v : CChain) : option nat := match v with [] => None | _ => nth (length v - 1) v None end.

(** [operator[]] *)
Definition entry (v : CChain) (h : Z) : option nat :=
  if (h <? 0) || (Z.of_nat (length v) <=? h) then None else nth (Z.to_nat h) v None.

Definition eq_ptr (x y : option nat) : bool :=
  match x, y with
  | Some p, Some q => (p =? q)%nat
  | None, None => true
  | _, _ => false
  end.

Definition Contains (m : index) (v : CChain) (p : nat) : bool :=
  match deref m p with
  | Some b => eq_ptr (entry v (nHeight b)) (Some p)
  | None => false
  end.

Definition Next (m : index) (v : CChain) (p : nat) : option nat :=
  match deref m p with
  | Some b => if Contains m v p then entry v (nHeight b + 1) else None
  | None => None
  end.

(** [vChain.resize(n)] *)
Definition resize (v : CChain) (n : nat) : CChain := firstn n v ++ repeat None (n - length v).

Fixpoint update {A} (v : list A) (i : nat) (x : A) : list A :=
  match v, i with
  | [], _ => []
  | _ :: v, O => x :: v
  | y :: v, S i => y :: update v i x
  end.

(** The loop of [SetTip]. *)
Fixpoint SetTip_loop (fuel : nat) (m : index) (v : CChain) (pindex : option nat) : CChain :=
  match fuel, pindex with
  | S fuel, Some p =>
      match deref m p with
      | None => v
      | Some b =>
          if eq_ptr (nth (Z.to_nat (nHeight b)) v None) (Some p) then v
          else SetTip_loop fuel m (update v (Z.to_nat (nHeight b)) (Some p)) (pprev b)
      end
  | _, _ => v
  end.

Definition SetTip (m : index) (v : CChain) (pindex : option nat) : CChain :=
  match pindex with
  | None => []
  | Some p =>
      match deref m p with
      | None => v
      | Some b =>
          let n := (Z.to_nat (nHeight b) + 1)%nat in
          SetTip_loop n m (resize v n) (Some p)
      end
  end.

(** The loop of [FindFork]. *)
Fixpoint fork_loop (fuel : nat) (m : index) (v : CChain) (pindex : option nat) : option nat :=
  match pindex with
  | None => None
  | Some p =>
      if Contains m v p then Some p
      else match fuel, deref m p with
           | S fuel, Some b => fork_loop fuel m v (pprev b)
           | _, _ => None
           end
  end.

Definition FindFork (m : index) (v : CChain) (p : nat) : option nat :=
  match deref m p with
  | None => None
  | Some b =>
      let pindex := if Height v <? nHeight b then GetAncestor m p (Height v) else Some p in
      fork_loop (S (Z.to_nat (nHeight b))) m v pindex
  end.

(** The loop of [GetLocator]: [n] is [vHave.size()]. *)
Fixpoint locator_loop (fuel : nat) (m : index) (v : CChain) (n : nat) (nStep : Z) (pindex : option nat)
  : list base_uint :=
  match fuel, pindex with
  | S fuel, Some p =>
      match deref m p with
      | None => []
      | Some b =>
          GetBlockHash b ::
          (if nHeight b =? 0 then []
           else
             let h := Z.max (nHeight b - nStep) 0 in
             let next := if Contains m v p then entry v h else GetAncestor m p h in
             locator_loop fuel m v (S n) (if (10 <? S n)%nat then nStep * 2 else nStep) next)
      end
  | _, _ => []
  end.

Definition GetLocator (m : index) (v : CChain) (pindex : option nat) : list base_uint :=
  let start := match pindex with Some p => Some p | None => Tip v end in
  match start with
  | None => []
  | Some p =>
      match deref m p with
      | None => []
      | Some b => locator_loop (S (Z.to_nat (nHeight b))) m v 0 1 start
      end
  end.

(** ** [GetMedianTimePast] *)

(** The times of the last [n] blocks, the newest first. *)
Fixpoint last_times (n : nat) (m : index) (pindex : option nat) : list Z :=
  match n, pindex with
  | S n, Some p =>
      match deref m p with
      | Some b => GetBlockTime b :: last_times n m (pprev b)
      | None => []
      end
  | _, _ => []
  end.

(** [std::sort] *)
Fixpoint insert (x : Z) (l : list Z) : list Z :=
  match l with
  | [] => [x]
  | y :: l => if x <=? y then x :: y :: l else y :: insert x l
  end.

Definition sort (l : list Z) : list Z := fold_right insert [] l.

Definition nMedianTimeSpan : nat := 11.

Definition GetMedianTimePast (m : index) (p : nat) : Z :=
  let times := sort (last_times nMedianTimeSpan m (Some p)) in
  times.[length times / 2].

(** ** Ancestors by [pprev] *)

(** Following [pprev] [k] times. *)
Fixpoint up (m : index) (k : nat) (p : nat) : option nat :=
  match k with
  | O => Some p
  | S k =>
      match deref m p with
      | Some b => match pprev b with Some q => up m k q | None => None end
      | None => None
      end
  end.

(** A well-formed entry: heights count from a root, and [pskip] is the ancestor
    at the skip height. *)
Definition wf_entry (m : index) (p : nat) (b : CBlockIndex) : Prop :=
  0 <= nHeight b /\
  match pprev b with
  | None => nHeight b = 0
  | Some q =>
      (exists c, deref m q = Some c /\ nHeight b = nHeight c + 1) /\
      pskip b = up m (Z.to_nat (nHeight b - GetSkipHeight (nHeight b))) p
  end.

Definition wf (m : index) : Prop := forall p b, deref m p = Some b -> wf_entry m p b.

Lemma up_add m a : forall b p, up m (a + b) p = match up m a p with Some q => up m b q | None => None end.
Proof.
  induction a as [|a IH]; intros b p; cbn [Nat.add up]; [reflexivity|].
  destruct (deref m p) as [x|]; [|reflexivity]; destruct (pprev x); [apply IH|reflexivity].
Qed.

Lemma up_height m : wf m -> forall k p b,
  deref m p = Some b -> Z.of_nat k <= nHeight b ->
  exists q c, up m k p = Some q /\ deref m q = Some c /\ nHeight c = nHeight b - Z.of_nat k.
Proof.
  intros Hw; induction k as [|k IH]; intros p b Hp Hk; cbn [up].
  - exists p, b; repeat split; auto; lia.
  - rewrite Hp; destruct (Hw p b Hp) as [H0 H]; destruct (pprev b) as [q|]; [|lia].
    destruct H as [(c & Hq & Hh) _].
    destruct (IH q c Hq ltac:(lia)) as (r & d & H1 & H2 & H3); exists r, d; repeat split; auto; lia.
Qed.

(** Clearing bits lowers a number. *)
Lemma land_le n k : 0 <= k -> 0 <= n .& k <= k.
Proof.
  intros Hk; split; [apply Z.land_nonneg; auto|].
  assert (E : k = (n .& k) + Z.ldiff k n).
  { rewrite Z.add_nocarry_lxor.
    - apply Z.bits_inj'; intros i Hi; rewrite Z.lxor_spec, Z.land_spec, Z.ldiff_spec.
      destruct (Z.testbit n i), (Z.testbit k i); reflexivity.
    - apply Z.bits_inj'; intros i Hi; rewrite !Z.land_spec, Z.ldiff_spec, Z.bits_0.
      destruct (Z.testbit n i), (Z.testbit k i); reflexivity. }
  assert (0 <= Z.ldiff k n) by (apply Z.ldiff_nonneg; left; exact Hk); lia.
Qed.

Lemma InvertLowestOne_bound n : 0 < n -> 0 <= InvertLowestOne n < n.
Proof. intros Hn; unfold InvertLowestOne; pose proof (land_le n (n - 1)); lia. Qed.

Lemma GetSkipHeight_bound h : 1 <= h -> 0 <= GetSkipHeight h < h.
Proof.
  intros Hh; unfold GetSkipHeight; destruct (Z.ltb_spec h 2); [lia|].
  destruct (negb _); [|apply InvertLowestOne_bound; lia].
  pose proof (InvertLowestOne_bound (h - 1) ltac:(lia)) as H1; set (k := InvertLowestOne (h - 1)) in *.
  destruct (Z.eq_dec k 0) as [->|]; [change (InvertLowestOne 0) with 0; lia|].
  pose proof (InvertLowestOne_bound k ltac:(lia)); lia.
Qed.

(** The walk, taking skips or not, ends at the ancestor. *)
Lemma walk_spec m : wf m -> forall fuel p b h,
  deref m p = Some b -> 0 <= h <= nHeight b -> (Z.to_nat (nHeight b) <= fuel)%nat ->
  walk fuel m p (nHeight b) h = up m (Z.to_nat (nHeight b - h)) p.
Proof.
  intros Hw; induction fuel as [|fuel IH]; intros p b h Hp Hh Hf; cbn [walk];
    destruct (Z.ltb_spec h (nHeight b)) as [Hlt|Hge]; try lia;
    try (replace (nHeight b - h) with 0 by lia; reflexivity).
  rewrite Hp; destruct (Hw p b Hp) as [H0 H]; destruct (pprev b) as [q|] eqn:Eq; [|lia].
  destruct H as [(c & Hc & Hhc) Hskip].
  pose proof (GetSkipHeight_bound (nHeight b) ltac:(lia)) as Hs; set (s := GetSkipHeight (nHeight b)) in *.
  destruct (_ || _) eqn:E.
  - assert (Hhs : h <= s).
    { apply orb_true_iff in E; destruct E as [E|E]; [apply Z.eqb_eq in E; lia|].
      apply andb_true_iff in E; destruct E as [E _]; apply Z.ltb_lt in E; lia. }
    destruct (up_height m Hw (Z.to_nat (nHeight b - s)) p b Hp ltac:(lia)) as (r & d & U & Hr & Hd).
    rewrite Hskip, U; replace s with (nHeight d) by lia.
    rewrite IH by (assumption || lia).
    replace (Z.to_nat (nHeight b - h)) with (Z.to_nat (nHeight b - s) + Z.to_nat (nHeight d - h))%nat by lia.
    rewrite up_add, U; reflexivity.
  - replace (nHeight b - 1) with (nHeight c) by lia; rewrite IH by (assumption || lia).
    replace (Z.to_nat (nHeight b - h)) with (S (Z.to_nat (nHeight c - h))) by lia.
    cbn [up]; rewrite Hp, Eq; reflexivity.
Qed.

Lemma GetAncestor_spec m p b h :
  wf m -> deref m p = Some b ->
  GetAncestor m p h = if (0 <=? h) && (h <=? nHeight b) then up m (Z.to_nat (nHeight b - h)) p else None.
Proof.
  intros Hw Hp; unfold GetAncestor; rewrite Hp.
  destruct (Z.leb_spec 0 h), (Z.leb_spec h (nHeight b)), (Z.ltb_spec (nHeight b) h), (Z.ltb_spec h 0);
    cbn [andb orb]; try lia; try reflexivity.
  apply walk_spec; auto; lia.
Qed.

(** ** Linking a new block *)

Lemma deref_old m x p b : deref m p = Some b -> deref (m ++ [x]) p = Some b.
Proof.
  intros H; unfold deref in *; rewrite nth_error_app1; [exact H|].
  apply nth_error_Some; congruence.
Qed.

Lemma deref_new m x : deref (m ++ [x]) (length m) = Some x.
Proof. unfold deref; rewrite nth_error_app2, Nat.sub_diag by lia; reflexivity. Qed.

Lemma deref_app m x p b :
  deref (m ++ [x]) p = Some b -> deref m p = Some b \/ (p = length m /\ b = x).
Proof.
  unfold deref; intros H; destruct (Nat.lt_ge_cases p (length m)) as [Hl|Hl].
  - rewrite nth_error_app1 in H by exact Hl; auto.
  - rewrite nth_error_app2 in H by exact Hl.
    destruct (p - length m)%nat as [|[|]] eqn:E; cbn in H; try discriminate.
    right; split; [lia|congruence].
Qed.

Lemma up_old m x : wf m -> forall k p b, deref m p = Some b -> up (m ++ [x]) k p = up m k p.
Proof.
  intros Hw; induction k as [|k IH]; intros p b Hp; [reflexivity|]; cbn [up].
  rewrite Hp, (deref_old m x p b Hp); destruct (Hw p b Hp) as [_ H]; destruct (pprev b) as [q|]; [|reflexivity].
  destruct H as [(c & Hq & _) _]; exact (IH q c Hq).
Qed.

Lemma link_wf m prev blk m' : wf m -> link m prev blk = Some m' -> wf m'.
Proof.
  intros Hw; unfold link; destruct (deref m prev) as [b|] eqn:Hb; [|discriminate].
  set (x := mkIndex _ _ _ _ _ _ _ _ _); intros [= <-].
  pose proof (Hw prev b Hb) as [H0 _].
  assert (X1 : pprev x = Some prev) by reflexivity.
  assert (X2 : nHeight x = nHeight b + 1) by reflexivity.
  assert (X3 : pskip x = GetAncestor m prev (GetSkipHeight (nHeight b + 1))) by reflexivity.
  clearbody x.
  intros p c Hc; destruct (deref_app _ _ _ _ Hc) as [Hold|[-> ->]].
  - destruct (Hw p c Hold) as [G0 G]; split; [exact G0|]; destruct (pprev c) as [q|]; [|exact G].
    destruct G as [(d & Hq & Hd) Hs]; split; [exists d; split; [apply deref_old, Hq|exact Hd]|].
    rewrite (up_old m x Hw _ p c Hold); exact Hs.
  - unfold wf_entry; rewrite X1, X2, X3; split; [lia|].
    split; [exists b; split; [apply deref_old, Hb|reflexivity]|].
    pose proof (GetSkipHeight_bound (nHeight b + 1) ltac:(lia)) as Hs.
    rewrite (GetAncestor_spec m prev b _ Hw Hb); set (k := GetSkipHeight (nHeight b + 1)) in *.
    destruct (Z.leb_spec 0 k), (Z.leb_spec k (nHeight b)); try lia; cbn [andb].
    replace (Z.to_nat (nHeight b + 1 - k)) with (S (Z.to_nat (nHeight b - k))) by lia.
    cbn [up]; rewrite deref_new, X1, (up_old m x Hw _ prev b Hb); reflexivity.
Qed.

(** ** The active chain *)

(** Every slot holds the block of its height, whose [pprev] is the slot below. *)
Definition is_chain (m : index) (v : CChain) : Prop :=
  forall i, (i < length v)%nat ->
  exists p b, nth i v None = Some p /\ deref m p = Some b /\ nHeight b = Z.of_nat i /\
    pprev b = match i with O => None | S j => nth j v None end.

Lemma update_length {A} (v : list A) i x : length (update v i x) = length v.
Proof. revert i; induction v; intros [|i]; cbn; auto. Qed.

Lemma nth_update {A} (v : list A) i j x d :
  (i < length v)%nat -> nth j (update v i x) d = if (i =? j)%nat then x else nth j v d.
Proof.
  revert i j; induction v as [|y v IH]; intros i j Hi; cbn [length] in Hi; [lia|].
  destruct i, j; cbn [update nth Nat.eqb]; auto; apply IH; lia.
Qed.

Lemma eq_ptr_true x y : eq_ptr x y = true <-> x = y.
Proof.
  destruct x, y; cbn; rewrite ?Nat.eqb_eq; split; congruence.
Qed.

Lemma eq_ptr_false x y : eq_ptr x y = false <-> x <> y.
Proof. rewrite <- eq_ptr_true; destruct (eq_ptr x y); split; congruence. Qed.

Lemma nth_resize (v : CChain) n j : (j < n)%nat -> nth j (resize v n) None = nth j v None.
Proof.
  intros Hj; unfold resize; destruct (Nat.lt_ge_cases j (length v)) as [Hl|Hl].
  - rewrite app_nth1 by (rewrite length_firstn; lia).
    rewrite <- (firstn_skipn n v) at 2; rewrite app_nth1 by (rewrite length_firstn; lia); reflexivity.
  - rewrite (nth_overflow v) by lia; rewrite app_nth2 by (rewrite length_firstn; lia).
    apply nth_repeat.
Qed.

Lemma resize_length (v : CChain) n : length (resize v n) = n.
Proof. unfold resize; rewrite length_app, length_firstn, repeat_length; lia. Qed.

(** Heights and [pprev] of a well-formed entry. *)
Lemma wf_pprev m p b : wf m -> deref m p = Some b ->
  match pprev b with
  | None => nHeight b = 0
  | Some q => exists c, deref m q = Some c /\ nHeight b = nHeight c + 1 /\ 0 <= nHeight c
  end.
Proof.
  intros Hw Hp; destruct (Hw p b Hp) as [_ H]; destruct (pprev b) as [q|]; [|exact H].
  destruct H as [(c & Hq & Hh) _]; exists c; repeat split; auto; apply (Hw q c Hq).
Qed.

(** The invariant of the [SetTip] loop at block [p] of height [h]: above, the
    new chain down to [p]; at and below [h], still the old one. *)
Lemma SetTip_loop_spec m v0 :
  wf m -> is_chain m v0 -> forall fuel v p b,
  deref m p = Some b -> let h := Z.to_nat (nHeight b) in
  (h < fuel)%nat -> (h < length v)%nat ->
  (forall j, (j <= h)%nat -> nth j v None = nth j v0 None) ->
  (forall j, (h < j < length v)%nat ->
     exists q c, nth j v None = Some q /\ deref m q = Some c /\ nHeight c = Z.of_nat j /\
       pprev c = if (j =? S h)%nat then Some p else nth (j - 1) v None) ->
  let r := SetTip_loop fuel m v (Some p) in
  is_chain m r /\ length r = length v /\ (forall j, (h < j)%nat -> nth j r None = nth j v None) /\
  nth h r None = Some p.
Proof.
  intros Hw Hv0; induction fuel as [|fuel IH]; intros v p b Hp h Hf Hl HB HA r; [lia|].
  unfold r; cbn [SetTip_loop]; rewrite Hp; fold h.
  pose proof (Hw p b Hp) as [H0 _].
  destruct (eq_ptr (nth h v None) (Some p)) eqn:E.
  - apply eq_ptr_true in E; repeat split; auto; intros i Hi.
    destruct (Nat.le_gt_cases i h) as [Hih|Hih].
    + assert (Hh : (h < length v0)%nat).
      { destruct (Nat.lt_ge_cases h (length v0)); [assumption|].
        rewrite HB, nth_overflow in E by lia; discriminate. }
      destruct (Hv0 i ltac:(lia)) as (q & c & N & D & Hc & P); exists q, c.
      rewrite HB by lia; repeat split; auto; rewrite P; destruct i; [reflexivity|].
      symmetry; apply HB; lia.
    + destruct (HA i ltac:(lia)) as (q & c & N & D & Hc & P); exists q, c; repeat split; auto.
      rewrite P; destruct i as [|i]; [lia|]; cbn [Nat.sub Nat.eqb]; rewrite Nat.sub_0_r.
      destruct (Nat.eqb_spec i h) as [->|]; [symmetry; exact E|reflexivity].
  - pose proof (wf_pprev m p b Hw Hp) as HP.
    set (v' := update v h (Some p)); assert (Hl' : length v' = length v) by apply update_length.
    assert (Nv : forall j, nth j v' None = if (h =? j)%nat then Some p else nth j v None)
      by (intros j; apply nth_update, Hl).
    destruct (pprev b) as [q|] eqn:Eq.
    + destruct HP as (c & Hq & Hh & Hc0); assert (Hhc : h = S (Z.to_nat (nHeight c))) by lia.
      destruct (IH v' q c Hq) as (R1 & R2 & R3 & R4); [lia|lia| | |].
      * intros j Hj; rewrite Nv; destruct (Nat.eqb_spec h j); [lia|]; apply HB; lia.
      * intros j Hj; rewrite Nv; destruct (Nat.eqb_spec h j) as [<-|Hne].
        -- exists p, b; repeat split; auto; [lia|]; rewrite Eq, Hhc, Nat.eqb_refl; reflexivity.
        -- destruct (HA j ltac:(lia)) as (r' & d & N & D & Hd & P); exists r', d; repeat split; auto.
           rewrite P, Nv; destruct (Nat.eqb_spec j (S h)), (Nat.eqb_spec j (S (Z.to_nat (nHeight c)))),
             (Nat.eqb_spec h (j - 1)); lia || reflexivity.
      * repeat split; [exact R1|lia| |].
        -- intros j Hj; rewrite R3, Nv by lia; destruct (Nat.eqb_spec h j); [lia|reflexivity].
        -- rewrite R3, Nv, Nat.eqb_refl by lia; reflexivity.
    + assert (Hh0 : h = 0%nat) by lia.
      assert (Er : SetTip_loop fuel m v' None = v') by (destruct fuel; reflexivity); rewrite Er.
      repeat split; [|exact Hl'| |rewrite Nv, Nat.eqb_refl; reflexivity].
      * intros i Hi; rewrite Nv; destruct (Nat.eqb_spec h i) as [<-|Hne].
        -- exists p, b; repeat split; auto; [lia|]; rewrite Hh0; exact Eq.
        -- destruct (HA i ltac:(lia)) as (r' & d & N & D & Hd & P); exists r', d; repeat split; auto.
           rewrite P; destruct i as [|i]; [lia|]; cbn [Nat.sub]; rewrite Nat.sub_0_r, Nv.
           destruct (Nat.eqb_spec (S i) (S h)), (Nat.eqb_spec h i); lia || reflexivity.
      * intros j Hj; rewrite Nv; destruct (Nat.eqb_spec h j); [lia|reflexivity].
Qed.

(** In a chain the slot [k] below a block is its [k]-th ancestor. *)
Lemma is_chain_up m v : is_chain m v -> forall k i p,
  (k <= i < length v)%nat -> nth i v None = Some p -> up m k p = nth (i - k) v None.
Proof.
  intros Hv; induction k as [|k IH]; intros i p Hk Hp; cbn [up].
  - rewrite Nat.sub_0_r; auto.
  - destruct (Hv i ltac:(lia)) as (q & b & N & D & _ & P).
    assert (q = p) as -> by congruence; rewrite D, P; destruct i as [|i]; [lia|].
    destruct (Hv i ltac:(lia)) as (q' & b' & N' & _); rewrite N'; apply IH; [lia|exact N'].
Qed.

Lemma SetTip_spec m v p b :
  wf m -> is_chain m v -> deref m p = Some b ->
  let r := SetTip m v (Some p) in
  is_chain m r /\ Height r = nHeight b /\ Tip r = Some p.
Proof.
  intros Hw Hv Hp r; unfold r, SetTip; rewrite Hp; pose proof (Hw p b Hp) as [H0 _].
  set (n := (Z.to_nat (nHeight b) + 1)%nat).
  destruct (SetTip_loop_spec m v Hw Hv n (resize v n) p b Hp) as (R1 & R2 & _ & R4); rewrite ?resize_length.
  - lia.
  - lia.
  - intros j Hj; apply nth_resize; lia.
  - intros j Hj; lia.
  - rewrite resize_length in R2; split; [exact R1|].
    unfold Height; split; [lia|]; unfold Tip; rewrite R2.
    replace (n - 1)%nat with (Z.to_nat (nHeight b)) by lia.
    destruct (SetTip_loop _ _ _ _); [destruct (Z.to_nat (nHeight b)); discriminate R4|exact R4].
Qed.

(** ** Forks *)

Lemma entry_nth v h i : h = Z.of_nat i -> (i < length v)%nat -> entry v h = nth i v None.
Proof.
  intros -> Hi; unfold entry; destruct (Z.ltb_spec (Z.of_nat i) 0), (Z.leb_spec (Z.of_nat (length v)) (Z.of_nat i));
    cbn [orb]; try lia; rewrite Nat2Z.id; reflexivity.
Qed.

Lemma entry_none v h : Height v < h -> entry v h = None.
Proof.
  unfold Height; intros Hh; unfold entry; destruct (Z.leb_spec (Z.of_nat (length v)) h); [|lia].
  rewrite orb_true_r; reflexivity.
Qed.

Lemma Contains_spec m v p b :
  deref m p = Some b -> 0 <= nHeight b -> is_chain m v ->
  Contains m v p = true <-> nHeight b <= Height v /\ nth (Z.to_nat (nHeight b)) v None = Some p.
Proof.
  intros Hp H0 Hv; unfold Contains, Height; rewrite Hp, eq_ptr_true.
  destruct (Z.lt_ge_cases (Z.of_nat (length v) - 1) (nHeight b)) as [H|H].
  - rewrite entry_none by exact H; split; [discriminate|lia].
  - rewrite (entry_nth v _ (Z.to_nat (nHeight b))) by lia; tauto.
Qed.

Lemma up_root m : wf m -> forall p b q c,
  deref m p = Some b -> pprev b = Some q -> deref m q = Some c ->
  up m (Z.to_nat (nHeight b)) p = up m (Z.to_nat (nHeight c)) q.
Proof.
  intros Hw p b q c Hp Hq Hc; pose proof (wf_pprev m p b Hw Hp) as H; rewrite Hq in H.
  destruct H as (c' & Hc' & Hh & H0); assert (c' = c) as -> by congruence.
  replace (Z.to_nat (nHeight b)) with (S (Z.to_nat (nHeight c))) by lia; cbn [up]; rewrite Hp, Hq; reflexivity.
Qed.

(** The root of a block's branch is the chain's genesis block. *)
Definition same_genesis (m : index) (v : CChain) (p : nat) : Prop :=
  exists b, deref m p = Some b /\ up m (Z.to_nat (nHeight b)) p = nth 0 v None /\ (0 < length v)%nat.

(** [r] is the first block on the way down from [p] that is in the chain. *)
Definition last_common (m : index) (v : CChain) (p r : nat) : Prop :=
  exists k, up m k p = Some r /\ Contains m v r = true /\
    forall j q, (j < k)%nat -> up m j p = Some q -> Contains m v q = false.

Lemma fork_loop_spec m v : wf m -> is_chain m v -> forall fuel p b,
  deref m p = Some b -> (Z.to_nat (nHeight b) < fuel)%nat -> same_genesis m v p ->
  exists r, fork_loop fuel m v (Some p) = Some r /\ last_common m v p r.
Proof.
  intros Hw Hv; induction fuel as [|fuel IH]; intros p b Hp Hf (b' & Hb' & Hg & Hl); [lia|].
  assert (b' = b) as -> by congruence; cbn [fork_loop]; destruct (Contains m v p) eqn:E.
  - exists p; split; [reflexivity|]; exists 0%nat; repeat split; auto; lia.
  - rewrite Hp; pose proof (wf_pprev m p b Hw Hp) as H; destruct (pprev b) as [q|] eqn:Eq.
    + destruct H as (c & Hc & Hh & H0); destruct (IH q c Hc) as (r & Er & k & U & C & N); [lia| |].
      { exists c; repeat split; auto; rewrite <- Hg; symmetry; eapply up_root; eauto. }
      exists r; split; [exact Er|]; exists (S k); cbn [up]; rewrite Hp, Eq; repeat split; auto.
      intros [|j] x Hj Hx; cbn [up] in Hx; [congruence|]; rewrite Hp, Eq in Hx; apply (N j); auto; lia.
    + exfalso; rewrite H in Hg; cbn in Hg.
      assert (C : Contains m v p = true); [|congruence].
      apply (Contains_spec m v p b Hp); [lia|exact Hv|]; unfold Height; rewrite H; split; [lia|symmetry; exact Hg].
Qed.

Lemma FindFork_spec m v p b :
  wf m -> is_chain m v -> deref m p = Some b -> same_genesis m v p ->
  exists r, FindFork m v p = Some r /\ last_common m v p r.
Proof.
  intros Hw Hv Hp Hg; unfold FindFork; rewrite Hp; pose proof (Hw p b Hp) as [H0 _].
  destruct (Z.ltb_spec (Height v) (nHeight b)) as [Hh|Hh].
  - pose proof Hg as (b' & Hb' & Hg0 & Hl); assert (b' = b) as -> by congruence.
    assert (HH : 0 <= Height v) by (unfold Height; lia).
    rewrite (GetAncestor_spec m p b) by assumption.
    destruct (Z.leb_spec 0 (Height v)), (Z.leb_spec (Height v) (nHeight b)); try lia; cbn [andb].
    set (k0 := Z.to_nat (nHeight b - Height v)).
    destruct (up_height m Hw k0 p b Hp ltac:(lia)) as (q & c & U & D & Hc); rewrite U.
    destruct (fork_loop_spec m v Hw Hv (S (Z.to_nat (nHeight b))) q c D) as (r & Er & k & Uk & C & N); [lia| |].
    { exists c; repeat split; auto; rewrite <- Hg0.
      replace (Z.to_nat (nHeight b)) with (k0 + Z.to_nat (nHeight c))%nat by lia; rewrite up_add, U; reflexivity. }
    exists r; split; [exact Er|]; exists (k0 + k)%nat; rewrite up_add, U; repeat split; auto.
    intros j x Hj Hx; destruct (Nat.lt_ge_cases j k0) as [Hj0|Hj0].
    + destruct (up_height m Hw j p b Hp ltac:(lia)) as (x' & d & U' & D' & Hd).
      assert (x' = x) as -> by congruence; unfold Contains; rewrite D', entry_none by lia; reflexivity.
    + apply (N (j - k0)%nat); [lia|]; replace j with (k0 + (j - k0))%nat in Hx by lia.
      rewrite up_add, U in Hx; exact Hx.
  - apply (fork_loop_spec m v Hw Hv _ p b Hp); [lia|exact Hg].
Qed.

(** ** Locators *)

Definition hash_of (m : index) (p : nat) : base_uint :=
  match deref m p with Some b => GetBlockHash b | None => [] end.

(** A path from [p] down to a block of height 0, each step to a proper
    ancestor. *)
Inductive locator_path (m : index) : nat -> list nat -> Prop :=
| path_genesis p b : deref m p = Some b -> nHeight b = 0 -> locator_path m p [p]
| path_step p k q qs : (0 < k)%nat -> up m k p = Some q -> locator_path m q qs -> locator_path m p (p :: qs).

Lemma locator_loop_spec m v : wf m -> is_chain m v -> forall fuel n nStep p b,
  deref m p = Some b -> (Z.to_nat (nHeight b) < fuel)%nat -> 1 <= nStep ->
  exists qs, locator_loop fuel m v n nStep (Some p) = map (hash_of m) qs /\ locator_path m p qs.
Proof.
  intros Hw Hv; induction fuel as [|fuel IH]; intros n nStep p b Hp Hf Hn; [lia|].
  pose proof (Hw p b Hp) as [H0 _]; cbn [locator_loop]; rewrite Hp.
  assert (Eh : GetBlockHash b = hash_of m p) by (unfold hash_of; rewrite Hp; reflexivity); rewrite Eh.
  destruct (Z.eqb_spec (nHeight b) 0) as [E|E].
  - exists [p]; split; [reflexivity|]; econstructor; eauto.
  - set (h := Z.max (nHeight b - nStep) 0); set (k := Z.to_nat (nHeight b - h)).
    destruct (up_height m Hw k p b Hp ltac:(lia)) as (q & c & U & D & Hc).
    assert (Enext : (if Contains m v p then entry v h else GetAncestor m p h) = Some q).
    { destruct (Contains m v p) eqn:C.
      - apply (Contains_spec m v p b Hp H0 Hv) in C; destruct C as [C1 C2]; unfold Height in C1.
        rewrite (entry_nth v h (Z.to_nat h)) by lia.
        rewrite <- U, (is_chain_up m v Hv k (Z.to_nat (nHeight b)) p) by (assumption || lia).
        f_equal; lia.
      - rewrite (GetAncestor_spec m p b) by assumption.
        destruct (Z.leb_spec 0 h), (Z.leb_spec h (nHeight b)); try lia; exact U. }
    rewrite Enext.
    destruct (IH (S n) (if (10 <? S n)%nat then nStep * 2 else nStep) q c D) as (qs & Eq & P);
      [lia|destruct (_ <? _)%nat; lia|].
    exists (p :: qs); split; [rewrite Eq; reflexivity|]; apply (path_step m p k q); auto; lia.
Qed.

(** ** Median time *)

Lemma insert_perm x l : Permutation (insert x l) (x :: l).
Proof.
  induction l as [|y l IH]; cbn [insert]; [reflexivity|]; destruct (x <=? y); [reflexivity|].
  rewrite IH; apply perm_swap.
Qed.

Lemma sort_perm l : Permutation (sort l) l.
Proof. induction l as [|x l IH]; [reflexivity|]; cbn [sort fold_right]; rewrite insert_perm; constructor; exact IH. Qed.

Lemma insert_sorted x l : StronglySorted Z.le l -> StronglySorted Z.le (insert x l).
Proof.
  induction 1 as [|y l Hl IH Hy]; cbn [insert]; [repeat constructor|].
  destruct (Z.leb_spec x y); repeat constructor; auto.
  - apply (Forall_impl _ (fun z (Hz : y <= z) => Z.le_trans x y z H Hz) Hy).
  - apply (Permutation_Forall (Permutation_sym (insert_perm x l))); constructor; [lia|exact Hy].
Qed.

Lemma sort_sorted l : StronglySorted Z.le (sort l).
Proof. induction l; cbn [sort fold_right]; [constructor|apply insert_sorted; assumption]. Qed.

Lemma sorted_middle l k : StronglySorted Z.le l -> (k < length l)%nat ->
  exists l1 l2, l = l1 ++ l.[k] :: l2 /\ length l1 = k /\
    Forall (fun x => x <= l.[k]) l1 /\ Forall (fun x => l.[k] <= x) l2.
Proof.
  intros Hs; revert k; induction Hs as [|y l Hl IH Hy]; intros k Hk; cbn [length] in Hk; [lia|].
  destruct k as [|k].
  - exists [], l; repeat split; auto.
  - destruct (IH k ltac:(lia)) as (l1 & l2 & E & L & F1 & F2); exists (y :: l1), l2.
    change ((y :: l).[S k]) with (l.[k]); repeat split; auto.
    + cbn [app]; rewrite <- E; reflexivity.
    + cbn [length]; congruence.
    + constructor; [|exact F1]; apply (proj1 (Forall_forall _ _) Hy), nth_In; lia.
Qed.

(** ** A concrete index, for the witnesses *)

Definition header (h : base_uint) (t : Z) : CBlockIndex := mkIndex h None None 0 t 0x1e0ffff0 0 0 [].

Definition genesis_index : index := [header [1] 10].

(** Linking a list of blocks, each with the position of its parent, in turn. *)
Fixpoint link_all (m : index) (l : list (nat * CBlockIndex)) : index :=
  match l with
  | [] => m
  | (prev, blk) :: l =>
      match link m prev blk with Some m' => link_all m' l | None => m end
  end.

(** Six blocks on a line, and a fork of two blocks above block 3. *)
Definition sample : index :=
  link_all genesis_index
    (map (fun '(prev, h, t) => (prev, header [h] t))
      [(0%nat, 2, 20); (1%nat, 3, 30); (2%nat, 4, 40); (3%nat, 5, 50); (4%nat, 6, 60); (5%nat, 7, 70);
       (3%nat, 8, 55); (7%nat, 9, 75)]).

Lemma genesis_wf : wf genesis_index.
Proof.
  intros [|[|p]] b H; cbn in H; try discriminate; injection H as <-; split; cbn; lia || reflexivity.
Qed.

Lemma link_all_wf l : forall m, wf m -> wf (link_all m l).
Proof.
  induction l as [|[prev blk] l IH]; intros m Hm; cbn [link_all]; [exact Hm|].
  destruct (link m prev blk) as [m'|] eqn:E; [|exact Hm]; apply IH; eapply link_wf; eassumption.
Qed.

Lemma sample_wf : wf sample.
Proof. apply link_all_wf, genesis_wf. Qed.

(** ** Properties *)

(** [GetAncestor], which mixes [pskip] and [pprev] steps, returns on every
    well-formed index exactly the ancestor [pprev] leads to, for every height
    from 0 to the block's own, and NULL for any other height; it never follows
    a NULL pointer and terminates. *)
Theorem GetAncestor_correct m p b h :
  wf m -> deref m p = Some b ->
  (0 <= h <= nHeight b ->
     exists q c, GetAncestor m p h = Some q /\ up m (Z.to_nat (nHeight b - h)) p = Some q /\
       deref m q = Some c /\ nHeight c = h) /\
  (h < 0 \/ nHeight b < h -> GetAncestor m p h = None).
Proof.
  intros Hw Hp; rewrite (GetAncestor_spec m p b h Hw Hp); split.
  - intros Hh; destruct (up_height m Hw (Z.to_nat (nHeight b - h)) p b Hp ltac:(lia)) as (q & c & U & D & Hc).
    destruct (Z.leb_spec 0 h), (Z.leb_spec h (nHeight b)); try lia; exists q, c; repeat split; auto; lia.
  - intros Hh; destruct (Z.leb_spec 0 h), (Z.leb_spec h (nHeight b)); lia || reflexivity.
Qed.

Lemma GetAncestor_correct_witness :
  deref sample 6 <> None /\ exists q c, GetAncestor sample 6 1 = Some q /\ deref sample q = Some c /\ nHeight c = 1.
Proof.
  assert (E : exists b, deref sample 6 = Some b /\ nHeight b = 6) by (vm_compute; eauto).
  destruct E as (b & Hb & Hh); split; [congruence|].
  destruct (proj1 (GetAncestor_correct sample 6 b 1 sample_wf Hb) ltac:(lia)) as (q & c & H1 & _ & H2 & H3).
  exists q, c; auto.
Defined.

(** Linking a new block under an existing one ([AddToBlockIndex] with
    [BuildSkip]) keeps the index well formed: heights and skip pointers of all
    entries stay right, and no old entry changes. *)
Theorem link_preserves m prev b blk :
  wf m -> deref m prev = Some b ->
  exists m', link m prev blk = Some m' /\ wf m' /\
    (forall p c, deref m p = Some c -> deref m' p = Some c) /\
    (exists x, deref m' (length m) = Some x /\ pprev x = Some prev /\ nHeight x = nHeight b + 1).
Proof.
  intros Hw Hp; assert (E : exists m', link m prev blk = Some m') by (unfold link; rewrite Hp; eauto).
  destruct E as [m' E]; exists m'; split; [exact E|split; [exact (link_wf m prev blk m' Hw E)|]].
  unfold link in E; rewrite Hp in E; injection E as <-; split; [intros; apply deref_old; assumption|].
  eexists; split; [apply deref_new|split; reflexivity].
Qed.

Lemma link_preserves_witness :
  deref sample 8 <> None /\ exists m', link sample 8 (header [10] 80) = Some m' /\ wf m'.
Proof.
  assert (E : exists b, deref sample 8 = Some b) by (vm_compute; eauto).
  destruct E as (b & Hb); split; [congruence|].
  destruct (link_preserves sample 8 b (header [10] 80) sample_wf Hb) as (m' & H1 & H2 & _); exists m'; auto.
Defined.

(** [SetTip] makes the active chain the branch of the new tip, whatever
    chain was active before (it stops early where the two meet): slot [i]
    is the tip's ancestor of height [i] and there are no other slots. *)
Theorem SetTip_branch m v p b :
  wf m -> is_chain m v -> deref m p = Some b ->
  let r := SetTip m v (Some p) in
  is_chain m r /\ Tip r = Some p /\ Height r = nHeight b /\
  forall h, entry r h = if (0 <=? h) && (h <=? nHeight b) then up m (Z.to_nat (nHeight b - h)) p else None.
Proof.
  intros Hw Hv Hp r; destruct (SetTip_spec m v p b Hw Hv Hp) as (C & HH & T); fold r in C, HH, T.
  pose proof (Hw p b Hp) as [H0 _]; repeat split; auto; intros h.
  destruct (Z.leb_spec h (nHeight b)); [|rewrite entry_none, andb_false_r by lia; reflexivity].
  destruct (Z.leb_spec 0 h); cbn [andb].
  - unfold Height in HH; rewrite (entry_nth r h (Z.to_nat h)) by lia.
    assert (N : nth (Z.to_nat (nHeight b)) r None = Some p).
    { unfold Tip in T; destruct r as [|x r'] eqn:Er; [discriminate|]; rewrite <- Er in *.
      rewrite <- T; f_equal; lia. }
    rewrite (is_chain_up m r C _ (Z.to_nat (nHeight b)) p) by (assumption || lia); f_equal; lia.
  - unfold entry; destruct (Z.ltb_spec h 0); [reflexivity|lia].
Qed.

Lemma SetTip_branch_witness :
  deref sample 8 <> None /\ is_chain sample (SetTip sample (SetTip sample [] (Some 6%nat)) (Some 8%nat)).
Proof.
  assert (E : exists b, deref sample 6 = Some b) by (vm_compute; eauto).
  assert (E' : exists b, deref sample 8 = Some b) by (vm_compute; eauto).
  destruct E as (b & Hb), E' as (b' & Hb'); split; [congruence|].
  assert (C0 : is_chain sample []) by (intros i Hi; cbn in Hi; lia).
  pose proof (SetTip_branch sample [] 6 b sample_wf C0 Hb) as (C1 & _).
  exact (proj1 (SetTip_branch sample _ 8 b' sample_wf C1 Hb')).
Defined.

(** [FindFork] returns the last block the branch of [p] has in common with
    the active chain: it is an ancestor of [p] in the chain, and no block of
    the branch above it is. *)
Theorem FindFork_correct m v p b :
  wf m -> is_chain m v -> deref m p = Some b -> same_genesis m v p ->
  exists r, FindFork m v p = Some r /\ last_common m v p r.
Proof. apply FindFork_spec. Qed.

Lemma FindFork_correct_witness :
  same_genesis sample (SetTip sample [] (Some 6%nat)) 8 /\
  FindFork sample (SetTip sample [] (Some 6%nat)) 8 = Some 3%nat /\
  last_common sample (SetTip sample [] (Some 6%nat)) 8 3.
Proof.
  assert (E : exists b, deref sample 8 = Some b) by (vm_compute; eauto).
  destruct E as (b & Hb).
  assert (G : same_genesis sample (SetTip sample [] (Some 6%nat)) 8).
  { exists b; split; [exact Hb|]; vm_compute in Hb; injection Hb as <-; vm_compute; split; [reflexivity|lia]. }
  assert (C : is_chain sample (SetTip sample [] (Some 6%nat))).
  { assert (E : exists c, deref sample 6 = Some c) by (vm_compute; eauto); destruct E as [c Hc].
    apply (SetTip_spec sample [] 6 c sample_wf); [intros i Hi; cbn in Hi; lia|exact Hc]. }
  destruct (FindFork_correct sample (SetTip sample [] (Some 6%nat)) 8 b sample_wf C Hb G) as (r & Er & L).
  assert (F : FindFork sample (SetTip sample [] (Some 6%nat)) 8 = Some 3%nat) by (vm_compute; reflexivity).
  split; [exact G|split; [exact F|]]; rewrite F in Er; injection Er as <-; exact L.
Defined.

(** A locator always ends: it lists hashes of ever lower ancestors of the
    start block, begins with the start block's own hash and ends with the
    genesis block's, whether the steps use the active chain or the skip
    list. *)
Theorem GetLocator_path m v p b :
  wf m -> is_chain m v -> deref m p = Some b ->
  exists qs, GetLocator m v (Some p) = map (hash_of m) qs /\ locator_path m p qs.
Proof.
  intros Hw Hv Hp; unfold GetLocator; rewrite Hp; eapply locator_loop_spec; eauto; lia.
Qed.

Lemma GetLocator_path_witness :
  deref sample 8 <> None /\ exists qs, GetLocator sample [] (Some 8%nat) = map (hash_of sample) qs /\ locator_path sample 8 qs.
Proof.
  assert (E : exists b, deref sample 8 = Some b) by (vm_compute; eauto).
  destruct E as (b & Hb); split; [congruence|].
  apply (GetLocator_path sample [] 8 b sample_wf); [intros i Hi; cbn in Hi; lia|exact Hb].
Defined.

(** The median time past is a time of one of the last (up to) 11 blocks,
    with [n / 2] of them not above it and the other [n - n / 2 - 1] not below
    it. *)
Theorem GetMedianTimePast_median m p b :
  deref m p = Some b ->
  let times := last_times nMedianTimeSpan m (Some p) in
  exists before after,
    Permutation times (before ++ GetMedianTimePast m p :: after) /\
    length before = (length times / 2)%nat /\
    Forall (fun t => t <= GetMedianTimePast m p) before /\
    Forall (fun t => GetMedianTimePast m p <= t) after.
Proof.
  intros Hp times; unfold GetMedianTimePast; fold times.
  pose proof (sort_perm times) as P; assert (L : length (sort times) = length times) by (apply Permutation_length, P).
  assert (Hn : (0 < length times)%nat).
  { unfold times, nMedianTimeSpan; cbn [last_times]; rewrite Hp; cbn [length]; lia. }
  destruct (sorted_middle (sort times) (length (sort times) / 2) (sort_sorted times)) as (l1 & l2 & E & H1 & H2 & H3).
  { rewrite L; apply Nat.div_lt; lia. }
  exists l1, l2; split; [rewrite <- P, E at 1; reflexivity|]; rewrite <- L; auto.
Qed.

Lemma GetMedianTimePast_median_witness :
  deref sample 8 <> None /\ GetMedianTimePast sample 8 = 40 /\
  exists before after, Permutation (last_times nMedianTimeSpan sample (Some 8%nat)) (before ++ GetMedianTimePast sample 8 :: after).
Proof.
  assert (E : exists b, deref sample 8 = Some b) by (vm_compute; eauto).
  destruct E as (b & Hb); split; [congruence|split; [vm_compute; reflexivity|]].
  destruct (GetMedianTimePast_median sample 8 b Hb) as (x & y & H & _); exists x, y; exact H.
Defined.

End Chain.
