(* ===== verification/HashStream.v ===== *)
(** The streaming interface shared by the hash classes of the program
    ([CSHA1], [CSHA256], [CSHA512], [CRIPEMD160] of [src/src/crypto/]): a
    chaining state, a buffer of one block and the number of bytes so far.

    Their [Write] and [Finalize] are the same code up to the block size, the
    compression function, the format of the length and the output; each hash
    file instantiates the definitions of this file with its own.  Proved once
    for all of them: however the message is split over calls of [Write], the
    digest is that of the padded message cut into blocks. *)
From S2P Require Import Prelude SphTypes SphStream.

Record hasher := mkHasher { s : list Z; buf : list Z; bytes : Z }.

Section HashStream.
(** The block size, [Transform], the initial state; then the number in the
    padding formula ([119] for 64-byte blocks with an 8-byte length), the
    length field for a number of bytes, and the output for a state. *)
Variable size : nat.
Variable Transform : list Z -> list Z -> list Z.
Variable Initialize : list Z.
Variable last : nat.
Variable sizedesc : Z -> list Z.
Variable out : list Z -> list Z.

Definition hasher_init : hasher := mkHasher Initialize (repeat 0 size) 0.

(** [while (end >= data + size)]: whole chunks straight from the input. *)
Fixpoint write_chunks (fuel : nat) (c : hasher) (data : list Z) : hasher * list Z :=
  match fuel with
  | O => (c, data)
  | S fuel =>
      if (size <=? length data)%nat
      then write_chunks fuel (mkHasher (Transform (s c) data) (buf c) (T64 (bytes c + Z.of_nat size))) (skipn size data)
      else (c, data)
  end.

Definition Write (c : hasher) (data : list Z) : hasher :=
  let bufsize := Z.to_nat (bytes c mod Z.of_nat size) in
  let '(c, data, bufsize) :=
    if negb (bufsize =? 0)%nat && (size <=? bufsize + length data)%nat then
      let b := memcpy (buf c) bufsize (firstn (size - bufsize) data) in
      (mkHasher (Transform (s c) b) b (T64 (bytes c + Z.of_nat (size - bufsize))), skipn (size - bufsize) data, 0%nat)
    else (c, data, bufsize) in
  let '(c, data) := write_chunks (length data) c data in
  if (0 <? length data)%nat
  then mkHasher (s c) (memcpy (buf c) bufsize data) (T64 (bytes c + Z.of_nat (length data)))
  else c.

Definition pad : list Z := 0x80 :: repeat 0 (size - 1).

Definition Finalize (c : hasher) : list Z :=
  let desc := sizedesc (bytes c) in
  let c' := Write c (firstn (Z.to_nat (1 + (Z.of_nat last - bytes c mod Z.of_nat size) mod Z.of_nat size)) pad) in
  let c' := Write c' desc in
  out (s c').

Definition Reset (c : hasher) : hasher := mkHasher Initialize (buf c) 0.

(** ** The specification *)

Definition step (b st : list Z) : list Z := Transform st b.

Definition padded (msg : list Z) : list Z :=
  msg ++ [0x80] ++ repeat 0 (Z.to_nat ((Z.of_nat last - Z.of_nat (length msg) mod Z.of_nat size) mod Z.of_nat size)) ++
  sizedesc (Z.of_nat (length msg)).

Definition digest (msg : list Z) : list Z :=
  let m := padded msg in out (run step (blocks size (length m / size) m) Initialize).

(** What a hasher holds once [msg] has been written to it: the hash of the
    whole blocks, the rest in the buffer, and the length modulo 2^64. *)
Definition whole (msg : list Z) : nat := (length msg / size)%nat.
Definition rest (msg : list Z) : list Z := skipn (size * whole msg) msg.

Definition absorbed (msg : list Z) (c : hasher) : Prop :=
  s c = run step (blocks size (whole msg) msg) Initialize /\
  length (buf c) = size /\ firstn (length (rest msg)) (buf c) = rest msg /\
  bytes c = Z.of_nat (length msg) mod 2 ^ 64.

Hypothesis size_pos : (0 < size)%nat.
Hypothesis size_64 : (Z.of_nat size | 2 ^ 64).
Hypothesis sizedesc_length : forall n, (last + 1 + length (sizedesc n) = 2 * size)%nat.
(** [Transform] reads one block. *)
Hypothesis Transform_firstn : forall st b, Transform st (firstn size b) = Transform st b.

Lemma msg_split msg : length msg = (size * whole msg + length msg mod size)%nat.
Proof. apply Nat.div_mod_eq. Qed.

Lemma rest_length msg : length (rest msg) = (length msg mod size)%nat.
Proof. unfold rest; rewrite length_skipn; pose proof (msg_split msg); lia. Qed.

Lemma rest_lt msg : (length (rest msg) < size)%nat.
Proof. rewrite rest_length; apply Nat.mod_upper_bound; lia. Qed.

Lemma absorbed_bufsize msg c : absorbed msg c -> Z.to_nat (bytes c mod Z.of_nat size) = length (rest msg).
Proof.
  intros (_ & _ & _ & ->); rewrite Z.mod_mod_divide by exact size_64.
  rewrite rest_length, <- Nat2Z.inj_mod; apply Nat2Z.id.
Qed.

Lemma bytes_app (msg d : list Z) c : bytes c = Z.of_nat (length msg) mod 2 ^ 64 ->
  T64 (bytes c + Z.of_nat (length d)) = Z.of_nat (length (msg ++ d)) mod 2 ^ 64.
Proof. intros ->; rewrite T64_mod, Zplus_mod_idemp_l, length_app; f_equal; lia. Qed.

Lemma whole_app (msg d : list Z) : (length (rest msg) + length d < size)%nat ->
  whole (msg ++ d) = whole msg /\ rest (msg ++ d) = rest msg ++ d.
Proof.
  intros H; pose proof (msg_split msg) as L; assert (E : whole (msg ++ d) = whole msg).
  { rewrite rest_length in H; unfold whole at 1; rewrite length_app.
    symmetry; apply (Nat.div_unique _ size _ (length msg mod size + length d)); lia. }
  split; [exact E|]; unfold rest; rewrite E, skipn_app; f_equal.
  replace (size * whole msg - length msg)%nat with 0%nat by lia; reflexivity.
Qed.

Lemma whole_fill msg d : (length (rest msg) + length d = size)%nat ->
  whole (msg ++ d) = S (whole msg) /\ rest (msg ++ d) = [] /\
  blocks size (S (whole msg)) (msg ++ d) = blocks size (whole msg) msg ++ [rest msg ++ d].
Proof.
  intros H; pose proof (msg_split msg) as L; assert (E : whole (msg ++ d) = S (whole msg)).
  { rewrite rest_length in H; unfold whole at 1; rewrite length_app.
    symmetry; apply (Nat.div_unique _ size _ 0); lia. }
  rewrite <- rest_length in L; split; [exact E|split].
  - unfold rest; rewrite E; apply skipn_all2; rewrite length_app; lia.
  - replace (S (whole msg)) with (whole msg + 1)%nat by lia.
    rewrite (blocks_tail size (whole msg) 1 msg (rest msg)) by (lia || (unfold rest; f_equal; lia)).
    rewrite (blocks_one size (rest msg ++ d)) by (rewrite length_app; exact H); reflexivity.
Qed.

(** A block completed in the buffer, or read past an empty buffer. *)
Lemma absorbed_fill msg d c b x :
  absorbed msg c -> (length (rest msg) + length d = size)%nat -> firstn size x = rest msg ++ d -> length b = size ->
  absorbed (msg ++ d) (mkHasher (Transform (s c) x) b (T64 (bytes c + Z.of_nat (length d)))).
Proof.
  intros (Hs & Hl & Hb & Hn) Hd Hx Hlb; destruct (whole_fill msg d Hd) as (E1 & E2 & E3).
  unfold absorbed; rewrite E1, E2, E3; cbn [s buf bytes].
  split; [|split; [exact Hlb|split; [reflexivity|apply bytes_app, Hn]]].
  rewrite run_app, <- Hx, <- Hs; cbn [run fold_left]; unfold step; rewrite Transform_firstn; reflexivity.
Qed.

(** Bytes that do not complete a block only go to the buffer. *)
Lemma absorbed_rest msg d c :
  absorbed msg c -> (length (rest msg) + length d < size)%nat ->
  absorbed (msg ++ d) (mkHasher (s c) (memcpy (buf c) (length (rest msg)) d) (T64 (bytes c + Z.of_nat (length d)))).
Proof.
  intros (Hs & Hl & Hb & Hn) Hd; destruct (whole_app msg d Hd) as (E1 & E2).
  pose proof (msg_split msg) as L; rewrite <- rest_length in L.
  unfold absorbed; rewrite E1, E2; cbn [s buf bytes]; split; [|split; [|split]].
  - rewrite Hs; f_equal; symmetry; rewrite !(blocks_full _ _ (msg ++ d)), (blocks_full _ _ msg)
      by (rewrite ?length_app; lia).
    rewrite firstn_app; replace (whole msg * size - length msg)%nat with 0%nat by lia.
    rewrite firstn_O, app_nil_r; reflexivity.
  - rewrite memcpy_length, Hl; reflexivity || lia.
  - rewrite length_app, memcpy_firstn, Hb by lia; reflexivity.
  - apply bytes_app, Hn.
Qed.

(** The chunk loop, from an empty buffer. *)
Lemma write_chunks_absorbed fuel : forall msg data c,
  absorbed msg c -> rest msg = [] -> (length data <= fuel)%nat ->
  let '(c', d') := write_chunks fuel c data in
  (length d' < size)%nat /\ exists d, data = d ++ d' /\ absorbed (msg ++ d) c' /\ rest (msg ++ d) = [].
Proof.
  induction fuel as [|fuel IH]; intros msg data c Hc Hr Hf; cbn [write_chunks].
  - split; [lia|]; exists []; rewrite app_nil_r; auto.
  - destruct (Nat.leb_spec size (length data)) as [H|H].
    + assert (L : length (firstn size data) = size) by (rewrite length_firstn; lia).
      pose proof (absorbed_fill msg (firstn size data) c (buf c) data Hc) as F.
      rewrite Hr, L in F; specialize (F eq_refl eq_refl (proj1 (proj2 Hc))).
      destruct (whole_fill msg (firstn size data)) as (_ & R & _); [rewrite Hr, L; reflexivity|].
      specialize (IH (msg ++ firstn size data) (skipn size data) _ F R ltac:(rewrite length_skipn; lia)).
      destruct (write_chunks _ _ _) as [c' d'].
      destruct IH as (I1 & d & I2 & I3 & I4); split; [exact I1|]; exists (firstn size data ++ d).
      rewrite <- app_assoc, <- I2, firstn_skipn, app_assoc; auto.
    + split; [exact H|]; exists []; rewrite app_nil_r; auto.
Qed.

Lemma write_chunks_none fuel c data : (length data < size)%nat -> write_chunks fuel c data = (c, data).
Proof.
  intros H; destruct fuel; [reflexivity|]; cbn [write_chunks].
  destruct (Nat.leb_spec size (length data)); [lia|reflexivity].
Qed.

(** The bytes left over go to the buffer. *)
Lemma absorbed_last m x d : absorbed m x -> (length (rest m) + length d < size)%nat ->
  absorbed (m ++ d)
    (if (0 <? length d)%nat
     then mkHasher (s x) (memcpy (buf x) (length (rest m)) d) (T64 (bytes x + Z.of_nat (length d))) else x).
Proof.
  intros Hx Hd; destruct (Nat.ltb_spec 0 (length d)); [apply absorbed_rest; assumption|].
  destruct d; [rewrite app_nil_r; exact Hx|cbn in *; lia].
Qed.

(** From an empty buffer. *)
Lemma Write_aligned msg data c : absorbed msg c -> rest msg = [] ->
  absorbed (msg ++ data)
    (let '(c, data) := write_chunks (length data) c data in
     if (0 <? length data)%nat
     then mkHasher (s c) (memcpy (buf c) 0 data) (T64 (bytes c + Z.of_nat (length data))) else c).
Proof.
  intros Hc R; pose proof (write_chunks_absorbed (length data) msg data c Hc R (le_n _)) as W.
  destruct (write_chunks _ _ _) as [c' d']; destruct W as (W1 & d & -> & W3 & W4).
  rewrite app_assoc; pose proof (absorbed_last _ c' d' W3) as L; rewrite W4 in L; apply L, W1.
Qed.

(** [Write] appends to what was written before, however the data falls on
    block boundaries. *)
Lemma Write_absorbed msg data c : absorbed msg c -> absorbed (msg ++ data) (Write c data).
Proof.
  intros Hc; unfold Write; rewrite (absorbed_bufsize msg c Hc); pose proof (rest_lt msg) as Hr.
  destruct (Nat.eqb_spec (length (rest msg)) 0) as [E|E]; cbn [negb andb].
  - rewrite E; apply Write_aligned; [exact Hc|destruct (rest msg); [reflexivity|discriminate E]].
  - destruct (Nat.leb_spec size (length (rest msg) + length data)) as [H|H].
    + set (n := (size - length (rest msg))%nat) in *.
      assert (L : length (firstn n data) = n) by (rewrite length_firstn; lia).
      set (b := memcpy (buf c) (length (rest msg)) (firstn n data)).
      pose proof Hc as (_ & Hl & Hb & _).
      assert (M : length b = size) by (unfold b; rewrite memcpy_length; lia).
      assert (Mb : firstn size b = rest msg ++ firstn n data).
      { pose proof (memcpy_firstn (buf c) (length (rest msg)) (firstn n data) ltac:(lia)) as F.
        rewrite Hb, L in F; replace (length (rest msg) + n)%nat with size in F by lia; exact F. }
      pose proof (absorbed_fill msg (firstn n data) c b b Hc ltac:(lia) Mb M) as F; rewrite L in F.
      destruct (whole_fill msg (firstn n data)) as (_ & R & _); [lia|].
      pose proof (Write_aligned _ (skipn n data) _ F R) as W; rewrite <- app_assoc, firstn_skipn in W; exact W.
    + rewrite write_chunks_none by lia; apply absorbed_last; assumption.
Qed.

Lemma absorbed_init b : length b = size -> absorbed [] (mkHasher Initialize b 0).
Proof.
  intros H; assert (E : whole [] = 0%nat) by (apply Nat.Div0.div_0_l).
  unfold absorbed, rest; rewrite E, Nat.mul_0_r, skipn_O; cbn [s buf bytes length firstn].
  repeat split; exact H.
Qed.

Lemma Write_all chunks : forall msg c, absorbed msg c ->
  absorbed (msg ++ concat chunks) (fold_left Write chunks c).
Proof.
  induction chunks as [|d ds IH]; intros msg c Hc; cbn [concat fold_left]; [rewrite app_nil_r; exact Hc|].
  rewrite app_assoc; apply IH, Write_absorbed, Hc.
Qed.

(** The bytes of [pad] that are written. *)
Lemma pad_firstn k : (k < size)%nat -> firstn (S k) pad = [0x80] ++ repeat 0 k.
Proof.
  intros H; unfold pad; cbn [firstn app]; f_equal; replace (size - 1)%nat with (k + (size - 1 - k))%nat by lia.
  rewrite repeat_app, firstn_app, repeat_length, Nat.sub_diag, firstn_O, app_nil_r.
  apply firstn_all2; rewrite repeat_length; lia.
Qed.

(** The padded message is a whole number of blocks. *)
Lemma padded_mod msg : (length (padded msg) mod size = 0)%nat.
Proof.
  unfold padded; rewrite !length_app, repeat_length; cbn [length].
  pose proof (sizedesc_length (Z.of_nat (length msg))) as D; set (l := length (sizedesc _)) in *.
  rewrite <- Nat2Z.inj_mod; set (m := (length msg mod size)%nat).
  assert (Hm : (m < size)%nat) by (apply Nat.mod_upper_bound; lia).
  pose proof (msg_split msg) as Hs; fold m in Hs.
  pose proof (Z.div_mod (Z.of_nat last - Z.of_nat m) (Z.of_nat size) ltac:(lia)) as Hd.
  pose proof (Z.mod_pos_bound (Z.of_nat last - Z.of_nat m) (Z.of_nat size) ltac:(lia)) as Hb.
  set (k := (_ - _) mod _) in *; set (q := (_ - _) / _) in *.
  apply Nat2Z.inj; rewrite Nat2Z.inj_mod.
  replace (Z.of_nat (length msg + (1 + (Z.to_nat k + l)))) with ((Z.of_nat (whole msg) + 2 - q) * Z.of_nat size) by nia.
  apply Z_mod_mult.
Qed.

(** Closing. *)
Lemma Finalize_digest msg c : absorbed msg c -> Z.of_nat (length msg) < 2 ^ 64 -> Finalize c = digest msg.
Proof.
  intros Hc Hlen; unfold Finalize; pose proof Hc as (_ & _ & _ & Hn).
  rewrite Z.mod_small in Hn by lia; rewrite Hn.
  set (k := (Z.of_nat last - Z.of_nat (length msg) mod Z.of_nat size) mod Z.of_nat size).
  assert (Hk : 0 <= k < Z.of_nat size) by (apply Z.mod_pos_bound; lia).
  replace (Z.to_nat (1 + k)) with (S (Z.to_nat k)) by lia; rewrite pad_firstn by lia.
  pose proof (Write_absorbed _ (sizedesc (Z.of_nat (length msg))) _
    (Write_absorbed msg ([0x80] ++ repeat 0 (Z.to_nat k)) c Hc)) as A.
  replace ((msg ++ [128] ++ repeat 0 (Z.to_nat k)) ++ _) with (padded msg) in A
    by (unfold padded; fold k; rewrite <- !app_assoc; reflexivity).
  destruct A as (As & _); rewrite As; reflexivity.
Qed.

End HashStream.
