(* ===== verification/Sha256.v ===== *)
(** SHA-256 and the double hash: [src/src/crypto/sha256.cpp], the byte order
    functions it uses from [src/src/crypto/common.h], and [CHash256] and [Hash]
    of [src/src/hash.h].

    [Transform] is unrolled in the source, each round naming the eight
    variables and the sixteen schedule words at their rotated places; round [i]
    here reads them at those places.  The specification is FIPS 180-4: a
    shift register and a 64-word schedule.  [Write] and [Finalize] are those of
    [HashStream]. *)
From S2P Require Import Prelude SphTypes SphStream HashStream.

Module Sha256.

(** ** Byte order *)

Definition ReadBE32 (ptr : list Z) : Z :=
  T32 (ptr.[0] << 24) .| T32 (ptr.[1] << 16) .| T32 (ptr.[2] << 8) .| ptr.[3].

Definition WriteBE32 (x : Z) : list Z := [T8 (x >> 24); T8 (x >> 16); T8 (x >> 8); T8 x].

Definition WriteBE64 (x : Z) : list Z :=
  [T8 (x >> 56); T8 (x >> 48); T8 (x >> 40); T8 (x >> 32); T8 (x >> 24); T8 (x >> 16); T8 (x >> 8); T8 x].

(** ** The compression function *)

Definition Ch (x y z : Z) : Z := z ⊕ (x .& (y ⊕ z)).
Definition Maj (x y z : Z) : Z := (x .& y) .| (z .& (x .| y)).
Definition Sigma0 (x : Z) : Z :=
  (x >> 2 .| T32 (x << 30)) ⊕ (x >> 13 .| T32 (x << 19)) ⊕ (x >> 22 .| T32 (x << 10)).
Definition Sigma1 (x : Z) : Z :=
  (x >> 6 .| T32 (x << 26)) ⊕ (x >> 11 .| T32 (x << 21)) ⊕ (x >> 25 .| T32 (x << 7)).
Definition sigma0 (x : Z) : Z :=
  (x >> 7 .| T32 (x << 25)) ⊕ (x >> 18 .| T32 (x << 14)) ⊕ (x >> 3).
Definition sigma1 (x : Z) : Z :=
  (x >> 17 .| T32 (x << 15)) ⊕ (x >> 19 .| T32 (x << 13)) ⊕ (x >> 10).

(** [Round] updates [d] and [h]. *)
Definition Round (a b c d e f g h k w : Z) : Z * Z :=
  let t1 := T32 (h + Sigma1 e + Ch e f g + k + w) in
  let t2 := T32 (Sigma0 a + Maj a b c) in
  (T32 (d + t1), T32 (t1 + t2)).

Definition Initialize : list Z :=
  [0x6a09e667; 0xbb67ae85; 0x3c6ef372; 0xa54ff53a; 0x510e527f; 0x9b05688c; 0x1f83d9ab; 0x5be0cd19].

(** The constants, in the order the rounds name them, eight rounds to a row. *)
Definition K_0_7 : list Z :=
  [0x428a2f98; 0x71374491; 0xb5c0fbcf; 0xe9b5dba5;
   0x3956c25b; 0x59f111f1; 0x923f82a4; 0xab1c5ed5].
Definition K_8_15 : list Z :=
  [0xd807aa98; 0x12835b01; 0x243185be; 0x550c7dc3;
   0x72be5d74; 0x80deb1fe; 0x9bdc06a7; 0xc19bf174].
Definition K_16_23 : list Z :=
  [0xe49b69c1; 0xefbe4786; 0x0fc19dc6; 0x240ca1cc;
   0x2de92c6f; 0x4a7484aa; 0x5cb0a9dc; 0x76f988da].
Definition K_24_31 : list Z :=
  [0x983e5152; 0xa831c66d; 0xb00327c8; 0xbf597fc7;
   0xc6e00bf3; 0xd5a79147; 0x06ca6351; 0x14292967].
Definition K_32_39 : list Z :=
  [0x27b70a85; 0x2e1b2138; 0x4d2c6dfc; 0x53380d13;
   0x650a7354; 0x766a0abb; 0x81c2c92e; 0x92722c85].
Definition K_40_47 : list Z :=
  [0xa2bfe8a1; 0xa81a664b; 0xc24b8b70; 0xc76c51a3;
   0xd192e819; 0xd6990624; 0xf40e3585; 0x106aa070].
Definition K_48_55 : list Z :=
  [0x19a4c116; 0x1e376c08; 0x2748774c; 0x34b0bcb5;
   0x391c0cb3; 0x4ed8aa4a; 0x5b9cca4f; 0x682e6ff3].
Definition K_56_63 : list Z :=
  [0x748f82ee; 0x78a5636f; 0x84c87814; 0x8cc70208;
   0x90befffa; 0xa4506ceb; 0xbef9a3f7; 0xc67178f2].

Definition K : list Z :=
  K_0_7 ++ K_8_15 ++ K_16_23 ++ K_24_31 ++
  K_32_39 ++ K_40_47 ++ K_48_55 ++ K_56_63.

(** Where round [i] finds its [j]-th variable: round 0 is called on [a .. h],
    round 1 on [h, a .. g], and so on. *)
Definition pos (i j : nat) : nat := ((j + 7 * i) mod 8)%nat.

Definition round_at (i : nat) (v : list Z) (k w : Z) : list Z :=
  let x j := v.[pos i j] in
  let '(d, h) := Round (x 0%nat) (x 1%nat) (x 2%nat) (x 3%nat) (x 4%nat) (x 5%nat) (x 6%nat) (x 7%nat) k w in
  upd (upd v (pos i 3) d) (pos i 7) h.

(** The word round [i] assigns: [ReadBE32] in the first sixteen,
    [w0 += sigma1(w14) + w9 + sigma0(w1)] and the like after. *)
Definition word_at (i : nat) (w : list Z) (chunk : list Z) : Z :=
  if (i <? 16)%nat then ReadBE32 (skipn (4 * i) chunk)
  else T32 (w.[i mod 16] + (sigma1 w.[(i + 14) mod 16] + w.[(i + 9) mod 16] + sigma0 w.[(i + 1) mod 16])).

Definition transform_step (chunk : list Z) (vw : list Z * list Z) (i : nat) : list Z * list Z :=
  let '(v, w) := vw in
  let wi := word_at i w chunk in
  (round_at i v K.[i] wi, upd w (i mod 16) wi).

Definition Transform (s : list Z) (chunk : list Z) : list Z :=
  let '(v, _) := fold_left (transform_step chunk) (seq 0 64) (s, repeat 0 16) in
  map (fun j => T32 (s.[j] + v.[j])) (seq 0 8).

(** ** [CSHA256]: the class of [HashStream] with this [Transform] *)

Definition CSHA256 : Type := hasher.

Definition CSHA256_init : CSHA256 := hasher_init 64 Initialize.

Definition Write : CSHA256 -> list Z -> CSHA256 := HashStream.Write 64 Transform.

Definition sizedesc (bytes : Z) : list Z := WriteBE64 (T64 (bytes << 3)).

Definition output (s : list Z) : list Z := flat_map (fun j => WriteBE32 s.[j]) (seq 0 8).

Definition Finalize : CSHA256 -> list Z := HashStream.Finalize 64 Transform 119 sizedesc output.

Definition Reset : CSHA256 -> CSHA256 := HashStream.Reset Initialize.

(** ** [CHash256]: SHA-256 twice *)

Definition CHash256_Finalize (sha : CSHA256) : list Z :=
  let b := Finalize sha in
  Finalize (Write (Reset sha) b).

(** [Hash(p1begin, p1end, p2begin, p2end)] and its one-range form. *)
Definition Hash (p1 : list Z) : list Z := CHash256_Finalize (Write CSHA256_init p1).
Definition Hash2 (p1 p2 : list Z) : list Z := CHash256_Finalize (Write (Write CSHA256_init p1) p2).

(** ** FIPS 180-4 *)

Module Fips.

Definition Ch (x y z : Z) : Z := (x .& y) ⊕ (Z.lnot x .& z).
Definition Maj (x y z : Z) : Z := (x .& y) ⊕ (x .& z) ⊕ (y .& z).

(** The message schedule: sixteen words of the block, then 48 expanded ones;
    [schedule n] is its first [n] words. *)
Fixpoint schedule (n : nat) (chunk : list Z) : list Z :=
  match n with
  | O => []
  | S t =>
      let w := schedule t chunk in
      w ++ [if (t <? 16)%nat then ReadBE32 (skipn (4 * t) chunk)
            else T32 (sigma1 w.[t - 2] + w.[t - 7] + sigma0 w.[t - 15] + w.[t - 16])]
  end.

(** One round on the register [a .. h]. *)
Definition round (v : list Z) (k w : Z) : list Z :=
  let a := v.[0] in let b := v.[1] in let c := v.[2] in let d := v.[3] in
  let e := v.[4] in let f := v.[5] in let g := v.[6] in let h := v.[7] in
  let t1 := T32 (h + Sigma1 e + Ch e f g + k + w) in
  let t2 := T32 (Sigma0 a + Maj a b c) in
  [T32 (t1 + t2); a; b; c; T32 (d + t1); e; f; g].

Definition rounds (n : nat) (st chunk : list Z) : list Z :=
  let w := schedule 64 chunk in
  fold_left (fun v t => round v K.[t] w.[t]) (seq 0 n) st.

Definition compress (chunk st : list Z) : list Z :=
  let v := rounds 64 st chunk in
  map (fun j => T32 (st.[j] + v.[j])) (seq 0 8).

(** The padded message: a 1 bit, zeros, the 64-bit length, a multiple of 64
    bytes. *)
Definition padded (msg : list Z) : list Z :=
  msg ++ [0x80] ++ repeat 0 (Z.to_nat ((119 - Z.of_nat (length msg) mod 64) mod 64)) ++
  sph_enc64be (8 * Z.of_nat (length msg)).

Definition sha256 (msg : list Z) : list Z :=
  let m := padded msg in
  flat_map sph_enc32be (run compress (blocks 64 (length m / 64) m) Initialize).

End Fips.

Lemma Ch_fips x y z : Ch x y z = Fips.Ch x y z.
Proof.
  unfold Ch, Fips.Ch; apply Z.bits_inj'; intros i Hi.
  rewrite !Z.lxor_spec, !Z.land_spec, Z.lxor_spec, Z.lnot_spec by exact Hi; btauto.
Qed.

Lemma Maj_fips x y z : Maj x y z = Fips.Maj x y z.
Proof.
  unfold Maj, Fips.Maj; apply Z.bits_inj'; intros i Hi.
  rewrite !Z.lxor_spec, Z.lor_spec, !Z.land_spec, Z.lor_spec; btauto.
Qed.

(** Renaming the variables is shifting the register. *)
Lemma pos_lt i j : (pos i j < 8)%nat.
Proof. apply Nat.mod_upper_bound; lia. Qed.

Lemma pos_S i j : pos (S i) (S j) = pos i j.
Proof. unfold pos; replace (S j + 7 * S i)%nat with (j + 7 * i + 1 * 8)%nat by lia; apply Nat.Div0.mod_add. Qed.

Lemma pos_S0 i : pos (S i) 0 = pos i 7.
Proof. unfold pos; f_equal; lia. Qed.

Lemma pos_inj i j k : (j < 8)%nat -> (k < 8)%nat -> pos i j = pos i k -> j = k.
Proof.
  unfold pos; intros Hj Hk E.
  pose proof (Nat.div_mod_eq (j + 7 * i) 8); pose proof (Nat.div_mod_eq (k + 7 * i) 8); lia.
Qed.

Definition aligned (i : nat) (v r : list Z) : Prop :=
  length v = 8%nat /\ forall j, (j < 8)%nat -> r.[j] = v.[pos i j].

Lemma round_aligned i v r k w : aligned i v r -> aligned (S i) (round_at i v k w) (Fips.round r k w).
Proof.
  intros [Hl H]; unfold round_at, Round; set (t1 := T32 (_ + k + w)); set (t2 := T32 (Sigma0 _ + _)).
  assert (E1 : T32 (r.[7] + Sigma1 r.[4] + Fips.Ch r.[4] r.[5] r.[6] + k + w) = t1)
    by (unfold t1; rewrite <- Ch_fips, !H by lia; reflexivity).
  assert (E2 : T32 (Sigma0 r.[0] + Fips.Maj r.[0] r.[1] r.[2]) = t2)
    by (unfold t2; rewrite <- Maj_fips, !H by lia; reflexivity).
  split; [rewrite !upd_length; exact Hl|]; intros j Hj.
  assert (P37 : pos i 3 <> pos i 7) by (intros E; apply pos_inj in E; lia).
  assert (G : forall m, (m < 7)%nat -> m <> 3%nat ->
    (upd (upd v (pos i 3) (T32 (v.[pos i 3] + t1))) (pos i 7) (T32 (t1 + t2))).[pos i m] = r.[m]).
  { intros m Hm Hm3; rewrite !get_upd_ne by (intros E; apply pos_inj in E; lia); symmetry; apply H; lia. }
  destruct j as [|j]; [rewrite pos_S0|rewrite pos_S].
  - rewrite get_upd_eq by (rewrite upd_length, Hl; apply pos_lt).
    unfold Fips.round; rewrite E1, E2; reflexivity.
  - unfold Fips.round; rewrite E1, E2.
    destruct j as [|[|[|[|[|[|[|j]]]]]]]; try lia; try (symmetry; apply G; lia).
    rewrite get_upd_ne, get_upd_eq by (congruence || (rewrite Hl; apply pos_lt)).
    rewrite <- H by lia; reflexivity.
Qed.

(** The circular schedule holds the last sixteen words. *)
Lemma schedule_length n chunk : length (Fips.schedule n chunk) = n.
Proof. induction n as [|n IH]; [reflexivity|]; cbn [Fips.schedule]; rewrite length_app, IH; cbn; lia. Qed.

Lemma schedule_prefix n chunk m t : (t < n)%nat -> (n <= m)%nat ->
  (Fips.schedule m chunk).[t] = (Fips.schedule n chunk).[t].
Proof.
  intros Ht; induction 1 as [|m Hm IH]; [reflexivity|]; cbn [Fips.schedule].
  rewrite get_app_l by (rewrite schedule_length; lia); exact IH.
Qed.

Section Transform.
Variables chunk W : list Z.
Hypothesis HW : Fips.schedule 64 chunk = W.

Lemma W_spec t : (t < 64)%nat ->
  W.[t] = if (t <? 16)%nat then ReadBE32 (skipn (4 * t) chunk)
          else T32 (sigma1 W.[t - 2] + W.[t - 7] + sigma0 W.[t - 15] + W.[t - 16]).
Proof.
  intros Ht; rewrite <- HW at 1; rewrite (schedule_prefix (S t)) by lia; cbn [Fips.schedule].
  rewrite get_app_r by (rewrite schedule_length; lia); rewrite schedule_length, Nat.sub_diag; cbn [get nth].
  destruct (Nat.ltb_spec t 16) as [|Hge]; [reflexivity|].
  assert (E : forall k, (0 < k <= 16)%nat -> (Fips.schedule t chunk).[t - k] = W.[t - k])
    by (intros k Hk; rewrite <- HW; symmetry; apply schedule_prefix; lia).
  rewrite !E by lia; reflexivity.
Qed.

Definition window (i : nat) (w : list Z) : Prop :=
  length w = 16%nat /\ forall t, (t < i <= t + 16)%nat -> w.[t mod 16] = W.[t].

Lemma window_get i w j k : window i w -> (16 <= i)%nat -> (0 < k <= 16)%nat -> (j + k = 16)%nat ->
  w.[(i + j) mod 16] = W.[i - k].
Proof.
  intros [_ H] Hi Hk Hj; rewrite <- H by lia; f_equal.
  replace (i + j)%nat with (i - k + 1 * 16)%nat by lia; apply Nat.Div0.mod_add.
Qed.

Lemma word_at_W i w : window i w -> (i < 64)%nat -> word_at i w chunk = W.[i].
Proof.
  intros H Hi; rewrite W_spec by exact Hi; unfold word_at; destruct (Nat.ltb_spec i 16) as [|Hge]; [reflexivity|].
  rewrite (window_get i w 14 2), (window_get i w 9 7), (window_get i w 1 15) by (assumption || lia).
  replace (i mod 16)%nat with ((i + 0) mod 16)%nat by (f_equal; lia).
  rewrite (window_get i w 0 16) by (assumption || lia); f_equal; ring.
Qed.

Lemma window_S i w : window i w -> window (S i) (upd w (i mod 16) W.[i]).
Proof.
  intros [Hl H]; split; [rewrite upd_length; exact Hl|]; intros t Ht.
  assert (Hm : (i mod 16 < 16)%nat) by (apply Nat.mod_upper_bound; lia).
  destruct (Nat.eq_dec t i) as [->|Hne]; [apply get_upd_eq; lia|].
  rewrite get_upd_ne; [apply H; lia|].
  pose proof (Nat.div_mod_eq i 16); pose proof (Nat.div_mod_eq t 16); lia.
Qed.

(** The unrolled rounds compute what the register of the standard holds, up
    to the naming of the variables. *)
Lemma rounds_spec st n : length st = 8%nat -> (n <= 64)%nat ->
  let '(v, w) := fold_left (transform_step chunk) (seq 0 n) (st, repeat 0 16) in
  aligned n v (Fips.rounds n st chunk) /\ window n w.
Proof.
  intros Hst; induction n as [|n IH]; intros Hn.
  - split; [|split; [reflexivity|intros; lia]]; split; [exact Hst|].
    intros j Hj; unfold pos; rewrite Nat.mod_small by lia; rewrite Nat.add_0_r; reflexivity.
  - unfold Fips.rounds in *; rewrite HW in *; rewrite seq_S, !fold_left_app; cbn [fold_left Nat.add].
    specialize (IH ltac:(lia)); destruct (fold_left _ _ _) as [v w]; destruct IH as [A B].
    unfold transform_step; rewrite (word_at_W n w B) by lia; split; [apply round_aligned, A|apply window_S, B].
Qed.

End Transform.

Lemma Transform_fips st chunk : length st = 8%nat -> Transform st chunk = Fips.compress chunk st.
Proof.
  intros Hst; pose proof (rounds_spec chunk _ eq_refl st 64 Hst (le_n _)) as R; unfold Transform.
  destruct (fold_left _ _ _) as [v w]; destruct R as [[_ R] _]; unfold Fips.compress.
  apply map_ext_in; intros j Hj; apply in_seq in Hj; rewrite R by lia; do 3 f_equal.
  unfold pos; change (7 * 64)%nat with (56 * 8)%nat; rewrite Nat.Div0.mod_add, Nat.mod_small; lia.
Qed.

Lemma Transform_length st chunk : length (Transform st chunk) = 8%nat.
Proof. unfold Transform; destruct (fold_left _ _ _); reflexivity. Qed.

(** ** The stream *)

Lemma sha256_word_at_firstn i w chunk : word_at i w (firstn 64 chunk) = word_at i w chunk.
Proof.
  unfold word_at; destruct (Nat.ltb_spec i 16) as [H|]; [|reflexivity].
  unfold ReadBE32; rewrite !get_skipn, !get_firstn by lia; reflexivity.
Qed.

Lemma sha256_Transform_firstn st chunk : Transform st (firstn 64 chunk) = Transform st chunk.
Proof.
  unfold Transform; rewrite (fold_left_ext (transform_step (firstn 64 chunk)) (transform_step chunk)); [reflexivity|].
  intros [v w] i _; unfold transform_step; rewrite sha256_word_at_firstn; reflexivity.
Qed.

Lemma compress_length chunk st : length (Fips.compress chunk st) = 8%nat.
Proof. reflexivity. Qed.

Lemma run_fips bs : run (step Transform) bs Initialize = run Fips.compress bs Initialize /\
  length (run Fips.compress bs Initialize) = 8%nat.
Proof.
  apply (fold_left_sim (fun st => st) (fun st => length st = 8%nat)
    (fun st b => step Transform b st) (fun st b => Fips.compress b st)); [|reflexivity].
  intros b st _ Hst; split; [apply Transform_fips, Hst|apply compress_length].
Qed.

Lemma output_enc st : length st = 8%nat -> output st = flat_map sph_enc32be st.
Proof. intros H; do 8 (destruct st as [|? st]; [discriminate H|]); destruct st; [reflexivity|discriminate H]. Qed.

Lemma sizedesc_bits n : 0 <= 8 * n < 2 ^ 64 -> sizedesc n = sph_enc64be (8 * n).
Proof.
  intros H; unfold sizedesc; rewrite Z.shiftl_mul_pow2 by lia; replace (n * 2 ^ 3) with (8 * n) by lia.
  rewrite T64_id by exact H; reflexivity.
Qed.

(** The digest of the class is SHA-256. *)
Lemma digest_fips msg : 8 * Z.of_nat (length msg) < 2 ^ 64 ->
  digest 64 Transform Initialize 119 sizedesc output msg = Fips.sha256 msg.
Proof.
  intros H; unfold digest, Fips.sha256; cbv zeta.
  assert (E : padded 64 119 sizedesc msg = Fips.padded msg) by (unfold padded, Fips.padded; rewrite sizedesc_bits by lia; cbv zeta; reflexivity).
  rewrite E, (proj1 (run_fips _)); apply output_enc, run_fips.
Qed.

Definition absorbed : list Z -> CSHA256 -> Prop := HashStream.absorbed 64 Transform Initialize.

Lemma sha256_absorbed_init b : length b = 64%nat -> absorbed [] (mkHasher Initialize b 0).
Proof. apply (HashStream.absorbed_init 64 Transform Initialize). Qed.

Lemma sha256_Write_absorbed msg data c : absorbed msg c -> absorbed (msg ++ data) (Write c data).
Proof.
  apply (HashStream.Write_absorbed 64 Transform Initialize); [lia|exists (2 ^ 58); reflexivity|exact sha256_Transform_firstn].
Qed.

Lemma sha256_Write_all chunks msg c : absorbed msg c -> absorbed (msg ++ concat chunks) (fold_left Write chunks c).
Proof.
  apply (HashStream.Write_all 64 Transform Initialize); [lia|exists (2 ^ 58); reflexivity|exact sha256_Transform_firstn].
Qed.

Lemma sha256_Finalize_digest msg c : absorbed msg c -> 8 * Z.of_nat (length msg) < 2 ^ 64 -> Finalize c = Fips.sha256 msg.
Proof.
  intros Hc H; rewrite <- digest_fips by exact H.
  apply (HashStream.Finalize_digest 64 Transform Initialize 119 sizedesc output);
    [lia|exists (2 ^ 58); reflexivity|exact sha256_Transform_firstn|exact Hc|lia].
Qed.

Lemma sha256_length msg : length (Fips.sha256 msg) = 32%nat.
Proof.
  unfold Fips.sha256; cbv zeta; set (r := run _ _ _); assert (Hr : length r = 8%nat) by apply run_fips.
  rewrite (flat_map_constant_length (c := 4)), Hr by reflexivity; reflexivity.
Qed.

Lemma CHash256_digest msg c : absorbed msg c -> 8 * Z.of_nat (length msg) < 2 ^ 64 ->
  CHash256_Finalize c = Fips.sha256 (Fips.sha256 msg).
Proof.
  intros Hc Hl; unfold CHash256_Finalize; rewrite (sha256_Finalize_digest msg c Hc Hl).
  apply sha256_Finalize_digest; [|rewrite sha256_length; reflexivity].
  apply (sha256_Write_absorbed []), sha256_absorbed_init, Hc.
Qed.

(** The unrolled compression function, with its rotated variable names and
    sixteen circular schedule words, is the compression function of FIPS 180-4
    on every state and block. *)
Theorem Transform_is_fips st chunk :
  length st = 8%nat -> Transform st chunk = Fips.compress chunk st.
Proof. exact (Transform_fips st chunk). Qed.

Lemma Transform_is_fips_witness :
  length Initialize = 8%nat /\ Transform Initialize (repeat 0 64) = Fips.compress (repeat 0 64) Initialize.
Proof. split; [reflexivity|exact (Transform_is_fips Initialize (repeat 0 64) eq_refl)]. Defined.

(** C39: however a message is split over calls of [Write], the digest is
    SHA-256 of the whole message, and [CHash256] is SHA-256 twice; the buffer
    is never overrun and every loop ends. *)
Theorem sha256_stream chunks :
  let msg := concat chunks in
  8 * Z.of_nat (length msg) < 2 ^ 64 ->
  let c := fold_left Write chunks CSHA256_init in
  Finalize c = Fips.sha256 msg /\ CHash256_Finalize c = Fips.sha256 (Fips.sha256 msg) /\
  length (buf c) = 64%nat.
Proof.
  intros msg Hl c; pose proof (sha256_Write_all chunks [] CSHA256_init (sha256_absorbed_init (repeat 0 64) eq_refl)) as A.
  cbn [app] in A; fold msg c in A.
  split; [apply sha256_Finalize_digest|split; [apply CHash256_digest|apply A]]; assumption.
Qed.

Lemma sha256_stream_witness :
  8 * Z.of_nat (length (concat [[97]; [98; 99]])) < 2 ^ 64 /\
  Finalize (fold_left Write [[97]; [98; 99]] CSHA256_init) = Fips.sha256 [97; 98; 99].
Proof. split; [reflexivity|]; apply (sha256_stream [[97]; [98; 99]]); reflexivity. Defined.

End Sha256.
