(* ===== verification/Sha512.v ===== *)
(** SHA-512: [src/src/crypto/sha512.cpp].

    [Transform] is unrolled in the source with rotated variable names, as in
    SHA-256; round [i] here reads the variables and schedule words at the
    places it names.  The class is that of [HashStream] with 128-byte blocks
    and a 16-byte length of which the code fills the last 8. *)
From S2P Require Import Prelude SphTypes SphStream HashStream Sha256.

Module Sha512.

Definition ReadBE64 (ptr : list Z) : Z := sph_dec64be ptr.

Definition Ch (x y z : Z) : Z := z ⊕ (x .& (y ⊕ z)).
Definition Maj (x y z : Z) : Z := (x .& y) .| (z .& (x .| y)).
Definition Sigma0 (x : Z) : Z :=
  (x >> 28 .| T64 (x << 36)) ⊕ (x >> 34 .| T64 (x << 30)) ⊕ (x >> 39 .| T64 (x << 25)).
Definition Sigma1 (x : Z) : Z :=
  (x >> 14 .| T64 (x << 50)) ⊕ (x >> 18 .| T64 (x << 46)) ⊕ (x >> 41 .| T64 (x << 23)).
Definition sigma0 (x : Z) : Z :=
  (x >> 1 .| T64 (x << 63)) ⊕ (x >> 8 .| T64 (x << 56)) ⊕ (x >> 7).
Definition sigma1 (x : Z) : Z :=
  (x >> 19 .| T64 (x << 45)) ⊕ (x >> 61 .| T64 (x << 3)) ⊕ (x >> 6).

(** [Round] updates [d] and [h]. *)
Definition Round (a b c d e f g h k w : Z) : Z * Z :=
  let t1 := T64 (h + Sigma1 e + Ch e f g + k + w) in
  let t2 := T64 (Sigma0 a + Maj a b c) in
  (T64 (d + t1), T64 (t1 + t2)).

Definition Initialize : list Z :=
  [0x6a09e667f3bcc908; 0xbb67ae8584caa73b; 0x3c6ef372fe94f82b; 0xa54ff53a5f1d36f1;
   0x510e527fade682d1; 0x9b05688c2b3e6c1f; 0x1f83d9abfb41bd6b; 0x5be0cd19137e2179].

(** The constants the rounds name, eight rounds to a row. *)
Definition K_0_7 : list Z :=
  [0x428a2f98d728ae22; 0x7137449123ef65cd; 0xb5c0fbcfec4d3b2f; 0xe9b5dba58189dbbc;
   0x3956c25bf348b538; 0x59f111f1b605d019; 0x923f82a4af194f9b; 0xab1c5ed5da6d8118].
Definition K_8_15 : list Z :=
  [0xd807aa98a3030242; 0x12835b0145706fbe; 0x243185be4ee4b28c; 0x550c7dc3d5ffb4e2;
   0x72be5d74f27b896f; 0x80deb1fe3b1696b1; 0x9bdc06a725c71235; 0xc19bf174cf692694].
Definition K_16_23 : list Z :=
  [0xe49b69c19ef14ad2; 0xefbe4786384f25e3; 0x0fc19dc68b8cd5b5; 0x240ca1cc77ac9c65;
   0x2de92c6f592b0275; 0x4a7484aa6ea6e483; 0x5cb0a9dcbd41fbd4; 0x76f988da831153b5].
Definition K_24_31 : list Z :=
  [0x983e5152ee66dfab; 0xa831c66d2db43210; 0xb00327c898fb213f; 0xbf597fc7beef0ee4;
   0xc6e00bf33da88fc2; 0xd5a79147930aa725; 0x06ca6351e003826f; 0x142929670a0e6e70].
Definition K_32_39 : list Z :=
  [0x27b70a8546d22ffc; 0x2e1b21385c26c926; 0x4d2c6dfc5ac42aed; 0x53380d139d95b3df;
   0x650a73548baf63de; 0x766a0abb3c77b2a8; 0x81c2c92e47edaee6; 0x92722c851482353b].
Definition K_40_47 : list Z :=
  [0xa2bfe8a14cf10364; 0xa81a664bbc423001; 0xc24b8b70d0f89791; 0xc76c51a30654be30;
   0xd192e819d6ef5218; 0xd69906245565a910; 0xf40e35855771202a; 0x106aa07032bbd1b8].
Definition K_48_55 : list Z :=
  [0x19a4c116b8d2d0c8; 0x1e376c085141ab53; 0x2748774cdf8eeb99; 0x34b0bcb5e19b48a8;
   0x391c0cb3c5c95a63; 0x4ed8aa4ae3418acb; 0x5b9cca4f7763e373; 0x682e6ff3d6b2b8a3].
Definition K_56_63 : list Z :=
  [0x748f82ee5defb2fc; 0x78a5636f43172f60; 0x84c87814a1f0ab72; 0x8cc702081a6439ec;
   0x90befffa23631e28; 0xa4506cebde82bde9; 0xbef9a3f7b2c67915; 0xc67178f2e372532b].
Definition K_64_71 : list Z :=
  [0xca273eceea26619c; 0xd186b8c721c0c207; 0xeada7dd6cde0eb1e; 0xf57d4f7fee6ed178;
   0x06f067aa72176fba; 0x0a637dc5a2c898a6; 0x113f9804bef90dae; 0x1b710b35131c471b].
Definition K_72_79 : list Z :=
  [0x28db77f523047d84; 0x32caab7b40c72493; 0x3c9ebe0a15c9bebc; 0x431d67c49c100d4c;
   0x4cc5d4becb3e42b6; 0x597f299cfc657e2a; 0x5fcb6fab3ad6faec; 0x6c44198c4a475817].

Definition K : list Z :=
  K_0_7 ++ K_8_15 ++ K_16_23 ++ K_24_31 ++ K_32_39 ++ K_40_47 ++ K_48_55 ++ K_56_63 ++ K_64_71 ++ K_72_79.

Definition round_at (i : nat) (v : list Z) (k w : Z) : list Z :=
  let x j := v.[Sha256.pos i j] in
  let '(d, h) := Round (x 0%nat) (x 1%nat) (x 2%nat) (x 3%nat) (x 4%nat) (x 5%nat) (x 6%nat) (x 7%nat) k w in
  upd (upd v (Sha256.pos i 3) d) (Sha256.pos i 7) h.

Definition word_at (i : nat) (w : list Z) (chunk : list Z) : Z :=
  if (i <? 16)%nat then ReadBE64 (skipn (8 * i) chunk)
  else T64 (w.[i mod 16] + (sigma1 w.[(i + 14) mod 16] + w.[(i + 9) mod 16] + sigma0 w.[(i + 1) mod 16])).

Definition transform_step (chunk : list Z) (vw : list Z * list Z) (i : nat) : list Z * list Z :=
  let '(v, w) := vw in
  let wi := word_at i w chunk in
  (round_at i v K.[i] wi, upd w (i mod 16) wi).

Definition Transform (s : list Z) (chunk : list Z) : list Z :=
  let '(v, _) := fold_left (transform_step chunk) (seq 0 80) (s, repeat 0 16) in
  map (fun j => T64 (s.[j] + v.[j])) (seq 0 8).

(** ** [CSHA512] *)

Definition CSHA512 : Type := hasher.

Definition CSHA512_init : CSHA512 := hasher_init 128 Initialize.

Definition Write : CSHA512 -> list Z -> CSHA512 := HashStream.Write 128 Transform.

Definition sizedesc (bytes : Z) : list Z := repeat 0 8 ++ Sha256.WriteBE64 (T64 (bytes << 3)).

Definition output (s : list Z) : list Z := flat_map (fun j => Sha256.WriteBE64 s.[j]) (seq 0 8).

Definition Finalize : CSHA512 -> list Z := HashStream.Finalize 128 Transform 239 sizedesc output.

Definition Reset : CSHA512 -> CSHA512 := HashStream.Reset Initialize.

(** The digest of a whole message. *)
Definition sha512 (msg : list Z) : list Z := digest 128 Transform Initialize 239 sizedesc output msg.

Lemma sha512_word_at_firstn i w chunk : word_at i w (firstn 128 chunk) = word_at i w chunk.
Proof.
  unfold word_at; destruct (Nat.ltb_spec i 16) as [H|]; [|reflexivity].
  unfold ReadBE64; symmetry; apply dec64be_firstn_skipn; lia.
Qed.

Lemma sha512_Transform_firstn st chunk : Transform st (firstn 128 chunk) = Transform st chunk.
Proof.
  unfold Transform; rewrite (fold_left_ext (transform_step (firstn 128 chunk)) (transform_step chunk)); [reflexivity|].
  intros [v w] i _; unfold transform_step; rewrite sha512_word_at_firstn; reflexivity.
Qed.

Definition absorbed : list Z -> CSHA512 -> Prop := HashStream.absorbed 128 Transform Initialize.

Lemma sha512_absorbed_init b : length b = 128%nat -> absorbed [] (mkHasher Initialize b 0).
Proof. apply (HashStream.absorbed_init 128 Transform Initialize). Qed.

Lemma sha512_Write_absorbed msg data c : absorbed msg c -> absorbed (msg ++ data) (Write c data).
Proof.
  apply (HashStream.Write_absorbed 128 Transform Initialize); [lia|exists (2 ^ 57); reflexivity|exact sha512_Transform_firstn].
Qed.

Lemma sha512_Finalize_digest msg c : absorbed msg c -> Z.of_nat (length msg) < 2 ^ 64 -> Finalize c = sha512 msg.
Proof.
  apply (HashStream.Finalize_digest 128 Transform Initialize 239 sizedesc output);
    [lia|exists (2 ^ 57); reflexivity|exact sha512_Transform_firstn].
Qed.

Lemma sha512_length msg : length (sha512 msg) = 64%nat.
Proof. unfold sha512, digest, output; rewrite (flat_map_constant_length (c := 8)) by reflexivity; reflexivity. Qed.

(** SHA-512 of "abc", from FIPS 180-4. *)
Example sha512_abc :
  fold_left (fun a b => 256 * a + b) (Finalize (Write CSHA512_init [97; 98; 99])) 0
  = 0xddaf35a193617abacc417349ae20413112e6fa4e89a97ea20a9eeee64b55d39a2192992a274fc1a836ba3c23a3feebbd454d4423643ce80e2a9ac94fa54ca49f.
Proof. vm_compute; reflexivity. Qed.

End Sha512.
