(* ===== verification/Hmac.v ===== *)
(** HMAC: [src/src/crypto/hmac_sha256.cpp] and [hmac_sha512.cpp].

    Both classes keep two hashers, keyed by the constructor: it pads or hashes
    the key to a block, adds [0x5c] to every byte for [outer], then [0x5c ^
    0x36] to the result for [inner].  The specification is RFC 2104. *)
From S2P Require Import Prelude SphTypes SphStream HashStream Sha256 Sha512.

Module Hmac.

(** [for (int n = 0; n < size; n++) rkey[n] ^= x]. *)
Definition xor_all (x : Z) (rkey : list Z) : list Z := map (fun b => b ⊕ x) rkey.

Record CHMAC := mkHMAC { outer : hasher; inner : hasher }.

(** ** [CHMAC_SHA256] *)

Definition CHMAC_SHA256_init (key : list Z) : CHMAC :=
  let rkey :=
    if (length key <=? 64)%nat then key ++ repeat 0 (64 - length key)
    else Sha256.Finalize (Sha256.Write Sha256.CSHA256_init key) ++ repeat 0 32 in
  let rkey := xor_all 0x5c rkey in
  let outer := Sha256.Write Sha256.CSHA256_init rkey in
  let rkey := xor_all (0x5c ⊕ 0x36) rkey in
  let inner := Sha256.Write Sha256.CSHA256_init rkey in
  mkHMAC outer inner.

Definition CHMAC_SHA256_Write (c : CHMAC) (data : list Z) : CHMAC :=
  mkHMAC (outer c) (Sha256.Write (inner c) data).

Definition CHMAC_SHA256_Finalize (c : CHMAC) : list Z :=
  let temp := Sha256.Finalize (inner c) in
  Sha256.Finalize (Sha256.Write (outer c) temp).

(** ** [CHMAC_SHA512] *)

Definition CHMAC_SHA512_init (key : list Z) : CHMAC :=
  let rkey :=
    if (length key <=? 128)%nat then key ++ repeat 0 (128 - length key)
    else Sha512.Finalize (Sha512.Write Sha512.CSHA512_init key) ++ repeat 0 64 in
  let rkey := xor_all 0x5c rkey in
  let outer := Sha512.Write Sha512.CSHA512_init rkey in
  let rkey := xor_all (0x5c ⊕ 0x36) rkey in
  let inner := Sha512.Write Sha512.CSHA512_init rkey in
  mkHMAC outer inner.

Definition CHMAC_SHA512_Write (c : CHMAC) (data : list Z) : CHMAC :=
  mkHMAC (outer c) (Sha512.Write (inner c) data).

Definition CHMAC_SHA512_Finalize (c : CHMAC) : list Z :=
  let temp := Sha512.Finalize (inner c) in
  Sha512.Finalize (Sha512.Write (outer c) temp).

(** ** RFC 2104 *)

Section Rfc2104.
Variable B : nat.
Variable H : list Z -> list Z.

Definition block_key (key : list Z) : list Z :=
  let k := if (length key <=? B)%nat then key else H key in k ++ repeat 0 (B - length k).

Definition rfc2104 (key text : list Z) : list Z :=
  H (map (Z.lxor 0x5c) (block_key key) ++ H (map (Z.lxor 0x36) (block_key key) ++ text)).

End Rfc2104.

(** The two passes over the key leave the outer and the inner pad. *)
Lemma xor_outer k : xor_all 0x5c k = map (Z.lxor 0x5c) k.
Proof. apply map_ext; intros b; apply Z.lxor_comm. Qed.

Lemma xor_inner k : xor_all (0x5c ⊕ 0x36) (xor_all 0x5c k) = map (Z.lxor 0x36) k.
Proof.
  unfold xor_all; rewrite map_map; apply map_ext; intros b.
  rewrite <- Z.lxor_assoc, lxor_cancel_r; apply Z.lxor_comm.
Qed.

(** An instance of the class, from the laws of its hasher. *)
Section Correct.
Variables (B : nat) (init : hasher) (Write : hasher -> list Z -> hasher) (Finalize : hasher -> list Z).
Variables (H : list Z -> list Z) (absorbed : list Z -> hasher -> Prop) (bound : Z).
Hypothesis init_ok : absorbed [] init.
Hypothesis Write_ok : forall msg data c, absorbed msg c -> absorbed (msg ++ data) (Write c data).
Hypothesis Finalize_ok : forall msg c, absorbed msg c -> Z.of_nat (length msg) < bound -> Finalize c = H msg.
Hypothesis H_length : forall msg, (length (H msg) <= B)%nat.
Hypothesis B_bound : Z.of_nat B + Z.of_nat B < bound.

Lemma block_key_length key : length (block_key B H key) = B.
Proof.
  unfold block_key; cbv zeta; rewrite length_app, repeat_length.
  destruct (Nat.leb_spec (length key) B); [|pose proof (H_length key)]; lia.
Qed.

Lemma hmac_correct key texts : Z.of_nat B + Z.of_nat (length (concat texts)) < bound ->
  let k := block_key B H key in
  Finalize (Write (Write init (xor_all 0x5c k))
    (Finalize (fold_left Write texts (Write init (xor_all (0x5c ⊕ 0x36) (xor_all 0x5c k))))))
  = rfc2104 B H key (concat texts).
Proof.
  intros Ht k; unfold rfc2104; fold k; rewrite xor_inner, xor_outer.
  assert (Hi : forall ts msg c, absorbed msg c -> absorbed (msg ++ concat ts) (fold_left Write ts c)).
  { induction ts as [|t ts IH]; intros msg c Hc; cbn [concat fold_left]; [rewrite app_nil_r; exact Hc|].
    rewrite app_assoc; apply IH, Write_ok, Hc. }
  assert (L : forall x, length (map (Z.lxor x) k) = B) by (intros x; rewrite length_map; apply block_key_length).
  rewrite (Finalize_ok (map (Z.lxor 0x36) k ++ concat texts) (fold_left Write texts (Write init (map (Z.lxor 0x36) k)))).
  - apply Finalize_ok; [apply Write_ok, (Write_ok []), init_ok|].
    rewrite length_app, L; pose proof (H_length (map (Z.lxor 0x36) k ++ concat texts)); lia.
  - apply Hi, (Write_ok []), init_ok.
  - rewrite length_app, L; lia.
Qed.

End Correct.

(** [CHMAC_SHA256] and [CHMAC_SHA512], keyed with a short or a long key
    and fed a text in pieces, compute HMAC as RFC 2104 defines it from the
    hash functions. *)
Theorem hmac_rfc2104 key texts :
  8 * Z.of_nat (length key) < 2 ^ 64 -> 8 * (128 + Z.of_nat (length (concat texts))) < 2 ^ 64 ->
  CHMAC_SHA256_Finalize (fold_left CHMAC_SHA256_Write texts (CHMAC_SHA256_init key))
  = rfc2104 64 Sha256.Fips.sha256 key (concat texts) /\
  CHMAC_SHA512_Finalize (fold_left CHMAC_SHA512_Write texts (CHMAC_SHA512_init key))
  = rfc2104 128 Sha512.sha512 key (concat texts).
Proof.
  intros Hk Ht.
  assert (W256 : forall ts c, fold_left CHMAC_SHA256_Write ts c = mkHMAC (outer c) (fold_left Sha256.Write ts (inner c))).
  { induction ts as [|t ts IH]; intros [o i]; [reflexivity|apply IH]. }
  assert (W512 : forall ts c, fold_left CHMAC_SHA512_Write ts c = mkHMAC (outer c) (fold_left Sha512.Write ts (inner c))).
  { induction ts as [|t ts IH]; intros [o i]; [reflexivity|apply IH]. }
  rewrite W256, W512; unfold CHMAC_SHA256_Finalize, CHMAC_SHA512_Finalize, CHMAC_SHA256_init, CHMAC_SHA512_init.
  cbv zeta; cbn [outer inner]; split.
  - rewrite <- (hmac_correct 64 Sha256.CSHA256_init Sha256.Write Sha256.Finalize Sha256.Fips.sha256 Sha256.absorbed (2 ^ 61)).
    + unfold block_key; cbv zeta; destruct (Nat.leb_spec (length key) 64); [reflexivity|].
      rewrite Sha256.sha256_length, (Sha256.sha256_Finalize_digest key (Sha256.Write Sha256.CSHA256_init key)); [reflexivity| |exact Hk].
      apply (Sha256.sha256_Write_absorbed []), Sha256.sha256_absorbed_init; reflexivity.
    + apply Sha256.sha256_absorbed_init; reflexivity.
    + intros *; apply Sha256.sha256_Write_absorbed.
    + intros msg c Hc Hm; apply Sha256.sha256_Finalize_digest; [exact Hc|lia].
    + intros msg; rewrite Sha256.sha256_length; lia.
    + lia.
    + lia.
  - rewrite <- (hmac_correct 128 Sha512.CSHA512_init Sha512.Write Sha512.Finalize Sha512.sha512 Sha512.absorbed (2 ^ 61)).
    + unfold block_key; cbv zeta; destruct (Nat.leb_spec (length key) 128); [reflexivity|].
      rewrite Sha512.sha512_length, (Sha512.sha512_Finalize_digest key (Sha512.Write Sha512.CSHA512_init key)); [reflexivity| |lia].
      apply (Sha512.sha512_Write_absorbed []), Sha512.sha512_absorbed_init; reflexivity.
    + apply Sha512.sha512_absorbed_init; reflexivity.
    + intros *; apply Sha512.sha512_Write_absorbed.
    + intros msg c Hc Hm; apply Sha512.sha512_Finalize_digest; [exact Hc|lia].
    + intros msg; rewrite Sha512.sha512_length; lia.
    + lia.
    + lia.
Qed.

Lemma hmac_rfc2104_witness :
  8 * Z.of_nat (length (repeat 11 100)) < 2 ^ 64 /\
  CHMAC_SHA256_Finalize (fold_left CHMAC_SHA256_Write [[72; 105]; [32]] (CHMAC_SHA256_init (repeat 11 100)))
  = rfc2104 64 Sha256.Fips.sha256 (repeat 11 100) [72; 105; 32].
Proof. split; [reflexivity|]; apply (hmac_rfc2104 (repeat 11 100) [[72; 105]; [32]]); reflexivity. Defined.

End Hmac.
