(* ===== verification/Sha1.v ===== *)
(** SHA-1: [src/src/crypto/sha1.cpp].

    The source unrolls the 80 rounds with rotated variable names; round [i]
    here works on the variables at the places the source names them. *)
From S2P Require Import Prelude SphTypes SphStream HashStream Sha256.

Module Sha1.

(** [Round] updates [b] and [e]. *)
Definition Round (a b c d e f k w : Z) : Z * Z :=
  let e := T32 (e + ((T32 (a << 5) .| (a >> 27)) + f + k + w)) in
  let b := T32 (b << 30) .| (b >> 2) in
  (b, e).

Definition f1 (b c d : Z) : Z := d ⊕ (b .& (c ⊕ d)).
Definition f2 (b c d : Z) : Z := b ⊕ c ⊕ d.
Definition f3 (b c d : Z) : Z := (b .& c) .| (d .& (b .| c)).

Definition left (x : Z) : Z := T32 (x << 1) .| (x >> 31).

Definition Initialize : list Z := [0x67452301; 0xEFCDAB89; 0x98BADCFE; 0x10325476; 0xC3D2E1F0].

Definition k1 : Z := 0x5A827999.
Definition k2 : Z := 0x6ED9EBA1.
Definition k3 : Z := 0x8F1BBCDC.
Definition k4 : Z := 0xCA62C1D6.

(** Where round [i] finds its [j]-th variable. *)
Definition pos (i j : nat) : nat := ((j + 4 * i) mod 5)%nat.

(** The function and the constant of round [i]. *)
Definition fk (i : nat) : (Z -> Z -> Z -> Z) * Z :=
  if (i <? 20)%nat then (f1, k1) else if (i <? 40)%nat then (f2, k2)
  else if (i <? 60)%nat then (f3, k3) else (f2, k4).

Definition round_at (i : nat) (v : list Z) (w : Z) : list Z :=
  let x j := v.[pos i j] in
  let '(f, k) := fk i in
  let '(b, e) := Round (x 0%nat) (x 1%nat) (x 2%nat) (x 3%nat) (x 4%nat) (f (x 1%nat) (x 2%nat) (x 3%nat)) k w in
  upd (upd v (pos i 1) b) (pos i 4) e.

Definition word_at (i : nat) (w chunk : list Z) : Z :=
  if (i <? 16)%nat then Sha256.ReadBE32 (skipn (4 * i) chunk)
  else left (w.[i mod 16] ⊕ w.[(i + 13) mod 16] ⊕ w.[(i + 8) mod 16] ⊕ w.[(i + 2) mod 16]).

Definition transform_step (chunk : list Z) (vw : list Z * list Z) (i : nat) : list Z * list Z :=
  let '(v, w) := vw in
  let wi := word_at i w chunk in
  (round_at i v wi, upd w (i mod 16) wi).

Definition Transform (s chunk : list Z) : list Z :=
  let '(v, _) := fold_left (transform_step chunk) (seq 0 80) (s, repeat 0 16) in
  map (fun j => T32 (s.[j] + v.[j])) (seq 0 5).

(** ** [CSHA1] *)

Definition CSHA1 : Type := hasher.

Definition CSHA1_init : CSHA1 := hasher_init 64 Initialize.

Definition Write : CSHA1 -> list Z -> CSHA1 := HashStream.Write 64 Transform.

Definition sizedesc (bytes : Z) : list Z := Sha256.WriteBE64 (T64 (bytes << 3)).

Definition output (s : list Z) : list Z := flat_map (fun j => Sha256.WriteBE32 s.[j]) (seq 0 5).

Definition Finalize : CSHA1 -> list Z := HashStream.Finalize 64 Transform 119 sizedesc output.

Definition Reset : CSHA1 -> CSHA1 := HashStream.Reset Initialize.

(** The digest of a whole message. *)
Definition sha1 (msg : list Z) : list Z := digest 64 Transform Initialize 119 sizedesc output msg.

Lemma sha1_word_at_firstn i w chunk : word_at i w (firstn 64 chunk) = word_at i w chunk.
Proof.
  unfold word_at; destruct (Nat.ltb_spec i 16) as [H|]; [|reflexivity].
  unfold Sha256.ReadBE32; rewrite !get_skipn, !get_firstn by lia; reflexivity.
Qed.

Lemma sha1_Transform_firstn st chunk : Transform st (firstn 64 chunk) = Transform st chunk.
Proof.
  unfold Transform; rewrite (fold_left_ext (transform_step (firstn 64 chunk)) (transform_step chunk)); [reflexivity|].
  intros [v w] i _; unfold transform_step; rewrite sha1_word_at_firstn; reflexivity.
Qed.

Lemma sha1_length msg : length (sha1 msg) = 20%nat.
Proof. unfold sha1, digest, output; rewrite (flat_map_constant_length (c := 4)) by reflexivity; reflexivity. Qed.

(** The hasher on a message written at once. *)
Lemma sha1_hasher msg : Z.of_nat (length msg) < 2 ^ 64 -> Finalize (Write CSHA1_init msg) = sha1 msg.
Proof.
  intros H; assert (D : (Z.of_nat 64 | 2 ^ 64)) by (exists (2 ^ 58); reflexivity).
  apply (Finalize_digest 64 Transform Initialize 119 sizedesc output);
    [lia|exact D|exact sha1_Transform_firstn| |exact H].
  apply (Write_absorbed 64 Transform Initialize ltac:(lia) D sha1_Transform_firstn []), absorbed_init; reflexivity.
Qed.

(** SHA-1 of "abc", from FIPS 180-4. *)
Example sha1_abc :
  fold_left (fun a b => 256 * a + b) (Finalize (Write CSHA1_init [97; 98; 99])) 0
  = 0xa9993e364706816aba3e25717850c26c9cd0d89d.
Proof. vm_compute; reflexivity. Qed.

End Sha1.
