(* ===== verification/Ripemd160.v ===== *)
(** RIPEMD-160: [src/src/crypto/ripemd160.cpp].

    The source interleaves the rounds of the two lines, [R11] .. [R51] on
    [a1 .. e1] and [R12] .. [R52] on [a2 .. e2], with rotated variable names;
    the lines do not share variables.  Round [i] of a line names the message
    word and the rotation listed at [i]. *)
From S2P Require Import Prelude SphTypes SphStream HashStream Sha256 Sha1.

Module Ripemd160.

Definition not32 (x : Z) : Z := x ⊕ 0xFFFFFFFF.

Definition f1 (x y z : Z) : Z := x ⊕ y ⊕ z.
Definition f2 (x y z : Z) : Z := (x .& y) .| (not32 x .& z).
Definition f3 (x y z : Z) : Z := (x .| not32 y) ⊕ z.
Definition f4 (x y z : Z) : Z := (x .& z) .| (y .& not32 z).
Definition f5 (x y z : Z) : Z := x ⊕ (y .| not32 z).

Definition Initialize : list Z := [0x67452301; 0xEFCDAB89; 0x98BADCFE; 0x10325476; 0xC3D2E1F0].

Definition rol (x i : Z) : Z := T32 (x << i) .| (x >> (32 - i)).

(** [Round] updates [a] and [c]. *)
Definition Round (a b c d e f x k r : Z) : Z * Z :=
  (T32 (rol (T32 (a + f + x + k)) r + e), rol c 10).

(** The message words and rotations of the first line. *)
Definition words1 : list nat :=
  ([0; 1; 2; 3; 4; 5; 6; 7; 8; 9; 10; 11; 12; 13; 14; 15] ++
   [7; 4; 13; 1; 10; 6; 15; 3; 12; 0; 9; 5; 2; 14; 11; 8] ++
   [3; 10; 14; 4; 9; 15; 8; 1; 2; 7; 0; 6; 13; 11; 5; 12] ++
   [1; 9; 11; 10; 0; 8; 12; 4; 13; 3; 7; 15; 14; 5; 6; 2] ++
   [4; 0; 5; 9; 7; 12; 2; 10; 14; 1; 3; 8; 11; 6; 15; 13])%nat.

(** Rotations of the first line. *)
Definition rots1 : list Z :=
  [11; 14; 15; 12; 5; 8; 7; 9; 11; 13; 14; 15; 6; 7; 9; 8] ++
  [7; 6; 8; 13; 11; 9; 7; 15; 7; 12; 15; 9; 11; 7; 13; 12] ++
  [11; 13; 6; 7; 14; 9; 13; 15; 14; 8; 13; 6; 5; 12; 7; 5] ++
  [11; 12; 14; 15; 14; 15; 9; 8; 9; 14; 5; 6; 8; 6; 5; 12] ++
  [9; 15; 5; 11; 6; 8; 13; 12; 5; 12; 13; 14; 11; 8; 5; 6].

(** The message words of the second line. *)
Definition words2 : list nat :=
  ([5; 14; 7; 0; 9; 2; 11; 4; 13; 6; 15; 8; 1; 10; 3; 12] ++
   [6; 11; 3; 7; 0; 13; 5; 10; 14; 15; 8; 12; 4; 9; 1; 2] ++
   [15; 5; 1; 3; 7; 14; 6; 9; 11; 8; 12; 2; 10; 0; 4; 13] ++
   [8; 6; 4; 1; 3; 11; 15; 0; 5; 12; 2; 13; 9; 7; 10; 14] ++
   [12; 15; 10; 4; 1; 5; 8; 7; 6; 2; 13; 14; 0; 3; 9; 11])%nat.

(** Rotations of the second line. *)
Definition rots2 : list Z :=
  [8; 9; 9; 11; 13; 15; 15; 5; 7; 7; 8; 11; 14; 14; 12; 6] ++
  [9; 13; 15; 7; 12; 8; 9; 11; 7; 7; 12; 7; 6; 15; 13; 11] ++
  [9; 7; 15; 11; 8; 6; 6; 14; 12; 13; 5; 14; 13; 13; 7; 5] ++
  [15; 5; 8; 11; 14; 14; 6; 14; 6; 9; 12; 9; 12; 5; 15; 8] ++
  [8; 5; 12; 9; 12; 5; 14; 6; 8; 13; 6; 5; 15; 13; 11; 11].

(** The functions and constants of [R11] .. [R51] and [R12] .. [R52]. *)
Definition line1 (i : nat) : (Z -> Z -> Z -> Z) * Z :=
  match (i / 16)%nat with
  | 0%nat => (f1, 0)
  | 1%nat => (f2, 0x5A827999)
  | 2%nat => (f3, 0x6ED9EBA1)
  | 3%nat => (f4, 0x8F1BBCDC)
  | _ => (f5, 0xA953FD4E)
  end.

Definition line2 (i : nat) : (Z -> Z -> Z -> Z) * Z :=
  match (i / 16)%nat with
  | 0%nat => (f5, 0x50A28BE6)
  | 1%nat => (f4, 0x5C4DD124)
  | 2%nat => (f3, 0x6D703EF3)
  | 3%nat => (f2, 0x7A6D76E9)
  | _ => (f1, 0)
  end.

Definition round_at (line : nat -> (Z -> Z -> Z -> Z) * Z) (words : list nat) (rots w : list Z)
  (v : list Z) (i : nat) : list Z :=
  let x j := v.[Sha1.pos i j] in
  let '(f, k) := line i in
  let '(a, c) := Round (x 0%nat) (x 1%nat) (x 2%nat) (x 3%nat) (x 4%nat) (f (x 1%nat) (x 2%nat) (x 3%nat))
                   w.[nth i words 0%nat] k rots.[i] in
  upd (upd v (Sha1.pos i 0) a) (Sha1.pos i 2) c.

Definition Transform (s chunk : list Z) : list Z :=
  let w := words32le 16 chunk in
  let v1 := fold_left (round_at line1 words1 rots1 w) (seq 0 80) s in
  let v2 := fold_left (round_at line2 words2 rots2 w) (seq 0 80) s in
  [T32 (s.[1] + v1.[2] + v2.[3]);
   T32 (s.[2] + v1.[3] + v2.[4]);
   T32 (s.[3] + v1.[4] + v2.[0]);
   T32 (s.[4] + v1.[0] + v2.[1]);
   T32 (s.[0] + v1.[1] + v2.[2])].

(** ** [CRIPEMD160] *)

Definition CRIPEMD160 : Type := hasher.

Definition CRIPEMD160_init : CRIPEMD160 := hasher_init 64 Initialize.

Definition Write : CRIPEMD160 -> list Z -> CRIPEMD160 := HashStream.Write 64 Transform.

Definition sizedesc (bytes : Z) : list Z := sph_enc64le (T64 (bytes << 3)).

Definition output (s : list Z) : list Z := flat_map (fun j => sph_enc32le s.[j]) (seq 0 5).

Definition Finalize : CRIPEMD160 -> list Z := HashStream.Finalize 64 Transform 119 sizedesc output.

Definition Reset : CRIPEMD160 -> CRIPEMD160 := HashStream.Reset Initialize.

(** The digest of a whole message. *)
Definition ripemd160 (msg : list Z) : list Z := digest 64 Transform Initialize 119 sizedesc output msg.

Lemma ripemd160_Transform_firstn st chunk : Transform st (firstn 64 chunk) = Transform st chunk.
Proof. unfold Transform; change 64%nat with (4 * 16)%nat; rewrite <- (words32le_firstn 16 chunk); reflexivity. Qed.

Lemma ripemd160_length msg : length (ripemd160 msg) = 20%nat.
Proof. unfold ripemd160, digest, output; rewrite (flat_map_constant_length (c := 4)) by reflexivity; reflexivity. Qed.

(** The hasher on a message written at once. *)
Lemma ripemd160_hasher msg : Z.of_nat (length msg) < 2 ^ 64 -> Finalize (Write CRIPEMD160_init msg) = ripemd160 msg.
Proof.
  intros H; assert (D : (Z.of_nat 64 | 2 ^ 64)) by (exists (2 ^ 58); reflexivity).
  apply (Finalize_digest 64 Transform Initialize 119 sizedesc output);
    [lia|exact D|exact ripemd160_Transform_firstn| |exact H].
  apply (Write_absorbed 64 Transform Initialize ltac:(lia) D ripemd160_Transform_firstn []), absorbed_init; reflexivity.
Qed.

(** RIPEMD-160 of "abc", as its designers publish it. *)
Example ripemd160_abc :
  fold_left (fun a b => 256 * a + b) (Finalize (Write CRIPEMD160_init [97; 98; 99])) 0
  = 0x8eb208f7e05d987a9b044a8e98c6b087f15a0bfc.
Proof. vm_compute; reflexivity. Qed.

(** ** [CHash160] of [src/src/hash.h]: RIPEMD-160 of SHA-256 *)

Definition CHash160_Finalize (sha : Sha256.CSHA256) : list Z :=
  let b := Sha256.Finalize sha in
  Finalize (Write CRIPEMD160_init b).

Definition Hash160 (p : list Z) : list Z := CHash160_Finalize (Sha256.Write Sha256.CSHA256_init p).

End Ripemd160.
