(* ===== verification/Merkle.v ===== *)
(** Merkle trees of blocks: [BuildMerkleTree], [GetMerkleBranch] and
    [CheckMerkleBranch] of [src/src/primitives/block.cpp].

    A hash is its 32 bytes in memory, and [Hash(BEGIN(a), END(a), BEGIN(b),
    END(b))] is [Sha256.Hash2].  The tree is the flat array [vMerkleTree] with
    its level offsets, as in the source; the specification is a list of
    levels. *)
From S2P Require Import Prelude BaseUint Sha256.

Module Merkle.
Import Sha256.

#[local] Opaque Hash2.

Definition hash : Type := list Z.

(** [uint256()] *)
Definition uint256_0 : hash := repeat 0 32.

(** [operator==], a [memcmp]. *)
Definition eq_hash (a b : hash) : bool := BaseUint.op_eq a b.

Definition node (tree : list hash) (i : nat) : hash := nth i tree uint256_0.

(** [for (int i = 0; i < nSize; i += 2)] *)
Fixpoint level_loop (fuel i nSize j : nat) (tree : list hash) (mutated : bool) : list hash * bool :=
  match fuel with
  | O => (tree, mutated)
  | S fuel =>
      if (i <? nSize)%nat then
        let i2 := Nat.min (i + 1) (nSize - 1) in
        let mutated :=
          if (i2 =? i + 1)%nat && (i2 + 1 =? nSize)%nat && eq_hash (node tree (j + i)) (node tree (j + i2))
          then true else mutated in
        level_loop fuel (i + 2) nSize j (tree ++ [Hash2 (node tree (j + i)) (node tree (j + i2))]) mutated
      else (tree, mutated)
  end.

(** [for (int nSize = vtx.size(); nSize > 1; nSize = (nSize + 1) / 2)]; the
    size shrinks, so [vtx.size()] iterations are enough for both loops. *)
Fixpoint tree_loop (fuel nSize j : nat) (tree : list hash) (mutated : bool) : list hash * bool :=
  match fuel with
  | O => (tree, mutated)
  | S fuel =>
      if (1 <? nSize)%nat then
        let '(tree, mutated) := level_loop nSize 0 nSize j tree mutated in
        tree_loop fuel ((nSize + 1) / 2) (j + nSize) tree mutated
      else (tree, mutated)
  end.

(** The tree, [*fMutated] and the root. *)
Definition BuildMerkleTree (vtx : list hash) : list hash * bool * hash :=
  let '(tree, mutated) := tree_loop (length vtx) (length vtx) 0 vtx false in
  (tree, mutated, match tree with [] => uint256_0 | _ => last tree uint256_0 end).

(** The loop of [GetMerkleBranch]. *)
Fixpoint branch_loop (fuel nSize j : nat) (tree : list hash) (nIndex : Z) : list hash :=
  match fuel with
  | O => []
  | S fuel =>
      if (1 <? nSize)%nat then
        let i := Nat.min (Z.to_nat (Z.lxor nIndex 1)) (nSize - 1) in
        node tree (j + i) :: branch_loop fuel ((nSize + 1) / 2) (j + nSize) tree (nIndex >> 1)
      else []
  end.

(** [vMerkleTree] is the tree cached by [BuildMerkleTree]; an empty one is
    built first. *)
Definition GetMerkleBranch (vtx vMerkleTree : list hash) (nIndex : Z) : list hash :=
  let tree := match vMerkleTree with [] => fst (fst (BuildMerkleTree vtx)) | _ => vMerkleTree end in
  branch_loop (length vtx) (length vtx) 0 tree nIndex.

Fixpoint check_loop (h : hash) (vMerkleBranch : list hash) (nIndex : Z) : hash :=
  match vMerkleBranch with
  | [] => h
  | x :: branch =>
      check_loop (if negb (nIndex .& 1 =? 0) then Hash2 x h else Hash2 h x) branch (nIndex >> 1)
  end.

Definition CheckMerkleBranch (h : hash) (vMerkleBranch : list hash) (nIndex : Z) : hash :=
  if nIndex =? -1 then uint256_0 else check_loop h vMerkleBranch nIndex.

(** ** The specification: levels *)

(** The level above: pairs hashed, an odd last node paired with itself. *)
Fixpoint above (l : list hash) : list hash :=
  match l with
  | a :: b :: r => Hash2 a b :: above r
  | [a] => [Hash2 a a]
  | [] => []
  end.

Fixpoint levels (fuel : nat) (l : list hash) : list (list hash) :=
  match fuel with
  | O => []
  | S fuel => if (length l <=? 1)%nat then [l] else l :: levels fuel (above l)
  end.

Definition all_levels (l : list hash) : list (list hash) := levels (S (length l)) l.

(** The level ends with a pair of identical nodes. *)
Fixpoint twin_end (l : list hash) : bool :=
  match l with
  | [a; b] => eq_hash a b
  | _ :: _ :: r => twin_end r
  | _ => false
  end.

Definition merkle_root (l : list hash) : hash := last (last (all_levels l) []) uint256_0.

Lemma above_ind (P : list hash -> Prop) :
  P [] -> (forall a, P [a]) -> (forall a b r, P r -> P (a :: b :: r)) -> forall l, P l.
Proof.
  intros H0 H1 H2; fix IH 1; intros [|a [|b r]]; [exact H0|apply H1|apply H2, IH].
Qed.

Lemma above_length l : length (above l) = ((length l + 1) / 2)%nat.
Proof.
  induction l as [|a|a b r IH] using above_ind; [reflexivity..|].
  cbn [above length]; rewrite IH; replace (S (S (length r)) + 1)%nat with (length r + 1 + 1 * 2)%nat by lia.
  rewrite Nat.div_add by lia; lia.
Qed.

Lemma half_lt n : (1 < n)%nat -> ((n + 1) / 2 < n)%nat.
Proof. intros H; apply Nat.Div0.div_lt_upper_bound; lia. Qed.

Lemma above_node l : forall k, (2 * k < length l)%nat ->
  node (above l) k = Hash2 (node l (2 * k)) (node l (Nat.min (2 * k + 1) (length l - 1))).
Proof.
  induction l as [|a|a b r IH] using above_ind; intros k Hk; cbn [length] in Hk; [lia|assert (k = 0%nat) as -> by lia; reflexivity|].
  destruct k as [|k].
  { rewrite Nat.min_l by (cbn [length]; lia); reflexivity. }
  unfold node in *; cbn [above nth]; rewrite IH by lia.
  replace (2 * S k)%nat with (S (S (2 * k))) by lia; cbn [nth length].
  replace (Nat.min (S (S (2 * k)) + 1) (S (S (length r)) - 1))
    with (S (S (Nat.min (2 * k + 1) (length r - 1)))) by lia; reflexivity.
Qed.

(** Enough fuel makes no difference. *)
Lemma levels_fuel n : forall m l, (length l <= n)%nat -> (n <= m)%nat -> levels (S m) l = levels (S n) l.
Proof.
  induction n as [|n IH]; intros m l Hl Hm; cbn [levels].
  - destruct l; [reflexivity|cbn in Hl; lia].
  - destruct (Nat.leb_spec (length l) 1) as [|H]; [reflexivity|]; f_equal.
    destruct m as [|m]; [lia|]; apply IH; [|lia].
    rewrite above_length; pose proof (half_lt _ H); lia.
Qed.

Lemma all_levels_cons l : (1 < length l)%nat -> all_levels l = l :: all_levels (above l).
Proof.
  intros H; unfold all_levels; cbn [levels]; destruct (Nat.leb_spec (length l) 1); [lia|]; f_equal.
  destruct (length l) as [|n] eqn:E; [lia|]; apply levels_fuel; rewrite above_length, E.
  - reflexivity.
  - pose proof (half_lt (S n) ltac:(lia)); lia.
Qed.

Lemma all_levels_nil l : (length l <= 1)%nat -> all_levels l = [l].
Proof. intros H; unfold all_levels; cbn [levels]; apply Nat.leb_le in H; rewrite H; reflexivity. Qed.

Lemma all_levels_ne l : all_levels l <> [].
Proof. unfold all_levels; cbn [levels]; destruct (_ <=? _)%nat; discriminate. Qed.

(** Induction from the leaves to the root. *)
Lemma tree_ind (P : list hash -> Prop) :
  (forall l, (length l <= 1)%nat -> P l) ->
  (forall l, (1 < length l)%nat -> P (above l) -> P l) -> forall l, P l.
Proof.
  intros H0 H1 l; induction l as [l IH] using (induction_ltof1 _ (@length hash)); unfold ltof in IH.
  destruct (Nat.le_gt_cases (length l) 1) as [H|H]; [apply H0, H|].
  apply H1; [exact H|]; apply IH; rewrite above_length; apply half_lt, H.
Qed.

(** ** The loops build the levels *)

Lemma node_app_l a b i : (i < length a)%nat -> node (a ++ b) i = node a i.
Proof. intros H; apply app_nth1, H. Qed.

Lemma node_app_r a b i : node (a ++ b) (length a + i) = node b i.
Proof. unfold node; rewrite app_nth2 by lia; f_equal; lia. Qed.

Lemma skipn_node l i a r : skipn i l = a :: r -> node l i = a /\ skipn (S i) l = r /\ (length l = i + S (length r))%nat.
Proof.
  intros H; assert (L : length (skipn i l) = S (length r)) by (rewrite H; reflexivity).
  rewrite length_skipn in L; split; [|split; [|lia]].
  - unfold node; rewrite <- (firstn_skipn i l) at 1; rewrite app_nth2; rewrite length_firstn, Nat.min_l by lia; [|lia].
    rewrite Nat.sub_diag, H; reflexivity.
  - replace (S i) with (1 + i)%nat by lia; rewrite <- skipn_skipn, H; reflexivity.
Qed.

Lemma level_loop_spec lvl j rest : forall fuel i tree mutated,
  skipn i lvl = rest -> (length rest <= fuel)%nat ->
  (forall k, (k < length lvl)%nat -> node tree (j + k) = node lvl k) -> (j + length lvl <= length tree)%nat ->
  level_loop fuel i (length lvl) j tree mutated = (tree ++ above rest, mutated || twin_end rest).
Proof.
  induction rest as [|a|a b r IH] using above_ind; intros fuel i tree mutated Hr Hf Ht Hl.
  - assert (Hi : (length lvl <= i)%nat) by (assert (L := length_skipn i lvl); rewrite Hr in L; cbn in L; lia).
    cbn [above twin_end]; rewrite app_nil_r, orb_false_r; destruct fuel; [reflexivity|]; cbn [level_loop].
    destruct (Nat.ltb_spec i (length lvl)); [lia|reflexivity].
  - destruct (skipn_node _ _ _ _ Hr) as (Na & Sa & La); cbn [length] in *.
    destruct fuel as [|fuel]; [lia|]; cbn [level_loop]; destruct (Nat.ltb_spec i (length lvl)) as [_|]; [|lia].
    replace (Nat.min (i + 1) (length lvl - 1)) with i by lia.
    destruct (Nat.eqb_spec i (i + 1)); [lia|]; cbn [andb twin_end]; rewrite orb_false_r, !Ht, Na by lia.
    destruct fuel; [reflexivity|]; cbn [level_loop].
    destruct (Nat.ltb_spec (i + 2) (length lvl)); [lia|reflexivity].
  - destruct (skipn_node _ _ _ _ Hr) as (Na & Sa & La); destruct (skipn_node _ _ _ _ Sa) as (Nb & Sb & Lb).
    cbn [length] in *; destruct fuel as [|fuel]; [lia|]; cbn [level_loop].
    destruct (Nat.ltb_spec i (length lvl)) as [_|]; [|lia].
    replace (Nat.min (i + 1) (length lvl - 1)) with (S i) by lia; rewrite !Ht, Na, Nb by lia.
    replace (i + 2)%nat with (S (S i)) by lia; rewrite IH; [| | |intros k Hk; rewrite node_app_l; auto; lia|rewrite length_app; lia]; try assumption; [|lia].
    rewrite <- app_assoc; cbn [above app]; f_equal.
    destruct (Nat.eqb_spec (S i) (i + 1)); [|lia]; destruct r as [|c r]; cbn [length] in *.
    + destruct (Nat.eqb_spec (S i + 1) (length lvl)); [|lia]; cbn [andb twin_end].
      destruct (eq_hash a b); destruct mutated; reflexivity.
    + destruct (Nat.eqb_spec (S i + 1) (length lvl)); [lia|]; reflexivity.
Qed.

Lemma tree_loop_spec l : forall fuel pre mutated, (length l <= fuel)%nat ->
  tree_loop fuel (length l) (length pre) (pre ++ l) mutated
  = (pre ++ concat (all_levels l), mutated || existsb twin_end (all_levels l)).
Proof.
  induction l as [l Hl|l Hl IH] using tree_ind; intros fuel pre mutated Hf.
  - rewrite all_levels_nil by exact Hl; cbn [concat existsb]; rewrite app_nil_r.
    assert (E : twin_end l = false) by (destruct l as [|a [|b r]]; cbn in Hl; lia || reflexivity).
    rewrite E, !orb_false_r; destruct fuel; [reflexivity|]; cbn [tree_loop].
    destruct (Nat.ltb_spec 1 (length l)); [lia|reflexivity].
  - rewrite all_levels_cons by exact Hl; cbn [concat existsb]; destruct fuel as [|fuel]; [lia|]; cbn [tree_loop].
    destruct (Nat.ltb_spec 1 (length l)) as [_|]; [|lia].
    rewrite (level_loop_spec l (length pre) l) by
      (try reflexivity; try lia; try (intros; apply node_app_r); rewrite length_app; lia).
    rewrite <- above_length; replace (length pre + length l)%nat with (length (pre ++ l)) by apply length_app.
    rewrite IH, <- app_assoc, orb_assoc; [reflexivity|].
    rewrite above_length; pose proof (half_lt _ Hl); lia.
Qed.

Lemma top_level l : l <> [] -> exists h, last (all_levels l) [] = [h].
Proof.
  induction l as [l Hl|l Hl IH] using tree_ind; intros Hne.
  - rewrite all_levels_nil by exact Hl; destruct l as [|h [|b r]]; [contradiction|exists h; reflexivity|cbn in Hl; lia].
  - rewrite all_levels_cons by exact Hl; destruct (all_levels (above l)) as [|x r] eqn:E; [exfalso; exact (all_levels_ne _ E)|].
    change (last (l :: x :: r) []) with (last (x :: r) []); apply IH.
    destruct l as [|a [|b r']]; [contradiction|cbn in Hl; lia|discriminate].
Qed.

Lemma last_concat (ll : list (list hash)) d : last ll [] <> [] -> last (concat ll) d = last (last ll []) d.
Proof.
  destruct ll as [|x r] using rev_ind; [contradiction|]; rewrite last_last; intros Hne.
  rewrite concat_app; cbn [concat]; rewrite app_nil_r.
  destruct (exists_last Hne) as (y & z & ->); rewrite app_assoc, !last_last; reflexivity.
Qed.

Lemma BuildMerkleTree_spec vtx :
  BuildMerkleTree vtx = (concat (all_levels vtx), existsb twin_end (all_levels vtx), merkle_root vtx).
Proof.
  unfold BuildMerkleTree; pose proof (tree_loop_spec vtx (length vtx) [] false (le_n _)) as E.
  cbn [app length] in E; rewrite E; cbn [orb]; unfold merkle_root; f_equal.
  destruct vtx as [|x vtx]; [reflexivity|].
  destruct (top_level (x :: vtx)) as [h Hh]; [discriminate|].
  rewrite <- last_concat by (rewrite Hh; discriminate).
  destruct (concat _) eqn:Ec; [|reflexivity].
  assert (L : length (concat (all_levels (x :: vtx))) <> 0%nat).
  { unfold all_levels; cbn [levels]; destruct (_ <=? _)%nat; cbn [concat]; rewrite length_app; cbn; lia. }
  rewrite Ec in L; contradiction.
Qed.

Lemma merkle_root_above l : (1 < length l)%nat -> merkle_root l = merkle_root (above l).
Proof.
  intros Hl; unfold merkle_root; rewrite all_levels_cons by exact Hl.
  destruct (all_levels (above l)) eqn:E; [exfalso; exact (all_levels_ne _ E)|reflexivity].
Qed.

(** ** Branches *)

Lemma xor1_even k : Z.lxor (Z.of_nat (2 * k)) 1 = Z.of_nat (2 * k + 1).
Proof.
  rewrite <- Z.add_nocarry_lxor; [lia|].
  change 1 with (Z.ones 1); rewrite Z.land_ones by lia; rewrite Nat2Z.inj_mul, Z.mul_comm; apply Z.mod_mul; lia.
Qed.

Lemma xor1_odd k : Z.lxor (Z.of_nat (2 * k + 1)) 1 = Z.of_nat (2 * k).
Proof. rewrite <- xor1_even, Z.lxor_assoc, Z.lxor_nilpotent, Z.lxor_0_r; reflexivity. Qed.

Lemma shr1 k b : (b < 2)%nat -> Z.of_nat (2 * k + b) >> 1 = Z.of_nat k.
Proof.
  intros Hb; rewrite Z.shiftr_div_pow2 by lia; change (2 ^ 1) with 2.
  symmetry; apply (Z.div_unique _ _ _ (Z.of_nat b)); lia.
Qed.

Lemma and1 k b : (b < 2)%nat -> Z.of_nat (2 * k + b) .& 1 = Z.of_nat b.
Proof.
  intros Hb; change 1 with (Z.ones 1); rewrite Z.land_ones by lia; change (2 ^ 1) with 2.
  symmetry; apply (Z.mod_unique _ _ (Z.of_nat k)); lia.
Qed.

Lemma branch_spec l : forall fuel pre i, (length l <= fuel)%nat -> (i < length l)%nat ->
  check_loop (node l i)
    (branch_loop fuel (length l) (length pre) (pre ++ concat (all_levels l)) (Z.of_nat i)) (Z.of_nat i)
  = merkle_root l.
Proof.
  induction l as [l Hl|l Hl IH] using tree_ind; intros fuel pre i Hf Hi.
  - destruct l as [|x [|y r]]; cbn [length] in *; try lia.
    destruct fuel; [lia|]; replace i with 0%nat by lia; reflexivity.
  - rewrite merkle_root_above, all_levels_cons by exact Hl; destruct fuel as [|fuel]; [lia|].
    cbn [branch_loop concat]; destruct (Nat.ltb_spec 1 (length l)) as [_|]; [|lia].
    set (T := pre ++ l ++ _).
    assert (Tn : forall k, (k < length l)%nat -> node T (length pre + k) = node l k)
      by (intros k Hk; unfold T; rewrite node_app_r, node_app_l by exact Hk; reflexivity).
    assert (HT : T = (pre ++ l) ++ concat (all_levels (above l))) by (unfold T; rewrite app_assoc; reflexivity).
    assert (Step : forall k, (2 * k < length l)%nat ->
      check_loop (node (above l) k)
        (branch_loop fuel ((length l + 1) / 2) (length pre + length l) T (Z.of_nat k)) (Z.of_nat k)
      = merkle_root (above l)).
    { intros k Hk; rewrite <- above_length, <- length_app, HT; apply IH; rewrite above_length.
      - pose proof (half_lt _ Hl); lia.
      - apply Nat.div_le_lower_bound; lia. }
    destruct (Nat.Even_or_Odd i) as [[k ->]|[k ->]].
    + specialize (Step k Hi); rewrite xor1_even, Nat2Z.id, Tn by lia.
      replace (2 * k)%nat with (2 * k + 0)%nat in * by lia; rewrite (shr1 k 0), <- Step by lia.
      cbn [check_loop]; rewrite (and1 k 0), (shr1 k 0) by lia; cbn [Z.of_nat Z.eqb negb].
      replace (2 * k + 0)%nat with (2 * k)%nat by lia; rewrite <- above_node by lia; reflexivity.
    + specialize (Step k ltac:(lia)); rewrite xor1_odd, Nat2Z.id, Tn by lia.
      rewrite (shr1 k 1), <- Step by lia; cbn [check_loop]; rewrite (and1 k 1), (shr1 k 1) by lia; cbn [Z.of_nat Z.eqb negb].
      rewrite (above_node l k), !Nat.min_l by lia; reflexivity.
Qed.

(** ** What a root binds *)

Definition nodes (l : list hash) : list hash := concat (all_levels l).

(** Two different pairs of nodes, one of each tree, with the same hash. *)
Definition collision (n1 n2 : list hash) : Prop :=
  exists a b c d, In a n1 /\ In b n1 /\ In c n2 /\ In d n2 /\ Hash2 a b = Hash2 c d /\ (a, b) <> (c, d).

Lemma collision_app_l x1 x2 n1 n2 : collision n1 n2 -> collision (x1 ++ n1) (x2 ++ n2).
Proof. intros (a & b & c & d & H); exists a, b, c, d; rewrite !in_app_iff; tauto. Qed.

Lemma collision_app_r x1 x2 n1 n2 : collision n1 n2 -> collision (n1 ++ x1) (n2 ++ x2).
Proof. intros (a & b & c & d & H); exists a, b, c, d; rewrite !in_app_iff; tauto. Qed.

Lemma hash_dec (a b : hash) : {a = b} + {a <> b}.
Proof. apply list_eq_dec, Z.eq_dec. Defined.

Lemma pair_or_collision a b c d n1 n2 :
  Hash2 a b = Hash2 c d -> In a n1 -> In b n1 -> In c n2 -> In d n2 -> (a = c /\ b = d) \/ collision n1 n2.
Proof.
  intros E Ha Hb Hc Hd; assert (C : (a, b) <> (c, d) -> collision n1 n2) by (intros N; exists a, b, c, d; auto 6).
  destruct (hash_dec a c) as [Ea|Ea]; [destruct (hash_dec b d) as [Eb|Eb]|];
    [left; auto|right; apply C; congruence|right; apply C; congruence].
Qed.

Lemma eq_hash_refl a : eq_hash a a = true.
Proof. apply BaseUint.op_eq_spec; reflexivity. Qed.

Lemma cons_eq {A} (x y : A) l m : x :: l = y :: m -> x = y /\ l = m.
Proof. intros [= -> ->]; auto. Qed.

Lemma above_nil l : above l = [] -> l = [].
Proof. destruct l as [|a [|b r]]; [reflexivity|discriminate..]. Qed.

Lemma twin_end_skip a b r : twin_end (a :: b :: r) = false -> twin_end r = false /\ (r = [] -> a <> b).
Proof.
  destruct r as [|c r]; cbn [twin_end]; [|intros H; split; [exact H|discriminate]].
  intros H; split; [reflexivity|intros _ ->]; rewrite eq_hash_refl in H; discriminate.
Qed.

(** The level above binds a level that does not end in twins. *)
Lemma above_binds l1 : forall l2, twin_end l1 = false -> twin_end l2 = false -> above l1 = above l2 ->
  l1 = l2 \/ collision l1 l2.
Proof.
  induction l1 as [|a|a b r IH] using above_ind; intros l2 T1 T2 E.
  - left; symmetry; apply above_nil; symmetry; exact E.
  - destruct l2 as [|c [|d r2]]; [apply above_nil in E; left; exact E| |]; apply cons_eq in E; destruct E as [E Er].
    + destruct (pair_or_collision _ _ _ _ [a] [c] E) as [[-> _]|H]; cbn [In]; auto.
    + symmetry in Er; apply above_nil in Er; subst r2; apply twin_end_skip in T2.
      destruct (pair_or_collision _ _ _ _ [a] [c; d] E) as [[-> <-]|H]; cbn [In]; auto.
      exfalso; apply T2; reflexivity.
  - destruct l2 as [|c [|d r2]]; [apply above_nil in E; left; exact E| |]; apply cons_eq in E; destruct E as [E Er];
      apply twin_end_skip in T1.
    + apply above_nil in Er; subst r.
      destruct (pair_or_collision _ _ _ _ [a; b] [c] E) as [[-> ->]|H]; cbn [In]; auto.
      exfalso; apply T1; reflexivity.
    + apply twin_end_skip in T2.
      destruct (pair_or_collision _ _ _ _ (a :: b :: r) (c :: d :: r2) E) as [[-> ->]|H]; cbn [In]; auto.
      destruct (IH r2 (proj1 T1) (proj1 T2) Er) as [->|H]; [left; reflexivity|right].
      exact (collision_app_l [c; d] [c; d] _ _ H).
Qed.

Lemma root_binds l1 : forall l2, l1 <> [] -> l2 <> [] -> length (all_levels l1) = length (all_levels l2) ->
  existsb twin_end (all_levels l1) = false -> existsb twin_end (all_levels l2) = false ->
  merkle_root l1 = merkle_root l2 -> l1 = l2 \/ collision (nodes l1) (nodes l2).
Proof.
  induction l1 as [l1 H1|l1 H1 IH] using tree_ind; intros l2 N1 N2 L T1 T2 E.
  - rewrite (all_levels_nil l1 H1) in L; destruct (Nat.le_gt_cases (length l2) 1) as [H2|H2].
    + unfold merkle_root in E; rewrite !all_levels_nil in E by assumption.
      destruct l1 as [|x [|? ?]], l2 as [|y [|? ?]]; cbn in *; try lia; try contradiction; left; congruence.
    + rewrite (all_levels_cons l2 H2) in L; destruct (all_levels (above l2)) eqn:X; [|discriminate L].
      exfalso; exact (all_levels_ne _ X).
  - destruct (Nat.le_gt_cases (length l2) 1) as [H2|H2].
    { rewrite (all_levels_nil l2 H2), (all_levels_cons l1 H1) in L.
      destruct (all_levels (above l1)) eqn:X; [|discriminate L]; exfalso; exact (all_levels_ne _ X). }
    rewrite (all_levels_cons l1 H1) in *; rewrite (all_levels_cons l2 H2) in *.
    cbn [existsb length] in *; apply orb_false_iff in T1, T2; destruct T1 as [T1 U1], T2 as [T2 U2].
    rewrite (merkle_root_above l1 H1), (merkle_root_above l2 H2) in E.
    assert (Ne : forall l, (1 < length l)%nat -> above l <> []) by (intros [|? [|? ?]]; cbn; lia || discriminate).
    assert (Nn : forall l, (1 < length l)%nat -> nodes l = l ++ nodes (above l))
      by (intros l Hl; unfold nodes; rewrite (all_levels_cons l Hl); reflexivity).
    rewrite (Nn l1 H1), (Nn l2 H2).
    destruct (IH (above l2) (Ne _ H1) (Ne _ H2) ltac:(lia) U1 U2 E) as [A|A]; [|right; apply collision_app_l, A].
    destruct (above_binds l1 l2 T1 T2 A) as [->|C]; [left; reflexivity|right; apply collision_app_r, C].
Qed.

(** C32: the flat, offset-indexed loops compute the Merkle tree level by level:
    the array is the concatenation of the levels, the root the top node (0
    without transactions), and [*fMutated] is set exactly when some level ends
    in a pair of identical nodes. *)
Theorem BuildMerkleTree_levels vtx :
  let '(tree, mutated, root) := BuildMerkleTree vtx in
  tree = concat (all_levels vtx) /\
  (mutated = true <-> exists l, In l (all_levels vtx) /\ twin_end l = true) /\
  root = merkle_root vtx.
Proof.
  rewrite BuildMerkleTree_spec; split; [reflexivity|split; [apply existsb_exists|reflexivity]].
Qed.

(** For every transaction of a block, the branch [GetMerkleBranch] gives
    (from the cached tree or a new one) makes [CheckMerkleBranch] compute the
    root of the block. *)
Theorem merkle_branch_checks vtx cache i :
  (i < length vtx)%nat -> cache = [] \/ cache = fst (fst (BuildMerkleTree vtx)) ->
  CheckMerkleBranch (node vtx i) (GetMerkleBranch vtx cache (Z.of_nat i)) (Z.of_nat i)
  = snd (BuildMerkleTree vtx).
Proof.
  intros Hi Hc; unfold CheckMerkleBranch, GetMerkleBranch; destruct (Z.eqb_spec (Z.of_nat i) (-1)); [lia|].
  assert (E : match cache with [] => fst (fst (BuildMerkleTree vtx)) | _ => cache end = concat (all_levels vtx)).
  { rewrite BuildMerkleTree_spec in *; cbn [fst] in *.
    destruct Hc as [-> | ->]; [reflexivity|destruct (concat _); reflexivity]. }
  rewrite E, BuildMerkleTree_spec; cbn [snd]; apply (branch_spec vtx (length vtx) [] i); auto.
Qed.

Lemma merkle_branch_checks_witness :
  let vtx := [repeat 1 32; repeat 2 32; repeat 3 32] in
  (2 < length vtx)%nat /\
  CheckMerkleBranch (repeat 3 32) (GetMerkleBranch vtx [] 2) 2 = snd (BuildMerkleTree vtx).
Proof.
  intros vtx; split; [cbn; lia|]; apply (merkle_branch_checks vtx [] 2); [cbn; lia|left; reflexivity].
Defined.

(** C33: two blocks whose trees have the same number of levels, neither flagged
    as mutated, have the same Merkle root only if they have the same
    transactions, or their trees contain a collision of the hash: the
    duplication attack is always flagged. *)
Theorem merkle_root_binds v1 v2 :
  v1 <> [] -> v2 <> [] -> length (all_levels v1) = length (all_levels v2) ->
  snd (fst (BuildMerkleTree v1)) = false -> snd (fst (BuildMerkleTree v2)) = false ->
  snd (BuildMerkleTree v1) = snd (BuildMerkleTree v2) ->
  v1 = v2 \/ collision (nodes v1) (nodes v2).
Proof. rewrite !BuildMerkleTree_spec; apply root_binds. Qed.

Lemma merkle_root_binds_witness :
  let v := [repeat 1 32; repeat 2 32; repeat 3 32] in
  snd (fst (BuildMerkleTree v)) = false /\ snd (fst (BuildMerkleTree (v ++ [repeat 3 32]))) = true /\
  snd (BuildMerkleTree v) = snd (BuildMerkleTree (v ++ [repeat 3 32])) /\
  (v = v \/ collision (nodes v) (nodes v)).
Proof.
  intros v; assert (H : snd (fst (BuildMerkleTree v)) = false) by (vm_compute; reflexivity).
  split; [exact H|split; [vm_compute; reflexivity|split; [vm_compute; reflexivity|]]].
  apply (merkle_root_binds v v); [discriminate|discriminate|reflexivity|exact H|exact H|reflexivity].
Defined.

End Merkle.
