(* ===== verification/Pow.v ===== *)
(** Difficulty: [src/src/pow.cpp], and [GetBlockTrust] of
    [src/src/chain.cpp].

    [None] is a NULL [pprev] followed, or the [uint_error] of a division by
    zero; the theorems show that neither happens.  [bnNew *= x] with a 64-bit
    [x] resolves to [operator*=(uint32_t)], so the factor is cut to 32 bits;
    [bnNew /= x] converts [x] to a [uint256] first. *)
From S2P Require Import Prelude SphTypes BaseUint Uint256 Params Chain.

Module Pow.
Import BaseUint Uint256 Params Chain.

(** ** [DarkGravityWave] *)

Definition PastBlocksMin : Z := 24.
Definition PastBlocksMax : Z := 24.

(** The local variables the loop updates. *)
Record dgw := mkDgw {
  CountBlocks : Z;
  PastDifficultyAverage : base_uint;
  PastDifficultyAveragePrev : base_uint;
  LastBlockTime : Z;
  nActualTimespan : Z
}.

Definition dgw_init : dgw := mkDgw 0 (SetNull WIDTH) (SetNull WIDTH) 0 0.

(** The body of the loop for one block. *)
Definition dgw_step (s : dgw) (BlockReading : CBlockIndex) : option dgw :=
  let count := CountBlocks s + 1 in
  let average :=
    if count <=? PastBlocksMin then
      if count =? 1 then Some (target_of (nBits BlockReading))
      else op_div (op_add (op_mul32 (PastDifficultyAveragePrev s) (T32 count)) (target_of (nBits BlockReading)))
             (uint256 (count + 1))
    else Some (PastDifficultyAverage s) in
  match average with
  | None => None
  | Some average =>
      let prev := if count <=? PastBlocksMin then average else PastDifficultyAveragePrev s in
      let span :=
        if 0 <? LastBlockTime s
        then nActualTimespan s + (LastBlockTime s - GetBlockTime BlockReading)
        else nActualTimespan s in
      Some (mkDgw count average prev (GetBlockTime BlockReading) span)
  end.

(** The loop; it breaks after [PastBlocksMax] blocks. *)
Fixpoint dgw_loop (fuel : nat) (m : index) (i : Z) (s : dgw) (BlockReading : option nat) : option dgw :=
  match BlockReading with
  | None => Some s
  | Some p =>
      match deref m p with
      | None => None
      | Some b =>
          if negb (0 <? nHeight b) then Some s
          else if (0 <? PastBlocksMax) && (PastBlocksMax <? i) then Some s
          else
            match fuel with
            | O => None
            | S fuel =>
                match dgw_step s b with
                | None => None
                | Some s =>
                    match pprev b with
                    | None => Some s
                    | Some q => dgw_loop fuel m (i + 1) s (Some q)
                    end
                end
            end
      end
  end.

(** [i] runs from 1 to at most 24. *)
Definition dgw_fuel : nat := 24.

Section Retarget.
Context {P : CChainParams}.

(** The proof-of-stake branch, for the tip [b] and its predecessor [prev]. *)
Definition retarget_pos (b prev : CBlockIndex) : option Z :=
  let bnTargetLimit := limit_shr 24 in
  let passed_fork := 2565000 <=? nHeight b + 1 in
  let nTargetSpacing := if passed_fork then 600 else 60 in
  let nTargetTimespan := 60 * 40 in
  if nHeight b + 1 =? StakePointerForkHeight then Some (GetCompact bnTargetLimit false)
  else
    let nActualSpacing := GetBlockTime b - GetBlockTime prev in
    let nActualSpacing := if nActualSpacing <? 0 then 1 else nActualSpacing in
    let bnNew := target_of (nBits b) in
    let nInterval := nTargetTimespan / nTargetSpacing in
    let bnNew := op_mul32 bnNew (T32 ((nInterval - 1) * nTargetSpacing + nActualSpacing + nActualSpacing)) in
    match op_div bnNew (uint256 ((nInterval + 1) * nTargetSpacing)) with
    | None => None
    | Some bnNew =>
        let bnNew := if op_le bnNew (uint256 0) || op_gt bnNew bnTargetLimit then bnTargetLimit else bnNew in
        Some (GetCompact bnNew false)
    end.

(** The end of the proof-of-work branch, after the loop. *)
Definition retarget_pow (s : dgw) : option Z :=
  let bnNew := PastDifficultyAverage s in
  let _nTargetTimespan := CountBlocks s * 60 in
  let span := nActualTimespan s in
  let span := if span <? _nTargetTimespan / 3 then _nTargetTimespan / 3 else span in
  let span := if _nTargetTimespan * 3 <? span then _nTargetTimespan * 3 else span in
  match op_div (op_mul32 bnNew (T32 span)) (uint256 _nTargetTimespan) with
  | None => None
  | Some bnNew =>
      let bnNew := if op_gt bnNew ProofOfWorkLimit then ProofOfWorkLimit else bnNew in
      Some (GetCompact bnNew false)
  end.

Definition DarkGravityWave (m : index) (pindexLast : option nat) : option Z :=
  match pindexLast with
  | None => Some (GetCompact ProofOfWorkLimit false)
  | Some p =>
      match deref m p with
      | None => None
      | Some b =>
          if (nHeight b =? 0) || (nHeight b <? PastBlocksMin) then Some (GetCompact ProofOfWorkLimit false)
          else if LAST_POW_BLOCK <? nHeight b then
            match pprev b with
            | Some q => match deref m q with Some prev => retarget_pos b prev | None => None end
            | None => None
            end
          else
            match dgw_loop dgw_fuel m 1 dgw_init (Some p) with
            | Some s => retarget_pow s
            | None => None
            end
      end
  end.

Definition GetNextWorkRequired (m : index) (pindexLast : option nat) : option Z := DarkGravityWave m pindexLast.

(** ** Checking a target *)

Definition CheckProofOfWork (hash : base_uint) (nBits : Z) : bool :=
  if SkipProofOfWorkCheck then true
  else
    let '(bnTarget, fNegative, fOverflow) := SetCompact nBits in
    negb (fNegative || EqualTo bnTarget 0 || fOverflow || op_gt bnTarget ProofOfWorkLimit).

End Retarget.

(** ** The work a block stands for *)

Definition GetBlockProof (nBits : Z) : option base_uint :=
  let '(bnTarget, fNegative, fOverflow) := SetCompact nBits in
  if fNegative || fOverflow || EqualTo bnTarget 0 then Some (uint256 0)
  else
    match op_div (op_not bnTarget) (op_add bnTarget (uint256 1)) with
    | Some q => Some (op_add q (uint256 1))
    | None => None
    end.

(** [CBlockIndex::GetBlockTrust]. *)
Definition GetBlockTrust (b : CBlockIndex) : option base_uint :=
  let bnTarget := target_of (nBits b) in
  if op_le bnTarget (uint256 0) then Some (uint256 0)
  else if IsProofOfStake b then op_div (op_shl (uint256 1) 256) (op_add bnTarget (uint256 1))
  else
    match op_div (op_shr (op_not (uint256 0)) 20) (op_add bnTarget (uint256 1)) with
    | Some bnPoWTrust => Some (if op_gt bnPoWTrust (uint256 1) then bnPoWTrust else uint256 1)
    | None => None
    end.

(** ** The header fields of an index are 32-bit numbers *)

Definition fields_ok (b : CBlockIndex) : Prop := u32 (nBits b) /\ u32 (nTime b).
Definition headers_ok (m : index) : Prop := forall p b, deref m p = Some b -> fields_ok b.

(** The target the header of a block states. *)
Definition block_target (b : CBlockIndex) : Z := compact_value (nBits b) mod 2 ^ 256.

(** [uint256] of a small literal. *)
Lemma u256_lit z : 0 <= z < 2 ^ 64 -> u256 (uint256 z) z.
Proof. intros; apply u256_uint256; assumption. Qed.

Lemma u256_block_target b : fields_ok b -> u256 (target_of (nBits b)) (block_target b).
Proof. intros [H _]; exact (u256_target _ H). Qed.

#[export] Hint Resolve u256_block_target : u256.

Lemma u256_pos_limit : u256 (limit_shr 24) pos_limit.
Proof. apply u256_limit; lia. Qed.

(** ** The proof-of-stake retarget in numbers *)

Definition spacing (b : CBlockIndex) : Z := if 2565000 <=? nHeight b + 1 then 600 else 60.

Definition actual_spacing (b prev : CBlockIndex) : Z :=
  if GetBlockTime b <? GetBlockTime prev then 1 else GetBlockTime b - GetBlockTime prev.

(** What a quotient becomes: 0 or too large means the limit. *)
Definition pos_cap (q : Z) : Z := if (q <=? 0) || (pos_limit <? q) then pos_limit else q.

Lemma pos_cap_range q : 0 < pos_cap q <= pos_limit.
Proof.
  unfold pos_cap; destruct (Z.leb_spec q 0), (Z.ltb_spec pos_limit q); cbn [orb]; try lia;
    split; vm_compute; congruence.
Qed.

(** The branch as compiled: the factor modulo 2^32, the product modulo 2^256. *)
Lemma retarget_pos_spec {P : CChainParams} b prev : fields_ok b -> fields_ok prev ->
  nHeight b + 1 <> StakePointerForkHeight ->
  exists r, retarget_pos b prev = Some (GetCompact r false) /\
    u256 r (pos_cap (((block_target b * ((2400 - spacing b + 2 * actual_spacing b prev) mod 2 ^ 32)) mod 2 ^ 256)
                     / (2400 + spacing b))).
Proof.
  intros Hb Hp Hf; unfold retarget_pos; rewrite (proj2 (Z.eqb_neq _ _) Hf); cbv zeta.
  set (d := if _ <? 0 then 1 else _); set (f := _ + d + d); set (den := (_ + 1) * _).
  assert (Ed : d = actual_spacing b prev).
  { unfold d, actual_spacing; destruct (Z.ltb_spec (GetBlockTime b - GetBlockTime prev) 0),
      (Z.ltb_spec (GetBlockTime b) (GetBlockTime prev)); lia. }
  assert (E : f = 2400 - spacing b + 2 * actual_spacing b prev /\ den = 2400 + spacing b).
  { unfold f, den, spacing; rewrite Ed; destruct (2565000 <=? _); change (60 * 40 / 600) with 4;
      change (60 * 40 / 60) with 40; split; lia. }
  destruct E as [<- <-]; rewrite <- T32_mod.
  assert (Hden : 0 < den < 2 ^ 64).
  { unfold den; destruct (2565000 <=? _); vm_compute; split; reflexivity. }
  destruct (u256_div_pos (op_mul32 (target_of (nBits b)) (T32 f)) (uint256 den)
    ((block_target b * T32 f) mod 2 ^ 256) den) as (q & -> & Q); [..|lia|].
  { apply u256_mul32; [apply u256_block_target, Hb|apply T32_u32]. }
  { apply u256_lit; lia. }
  rewrite (u256_le _ _ _ _ Q (u256_lit 0 ltac:(lia))), (u256_gt _ _ _ _ Q u256_pos_limit).
  eexists; split; [reflexivity|]; unfold pos_cap; destruct (_ || _); [apply u256_pos_limit|exact Q].
Qed.

(** No truncation for spacings below 97 days and targets below the limit. *)
Lemma pos_exact t f den : 0 <= t <= pos_limit -> 0 <= f < 2 ^ 24 ->
  ((t * (f mod 2 ^ 32)) mod 2 ^ 256) / den = t * f / den.
Proof.
  intros Ht Hf; assert (HL : pos_limit < 2 ^ 232) by (vm_compute; reflexivity).
  rewrite (Z.mod_small f) by lia; rewrite (Z.mod_small (t * f)); [reflexivity|nia].
Qed.

(** ** The proof-of-work loop in numbers *)

(** The block and its ancestors, newest first, [n] blocks at most. *)
Fixpoint branch (n : nat) (m : index) (pindex : option nat) : list CBlockIndex :=
  match n, pindex with
  | S n, Some p =>
      match deref m p with
      | Some b => b :: branch n m (pprev b)
      | None => []
      end
  | _, _ => []
  end.

Definition bind_step (o : option dgw) (b : CBlockIndex) : option dgw :=
  match o with Some s => dgw_step s b | None => None end.

Lemma fold_bind_none l : fold_left bind_step l None = None.
Proof. induction l; [reflexivity|exact IHl]. Qed.

(** On a well-formed index the loop folds its body over that list: it neither
    runs out of blocks nor of fuel. *)
Lemma dgw_loop_fold m : wf m -> forall k p b i s,
  deref m p = Some b -> Z.of_nat k <= nHeight b -> i = 25 - Z.of_nat k ->
  forall r, fold_left bind_step (branch k m (Some p)) (Some s) = Some r ->
  dgw_loop k m i s (Some p) = Some r.
Proof.
  intros Hw; induction k as [|k IH]; intros p b i s Hp Hk Hi r Hr; cbn [dgw_loop]; rewrite Hp.
  - replace (PastBlocksMax <? i) with true by (symmetry; apply Z.ltb_lt; unfold PastBlocksMax; lia).
    cbn in Hr; rewrite andb_true_r; change (0 <? PastBlocksMax) with true; destruct (negb _); exact Hr.
  - destruct (Z.ltb_spec 0 (nHeight b)) as [H0|]; [|lia]; cbn [negb].
    replace (PastBlocksMax <? i) with false by (symmetry; apply Z.ltb_ge; unfold PastBlocksMax; lia).
    rewrite andb_false_r; cbn [branch] in Hr; rewrite Hp in Hr; cbn [fold_left bind_step] in Hr.
    destruct (dgw_step s b) as [s'|]; [|rewrite fold_bind_none in Hr; discriminate].
    destruct (Hw p b Hp) as [_ H]; destruct (pprev b) as [q|]; [|lia].
    destruct H as [(c & Hc & Hh) _]; apply (IH q c); assumption || lia.
Qed.

(** The state of the loop as numbers. *)
Definition dgw_num : Type := Z * Z * Z * Z.

Definition num_step (x : dgw_num) (b : CBlockIndex) : dgw_num :=
  let '(count, avg, last, span) := x in
  (count + 1,
   (if count + 1 =? 1 then block_target b
    else (((avg * (count + 1)) mod 2 ^ 256 + block_target b) mod 2 ^ 256) / (count + 2)),
   GetBlockTime b,
   (if 0 <? last then span + (last - GetBlockTime b) else span)).

Definition dgw_rep (s : dgw) (x : dgw_num) : Prop :=
  let '(count, avg, last, span) := x in
  CountBlocks s = count /\ u256 (PastDifficultyAverage s) avg /\ u256 (PastDifficultyAveragePrev s) avg /\
  LastBlockTime s = last /\ nActualTimespan s = span.

Lemma dgw_step_rep s count avg last span b :
  dgw_rep s (count, avg, last, span) -> 0 <= count < 24 -> fields_ok b ->
  exists s', dgw_step s b = Some s' /\ dgw_rep s' (num_step (count, avg, last, span) b).
Proof.
  intros (<- & Ha & Hp & <- & <-) Hc Hb; unfold dgw_step, num_step.
  set (c := CountBlocks s) in *; change PastBlocksMin with 24.
  destruct (Z.leb_spec (c + 1) 24) as [_|]; [|lia].
  destruct (Z.eqb_spec (c + 1) 1) as [E|E].
  - eexists; split; [reflexivity|]; repeat split; try apply (u256_block_target b Hb).
  - destruct (u256_div_pos
      (op_add (op_mul32 (PastDifficultyAveragePrev s) (T32 (c + 1))) (target_of (nBits b))) (uint256 (c + 1 + 1))
      (((avg * T32 (c + 1)) mod 2 ^ 256 + block_target b) mod 2 ^ 256) (c + 1 + 1)) as (q & -> & Q); [..|lia|].
    + apply u256_add; [apply u256_mul32; [exact Hp|apply T32_u32]|apply u256_block_target, Hb].
    + apply u256_lit; lia.
    + rewrite (T32_id (c + 1)) in Q by (unfold u32; lia); replace (c + 1 + 1) with (c + 2) in Q by lia.
      eexists; split; [reflexivity|]; repeat split; apply Q.
Qed.

Lemma dgw_fold_rep l : forall s count avg last span,
  dgw_rep s (count, avg, last, span) -> 0 <= count -> count + Z.of_nat (length l) <= 24 -> Forall fields_ok l ->
  exists s', fold_left bind_step l (Some s) = Some s' /\
    dgw_rep s' (fold_left num_step l (count, avg, last, span)).
Proof.
  induction l as [|b l IH]; intros s count avg last span Hs H0 Hl Hf; cbn [fold_left bind_step length] in *.
  - exists s; split; [reflexivity|exact Hs].
  - inversion_clear Hf as [|? ? Hb Hf'].
    destruct (dgw_step_rep s count avg last span b Hs ltac:(lia) Hb) as (s' & -> & Hs').
    unfold num_step in Hs' |- *; fold num_step; apply IH; assumption || lia.
Qed.

Lemma num_fold_count l : forall x, fst (fst (fst (fold_left num_step l x))) = fst (fst (fst x)) + Z.of_nat (length l).
Proof.
  induction l as [|b l IH]; intros [[[c a] t] s]; cbn [fold_left length]; [cbn; lia|].
  rewrite IH; cbn [num_step fst]; lia.
Qed.

Lemma branch_length m : wf m -> forall k p b,
  deref m p = Some b -> Z.of_nat k <= nHeight b + 1 -> length (branch k m (Some p)) = k.
Proof.
  intros Hw; induction k as [|k IH]; intros p b Hp Hk; [reflexivity|]; cbn [branch]; rewrite Hp; cbn [length].
  destruct (Hw p b Hp) as [H0 H]; destruct (pprev b) as [q|].
  - destruct H as [(c & Hc & Hh) _]; f_equal; apply (IH q c Hc); lia.
  - destruct k; [reflexivity|lia].
Qed.

Lemma branch_fields m : headers_ok m -> forall k o, Forall fields_ok (branch k m o).
Proof.
  intros Hm; induction k as [|k IH]; intros [p|]; cbn [branch]; try constructor.
  destruct (deref m p) as [b|] eqn:E; [|constructor]; constructor; [exact (Hm p b E)|apply IH].
Qed.

(** ** The average without truncation *)

(** Weighted towards the older blocks: the mean so far counts [count] times
    against the next target. *)
Fixpoint running (count avg : Z) (ts : list Z) : Z :=
  match ts with
  | [] => avg
  | t :: ts =>
      let c := count + 1 in
      running c (if c =? 1 then t else (avg * c + t) / (c + 1)) ts
  end.

Lemma mean_between lo hi avg c t :
  0 < c -> lo <= avg <= hi -> lo <= t <= hi -> lo <= (avg * c + t) / (c + 1) <= hi.
Proof.
  intros Hc Ha Ht; split; [apply Z.div_le_lower_bound|apply Z.lt_succ_r, Z.div_lt_upper_bound]; nia.
Qed.

(** The time between the first and the last block of the list. *)
Fixpoint span_of (last : Z) (bs : list CBlockIndex) : Z :=
  match bs with
  | [] => 0
  | b :: bs => last - GetBlockTime b + span_of (GetBlockTime b) bs
  end.

Lemma num_fold_exact lo hi l : 0 <= lo -> hi <= (2 ^ 256 - 1) / 2 ^ 20 -> forall count avg last span,
  0 <= count -> count + Z.of_nat (length l) <= 24 -> (0 < count -> lo <= avg <= hi /\ 0 < last) ->
  (count = 0 -> last = 0) ->
  Forall (fun b => lo <= block_target b <= hi /\ 0 < GetBlockTime b) l ->
  let '(_, avg', _, span') := fold_left num_step l (count, avg, last, span) in
  avg' = running count avg (map block_target l) /\
  span' = span + (if 0 <? last then span_of last l
                  else match l with [] => 0 | b :: l => span_of (GetBlockTime b) l end) /\
  (0 < count + Z.of_nat (length l) -> lo <= avg' <= hi).
Proof.
  intros Hlo Hhi; assert (HL : (2 ^ 256 - 1) / 2 ^ 20 < 2 ^ 236) by (vm_compute; reflexivity).
  induction l as [|b l IH]; intros count avg last span H0 Hl Ha Hz Hf; cbn [fold_left length map running] in *.
  - split; [reflexivity|split; [destruct (0 <? last); cbn; lia|intros; apply Ha; lia]].
  - inversion_clear Hf as [|? ? [Hb Ht] Hf']; unfold num_step at 2; cbv beta iota zeta.
    set (avg1 := if _ =? 1 then block_target b else (_ mod _) / _).
    assert (E1 : avg1 = if count + 1 =? 1 then block_target b else (avg * (count + 1) + block_target b) / (count + 1 + 1)).
    { unfold avg1; destruct (Z.eqb_spec (count + 1) 1) as [|Hne]; [reflexivity|].
      destruct (Ha ltac:(lia)) as [A _]; replace (count + 1 + 1) with (count + 2) by lia.
      rewrite (Z.mod_small (avg * _)) by nia; rewrite Z.mod_small by nia; reflexivity. }
    assert (B1 : lo <= avg1 <= hi).
    { rewrite E1; destruct (Z.eqb_spec (count + 1) 1); [exact Hb|].
      apply mean_between; try assumption; [lia|apply Ha; lia]. }
    specialize (IH (count + 1) avg1 (GetBlockTime b)
      (if 0 <? last then span + (last - GetBlockTime b) else span) ltac:(lia) ltac:(lia) (fun _ => conj B1 Ht)
      ltac:(intros; lia) Hf').
    destruct (fold_left num_step l _) as [[[c' a'] t'] s']; destruct IH as (-> & -> & I3).
    rewrite <- E1; split; [reflexivity|split; [|intros; apply I3; lia]].
    apply Z.ltb_lt in Ht; rewrite Ht; destruct (Z.ltb_spec 0 last); cbn [span_of]; lia.
Qed.

(** The end of the branch: the average times the clamped time span over the
    time span aimed for, capped by the limit. *)
Definition clamp_span (span : Z) : Z := Z.min (Z.max span 480) 4320.

Lemma retarget_pow_spec {P : CChainParams} {L : LawfulParams P} s last avg span :
  dgw_rep s (24, avg, last, span) ->
  exists r, retarget_pow s = Some (GetCompact r false) /\
    u256 r (Z.min (((avg * clamp_span span) mod 2 ^ 256) / 1440) pow_limit).
Proof.
  intros (Hc & Ha & _ & _ & Hs); unfold retarget_pow; rewrite Hc, Hs; change (24 * 60) with 1440.
  change (1440 / 3) with 480; change (1440 * 3) with 4320; cbv zeta.
  set (x := if 4320 <? _ then 4320 else _).
  assert (Ex : x = clamp_span span).
  { unfold x, clamp_span; destruct (Z.ltb_spec span 480); [cbn; lia|]; destruct (Z.ltb_spec 4320 span); lia. }
  rewrite Ex, T32_id by (unfold u32, clamp_span; lia).
  destruct (u256_div_pos (op_mul32 (PastDifficultyAverage s) (clamp_span span)) (uint256 1440)
    ((avg * clamp_span span) mod 2 ^ 256) 1440) as (q & -> & Q); [..|lia|].
  { apply u256_mul32; [exact Ha|unfold u32, clamp_span; lia]. }
  { apply u256_lit; lia. }
  rewrite (u256_gt _ _ _ _ Q pow_limit_ok); eexists; split; [reflexivity|].
  destruct (Z.ltb_spec pow_limit (((avg * clamp_span span) mod 2 ^ 256) / 1440)) as [H|H].
  - rewrite Z.min_r by lia; apply pow_limit_ok.
  - rewrite Z.min_l by lia; exact Q.
Qed.

(** The three regimes of [DarkGravityWave]. *)
Section Branches.
Context {P : CChainParams} {L : LawfulParams P} (m : index) (Hw : wf m) (Hm : headers_ok m).

Lemma DGW_short p b : deref m p = Some b -> nHeight b < 24 ->
  DarkGravityWave m (Some p) = Some (GetCompact ProofOfWorkLimit false).
Proof.
  intros Hp Hh; unfold DarkGravityWave; rewrite Hp; change PastBlocksMin with 24.
  apply Z.ltb_lt in Hh; rewrite Hh, orb_true_r; reflexivity.
Qed.

Lemma DGW_pos p b : deref m p = Some b -> LAST_POW_BLOCK < nHeight b ->
  exists q prev, pprev b = Some q /\ deref m q = Some prev /\
    DarkGravityWave m (Some p) = retarget_pos b prev.
Proof.
  intros Hp Hh; pose proof last_pow_ok; destruct (Hw p b Hp) as [_ H1].
  destruct (pprev b) as [q|] eqn:Eq; [|lia]; destruct H1 as [(c & Hc & _) _]; exists q, c.
  split; [reflexivity|split; [exact Hc|]]; unfold DarkGravityWave; rewrite Hp, Eq, Hc.
  change PastBlocksMin with 24; destruct (Z.eqb_spec (nHeight b) 0), (Z.ltb_spec (nHeight b) 24),
    (Z.ltb_spec LAST_POW_BLOCK (nHeight b)); lia || reflexivity.
Qed.

Lemma DGW_pow p b : deref m p = Some b -> 24 <= nHeight b <= LAST_POW_BLOCK ->
  exists s, DarkGravityWave m (Some p) = retarget_pow s /\
    dgw_rep s (fold_left num_step (branch 24 m (Some p)) (0, 0, 0, 0)).
Proof.
  intros Hp Hh; destruct (dgw_fold_rep (branch 24 m (Some p)) dgw_init 0 0 0 0) as (s & Hf & Hs).
  - repeat split; try reflexivity; apply limbs_repeat.
  - lia.
  - rewrite (branch_length m Hw 24 p b Hp) by lia; lia.
  - apply branch_fields, Hm.
  - exists s; split; [|exact Hs]; unfold DarkGravityWave; rewrite Hp; change PastBlocksMin with 24.
    destruct (Z.eqb_spec (nHeight b) 0), (Z.ltb_spec (nHeight b) 24), (Z.ltb_spec LAST_POW_BLOCK (nHeight b));
      try lia; cbn [orb]; unfold dgw_fuel.
    rewrite (dgw_loop_fold m Hw 24 p b 1 dgw_init Hp ltac:(lia) eq_refl s Hf); reflexivity.
Qed.

End Branches.

Lemma compact_value_nonneg c : u32 c -> 0 <= compact_value c.
Proof.
  intros Hc; destruct (compact_fields c Hc) as (_ & _ & Hs & Hm); unfold compact_value.
  destruct (Z.leb_spec (c / 2 ^ 24) 3);
    [apply Z.div_pos; [lia|apply Z.pow_pos_nonneg; lia]|apply Z.mul_nonneg_nonneg; [lia|apply Z.pow_nonneg; lia]].
Qed.

(** A compact number has at most 23 significant bits, so it is never the
    largest [uint256]. *)
Lemma compact_value_small c : u32 c -> compact_value c mod 2 ^ 256 <> 2 ^ 256 - 1.
Proof.
  intros Hc E; destruct (compact_fields c Hc) as (_ & _ & Hs & Hm); unfold compact_value in E.
  destruct (Z.leb_spec (c / 2 ^ 24) 3) as [H3|H3].
  - assert (Hp : 0 < 2 ^ (8 * (3 - c / 2 ^ 24))) by (apply Z.pow_pos_nonneg; lia).
    assert (0 <= c mod 2 ^ 23 / 2 ^ (8 * (3 - c / 2 ^ 24)) < 2 ^ 23)
      by (split; [apply Z.div_pos; lia|apply Z.div_lt_upper_bound; nia]).
    rewrite Z.mod_small in E by lia; lia.
  - assert (Ev : (c mod 2 ^ 23 * 2 ^ (8 * (c / 2 ^ 24 - 3))) mod 2 ^ 256 mod 2 = 0).
    { rewrite Z.mod_mod_divide by (exists (2 ^ 255); reflexivity).
      replace (8 * (c / 2 ^ 24 - 3)) with (8 * (c / 2 ^ 24 - 3) - 1 + 1) by lia.
      rewrite Z.pow_add_r, Z.pow_1_r, Z.mul_assoc by lia.
      apply Z.mod_mul; lia. }
    rewrite E in Ev; vm_compute in Ev; discriminate.
Qed.

Lemma CheckProofOfWork_spec {P : CChainParams} {L : LawfulParams P} hash c : u32 c ->
  CheckProofOfWork hash c =
  SkipProofOfWorkCheck || (((c .& 0x00800000 =? 0) && (0 <? compact_value c)) && (compact_value c <=? pow_limit)).
Proof.
  intros Hc; unfold CheckProofOfWork; destruct SkipProofOfWorkCheck; [reflexivity|]; cbn [orb].
  pose proof (SetCompact_spec c Hc) as H; pose proof (u256_target c Hc) as T; unfold target_of in T.
  destruct (SetCompact c) as [[a neg] ovf]; cbn [fst] in T; destruct H as (_ & _ & _ & -> & ->).
  rewrite (u256_is0 _ _ T), (u256_gt _ _ _ _ T pow_limit_ok).
  pose proof (compact_value_nonneg c Hc) as Hv.
  pose proof (u256_range _ _ pow_limit_ok) as HL; set (v := compact_value c) in *.
  destruct (Z.leb_spec (2 ^ 256) v) as [Hbig|Hsm].
  - rewrite orb_true_r; destruct (Z.leb_spec v pow_limit); [lia|]; rewrite andb_false_r; reflexivity.
  - rewrite Z.mod_small by lia; rewrite orb_false_r.
    destruct (Z.eqb_spec v 0), (c .& 8388608 =? 0), (Z.ltb_spec 0 v), (Z.leb_spec v pow_limit),
      (Z.ltb_spec pow_limit v); cbn; lia || reflexivity.
Qed.

(** ** A line of blocks a minute apart, for the witnesses *)

Definition line (bits : Z) (n : nat) : index :=
  link_all genesis_index
    (map (fun i => (i, mkIndex [Z.of_nat i + 2] None None 0 (60 * Z.of_nat i + 70) bits 0 0 [])) (seq 0 n)).

Definition pow_line : index := line 0x1e0ffff0 30.
Definition pos_line : index := line 0x1b00ffff 110.

Lemma line_wf bits n : wf (line bits n).
Proof. apply link_all_wf, genesis_wf. Qed.

Definition fields_okb (b : CBlockIndex) : bool :=
  (0 <=? nBits b) && (nBits b <? 2 ^ 32) && (0 <=? nTime b) && (nTime b <? 2 ^ 32).

Lemma headers_okb m : forallb fields_okb m = true -> headers_ok m.
Proof.
  intros H p b Hp; apply nth_error_In in Hp; apply (proj1 (forallb_forall _ _) H) in Hp.
  unfold fields_okb in Hp; rewrite !andb_true_iff, !Z.leb_le, !Z.ltb_lt in Hp; unfold fields_ok, u32; lia.
Qed.

(** On the regression test network the limit is 2^255 - 1, and the average of
    two blocks at 0x207fffff is not that target: the sum wraps.  The bound of
    [RoomyParams] is needed. *)
Example regtest_average_wraps :
  let b := mkIndex [] None None 1 70 0x207fffff 0 0 [] in
  let '(_, avg, _, _) := fold_left num_step [b; b] (0, 0, 0, 0) in
  block_target b <= (2 ^ 256 - 1) / 2 /\ avg < block_target b / 2.
Proof. vm_compute; split; [congruence|reflexivity]. Qed.

(** ** Properties *)

(** C19: on every well-formed index [GetNextWorkRequired] returns a compact
    target (no NULL is followed, no division by zero, the loop ends); it
    decodes without sign or overflow to at most the proof-of-work limit, and
    in the proof-of-stake regime it is positive, at most [~0 >> 24], and
    passes [CheckProofOfWork]. *)
Theorem next_work_valid {P : CChainParams} {L : LawfulParams P} m p b :
  wf m -> headers_ok m -> deref m p = Some b ->
  exists c e, GetNextWorkRequired m (Some p) = Some c /\ u32 c /\
    SetCompact c = (target_of c, false, false) /\ u256 (target_of c) e /\ 0 <= e <= pow_limit /\
    (LAST_POW_BLOCK < nHeight b -> 0 < e <= pos_limit /\ forall hash, CheckProofOfWork hash c = true).
Proof.
  intros Hw Hm Hp; pose proof last_pow_ok; pose proof pow_limit_pos.
  assert (HPL : 0 <= pos_limit) by (vm_compute; congruence).
  assert (E : exists r v, DarkGravityWave m (Some p) = Some (GetCompact r false) /\ u256 r v /\ v <= pow_limit /\
    (LAST_POW_BLOCK < nHeight b -> 0 < v <= pos_limit)).
  { destruct (Z.lt_ge_cases (nHeight b) 24) as [H24|H24].
    { rewrite (DGW_short m p b Hp H24); do 2 eexists; split; [reflexivity|split; [apply pow_limit_ok|]]; lia. }
    destruct (Z.lt_ge_cases LAST_POW_BLOCK (nHeight b)) as [Hl|Hl].
    - destruct (DGW_pos m Hw p b Hp Hl) as (q & prev & _ & Hq & ->).
      destruct (Z.eq_dec (nHeight b + 1) StakePointerForkHeight) as [Ef|Ef].
      + unfold retarget_pos; rewrite (proj2 (Z.eqb_eq _ _) Ef); do 2 eexists; split; [reflexivity|].
        split; [apply u256_pos_limit|]; split; [lia|]; intros _; vm_compute; intuition congruence.
      + destruct (retarget_pos_spec b prev (Hm _ _ Hp) (Hm _ _ Hq) Ef) as (r & -> & R).
        do 2 eexists; split; [reflexivity|split; [exact R|]]; split; [|intros _; apply pos_cap_range].
        eapply Z.le_trans; [apply pos_cap_range|assumption].
    - destruct (DGW_pow m Hw Hm p b Hp (conj H24 Hl)) as (s & -> & Hs).
      pose proof (num_fold_count (branch 24 m (Some p)) (0, 0, 0, 0)) as C.
      rewrite (branch_length m Hw 24 p b Hp) in C by lia.
      destruct (fold_left num_step _ _) as [[[c avg] last] span]; cbn in C; subst c.
      destruct (retarget_pow_spec s last avg span Hs) as (r & -> & R).
      do 2 eexists; split; [reflexivity|split; [exact R|]]; lia. }
  destruct E as (r & v & E & R & Hv & Hpos); destruct (u256_GetCompact r v R) as (Hu & e & S & T & V & He & He0 & _).
  exists (GetCompact r false), e; split; [exact E|split; [exact Hu|split; [exact S|split; [exact T|split; [lia|]]]]].
  intros Hl; specialize (Hpos Hl); split.
  - split; [apply He0|]; lia.
  - intros hash; rewrite CheckProofOfWork_spec by exact Hu; rewrite V.
    pose proof (SetCompact_spec _ Hu) as Q; rewrite S in Q; destruct Q as (_ & _ & _ & Q & _).
    rewrite V in Q; destruct (Z.ltb_spec 0 e), (Z.leb_spec e pow_limit), (Z.eqb_spec e 0); lia.
Qed.

Lemma next_work_valid_witness :
  deref pow_line 30 <> None /\
  exists c e, @GetNextWorkRequired CMainParams pow_line (Some 30%nat) = Some c /\ u256 (target_of c) e.
Proof.
  assert (E : exists b, deref pow_line 30 = Some b) by (vm_compute; eauto); destruct E as (b & Hb).
  split; [congruence|].
  destruct (next_work_valid (P := CMainParams) pow_line 30 b (line_wf _ _)) as (c & e & H1 & _ & _ & H2 & _);
    [apply headers_okb; vm_compute; reflexivity|exact Hb|exists c, e; auto].
Defined.

(** In the proof-of-stake regime, away from the StakePointer fork, the
    next target is the tip's target times [(2400 - s + 2 * d) / (2400 + s)],
    exactly and rounded down, where [s] is the spacing in force and [d] the
    time the tip took (1 if negative); 0 or a target past [~0 >> 24] becomes
    [~0 >> 24].  No step truncates while [d] is below 2^23 - 1200 seconds; a
    block exactly on time leaves the target as it is. *)
Theorem pos_retarget_exact {P : CChainParams} {L : LawfulParams P} m p b q prev :
  wf m -> headers_ok m -> deref m p = Some b -> LAST_POW_BLOCK < nHeight b ->
  pprev b = Some q -> deref m q = Some prev -> nHeight b + 1 <> StakePointerForkHeight ->
  block_target b <= pos_limit -> actual_spacing b prev < 2 ^ 23 - 1200 ->
  exists r v, GetNextWorkRequired m (Some p) = Some (GetCompact r false) /\ u256 r v /\
    v = pos_cap (block_target b * (2400 - spacing b + 2 * actual_spacing b prev) / (2400 + spacing b)) /\
    (actual_spacing b prev = spacing b -> 0 < block_target b -> v = block_target b).
Proof.
  intros Hw Hm Hp Hl Hpp Hq Hf Ht Hd; pose proof (Hm _ _ Hp) as Fb; pose proof (Hm _ _ Hq) as Fq.
  destruct (DGW_pos m Hw p b Hp Hl) as (q' & prev' & E1 & E2 & E); unfold GetNextWorkRequired; rewrite E.
  assert (q' = q) as -> by congruence; assert (prev' = prev) as -> by congruence.
  destruct (retarget_pos_spec b prev Fb Fq Hf) as (r & -> & R).
  pose proof (u256_range _ _ (u256_block_target b Fb)) as T0.
  assert (Hs : spacing b = 600 \/ spacing b = 60) by (unfold spacing; destruct (_ <=? _); auto).
  assert (Ha : 0 <= actual_spacing b prev)
    by (unfold actual_spacing; destruct (Z.ltb_spec (GetBlockTime b) (GetBlockTime prev)); lia).
  rewrite pos_exact in R by lia; exists r; eexists; split; [reflexivity|split; [exact R|split; [reflexivity|]]].
  intros -> Hpos; replace (2400 - spacing b + 2 * spacing b) with (2400 + spacing b) by lia.
  rewrite Z.div_mul by lia; unfold pos_cap.
  destruct (Z.leb_spec (block_target b) 0), (Z.ltb_spec pos_limit (block_target b)); lia || reflexivity.
Qed.

Lemma pos_retarget_exact_witness :
  exists b prev, deref pos_line 110 = Some b /\ deref pos_line 109 = Some prev /\
    block_target b <= pos_limit /\ actual_spacing b prev = 60 /\
    exists r v, @GetNextWorkRequired CTestNetParams pos_line (Some 110%nat) = Some (GetCompact r false) /\
      u256 r v /\ (actual_spacing b prev = spacing b -> 0 < block_target b -> v = block_target b).
Proof.
  assert (E : match deref pos_line 110, deref pos_line 109 with
    | Some b, Some prev => eq_ptr (pprev b) (Some 109%nat) && (actual_spacing b prev =? 60) && (nHeight b =? 110) &&
        (block_target b <=? pos_limit)
    | _, _ => false
    end = true) by (vm_compute; reflexivity).
  destruct (deref pos_line 110) as [b|] eqn:Hb, (deref pos_line 109) as [prev|] eqn:Hq; try discriminate E.
  rewrite !andb_true_iff, !Z.eqb_eq, Z.leb_le in E; destruct E as [[[Hpp Hd] Hh] Ht]; exists b, prev.
  destruct (pprev b) as [q|] eqn:Eq; [|discriminate Hpp]; apply Nat.eqb_eq in Hpp; subst q.
  split; [reflexivity|split; [reflexivity|split; [exact Ht|split; [exact Hd|]]]].
  destruct (pos_retarget_exact (P := CTestNetParams) pos_line 110 b 109 prev (line_wf _ _)) as (r & v & H1 & H2 & _ & H3);
    [apply headers_okb; vm_compute; reflexivity|exact Hb|rewrite Hh; vm_compute; reflexivity|exact Eq|exact Hq
    |rewrite Hh; vm_compute; congruence|exact Ht|rewrite Hd; lia|exists r, v; auto].
Defined.

(** In the proof-of-work regime the next target is the average of the
    last 24 targets times the time they took (clamped to a third and three
    times the time aimed for) over the time aimed for, rounded down and capped
    by the limit.  The average lies between any bounds of the 24 targets, and
    with targets below the limit of the main and test networks no 256-bit or
    32-bit operation on the way truncates. *)
Theorem pow_retarget_average {P : CChainParams} {L : LawfulParams P} {RP : RoomyParams P} m p b lo hi :
  wf m -> headers_ok m -> deref m p = Some b -> 24 <= nHeight b <= LAST_POW_BLOCK ->
  0 <= lo -> hi <= pow_limit ->
  let bs := branch 24 m (Some p) in
  Forall (fun x => lo <= block_target x <= hi /\ 0 < GetBlockTime x) bs ->
  exists r avg, GetNextWorkRequired m (Some p) = Some (GetCompact r false) /\
    avg = running 0 0 (map block_target bs) /\ lo <= avg <= hi /\
    u256 r (Z.min (avg * clamp_span (span_of (GetBlockTime b) bs) / 1440) pow_limit).
Proof.
  intros Hw Hm Hp Hh Hlo Hhi bs Hbs; pose proof pow_limit_roomy as HR.
  assert (HL : (2 ^ 256 - 1) / 2 ^ 20 < 2 ^ 236) by (vm_compute; reflexivity).
  destruct (DGW_pow m Hw Hm p b Hp Hh) as (s & E & Hs); fold bs in Hs.
  pose proof (num_fold_count bs (0, 0, 0, 0)) as C.
  assert (Hlen : length bs = 24%nat) by (apply (branch_length m Hw 24 p b Hp); lia).
  pose proof (num_fold_exact lo hi bs Hlo ltac:(lia) 0 0 0 0 ltac:(lia) ltac:(lia) ltac:(lia) (fun _ => eq_refl) Hbs) as X.
  destruct (fold_left num_step bs _) as [[[c avg] last] span]; cbn [fst] in C.
  destruct X as (X1 & X2 & X3); specialize (X3 ltac:(lia)); rewrite Hlen in C; cbn in C; subst c.
  destruct (retarget_pow_spec s last avg span Hs) as (r & Er & R).
  exists r, avg; split; [unfold GetNextWorkRequired; congruence|split; [exact X1|split; [exact X3|]]].
  assert (Espan : span = span_of (GetBlockTime b) bs).
  { rewrite X2; unfold bs; cbn [branch]; rewrite Hp; cbn [span_of]; change (0 <? 0) with false; cbv iota; lia. }
  rewrite <- Espan; rewrite Z.mod_small in R; [exact R|].
  assert (480 <= clamp_span span <= 4320) by (unfold clamp_span; lia); nia.
Qed.

Lemma pow_retarget_average_witness :
  exists b, deref pow_line 30 = Some b /\
    exists r avg, @GetNextWorkRequired CMainParams pow_line (Some 30%nat) = Some (GetCompact r false) /\
      avg = running 0 0 (map block_target (branch 24 pow_line (Some 30%nat))).
Proof.
  assert (E : exists b, deref pow_line 30 = Some b /\ nHeight b = 30) by (vm_compute; eauto).
  destruct E as (b & Hb & Hh); exists b; split; [exact Hb|].
  destruct (pow_retarget_average (P := CMainParams) pow_line 30 b 0 (@pow_limit _ CMainParams_lawful) (line_wf _ _))
    as (r & avg & H1 & H2 & _); [apply headers_okb; vm_compute; reflexivity|exact Hb
    |rewrite Hh; change (@LAST_POW_BLOCK CMainParams) with 500; lia|apply Z.le_refl|apply Z.le_refl
    | |exists r, avg; auto].
  assert (B : forallb (fun x => (0 <=? block_target x) && (block_target x <=? @pow_limit _ CMainParams_lawful) &&
    (0 <? GetBlockTime x)) (branch 24 pow_line (Some 30%nat)) = true) by (vm_compute; reflexivity).
  apply Forall_forall; intros x Hx; apply (proj1 (forallb_forall _ _) B) in Hx.
  rewrite !andb_true_iff, !Z.leb_le, Z.ltb_lt in Hx; exact Hx.
Defined.

(** As written, [CheckProofOfWork] accepts a header exactly when its
    compact target is positive and at most the limit, or checks are switched
    off: the answer does not depend on the hash. *)
Theorem CheckProofOfWork_iff {P : CChainParams} {L : LawfulParams P} hash c :
  u32 c ->
  CheckProofOfWork hash c = true <->
  SkipProofOfWorkCheck = true \/ (c .& 0x00800000 = 0 /\ 0 < compact_value c <= pow_limit).
Proof.
  intros Hc; rewrite CheckProofOfWork_spec, orb_true_iff, !andb_true_iff, Z.eqb_eq, Z.ltb_lt, Z.leb_le by exact Hc; tauto.
Qed.

Lemma CheckProofOfWork_iff_witness :
  u32 0x1e0ffff0 /\ @CheckProofOfWork CMainParams (op_not (uint256 0)) 0x1e0ffff0 = true.
Proof.
  assert (H : u32 0x1e0ffff0) by (unfold u32; lia); split; [exact H|].
  apply (CheckProofOfWork_iff (P := CMainParams) _ _ H); right; vm_compute; intuition congruence.
Defined.

(** [GetBlockProof] never divides by zero; for a target [t] that is
    positive and fits in 256 bits it is the expected number of hashes
    [2^256 / (t + 1)], a quotient that itself does not fit a [uint256]
    dividend, and 0 for any other compact number. *)
Theorem GetBlockProof_value c :
  u32 c ->
  exists r, GetBlockProof c = Some r /\
    u256 r (if (c .& 0x00800000 =? 0) && (0 <? compact_value c) && (compact_value c <? 2 ^ 256)
            then 2 ^ 256 / (compact_value c + 1) else 0).
Proof.
  intros Hc; unfold GetBlockProof; pose proof (compact_value_nonneg c Hc) as Hv.
  pose proof (SetCompact_spec c Hc) as H; pose proof (u256_target c Hc) as T; unfold target_of in T.
  destruct (SetCompact c) as [[a neg] ovf]; cbn [fst] in T; destruct H as (_ & _ & _ & -> & ->).
  rewrite (u256_is0 _ _ T); set (v := compact_value c) in *.
  assert (H0 : u256 (uint256 0) 0) by (apply u256_lit; lia).
  destruct (Z.leb_spec (2 ^ 256) v) as [Hbig|Hsm].
  { destruct (Z.ltb_spec v (2 ^ 256)); [lia|]; rewrite orb_true_r, !andb_false_r; exists (uint256 0); auto. }
  rewrite Z.mod_small in * by lia; rewrite orb_false_r.
  destruct (Z.eqb_spec v 0) as [E0|E0]; [rewrite E0; cbn; rewrite andb_false_r; exists (uint256 0); auto|].
  destruct (Z.ltb_spec 0 v), (Z.ltb_spec v (2 ^ 256)); try lia; cbn [negb andb]; rewrite !andb_true_r, orb_false_r.
  destruct (c .& 8388608 =? 0); cbn [negb]; [|exists (uint256 0); auto].
  assert (V1 : (v + 1) mod 2 ^ 256 = v + 1).
  { apply Z.mod_small; destruct (Z.eq_dec v (2 ^ 256 - 1)) as [E|]; [|lia].
    exfalso; apply (compact_value_small c Hc); rewrite Z.mod_small; assumption || lia. }
  destruct (u256_div_pos (op_not a) (op_add a (uint256 1)) (2 ^ 256 - 1 - v) (v + 1)) as (q & -> & Q);
    [apply u256_not, T|rewrite <- V1; apply u256_add; [exact T|apply u256_lit; lia]|lia|].
  eexists; split; [reflexivity|].
  assert (Eq : 2 ^ 256 / (v + 1) = (2 ^ 256 - 1 - v) / (v + 1) + 1).
  { rewrite <- Z.div_add by lia; f_equal; lia. }
  rewrite Eq, <- (Z.mod_small (_ + 1) (2 ^ 256)); [apply u256_add; [exact Q|apply u256_lit; lia]|].
  rewrite <- Eq; split; [apply Z.div_pos; lia|apply Z.div_lt; lia].
Qed.

Lemma GetBlockProof_value_witness :
  u32 0x1e0ffff0 /\ exists r, GetBlockProof 0x1e0ffff0 = Some r /\ u256 r 0x100010.
Proof.
  assert (H : u32 0x1e0ffff0) by (unfold u32; lia); split; [exact H|].
  destruct (GetBlockProof_value _ H) as (r & E & R); exists r; split; [exact E|exact R].
Defined.

(** The trust of a proof-of-stake block is 0 whatever its target, since
    the [2^256] it divides is computed as [uint256(1) << 256]; only
    proof-of-work blocks have a positive trust. *)
Theorem GetBlockTrust_stake b :
  fields_ok b ->
  exists r, GetBlockTrust b = Some r /\
    (IsProofOfStake b = true -> u256 r 0) /\
    (IsProofOfStake b = false -> 0 < block_target b ->
       u256 r (Z.max (((2 ^ 256 - 1) / 2 ^ 20) / (block_target b + 1)) 1)).
Proof.
  intros Hb; pose proof (u256_block_target b Hb) as T; unfold GetBlockTrust; set (v := block_target b) in *.
  pose proof (u256_range _ _ T) as Hv; assert (H0 : u256 (uint256 0) 0) by (apply u256_lit; lia).
  assert (H1 : u256 (uint256 1) 1) by (apply u256_lit; lia).
  rewrite (u256_le _ _ _ _ T H0); destruct (Z.leb_spec v 0) as [E|E].
  { exists (uint256 0); split; [reflexivity|split; [intros _; exact H0|lia]]. }
  assert (V1 : (v + 1) mod 2 ^ 256 = v + 1).
  { apply Z.mod_small; destruct (Z.eq_dec v (2 ^ 256 - 1)) as [E1|]; [|lia].
    exfalso; exact (compact_value_small _ (proj1 Hb) E1). }
  assert (T1 : u256 (op_add (target_of (nBits b)) (uint256 1)) (v + 1)) by (rewrite <- V1; apply u256_add; assumption).
  destruct (IsProofOfStake b).
  - destruct (u256_div_pos (op_shl (uint256 1) 256) _ ((1 * 2 ^ 256) mod 2 ^ 256) (v + 1)
      (u256_shl _ _ 256 H1 ltac:(lia)) T1 ltac:(lia)) as (q & -> & Q); exists q; split; [reflexivity|split; [|discriminate]].
    intros _; exact Q.
  - destruct (u256_div_pos _ _ _ _ (u256_limit 20 ltac:(lia)) T1 ltac:(lia)) as (q & E2 & Q); unfold limit_shr in E2.
    rewrite E2, (u256_gt _ _ _ _ Q H1); eexists; split; [reflexivity|split; [discriminate|]]; intros _ _.
    destruct (Z.ltb_spec 1 (((2 ^ 256 - 1) / 2 ^ 20) / (v + 1))); [rewrite Z.max_l by lia; exact Q|rewrite Z.max_r by lia; exact H1].
Qed.

Lemma GetBlockTrust_stake_witness :
  exists b, IsProofOfStake b = true /\ nBits b = 0x1b00ffff /\ exists r, GetBlockTrust b = Some r /\ u256 r 0.
Proof.
  pose (b := mkIndex [] None None 0 0 0x1b00ffff BLOCK_PROOF_OF_STAKE 0 []); exists b.
  split; [reflexivity|split; [reflexivity|]].
  destruct (GetBlockTrust_stake b) as (r & E & H & _); [split; vm_compute; intuition congruence|].
  exists r; split; [exact E|apply H; reflexivity].
Defined.

End Pow.
