(* ===== verification/Kernel.v ===== *)
(** Proof-of-stake kernels: [src/src/kernel.cpp].

    [mapBlockIndex] is the index of [Chain], searched by block hash; a hash
    stream [CDataStream] is the list of bytes it holds.  A function that
    returns [error(...)] returns [None].  The clock [GetAdjustedTime()] and
    the address of the string literal that [ComputeNextStakeModifier] casts to
    a number are arguments. *)
From S2P Require Import Prelude SphTypes BaseUint Uint256 Params Chain Hex Sha256.
From Stdlib Require Import Permutation Sorted.

Module Kernel.
Import BaseUint Uint256 Params Chain.

(** [mapBlockIndex.find(hash)] *)
Fixpoint find_from (i : nat) (m : index) (h : base_uint) : option nat :=
  match m with
  | [] => None
  | b :: m => if op_eq (GetBlockHash b) h then Some i else find_from (S i) m h
  end.

Definition find_block (m : index) (h : base_uint) : option nat := find_from 0 m h.

(** [Hash(ss.begin(), ss.end())] as a [uint256]. *)
Definition hash_stream (ss : list Z) : base_uint := Hex.of_bytes WIDTH (Sha256.Hash ss).

(** ** Stake modifiers *)

Definition MODIFIER_INTERVAL : Z := 60.
Definition MODIFIER_INTERVAL_RATIO : Z := 3.

(** [getIntervalVersion]: the test interval is the same. *)
Definition getIntervalVersion : Z := MODIFIER_INTERVAL.

(** The loop of [GetLastStakeModifier]. *)
Fixpoint last_modifier_loop (fuel : nat) (m : index) (p : nat) : option CBlockIndex :=
  match deref m p with
  | None => None
  | Some b =>
      match pprev b with
      | Some q =>
          if GeneratedStakeModifier b then Some b
          else match fuel with O => None | S fuel => last_modifier_loop fuel m q end
      | None => Some b
      end
  end.

(** The modifier and its time. *)
Definition GetLastStakeModifier (m : index) (pindex : option nat) : option (Z * Z) :=
  match pindex with
  | None => None
  | Some p =>
      match deref m p with
      | None => None
      | Some b =>
          match last_modifier_loop (Z.to_nat (nHeight b)) m p with
          | Some b => if GeneratedStakeModifier b then Some (nStakeModifier b, GetBlockTime b) else None
          | None => None
          end
      end
  end.

Definition GetStakeModifierSelectionIntervalSection (nSection : Z) : Z :=
  T32 (getIntervalVersion * 63) / T32 (63 + (63 - nSection) * (MODIFIER_INTERVAL_RATIO - 1)).

Definition GetStakeModifierSelectionInterval : Z :=
  fold_left (fun acc n => acc + GetStakeModifierSelectionIntervalSection (Z.of_nat n)) (seq 0 64) 0.

Section WithParams.
Context {P : CChainParams}.

Definition GetWeight (nIntervalBeginning nIntervalEnd : Z) : Z :=
  nIntervalEnd - nIntervalBeginning - StakeMinAge.

(** The hash candidates compete with. *)
Definition selection_hash (fModifierV2 : bool) (nStakeModifierPrev : Z) (b : CBlockIndex) : base_uint :=
  let hashProof := if fModifierV2 then GetBlockHash b else if IsProofOfStake b then uint256 0 else GetBlockHash b in
  let hashSelection := hash_stream (Hex.bytes hashProof ++ sph_enc64le nStakeModifierPrev) in
  if IsProofOfStake b then op_shr hashSelection 32 else hashSelection.

Definition is_selected (selected : list base_uint) (h : base_uint) : bool := existsb (fun x => op_eq x h) selected.

(** The loop of [SelectBlockFromCandidates]; [best] is [hashBest] and
    [*pindexSelected] once [fSelected] is set. *)
Fixpoint select_loop (m : index) (selected : list base_uint) (stop prev : Z) (fFirstRun fModifierV2 : bool)
  (best : option (base_uint * nat)) (items : list (Z * base_uint)) : option (option (base_uint * nat)) :=
  match items with
  | [] => Some best
  | item :: items =>
      match find_block m (snd item) with
      | None => None
      | Some p =>
          match deref m p with
          | None => None
          | Some b =>
              if match best with Some _ => stop <? GetBlockTime b | None => false end then Some best
              else
                let fModifierV2 := if fFirstRun then ModifierUpgradeBlock <=? nHeight b else fModifierV2 in
                if is_selected selected (GetBlockHash b)
                then select_loop m selected stop prev false fModifierV2 best items
                else
                  let hashSelection := selection_hash fModifierV2 prev b in
                  let best :=
                    match best with
                    | Some (hashBest, _) => if op_lt hashSelection hashBest then Some (hashSelection, p) else best
                    | None => Some (hashSelection, p)
                    end in
                  select_loop m selected stop prev false fModifierV2 best items
          end
      end
  end.

(** The selected block; [None] is [false]. *)
Definition SelectBlockFromCandidates (m : index) (vSortedByTimestamp : list (Z * base_uint))
  (mapSelectedBlocks : list base_uint) (nSelectionIntervalStop nStakeModifierPrev : Z) : option nat :=
  match select_loop m mapSelectedBlocks nSelectionIntervalStop nStakeModifierPrev true false None vSortedByTimestamp with
  | Some (Some (_, p)) => Some p
  | _ => None
  end.

(** The candidates, newest first: ancestors not older than the interval. *)
Fixpoint candidates (fuel : nat) (m : index) (start : Z) (pindex : option nat) : list (Z * base_uint) :=
  match fuel, pindex with
  | S fuel, Some p =>
      match deref m p with
      | Some b =>
          if start <=? GetBlockTime b
          then (GetBlockTime b, GetBlockHash b) :: candidates fuel m start (pprev b)
          else []
      | None => []
      end
  | _, _ => []
  end.

(** [operator<=] of [pair<int64_t, uint256>], and [std::sort] by it. *)
Definition pair_le (x y : Z * base_uint) : bool :=
  (fst x <? fst y) || ((fst x =? fst y) && negb (op_lt (snd y) (snd x))).

Fixpoint insert_pair (x : Z * base_uint) (l : list (Z * base_uint)) : list (Z * base_uint) :=
  match l with
  | [] => [x]
  | y :: l => if pair_le x y then x :: y :: l else y :: insert_pair x l
  end.

Definition sort_pairs (l : list (Z * base_uint)) : list (Z * base_uint) := fold_right insert_pair [] l.

(** The rounds of the selection. *)
Fixpoint modifier_rounds (n : nat) (nRound : Z) (m : index) (sorted : list (Z * base_uint)) (selected : list base_uint)
  (stop prev nStakeModifierNew : Z) : option Z :=
  match n with
  | O => Some nStakeModifierNew
  | S n =>
      let stop := stop + GetStakeModifierSelectionIntervalSection nRound in
      match SelectBlockFromCandidates m sorted selected stop prev with
      | None => None
      | Some p =>
          match deref m p with
          | None => None
          | Some b =>
              modifier_rounds n (nRound + 1) m sorted (GetBlockHash b :: selected) stop prev
                (nStakeModifierNew .| T64 (GetStakeEntropyBit b << nRound))
          end
      end
  end.

(** [nStakeModifier] and [fGeneratedStakeModifier]. *)
Definition ComputeNextStakeModifier (literal_address : Z) (m : index) (pindexPrev : option nat) : option (Z * bool) :=
  match pindexPrev with
  | None => Some (0, true)
  | Some p =>
      match deref m p with
      | None => None
      | Some b =>
          if nHeight b =? 0 then Some (T64 literal_address, true)
          else
            match GetLastStakeModifier m (Some p) with
            | None => None
            | Some (nStakeModifier, nModifierTime) =>
                if GetBlockTime b / getIntervalVersion <=? nModifierTime / getIntervalVersion
                then Some (nStakeModifier, false)
                else
                  let start := GetBlockTime b / getIntervalVersion * getIntervalVersion - GetStakeModifierSelectionInterval in
                  let sorted := sort_pairs (rev (candidates (S (Z.to_nat (nHeight b))) m start (Some p))) in
                  match modifier_rounds (Nat.min 64 (length sorted)) 0 m sorted [] start nStakeModifier 0 with
                  | Some modifier => Some (modifier, true)
                  | None => None
                  end
            end
      end
  end.

(** ** The legacy kernel *)

(** The loop of [GetKernelStakeModifier]: the block reached, and the height
    and time of the last generated modifier. *)
Fixpoint kernel_modifier_loop (fuel : nat) (m : index) (v : CChain) (until : Z) (pindex : nat) (pindexNext : option nat)
  (height time : Z) : nat * Z * Z :=
  match fuel with
  | O => (pindex, height, time)
  | S fuel =>
      if time <? until then
        match pindexNext with
        | None => (pindex, height, time)
        | Some q =>
            match deref m q with
            | None => (pindex, height, time)
            | Some c =>
                let next := entry v (nHeight c + 1) in
                if GeneratedStakeModifier c
                then kernel_modifier_loop fuel m v until q next (nHeight c) (GetBlockTime c)
                else kernel_modifier_loop fuel m v until q next height time
            end
        end
      else (pindex, height, time)
  end.

Definition GetKernelStakeModifier (m : index) (v : CChain) (hashBlockFrom : base_uint) : option (Z * Z * Z) :=
  match find_block m hashBlockFrom with
  | None => None
  | Some p =>
      match deref m p with
      | None => None
      | Some b =>
          let until := GetBlockTime b + GetStakeModifierSelectionInterval in
          let '(q, height, time) :=
            kernel_modifier_loop (length v) m v until p (entry v (nHeight b + 1)) (nHeight b) (GetBlockTime b) in
          match deref m q with
          | Some c => Some (nStakeModifier c, height, time)
          | None => None
          end
      end
  end.

(** [COutPoint] *)
Record COutPoint := mkOutPoint { hash : base_uint; n : Z }.

Definition stakeHash (nTimeTx : Z) (ss : list Z) (prevoutIndex : Z) (prevoutHash : base_uint) (nTimeBlockFrom : Z)
  : base_uint :=
  hash_stream (ss ++ sph_enc32le nTimeBlockFrom ++ sph_enc32le prevoutIndex ++ Hex.bytes prevoutHash ++ sph_enc32le nTimeTx).

Definition STAKE_WEIGHT_CAP : Z := 50000 * COIN.
Definition MASTERNODE_COLLATERAL : Z := 3000 * COIN.

(** [None] would be a division by zero. *)
Definition stakeTargetHit (hashProofOfStake : base_uint) (nValueIn : Z) (bnTargetPerCoinDay : base_uint) (nHeight : Z)
  : option bool :=
  let nEffectiveValue :=
    if (StakePointerForkHeight <=? nHeight) && (STAKE_WEIGHT_CAP <? nValueIn) then STAKE_WEIGHT_CAP else nValueIn in
  match op_div (uint256 (T64 nEffectiveValue)) (uint256 100) with
  | None => None
  | Some bnCoinDayWeight => Some (op_lt hashProofOfStake (op_mul bnCoinDayWeight bnTargetPerCoinDay))
  end.

(** The search of [CheckStakeKernelHashImpl] from iteration [i]: the time and
    the hash found.  The chain does not grow meanwhile ([cs_main] is held). *)
Fixpoint search_loop (k : nat) (i : Z) (hit : Z -> base_uint -> bool) (hash_at : Z -> base_uint) (nTimeTx nHashDrift : Z)
  : option (Z * base_uint) :=
  match k with
  | O => None
  | S k =>
      let nTryTime := T32 (nTimeTx + nHashDrift - i) in
      let h := hash_at nTryTime in
      if hit nTryTime h then Some (nTryTime, h) else search_loop k (i + 1) hit hash_at nTimeTx nHashDrift
  end.

(** The result: [nTimeTx] and [hashProofOfStake] on success. *)
Definition CheckStakeKernelHashImpl (m : index) (v : CChain) (nBits : Z) (hashBlockFrom : base_uint)
  (nTimeBlockFrom nValueIn : Z) (prevout : COutPoint) (nTimeTx nHashDrift : Z) (fCheck : bool) (nHeight : Z)
  : option (Z * base_uint) :=
  if nTimeTx <? nTimeBlockFrom then None
  else if nTimeTx <? T32 (nTimeBlockFrom + StakeMinAge) then None
  else
    let bnTargetPerCoinDay := target_of nBits in
    match GetKernelStakeModifier m v hashBlockFrom with
    | None => None
    | Some (nStakeModifier, _, _) =>
        let ss := sph_enc64le nStakeModifier in
        let hash_at t := stakeHash t ss (n prevout) (hash prevout) nTimeBlockFrom in
        let hit (t : Z) h :=
          match stakeTargetHit h nValueIn bnTargetPerCoinDay nHeight with Some r => r | None => false end in
        if fCheck
        then if hit nTimeTx (hash_at nTimeTx) then Some (nTimeTx, hash_at nTimeTx) else None
        else search_loop (Z.to_nat nHashDrift) 0 hit hash_at nTimeTx nHashDrift
    end.

(** ** The StakePointer kernel *)

(** The stream hashed: outpoint, modifier, time of the staked block (64 bits)
    and of the new block (32 bits). *)
Definition pointer_stream (outpoint : COutPoint) (stakeModifier : base_uint) (nTimeFrom nTimeStake : Z) : list Z :=
  Hex.bytes (hash outpoint) ++ sph_enc32le (n outpoint) ++ Hex.bytes stakeModifier ++
  sph_enc64le nTimeFrom ++ sph_enc32le nTimeStake.

Definition CheckStakePointerKernelHash (GetAdjustedTime : Z) (m : index) (nBits : Z) (outpoint : COutPoint)
  (pindexFrom pindexPrev : nat) (nTimeStake : Z) : option bool :=
  match deref m pindexPrev, deref m pindexFrom with
  | Some prev, Some from =>
      let nModifierHeight := nHeight prev - KernelModifierOffset in
      if nModifierHeight <? 0 then Some false
      else
        match GetAncestor m pindexPrev nModifierHeight with
        | None => Some false
        | Some q =>
            match deref m q with
            | None => None
            | Some pindexModifier =>
                let stakeModifier := GetBlockHash pindexModifier in
                let nMTP := GetMedianTimePast m pindexPrev in
                if nTimeStake <=? nMTP then Some false
                else if GetAdjustedTime + 60 <? nTimeStake then Some false
                else
                  let hashProofOfStake := hash_stream (pointer_stream outpoint stakeModifier (GetBlockTime from) nTimeStake) in
                  let bnTarget := target_of nBits in
                  match op_div hashProofOfStake (uint256 (MASTERNODE_COLLATERAL / 100)) with
                  | None => None
                  | Some q => Some (negb (op_ge q bnTarget))
                  end
            end
        end
  | _, _ => None
  end.

Definition CheckCoinStakeTimestamp (nTimeBlock nTimeTx : Z) : bool := nTimeBlock =? nTimeTx.

Definition mapStakeModifierCheckpoints (nHeight : Z) : option Z := if nHeight =? 0 then Some 0xfd11f4e7 else None.

Definition CheckStakeModifierCheckpoints (nHeight nStakeModifierChecksum : Z) : bool :=
  match mapStakeModifierCheckpoints nHeight with
  | Some c => nStakeModifierChecksum =? c
  | None => true
  end.

End WithParams.
(** ** Hashes are 256-bit numbers *)

Lemma of_bytes_limbs w : forall b, Forall u8 b -> length b = (4 * w)%nat -> limbs (Hex.of_bytes w b).
Proof.
  unfold Hex.of_bytes, words32le; intros b Hb Hl; apply Forall_map, Forall_forall; intros k Hk; apply in_seq in Hk.
  assert (E : sph_dec32le (skipn (4 * k) b) = sph_dec32le (firstn 4 (skipn (4 * k) b))).
  { exact (dec32le_firstn_skipn (skipn (4 * k) b) 4 0 ltac:(lia)). }
  rewrite E; apply dec32le_u32.
  - apply Forall_split, Forall_split, Hb.
  - rewrite length_firstn, length_skipn; lia.
Qed.

Lemma Hash_bytes ss : Forall u8 (Sha256.Hash ss) /\ length (Sha256.Hash ss) = 32%nat.
Proof.
  unfold Sha256.Hash, Sha256.CHash256_Finalize; generalize (Sha256.Write (Sha256.Reset (Sha256.Write Sha256.CSHA256_init ss))
    (Sha256.Finalize (Sha256.Write Sha256.CSHA256_init ss))) as c; intros c; unfold Sha256.Finalize.
  cbn [seq flat_map]; unfold Sha256.WriteBE32; split; [|reflexivity].
  repeat (constructor; [apply T8_u8|]); constructor.
Qed.

#[local] Opaque Sha256.Hash.

Lemma u256_hash ss : u256 (hash_stream ss) (val (hash_stream ss)).
Proof.
  destruct (Hash_bytes ss) as [H1 H2]; apply u256_val; [apply of_bytes_limbs; assumption|].
  unfold hash_stream, Hex.of_bytes, words32le; rewrite length_map, length_seq; reflexivity.
Qed.

(** ** The target test of the legacy kernel *)

Definition effective_value {P : CChainParams} (nValueIn height : Z) : Z :=
  if StakePointerForkHeight <=? height then Z.min nValueIn STAKE_WEIGHT_CAP else nValueIn.

Lemma stakeTargetHit_spec {P : CChainParams} h x value target t height :
  u256 h x -> u256 target t -> 0 <= value < 2 ^ 63 ->
  stakeTargetHit h value target height = Some (x <? (effective_value value height / 100 * t) mod 2 ^ 256).
Proof.
  intros Hh Ht Hv; unfold stakeTargetHit, effective_value.
  set (e := if StakePointerForkHeight <=? height then Z.min value STAKE_WEIGHT_CAP else value).
  assert (E : (if (StakePointerForkHeight <=? height) && (STAKE_WEIGHT_CAP <? value) then STAKE_WEIGHT_CAP else value) = e
    /\ u64 e).
  { unfold e, u64, STAKE_WEIGHT_CAP, COIN; destruct (StakePointerForkHeight <=? height),
      (Z.ltb_spec (50000 * 100000000) value); cbn [andb]; lia. }
  destruct E as [-> He]; rewrite T64_id by exact He.
  destruct (u256_div_pos (uint256 e) (uint256 100) e 100) as (w & -> & W); [apply u256_uint256, He|apply u256_uint256; unfold u64; lia|lia|].
  rewrite (u256_lt _ _ _ _ Hh (u256_mul _ _ _ _ W Ht)); reflexivity.
Qed.

(** A stake of 67.1 coins at target 2^230, which is below the proof-of-stake
    limit: the product wraps to 0 and no hash passes. *)
Example stakeTargetHit_wraps {P : CChainParams} h x :
  u256 h x -> 2 ^ 230 <= pos_limit /\
  stakeTargetHit h (100 * 2 ^ 26) (op_shl (uint256 1) 230) 0 = Some false.
Proof.
  intros Hh; split; [vm_compute; congruence|].
  assert (T : u256 (op_shl (uint256 1) 230) (2 ^ 230)).
  { replace (2 ^ 230) with ((1 * 2 ^ 230) mod 2 ^ 256) by reflexivity; apply u256_shl; [apply u256_uint256; unfold u64|]; lia. }
  rewrite (stakeTargetHit_spec h x _ _ _ _ Hh T) by lia; f_equal; apply Z.ltb_ge.
  assert (E : effective_value (100 * 2 ^ 26) 0 = 100 * 2 ^ 26).
  { unfold effective_value; destruct (_ <=? 0); reflexivity. }
  rewrite E; change (100 * 2 ^ 26 / 100 * 2 ^ 230) with (1 * 2 ^ 256); rewrite Z.mod_mul by lia.
  apply (u256_range _ _ Hh).
Qed.

(** ** The search for a kernel *)

Lemma search_loop_spec k hit hash_at t drift : forall i,
  match search_loop k i hit hash_at t drift with
  | Some (t', h) => exists j, i <= j < i + Z.of_nat k /\ t' = T32 (t + drift - j) /\ h = hash_at t' /\ hit t' h = true /\
      (forall j', i <= j' < j -> let u := T32 (t + drift - j') in hit u (hash_at u) = false)
  | None => forall j, i <= j < i + Z.of_nat k -> let u := T32 (t + drift - j) in hit u (hash_at u) = false
  end.
Proof.
  induction k as [|k IH]; intros i; cbn [search_loop]; [intros; lia|].
  destruct (hit _ _) eqn:E.
  - exists i; repeat split; try lia; exact E.
  - specialize (IH (i + 1)); destruct (search_loop k (i + 1) hit hash_at t drift) as [[t' h]|].
    + destruct IH as (j & Hj & H1 & H2 & H3 & H4); exists j; repeat split; try assumption; try lia.
      intros j' Hj'; destruct (Z.eq_dec j' i) as [->|]; [exact E|apply H4; lia].
    + intros j Hj; destruct (Z.eq_dec j i) as [->|]; [exact E|apply IH; lia].
Qed.

(** ** The selection of blocks *)

(** [mapBlockIndex] maps the hash of each block to it. *)
Definition unique (m : index) : Prop := forall p b, deref m p = Some b -> find_block m (GetBlockHash b) = Some p.

Definition item_of (b : CBlockIndex) : Z * base_uint := (GetBlockTime b, GetBlockHash b).

Definition in_index (m : index) (it : Z * base_uint) : Prop := exists p b, deref m p = Some b /\ it = item_of b.

Definition by_time (x y : Z * base_uint) : Prop := fst x <= fst y.

Lemma is_selected_spec s h : is_selected s h = true <-> In h s.
Proof.
  unfold is_selected; rewrite existsb_exists; split.
  - intros (x & Hx & E); apply op_eq_spec in E; subst x; exact Hx.
  - intros Hx; exists h; split; [exact Hx|apply op_eq_spec; reflexivity].
Qed.

Lemma u256_selection {P : CChainParams} v2 prev b : exists v, u256 (selection_hash v2 prev b) v.
Proof.
  unfold selection_hash; destruct (IsProofOfStake b); eexists; [apply u256_shr; [apply u256_hash|lia]|apply u256_hash].
Qed.

Section Selection.
Context {P : CChainParams} (m : index) (Hu : unique m) (prev : Z).

(** [b] wins: it is an unselected candidate, and no unselected candidate up to
    the end of the interval has a smaller selection hash. *)
Definition winner (v2 : bool) (items : list (Z * base_uint)) (selected : list base_uint) (stop : Z) (b : CBlockIndex) : Prop :=
  In (item_of b) items /\ ~ In (GetBlockHash b) selected /\
  forall p c, deref m p = Some c -> In (item_of c) items -> ~ In (GetBlockHash c) selected -> GetBlockTime c <= stop ->
    val (selection_hash v2 prev b) <= val (selection_hash v2 prev c).

(** The best of two blocks. *)
Definition is_best (h : base_uint) (p : nat) (v2 : bool) : Prop :=
  exists b, deref m p = Some b /\ h = selection_hash v2 prev b.

Definition better (best : option (base_uint * nat)) (hs : base_uint) (p : nat) : option (base_uint * nat) :=
  match best with
  | Some (hashBest, _) => if op_lt hs hashBest then Some (hs, p) else best
  | None => Some (hs, p)
  end.

Lemma better_spec v2 best p b :
  deref m p = Some b -> (forall h q, best = Some (h, q) -> is_best h q v2) ->
  exists h q, better best (selection_hash v2 prev b) p = Some (h, q) /\ is_best h q v2 /\
    val h <= val (selection_hash v2 prev b) /\ (forall h' q', best = Some (h', q') -> val h <= val h') /\
    (best = Some (h, q) \/ (h, q) = (selection_hash v2 prev b, p)).
Proof.
  intros Dp Hb; destruct (u256_selection v2 prev b) as [vb Vb]; unfold better.
  assert (Ib : is_best (selection_hash v2 prev b) p v2) by (exists b; auto).
  destruct best as [[hb pb]|].
  - pose proof (Hb hb pb eq_refl) as Hc; destruct Hc as (c & D & E); destruct (u256_selection v2 prev c) as [vc Vc]; rewrite <- E in Vc.
    rewrite (u256_lt _ _ _ _ Vb Vc); destruct Vb as (_ & _ & Vb), Vc as (_ & _ & Vc).
    destruct (Z.ltb_spec vb vc); do 2 eexists; (split; [reflexivity|]); (split; [auto|]); (split; [lia|]).
    + split; [intros h' q' [= <- <-]; lia|right; reflexivity].
    + split; [intros h' q' [= <- <-]; lia|left; reflexivity].
  - do 2 eexists; split; [reflexivity|split; [exact Ib|split; [lia|split; [discriminate|right; reflexivity]]]].
Qed.

(** The loop with a best block so far: the result is the best of it and the
    winner of the rest. *)
Lemma select_loop_spec v2 selected stop items : forall best,
  Forall (in_index m) items -> StronglySorted by_time items ->
  (forall h p, best = Some (h, p) -> is_best h p v2) ->
  exists r, select_loop m selected stop prev false v2 best items = Some r /\
    match r with
    | None => best = None /\ forall it, In it items -> In (snd it) selected
    | Some (h, p) =>
        exists b, deref m p = Some b /\ h = selection_hash v2 prev b /\
          (best = Some (h, p) \/ (In (item_of b) items /\ ~ In (GetBlockHash b) selected)) /\
          (forall h' p', best = Some (h', p') -> val h <= val h') /\
          (forall q c, deref m q = Some c -> In (item_of c) items -> ~ In (GetBlockHash c) selected ->
             GetBlockTime c <= stop -> val h <= val (selection_hash v2 prev c))
    end.
Proof.
  induction items as [|it items IH]; intros best Hi Hs Hb; cbn [select_loop].
  - exists best; split; [reflexivity|]; destruct best as [[h p]|]; [|split; [reflexivity|contradiction]].
    destruct (Hb h p eq_refl) as (b & D & E); exists b; repeat split; auto; [|contradiction].
    intros h' p' [= <- <-]; lia.
  - inversion_clear Hi as [|? ? (p & b & Dp & Eit) Hi']; inversion_clear Hs as [|? ? Hs' Hall]; subst it; cbn [snd item_of].
    rewrite (Hu p b Dp), Dp.
    assert (Uniq : forall q c, deref m q = Some c -> item_of c = item_of b -> c = b).
    { intros q c Dq E; assert (Eh : GetBlockHash c = GetBlockHash b) by (injection E; auto).
      pose proof (Hu q c Dq) as Q; rewrite Eh, (Hu p b Dp) in Q; congruence. }
    destruct (match best with Some _ => stop <? GetBlockTime b | None => false end) eqn:Ebr.
    { exists best; split; [reflexivity|]; destruct best as [[h p0]|]; [|discriminate].
      apply Z.ltb_lt in Ebr; destruct (Hb h p0 eq_refl) as (c & D & E); exists c; repeat split; auto.
      - intros h' p' [= <- <-]; lia.
      - intros q c' Dq Hin _ Ht; exfalso; destruct Hin as [Hin|Hin].
        + rewrite (Uniq q c' Dq (eq_sym Hin)) in Ht; lia.
        + apply (proj1 (Forall_forall _ _) Hall) in Hin; unfold by_time, item_of in Hin; cbn [fst] in Hin; lia. }
    cbn iota; destruct (is_selected selected (GetBlockHash b)) eqn:Esel.
    + apply is_selected_spec in Esel; destruct (IH best Hi' Hs' Hb) as (r & Er & Hr); exists r; split; [exact Er|].
      destruct r as [[h q]|].
      * destruct Hr as (c & D & E & H1 & H2 & H3); exists c; repeat split; auto.
        -- destruct H1 as [H1|[H1 H1']]; [left; exact H1|right; split; [right; exact H1|exact H1']].
        -- intros q' c' Dq Hin Hn Ht; destruct Hin as [Hin|Hin]; [|apply (H3 q' c' Dq Hin Hn Ht)].
           exfalso; apply Hn; rewrite (Uniq q' c' Dq (eq_sym Hin)); exact Esel.
      * destruct Hr as [-> Hr]; split; [reflexivity|]; intros it' [<-|Hin]; [exact Esel|apply Hr, Hin].
    + assert (Nsel : ~ In (GetBlockHash b) selected) by (rewrite <- is_selected_spec, Esel; discriminate).
      destruct (better_spec v2 best p b Dp Hb) as (hb & pb & B2 & B1 & B3 & B4 & B5).
      fold (better best (selection_hash v2 prev b) p); set (best' := better best (selection_hash v2 prev b) p) in *.
      assert (Hb' : forall h q, best' = Some (h, q) -> is_best h q v2) by (intros h q Ebest; rewrite B2 in Ebest; injection Ebest as <- <-; exact B1).
      destruct (IH best' Hi' Hs' Hb') as (r & Er & Hr); exists r; split; [exact Er|].
      destruct r as [[h q]|]; [|destruct Hr as [Hr _]; rewrite Hr in B2; discriminate].
      destruct Hr as (c & D & E & H1 & H2 & H3); specialize (H2 hb pb B2); exists c; repeat split; auto.
      * destruct H1 as [H1|[H1 H1']]; [|right; split; [right; exact H1|exact H1']].
        rewrite B2 in H1; injection H1 as -> ->; destruct B5 as [B5|B5]; [left; exact B5|].
        injection B5 as -> ->; right; assert (c = b) as -> by congruence; split; [left; reflexivity|exact Nsel].
      * intros h' p' Hbest; specialize (B4 h' p' Hbest); lia.
      * intros q' c' Dq Hin Hn Ht; destruct Hin as [Hin|Hin]; [|apply (H3 q' c' Dq Hin Hn Ht)].
        rewrite (Uniq q' c' Dq (eq_sym Hin)); lia.
Qed.

(** The flag of the first candidate decides how hashes are made. *)
Definition modifier_v2 (items : list (Z * base_uint)) : bool :=
  match items with
  | it :: _ =>
      match find_block m (snd it) with
      | Some p => match deref m p with Some b => ModifierUpgradeBlock <=? nHeight b | None => false end
      | None => false
      end
  | [] => false
  end.

Lemma select_first selected stop items :
  select_loop m selected stop prev true false None items
  = select_loop m selected stop prev false (modifier_v2 items) None items.
Proof.
  destruct items as [|it items]; [reflexivity|]; cbn [select_loop modifier_v2].
  destruct (find_block m (snd it)) as [p|]; [|reflexivity]; destruct (deref m p); reflexivity.
Qed.

Lemma SelectBlock_spec items selected stop :
  Forall (in_index m) items -> StronglySorted by_time items -> ~ (forall it, In it items -> In (snd it) selected) ->
  exists p b, SelectBlockFromCandidates m items selected stop prev = Some p /\ deref m p = Some b /\
    winner (modifier_v2 items) items selected stop b.
Proof.
  intros Hi Hs Hn; unfold SelectBlockFromCandidates; rewrite select_first.
  destruct (select_loop_spec (modifier_v2 items) selected stop items None Hi Hs ltac:(discriminate)) as (r & -> & Hr).
  destruct r as [[h p]|]; [|exfalso; apply Hn, Hr].
  destruct Hr as (b & D & E & [H1|[H1 H1']] & _ & H3); [discriminate|].
  exists p, b; split; [reflexivity|split; [exact D|]]; split; [exact H1|split; [exact H1'|]]; rewrite <- E; exact H3.
Qed.

(** The blocks the rounds select, in order, from round [r]. *)
Fixpoint selection (items : list (Z * base_uint)) (r stop : Z) (selected : list base_uint) (bs : list CBlockIndex) : Prop :=
  match bs with
  | [] => True
  | b :: bs =>
      let stop := stop + GetStakeModifierSelectionIntervalSection r in
      (exists p, deref m p = Some b) /\ winner (modifier_v2 items) items selected stop b /\
      selection items (r + 1) stop (GetBlockHash b :: selected) bs
  end.

(** Bit [r + k] of a modifier is the entropy bit of the [k]-th block. *)
Fixpoint entropy_bits (r : Z) (bs : list CBlockIndex) : Z :=
  match bs with
  | [] => 0
  | b :: bs => GetStakeEntropyBit b * 2 ^ r + entropy_bits (r + 1) bs
  end.

Lemma entropy_bit b : 0 <= GetStakeEntropyBit b < 2.
Proof.
  unfold GetStakeEntropyBit; change 1 with (Z.ones 1); rewrite Z.land_ones by lia; apply Z.mod_pos_bound; lia.
Qed.

Lemma entropy_bits_range bs : forall r, 0 <= r -> 0 <= entropy_bits r bs <= 2 ^ (r + Z.of_nat (length bs)) - 2 ^ r.
Proof.
  induction bs as [|b bs IH]; intros r Hr; cbn [entropy_bits length]; [rewrite Z.add_0_r; lia|].
  specialize (IH (r + 1) ltac:(lia)); pose proof (entropy_bit b).
  replace (r + 1 + Z.of_nat (length bs)) with (r + Z.of_nat (S (length bs))) in IH by lia.
  rewrite (Z.pow_add_r 2 r 1) in IH by lia; assert (0 < 2 ^ r) by (apply Z.pow_pos_nonneg; lia); nia.
Qed.

Lemma modifier_rounds_spec items : Forall (in_index m) items -> StronglySorted by_time items -> NoDup (map snd items) ->
  forall k r stop selected acc,
  NoDup selected -> (length selected + k <= length items)%nat -> 0 <= r -> r + Z.of_nat k <= 64 -> 0 <= acc < 2 ^ r ->
  exists bs, modifier_rounds k r m items selected stop prev acc = Some (acc + entropy_bits r bs) /\
    length bs = k /\ selection items r stop selected bs /\ NoDup (map GetBlockHash bs) /\
    (forall h, In h (map GetBlockHash bs) -> ~ In h selected).
Proof.
  intros Hi Hs Hnd; induction k as [|k IH]; intros r stop selected acc Hsel Hl Hr Hk Hacc; cbn [modifier_rounds].
  - exists []; cbn; rewrite Z.add_0_r; repeat split; [constructor|contradiction].
  - destruct (SelectBlock_spec items selected (stop + GetStakeModifierSelectionIntervalSection r) Hi Hs) as (p & b & -> & D & W).
    { intros All; assert (L : (length (map snd items) <= length selected)%nat).
      { apply NoDup_incl_length; [exact Hnd|]; intros h Hh; apply in_map_iff in Hh; destruct Hh as (it & <- & Hit); apply All, Hit. }
      rewrite length_map in L; lia. }
    rewrite D; pose proof (entropy_bit b) as Eb; assert (0 < 2 ^ r) by (apply Z.pow_pos_nonneg; lia).
    assert (Hp : 2 ^ (r + 1) = 2 ^ r * 2) by (rewrite Z.pow_add_r by lia; reflexivity).
    assert (Hb : 2 ^ (r + 1) <= 2 ^ 64) by (apply Z.pow_le_mono_r; lia).
    assert (Ebit : acc .| T64 (GetStakeEntropyBit b << r) = acc + GetStakeEntropyBit b * 2 ^ r).
    { rewrite T64_id by (rewrite Z.shiftl_mul_pow2 by lia; unfold u64; nia); apply lor_shl_add; lia. }
    rewrite Ebit; pose proof W as (_ & Nb & _).
    destruct (IH (r + 1) (stop + GetStakeModifierSelectionIntervalSection r) (GetBlockHash b :: selected)
      (acc + GetStakeEntropyBit b * 2 ^ r)) as (bs & -> & L & S & N & Dj); try (cbn [length]; lia); [constructor; assumption|nia|].
    exists (b :: bs); cbn [entropy_bits length map selection].
    split; [f_equal; lia|split; [lia|split; [split; [exists p; exact D|split; assumption]|split]]].
    + constructor; [|exact N]; intros Hin; apply (Dj _ Hin); left; reflexivity.
    + intros h [<-|Hin]; [exact Nb|]; intros Hs'; apply (Dj h Hin); right; exact Hs'.
Qed.

End Selection.

(** ** The candidates *)

Lemma candidates_heights m start : wf m -> forall fuel o it, In it (candidates fuel m start o) ->
  exists p q c b, o = Some p /\ deref m p = Some b /\ deref m q = Some c /\ it = item_of c /\ nHeight c <= nHeight b.
Proof.
  intros Hw; induction fuel as [|fuel IH]; intros [p|] it Hin; cbn [candidates] in Hin; try contradiction.
  destruct (deref m p) as [b|] eqn:D; [|contradiction]; destruct (start <=? GetBlockTime b); [|contradiction].
  destruct Hin as [<-|Hin]; [exists p, p, b, b; repeat split; auto; lia|].
  destruct (IH _ _ Hin) as (p' & q & c & b' & E & D' & Dq & Ei & Hh); exists p, q, c, b; repeat split; auto.
  destruct (Hw p b D) as [_ H]; rewrite E in H; destruct H as [(x & Dx & Hx) _].
  assert (x = b') as -> by congruence; lia.
Qed.

Lemma candidates_in_index m start : wf m -> forall fuel o, Forall (in_index m) (candidates fuel m start o).
Proof.
  intros Hw fuel o; apply Forall_forall; intros it Hin.
  destruct (candidates_heights m start Hw fuel o it Hin) as (_ & q & c & _ & _ & _ & D & E & _); exists q, c; auto.
Qed.

Lemma candidates_nodup m start : wf m -> unique m -> forall fuel o, NoDup (map snd (candidates fuel m start o)).
Proof.
  intros Hw Hu; induction fuel as [|fuel IH]; intros [p|]; cbn [candidates map]; try constructor.
  destruct (deref m p) as [b|] eqn:D; [|constructor]; destruct (start <=? GetBlockTime b); [|constructor].
  cbn [map snd]; constructor; [|apply IH]; intros Hin; apply in_map_iff in Hin; destruct Hin as (it & E & Hin).
  destruct (candidates_heights m start Hw _ _ _ Hin) as (p' & q & c & b' & Eo & D' & Dq & -> & Hh); cbn [item_of snd] in E.
  pose proof (Hu p b D) as F1; pose proof (Hu q c Dq) as F2; rewrite E, F1 in F2; injection F2 as <-.
  destruct (Hw p b D) as [_ H]; rewrite Eo in H; destruct H as [(x & Dx & Hx) _].
  assert (x = b') as -> by congruence; assert (c = b) as -> by congruence; lia.
Qed.

Lemma insert_pair_perm x l : Permutation (insert_pair x l) (x :: l).
Proof.
  induction l as [|y l IH]; cbn [insert_pair]; [reflexivity|]; destruct (pair_le x y); [reflexivity|].
  rewrite IH; apply perm_swap.
Qed.

Lemma sort_pairs_perm l : Permutation (sort_pairs l) l.
Proof. induction l; [reflexivity|]; cbn [sort_pairs fold_right]; rewrite insert_pair_perm; constructor; assumption. Qed.

Lemma pair_le_time x y : if pair_le x y then by_time x y else by_time y x.
Proof.
  unfold pair_le, by_time; destruct (Z.ltb_spec (fst x) (fst y)), (Z.eqb_spec (fst x) (fst y)), (op_lt (snd y) (snd x));
    cbn; lia.
Qed.

Lemma insert_pair_sorted x l : StronglySorted by_time l -> StronglySorted by_time (insert_pair x l).
Proof.
  induction 1 as [|y l Hl IH Hy]; cbn [insert_pair]; [repeat constructor|].
  pose proof (pair_le_time x y) as E; destruct (pair_le x y); repeat constructor; auto.
  - apply (Forall_impl _ (fun z (Hz : by_time y z) => Z.le_trans (fst x) (fst y) (fst z) E Hz) Hy).
  - apply (Permutation_Forall (Permutation_sym (insert_pair_perm x l))); constructor; assumption.
Qed.

Lemma sort_pairs_sorted l : StronglySorted by_time (sort_pairs l).
Proof. induction l; cbn [sort_pairs fold_right]; [constructor|apply insert_pair_sorted; assumption]. Qed.

(** The sorted candidates of a block. *)
Definition sorted_candidates (m : index) (p : nat) (b : CBlockIndex) : list (Z * base_uint) :=
  sort_pairs (rev (candidates (S (Z.to_nat (nHeight b))) m
    (GetBlockTime b / getIntervalVersion * getIntervalVersion - GetStakeModifierSelectionInterval) (Some p))).

Lemma sorted_candidates_ok m p b : wf m -> unique m ->
  Forall (in_index m) (sorted_candidates m p b) /\ StronglySorted by_time (sorted_candidates m p b) /\
  NoDup (map snd (sorted_candidates m p b)).
Proof.
  intros Hw Hu; unfold sorted_candidates; set (l := candidates _ _ _ _); pose proof (sort_pairs_perm (rev l)) as E.
  split; [|split; [apply sort_pairs_sorted|]].
  - apply (Permutation_Forall (Permutation_sym E)), Forall_rev, candidates_in_index, Hw.
  - apply (Permutation_NoDup (Permutation_map snd (Permutation_sym E))); rewrite map_rev; apply NoDup_rev, candidates_nodup; assumption.
Qed.

(** ** A small index, for the witnesses *)

Definition kernel_line : index :=
  link_all genesis_index
    [(0%nat, mkIndex [2] None None 0 100 0x1b00ffff 4 77 []); (1%nat, mkIndex [3] None None 0 170 0x1b00ffff 0 0 []);
     (2%nat, mkIndex [4] None None 0 250 0x1b00ffff 1 0 [])].

Definition line_to (k : nat) : index :=
  link_all genesis_index
    (map (fun i => (i, mkIndex [Z.of_nat i + 2] None None 0 (60 * Z.of_nat i + 70) 0x1b00ffff 0 0 [])) (seq 0 k)).

Lemma unique_check m :
  forallb (fun p => match deref m p with Some b => eq_ptr (find_block m (GetBlockHash b)) (Some p) | None => true end)
    (seq 0 (length m)) = true -> unique m.
Proof.
  intros H p b D; assert (Hp : In p (seq 0 (length m))).
  { apply in_seq; split; [lia|]; apply nth_error_Some; unfold deref in D; rewrite D; discriminate. }
  apply (proj1 (forallb_forall _ _) H) in Hp; rewrite D in Hp; apply eq_ptr_true, Hp.
Qed.

Lemma kernel_line_wf : wf kernel_line.
Proof. apply link_all_wf, genesis_wf. Qed.

Lemma kernel_line_unique : unique kernel_line.
Proof. apply unique_check; vm_compute; reflexivity. Qed.

(** ** Properties *)

(** The legacy kernel compares the hash with the weight (the value capped
    above the fork height, over 100) times the target, modulo 2^256; from the
    fork on the product does not wrap for targets up to 2^220, and the test is
    [hash < weight * target]. *)
Theorem stakeTargetHit_value {P : CChainParams} h x value target t height :
  u256 h x -> u256 target t -> 0 <= value < 2 ^ 63 ->
  let w := effective_value value height / 100 in
  stakeTargetHit h value target height = Some (x <? (w * t) mod 2 ^ 256) /\
  (StakePointerForkHeight <= height -> t <= 2 ^ 220 -> stakeTargetHit h value target height = Some (x <? w * t)).
Proof.
  intros Hh Ht Hv w; pose proof (stakeTargetHit_spec h x value target t height Hh Ht Hv) as E; fold w in E.
  split; [exact E|]; intros Hf Hs; rewrite E, Z.mod_small; [reflexivity|].
  pose proof (u256_range _ _ Ht); assert (Hw : 0 <= w <= 50000 * 1000000).
  { unfold w, effective_value, STAKE_WEIGHT_CAP, COIN; apply Z.leb_le in Hf; rewrite Hf.
    split; [apply Z.div_pos; lia|]; apply Z.div_le_upper_bound; lia. }
  nia.
Qed.

Lemma stakeTargetHit_value_witness :
  u256 (uint256 7) 7 /\ u256 (uint256 5) 5 /\
  @stakeTargetHit CMainParams (uint256 7) 300 (uint256 5) 2675000 = Some (7 <? 3 * 5).
Proof.
  assert (H : u256 (uint256 7) 7) by (apply u256_uint256; unfold u64; lia).
  assert (H' : u256 (uint256 5) 5) by (apply u256_uint256; unfold u64; lia).
  split; [exact H|split; [exact H'|]].
  apply (proj2 (stakeTargetHit_value (P := CMainParams) (uint256 7) 7 300 (uint256 5) 5 2675000 H H' ltac:(lia)));
    vm_compute; congruence.
Defined.

(** A kernel the search finds is a kernel the check accepts: the time
    returned lies in the drift window after the given time, is the latest that
    hits, and checking at that time succeeds with the same hash; a search that
    fails means no time of the window passes the check. *)
Theorem kernel_search_check {P : CChainParams} m v bits from tfrom value prevout t drift height :
  u32 t -> 0 <= drift -> t + drift < 2 ^ 32 ->
  let check u := CheckStakeKernelHashImpl m v bits from tfrom value prevout u 0 true height in
  match CheckStakeKernelHashImpl m v bits from tfrom value prevout t drift false height with
  | Some (u, h) => t < u <= t + drift /\ check u = Some (u, h) /\ (forall u', u < u' <= t + drift -> check u' = None)
  | None => tfrom <= t -> T32 (tfrom + StakeMinAge) <= t -> forall u, t < u <= t + drift -> check u = None
  end.
Proof.
  intros Ht Hd Hw check; unfold u32 in Ht; unfold check; clear check; unfold CheckStakeKernelHashImpl.
  destruct (Z.ltb_spec t tfrom) as [H1|H1]; [intros; lia|].
  destruct (Z.ltb_spec t (T32 (tfrom + StakeMinAge))) as [H2|H2]; [intros; lia|].
  destruct (GetKernelStakeModifier m v from) as [[[md hh] tt]|]; [|intros; destruct (_ <? _); [reflexivity|destruct (_ <? _); reflexivity]].
  cbv zeta; set (hash_at := fun u => stakeHash u _ _ _ _); set (hit := fun (_ : Z) h => match stakeTargetHit h _ _ _ with Some r => r | None => false end).
  assert (C : forall u, t < u -> (if u <? tfrom then None else if u <? T32 (tfrom + StakeMinAge) then None
      else if hit u (hash_at u) then Some (u, hash_at u) else None) = if hit u (hash_at u) then Some (u, hash_at u) else None).
  { intros u Hu; destruct (Z.ltb_spec u tfrom); [lia|]; destruct (Z.ltb_spec u (T32 (tfrom + StakeMinAge))); [lia|reflexivity]. }
  pose proof (search_loop_spec (Z.to_nat drift) hit hash_at t drift 0) as S; rewrite Z2Nat.id, Z.add_0_l in S by exact Hd.
  destruct (search_loop _ _ _ _ _ _) as [[u h]|].
  - destruct S as (j & Hj & -> & -> & Hh & Hlast); rewrite T32_id in * by (unfold u32; lia).
    split; [lia|split; [rewrite C, Hh by lia; reflexivity|]]; intros u' Hu'; rewrite C by lia.
    specialize (Hlast (t + drift - u') ltac:(lia)); cbv zeta in Hlast.
    replace (t + drift - (t + drift - u')) with u' in Hlast by lia; rewrite T32_id in Hlast by (unfold u32; lia).
    rewrite Hlast; reflexivity.
  - intros _ _ u Hu; rewrite C by lia; specialize (S (t + drift - u) ltac:(lia)); cbv zeta in S.
    replace (t + drift - (t + drift - u)) with u in S by lia; rewrite T32_id in S by (unfold u32; lia).
    rewrite S; reflexivity.
Qed.

Lemma kernel_search_check_witness :
  u32 5000 /\
  (CheckStakeKernelHashImpl (P := CMainParams) sample [] 0x1e0ffff0 [6] 60 1000 (mkOutPoint [9] 0) 5000 3 false 10 = None ->
   60 <= 5000 -> T32 (60 + @StakeMinAge CMainParams) <= 5000 -> forall u, 5000 < u <= 5003 ->
   CheckStakeKernelHashImpl (P := CMainParams) sample [] 0x1e0ffff0 [6] 60 1000 (mkOutPoint [9] 0) u 0 true 10 = None).
Proof.
  assert (H : u32 5000) by (unfold u32; lia); split; [exact H|]; intros E.
  pose proof (kernel_search_check (P := CMainParams) sample [] 0x1e0ffff0 [6] 60 1000 (mkOutPoint [9] 0) 5000 3 10 H
    ltac:(lia) ltac:(lia)) as T; cbv zeta in T; rewrite E in T; exact T.
Defined.

(** While the interval of the last modifier lasts [ComputeNextStakeModifier]
    keeps it; then the selection never fails: it picks as many distinct
    candidates as there are, up to 64, each the unselected block with the
    smallest selection hash of its growing interval, and the new modifier is
    exactly the string of their entropy bits, in 64 bits. *)
Theorem next_stake_modifier {P : CChainParams} addr m p b md t :
  wf m -> unique m -> deref m p = Some b -> nHeight b <> 0 -> GetLastStakeModifier m (Some p) = Some (md, t) ->
  let items := sorted_candidates m p b in
  let start := GetBlockTime b / getIntervalVersion * getIntervalVersion - GetStakeModifierSelectionInterval in
  (GetBlockTime b / 60 <= t / 60 -> ComputeNextStakeModifier addr m (Some p) = Some (md, false)) /\
  (t / 60 < GetBlockTime b / 60 ->
     exists bs, ComputeNextStakeModifier addr m (Some p) = Some (entropy_bits 0 bs, true) /\
       length bs = Nat.min 64 (length items) /\ NoDup (map GetBlockHash bs) /\
       selection m md items 0 start [] bs /\ 0 <= entropy_bits 0 bs < 2 ^ 64).
Proof.
  intros Hw Hu Hp Hh Hlast items start; unfold ComputeNextStakeModifier; rewrite Hp, Hlast.
  destruct (Z.eqb_spec (nHeight b) 0) as [|_]; [contradiction|]; change getIntervalVersion with 60.
  split; intros Ht; [apply Z.leb_le in Ht; rewrite Ht; reflexivity|].
  destruct (Z.leb_spec (GetBlockTime b / 60) (t / 60)) as [|_]; [lia|].
  destruct (sorted_candidates_ok m p b Hw Hu) as (S1 & S2 & S3).
  fold items in S1, S2, S3; change (sort_pairs _) with items; set (k := Nat.min 64 (length items)).
  destruct (modifier_rounds_spec m Hu md items S1 S2 S3 k 0 start [] 0) as (bs & E & L & S & N & _);
    try (cbn [length]; lia); [constructor|].
  exists bs; change (GetBlockTime b / 60 * 60 - GetStakeModifierSelectionInterval) with start; rewrite E.
  split; [reflexivity|split; [exact L|split; [exact N|split; [exact S|]]]].
  pose proof (entropy_bits_range bs 0 ltac:(lia)) as R; rewrite L, Z.add_0_l in R.
  assert (2 ^ Z.of_nat k <= 2 ^ 64) by (apply Z.pow_le_mono_r; lia); lia.
Qed.

Lemma next_stake_modifier_witness :
  exists b, deref kernel_line 3 = Some b /\ GetLastStakeModifier kernel_line (Some 3%nat) = Some (77, 100) /\
    exists bs, ComputeNextStakeModifier (P := CMainParams) 0 kernel_line (Some 3%nat) = Some (entropy_bits 0 bs, true) /\
      length bs = 4%nat.
Proof.
  destruct (deref kernel_line 3) as [b|] eqn:Hb; [|discriminate Hb]; exists b; split; [reflexivity|].
  assert (G : GetLastStakeModifier kernel_line (Some 3%nat) = Some (77, 100)) by (vm_compute; reflexivity).
  assert (E : nHeight b = 3 /\ GetBlockTime b = 250) by (vm_compute in Hb; injection Hb as <-; split; reflexivity).
  destruct E as [Eh Et]; split; [exact G|].
  destruct (next_stake_modifier (P := CMainParams) 0 kernel_line 3 b 77 100 kernel_line_wf kernel_line_unique Hb
    ltac:(rewrite Eh; discriminate) G) as [_ H].
  destruct H as (bs & H1 & H2 & _); [rewrite Et; reflexivity|]; exists bs; split; [exact H1|]; rewrite H2.
  injection Hb as <-; vm_compute; reflexivity.
Defined.

(** C20: the StakePointer kernel never fails on indexed blocks, and accepts
    exactly when the modifier block lies on the branch at the fixed depth below
    the previous block, the time is past the median and at most a minute
    ahead, and [hash < 3000000000 * target] as integers: its division form
    never wraps. *)
Theorem CheckStakePointerKernelHash_iff {P : CChainParams} now m bits outpoint pfrom pprev_ t prev from :
  wf m -> deref m pprev_ = Some prev -> deref m pfrom = Some from -> u32 bits -> 0 < KernelModifierOffset ->
  exists r, CheckStakePointerKernelHash now m bits outpoint pfrom pprev_ t = Some r /\
  (r = true <->
   KernelModifierOffset <= nHeight prev /\ GetMedianTimePast m pprev_ < t <= now + 60 /\
   exists q modifier, up m (Z.to_nat KernelModifierOffset) pprev_ = Some q /\ deref m q = Some modifier /\
     val (hash_stream (pointer_stream outpoint (GetBlockHash modifier) (GetBlockTime from) t))
     < 3000000000 * (compact_value bits mod 2 ^ 256)).
Proof.
  intros Hw Hp Hf Hb Ho; unfold CheckStakePointerKernelHash; rewrite Hp, Hf; set (d := KernelModifierOffset) in *.
  destruct (Z.ltb_spec (nHeight prev - d) 0) as [Hd|Hd]; [exists false; split; [reflexivity|split; [discriminate|lia]]|].
  rewrite (GetAncestor_spec m pprev_ prev _ Hw Hp).
  destruct (Z.leb_spec 0 (nHeight prev - d)), (Z.leb_spec (nHeight prev - d) (nHeight prev)); try lia; cbn [andb].
  replace (nHeight prev - (nHeight prev - d)) with d by lia.
  destruct (up_height m Hw (Z.to_nat d) pprev_ prev Hp ltac:(lia)) as (q & c & U & D & _); rewrite U, D.
  destruct (Z.leb_spec t (GetMedianTimePast m pprev_)) as [Ht|Ht]; [exists false; split; [reflexivity|split; [discriminate|lia]]|].
  destruct (Z.ltb_spec (now + 60) t) as [Hn|Hn]; [exists false; split; [reflexivity|split; [discriminate|lia]]|].
  set (h := hash_stream _); pose proof (u256_hash (pointer_stream outpoint (GetBlockHash c) (GetBlockTime from) t)) as Hh.
  fold h in Hh; destruct (u256_div_pos h (uint256 (MASTERNODE_COLLATERAL / 100)) (val h) 3000000000) as (w & -> & W);
    [exact Hh|apply u256_uint256; unfold u64; lia|lia|].
  pose proof (u256_target bits Hb) as T; set (tg := compact_value bits mod 2 ^ 256) in *.
  rewrite (u256_ge _ _ _ _ W T); eexists; split; [reflexivity|]; rewrite negb_true_iff, Z.leb_gt.
  assert (Hdiv : val h / 3000000000 < tg <-> val h < 3000000000 * tg).
  { pose proof (u256_range _ _ Hh); split; intros Hlt.
    - pose proof (Z.div_mod (val h) 3000000000 ltac:(lia)); pose proof (Z.mod_pos_bound (val h) 3000000000); lia.
    - apply Z.div_lt_upper_bound; lia. }
  rewrite Hdiv; split.
  - intros Hlt; split; [lia|split; [lia|]]; exists q, c; auto.
  - intros (_ & _ & q' & c' & E1 & E2 & Hlt); assert (q' = q) as -> by congruence; assert (c' = c) as -> by congruence; exact Hlt.
Qed.

Lemma CheckStakePointerKernelHash_iff_witness :
  exists prev from, deref (line_to 12) 12 = Some prev /\ deref (line_to 12) 3 = Some from /\
    exists r, CheckStakePointerKernelHash (P := CRegTestParams) 5000 (line_to 12) 0x1b00ffff (mkOutPoint [9] 1) 3 12 1000 = Some r.
Proof.
  assert (E : (match deref (line_to 12) 12, deref (line_to 12) 3 with Some _, Some _ => true | _, _ => false end) = true)
    by (vm_compute; reflexivity).
  destruct (deref (line_to 12) 12) as [prev|] eqn:Hp, (deref (line_to 12) 3) as [from|] eqn:Hf; try discriminate E.
  exists prev, from; split; [reflexivity|split; [reflexivity|]].
  destruct (CheckStakePointerKernelHash_iff (P := CRegTestParams) 5000 (line_to 12) 0x1b00ffff (mkOutPoint [9] 1) 3 12 1000 prev from
    (link_all_wf _ _ genesis_wf) Hp Hf ltac:(unfold u32; lia) ltac:(reflexivity)) as (r & H & _); exists r; exact H.
Defined.

End Kernel.
