(* ===== verification/Script.v ===== *)
(** Scripts: [src/src/script/script.h] and [script.cpp].

    A script is the list of its bytes; an iterator into it is the suffix that
    is left, so "the rest of the script" and [CScript(pc, pend)] are the same
    list.  [CScriptNum] is the number itself ([int64_t m_value]). *)
From S2P Require Import Prelude SphTypes.

Module Script.

Definition MAX_SCRIPT_ELEMENT_SIZE : Z := 520.

(** The enumeration [opcodetype]; aliases ([OP_FALSE], [OP_TRUE]) have no
    constructor of their own. *)
Inductive opcodetype : Set :=
  | OP_0 | OP_PUSHDATA1 | OP_PUSHDATA2 | OP_PUSHDATA4 | OP_1NEGATE | OP_RESERVED | OP_1 | OP_2 | OP_3 | OP_4
  | OP_5 | OP_6 | OP_7 | OP_8 | OP_9 | OP_10 | OP_11 | OP_12 | OP_13 | OP_14 | OP_15 | OP_16 | OP_NOP
  | OP_VER | OP_IF | OP_NOTIF | OP_VERIF | OP_VERNOTIF | OP_ELSE | OP_ENDIF | OP_VERIFY | OP_RETURN
  | OP_TOALTSTACK | OP_FROMALTSTACK | OP_2DROP | OP_2DUP | OP_3DUP | OP_2OVER | OP_2ROT | OP_2SWAP
  | OP_IFDUP | OP_DEPTH | OP_DROP | OP_DUP | OP_NIP | OP_OVER | OP_PICK | OP_ROLL | OP_ROT | OP_SWAP
  | OP_TUCK | OP_CAT | OP_SUBSTR | OP_LEFT | OP_RIGHT | OP_SIZE | OP_INVERT | OP_AND | OP_OR | OP_XOR
  | OP_EQUAL | OP_EQUALVERIFY | OP_RESERVED1 | OP_RESERVED2 | OP_1ADD | OP_1SUB | OP_2MUL | OP_2DIV
  | OP_NEGATE | OP_ABS | OP_NOT | OP_0NOTEQUAL | OP_ADD | OP_SUB | OP_MUL | OP_DIV | OP_MOD | OP_LSHIFT
  | OP_RSHIFT | OP_BOOLAND | OP_BOOLOR | OP_NUMEQUAL | OP_NUMEQUALVERIFY | OP_NUMNOTEQUAL | OP_LESSTHAN
  | OP_GREATERTHAN | OP_LESSTHANOREQUAL | OP_GREATERTHANOREQUAL | OP_MIN | OP_MAX | OP_WITHIN
  | OP_RIPEMD160 | OP_SHA1 | OP_SHA256 | OP_HASH160 | OP_HASH256 | OP_CODESEPARATOR | OP_CHECKSIG
  | OP_CHECKSIGVERIFY | OP_CHECKMULTISIG | OP_CHECKMULTISIGVERIFY | OP_NOP1 | OP_NOP2 | OP_NOP3 | OP_NOP4
  | OP_NOP5 | OP_NOP6 | OP_NOP7 | OP_NOP8 | OP_NOP9 | OP_NOP10 | OP_PROOFOFSTAKE | OP_ZEROCOINMINT
  | OP_ZEROCOINSPEND | OP_SMALLINTEGER | OP_PUBKEYS | OP_PUBKEYHASH | OP_PUBKEY | OP_INVALIDOPCODE.

(** Their values. *)
Definition value (op : opcodetype) : Z :=
  match op with
  | OP_0 => 0x00 | OP_PUSHDATA1 => 0x4c | OP_PUSHDATA2 => 0x4d | OP_PUSHDATA4 => 0x4e | OP_1NEGATE => 0x4f
  | OP_RESERVED => 0x50 | OP_1 => 0x51 | OP_2 => 0x52 | OP_3 => 0x53 | OP_4 => 0x54 | OP_5 => 0x55
  | OP_6 => 0x56 | OP_7 => 0x57 | OP_8 => 0x58 | OP_9 => 0x59 | OP_10 => 0x5a | OP_11 => 0x5b
  | OP_12 => 0x5c | OP_13 => 0x5d | OP_14 => 0x5e | OP_15 => 0x5f | OP_16 => 0x60 | OP_NOP => 0x61
  | OP_VER => 0x62 | OP_IF => 0x63 | OP_NOTIF => 0x64 | OP_VERIF => 0x65 | OP_VERNOTIF => 0x66
  | OP_ELSE => 0x67 | OP_ENDIF => 0x68 | OP_VERIFY => 0x69 | OP_RETURN => 0x6a | OP_TOALTSTACK => 0x6b
  | OP_FROMALTSTACK => 0x6c | OP_2DROP => 0x6d | OP_2DUP => 0x6e | OP_3DUP => 0x6f | OP_2OVER => 0x70
  | OP_2ROT => 0x71 | OP_2SWAP => 0x72 | OP_IFDUP => 0x73 | OP_DEPTH => 0x74 | OP_DROP => 0x75
  | OP_DUP => 0x76 | OP_NIP => 0x77 | OP_OVER => 0x78 | OP_PICK => 0x79 | OP_ROLL => 0x7a | OP_ROT => 0x7b
  | OP_SWAP => 0x7c | OP_TUCK => 0x7d | OP_CAT => 0x7e | OP_SUBSTR => 0x7f | OP_LEFT => 0x80
  | OP_RIGHT => 0x81 | OP_SIZE => 0x82 | OP_INVERT => 0x83 | OP_AND => 0x84 | OP_OR => 0x85
  | OP_XOR => 0x86 | OP_EQUAL => 0x87 | OP_EQUALVERIFY => 0x88 | OP_RESERVED1 => 0x89
  | OP_RESERVED2 => 0x8a | OP_1ADD => 0x8b | OP_1SUB => 0x8c | OP_2MUL => 0x8d | OP_2DIV => 0x8e
  | OP_NEGATE => 0x8f | OP_ABS => 0x90 | OP_NOT => 0x91 | OP_0NOTEQUAL => 0x92 | OP_ADD => 0x93
  | OP_SUB => 0x94 | OP_MUL => 0x95 | OP_DIV => 0x96 | OP_MOD => 0x97 | OP_LSHIFT => 0x98
  | OP_RSHIFT => 0x99 | OP_BOOLAND => 0x9a | OP_BOOLOR => 0x9b | OP_NUMEQUAL => 0x9c
  | OP_NUMEQUALVERIFY => 0x9d | OP_NUMNOTEQUAL => 0x9e | OP_LESSTHAN => 0x9f | OP_GREATERTHAN => 0xa0
  | OP_LESSTHANOREQUAL => 0xa1 | OP_GREATERTHANOREQUAL => 0xa2 | OP_MIN => 0xa3 | OP_MAX => 0xa4
  | OP_WITHIN => 0xa5 | OP_RIPEMD160 => 0xa6 | OP_SHA1 => 0xa7 | OP_SHA256 => 0xa8 | OP_HASH160 => 0xa9
  | OP_HASH256 => 0xaa | OP_CODESEPARATOR => 0xab | OP_CHECKSIG => 0xac | OP_CHECKSIGVERIFY => 0xad
  | OP_CHECKMULTISIG => 0xae | OP_CHECKMULTISIGVERIFY => 0xaf | OP_NOP1 => 0xb0 | OP_NOP2 => 0xb1
  | OP_NOP3 => 0xb2 | OP_NOP4 => 0xb3 | OP_NOP5 => 0xb4 | OP_NOP6 => 0xb5 | OP_NOP7 => 0xb6
  | OP_NOP8 => 0xb7 | OP_NOP9 => 0xb8 | OP_NOP10 => 0xb9 | OP_PROOFOFSTAKE => 0xc0
  | OP_ZEROCOINMINT => 0xc1 | OP_ZEROCOINSPEND => 0xc2 | OP_SMALLINTEGER => 0xfa | OP_PUBKEYS => 0xfb
  | OP_PUBKEYHASH => 0xfd | OP_PUBKEY => 0xfe | OP_INVALIDOPCODE => 0xff
  end.

Definition opcodes : list opcodetype :=
  [OP_0; OP_PUSHDATA1; OP_PUSHDATA2; OP_PUSHDATA4; OP_1NEGATE; OP_RESERVED; OP_1; OP_2; OP_3; OP_4; OP_5; OP_6;
   OP_7; OP_8; OP_9; OP_10; OP_11; OP_12; OP_13; OP_14; OP_15; OP_16; OP_NOP; OP_VER; OP_IF; OP_NOTIF;
   OP_VERIF; OP_VERNOTIF; OP_ELSE; OP_ENDIF; OP_VERIFY; OP_RETURN; OP_TOALTSTACK; OP_FROMALTSTACK;
   OP_2DROP; OP_2DUP; OP_3DUP; OP_2OVER; OP_2ROT; OP_2SWAP; OP_IFDUP; OP_DEPTH; OP_DROP; OP_DUP; OP_NIP;
   OP_OVER; OP_PICK; OP_ROLL; OP_ROT; OP_SWAP; OP_TUCK; OP_CAT; OP_SUBSTR; OP_LEFT; OP_RIGHT; OP_SIZE;
   OP_INVERT; OP_AND; OP_OR; OP_XOR; OP_EQUAL; OP_EQUALVERIFY; OP_RESERVED1; OP_RESERVED2; OP_1ADD;
   OP_1SUB; OP_2MUL; OP_2DIV; OP_NEGATE; OP_ABS; OP_NOT; OP_0NOTEQUAL; OP_ADD; OP_SUB; OP_MUL; OP_DIV;
   OP_MOD; OP_LSHIFT; OP_RSHIFT; OP_BOOLAND; OP_BOOLOR; OP_NUMEQUAL; OP_NUMEQUALVERIFY; OP_NUMNOTEQUAL;
   OP_LESSTHAN; OP_GREATERTHAN; OP_LESSTHANOREQUAL; OP_GREATERTHANOREQUAL; OP_MIN; OP_MAX; OP_WITHIN;
   OP_RIPEMD160; OP_SHA1; OP_SHA256; OP_HASH160; OP_HASH256; OP_CODESEPARATOR; OP_CHECKSIG;
   OP_CHECKSIGVERIFY; OP_CHECKMULTISIG; OP_CHECKMULTISIGVERIFY; OP_NOP1; OP_NOP2; OP_NOP3; OP_NOP4;
   OP_NOP5; OP_NOP6; OP_NOP7; OP_NOP8; OP_NOP9; OP_NOP10; OP_PROOFOFSTAKE; OP_ZEROCOINMINT;
   OP_ZEROCOINSPEND; OP_SMALLINTEGER; OP_PUBKEYS; OP_PUBKEYHASH; OP_PUBKEY; OP_INVALIDOPCODE].

(** What a byte stands for in a [switch] over the enumeration: bytes between
    1 and 75, and values without a name, stand for no enumerator. *)
Definition enumerator (opcode : Z) : option opcodetype := find (fun op => value op =? opcode) opcodes.

(** ** [CScriptNum] *)

Definition nMaxNumSize : nat := 4.

Definition back (vch : list Z) : Z := vch.[length vch - 1].

(** [while (absvalue)]: a [uint64_t] has at most eight bytes. *)
Fixpoint abs_bytes (fuel : nat) (absvalue : Z) : list Z :=
  match fuel with
  | O => []
  | S fuel => if absvalue =? 0 then [] else (absvalue .& 0xff) :: abs_bytes fuel (absvalue >> 8)
  end.

Definition serialize (value : Z) : list Z :=
  if value =? 0 then []
  else
    let neg := value <? 0 in
    let absvalue := if neg then - value else value in
    let result := abs_bytes 8 absvalue in
    if negb (back result .& 0x80 =? 0) then result ++ [if neg then 0x80 else 0]
    else if neg then upd result (length result - 1) (back result .| 0x80)
    else result.

(** [result |= vch[i] << 8*i]; the constructor calls it on at most four bytes. *)
Definition or_bytes (vch : list Z) : Z :=
  fold_left (fun result i => result .| (vch.[i] << (8 * Z.of_nat i))) (seq 0 (length vch)) 0.

Definition set_vch (vch : list Z) : Z :=
  match vch with
  | [] => 0
  | _ =>
      let result := or_bytes vch in
      if negb (back vch .& 0x80 =? 0)
      then - (result .& NOT64 (0x80 << (8 * (Z.of_nat (length vch) - 1))))
      else result
  end.

(** The minimality test of the constructor. *)
Definition minimal (vch : list Z) : bool :=
  if (0 <? length vch)%nat && (back vch .& 0x7f =? 0)
  then negb ((length vch <=? 1)%nat || (vch.[length vch - 2] .& 0x80 =? 0))
  else true.

(** [CScriptNum(vch, fRequireMinimal)]; [None] is [scriptnum_error]. *)
Definition CScriptNum (vch : list Z) (fRequireMinimal : bool) : option Z :=
  if (nMaxNumSize <? length vch)%nat then None
  else if fRequireMinimal && negb (minimal vch) then None
  else Some (set_vch vch).

Definition getint (n : Z) : Z :=
  if n >? 2147483647 then 2147483647 else if n <? -2147483648 then -2147483648 else n.

(** The guards of [operator+=], [operator-=] and unary [operator-]. *)
Definition int64_max : Z := 9223372036854775807.
Definition int64_min : Z := -9223372036854775808.
Definition add_asserts (m rhs : Z) : bool :=
  (rhs =? 0) || ((rhs >? 0) && (m <=? int64_max - rhs)) || ((rhs <? 0) && (m >=? int64_min - rhs)).
Definition sub_asserts (m rhs : Z) : bool :=
  (rhs =? 0) || ((rhs >? 0) && (m >=? int64_min + rhs)) || ((rhs <? 0) && (m <=? int64_max + rhs)).
Definition neg_asserts (m : Z) : bool := negb (m =? int64_min).

(** ** Reading instructions *)

(** [GetOp2]: the opcode, the pushed data and the advanced iterator. *)
Definition GetOp (pc : list Z) : option (Z * list Z * list Z) :=
  match pc with
  | [] => None
  | opcode :: pc =>
      if opcode <=? value OP_PUSHDATA4 then
        let sized :=
          if opcode <? value OP_PUSHDATA1 then Some (opcode, pc)
          else if opcode =? value OP_PUSHDATA1 then
            if (length pc <? 1)%nat then None else Some (le_val (firstn 1 pc), skipn 1 pc)
          else if opcode =? value OP_PUSHDATA2 then
            if (length pc <? 2)%nat then None else Some (le_val (firstn 2 pc), skipn 2 pc)
          else
            if (length pc <? 4)%nat then None else Some (le_val (firstn 4 pc), skipn 4 pc) in
        match sized with
        | None => None
        | Some (nSize, pc) =>
            if Z.of_nat (length pc) <? nSize then None
            else Some (opcode, firstn (Z.to_nat nSize) pc, skipn (Z.to_nat nSize) pc)
        end
      else Some (opcode, [], pc)
  end.

(** ** Writing *)

(** [operator<<(const std::vector<unsigned char>&)]; the lengths are stored in
    the byte order of the machine, little-endian. *)
Definition push_data (script b : list Z) : list Z :=
  let size := Z.of_nat (length b) in
  (if size <? value OP_PUSHDATA1 then script ++ [T8 size]
   else if size <=? 0xff then script ++ [value OP_PUSHDATA1] ++ [T8 size]
   else if size <=? 0xffff then script ++ [value OP_PUSHDATA2] ++ le_bytes 2 size
   else script ++ [value OP_PUSHDATA4] ++ le_bytes 4 size) ++ b.

Definition push_opcode (script : list Z) (op : opcodetype) : list Z := script ++ [value op].

Definition push_int64 (script : list Z) (n : Z) : list Z :=
  if (n =? -1) || ((1 <=? n) && (n <=? 16)) then script ++ [n + (value OP_1 - 1)]
  else if n =? 0 then script ++ [value OP_0]
  else push_data script (serialize n).

(** ** Scanning *)

Definition DecodeOP_N (opcode : Z) : Z :=
  if opcode =? value OP_0 then 0 else opcode - (value OP_1 - 1).

Definition EncodeOP_N (n : Z) : Z := if n =? 0 then value OP_0 else value OP_1 + n - 1.

Definition is_prefix (b pc : list Z) : bool :=
  (length b <=? length pc)%nat && if list_eq_dec Z.eq_dec (firstn (length b) pc) b then true else false.

(** The inner [while]: erase copies of [b] at the iterator. *)
Fixpoint erase_copies (fuel : nat) (b pc : list Z) : nat * list Z :=
  match fuel with
  | O => (0%nat, pc)
  | S fuel =>
      if is_prefix b pc
      then let '(n, pc) := erase_copies fuel b (skipn (length b) pc) in (S n, pc)
      else (0%nat, pc)
  end.

(** [FindAndDelete]: the count and the script that is left. *)
Fixpoint find_and_delete (fuel : nat) (b pc : list Z) : nat * list Z :=
  match fuel with
  | O => (0%nat, pc)
  | S fuel =>
      let '(n, pc) := erase_copies (length pc) b pc in
      match GetOp pc with
      | None => (n, pc)
      | Some (_, _, pc') =>
          let '(m, rest) := find_and_delete fuel b pc' in
          ((n + m)%nat, firstn (length pc - length pc') pc ++ rest)
      end
  end.

Definition FindAndDelete (script b : list Z) : nat * list Z :=
  match b with
  | [] => (0%nat, script)
  | _ => find_and_delete (S (length script)) b script
  end.

(** [GetSigOpCount(bool)]: the [while (pc < end())] loop. *)
Fixpoint sigop_loop (fuel : nat) (fAccurate : bool) (pc : list Z) (lastOpcode : Z) (n : Z) : Z :=
  match fuel, pc with
  | _, [] => n
  | O, _ => n
  | S fuel, _ =>
      match GetOp pc with
      | None => n
      | Some (opcode, _, pc) =>
          let n :=
            if (opcode =? value OP_CHECKSIG) || (opcode =? value OP_CHECKSIGVERIFY) then n + 1
            else if (opcode =? value OP_CHECKMULTISIG) || (opcode =? value OP_CHECKMULTISIGVERIFY) then
              if fAccurate && (value OP_1 <=? lastOpcode) && (lastOpcode <=? value OP_16)
              then n + DecodeOP_N lastOpcode else n + 20
            else n in
          sigop_loop fuel fAccurate pc opcode n
      end
  end.

Definition GetSigOpCount (script : list Z) (fAccurate : bool) : Z :=
  sigop_loop (length script) fAccurate script (value OP_INVALIDOPCODE) 0.

Definition IsPayToScriptHash (script : list Z) : bool :=
  (length script =? 23)%nat && (script.[0] =? value OP_HASH160) && (script.[1] =? 0x14) &&
  (script.[22] =? value OP_EQUAL).

(** The last item a push-only scriptSig pushes; [None] is [return 0]. *)
Fixpoint last_push (fuel : nat) (pc data : list Z) : option (list Z) :=
  match fuel, pc with
  | _, [] => Some data
  | O, _ => None
  | S fuel, _ =>
      match GetOp pc with
      | None => None
      | Some (opcode, data, pc) => if opcode >? value OP_16 then None else last_push fuel pc data
      end
  end.

(** [GetSigOpCount(const CScript& scriptSig)]. *)
Definition GetSigOpCount_P2SH (script scriptSig : list Z) : Z :=
  if negb (IsPayToScriptHash script) then GetSigOpCount script true
  else match last_push (length scriptSig) scriptSig [] with
       | None => 0
       | Some data => GetSigOpCount data true
       end.

Fixpoint push_only_loop (fuel : nat) (pc : list Z) : bool :=
  match fuel, pc with
  | _, [] => true
  | O, _ => false
  | S fuel, _ =>
      match GetOp pc with
      | None => false
      | Some (opcode, _, pc) => if opcode >? value OP_16 then false else push_only_loop fuel pc
      end
  end.

Definition IsPushOnly (script : list Z) : bool := push_only_loop (length script) script.

Definition IsUnspendable (script : list Z) : bool :=
  (0 <? length script)%nat && (script.[0] =? value OP_RETURN).

Definition IsZerocoinMint (script : list Z) : bool :=
  (0 <? length script)%nat && (script.[0] =? value OP_ZEROCOINMINT).

Definition IsZerocoinSpend (script : list Z) : bool :=
  (0 <? length script)%nat && (script.[0] =? value OP_ZEROCOINSPEND).

Definition IsProofOfStakeMarker (script : list Z) : bool :=
  (0 <? length script)%nat && (script.[0] =? value OP_PROOFOFSTAKE).

(** ** Little-endian magnitudes *)

Lemma back_snoc l x : back (l ++ [x]) = x.
Proof. unfold back; rewrite length_app, Nat.add_sub, get_app_r, Nat.sub_diag by lia; reflexivity. Qed.

Lemma upd_snoc l x y : upd (l ++ [x]) (length (l ++ [x]) - 1) y = l ++ [y].
Proof. rewrite length_app, Nat.add_sub, upd_app_r, Nat.sub_diag by lia; reflexivity. Qed.

Lemma or_bytes_val vch : Forall u8 vch -> or_bytes vch = le_val vch.
Proof.
  intros H; unfold or_bytes; replace (le_val vch) with (le_val (firstn (length vch) vch)) by (rewrite firstn_all; reflexivity).
  assert (G : forall k, (k <= length vch)%nat ->
    fold_left (fun r i => r .| (vch.[i] << (8 * Z.of_nat i))) (seq 0 k) 0 = le_val (firstn k vch)).
  { induction k as [|k IH]; intros Hk; [reflexivity|]; rewrite seq_S, fold_left_app, IH by lia; cbn [fold_left Nat.add].
    pose proof (le_val_bound (firstn k vch) ltac:(apply Forall_split, H)) as B.
    rewrite length_firstn, Nat.min_l in B by lia; rewrite lor_shl_add by lia.
    rewrite (firstn_S_get vch k) by lia; rewrite le_val_app, length_firstn, Nat.min_l by lia; cbn [le_val]; ring. }
  apply G; lia.
Qed.

Lemma abs_bytes_S fuel a : 0 < a -> abs_bytes (S fuel) a = a mod 2 ^ 8 :: abs_bytes fuel (a / 2 ^ 8).
Proof.
  intros H; cbn [abs_bytes]; destruct (Z.eqb_spec a 0); [lia|].
  f_equal; [apply T8_mod|rewrite Z.shiftr_div_pow2 by lia; reflexivity].
Qed.

Lemma abs_bytes_spec fuel : forall a, 0 <= a < 2 ^ (8 * Z.of_nat fuel) ->
  le_val (abs_bytes fuel a) = a /\ Forall u8 (abs_bytes fuel a) /\ (0 < a -> 0 < back (abs_bytes fuel a)).
Proof.
  induction fuel as [|fuel IH]; intros a Ha.
  { change (2 ^ (8 * Z.of_nat 0)) with 1 in Ha; split; [cbn; lia|split; [constructor|lia]]. }
  destruct (Z.eq_dec a 0) as [->|Hz]; [split; [reflexivity|split; [constructor|lia]]|].
  replace (8 * Z.of_nat (S fuel)) with (8 + 8 * Z.of_nat fuel) in Ha by lia; rewrite Z.pow_add_r in Ha by lia.
  rewrite abs_bytes_S by lia; destruct (IH (a / 2 ^ 8)) as (E & U & B).
  { split; [apply Z.div_pos; lia|apply Z.div_lt_upper_bound; lia]. }
  split; [cbn [le_val]; rewrite E; pose proof (Z.div_mod a (2 ^ 8)); lia|].
  split; [constructor; [apply (in_width_mod 8); lia|exact U]|intros _].
  destruct (Z.eq_dec (a / 2 ^ 8) 0) as [Q|Q].
  - assert (L : abs_bytes fuel (a / 2 ^ 8) = []) by (rewrite Q; destruct fuel; reflexivity).
    rewrite L; change (0 < a mod 2 ^ 8); rewrite Z.mod_small; [lia|].
    split; [lia|]; apply Z.div_small_iff in Q; lia.
  - assert (0 <= a / 2 ^ 8) by (apply Z.div_pos; lia); specialize (B ltac:(lia)).
    destruct (abs_bytes fuel (a / 2 ^ 8)) as [|y l]; [cbn in B; lia|].
    unfold back in *; cbn [length] in *; replace (S (S (length l)) - 1)%nat with (S (S (length l) - 1)) by lia; exact B.
Qed.

(** The only bytes with no leading zero that have a given value. *)
Lemma abs_bytes_unique fuel : forall b, Forall u8 b -> (length b <= fuel)%nat -> 0 < back b ->
  abs_bytes fuel (le_val b) = b.
Proof.
  induction fuel as [|fuel IH]; intros b Hu Hl Hb; [destruct b; [reflexivity|cbn in Hl; lia]|].
  destruct b as [|x b]; [reflexivity|]; inversion Hu as [|? ? Hx Hu']; subst; cbn [length] in Hl.
  pose proof (le_val_bound b Hu') as Bb; unfold u8 in Hx; cbn [le_val].
  assert (P : 0 < x + 2 ^ 8 * le_val b).
  { destruct b as [|y b]; [unfold back in Hb; cbn in Hb; cbn; lia|].
    enough (0 < le_val (y :: b)) by lia; destruct (exists_last (l := y :: b)) as (l & z & E); [discriminate|].
    rewrite E in *; rewrite app_comm_cons, back_snoc in Hb; rewrite le_val_app; cbn [le_val].
    apply Forall_app in Hu' as [Hu' _]; pose proof (le_val_bound l Hu'); lia. }
  rewrite abs_bytes_S by exact P; rewrite (Z.mul_comm (2 ^ 8)), Z.mod_add, Z.mod_small, Z.div_add, Z.div_small, Z.add_0_l by lia.
  f_equal; destruct b as [|y b]; [destruct fuel; reflexivity|].
  apply IH; [exact Hu'|lia|]; unfold back in *; cbn [length] in *.
  replace (S (S (length b)) - 1)%nat with (S (S (length b) - 1)) in Hb by lia; exact Hb.
Qed.

Lemma abs_bytes_length fuel : forall a k, 0 <= a < 2 ^ (8 * Z.of_nat k) -> (length (abs_bytes fuel a) <= k)%nat.
Proof.
  induction fuel as [|fuel IH]; intros a k Ha; [cbn; lia|].
  destruct (Z.eq_dec a 0) as [->|Hz]; [cbn; lia|]; rewrite abs_bytes_S by lia; cbn [length].
  destruct k as [|k]; [change (2 ^ (8 * Z.of_nat 0)) with 1 in Ha; lia|].
  replace (8 * Z.of_nat (S k)) with (8 + 8 * Z.of_nat k) in Ha by lia; rewrite Z.pow_add_r in Ha by lia.
  apply le_n_S, IH; split; [apply Z.div_pos; lia|apply Z.div_lt_upper_bound; lia].
Qed.

(** ** The sign bit *)

Lemma byte_high b : u8 b -> (b .& 0x80 =? 0) = (b <? 128).
Proof. intros H; apply eqb_prop, (forall_u8 (fun b => eqb (b .& 0x80 =? 0) (b <? 128))); [vm_compute; reflexivity|exact H]. Qed.

Lemma byte_low b : u8 b -> (b .& 0x7f =? 0) = (b =? 0) || (b =? 128).
Proof.
  intros H; apply eqb_prop, (forall_u8 (fun b => eqb (b .& 0x7f =? 0) ((b =? 0) || (b =? 128))));
    [vm_compute; reflexivity|exact H].
Qed.

Lemma byte_sign b : 0 <= b < 128 -> b .| 0x80 = b + 128.
Proof.
  intros H; apply Z.eqb_eq.
  assert (E : negb (b <? 128) || (b .| 0x80 =? b + 128) = true)
    by (apply (forall_u8 (fun b => negb (b <? 128) || (b .| 0x80 =? b + 128))); [vm_compute; reflexivity|unfold u8; lia]).
  destruct (Z.ltb_spec b 128); [exact E|lia].
Qed.

(** [result & ~(0x80ULL << k)] with that bit set and no higher one. *)
Lemma clear_bit x k : 0 <= x < 2 ^ k -> 0 <= k < 64 -> (x + 2 ^ k) .& NOT64 (2 ^ k) = x.
Proof.
  intros Hx Hk; replace (x + 2 ^ k) with (x .| (1 << k)) by (rewrite lor_shl_add by lia; lia).
  apply Z.bits_inj'; intros i Hi; unfold NOT64; change 0xFFFFFFFFFFFFFFFF with (Z.ones 64).
  rewrite Z.land_spec, Z.lor_spec, Z.lxor_spec, Z.shiftl_1_l, Z.pow2_bits_eqb by lia.
  destruct (Z.eqb_spec k i) as [->|Hne].
  - rewrite Z.ones_spec_low, (in_width_high i x) by (assumption || lia); reflexivity.
  - rewrite orb_false_r; destruct (Z.ltb_spec i 64).
    + rewrite Z.ones_spec_low by lia; apply andb_true_r.
    + rewrite (in_width_high k x) by (assumption || lia); reflexivity.
Qed.

Lemma set_vch_snoc l b : Forall u8 (l ++ [b]) -> (length l < 8)%nat ->
  set_vch (l ++ [b]) = if b <? 128 then le_val (l ++ [b]) else - (le_val l + 2 ^ (8 * Z.of_nat (length l)) * (b - 128)).
Proof.
  intros Hu Hl; pose proof Hu as Hu'; apply Forall_app in Hu' as [Hul Hub]; inversion Hub as [|? ? Hb _]; subst.
  assert (E : set_vch (l ++ [b]) = if negb (back (l ++ [b]) .& 0x80 =? 0)
    then - (or_bytes (l ++ [b]) .& NOT64 (0x80 << (8 * (Z.of_nat (length (l ++ [b])) - 1)))) else or_bytes (l ++ [b]))
    by (destruct l; reflexivity).
  rewrite E, back_snoc, byte_high, or_bytes_val by assumption; destruct (Z.ltb_spec b 128); [reflexivity|]; cbn [negb].
  f_equal; rewrite length_app, le_val_app; cbn [length le_val]; rewrite Z.mul_0_r, Z.add_0_r.
  replace (8 * (Z.of_nat (length l + 1) - 1)) with (8 * Z.of_nat (length l)) by lia; set (k := 8 * Z.of_nat (length l)).
  pose proof (le_val_bound l Hul) as B; fold k in B; unfold u8 in Hb.
  rewrite Z.shiftl_mul_pow2 by lia; change 0x80 with (2 ^ 7); rewrite <- Z.pow_add_r by lia.
  replace (le_val l + 2 ^ k * b) with (le_val l + 2 ^ k * (b - 128) + 2 ^ (7 + k)) by (rewrite Z.pow_add_r by lia; lia).
  apply clear_bit; [rewrite Z.pow_add_r by lia; nia|lia].
Qed.

Lemma serialize_form n : n <> 0 -> Z.abs n < 2 ^ 64 ->
  exists l x, abs_bytes 8 (Z.abs n) = l ++ [x] /\ Forall u8 l /\ 0 < x < 256 /\ le_val (l ++ [x]) = Z.abs n /\
    serialize n = if 128 <=? x then (l ++ [x]) ++ [if n <? 0 then 0x80 else 0]
                  else l ++ [if n <? 0 then x + 128 else x].
Proof.
  intros Hn Hb; destruct (abs_bytes_spec 8 (Z.abs n)) as (E & U & P); [change (8 * Z.of_nat 8) with 64; lia|].
  assert (A : (if n <? 0 then - n else n) = Z.abs n) by (destruct (Z.ltb_spec n 0); lia).
  unfold serialize; rewrite A; destruct (Z.eqb_spec n 0); [contradiction|]; specialize (P ltac:(lia)).
  destruct (exists_last (l := abs_bytes 8 (Z.abs n))) as (l & x & El).
  { intros E0; rewrite E0 in P; cbn in P; lia. }
  rewrite El in *; rewrite back_snoc in *; apply Forall_app in U as [Ul Ux]; inversion Ux as [|? ? Hx _]; subst.
  exists l, x; split; [reflexivity|split; [exact Ul|split; [unfold u8 in Hx; lia|split; [exact E|]]]].
  rewrite byte_high by exact Hx; destruct (Z.ltb_spec x 128), (Z.leb_spec 128 x); try lia; cbn [negb]; [|reflexivity].
  destruct (n <? 0); [rewrite upd_snoc, byte_sign by lia; reflexivity|reflexivity].
Qed.

Lemma back_minimal l b : minimal (l ++ [b]) = true -> u8 b -> Forall u8 l ->
  (b <> 0 /\ b <> 128) \/ (l <> [] /\ 128 <= back l).
Proof.
  unfold minimal; intros H Hb Hl; rewrite back_snoc, byte_low in H by exact Hb.
  destruct (Nat.ltb_spec 0 (length (l ++ [b]))) as [_|L]; [|rewrite length_app in L; cbn in L; lia].
  destruct (Z.eqb_spec b 0), (Z.eqb_spec b 128); cbn [andb orb] in H; try (left; split; assumption); right;
    (destruct l as [|y l]; [discriminate H|]; split; [discriminate|]);
    apply negb_true_iff, orb_false_elim in H as [_ H]; rewrite length_app in H; cbn [length] in H;
    replace (S (length l) + 1 - 2)%nat with (S (length l) - 1)%nat in H by lia;
    rewrite get_app_l in H by (cbn [length]; lia); fold (back (y :: l)) in H;
    (rewrite byte_high in H by (apply (Forall_forall u8 (y :: l)); [exact Hl|apply nth_In; cbn [length]; lia]));
    apply Z.ltb_ge in H; exact H.
Qed.

(** How a number with a given magnitude is written. *)
Lemma serialize_of n l x : Forall u8 (l ++ [x]) -> (length l < 8)%nat -> 0 < x -> le_val (l ++ [x]) = Z.abs n ->
  serialize n = if 128 <=? x then (l ++ [x]) ++ [if n <? 0 then 0x80 else 0]
                else l ++ [if n <? 0 then x + 128 else x].
Proof.
  intros Hu Hl Hx E; pose proof (le_val_bound (l ++ [x]) Hu) as B; pose proof Hu as Hu'.
  apply Forall_app in Hu' as [Hul _]; pose proof (le_val_bound l Hul) as Bl.
  assert (2 ^ (8 * Z.of_nat (length (l ++ [x]))) <= 2 ^ 64) by (apply Z.pow_le_mono_r; rewrite ?length_app; cbn [length]; lia).
  assert (N0 : n <> 0) by (apply Z.abs_pos; rewrite <- E, le_val_app; cbn [le_val]; nia).
  destruct (serialize_form n N0) as (l' & x' & E' & _ & _ & _ & ->); [lia|].
  rewrite <- E, abs_bytes_unique in E' by (try (rewrite back_snoc; exact Hx);
    try (rewrite length_app; cbn; lia); exact Hu).
  apply app_inj_tail in E' as [<- <-]; reflexivity.
Qed.

(** The number a sign-magnitude byte string stands for is written back as the
    string when it is minimal. *)
Lemma serialize_set_vch vch : Forall u8 vch -> (length vch <= 8)%nat -> minimal vch = true -> serialize (set_vch vch) = vch.
Proof.
  intros Hu Hl Hm; destruct vch as [|y vch]; [reflexivity|].
  destruct (exists_last (l := y :: vch)) as (l & b & E); [discriminate|]; rewrite E in *; clear E y vch.
  rewrite length_app in Hl; cbn [length] in Hl; rewrite set_vch_snoc by (assumption || lia).
  pose proof Hu as Hu'; apply Forall_app in Hu' as [Hul Hub]; inversion Hub as [|? ? Hb _]; subst.
  pose proof (back_minimal l b Hm Hb Hul) as M; pose proof (le_val_bound l Hul) as B; unfold u8 in Hb.
  set (k := 8 * Z.of_nat (length l)) in *; set (n := if b <? 128 then _ else _).
  set (x := if b <? 128 then b else b - 128).
  assert (V : le_val (l ++ [x]) = le_val l + 2 ^ k * x) by (rewrite le_val_app; cbn [le_val]; fold k; lia).
  assert (Hx : 0 <= x < 128) by (unfold x; destruct (Z.ltb_spec b 128); lia).
  assert (A : Z.abs n = le_val (l ++ [x])).
  { rewrite V; unfold n, x; destruct (Z.ltb_spec b 128); [rewrite le_val_app; cbn [le_val]; fold k|]; nia. }
  assert (Hs : 0 < Z.abs n -> (n <? 0) = (128 <=? b)).
  { rewrite A, V; unfold n, x; intros P; destruct (Z.ltb_spec b 128), (Z.leb_spec 128 b); try lia.
    rewrite le_val_app; cbn [le_val]; fold k; lia. }
  destruct (Z.eq_dec x 0) as [X|X].
  - (* a single sign byte after a magnitude whose top bit is set *)
    destruct M as [M|[M0 M1]]; [unfold x in X; destruct (Z.ltb_spec b 128); lia|].
    destruct (exists_last M0) as (m & z & ->); rewrite back_snoc in M1; pose proof Hul as Um.
    apply Forall_app in Um as [Um _]; pose proof (le_val_bound m Um).
    assert (P : 0 < Z.abs n) by (rewrite A, V, X, le_val_app; cbn [le_val]; nia).
    rewrite (serialize_of n m z) by (try exact Hul; rewrite ?length_app in Hl; cbn [length] in Hl; lia).
    destruct (Z.leb_spec 128 z); [|lia]; rewrite (Hs P); do 2 f_equal.
    unfold x in X; destruct (Z.ltb_spec b 128), (Z.leb_spec 128 b); lia.
  - assert (P : 0 < Z.abs n) by (rewrite A, V; nia).
    rewrite (serialize_of n l x) by
      (try (apply Forall_app; split; [exact Hul|constructor; [unfold u8; lia|constructor]]); lia).
    destruct (Z.leb_spec 128 x); [lia|]; rewrite (Hs P).
    unfold x; destruct (Z.ltb_spec b 128), (Z.leb_spec 128 b); try lia; do 2 f_equal; lia.
Qed.

Lemma minimal_snoc l b : u8 b -> (b <> 0 /\ b <> 128) \/ (l <> [] /\ u8 (back l) /\ 128 <= back l) -> minimal (l ++ [b]) = true.
Proof.
  intros Hb H; unfold minimal; rewrite back_snoc, byte_low by exact Hb.
  destruct H as [[H0 H1]|(H0 & Hu & H1)].
  - destruct (Z.eqb_spec b 0), (Z.eqb_spec b 128); try contradiction; cbn [orb]; rewrite andb_false_r; reflexivity.
  - destruct (_ && _); [|reflexivity]; destruct l as [|y l]; [contradiction|]; rewrite length_app; cbn [length].
    replace (S (length l) + 1 - 2)%nat with (S (length l) - 1)%nat by lia.
    rewrite get_app_l by (cbn [length]; lia).
    change (y :: l).[S (length l) - 1] with (back (y :: l)); rewrite byte_high by exact Hu.
    destruct (Nat.leb_spec (S (length l) + 1) 1), (Z.ltb_spec (back (y :: l)) 128); try lia; reflexivity.
Qed.

(** Writing a number of up to eight bytes and reading it back. *)
Lemma set_vch_serialize n : Z.abs n < 2 ^ 63 ->
  set_vch (serialize n) = n /\ minimal (serialize n) = true /\ Forall u8 (serialize n).
Proof.
  intros H; destruct (Z.eq_dec n 0) as [->|N0]; [repeat split; constructor|].
  destruct (serialize_form n N0) as (l & x & E & Ul & Hx & V & ->); [lia|].
  pose proof (le_val_bound l Ul) as B; rewrite le_val_app in V; cbn [le_val] in V.
  pose proof (abs_bytes_length 8 (Z.abs n) 8 ltac:(change (8 * Z.of_nat 8) with 64; lia)) as L.
  rewrite E, length_app in L; cbn [length] in L; assert (Ux : u8 x) by (unfold u8; lia).
  assert (Ulx : Forall u8 (l ++ [x])) by (apply Forall_app; split; [exact Ul|repeat constructor; apply Ux]).
  destruct (Z.leb_spec 128 x).
  - assert (L7 : (length l < 7)%nat).
    { destruct (Nat.eq_dec (length l) 7) as [E7|]; [|lia]; rewrite E7 in *; change (8 * Z.of_nat 7) with 56 in *; lia. }
    set (s := if n <? 0 then 128 else 0); assert (Hs : u8 s) by (unfold s, u8; destruct (n <? 0); lia).
    assert (Us : Forall u8 ((l ++ [x]) ++ [s])) by (apply Forall_app; split; [exact Ulx|repeat constructor; apply Hs]).
    split; [|split; [|exact Us]].
    + rewrite set_vch_snoc by (try exact Us; rewrite length_app; cbn [length]; lia).
      rewrite !le_val_app; cbn [le_val]; unfold s; destruct (Z.ltb_spec n 0);
        [destruct (Z.ltb_spec 128 128)|destruct (Z.ltb_spec 0 128)]; lia.
    + apply minimal_snoc; [exact Hs|right]; rewrite back_snoc; split; [destruct l; discriminate|split; [exact Ux|lia]].
  - set (b := if n <? 0 then x + 128 else x); assert (Hb : u8 b) by (unfold b, u8; destruct (n <? 0); lia).
    assert (Ub : Forall u8 (l ++ [b])) by (apply Forall_app; split; [exact Ul|repeat constructor; apply Hb]).
    split; [|split; [|exact Ub]].
    + rewrite set_vch_snoc by (try exact Ub; lia); rewrite le_val_app; cbn [le_val].
      unfold b; destruct (Z.ltb_spec n 0);
        [destruct (Z.ltb_spec (x + 128) 128)|destruct (Z.ltb_spec x 128)]; lia.
    + apply minimal_snoc; [exact Hb|left]; unfold b; destruct (n <? 0); lia.
Qed.

(** The length of a number. *)
Lemma serialize_length n k : (0 < k <= 8)%nat -> Z.abs n < 2 ^ 64 ->
  Z.abs n < 2 ^ (8 * Z.of_nat k - 1) <-> (length (serialize n) <= k)%nat.
Proof.
  intros Hk H; destruct (Z.eq_dec n 0) as [->|N0]; [change (Z.abs 0) with 0; change (serialize 0) with (@nil Z); cbn [length]; split; [lia|intros _; apply Z.pow_pos_nonneg; lia]|].
  destruct (serialize_form n N0 H) as (l & x & E & Ul & Hx & V & ->).
  pose proof (le_val_bound l Ul) as B; rewrite le_val_app in V; cbn [le_val] in V; set (m := length l) in *.
  assert (P : forall a b, 0 <= a <= b -> 2 ^ a <= 2 ^ b) by (intros; apply Z.pow_le_mono_r; lia).
  assert (P7 : 2 ^ (8 * Z.of_nat m + 7) = 128 * 2 ^ (8 * Z.of_nat m)) by (rewrite Z.pow_add_r by lia; lia).
  assert (P8 : 2 ^ (8 * Z.of_nat m + 8) = 256 * 2 ^ (8 * Z.of_nat m)) by (rewrite Z.pow_add_r by lia; lia).
  destruct (Z.leb_spec 128 x); rewrite ?length_app; cbn [length]; fold m; split; intros G.
  - destruct (Nat.le_gt_cases (m + 1 + 1) k) as [|C]; [assumption|].
    specialize (P (8 * Z.of_nat k - 1) (8 * Z.of_nat m + 7)); nia.
  - specialize (P (8 * Z.of_nat m + 8) (8 * Z.of_nat k - 1)); nia.
  - destruct (Nat.le_gt_cases (m + 1) k) as [|C]; [assumption|].
    specialize (P (8 * Z.of_nat k - 1) (8 * Z.of_nat m)); nia.
  - specialize (P (8 * Z.of_nat m + 7) (8 * Z.of_nat k - 1)); nia.
Qed.

Lemma set_vch_range vch : Forall u8 vch -> (length vch <= 8)%nat -> Z.abs (set_vch vch) < 2 ^ (8 * Z.of_nat (length vch)).
Proof.
  intros Hu Hl; destruct vch as [|y vch]; [cbn; lia|].
  destruct (exists_last (l := y :: vch)) as (l & b & E); [discriminate|]; rewrite E in *; clear E y vch.
  pose proof Hu as Hu'; apply Forall_app in Hu' as [Hul Hub]; inversion Hub as [|? ? Hb _]; subst.
  pose proof (le_val_bound l Hul) as B; pose proof (le_val_bound (l ++ [b]) Hu) as B'; unfold u8 in Hb.
  rewrite length_app in *; cbn [length] in *; rewrite set_vch_snoc by (try exact Hu; lia).
  rewrite le_val_app in *; cbn [le_val] in *; destruct (Z.ltb_spec b 128); nia.
Qed.

(** Script numbers: writing a number of magnitude below 2^31 and reading
    it gives the number, larger ones (up to the overflow of the C++ type) are
    refused as operands, and with minimality required the bytes accepted are
    exactly the ones written for some number - one encoding per number. *)
Theorem scriptnum_codec n vch fRequireMinimal :
  Z.abs n < 2 ^ 63 -> Forall u8 vch ->
  CScriptNum (serialize n) fRequireMinimal = (if Z.abs n <? 2 ^ 31 then Some n else None) /\
  (CScriptNum vch true = Some n <-> vch = serialize n /\ Z.abs n < 2 ^ 31).
Proof.
  intros Hn Hv; destruct (set_vch_serialize n Hn) as (E & M & U).
  assert (R : CScriptNum (serialize n) fRequireMinimal = if Z.abs n <? 2 ^ 31 then Some n else None).
  { unfold CScriptNum, nMaxNumSize; pose proof (serialize_length n 4 ltac:(lia) ltac:(lia)) as L.
    change (8 * Z.of_nat 4 - 1) with 31 in L; rewrite M, E; cbn [negb]; rewrite andb_false_r.
    destruct (Nat.ltb_spec 4 (length (serialize n))), (Z.ltb_spec (Z.abs n) (2 ^ 31)); try reflexivity; lia. }
  split; [exact R|split].
  - unfold CScriptNum, nMaxNumSize; destruct (Nat.ltb_spec 4 (length vch)) as [|L]; [discriminate|].
    destruct (minimal vch) eqn:Em; cbn [negb andb]; [|discriminate]; intros [= <-].
    rewrite serialize_set_vch by (assumption || lia); split; [reflexivity|].
    apply (serialize_length (set_vch vch) 4); [lia| |rewrite serialize_set_vch by (assumption || lia); exact L].
    pose proof (set_vch_range vch Hv ltac:(lia)).
    assert (2 ^ (8 * Z.of_nat (length vch)) <= 2 ^ 32) by (apply Z.pow_le_mono_r; lia); lia.
  - intros [-> H]; unfold CScriptNum, nMaxNumSize.
    pose proof (proj1 (serialize_length n 4 ltac:(lia) ltac:(lia)) H); rewrite M, E; cbn [negb andb].
    destruct (Nat.ltb_spec 4 (length (serialize n))); [lia|reflexivity].
Qed.

Lemma scriptnum_codec_witness :
  (Z.abs (-1000) < 2 ^ 63 /\ Forall u8 [232; 131]) /\ CScriptNum (serialize (-1000)) true = Some (-1000) /\
  CScriptNum [232; 131] true = Some (-1000).
Proof.
  assert (U : Forall u8 [232; 131]) by (repeat constructor; unfold u8; lia).
  split; [split; [reflexivity|exact U]|].
  destruct (scriptnum_codec (-1000) [232; 131] true eq_refl U) as [H1 H2].
  split; [exact H1|apply H2; split; reflexivity].
Defined.

(** ** Reading what was written *)

(** An instruction to append: data with [operator<<(vector)], or an opcode
    beyond the pushes with [operator<<(opcodetype)]. *)
Inductive instruction : Set :=
| Data (b : list Z)
| Opcode (opcode : Z).

Definition emit (script : list Z) (i : instruction) : list Z :=
  match i with
  | Data b => push_data script b
  | Opcode opcode => script ++ [opcode]
  end.

(** The opcode [GetOp] reports for pushed data. *)
Definition push_op (b : list Z) : Z :=
  let size := Z.of_nat (length b) in
  if size <? value OP_PUSHDATA1 then size
  else if size <=? 0xff then value OP_PUSHDATA1
  else if size <=? 0xffff then value OP_PUSHDATA2
  else value OP_PUSHDATA4.

Definition reported (i : instruction) : Z * list Z :=
  match i with
  | Data b => (push_op b, b)
  | Opcode opcode => (opcode, [])
  end.

Definition writable (i : instruction) : Prop :=
  match i with
  | Data b => Z.of_nat (length b) < 2 ^ 32
  | Opcode opcode => value OP_PUSHDATA4 < opcode
  end.

(** What a loop over [GetOp] sees until the end of the script. *)
Inductive reads : list Z -> list (Z * list Z) -> Prop :=
| reads_end : reads [] []
| reads_op pc opcode data pc' l : GetOp pc = Some (opcode, data, pc') -> reads pc' l -> reads pc ((opcode, data) :: l).

Lemma emit_app script i : emit script i = script ++ emit [] i.
Proof.
  destruct i as [b|o]; [|reflexivity]; unfold emit, push_data; cbv zeta.
  destruct (_ <? _); [rewrite <- app_assoc; reflexivity|].
  destruct (_ <=? _); [rewrite <- !app_assoc; reflexivity|].
  destruct (_ <=? _); rewrite <- !app_assoc; reflexivity.
Qed.

(** A length stored in [n] bytes in front of the data. *)
Lemma sized_data n (b rest : list Z) : Z.of_nat (length b) < 2 ^ (8 * Z.of_nat n) ->
  let pc := le_bytes n (Z.of_nat (length b)) ++ b ++ rest in
  (length pc <? n)%nat = false /\ le_val (firstn n pc) = Z.of_nat (length b) /\ skipn n pc = b ++ rest.
Proof.
  intros H pc; pose proof (le_bytes_length n (Z.of_nat (length b))) as L; unfold pc.
  split; [apply Nat.ltb_ge; rewrite length_app; lia|split].
  - rewrite firstn_app, L, Nat.sub_diag, firstn_O, app_nil_r, firstn_all2 by lia; apply le_val_bytes; lia.
  - rewrite skipn_app, L, Nat.sub_diag, skipn_O, skipn_all2 by lia; reflexivity.
Qed.

Lemma take_data (b rest : list Z) : (Z.of_nat (length (b ++ rest)) <? Z.of_nat (length b)) = false /\
  firstn (Z.to_nat (Z.of_nat (length b))) (b ++ rest) = b /\ skipn (Z.to_nat (Z.of_nat (length b))) (b ++ rest) = rest.
Proof.
  rewrite Nat2Z.id; split; [apply Z.ltb_ge; rewrite length_app; lia|].
  rewrite firstn_app, skipn_app, Nat.sub_diag, firstn_O, skipn_O, firstn_all, skipn_all, app_nil_r; split; reflexivity.
Qed.

Lemma GetOp_emit i rest : writable i ->
  GetOp (emit [] i ++ rest) = Some (fst (reported i), snd (reported i), rest).
Proof.
  destruct i as [b|o]; cbn [writable emit reported fst snd app]; intros H.
  2: { unfold GetOp; destruct (Z.leb_spec o (value OP_PUSHDATA4)); [lia|reflexivity]. }
  destruct (take_data b rest) as (T1 & T2 & T3).
  unfold push_data, push_op; cbn [app]; set (size := Z.of_nat (length b)) in *; cbn [value].
  assert (E8 : forall z, 0 <= z < 256 -> T8 z = z) by (intros z Hz; apply T8_id; unfold u8; lia).
  destruct (Z.ltb_spec size 0x4c) as [C|C]; [|destruct (Z.leb_spec size 0xff) as [D|D];
    [|destruct (Z.leb_spec size 0xffff) as [F|F]]]; rewrite <- ?app_assoc; cbn [app]; unfold GetOp; cbn [value].
  - rewrite (E8 size) by lia; destruct (Z.leb_spec size 0x4e), (Z.ltb_spec size 0x4c); try lia.
    rewrite T1, T2, T3; reflexivity.
  - cbn [Z.leb Z.ltb Z.eqb Z.compare Pos.compare Pos.compare_cont Pos.eqb]; rewrite (E8 size) by lia.
    cbn [length Nat.ltb Nat.leb firstn skipn le_val]; rewrite Z.mul_0_r, Z.add_0_r, T1, T2, T3; reflexivity.
  - cbn [Z.leb Z.ltb Z.eqb Z.compare Pos.compare Pos.compare_cont Pos.eqb].
    destruct (sized_data 2 b rest) as (S1 & S2 & S3); [fold size; lia|]; fold size in S1, S2, S3.
    rewrite S1, S2, S3, T1, T2, T3; reflexivity.
  - cbn [Z.leb Z.ltb Z.eqb Z.compare Pos.compare Pos.compare_cont Pos.eqb].
    destruct (sized_data 4 b rest) as (S1 & S2 & S3); [fold size; lia|]; fold size in S1, S2, S3.
    rewrite S1, S2, S3, T1, T2, T3; reflexivity.
Qed.

Lemma build_app items script : fold_left emit items script = script ++ fold_left emit items [].
Proof.
  revert script; induction items as [|i items IH]; intros script; cbn [fold_left]; [symmetry; apply app_nil_r|].
  rewrite (IH (emit script i)), (IH (emit [] i)), emit_app, <- app_assoc; reflexivity.
Qed.

(** [GetOp] advances. *)
Lemma GetOp_shorter pc opcode data pc' : GetOp pc = Some (opcode, data, pc') -> (length pc' < length pc)%nat.
Proof.
  unfold GetOp; destruct pc as [|o pc]; [discriminate|].
  destruct (o <=? _); [|intros [= <- <- <-]; cbn; lia].
  destruct (if o <? _ then _ else _) as [[n pc1]|] eqn:E; [|discriminate].
  destruct (_ <? n); [discriminate|]; intros [= <- <- <-].
  assert (L : (length pc1 <= length pc)%nat).
  { assert (S : forall k l, Some (n, pc1) = Some (l, skipn k pc) -> (length pc1 <= length pc)%nat)
      by (intros k l [= _ ->]; rewrite length_skipn; lia).
    repeat match type of E with context [if ?b then _ else _] => destruct b end; try discriminate E;
      solve [injection E as _ <-; lia|eapply S; symmetry; exact E]. }
  rewrite length_skipn; cbn [length]; lia.
Qed.

(** What it reads of a script of bytes is bytes. *)
Lemma GetOp_bytes pc opcode data pc' : Forall u8 pc -> GetOp pc = Some (opcode, data, pc') ->
  u8 opcode /\ Forall u8 data /\ Forall u8 pc'.
Proof.
  intros H; unfold GetOp; destruct pc as [|o pc]; [discriminate|]; apply Forall_cons_iff in H as [Ho H].
  destruct (o <=? _); [|intros [= <- <- <-]; auto].
  destruct (if o <? _ then _ else _) as [[n pc1]|] eqn:E; [|discriminate].
  assert (H1 : Forall u8 pc1).
  { assert (S : forall k l, Some (n, pc1) = Some (l, skipn k pc) -> Forall u8 pc1)
      by (intros k l Ek; injection Ek as _ ->; apply Forall_split, H).
    repeat match type of E with context [if ?b then _ else _] => destruct b end; try discriminate E;
      solve [injection E as _ <-; exact H|eapply S; symmetry; exact E]. }
  destruct (_ <? n); [discriminate|]; intros Ek; injection Ek as <- <- <-.
  split; [exact Ho|apply Forall_split, H1].
Qed.

(** It leaves a suffix. *)
Lemma GetOp_suffix pc opcode data pc' : GetOp pc = Some (opcode, data, pc') ->
  exists p, pc = opcode :: p ++ pc'.
Proof.
  unfold GetOp; destruct pc as [|o pc]; [discriminate|].
  destruct (o <=? _); [|intros [= <- <- <-]; exists []; reflexivity].
  destruct (if o <? _ then _ else _) as [[n pc1]|] eqn:E; [|discriminate].
  assert (S : exists k, pc1 = skipn k pc).
  { assert (K : forall k l, Some (n, pc1) = Some (l, skipn k pc) -> exists k, pc1 = skipn k pc)
      by (intros k l Ek; injection Ek as _ ->; exists k; reflexivity).
    repeat match type of E with context [if ?b then _ else _] => destruct b end; try discriminate E;
      solve [injection E as _ <-; exists 0%nat; reflexivity|eapply K; symmetry; exact E]. }
  destruct S as [k ->]; destruct (_ <? n); [discriminate|]; intros Ek; injection Ek as <- <- <-.
  exists (firstn k pc ++ firstn (Z.to_nat n) (skipn k pc)); rewrite <- app_assoc, firstn_skipn, firstn_skipn; reflexivity.
Qed.

(** The push-only scan on a script that reads to its end. *)
Lemma push_only_reads pc l : reads pc l -> forall fuel, (length pc <= fuel)%nat ->
  push_only_loop fuel pc = forallb (fun '(opcode, _) => negb (opcode >? value OP_16)) l.
Proof.
  induction 1 as [|pc opcode data pc' l E _ IH]; intros fuel Hf; [destruct fuel; reflexivity|].
  pose proof (GetOp_shorter _ _ _ _ E); destruct pc as [|o pc]; [discriminate E|].
  destruct fuel as [|fuel]; [cbn in Hf; lia|].
  change (push_only_loop (S fuel) (o :: pc)) with
    (match GetOp (o :: pc) with None => false | Some (oc, _, p) => if oc >? value OP_16 then false else push_only_loop fuel p end).
  rewrite E; cbn [forallb]; rewrite IH by (cbn [length] in *; lia); destruct (opcode >? value OP_16); reflexivity.
Qed.

(** Scripts: whatever data and opcodes are appended to a script, reading
    it instruction by instruction gives them back in order, with the data
    pushed; the script is push-only exactly when no opcode was appended that
    is beyond the pushes. *)
Theorem script_build_read items :
  Forall writable items ->
  reads (fold_left emit items []) (map reported items) /\
  IsPushOnly (fold_left emit items []) = forallb (fun i => negb (fst (reported i) >? value OP_16)) items.
Proof.
  intros H.
  assert (R : reads (fold_left emit items []) (map reported items)).
  { induction H as [|i items Hi _ IH]; [constructor|]; cbn [fold_left map]; rewrite build_app.
    destruct (reported i) as [o d] eqn:E; econstructor; [|exact IH]; rewrite GetOp_emit, E by exact Hi; reflexivity. }
  split; [exact R|]; unfold IsPushOnly; rewrite (push_only_reads _ _ R _ (le_n _)).
  clear; induction items as [|i items IH]; [reflexivity|]; cbn [map forallb]; rewrite <- IH; destruct (reported i); reflexivity.
Qed.

Lemma script_build_read_witness :
  Forall writable [Data [1; 2; 3]; Opcode (value OP_DUP); Data []] /\
  reads (fold_left emit [Data [1; 2; 3]; Opcode (value OP_DUP); Data []] []) [(3, [1; 2; 3]); (0x76, []); (0, [])].
Proof.
  assert (H : Forall writable [Data [1; 2; 3]; Opcode (value OP_DUP); Data []])
    by (repeat constructor; cbn; lia).
  split; [exact H|apply (script_build_read _ H)].
Defined.

End Script.
