(* ===== verification/SigEncoding.v ===== *)
(** The encodings of signatures and public keys that scripts accept: the
    static functions at the head of [src/src/script/interpreter.cpp] and
    [CheckSignatureElement] of [src/src/eccryptoverify.cpp].

    The specification is the DER form the comments of the source describe: a
    sequence of two integers, minimal and positive, and a hash type byte. *)
From S2P Require Import Prelude SphTypes.

Module SigEncoding.

(** [ScriptError]. *)
Inductive ScriptError : Set :=
| SCRIPT_ERR_UNKNOWN_ERROR | SCRIPT_ERR_EVAL_FALSE | SCRIPT_ERR_OP_RETURN
| SCRIPT_ERR_SCRIPT_SIZE | SCRIPT_ERR_PUSH_SIZE | SCRIPT_ERR_OP_COUNT | SCRIPT_ERR_STACK_SIZE
| SCRIPT_ERR_SIG_COUNT | SCRIPT_ERR_PUBKEY_COUNT
| SCRIPT_ERR_VERIFY | SCRIPT_ERR_EQUALVERIFY | SCRIPT_ERR_CHECKMULTISIGVERIFY | SCRIPT_ERR_CHECKSIGVERIFY
| SCRIPT_ERR_NUMEQUALVERIFY
| SCRIPT_ERR_BAD_OPCODE | SCRIPT_ERR_DISABLED_OPCODE | SCRIPT_ERR_INVALID_STACK_OPERATION
| SCRIPT_ERR_INVALID_ALTSTACK_OPERATION | SCRIPT_ERR_UNBALANCED_CONDITIONAL
| SCRIPT_ERR_SIG_HASHTYPE | SCRIPT_ERR_SIG_DER | SCRIPT_ERR_MINIMALDATA | SCRIPT_ERR_SIG_PUSHONLY
| SCRIPT_ERR_SIG_HIGH_S | SCRIPT_ERR_SIG_NULLDUMMY | SCRIPT_ERR_PUBKEYTYPE
| SCRIPT_ERR_DISCOURAGE_UPGRADABLE_NOPS.

(** The verification flags; [flags & X]. *)
Definition SCRIPT_VERIFY_P2SH : Z := 1 << 0.
Definition SCRIPT_VERIFY_STRICTENC : Z := 1 << 1.
Definition SCRIPT_VERIFY_DERSIG : Z := 1 << 2.
Definition SCRIPT_VERIFY_LOW_S : Z := 1 << 3.
Definition SCRIPT_VERIFY_NULLDUMMY : Z := 1 << 4.
Definition SCRIPT_VERIFY_SIGPUSHONLY : Z := 1 << 5.
Definition SCRIPT_VERIFY_MINIMALDATA : Z := 1 << 6.
Definition SCRIPT_VERIFY_DISCOURAGE_UPGRADABLE_NOPS : Z := 1 << 7.

Definition flag (flags x : Z) : bool := negb (flags .& x =? 0).

(** ** [eccryptoverify.cpp] *)

(** The leading [while (c1len > c2len)]: [None] when the loop ends, [Some] of
    the returned value otherwise. *)
Fixpoint skip_excess (n : nat) (c : list Z) (r : Z) : Z + list Z :=
  match n with
  | O => inr c
  | S n => match c with
           | x :: c => if negb (x =? 0) then inl r else skip_excess n c r
           | [] => inr []
           end
  end.

Fixpoint compare_equal (c1 c2 : list Z) : Z :=
  match c1, c2 with
  | x :: c1, y :: c2 => if x >? y then 1 else if y >? x then -1 else compare_equal c1 c2
  | _, _ => 0
  end.

Definition CompareBigEndian (c1 c2 : list Z) : Z :=
  match skip_excess (length c1 - length c2) c1 1 with
  | inl r => r
  | inr c1 =>
      match skip_excess (length c2 - length c1) c2 (-1) with
      | inl r => r
      | inr c2 => compare_equal c1 c2
      end
  end.

Definition vchMaxModOrder : list Z :=
  [0xFF; 0xFF; 0xFF; 0xFF; 0xFF; 0xFF; 0xFF; 0xFF; 0xFF; 0xFF; 0xFF; 0xFF; 0xFF; 0xFF; 0xFF; 0xFE;
   0xBA; 0xAE; 0xDC; 0xE6; 0xAF; 0x48; 0xA0; 0x3B; 0xBF; 0xD2; 0x5E; 0x8C; 0xD0; 0x36; 0x41; 0x40].

Definition vchMaxModHalfOrder : list Z :=
  [0x7F; 0xFF; 0xFF; 0xFF; 0xFF; 0xFF; 0xFF; 0xFF; 0xFF; 0xFF; 0xFF; 0xFF; 0xFF; 0xFF; 0xFF; 0xFF;
   0x5D; 0x57; 0x6E; 0x73; 0x57; 0xA4; 0x50; 0x1D; 0xDF; 0xE9; 0x2F; 0x46; 0x68; 0x1B; 0x20; 0xA0].

Definition CheckSignatureElement (vch : list Z) (half : bool) : bool :=
  (CompareBigEndian vch [] >? 0) &&
  (CompareBigEndian vch (if half then vchMaxModHalfOrder else vchMaxModOrder) <=? 0).

(** ** Encodings *)

Definition IsCompressedOrUncompressedPubKey (vchPubKey : list Z) : bool :=
  if (length vchPubKey <? 33)%nat then false
  else if vchPubKey.[0] =? 0x04 then (length vchPubKey =? 65)%nat
  else if (vchPubKey.[0] =? 0x02) || (vchPubKey.[0] =? 0x03) then (length vchPubKey =? 33)%nat
  else false.

Definition IsValidSignatureEncoding (sig : list Z) : bool :=
  if (length sig <? 9)%nat then false
  else if (73 <? length sig)%nat then false
  else if negb (sig.[0] =? 0x30) then false
  else if negb (sig.[1] =? Z.of_nat (length sig) - 3) then false
  else
    let lenR := Z.to_nat sig.[3] in
    if (length sig <=? 5 + lenR)%nat then false
    else
      let lenS := Z.to_nat sig.[5 + lenR] in
      if negb (lenR + lenS + 7 =? length sig)%nat then false
      else if negb (sig.[2] =? 0x02) then false
      else if (lenR =? 0)%nat then false
      else if negb (sig.[4] .& 0x80 =? 0) then false
      else if (1 <? lenR)%nat && (sig.[4] =? 0x00) && (sig.[5] .& 0x80 =? 0) then false
      else if negb (sig.[lenR + 4] =? 0x02) then false
      else if (lenS =? 0)%nat then false
      else if negb (sig.[lenR + 6] .& 0x80 =? 0) then false
      else if (1 <? lenS)%nat && (sig.[lenR + 6] =? 0x00) && (sig.[lenR + 7] .& 0x80 =? 0) then false
      else true.

(** [None] is success, [Some] the error set before returning [false]. *)
Definition IsLowDERSignature (vchSig : list Z) : option ScriptError :=
  if negb (IsValidSignatureEncoding vchSig) then Some SCRIPT_ERR_SIG_DER
  else
    let nLenR := Z.to_nat vchSig.[3] in
    let nLenS := Z.to_nat vchSig.[5 + nLenR] in
    let S := firstn nLenS (skipn (6 + nLenR) vchSig) in
    if negb (CheckSignatureElement S true) then Some SCRIPT_ERR_SIG_HIGH_S else None.

Definition IsDefinedHashtypeSignature (vchSig : list Z) : bool :=
  if (length vchSig =? 0)%nat then false
  else
    let nHashType := vchSig.[length vchSig - 1] .& (0xFF ⊕ 0x80) in
    negb ((nHashType <? 1) || (nHashType >? 3)).

Definition CheckSignatureEncoding (vchSig : list Z) (flags : Z) : option ScriptError :=
  if (length vchSig =? 0)%nat then None
  else if (flag flags (SCRIPT_VERIFY_DERSIG .| SCRIPT_VERIFY_LOW_S .| SCRIPT_VERIFY_STRICTENC)) &&
          negb (IsValidSignatureEncoding vchSig)
  then Some SCRIPT_ERR_SIG_DER
  else
    match (if flag flags SCRIPT_VERIFY_LOW_S then IsLowDERSignature vchSig else None) with
    | Some e => Some e
    | None =>
        if flag flags SCRIPT_VERIFY_STRICTENC && negb (IsDefinedHashtypeSignature vchSig)
        then Some SCRIPT_ERR_SIG_HASHTYPE else None
    end.

Definition CheckPubKeyEncoding (vchPubKey : list Z) (flags : Z) : option ScriptError :=
  if flag flags SCRIPT_VERIFY_STRICTENC && negb (IsCompressedOrUncompressedPubKey vchPubKey)
  then Some SCRIPT_ERR_PUBKEYTYPE else None.

(** ** Comparing big-endian numbers *)

Definition be_val (c : list Z) : Z := le_val (rev c).

Lemma be_val_cons x c : be_val (x :: c) = 2 ^ (8 * Z.of_nat (length c)) * x + be_val c.
Proof.
  unfold be_val; cbn [rev].
  rewrite le_val_app, length_rev; cbn [le_val]; ring.
Qed.

Lemma be_val_bound c : Forall u8 c -> 0 <= be_val c < 2 ^ (8 * Z.of_nat (length c)).
Proof. intros H; unfold be_val; rewrite <- length_rev; apply le_val_bound, Forall_rev, H. Qed.

Lemma skip_excess_spec n r : forall c, Forall u8 c -> (n <= length c)%nat ->
  (exists c', skip_excess n c r = inr c' /\ Forall u8 c' /\ length c' = (length c - n)%nat /\ be_val c' = be_val c) \/
  (skip_excess n c r = inl r /\ 2 ^ (8 * Z.of_nat (length c - n)) <= be_val c).
Proof.
  induction n as [|n IH]; intros c Hu Hn; cbn [skip_excess].
  { left; exists c; rewrite Nat.sub_0_r; auto. }
  destruct c as [|x c]; [cbn in Hn; lia|]; inversion Hu as [|? ? Hx Hu']; subst; cbn [length] in *.
  destruct (Z.eqb_spec x 0) as [->|Hx0]; cbn [negb].
  - destruct (IH c Hu' ltac:(lia)) as [(c' & E & U & L & V)|(E & V)].
    + left; exists c'; rewrite be_val_cons, Z.mul_0_r; repeat split; auto.
    + right; rewrite be_val_cons, Z.mul_0_r; split; assumption.
  - right; split; [reflexivity|]; rewrite be_val_cons; pose proof (be_val_bound c Hu'); unfold u8 in Hx.
    assert (2 ^ (8 * Z.of_nat (S (length c) - S n)) <= 2 ^ (8 * Z.of_nat (length c))) by (apply Z.pow_le_mono_r; lia); nia.
Qed.

Lemma skip_excess_0 c r : skip_excess 0 c r = inr c.
Proof. reflexivity. Qed.

Lemma compare_equal_spec c1 : forall c2, Forall u8 c1 -> Forall u8 c2 -> length c1 = length c2 ->
  compare_equal c1 c2 = Z.sgn (be_val c1 - be_val c2).
Proof.
  induction c1 as [|x c1 IH]; intros [|y c2] H1 H2 L; try discriminate L; [reflexivity|].
  inversion H1 as [|? ? Hx H1']; inversion H2 as [|? ? Hy H2']; subst; cbn [length] in L; injection L as L.
  pose proof (be_val_bound c1 H1') as B1; pose proof (be_val_bound c2 H2') as B2.
  cbn [compare_equal]; rewrite !be_val_cons; rewrite L in B1 |- *; set (p := 2 ^ (8 * Z.of_nat (length c2))) in *.
  destruct (Z.gtb_spec x y) as [G|G]; [symmetry; apply Z.sgn_pos; nia|].
  destruct (Z.gtb_spec y x) as [G'|G']; [symmetry; apply Z.sgn_neg; nia|].
  assert (x = y) by lia; subst y; rewrite IH by assumption; f_equal; lia.
Qed.

Lemma CompareBigEndian_spec c1 c2 : Forall u8 c1 -> Forall u8 c2 ->
  CompareBigEndian c1 c2 = Z.sgn (be_val c1 - be_val c2).
Proof.
  intros H1 H2; unfold CompareBigEndian; pose proof (be_val_bound c1 H1) as B1; pose proof (be_val_bound c2 H2) as B2.
  destruct (skip_excess_spec (length c1 - length c2) 1 c1 H1 ltac:(lia)) as [(d & E & U & L & V)|(E & V)]; rewrite E.
  - destruct (skip_excess_spec (length c2 - length d) (-1) c2 H2 ltac:(lia)) as [(f & E' & U' & L' & V')|(E' & V')]; rewrite E'.
    + rewrite compare_equal_spec, V, V' by (assumption || lia); reflexivity.
    + symmetry; apply Z.sgn_neg; rewrite <- V; pose proof (be_val_bound d U).
      replace (length c2 - (length c2 - length d))%nat with (length d) in V' by lia; lia.
  - symmetry; apply Z.sgn_pos; replace (length c1 - (length c1 - length c2))%nat with (Nat.min (length c1) (length c2)) in V by lia.
    destruct (Nat.le_ge_cases (length c2) (length c1)) as [C|C].
    + rewrite Nat.min_r in V by lia; lia.
    + replace (length c1 - length c2)%nat with 0%nat in E by lia; discriminate E.
Qed.

(** ** DER *)

(** A minimal positive integer: its first bit is clear, and there is no first
    zero byte the second does not need. *)
Definition positive (c : list Z) : bool :=
  negb (length c =? 0)%nat && (c.[0] .& 0x80 =? 0) &&
  negb ((1 <? length c)%nat && (c.[0] =? 0x00) && (c.[1] .& 0x80 =? 0)).

(** 0x30 [total-length] 0x02 [R-length] [R] 0x02 [S-length] [S] [sighash] *)
Definition der (R S : list Z) (hashtype : Z) : list Z :=
  [0x30; 4 + Z.of_nat (length R) + Z.of_nat (length S); 0x02; Z.of_nat (length R)] ++ R ++
  [0x02; Z.of_nat (length S)] ++ S ++ [hashtype].

(** The checks on a string cut at the lengths it holds. *)
Lemma encoding_form b0 b1 b2 R b4 S ht :
  let sig := [b0; b1; b2; Z.of_nat (length R)] ++ R ++ [b4; Z.of_nat (length S)] ++ S ++ [ht] in
  IsValidSignatureEncoding sig = true <->
  b0 = 0x30 /\ b1 = 4 + Z.of_nat (length R) + Z.of_nat (length S) /\ b2 = 0x02 /\ b4 = 0x02 /\
  positive R = true /\ positive S = true /\ (length R + length S <= 66)%nat.
Proof.
  intros sig; assert (L : length sig = (7 + length R + length S)%nat)
    by (unfold sig; rewrite !length_app; cbn [length]; lia).
  assert (G : forall k, sig.[4 + k] = (R ++ [b4; Z.of_nat (length S)] ++ S ++ [ht]).[k]) by reflexivity.
  assert (GR : forall k, (k < length R)%nat -> sig.[4 + k] = R.[k]) by (intros k Hk; rewrite G; apply get_app_l, Hk).
  assert (GS : forall k, sig.[k + (4 + length R)] = ([b4; Z.of_nat (length S)] ++ S ++ [ht]).[k]).
  { intros k; replace (k + (4 + length R))%nat with (4 + (length R + k))%nat by lia.
    rewrite G, get_app_r, Nat.add_comm, Nat.add_sub by lia; reflexivity. }
  assert (GS' : forall k, (k < length S)%nat -> sig.[length R + (6 + k)] = S.[k]).
  { intros k Hk; replace (length R + (6 + k))%nat with ((2 + k) + (4 + length R))%nat by lia; rewrite GS.
    change (([b4; Z.of_nat (length S)] ++ S ++ [ht]).[2 + k]) with ((S ++ [ht]).[k]); apply get_app_l, Hk. }
  pose proof (GS 0%nat) as G4; pose proof (GS 1%nat) as G5.
  change (([b4; Z.of_nat (length S)] ++ S ++ [ht]).[0]) with b4 in G4.
  change (([b4; Z.of_nat (length S)] ++ S ++ [ht]).[1]) with (Z.of_nat (length S)) in G5.
  unfold IsValidSignatureEncoding; rewrite L; change sig.[0] with b0; change sig.[1] with b1; change sig.[2] with b2.
  change sig.[3] with (Z.of_nat (length R)); rewrite Nat2Z.id.
  replace (5 + length R)%nat with (1 + (4 + length R))%nat by lia; rewrite G5, Nat2Z.id.
  replace (length R + 4)%nat with (0 + (4 + length R))%nat by lia; rewrite G4.
  unfold positive; destruct (Nat.eqb_spec (length R) 0) as [ER|ER]; cbn [negb andb].
  { split; [intros H|intuition discriminate].
    repeat match type of H with context [if ?b then _ else _] => destruct b; try discriminate H end. }
  destruct (Nat.eqb_spec (length S) 0) as [ES|ES]; cbn [negb andb].
  { split; [intros H|intuition discriminate].
    repeat match type of H with context [if ?b then _ else _] => destruct b; try discriminate H end. }
  change sig.[4] with (sig.[4 + 0]); rewrite (GR 0%nat) by lia.
  replace (length R + 6)%nat with (length R + (6 + 0))%nat by lia; rewrite (GS' 0%nat) by lia.
  assert (E1 : (1 <? length R)%nat && (R.[0] =? 0x00) && (sig.[5] .& 0x80 =? 0)
               = (1 <? length R)%nat && (R.[0] =? 0x00) && (R.[1] .& 0x80 =? 0)).
  { destruct (Nat.ltb_spec 1 (length R)); [|reflexivity]; change sig.[5] with (sig.[4 + 1]); rewrite (GR 1%nat) by lia; reflexivity. }
  assert (E2 : (1 <? length S)%nat && (S.[0] =? 0x00) && (sig.[length R + 7] .& 0x80 =? 0)
               = (1 <? length S)%nat && (S.[0] =? 0x00) && (S.[1] .& 0x80 =? 0)).
  { destruct (Nat.ltb_spec 1 (length S)); [|reflexivity].
    replace (length R + 7)%nat with (length R + (6 + 1))%nat by lia; rewrite (GS' 1%nat) by lia; reflexivity. }
  rewrite E1, E2; clear - ER ES.
  set (p1 := _ && _ && (R.[1] .& 0x80 =? 0)); set (p2 := _ && _ && (S.[1] .& 0x80 =? 0)).
  destruct (Nat.ltb_spec (7 + length R + length S) 9); [lia|].
  destruct (Nat.ltb_spec 73 (7 + length R + length S)); [split; [discriminate|lia]|].
  destruct (Z.eqb_spec b0 0x30), (Z.eqb_spec b1 (Z.of_nat (7 + length R + length S) - 3)),
    (Z.eqb_spec b2 0x02), (Z.eqb_spec b4 0x02); cbn [negb];
    destruct (Nat.leb_spec (7 + length R + length S) (1 + (4 + length R))), (Nat.eqb_spec (length R + length S + 7) (7 + length R + length S));
    try lia;
    destruct (R.[0] .& 0x80 =? 0), p1, (S.[0] .& 0x80 =? 0), p2; cbn [negb andb];
    (split; [intros; try discriminate|]); repeat split; try assumption; try lia; intuition (try discriminate; try lia).
Qed.

(** The lengths a valid string passes cut it into its fields. *)
Lemma encoding_cut sig : Forall u8 sig -> IsValidSignatureEncoding sig = true ->
  exists b0 b1 b2 R b4 S ht, sig = [b0; b1; b2; Z.of_nat (length R)] ++ R ++ [b4; Z.of_nat (length S)] ++ S ++ [ht].
Proof.
  intros Hu H; destruct sig as [|b0 [|b1 [|b2 [|b3 rest]]]]; try discriminate H.
  assert (U3 : u8 b3) by (do 3 (inversion Hu as [|? ? _ Hu0]; subst; clear Hu; rename Hu0 into Hu); inversion Hu; assumption).
  assert (Ur : Forall u8 rest) by (do 4 (inversion Hu as [|? ? _ Hu0]; subst; clear Hu; rename Hu0 into Hu); exact Hu).
  set (lenR := Z.to_nat b3); assert (E3 : b3 = Z.of_nat lenR) by (unfold lenR, u8 in *; lia).
  unfold IsValidSignatureEncoding in H; cbn [length] in H; change ((b0 :: b1 :: b2 :: b3 :: rest).[3]) with b3 in H; fold lenR in H.
  change ((b0 :: b1 :: b2 :: b3 :: rest).[5 + lenR]) with (rest.[1 + lenR]) in H; set (lenS := Z.to_nat rest.[1 + lenR]) in H.
  repeat match type of H with (if ?b then _ else _) = true =>
    let E := fresh "E" in destruct b eqn:E; try discriminate H end; clear H.
  apply Nat.leb_gt in E4; apply negb_false_iff, Nat.eqb_eq in E5.
  assert (L2 : length (skipn lenR rest) = (lenS + 3)%nat) by (rewrite length_skipn; lia).
  destruct (skipn lenR rest) as [|b4 [|b5 rest3]] eqn:Q2; cbn [length] in L2; try lia.
  assert (B5 : b5 = Z.of_nat lenS).
  { assert (b5 = rest.[1 + lenR]) by (rewrite Nat.add_comm, <- get_skipn, Q2; reflexivity).
    assert (u8 b5); [|unfold lenS, u8 in *; subst b5; lia].
    apply (Forall_split _ lenR) in Ur as [_ Ur]; rewrite Q2 in Ur; inversion Ur as [|? ? _ Ur']; inversion Ur'; assumption. }
  destruct (skipn lenS rest3) as [|ht [|x y]] eqn:Q7;
    pose proof (f_equal (@length Z) Q7) as L7; rewrite length_skipn in L7; cbn [length] in L7; try lia.
  exists b0, b1, b2, (firstn lenR rest), b4, (firstn lenS rest3), ht; rewrite !length_firstn, !Nat.min_l by lia.
  rewrite <- (firstn_skipn lenR rest) at 1; rewrite Q2, E3, B5, <- (firstn_skipn lenS rest3) at 1; rewrite Q7; reflexivity.
Qed.

(** The DER form of two minimal positive integers with a hash type. *)
Definition is_der (sig : list Z) : Prop :=
  exists R S ht, sig = der R S ht /\ positive R = true /\ positive S = true /\ (length R + length S <= 66)%nat.

(** The low half of the values of S. *)
Definition low_s (S : list Z) : bool := (0 <? be_val S) && (be_val S <=? be_val vchMaxModOrder / 2).

(** [SIGHASH_ALL], [SIGHASH_NONE] and [SIGHASH_SINGLE], and the same with
    [SIGHASH_ANYONECANPAY]. *)
Definition hash_types : list Z := [1; 2; 3; 0x81; 0x82; 0x83].

Lemma der_encoding sig :
  Forall u8 sig ->
  (IsValidSignatureEncoding sig = true <-> is_der sig) /\
  (forall R S ht, sig = der R S ht -> IsValidSignatureEncoding sig = true ->
   IsLowDERSignature sig = if low_s S then None else Some SCRIPT_ERR_SIG_HIGH_S).
Proof.
  intros Hu; split; [split|].
  - intros H; destruct (encoding_cut sig Hu H) as (b0 & b1 & b2 & R & b4 & S & ht & ->).
    apply encoding_form in H as (-> & -> & -> & -> & HR & HS & HL); exists R, S, ht; repeat (split; [assumption || reflexivity|]); assumption.
  - intros (R & S & ht & -> & HR & HS & HL); apply encoding_form; repeat (split; [assumption || reflexivity|]); assumption.
  - intros R S ht -> H; unfold IsLowDERSignature; rewrite H; cbn [negb].
    change (der R S ht).[3] with (Z.of_nat (length R)); rewrite Nat2Z.id.
    assert (D : skipn (4 + length R) (der R S ht) = [0x02; Z.of_nat (length S)] ++ S ++ [ht])
      by (unfold der; change (skipn (length R) (R ++ [2; Z.of_nat (length S)] ++ S ++ [ht]) = [2; Z.of_nat (length S)] ++ S ++ [ht]);
          rewrite skipn_app, skipn_all, Nat.sub_diag; reflexivity).
    assert (G : (der R S ht).[5 + length R] = Z.of_nat (length S))
      by (replace (5 + length R)%nat with (4 + length R + 1)%nat by lia; rewrite <- get_skipn, D; reflexivity).
    assert (K : skipn (6 + length R) (der R S ht) = S ++ [ht])
      by (replace (6 + length R)%nat with (2 + (4 + length R))%nat by lia; rewrite <- skipn_skipn, D; reflexivity).
    rewrite G, Nat2Z.id, K, firstn_app, firstn_all, Nat.sub_diag, firstn_O, app_nil_r.
    assert (US : Forall u8 S).
    { unfold der in Hu; apply Forall_app in Hu as [_ Hu]; apply Forall_app in Hu as [_ Hu].
      apply Forall_app in Hu as [_ Hu]; apply Forall_app in Hu as [Hu _]; exact Hu. }
    assert (UH : Forall u8 vchMaxModHalfOrder) by (repeat constructor; unfold u8; lia).
    unfold CheckSignatureElement; rewrite !CompareBigEndian_spec by (assumption || constructor).
    change (be_val []) with 0.
    unfold low_s; change (be_val vchMaxModOrder / 2) with (be_val vchMaxModHalfOrder).
    destruct (Z.gtb_spec (Z.sgn (be_val S - 0)) 0), (Z.leb_spec (Z.sgn (be_val S - be_val vchMaxModHalfOrder)) 0),
      (Z.ltb_spec 0 (be_val S)), (Z.leb_spec (be_val S) (be_val vchMaxModHalfOrder)); cbn [negb andb]; try reflexivity; lia.
Qed.

Lemma flag_lor flags x y : flag flags (x .| y) = flag flags x || flag flags y.
Proof.
  unfold flag; rewrite Z.land_lor_distr_r; destruct (Z.eqb_spec (flags .& x) 0) as [E1|E1], (Z.eqb_spec (flags .& y) 0) as [E2|E2]; cbn [negb orb].
  - rewrite E1, E2; reflexivity.
  - rewrite E1, Z.lor_0_l; destruct (Z.eqb_spec (flags .& y) 0); [contradiction|reflexivity].
  - destruct (Z.eqb_spec (flags .& x .| flags .& y) 0) as [E|]; [apply Z.lor_eq_0_iff in E; tauto|reflexivity].
  - destruct (Z.eqb_spec (flags .& x .| flags .& y) 0) as [E|]; [apply Z.lor_eq_0_iff in E; tauto|reflexivity].
Qed.

Lemma hashtype_defined R S ht : u8 ht -> IsDefinedHashtypeSignature (der R S ht) = existsb (Z.eqb ht) hash_types.
Proof.
  intros Hu; unfold IsDefinedHashtypeSignature; set (pre := [0x30; 4 + Z.of_nat (length R) + Z.of_nat (length S); 0x02; Z.of_nat (length R)] ++ R ++
    [0x02; Z.of_nat (length S)] ++ S).
  assert (E : der R S ht = pre ++ [ht]) by (unfold pre, der; rewrite <- !app_assoc; reflexivity).
  rewrite E, length_app; cbn [length]; rewrite Nat.add_sub, get_app_r, Nat.sub_diag by lia; change ([ht].[0]) with ht.
  destruct (Nat.eqb_spec (length pre + 1) 0); [lia|]; change (0xFF ⊕ 0x80) with (Z.ones 7); rewrite Z.land_ones by lia; change (2 ^ 7) with 128.
  unfold u8 in Hu; assert (D : ht mod 128 = if ht <? 128 then ht else ht - 128).
  { destruct (Z.ltb_spec ht 128); [apply Z.mod_small; lia|symmetry; apply (Z.mod_unique _ _ 1); lia]. }
  rewrite D, Z.gtb_ltb; unfold hash_types; cbn [existsb]; destruct (Z.ltb_spec ht 128);
    destruct (Z.eqb_spec ht 1), (Z.eqb_spec ht 2), (Z.eqb_spec ht 3), (Z.eqb_spec ht 0x81), (Z.eqb_spec ht 0x82), (Z.eqb_spec ht 0x83);
    try lia; cbn [orb]; try (subst ht; reflexivity).
  all: repeat match goal with |- context [?a <? ?b] => destruct (Z.ltb_spec a b) end; reflexivity || lia.
Qed.

(** C30: the encodings of signatures.  A string passes the check of BIP66
    exactly when it is the DER form of two minimal positive integers followed
    by a hash type byte, 73 bytes at most.  [CheckSignatureEncoding] lets the
    empty string pass, and every string when none of [DERSIG], [LOW_S] and
    [STRICTENC] is set; with one of them it refuses, as [SIG_DER], exactly
    the other strings that are not of that form.  Of those that are, [LOW_S]
    refuses, as [SIG_HIGH_S], exactly an S that is not between 1 and half the
    order of the curve, and [STRICTENC] then, as [SIG_HASHTYPE], exactly a
    hash type that is none of the six defined ones. *)
Theorem signature_encoding sig flags :
  Forall u8 sig ->
  let DERSIG := flag flags SCRIPT_VERIFY_DERSIG in
  let LOW_S := flag flags SCRIPT_VERIFY_LOW_S in
  let STRICTENC := flag flags SCRIPT_VERIFY_STRICTENC in
  (IsValidSignatureEncoding sig = true <-> is_der sig) /\
  (sig = [] -> CheckSignatureEncoding sig flags = None) /\
  (DERSIG || LOW_S || STRICTENC = false -> CheckSignatureEncoding sig flags = None) /\
  (CheckSignatureEncoding sig flags = Some SCRIPT_ERR_SIG_DER <-> sig <> [] /\ DERSIG || LOW_S || STRICTENC = true /\ ~ is_der sig) /\
  (forall R S ht, sig = der R S ht -> is_der sig ->
   CheckSignatureEncoding sig flags =
     if LOW_S && negb (low_s S) then Some SCRIPT_ERR_SIG_HIGH_S
     else if STRICTENC && negb (existsb (Z.eqb ht) hash_types) then Some SCRIPT_ERR_SIG_HASHTYPE
     else None).
Proof.
  intros Hu DERSIG LOW_S STRICTENC; destruct (der_encoding sig Hu) as [Hv Hl].
  assert (EF : flag flags (SCRIPT_VERIFY_DERSIG .| SCRIPT_VERIFY_LOW_S .| SCRIPT_VERIFY_STRICTENC) = DERSIG || LOW_S || STRICTENC)
    by (rewrite !flag_lor; reflexivity).
  assert (Hd : forall R S ht, sig = der R S ht -> is_der sig ->
   CheckSignatureEncoding sig flags =
     if LOW_S && negb (low_s S) then Some SCRIPT_ERR_SIG_HIGH_S
     else if STRICTENC && negb (existsb (Z.eqb ht) hash_types) then Some SCRIPT_ERR_SIG_HASHTYPE else None).
  { intros R S ht Es Hder; pose proof (proj2 Hv Hder) as V; unfold CheckSignatureEncoding; rewrite V, andb_false_r.
    fold LOW_S STRICTENC; rewrite (Hl R S ht Es V).
    assert (Uh : u8 ht) by (rewrite Es in Hu; unfold der in Hu; rewrite !Forall_app in Hu; destruct Hu as (_ & _ & _ & _ & Hu); inversion Hu; assumption).
    assert (HT : IsDefinedHashtypeSignature sig = existsb (Z.eqb ht) hash_types) by (rewrite Es; apply hashtype_defined, Uh); rewrite HT.
    destruct (Nat.eqb_spec (length sig) 0) as [L|]; [rewrite Es in L; discriminate L|].
    destruct LOW_S; cbn [andb]; [destruct (low_s S); reflexivity|reflexivity]. }
  split; [exact Hv|]; split; [intros ->; reflexivity|]; split; [|split; [|exact Hd]].
  - intros HF; rewrite HF in EF; apply orb_false_iff in HF as [HF HS]; apply orb_false_iff in HF as [_ HL].
    unfold CheckSignatureEncoding; fold LOW_S STRICTENC; rewrite EF, HL, HS; destruct (_ =? _)%nat; reflexivity.
  - destruct (IsValidSignatureEncoding sig) eqn:V.
    + pose proof (proj1 Hv eq_refl) as Hder; destruct Hder as (R & S & ht & Es & Hr); split.
      * intros C; rewrite (Hd R S ht Es) in C by (exists R, S, ht; exact (conj Es Hr)).
        destruct (LOW_S && _); [discriminate C|]; destruct (STRICTENC && _); discriminate C.
      * intros (_ & _ & Hn); destruct Hn; exists R, S, ht; exact (conj Es Hr).
    + assert (Hn : ~ is_der sig) by (intros Hder; apply (proj2 Hv) in Hder; discriminate Hder).
      unfold CheckSignatureEncoding, IsLowDERSignature; fold LOW_S STRICTENC; rewrite V, EF; cbn [negb]; rewrite andb_true_r.
      destruct sig as [|x l]; [split; [discriminate|intros [H _]; destruct H; reflexivity]|]; cbn [length Nat.eqb].
      destruct DERSIG, LOW_S, STRICTENC; cbn [orb andb]; split; intros H; try discriminate H; try reflexivity;
        try (split; [discriminate|split; [reflexivity|exact Hn]]); destruct H as (_ & H & _); discriminate H.
Qed.

(** A signature with a high S and one with an undefined hash type. *)
Lemma signature_encoding_witness :
  Forall u8 (der [1] [2] 1) /\ is_der (der [1] [2] 1) /\
  CheckSignatureEncoding (der [1] [2] 1) (SCRIPT_VERIFY_LOW_S .| SCRIPT_VERIFY_STRICTENC) = None /\
  CheckSignatureEncoding (der [1] (0 :: vchMaxModOrder) 1) SCRIPT_VERIFY_LOW_S = Some SCRIPT_ERR_SIG_HIGH_S /\
  CheckSignatureEncoding (der [1] [2] 4) SCRIPT_VERIFY_STRICTENC = Some SCRIPT_ERR_SIG_HASHTYPE.
Proof.
  assert (H : forall S ht, Forall u8 (der [1] S ht) -> IsValidSignatureEncoding (der [1] S ht) = true -> forall flags,
    is_der (der [1] S ht) /\ CheckSignatureEncoding (der [1] S ht) flags =
      if flag flags SCRIPT_VERIFY_LOW_S && negb (low_s S) then Some SCRIPT_ERR_SIG_HIGH_S
      else if flag flags SCRIPT_VERIFY_STRICTENC && negb (existsb (Z.eqb ht) hash_types) then Some SCRIPT_ERR_SIG_HASHTYPE else None).
  { intros S ht Hu V flags; destruct (signature_encoding (der [1] S ht) flags Hu) as (Hv & _ & _ & _ & Hd).
    split; [apply Hv; exact V|apply (Hd [1] S ht eq_refl), Hv; exact V]. }
  assert (U1 : Forall u8 (der [1] [2] 1)) by (repeat constructor; unfold u8; lia).
  assert (U2 : Forall u8 (der [1] (0 :: vchMaxModOrder) 1)) by (repeat constructor; unfold u8; lia).
  assert (U3 : Forall u8 (der [1] [2] 4)) by (repeat constructor; unfold u8; lia).
  split; [exact U1|]; split; [apply (H [2] 1 U1 eq_refl 0)|].
  split; [etransitivity; [apply (H [2] 1 U1 eq_refl)|reflexivity]|].
  split; [etransitivity; [apply (H _ 1 U2 eq_refl)|reflexivity]|].
  etransitivity; [apply (H [2] 4 U3 eq_refl)|reflexivity].
Defined.

End SigEncoding.
