(* ===== verification/Standard.v ===== *)
(** Standard scripts: [src/src/script/standard.cpp], with the parts of
    [CPubKey] ([src/src/pubkey.h]) it uses.

    A 160-bit identifier is the list of its 20 bytes, in the order they have
    in scripts.  A [CPubKey] is the content of its array up to the length its
    first byte tells; the invalid key is the single byte 0xFF. *)
From S2P Require Import Prelude SphTypes HashStream Sha256 Ripemd160 Script.
Import Script.

Module Standard.

(** ** Public keys *)

Definition GetLen (chHeader : Z) : nat :=
  if (chHeader =? 2) || (chHeader =? 3) then 33
  else if (chHeader =? 4) || (chHeader =? 6) || (chHeader =? 7) then 65
  else 0.

Definition Invalid : list Z := [0xFF].

(** [Set], which the constructors call. *)
Definition CPubKey (bytes : list Z) : list Z :=
  let len := match bytes with [] => 0%nat | b :: _ => GetLen b end in
  if negb (len =? 0)%nat && (len =? length bytes)%nat then bytes else Invalid.

Definition key_size (vch : list Z) : nat := GetLen vch.[0].
Definition IsValid (vch : list Z) : bool := (0 <? key_size vch)%nat.
Definition key_bytes (vch : list Z) : list Z := firstn (key_size vch) vch.
Definition GetID (vch : list Z) : list Z := Ripemd160.Hash160 (key_bytes vch).

(** ** Script types *)

Inductive txnouttype : Set :=
| TX_NONSTANDARD | TX_PUBKEY | TX_PUBKEYHASH | TX_SCRIPTHASH | TX_MULTISIG | TX_NULL_DATA | TX_ZEROCOINMINT.

Inductive CTxDestination : Set :=
| CNoDestination
| CKeyID (id : list Z)
| CScriptID (id : list Z).

Definition push_ops (script : list Z) (ops : list opcodetype) : list Z := fold_left push_opcode ops script.

(** The multimap, in the order of its keys. *)
Definition mTemplates : list (txnouttype * list Z) :=
  [(TX_PUBKEY, push_ops [] [OP_PUBKEY; OP_CHECKSIG]);
   (TX_PUBKEYHASH, push_ops [] [OP_DUP; OP_HASH160; OP_PUBKEYHASH; OP_EQUALVERIFY; OP_CHECKSIG]);
   (TX_MULTISIG, push_ops [] [OP_SMALLINTEGER; OP_PUBKEYS; OP_SMALLINTEGER; OP_CHECKMULTISIG])].

Definition key_sized (vch : list Z) : bool := (33 <=? length vch)%nat && (length vch <=? 65)%nat.

(** The [while] under [OP_PUBKEYS].  A [GetOp] that fails leaves
    [OP_INVALIDOPCODE] and no data. *)
Fixpoint pubkeys_loop (fuel : nat) (opcode1 : Z) (vch1 pc1 : list Z) (sols : list (list Z))
  : Z * list Z * list Z * list (list Z) :=
  if key_sized vch1 then
    let sols := sols ++ [vch1] in
    match fuel, GetOp pc1 with
    | S fuel, Some (opcode1, vch1, pc1) => pubkeys_loop fuel opcode1 vch1 pc1 sols
    | _, _ => (value OP_INVALIDOPCODE, [], [], sols)
    end
  else (opcode1, vch1, pc1, sols).

(** One template opcode against one instruction: the solutions, or a break. *)
Definition match_op (opcode2 : Z) (vch2 : list Z) (opcode1 : Z) (vch1 : list Z) (sols : list (list Z)) : option (list (list Z)) :=
  if opcode2 =? value OP_PUBKEY then
    if negb (key_sized vch1) then None else Some (sols ++ [vch1])
  else if opcode2 =? value OP_PUBKEYHASH then
    if negb (length vch1 =? 20)%nat then None else Some (sols ++ [vch1])
  else if opcode2 =? value OP_SMALLINTEGER then
    if (opcode1 =? value OP_0) || ((opcode1 >=? value OP_1) && (opcode1 <=? value OP_16))
    then Some (sols ++ [[DecodeOP_N opcode1]]) else None
  else if negb (opcode1 =? opcode2) || negb (if list_eq_dec Z.eq_dec vch1 vch2 then true else false)
  then None else Some sols.

(** The [while (true)] loop; it ends with the template, which is read by one
    or two instructions an iteration. *)
Fixpoint match_loop (fuel : nat) (pc1 pc2 : list Z) (sols : list (list Z)) : option (list (list Z)) :=
  match pc1, pc2, fuel with
  | [], [], _ => Some sols
  | _, _, O => None
  | _, _, S fuel =>
      match GetOp pc1, GetOp pc2 with
      | Some (opcode1, vch1, pc1), Some (opcode2, vch2, pc2) =>
          if opcode2 =? value OP_PUBKEYS then
            let '(opcode1, vch1, pc1, sols) := pubkeys_loop (length pc1) opcode1 vch1 pc1 sols in
            match GetOp pc2 with
            | None => None
            | Some (opcode2, vch2, pc2) =>
                match match_op opcode2 vch2 opcode1 vch1 sols with
                | None => None
                | Some sols => match_loop fuel pc1 pc2 sols
                end
            end
          else
            match match_op opcode2 vch2 opcode1 vch1 sols with
            | None => None
            | Some sols => match_loop fuel pc1 pc2 sols
            end
      | _, _ => None
      end
  end.

(** What [Solver] leaves: its value, [typeRet] and [vSolutionsRet]. *)
Record solved := mkSolved { ok : bool; typeRet : txnouttype; vSolutionsRet : list (list Z) }.

(** [front()], which is [[0]] too, and [back()] of a vector; [None] is the
    access to an empty one. *)
Definition front {A : Type} (v : list A) : option A := match v with [] => None | x :: _ => Some x end.
Definition back {A : Type} (v : list A) : option A := front (rev v).

(** [vSolutions.front()[0]] and [vSolutions.back()[0]]. *)
Definition counts (sols : list (list Z)) : option (Z * Z) :=
  match front sols, back sols with
  | Some u, Some v =>
      match front u, front v with
      | Some m, Some n => Some (m, n)
      | _, _ => None
      end
  | _, _ => None
  end.

Fixpoint scan_templates (templates : list (txnouttype * list Z)) (script1 : list Z) : option solved :=
  match templates with
  | [] => Some (mkSolved false TX_NONSTANDARD [])
  | (type, script2) :: templates =>
      match match_loop (S (length script2)) script1 script2 [] with
      | None => scan_templates templates script1
      | Some sols =>
          match type with
          | TX_MULTISIG =>
              match counts sols with
              | None => None
              | Some (m, n) =>
                  Some (mkSolved (negb ((m <? 1) || (n <? 1) || (m >? n) || negb (Z.of_nat (length sols) - 2 =? n))) type sols)
              end
          | _ => Some (mkSolved true type sols)
          end
      end
  end.

(** [Solver] on an empty [vSolutionsRet].  [None] is the range
    [scriptPubKey.begin()+2 .. end()] with its ends crossed, or an access to
    an empty vector. *)
Definition Solver (scriptPubKey : list Z) : option solved :=
  if IsPayToScriptHash scriptPubKey
  then Some (mkSolved true TX_SCRIPTHASH [firstn 20 (skipn 2 scriptPubKey)])
  else if IsZerocoinMint scriptPubKey then
    if (150 <? length scriptPubKey)%nat then Some (mkSolved false TX_ZEROCOINMINT [])
    else if (length scriptPubKey <? 2)%nat then None
    else Some (mkSolved true TX_ZEROCOINMINT [skipn 2 scriptPubKey])
  else if (1 <=? length scriptPubKey)%nat && (scriptPubKey.[0] =? value OP_RETURN) && IsPushOnly (skipn 1 scriptPubKey)
  then Some (mkSolved true TX_NULL_DATA [])
  else scan_templates mTemplates scriptPubKey.

Definition ScriptSigArgsExpected (t : txnouttype) (vSolutions : list (list Z)) : Z :=
  match t with
  | TX_NONSTANDARD | TX_NULL_DATA | TX_ZEROCOINMINT => -1
  | TX_PUBKEY => 1
  | TX_PUBKEYHASH => 2
  | TX_MULTISIG =>
      match vSolutions with
      | (m :: _) :: _ => m + 1
      | _ => -1
      end
  | TX_SCRIPTHASH => 1
  end.

(** [IsStandard]: its value and [whichType]; [-datacarrier] and the limit on
    its size are settings. *)
Definition IsStandard (datacarrier : bool) (nMaxDatacarrierBytes : nat) (scriptPubKey : list Z) : option (bool * txnouttype) :=
  match Solver scriptPubKey with
  | None => None
  | Some r =>
      let whichType := typeRet r in
      if negb (ok r) then Some (false, whichType)
      else match whichType with
           | TX_MULTISIG =>
               match counts (vSolutionsRet r) with
               | None => None
               | Some (m, n) => Some (negb ((n <? 1) || (n >? 3)) && negb ((m <? 1) || (m >? n)), whichType)
               end
           | TX_NULL_DATA => Some (datacarrier && (length scriptPubKey <=? nMaxDatacarrierBytes)%nat, whichType)
           | TX_NONSTANDARD => Some (false, whichType)
           | _ => Some (true, whichType)
           end
  end.

(** [uint160(vch)], which throws when the vector has another size. *)
Definition uint160 (vch : list Z) : option (list Z) := if (length vch =? 20)%nat then Some vch else None.

(** [ExtractDestination]: [addressRet] when it returns true. *)
Definition ExtractDestination (scriptPubKey : list Z) : option (option CTxDestination) :=
  match Solver scriptPubKey with
  | None => None
  | Some r =>
      if negb (ok r) then Some None
      else
        let solution := front (vSolutionsRet r) in
        match typeRet r with
        | TX_PUBKEY =>
            match solution with
            | None => None
            | Some v => let pubKey := CPubKey v in Some (if negb (IsValid pubKey) then None else Some (CKeyID (GetID pubKey)))
            end
        | TX_PUBKEYHASH => match solution with None => None | Some v => option_map (fun h => Some (CKeyID h)) (uint160 v) end
        | TX_SCRIPTHASH => match solution with None => None | Some v => option_map (fun h => Some (CScriptID h)) (uint160 v) end
        | _ => Some None
        end
  end.

(** [ExtractDestinations]: [typeRet], [addressRet] and [nRequiredRet] when it
    returns true. *)
Definition ExtractDestinations (scriptPubKey : list Z) : option (option (txnouttype * list CTxDestination * Z)) :=
  match Solver scriptPubKey with
  | None => None
  | Some r =>
      if negb (ok r) then Some None
      else
        match typeRet r with
        | TX_NULL_DATA => Some None
        | TX_MULTISIG =>
            let sols := vSolutionsRet r in
            match front sols with
            | None => None
            | Some v =>
            match front v with
            | None => None
            | Some nRequiredRet =>
            let keys := filter IsValid (map CPubKey (firstn (length sols - 2) (skipn 1 sols))) in
            let addressRet := map (fun k => CKeyID (GetID k)) keys in
            Some (match addressRet with [] => None | _ => Some (TX_MULTISIG, addressRet, nRequiredRet) end)
            end
            end
        | t =>
            match ExtractDestination scriptPubKey with
            | None => None
            | Some None => Some None
            | Some (Some address) => Some (Some (t, [address], 1))
            end
        end
  end.

Definition GetScriptForDestination (dest : CTxDestination) : list Z :=
  match dest with
  | CNoDestination => []
  | CKeyID keyID => push_ops (push_data (push_ops [] [OP_DUP; OP_HASH160]) keyID) [OP_EQUALVERIFY; OP_CHECKSIG]
  | CScriptID scriptID => push_ops (push_data (push_ops [] [OP_HASH160]) scriptID) [OP_EQUAL]
  end.

Definition GetScriptForMultisig (nRequired : Z) (keys : list (list Z)) : list Z :=
  let script := [EncodeOP_N nRequired] in
  let script := fold_left (fun script key => push_data script (key_bytes key)) keys script in
  push_opcode (script ++ [EncodeOP_N (Z.of_nat (length keys))]) OP_CHECKMULTISIG.

(** [CScriptID(script)]. *)
Definition ScriptID (script : list Z) : list Z := Ripemd160.Hash160 script.

(** ** Theorems *)

(** A list of a known length, element by element. *)
Ltac spell l n :=
  match n with
  | O => destruct l; [|discriminate]
  | S ?k => let x := fresh "x" in destruct l as [|x l]; [discriminate|]; spell l k
  end.

(** Addresses: the script built for a destination is recognized as a
    standard script of its type, and the destination is extracted from it. *)
Theorem destination_roundtrip (id : list Z) :
  length id = 20%nat ->
  (forall d, d = CKeyID id \/ d = CScriptID id ->
     ExtractDestination (GetScriptForDestination d) = Some (Some d)) /\
  Solver (GetScriptForDestination (CKeyID id)) = Some (mkSolved true TX_PUBKEYHASH [id]) /\
  Solver (GetScriptForDestination (CScriptID id)) = Some (mkSolved true TX_SCRIPTHASH [id]).
Proof.
  intros H; spell id 20%nat; split; [|split; reflexivity].
  intros d [->| ->]; reflexivity.
Qed.

Lemma destination_roundtrip_witness :
  length (repeat 7 20) = 20%nat /\
  ExtractDestination (GetScriptForDestination (CKeyID (repeat 7 20))) = Some (Some (CKeyID (repeat 7 20))).
Proof. split; [reflexivity|apply (destination_roundtrip (repeat 7 20) eq_refl); left; reflexivity]. Defined.

(** One template opcode that is no run of keys: one instruction. *)
Lemma match_loop_step fuel pc1 o pc2 sols res : 0x4e < o -> o <> value OP_PUBKEYS -> match_loop (S fuel) pc1 (o :: pc2) sols = Some res ->
  exists opcode1 vch1 pc1' sols', match_op o [] opcode1 vch1 sols = Some sols' /\ match_loop fuel pc1' pc2 sols' = Some res.
Proof.
  intros Ho Hk. cbn [match_loop]. replace (GetOp (o :: pc2)) with (Some (o, @nil Z, pc2)) by (cbn [GetOp value]; now rewrite (proj2 (Z.leb_gt _ _) Ho)).
  rewrite (proj2 (Z.eqb_neq _ _) Hk). destruct pc1 as [|b pc1]; (destruct (GetOp _) as [[[opcode1 vch1] pc1']|]; [|discriminate]);
    (destruct (match_op _ _ _ _ _) as [sols'|] eqn:E; [|discriminate]); intros H; now exists opcode1, vch1, pc1', sols'.
Qed.

Lemma match_loop_end fuel pc1 sols res : match_loop fuel pc1 [] sols = Some res -> res = sols.
Proof.
  destruct pc1 as [|b pc1]; [destruct fuel; now intros [= <-]|]. destruct fuel; [discriminate|]. cbn [match_loop].
  destruct (GetOp (b :: pc1)) as [[[? ?] ?]|]; discriminate.
Qed.

Lemma pubkeys_loop_sols fuel : forall opcode1 vch1 pc1 sols, exists ks, snd (pubkeys_loop fuel opcode1 vch1 pc1 sols) = sols ++ ks.
Proof.
  induction fuel as [|fuel IH]; intros opcode1 vch1 pc1 sols; cbn [pubkeys_loop]; destruct (key_sized vch1).
  - now exists [vch1].
  - exists []. now rewrite app_nil_r.
  - destruct (GetOp pc1) as [[[o v] pc]|]; [|now exists [vch1]]. destruct (IH o v pc (sols ++ [vch1])) as (ks & ->).
    exists (vch1 :: ks). now rewrite <- app_assoc.
  - exists []. now rewrite app_nil_r.
Qed.

(** A run of keys and the opcode after it. *)
Lemma match_loop_keys fuel pc1 o pc2 sols res : 0x4e < o -> match_loop (S fuel) pc1 (value OP_PUBKEYS :: o :: pc2) sols = Some res ->
  exists ks opcode1 vch1 pc1' sols', match_op o [] opcode1 vch1 (sols ++ ks) = Some sols' /\ match_loop fuel pc1' pc2 sols' = Some res.
Proof.
  intros Ho. cbn [match_loop]. change (GetOp (value OP_PUBKEYS :: o :: pc2)) with (Some (value OP_PUBKEYS, @nil Z, o :: pc2)).
  change (value OP_PUBKEYS =? value OP_PUBKEYS) with true. cbv iota.
  replace (GetOp (o :: pc2)) with (Some (o, @nil Z, pc2)) by (cbn [GetOp value]; now rewrite (proj2 (Z.leb_gt _ _) Ho)).
  destruct pc1 as [|b pc1]; (destruct (GetOp _) as [[[opcode1 vch1] pc1']|]; [|discriminate]);
    destruct (pubkeys_loop_sols (length pc1') opcode1 vch1 pc1' sols) as (ks & Hks);
    (destruct (pubkeys_loop _ _ _ _ _) as [[[o1 v1] p1] s1]); cbn [snd] in Hks; subst s1;
    (destruct (match_op _ _ _ _ _) as [sols'|] eqn:E; [|discriminate]); intros H; now exists ks, o1, v1, p1, sols'.
Qed.

(** What each kind of template opcode adds. *)
Lemma match_op_exact o opcode1 vch1 sols sols' : o < 0xfa -> match_op o [] opcode1 vch1 sols = Some sols' -> sols' = sols.
Proof.
  intros Ho. unfold match_op. cbn [value]. destruct (Z.eqb_spec o 0xfe); [lia|]. destruct (Z.eqb_spec o 0xfd); [lia|].
  destruct (Z.eqb_spec o 0xfa); [lia|]. destruct (_ || _); [discriminate|]. now intros [= <-].
Qed.

Lemma match_op_small opcode1 vch1 sols sols' : match_op (value OP_SMALLINTEGER) [] opcode1 vch1 sols = Some sols' -> exists k, sols' = sols ++ [[k]].
Proof. unfold match_op. cbn. destruct (_ || _); [|discriminate]. intros [= <-]. now eexists. Qed.

Lemma match_op_hash opcode1 vch1 sols sols' : match_op (value OP_PUBKEYHASH) [] opcode1 vch1 sols = Some sols' ->
  sols' = sols ++ [vch1] /\ length vch1 = 20%nat.
Proof. unfold match_op. cbn [value Z.eqb Pos.eqb]. destruct (Nat.eqb_spec (length vch1) 20); [|discriminate]. now intros [= <-]. Qed.

Lemma match_op_key opcode1 vch1 sols sols' : match_op (value OP_PUBKEY) [] opcode1 vch1 sols = Some sols' -> sols' = sols ++ [vch1].
Proof. unfold match_op. cbn [value Z.eqb Pos.eqb]. destruct (key_sized vch1); [|discriminate]. now intros [= <-]. Qed.

(** The solutions of each type. *)
Definition shaped (t : txnouttype) (sols : list (list Z)) : Prop :=
  match t with
  | TX_PUBKEY => exists k, sols = [k]
  | TX_PUBKEYHASH | TX_SCRIPTHASH => exists h, sols = [h] /\ length h = 20%nat
  | TX_MULTISIG => exists m keys n, sols = [m] :: keys ++ [[n]]
  | _ => True
  end.

Lemma template_shaped t script2 script sols : In (t, script2) mTemplates -> match_loop (S (length script2)) script script2 [] = Some sols -> shaped t sols.
Proof.
  change mTemplates with [(TX_PUBKEY, [value OP_PUBKEY; 0xac]); (TX_PUBKEYHASH, [0x76; 0xa9; value OP_PUBKEYHASH; 0x88; 0xac]);
    (TX_MULTISIG, [value OP_SMALLINTEGER; value OP_PUBKEYS; value OP_SMALLINTEGER; 0xae])].
  intros [E|[E|[E|[]]]] H; injection E as <- <-; cbn [length] in H.
  - apply match_loop_step in H as (o1 & v1 & p1 & s1 & E1 & H); [|now cbn..]. apply match_op_key in E1 as ->.
    apply match_loop_step in H as (o2 & v2 & p2 & s2 & E2 & H); [|now cbn..]. apply match_op_exact in E2 as ->; [|lia].
    apply match_loop_end in H as ->. now exists v1.
  - apply match_loop_step in H as (o1 & v1 & p1 & s1 & E1 & H); [|now cbn..]. apply match_op_exact in E1 as ->; [|lia].
    apply match_loop_step in H as (o2 & v2 & p2 & s2 & E2 & H); [|now cbn..]. apply match_op_exact in E2 as ->; [|lia].
    apply match_loop_step in H as (o3 & v3 & p3 & s3 & E3 & H); [|now cbn..]. apply match_op_hash in E3 as [-> L].
    apply match_loop_step in H as (o4 & v4 & p4 & s4 & E4 & H); [|now cbn..]. apply match_op_exact in E4 as ->; [|lia].
    apply match_loop_step in H as (o5 & v5 & p5 & s5 & E5 & H); [|now cbn..]. apply match_op_exact in E5 as ->; [|lia].
    apply match_loop_end in H as ->. now exists v3.
  - apply match_loop_step in H as (o1 & v1 & p1 & s1 & E1 & H); [|now cbn..]. apply match_op_small in E1 as (m & ->).
    apply match_loop_keys in H as (ks & o2 & v2 & p2 & s2 & E2 & H); [|now cbn]. apply match_op_small in E2 as (n & ->).
    apply match_loop_step in H as (o3 & v3 & p3 & s3 & E3 & H); [|now cbn..]. apply match_op_exact in E3 as ->; [|lia].
    apply match_loop_end in H as ->. exists m, ks, n. now rewrite <- app_assoc.
Qed.

Lemma counts_shaped m keys n : counts ([m] :: keys ++ [[n]]) = Some (m, n).
Proof. unfold counts, back. cbn [front rev]. now rewrite rev_app_distr. Qed.

Lemma scan_shaped script templates : incl templates mTemplates ->
  exists r, scan_templates templates script = Some r /\ (ok r = true -> shaped (typeRet r) (vSolutionsRet r)).
Proof.
  induction templates as [|[t script2] templates IH]; intros Hi; cbn [scan_templates]; [now eexists|].
  destruct (match_loop _ _ _ _) as [sols|] eqn:E; [|apply IH; intros x Hx; apply Hi; now right].
  apply (template_shaped t) in E; [|apply Hi; now left].
  destruct t; try (eexists; split; [reflexivity | intros _; exact E]).
  destruct E as (m & keys & n & ->). rewrite counts_shaped. eexists. split; [reflexivity|]. intros _. now exists m, keys, n.
Qed.

Lemma Solver_shaped script : script <> [value OP_ZEROCOINMINT] ->
  exists r, Solver script = Some r /\ (ok r = true -> shaped (typeRet r) (vSolutionsRet r)).
Proof.
  intros Hs. unfold Solver. destruct (IsPayToScriptHash script) eqn:HP.
  { eexists. split; [reflexivity|]. intros _. eexists. split; [reflexivity|]. unfold IsPayToScriptHash in HP. rewrite !andb_true_iff in HP.
    destruct HP as [[[HP _] _] _]. apply Nat.eqb_eq in HP. rewrite length_firstn, length_skipn, HP. reflexivity. }
  destruct (IsZerocoinMint script) eqn:Z.
  - destruct (_ <? _)%nat; [now eexists|]. destruct (length script <? 2)%nat eqn:L; [|now eexists]. exfalso. apply Hs.
    unfold IsZerocoinMint in Z; apply andb_prop in Z as [Z1 Z2]; apply Nat.ltb_lt in L, Z1; apply Z.eqb_eq in Z2.
    destruct script as [|x [|y script]]; cbn [length] in *; try lia; cbn in Z2; subst x; reflexivity.
  - destruct (_ && _ && _); [now eexists|]. apply scan_shaped, incl_refl.
Qed.

(** C29: [Solver] and the functions that take its solutions apart,
    [IsStandard], [ExtractDestination] and [ExtractDestinations], are defined
    on every script but the single byte [OP_ZEROCOINMINT]: every [front()],
    [back()] and [[0]] finds an element and every hash has its 20 bytes.  On
    that script [Solver] builds a vector from iterators two past the
    beginning and at the end, the latter before the former. *)
Theorem Solver_undefined script :
  (Solver script = None <-> script = [value OP_ZEROCOINMINT]) /\
  (forall datacarrier nMaxDatacarrierBytes, IsStandard datacarrier nMaxDatacarrierBytes script = None <-> script = [value OP_ZEROCOINMINT]) /\
  (ExtractDestination script = None <-> script = [value OP_ZEROCOINMINT]) /\
  (ExtractDestinations script = None <-> script = [value OP_ZEROCOINMINT]).
Proof.
  assert (D : forall A (f : list Z -> option A), f [value OP_ZEROCOINMINT] = None ->
    (script <> [value OP_ZEROCOINMINT] -> f script <> None) -> f script = None <-> script = [value OP_ZEROCOINMINT]).
  { intros A f H0 H1. split; [|now intros ->]. intros H. destruct (list_eq_dec Z.eq_dec script [value OP_ZEROCOINMINT]) as [|n]; [assumption|].
    now destruct (H1 n). }
  assert (E : script <> [value OP_ZEROCOINMINT] -> ExtractDestination script <> None).
  { intros Hs. destruct (Solver_shaped script Hs) as ([okr t sols] & ES & HS). unfold ExtractDestination. rewrite ES. cbn [ok typeRet vSolutionsRet] in *.
    destruct okr; [|discriminate]. specialize (HS eq_refl). cbn [negb]. destruct t; try discriminate; cbn [shaped] in HS.
    - now destruct HS as (k & ->).
    - destruct HS as (h & -> & L). cbn [front]. unfold uint160. now rewrite L.
    - destruct HS as (h & -> & L). cbn [front]. unfold uint160. now rewrite L. }
  split; [|split; [intros dc nb|split]]; apply D; try reflexivity; [| |exact E|].
  - intros Hs. now destruct (Solver_shaped script Hs) as (r & -> & _).
  - intros Hs. destruct (Solver_shaped script Hs) as ([okr t sols] & ES & HS). unfold IsStandard. rewrite ES. cbn [ok typeRet vSolutionsRet] in *.
    destruct okr; [|discriminate]. specialize (HS eq_refl). cbn [negb]. destruct t; try discriminate.
    destruct HS as (m & keys & n & ->). now rewrite counts_shaped.
  - intros Hs. pose proof (E Hs) as HE. destruct (Solver_shaped script Hs) as ([okr t sols] & ES & HS). unfold ExtractDestinations. rewrite ES.
    cbn [ok typeRet vSolutionsRet] in *. destruct okr; [|discriminate]. specialize (HS eq_refl). cbn [negb].
    destruct t; try (destruct (ExtractDestination script) as [[a|]|]; [discriminate | discriminate | now destruct HE]).
    destruct HS as (m & keys & n & ->). cbn [front]. discriminate.
Qed.

Lemma valid_key k : IsValid k = true -> CPubKey k = k -> key_sized (key_bytes k) = true /\ key_bytes k = k.
Proof.
  unfold IsValid, CPubKey, key_bytes, key_size; destruct k as [|b k]; [discriminate|]; change ((b :: k).[0]) with b.
  intros Hv; destruct (negb _ && _) eqn:E; [|intros H; injection H as H _; subst b; discriminate Hv].
  intros _; apply andb_prop in E as [_ E]; apply Nat.eqb_eq in E; rewrite firstn_all2 by lia; split; [|reflexivity].
  unfold key_sized; rewrite <- E in *; unfold GetLen in *.
  destruct (_ || _); [reflexivity|]; destruct (_ || _ || _); [reflexivity|discriminate Hv].
Qed.

Lemma emit_keys keys script :
  fold_left (fun script key => push_data script (key_bytes key)) keys script =
  script ++ flat_map (fun key => push_data [] (key_bytes key)) keys.
Proof.
  revert script; induction keys as [|k keys IH]; intros script; cbn [fold_left flat_map]; [symmetry; apply app_nil_r|].
  rewrite IH, app_assoc; f_equal; apply (emit_app script (Data (key_bytes k))).
Qed.

Lemma GetOp_key k rest : key_sized k = true ->
  GetOp (push_data [] k ++ rest) = Some (push_op k, k, rest).
Proof.
  intros H; apply (GetOp_emit (Data k)); cbn; unfold key_sized in H; apply andb_prop in H as [_ H]; apply Nat.leb_le in H; lia.
Qed.

(** The inner loop takes all the keys and stops at the opcode after them. *)
Lemma pubkeys_loop_keys o rest keys : value OP_PUSHDATA4 < o ->
  forall fuel opcode1 k sols, (length keys < fuel)%nat -> Forall (fun k => key_sized k = true) (k :: keys) ->
  pubkeys_loop fuel opcode1 k (flat_map (push_data []) keys ++ o :: rest) sols = (o, [], rest, sols ++ k :: keys).
Proof.
  intros Ho; induction keys as [|k' keys IH]; intros [|fuel] opcode1 k sols Hf Hk; cbn [length] in Hf; try lia;
    apply Forall_cons_iff in Hk as [H1 Hk]; cbn [pubkeys_loop]; rewrite H1.
  - cbn [flat_map app GetOp]; rewrite (proj2 (Z.leb_gt _ _) Ho); destruct fuel; reflexivity.
  - pose proof Hk as Hk'; apply Forall_cons_iff in Hk' as [H2 _]; cbn [flat_map]; rewrite <- app_assoc, GetOp_key by exact H2.
    rewrite IH, <- app_assoc by (assumption || lia); reflexivity.
Qed.

(** The template of multisignature scripts against a script of its form. *)
Lemma multisig_scan m k keys : 1 <= m <= 16 -> Forall (fun k => key_sized k = true) (k :: keys) ->
  1 <= Z.of_nat (length (k :: keys)) <= 16 ->
  match_loop 5 ((value OP_1 + m - 1) :: flat_map (push_data []) (k :: keys) ++
                [value OP_1 + Z.of_nat (length (k :: keys)) - 1; value OP_CHECKMULTISIG])
             (push_ops [] [OP_SMALLINTEGER; OP_PUBKEYS; OP_SMALLINTEGER; OP_CHECKMULTISIG]) [] =
  Some ([[m]] ++ (k :: keys) ++ [[Z.of_nat (length (k :: keys))]]).
Proof.
  intros Hm Hk Hn; set (n := Z.of_nat (length (k :: keys))) in *.
  change (push_ops [] [OP_SMALLINTEGER; OP_PUBKEYS; OP_SMALLINTEGER; OP_CHECKMULTISIG]) with [0xfa; 0xfb; 0xfa; 0xae].
  assert (Gop : forall o l, 0x4e < o -> GetOp (o :: l) = Some (o, [], l))
    by (intros o l Ho; cbn [GetOp value]; rewrite (proj2 (Z.leb_gt _ _) Ho); reflexivity).
  assert (Small : forall z sols, 1 <= z <= 16 -> match_op 0xfa [] (value OP_1 + z - 1) [] sols = Some (sols ++ [[z]])).
  { intros z sols Hz; unfold match_op, DecodeOP_N; cbn [value].
    change (0xfa =? 0xfe) with false; change (0xfa =? 0xfd) with false; change (0xfa =? 0xfa) with true; cbv iota.
    rewrite Z.geb_leb; destruct (Z.eqb_spec (0x51 + z - 1) 0), (Z.leb_spec 0x51 (0x51 + z - 1)), (Z.leb_spec (0x51 + z - 1) 0x60); try lia.
    cbn [orb andb]; do 4 f_equal; lia. }
  cbn [match_loop]; rewrite (Gop _ _ (ltac:(cbn [value]; lia) : 0x4e < value OP_1 + m - 1)), (Gop 0xfa _ ltac:(lia)).
  change (0xfa =? value OP_PUBKEYS) with false; cbv iota; rewrite (Small m) by exact Hm.
  cbn [flat_map]; rewrite <- app_assoc.
  pose proof Hk as Hk'; apply Forall_cons_iff in Hk' as [H1 _].
  destruct (push_data [] k ++ flat_map (push_data []) keys ++ [value OP_1 + n - 1; value OP_CHECKMULTISIG]) as [|b l] eqn:E.
  { apply (f_equal (@length Z)) in E; rewrite !length_app in E; cbn [length] in E; lia. }
  cbv iota; rewrite <- E; cbn [match_loop]; rewrite E; cbv iota; rewrite <- E; rewrite GetOp_key, (Gop 0xfb _ ltac:(lia)) by exact H1.
  change (0xfb =? value OP_PUBKEYS) with true; cbv iota.
  rewrite pubkeys_loop_keys; [|cbn [value]; lia| |exact Hk].
  2: { rewrite length_app; cbn [length]; assert (L : (length keys <= length (flat_map (push_data []) keys))%nat).
       { clear; induction keys as [|x l IH]; [reflexivity|]; cbn [flat_map]; rewrite length_app.
         assert (0 < length (push_data [] x))%nat; [|cbn [length]; lia].
         unfold push_data; cbv zeta; destruct (_ <? _); [|destruct (_ <=? _); [|destruct (_ <=? _)]];
           rewrite !length_app; cbn [length]; lia. }
       lia. }
  rewrite (Gop 0xfa _ ltac:(lia)), (Small n) by exact Hn.
  cbn [match_loop]; rewrite !(Gop 0xae) by lia; change (0xae =? value OP_PUBKEYS) with false; cbv iota.
  unfold match_op; cbn [value]; change (0xae =? 0xfe) with false; change (0xae =? 0xfd) with false;
    change (0xae =? 0xfa) with false; change (0xae =? 0xae) with true; cbv iota; cbn [negb orb].
  cbn [app]; rewrite <- ?app_assoc; reflexivity.
Qed.

Lemma valid_keys keys : Forall (fun k => IsValid k = true /\ CPubKey k = k) keys ->
  Forall (fun k => key_sized k = true) keys /\ map key_bytes keys = keys /\ map CPubKey keys = keys /\ filter IsValid keys = keys.
Proof.
  induction 1 as [|k keys [H1 H2] _ (IH1 & IH2 & IH3 & IH4)]; [repeat split; constructor|].
  destruct (valid_key k H1 H2) as [E1 E2]; rewrite E2 in E1; cbn [map filter]; rewrite H1, H2, E2, IH2, IH3, IH4; auto.
Qed.

Lemma multisig_script m keys : m <> 0 -> keys <> [] -> map key_bytes keys = keys ->
  GetScriptForMultisig m keys =
  (value OP_1 + m - 1) :: flat_map (push_data []) keys ++ [value OP_1 + Z.of_nat (length keys) - 1; value OP_CHECKMULTISIG].
Proof.
  intros Hm Hk E; unfold GetScriptForMultisig, push_opcode, EncodeOP_N.
  rewrite emit_keys; destruct (Z.eqb_spec m 0), (Z.eqb_spec (Z.of_nat (length keys)) 0); try contradiction.
  { destruct keys; [contradiction|discriminate]. }
  cbn [app]; rewrite <- !app_assoc; do 2 f_equal.
  rewrite !flat_map_concat_map, <- (map_map key_bytes (push_data [])), E; reflexivity.
Qed.

Lemma multisig_solved m keys : 1 <= m <= Z.of_nat (length keys) -> Z.of_nat (length keys) <= 16 ->
  Forall (fun k => key_sized k = true) keys -> map key_bytes keys = keys ->
  Solver (GetScriptForMultisig m keys) = Some (mkSolved true TX_MULTISIG ([m] :: keys ++ [[Z.of_nat (length keys)]])).
Proof.
  intros Hm Hn Hs E1; rewrite multisig_script; [|lia|intros ->; cbn in Hm; lia|exact E1].
  set (rest := _ ++ _); set (script := _ :: rest); unfold Solver, IsPayToScriptHash, IsZerocoinMint.
  assert (G : GetOp script = Some (value OP_1 + m - 1, [], rest))
    by (unfold script; cbn [GetOp value]; rewrite (proj2 (Z.leb_gt _ _)) by lia; reflexivity).
  assert (B : forall o, 96 < value o -> (script.[0] =? value o) = false)
    by (intros o Ho; apply Z.eqb_neq; change (script.[0]) with (value OP_1 + m - 1); cbn [value] in *; lia).
  rewrite !B by (cbn [value]; lia); rewrite !andb_false_r; cbn [andb].
  change mTemplates with [(TX_PUBKEY, [0xfe; 0xac]); (TX_PUBKEYHASH, [0x76; 0xa9; 0xfd; 0x88; 0xac]);
    (TX_MULTISIG, push_ops [] [OP_SMALLINTEGER; OP_PUBKEYS; OP_SMALLINTEGER; OP_CHECKMULTISIG])].
  assert (N1 : match_loop (S (length [0xfe; 0xac])) script [0xfe; 0xac] [] = None)
    by (unfold script in *; cbn [match_loop]; rewrite G; reflexivity).
  assert (N2 : match_loop (S (length [0x76; 0xa9; 0xfd; 0x88; 0xac])) script [0x76; 0xa9; 0xfd; 0x88; 0xac] [] = None).
  { unfold script in *; cbn [match_loop]; rewrite G; cbn [GetOp value Z.leb Z.compare Pos.compare Pos.compare_cont].
    unfold match_op; cbn [value Z.eqb Pos.eqb]; destruct (Z.eqb_spec (0x51 + m - 1) 0x76); [lia|reflexivity]. }
  cbn [scan_templates]; rewrite N1, N2; unfold script, rest; destruct keys as [|k keys]; [cbn in Hm; lia|].
  change (S (length (push_ops [] [OP_SMALLINTEGER; OP_PUBKEYS; OP_SMALLINTEGER; OP_CHECKMULTISIG]))) with 5%nat.
  rewrite multisig_scan by (assumption || lia); cbn [app]; rewrite (counts_shaped m (k :: keys) (Z.of_nat (length (k :: keys))) : counts ([m] :: k :: keys ++ [[Z.of_nat (length (k :: keys))]]) = _).
  do 2 f_equal; cbn [length] in *; rewrite length_app; cbn [length]; rewrite Z.gtb_ltb.
  apply negb_true_iff; rewrite !orb_false_iff, negb_false_iff, Z.eqb_eq, !Z.ltb_ge; lia.
Qed.

(** Multisignature scripts: the script built for [m] of up to 16 valid
    keys is recognized with exactly these numbers and keys, its destinations
    are the identifiers of the keys, and it is standard when there are at most
    three keys. *)
Theorem multisig_roundtrip m keys datacarrier nMaxDatacarrierBytes :
  1 <= m <= Z.of_nat (length keys) -> Z.of_nat (length keys) <= 16 ->
  Forall (fun k => IsValid k = true /\ CPubKey k = k) keys ->
  let script := GetScriptForMultisig m keys in
  let n := Z.of_nat (length keys) in
  Solver script = Some (mkSolved true TX_MULTISIG ([m] :: keys ++ [[n]])) /\
  ExtractDestinations script = Some (Some (TX_MULTISIG, map (fun k => CKeyID (GetID k)) keys, m)) /\
  IsStandard datacarrier nMaxDatacarrierBytes script = Some (n <=? 3, TX_MULTISIG).
Proof.
  intros Hm Hn Hk script n; destruct (valid_keys keys Hk) as (Hs & E1 & E2 & E3).
  pose proof (multisig_solved m keys Hm Hn Hs E1) as S; split; [exact S|split].
  - unfold ExtractDestinations, script; rewrite S; cbn [ok negb typeRet vSolutionsRet length skipn front].
    rewrite length_app, Nat.add_1_r, !Nat.sub_succ, Nat.sub_0_r, firstn_app, Nat.sub_diag, firstn_all, firstn_O, app_nil_r, E2, E3.
    destruct keys; [cbn in Hm; lia|reflexivity].
  - unfold IsStandard, script; rewrite S; cbn [ok negb typeRet vSolutionsRet].
    rewrite counts_shaped; fold n; do 2 f_equal; rewrite !Z.gtb_ltb.
    destruct (Z.ltb_spec n 1), (Z.ltb_spec 3 n), (Z.ltb_spec m 1), (Z.ltb_spec n m), (Z.leb_spec n 3); try lia; reflexivity.
Qed.

Lemma multisig_roundtrip_witness :
  (1 <= 1 <= Z.of_nat (length [2 :: repeat 5 32]) /\ Forall (fun k => IsValid k = true /\ CPubKey k = k) [2 :: repeat 5 32]) /\
  Solver (GetScriptForMultisig 1 [2 :: repeat 5 32]) = Some (mkSolved true TX_MULTISIG [[1]; 2 :: repeat 5 32; [1]]).
Proof.
  assert (H : Forall (fun k => IsValid k = true /\ CPubKey k = k) [2 :: repeat 5 32]) by (repeat constructor).
  split; [split; [cbn; lia|exact H]|].
  apply (multisig_roundtrip 1 [2 :: repeat 5 32] true 83); [cbn; lia|cbn; lia|exact H].
Defined.

End Standard.
