(* ===== verification/Interpreter.v ===== *)
(** The script machine: [EvalScript] and [VerifyScript] of
    [src/src/script/interpreter.cpp].

    A stack is a list with its top first; [vfExec] is a list with its back
    first.  A step reads one instruction and returns the next state or the
    error it sets; what the C++ code throws and [catch (...)] turns into
    [SCRIPT_ERR_UNKNOWN_ERROR] is that error here.  The signature check is the
    virtual method [BaseSignatureChecker::CheckSig], a parameter. *)
From S2P Require Import Prelude SphTypes HashStream Sha256 Sha1 Ripemd160 Script SigEncoding.
Import Script SigEncoding.

Module Interpreter.

Inductive result (A : Type) : Type :=
| Ok (a : A)
| Err (e : ScriptError).
Arguments Ok {A}.
Arguments Err {A}.

Definition bind {A B} (r : result A) (k : A -> result B) : result B :=
  match r with Ok a => k a | Err e => Err e end.

Notation "'let*' x := r 'in' k" := (bind r (fun x => k)) (at level 10, x name, k at level 200).

(** [CastToBool]: false for zeros, and for negative zero. *)
Fixpoint CastToBool (vch : list Z) : bool :=
  match vch with
  | [] => false
  | x :: rest =>
      if negb (x =? 0) then negb (match rest with [] => x =? 0x80 | _ => false end)
      else CastToBool rest
  end.

Definition vchFalse : list Z := [].
Definition vchTrue : list Z := [1].
Definition vchBool (b : bool) : list Z := if b then vchTrue else vchFalse.

Definition CheckMinimalPush (data : list Z) (opcode : Z) : bool :=
  if (length data =? 0)%nat then opcode =? value OP_0
  else if (length data =? 1)%nat && (1 <=? data.[0]) && (data.[0] <=? 16)
  then opcode =? value OP_1 + (data.[0] - 1)
  else if (length data =? 1)%nat && (data.[0] =? 0x81) then opcode =? value OP_1NEGATE
  else if (length data <=? 75)%nat then opcode =? Z.of_nat (length data)
  else if (length data <=? 255)%nat then opcode =? value OP_PUSHDATA1
  else if Z.of_nat (length data) <=? 65535 then opcode =? value OP_PUSHDATA2
  else true.

(** The state of the [while] loop. *)
Record machine := mkMachine {
  pc : list Z;
  stack : list (list Z);
  altstack : list (list Z);
  vfExec : list bool;
  nOpCount : Z;
  pbegincodehash : list Z
}.

Definition with_stack (m : machine) (st : list (list Z)) : machine :=
  mkMachine (pc m) st (altstack m) (vfExec m) (nOpCount m) (pbegincodehash m).
Definition with_alt (m : machine) (st alt : list (list Z)) : machine :=
  mkMachine (pc m) st alt (vfExec m) (nOpCount m) (pbegincodehash m).
Definition with_exec (m : machine) (st : list (list Z)) (vf : list bool) : machine :=
  mkMachine (pc m) st (altstack m) vf (nOpCount m) (pbegincodehash m).

Section Machine.
(** [checker.CheckSig(vchSig, vchPubKey, scriptCode)]. *)
Variable CheckSig : list Z -> list Z -> list Z -> bool.
(** The [flags] argument. *)
Variable flags : Z.

Definition fRequireMinimal : bool := flag flags SCRIPT_VERIFY_MINIMALDATA.

(** [CScriptNum(vch, fRequireMinimal)], its exception caught. *)
Definition scriptnum (vch : list Z) : result Z :=
  match CScriptNum vch fRequireMinimal with Some n => Ok n | None => Err SCRIPT_ERR_UNKNOWN_ERROR end.

(** Stack operations: the new stack, or nothing when it is too short. *)
Definition stack_op (op : opcodetype) (st : list (list Z)) : option (list (list Z)) :=
  match op, st with
  | OP_2DROP, x2 :: x1 :: st => Some st
  | OP_2DUP, x2 :: x1 :: st => Some (x2 :: x1 :: x2 :: x1 :: st)
  | OP_3DUP, x3 :: x2 :: x1 :: st => Some (x3 :: x2 :: x1 :: x3 :: x2 :: x1 :: st)
  | OP_2OVER, x4 :: x3 :: x2 :: x1 :: st => Some (x2 :: x1 :: x4 :: x3 :: x2 :: x1 :: st)
  | OP_2ROT, x6 :: x5 :: x4 :: x3 :: x2 :: x1 :: st => Some (x2 :: x1 :: x6 :: x5 :: x4 :: x3 :: st)
  | OP_2SWAP, x4 :: x3 :: x2 :: x1 :: st => Some (x2 :: x1 :: x4 :: x3 :: st)
  | OP_IFDUP, x :: st => Some (if CastToBool x then x :: x :: st else x :: st)
  | OP_DEPTH, st => Some (serialize (Z.of_nat (length st)) :: st)
  | OP_DROP, x :: st => Some st
  | OP_DUP, x :: st => Some (x :: x :: st)
  | OP_NIP, x2 :: x1 :: st => Some (x2 :: st)
  | OP_OVER, x2 :: x1 :: st => Some (x1 :: x2 :: x1 :: st)
  | OP_ROT, x3 :: x2 :: x1 :: st => Some (x1 :: x3 :: x2 :: st)
  | OP_SWAP, x2 :: x1 :: st => Some (x1 :: x2 :: st)
  | OP_TUCK, x2 :: x1 :: st => Some (x2 :: x1 :: x2 :: st)
  | OP_SIZE, x :: st => Some (serialize (Z.of_nat (length x)) :: x :: st)
  | _, _ => None
  end.

(** [OP_PICK] and [OP_ROLL]. *)
Definition pick_roll (roll : bool) (st : list (list Z)) : result (list (list Z)) :=
  match st with
  | x :: (_ :: _) as st' =>
      let st := tl st' in
      let* bn := scriptnum x in
      let n := getint bn in
      if (n <? 0) || (n >=? Z.of_nat (length st)) then Err SCRIPT_ERR_INVALID_STACK_OPERATION
      else
        let k := Z.to_nat n in
        let vch := nth k st [] in
        Ok (vch :: if roll then firstn k st ++ skipn (S k) st else st)
  | _ => Err SCRIPT_ERR_INVALID_STACK_OPERATION
  end.

Definition Z_of_bool (b : bool) : Z := if b then 1 else 0.

(** The unary and binary numeric operations. *)
Definition unary_op (op : opcodetype) (bn : Z) : Z :=
  match op with
  | OP_1ADD => bn + 1
  | OP_1SUB => bn - 1
  | OP_NEGATE => - bn
  | OP_ABS => if bn <? 0 then - bn else bn
  | OP_NOT => Z_of_bool (bn =? 0)
  | _ => Z_of_bool (negb (bn =? 0))
  end.

Definition binary_op (op : opcodetype) (bn1 bn2 : Z) : Z :=
  match op with
  | OP_ADD => bn1 + bn2
  | OP_SUB => bn1 - bn2
  | OP_BOOLAND => Z_of_bool (negb (bn1 =? 0) && negb (bn2 =? 0))
  | OP_BOOLOR => Z_of_bool (negb (bn1 =? 0) || negb (bn2 =? 0))
  | OP_NUMEQUAL | OP_NUMEQUALVERIFY => Z_of_bool (bn1 =? bn2)
  | OP_NUMNOTEQUAL => Z_of_bool (negb (bn1 =? bn2))
  | OP_LESSTHAN => Z_of_bool (bn1 <? bn2)
  | OP_GREATERTHAN => Z_of_bool (bn1 >? bn2)
  | OP_LESSTHANOREQUAL => Z_of_bool (bn1 <=? bn2)
  | OP_GREATERTHANOREQUAL => Z_of_bool (bn1 >=? bn2)
  | OP_MIN => if bn1 <? bn2 then bn1 else bn2
  | _ => if bn1 >? bn2 then bn1 else bn2
  end.

(** A hash opcode. *)
Definition hash_op (op : opcodetype) (vch : list Z) : list Z :=
  match op with
  | OP_RIPEMD160 => Ripemd160.Finalize (Ripemd160.Write Ripemd160.CRIPEMD160_init vch)
  | OP_SHA1 => Sha1.Finalize (Sha1.Write Sha1.CSHA1_init vch)
  | OP_SHA256 => Sha256.Finalize (Sha256.Write Sha256.CSHA256_init vch)
  | OP_HASH160 => Ripemd160.CHash160_Finalize (Sha256.Write Sha256.CSHA256_init vch)
  | _ => Sha256.CHash256_Finalize (Sha256.Write Sha256.CSHA256_init vch)
  end.

(** What follows a boolean result: it is pushed, and a VERIFY opcode pops it
    again or fails. *)
Definition push_verify (verify : option ScriptError) (b : bool) (st : list (list Z)) : result (list (list Z)) :=
  match verify with
  | None => Ok (vchBool b :: st)
  | Some e => if b then Ok st else Err e
  end.

(** [!CheckSignatureEncoding(...) || !CheckPubKeyEncoding(...)]. *)
Definition check_encodings (vchSig vchPubKey : list Z) : option ScriptError :=
  match CheckSignatureEncoding vchSig flags with
  | Some e => Some e
  | None => CheckPubKeyEncoding vchPubKey flags
  end.

Definition checksig (verify : option ScriptError) (code : list Z) (st : list (list Z)) : result (list (list Z)) :=
  match st with
  | vchPubKey :: vchSig :: st =>
      let scriptCode := snd (FindAndDelete code (push_data [] vchSig)) in
      match check_encodings vchSig vchPubKey with
      | Some e => Err e
      | None => push_verify verify (CheckSig vchSig vchPubKey scriptCode) st
      end
  | _ => Err SCRIPT_ERR_INVALID_STACK_OPERATION
  end.

(** The [while (fSuccess && nSigsCount > 0)] loop; signatures and keys are
    listed from the top of the stack. *)
Fixpoint multisig_loop (scriptCode : list Z) (sigs keys : list (list Z)) : result bool :=
  match sigs, keys with
  | [], _ => Ok true
  | _, [] => Ok false
  | vchSig :: sigs', vchPubKey :: keys' =>
      match check_encodings vchSig vchPubKey with
      | Some e => Err e
      | None =>
          let sigs := if CheckSig vchSig vchPubKey scriptCode then sigs' else sigs in
          if (length keys' <? length sigs)%nat then Ok false else multisig_loop scriptCode sigs keys'
      end
  end.

(** [OP_CHECKMULTISIG(VERIFY)]: the new stack and operation count. *)
Definition checkmultisig (verify : option ScriptError) (code : list Z) (st : list (list Z)) (nOpCount : Z)
  : result (list (list Z) * Z) :=
  match st with
  | [] => Err SCRIPT_ERR_INVALID_STACK_OPERATION
  | top :: rest =>
      let* bn := scriptnum top in
      let nKeysCount := getint bn in
      if (nKeysCount <? 0) || (nKeysCount >? 20) then Err SCRIPT_ERR_PUBKEY_COUNT
      else
        let nOpCount := nOpCount + nKeysCount in
        if nOpCount >? 201 then Err SCRIPT_ERR_OP_COUNT
        else
          let nkeys := Z.to_nat nKeysCount in
          if (length st <? 2 + nkeys)%nat then Err SCRIPT_ERR_INVALID_STACK_OPERATION
          else
            let* bn := scriptnum (nth nkeys rest []) in
            let nSigsCount := getint bn in
            if (nSigsCount <? 0) || (nSigsCount >? nKeysCount) then Err SCRIPT_ERR_SIG_COUNT
            else
              let nsigs := Z.to_nat nSigsCount in
              if (length st <? 3 + nkeys + nsigs)%nat then Err SCRIPT_ERR_INVALID_STACK_OPERATION
              else
                let keys := firstn nkeys rest in
                let sigs := firstn nsigs (skipn (1 + nkeys) rest) in
                let scriptCode := fold_left (fun code vchSig => snd (FindAndDelete code (push_data [] vchSig))) sigs code in
                let* fSuccess := multisig_loop scriptCode sigs keys in
                match skipn (1 + nkeys + nsigs) rest with
                | [] => Err SCRIPT_ERR_INVALID_STACK_OPERATION
                | dummy :: st =>
                    if flag flags SCRIPT_VERIFY_NULLDUMMY && (0 <? length dummy)%nat
                    then Err SCRIPT_ERR_SIG_NULLDUMMY
                    else let* st := push_verify verify fSuccess st in Ok (st, nOpCount)
                end
  end.

(** The [switch (opcode)]; [pc] is already past the instruction. *)
Definition switch (opcode : Z) (fExec : bool) (m : machine) : result machine :=
  let st := stack m in
  let invalid := Err SCRIPT_ERR_INVALID_STACK_OPERATION in
  match enumerator opcode with
  | Some (OP_1NEGATE | OP_1 | OP_2 | OP_3 | OP_4 | OP_5 | OP_6 | OP_7 | OP_8 | OP_9 | OP_10 | OP_11
         | OP_12 | OP_13 | OP_14 | OP_15 | OP_16) =>
      Ok (with_stack m (serialize (opcode - (value OP_1 - 1)) :: st))
  | Some OP_NOP => Ok m
  | Some (OP_NOP1 | OP_NOP2 | OP_NOP3 | OP_NOP4 | OP_NOP5 | OP_NOP6 | OP_NOP7 | OP_NOP8 | OP_NOP9 | OP_NOP10) =>
      if flag flags SCRIPT_VERIFY_DISCOURAGE_UPGRADABLE_NOPS
      then Err SCRIPT_ERR_DISCOURAGE_UPGRADABLE_NOPS else Ok m
  | Some ((OP_IF | OP_NOTIF) as op) =>
      if fExec then
        match st with
        | [] => Err SCRIPT_ERR_UNBALANCED_CONDITIONAL
        | vch :: st =>
            let fValue := CastToBool vch in
            let fValue := match op with OP_NOTIF => negb fValue | _ => fValue end in
            Ok (with_exec m st (fValue :: vfExec m))
        end
      else Ok (with_exec m st (false :: vfExec m))
  | Some OP_ELSE =>
      match vfExec m with
      | [] => Err SCRIPT_ERR_UNBALANCED_CONDITIONAL
      | b :: vf => Ok (with_exec m st (negb b :: vf))
      end
  | Some OP_ENDIF =>
      match vfExec m with
      | [] => Err SCRIPT_ERR_UNBALANCED_CONDITIONAL
      | _ :: vf => Ok (with_exec m st vf)
      end
  | Some OP_VERIFY =>
      match st with
      | [] => invalid
      | vch :: st => if CastToBool vch then Ok (with_stack m st) else Err SCRIPT_ERR_VERIFY
      end
  | Some OP_RETURN => Err SCRIPT_ERR_OP_RETURN
  | Some OP_TOALTSTACK =>
      match st with
      | [] => invalid
      | vch :: st => Ok (with_alt m st (vch :: altstack m))
      end
  | Some OP_FROMALTSTACK =>
      match altstack m with
      | [] => Err SCRIPT_ERR_INVALID_ALTSTACK_OPERATION
      | vch :: alt => Ok (with_alt m (vch :: st) alt)
      end
  | Some ((OP_2DROP | OP_2DUP | OP_3DUP | OP_2OVER | OP_2ROT | OP_2SWAP | OP_IFDUP | OP_DEPTH | OP_DROP | OP_DUP
         | OP_NIP | OP_OVER | OP_ROT | OP_SWAP | OP_TUCK | OP_SIZE) as op) =>
      match stack_op op st with
      | None => invalid
      | Some st => Ok (with_stack m st)
      end
  | Some ((OP_PICK | OP_ROLL) as op) =>
      let* st := pick_roll (match op with OP_ROLL => true | _ => false end) st in Ok (with_stack m st)
  | Some ((OP_EQUAL | OP_EQUALVERIFY) as op) =>
      match st with
      | vch2 :: vch1 :: st =>
          let fEqual := if list_eq_dec Z.eq_dec vch1 vch2 then true else false in
          let verify := match op with OP_EQUALVERIFY => Some SCRIPT_ERR_EQUALVERIFY | _ => None end in
          let* st := push_verify verify fEqual st in Ok (with_stack m st)
      | _ => invalid
      end
  | Some ((OP_1ADD | OP_1SUB | OP_NEGATE | OP_ABS | OP_NOT | OP_0NOTEQUAL) as op) =>
      match st with
      | vch :: st => let* bn := scriptnum vch in Ok (with_stack m (serialize (unary_op op bn) :: st))
      | _ => invalid
      end
  | Some ((OP_ADD | OP_SUB | OP_BOOLAND | OP_BOOLOR | OP_NUMEQUAL | OP_NUMEQUALVERIFY | OP_NUMNOTEQUAL | OP_LESSTHAN
         | OP_GREATERTHAN | OP_LESSTHANOREQUAL | OP_GREATERTHANOREQUAL | OP_MIN | OP_MAX) as op) =>
      match st with
      | vch2 :: vch1 :: st =>
          let* bn1 := scriptnum vch1 in
          let* bn2 := scriptnum vch2 in
          let vch := serialize (binary_op op bn1 bn2) in
          match op with
          | OP_NUMEQUALVERIFY =>
              if CastToBool vch then Ok (with_stack m st) else Err SCRIPT_ERR_NUMEQUALVERIFY
          | _ => Ok (with_stack m (vch :: st))
          end
      | _ => invalid
      end
  | Some OP_WITHIN =>
      match st with
      | vch3 :: vch2 :: vch1 :: st =>
          let* bn1 := scriptnum vch1 in
          let* bn2 := scriptnum vch2 in
          let* bn3 := scriptnum vch3 in
          Ok (with_stack m (vchBool ((bn2 <=? bn1) && (bn1 <? bn3)) :: st))
      | _ => invalid
      end
  | Some ((OP_RIPEMD160 | OP_SHA1 | OP_SHA256 | OP_HASH160 | OP_HASH256) as op) =>
      match st with
      | vch :: st => Ok (with_stack m (hash_op op vch :: st))
      | _ => invalid
      end
  | Some OP_CODESEPARATOR =>
      Ok (mkMachine (pc m) st (altstack m) (vfExec m) (nOpCount m) (pc m))
  | Some ((OP_CHECKSIG | OP_CHECKSIGVERIFY) as op) =>
      let verify := match op with OP_CHECKSIGVERIFY => Some SCRIPT_ERR_CHECKSIGVERIFY | _ => None end in
      let* st := checksig verify (pbegincodehash m) st in Ok (with_stack m st)
  | Some ((OP_CHECKMULTISIG | OP_CHECKMULTISIGVERIFY) as op) =>
      let verify := match op with OP_CHECKMULTISIGVERIFY => Some SCRIPT_ERR_CHECKMULTISIGVERIFY | _ => None end in
      let* r := checkmultisig verify (pbegincodehash m) st (nOpCount m) in
      Ok (mkMachine (pc m) (fst r) (altstack m) (vfExec m) (snd r) (pbegincodehash m))
  | _ => Err SCRIPT_ERR_BAD_OPCODE
  end.

Definition disabled (opcode : Z) : bool :=
  existsb (fun op => opcode =? value op)
    [OP_CAT; OP_SUBSTR; OP_LEFT; OP_RIGHT; OP_INVERT; OP_AND; OP_OR; OP_XOR; OP_2MUL; OP_2DIV; OP_MUL; OP_DIV;
     OP_MOD; OP_LSHIFT; OP_RSHIFT].

(** The body of [while (pc < pend)]. *)
Definition step (m : machine) : result machine :=
  let fExec := forallb (fun b => b) (vfExec m) in
  match GetOp (pc m) with
  | None => Err SCRIPT_ERR_BAD_OPCODE
  | Some (opcode, vchPushValue, pc) =>
      if Z.of_nat (length vchPushValue) >? MAX_SCRIPT_ELEMENT_SIZE then Err SCRIPT_ERR_PUSH_SIZE
      else
        let n := if opcode >? value OP_16 then nOpCount m + 1 else nOpCount m in
        if (opcode >? value OP_16) && (n >? 201) then Err SCRIPT_ERR_OP_COUNT
        else if disabled opcode then Err SCRIPT_ERR_DISABLED_OPCODE
        else
          let m := mkMachine pc (stack m) (altstack m) (vfExec m) n (pbegincodehash m) in
          let* m :=
            (if fExec && (0 <=? opcode) && (opcode <=? value OP_PUSHDATA4) then
               if fRequireMinimal && negb (CheckMinimalPush vchPushValue opcode) then Err SCRIPT_ERR_MINIMALDATA
               else Ok (with_stack m (vchPushValue :: stack m))
             else if fExec || ((value OP_IF <=? opcode) && (opcode <=? value OP_ENDIF)) then switch opcode fExec m
             else Ok m) in
          if (1000 <? length (stack m) + length (altstack m))%nat then Err SCRIPT_ERR_STACK_SIZE else Ok m
  end.

(** The loop; [None] when the fuel does not suffice. *)
Fixpoint eval_loop (fuel : nat) (m : machine) : option (result machine) :=
  match pc m with
  | [] => Some (Ok m)
  | _ =>
      match fuel with
      | O => None
      | S fuel =>
          match step m with
          | Err e => Some (Err e)
          | Ok m => eval_loop fuel m
          end
      end
  end.

(** [EvalScript]: the stack it leaves. *)
Definition EvalScript (st : list (list Z)) (script : list Z) : option (result (list (list Z))) :=
  if 10000 <? Z.of_nat (length script) then Some (Err SCRIPT_ERR_SCRIPT_SIZE)
  else
    match eval_loop (length script) (mkMachine script st [] [] 0 script) with
    | None => None
    | Some (Err e) => Some (Err e)
    | Some (Ok m) =>
        match vfExec m with
        | _ :: _ => Some (Err SCRIPT_ERR_UNBALANCED_CONDITIONAL)
        | [] => Some (Ok (stack m))
        end
    end.

(** The verdict on the top of a stack. *)
Definition eval_true (st : list (list Z)) : result unit :=
  match st with
  | [] => Err SCRIPT_ERR_EVAL_FALSE
  | vch :: _ => if CastToBool vch then Ok tt else Err SCRIPT_ERR_EVAL_FALSE
  end.

Definition VerifyScript (scriptSig scriptPubKey : list Z) : option (result unit) :=
  if flag flags SCRIPT_VERIFY_SIGPUSHONLY && negb (IsPushOnly scriptSig) then Some (Err SCRIPT_ERR_SIG_PUSHONLY)
  else
    match EvalScript [] scriptSig with
    | None => None
    | Some (Err e) => Some (Err e)
    | Some (Ok stack) =>
        let stackCopy := stack in
        match EvalScript stack scriptPubKey with
        | None => None
        | Some (Err e) => Some (Err e)
        | Some (Ok stack) =>
            match eval_true stack with
            | Err e => Some (Err e)
            | Ok _ =>
                if flag flags SCRIPT_VERIFY_P2SH && IsPayToScriptHash scriptPubKey then
                  if negb (IsPushOnly scriptSig) then Some (Err SCRIPT_ERR_SIG_PUSHONLY)
                  else
                    match stackCopy with
                    | [] => Some (Err SCRIPT_ERR_UNKNOWN_ERROR)
                    | pubKeySerialized :: stackCopy =>
                        match EvalScript stackCopy pubKeySerialized with
                        | None => None
                        | Some (Err e) => Some (Err e)
                        | Some (Ok stackCopy) => Some (eval_true stackCopy)
                        end
                    end
                else Some (Ok tt)
            end
        end
    end.

End Machine.

(** ** Termination *)

Lemma Ok_inj {A} (a b : A) : Ok a = Ok b -> a = b.
Proof. intros [= ->]; reflexivity. Qed.

(** Analysis of a successful run of some code: every test it made. *)
Ltac ok_step :=
  match goal with
  | H : Err _ = Ok _ |- _ => discriminate H
  | H : None = Some _ |- _ => discriminate H
  | H : Ok _ = Ok _ |- _ => apply Ok_inj in H; subst
  | H : Some _ = Some _ |- _ => apply Some_inj in H; subst
  | H : (_, _) = (_, _) |- _ => injection H as ? ?; subst
  | H : bind ?r _ = Ok _ |- _ => let E := fresh "E" in destruct r eqn:E; cbn [bind] in H
  | H : (if ?b then _ else _) = _ |- _ => let E := fresh "B" in destruct b eqn:E
  | H : match ?x with _ => _ end = Ok _ |- _ => let E := fresh "E" in destruct x eqn:E
  | H : match ?x with _ => _ end = Some _ |- _ => let E := fresh "E" in destruct x eqn:E
  end.

Ltac ok_steps := repeat (cbv beta zeta in *; ok_step).

Section Facts.
Variable CheckSig : list Z -> list Z -> list Z -> bool.
Variable flags : Z.

(** An instruction does not move the iterator itself. *)
Lemma switch_pc opcode fExec m m' : switch CheckSig flags opcode fExec m = Ok m' -> pc m' = pc m.
Proof.
  unfold switch; destruct (enumerator opcode) as [[]|]; intros H; ok_steps; reflexivity.
Qed.

(** One step reads one instruction. *)
Lemma step_pc m m' : step CheckSig flags m = Ok m' ->
  exists opcode data, GetOp (pc m) = Some (opcode, data, pc m').
Proof.
  unfold step; destruct (GetOp (pc m)) as [[[opcode data] rest]|]; [|discriminate]; intros H; ok_steps;
    (exists opcode, data; do 2 f_equal);
    repeat match goal with E : switch _ _ _ _ _ = Ok _ |- _ => apply switch_pc in E end; cbn [pc with_stack] in *; congruence.
Qed.

Lemma eval_loop_total fuel : forall m, (length (pc m) <= fuel)%nat -> eval_loop CheckSig flags fuel m <> None.
Proof.
  induction fuel as [|fuel IH]; intros m Hf; destruct (pc m) as [|x p] eqn:E; cbn [eval_loop]; rewrite E; try discriminate;
    cbn [length] in Hf; [lia|].
  destruct (step CheckSig flags m) as [m'|e] eqn:Es; [|discriminate]; apply IH.
  destruct (step_pc m m' Es) as (o & d & G); apply GetOp_shorter in G; rewrite E in G; cbn [length] in G; lia.
Qed.

Lemma EvalScript_total st script : EvalScript CheckSig flags st script <> None.
Proof.
  unfold EvalScript; destruct (10000 <? _); [discriminate|].
  pose proof (eval_loop_total (length script) (mkMachine script st [] [] 0 script) (le_n _)).
  destruct (eval_loop _ _ _ _) as [[m|e]|]; try discriminate; [|contradiction].
  destruct (vfExec m); discriminate.
Qed.

Lemma VerifyScript_total scriptSig scriptPubKey : exists r, VerifyScript CheckSig flags scriptSig scriptPubKey = Some r.
Proof.
  assert (E : forall st script, exists r, EvalScript CheckSig flags st script = Some r).
  { intros st' script; pose proof (EvalScript_total st' script).
    destruct (EvalScript _ _ st' script) as [r|]; [exists r; reflexivity|contradiction]. }
  unfold VerifyScript; destruct (_ && _); [eexists; reflexivity|].
  destruct (E [] scriptSig) as [[st1|] ->]; [|eexists; reflexivity].
  destruct (E st1 scriptPubKey) as [[st2|] ->]; [|eexists; reflexivity].
  destruct (eval_true st2); [|eexists; reflexivity]; destruct (_ && _); [|eexists; reflexivity].
  destruct (negb _); [eexists; reflexivity|]; destruct st1 as [|x st1]; [eexists; reflexivity|].
  destruct (E st1 x) as [[st3|] ->]; eexists; reflexivity.
Qed.

(** ** Bounds *)

Definition element (v : list Z) : Prop := Forall u8 v /\ (length v <= 520)%nat.

Lemma serialize_element n : Z.abs n < 2 ^ 63 -> element (serialize n).
Proof.
  intros H; split; [apply set_vch_serialize, H|].
  pose proof (proj1 (serialize_length n 8 ltac:(lia) ltac:(lia)) H); lia.
Qed.

Lemma vchBool_element b : element (vchBool b).
Proof. destruct b; split; cbn; try lia; repeat constructor; unfold u8; lia. Qed.

(** A script number is below 2^31 in magnitude, minimal or not. *)
Lemma scriptnum_range v n : Forall u8 v -> scriptnum flags v = Ok n -> Z.abs n < 2 ^ 31.
Proof.
  intros Hu; unfold scriptnum, CScriptNum, nMaxNumSize; destruct (Nat.ltb_spec 4 (length v)); [discriminate|].
  destruct (_ && _); [discriminate|]; intros [= <-].
  destruct v as [|y v]; [cbn; lia|]; destruct (exists_last (l := y :: v)) as (l & b & E); [discriminate|]; rewrite E in *.
  pose proof Hu as Hu'; apply Forall_app in Hu' as [Hul Hub]; inversion Hub as [|? ? Hb _]; subst.
  rewrite length_app in *; cbn [length] in *; rewrite set_vch_snoc by (assumption || lia).
  pose proof (le_val_bound l Hul) as B; unfold u8 in Hb; rewrite le_val_app; cbn [le_val].
  assert (P : 2 ^ (8 * Z.of_nat (length l)) <= 2 ^ 24) by (apply Z.pow_le_mono_r; lia).
  destruct (Z.ltb_spec b 128); nia.
Qed.

Lemma unary_range op n : Z.abs n < 2 ^ 31 -> Z.abs (unary_op op n) <= 2 ^ 31.
Proof. intros H; destruct op; cbn [unary_op]; try destruct (_ <? _); try destruct (n =? 0); cbn; lia. Qed.

Lemma binary_range op a b : Z.abs a < 2 ^ 31 -> Z.abs b < 2 ^ 31 -> Z.abs (binary_op op a b) < 2 ^ 32.
Proof.
  intros Ha Hb; assert (B : forall c, Z.abs (Z_of_bool c) < 2 ^ 32) by (intros []; cbn; lia).
  destruct op; cbn [binary_op]; try apply B; try destruct (_ <? _); try destruct (_ >? _); lia.
Qed.

Lemma bytes_element (f : Z -> list Z) (l : list Z) (n : nat) :
  (forall x, Forall u8 (f x) /\ length (f x) = 4%nat) -> (n <= 130)%nat -> element (flat_map (fun j => f l.[j]) (seq 0 n)).
Proof.
  intros Hf Hl; split.
  - apply Forall_flat_map, Forall_forall; intros j _; apply Hf.
  - rewrite (flat_map_constant_length (c := 4)) by (intros j _; apply Hf); rewrite length_seq; lia.
Qed.

Lemma be32_bytes x : Forall u8 (Sha256.WriteBE32 x) /\ length (Sha256.WriteBE32 x) = 4%nat.
Proof. split; [repeat constructor; apply T8_u8|reflexivity]. Qed.

Lemma le32_bytes x : Forall u8 (sph_enc32le x) /\ length (sph_enc32le x) = 4%nat.
Proof. split; [repeat constructor; apply T8_u8|reflexivity]. Qed.


Lemma hash_element op v : element (hash_op op v).
Proof.
  destruct op; cbn [hash_op]; unfold Ripemd160.CHash160_Finalize, Sha256.CHash256_Finalize, Ripemd160.Finalize, Sha1.Finalize,
    Sha256.Finalize, HashStream.Finalize, Ripemd160.output, Sha1.output, Sha256.output;
    apply bytes_element; (apply be32_bytes || apply le32_bytes || lia).
Qed.

Lemma unary_element op v n : element v -> scriptnum flags v = Ok n -> element (serialize (unary_op op n)).
Proof. intros H E; pose proof (unary_range op n (scriptnum_range v n (proj1 H) E)); apply serialize_element; lia. Qed.

Lemma binary_element op v w a b : element v -> element w -> scriptnum flags v = Ok a -> scriptnum flags w = Ok b ->
  element (serialize (binary_op op a b)).
Proof.
  intros Hv Hw Ea Eb; apply serialize_element.
  pose proof (binary_range op a b (scriptnum_range v a (proj1 Hv) Ea) (scriptnum_range w b (proj1 Hw) Eb)); lia.
Qed.

Ltac elements :=
  repeat match goal with H : Forall element (_ :: _) |- _ => apply Forall_cons_iff in H as [? H] end;
  repeat (apply Forall_cons; [first [assumption|apply vchBool_element|apply hash_element|eapply unary_element; [|eassumption]; assumption
                             |eapply binary_element; [| |eassumption|eassumption]; assumption|apply serialize_element; try lia]|]);
  try assumption.

Lemma element_length v : element v -> (length v <= 520)%nat.
Proof. intros H; apply H. Qed.

Lemma stack_op_elements op st st' : Forall element st -> (length st <= 1000)%nat -> stack_op op st = Some st' ->
  Forall element st'.
Proof.
  intros He Hl H; destruct op; try discriminate H; unfold stack_op in H; ok_steps;
    try destruct (CastToBool _); elements.
  match goal with E : element ?x |- Z.abs (Z.of_nat (length ?x)) < _ => apply element_length in E; lia end.
Qed.

Lemma pick_roll_elements roll st st' : Forall element st -> pick_roll flags roll st = Ok st' -> Forall element st'.
Proof.
  intros He H; unfold pick_roll in H; destruct st as [|x [|y st]]; try discriminate H.
  apply Forall_cons_iff in He as [_ He]; cbn [tl] in H.
  destruct (scriptnum flags x) as [n|]; cbn [bind] in H; [|discriminate H].
  destruct ((getint n <? 0) || (getint n >=? Z.of_nat (length st))) eqn:B; [discriminate H|]; injection H as <-.
  apply Forall_cons_iff in He as [_ He].
  apply orb_false_iff in B as [B1 B2]; rewrite Z.geb_leb in B2; apply Z.leb_gt in B2; apply Z.ltb_ge in B1.
  apply Forall_cons; [eapply Forall_nth; [exact He|lia]|].
  destruct roll; [|exact He]; apply Forall_app; split; [apply (Forall_split element (Z.to_nat (getint n)) _ He)|apply (Forall_split element (S _) _ He)].
Qed.

Lemma push_verify_elements verify b st st' : Forall element st -> push_verify verify b st = Ok st' -> Forall element st'.
Proof. intros He H; unfold push_verify in H; ok_steps; elements. Qed.

Lemma checksig_elements verify code st st' : Forall element st -> checksig CheckSig flags verify code st = Ok st' ->
  Forall element st'.
Proof. intros He H; unfold checksig in H; ok_steps; elements; eapply push_verify_elements; eassumption. Qed.

Lemma checkmultisig_elements verify code st n st' n' : Forall element st -> 0 <= n ->
  checkmultisig CheckSig flags verify code st n = Ok (st', n') -> Forall element st' /\ n <= n' <= 201.
Proof.
  intros He Hn H; unfold checkmultisig in H; ok_steps.
  all: repeat match goal with B : _ || _ = false |- _ => apply orb_false_iff in B as [? ?] end.
  all: repeat match goal with B : (_ <? _) = false |- _ => apply Z.ltb_ge in B | B : (_ >? _) = false |- _ => rewrite Z.gtb_ltb in B end.
  all: split; [|lia]; eapply push_verify_elements; [|eassumption].
  all: apply Forall_cons_iff in He as [_ He].
  all: match goal with E : skipn ?k ?l = _ :: ?r |- Forall element ?r => pose proof (proj2 (Forall_split element k l He)) as F; rewrite E in F end.
  all: apply Forall_cons_iff in F as [_ F]; exact F.
Qed.

(** What holds of the machine whenever [step] returns. *)
Record within_limits (m : machine) : Prop := {
  limit_stack : Forall element (stack m);
  limit_alt : Forall element (altstack m);
  limit_size : (length (stack m) + length (altstack m) <= 1000)%nat;
  limit_ops : 0 <= nOpCount m <= 201;
  limit_pc : Forall u8 (pc m)
}.

(** ... and, the size of the stack apart, whenever [switch] does. *)
Lemma switch_limits opcode fExec m m' : within_limits m -> 0 <= opcode < 256 -> switch CheckSig flags opcode fExec m = Ok m' ->
  Forall element (stack m') /\ Forall element (altstack m') /\ 0 <= nOpCount m' <= 201.
Proof.
  intros [Hs Ha Hl Hn _] Ho H; unfold switch in H.
  destruct (enumerator opcode) as [op|] eqn:Eo; [|discriminate H]; destruct op.
  all: ok_steps; cbn [stack altstack nOpCount with_stack with_alt with_exec] in *.
  all: try (repeat match goal with E : stack _ = _ |- _ => rewrite E in Hs end; split; [|split]; [|assumption|assumption]).
  all: try solve [elements; cbn [value]; lia].
  all: try solve [repeat split; elements; apply Hn].
  all: try solve [first [eapply stack_op_elements; [..|eassumption]|eapply pick_roll_elements; [|eassumption]
                        |eapply push_verify_elements; [|eassumption]|eapply checksig_elements; [|eassumption]];
                  first [assumption|lia|elements]].
  all: match goal with E : checkmultisig _ _ _ _ _ _ = Ok ?a |- _ => destruct a end;
    match goal with E : checkmultisig _ _ _ _ _ _ = Ok _ |- _ => apply checkmultisig_elements in E as [? ?]; [|assumption|lia] end.
  all: repeat split; cbn [fst snd]; assumption || lia.
Qed.

Lemma step_limits m m' : within_limits m -> step CheckSig flags m = Ok m' -> within_limits m'.
Proof.
  intros L H; unfold step in H; destruct (GetOp (pc m)) as [[[o d] p]|] eqn:G; [|discriminate H].
  destruct (GetOp_bytes _ _ _ _ (limit_pc m L) G) as (Ho & Hd & Hp).
  destruct (_ >? MAX_SCRIPT_ELEMENT_SIZE) eqn:S; [discriminate H|]; rewrite Z.gtb_ltb in S; apply Z.ltb_ge in S.
  set (n := if o >? value OP_16 then nOpCount m + 1 else nOpCount m) in H.
  destruct (_ && (n >? 201)) eqn:N; [discriminate H|]; destruct (disabled o); [discriminate H|].
  assert (Hn : 0 <= n <= 201).
  { pose proof (limit_ops m L); subst n; destruct (o >? value OP_16); [|assumption].
    cbn [andb] in N; rewrite Z.gtb_ltb in N; apply Z.ltb_ge in N; lia. }
  set (m0 := mkMachine p (stack m) (altstack m) (vfExec m) n (pbegincodehash m)) in H.
  assert (L0 : within_limits m0) by (constructor; [apply L|apply L|apply L|exact Hn|exact Hp]).
  destruct (if _ && _ then _ else _) as [m1|e] eqn:E; cbn [bind] in H; [|discriminate H].
  destruct (1000 <? _)%nat eqn:Z0; [discriminate H|]; apply Nat.ltb_ge in Z0; apply Ok_inj in H; subst m1.
  assert (P : pc m' = p /\ Forall element (stack m') /\ Forall element (altstack m') /\ 0 <= nOpCount m' <= 201).
  { ok_steps.
    - cbn; repeat split; try apply L; try apply Hn; constructor; [split; [exact Hd|unfold MAX_SCRIPT_ELEMENT_SIZE in S; lia]|apply L].
    - split; [apply (switch_pc _ _ _ _ E)|apply (switch_limits o _ m0 m' L0 Ho E)].
    - split; [reflexivity|split; [apply L0|split; [apply L0|exact Hn]]]. }
  destruct P as (<- & P1 & P2 & P3); constructor; assumption.
Qed.

(** The machines a run goes through. *)
Inductive reaches (m : machine) : machine -> Prop :=
| reaches_refl : reaches m m
| reaches_step m1 m2 : reaches m m1 -> step CheckSig flags m1 = Ok m2 -> reaches m m2.

Lemma reaches_trans m m1 m2 : reaches m m1 -> reaches m1 m2 -> reaches m m2.
Proof. intros H; induction 1; [exact H|econstructor; eassumption]. Qed.

Lemma eval_loop_reaches fuel : forall m m', eval_loop CheckSig flags fuel m = Some (Ok m') -> reaches m m' /\ pc m' = [].
Proof.
  induction fuel as [|fuel IH]; intros m m'; cbn [eval_loop]; destruct (pc m) as [|x p] eqn:E; try discriminate;
    try (intros [= <-]; split; [constructor|exact E]).
  destruct (step CheckSig flags m) as [m1|e] eqn:Es; [|discriminate].
  intros H; destruct (IH m1 m' H) as [R P]; split; [|exact P].
  eapply reaches_trans; [econstructor; [constructor|exact Es]|exact R].
Qed.

Definition start (st : list (list Z)) (script : list Z) : machine := mkMachine script st [] [] 0 script.

Lemma reaches_limits m m' : reaches m m' -> within_limits m -> within_limits m'.
Proof. induction 1 as [|m1 m2 _ IH S]; intros L; [exact L|exact (step_limits m1 m2 (IH L) S)]. Qed.

Lemma start_limits st script : Forall u8 script -> Forall element st -> (length st <= 1000)%nat -> within_limits (start st script).
Proof. intros Hu He Hl; constructor; cbn; try assumption; try lia; constructor. Qed.

Lemma EvalScript_reaches st script st' : EvalScript CheckSig flags st script = Some (Ok st') ->
  exists m, reaches (start st script) m /\ pc m = [] /\ vfExec m = [] /\ stack m = st'.
Proof.
  unfold EvalScript; destruct (10000 <? _); [discriminate|].
  destruct (eval_loop _ _ _ _) as [[m|e]|] eqn:E; try discriminate; destruct (vfExec m) eqn:V; [|discriminate].
  intros [= <-]; exists m; destruct (eval_loop_reaches _ _ _ E); auto.
Qed.

End Facts.

End Interpreter.
