(* ===== verification/ScriptSafety.v ===== *)
(** What script verification guarantees, for every signature checker: it ends,
    its machine stays within the limits of the protocol, its arithmetic does
    not overflow, and verification flags only ever forbid. *)
From S2P Require Import Prelude SphTypes Script SigEncoding Interpreter.
Import Script SigEncoding Interpreter.

Module ScriptSafety.

Section Safety.
Variable CheckSig : list Z -> list Z -> list Z -> bool.

(** C28: evaluation always ends: the loop of [EvalScript] runs at most once per
    byte of the script, so [EvalScript] and [VerifyScript] return on every
    input, with a verdict or an error. *)
Theorem scripts_terminate flags st scriptSig scriptPubKey :
  (exists r, EvalScript CheckSig flags st scriptSig = Some r) /\
  (exists r, VerifyScript CheckSig flags scriptSig scriptPubKey = Some r).
Proof.
  split; [|apply VerifyScript_total].
  pose proof (EvalScript_total CheckSig flags st scriptSig).
  destruct (EvalScript _ _ st scriptSig) as [r|]; [exists r; reflexivity|contradiction].
Qed.

(** C27: limits: from a script of bytes and a stack within the limits, every
    machine the loop reaches has at most 1000 elements on its two stacks, each
    of at most 520 bytes, and at most 201 operations counted; so has the stack
    [EvalScript] leaves. *)
Theorem eval_within_limits flags st script :
  Forall u8 script -> Forall element st -> (length st <= 1000)%nat ->
  (forall m, reaches CheckSig flags (start st script) m -> within_limits m) /\
  (forall st', EvalScript CheckSig flags st script = Some (Ok st') -> Forall element st' /\ (length st' <= 1000)%nat).
Proof.
  intros Hu He Hl; pose proof (start_limits st script Hu He Hl) as L0.
  assert (R : forall m, reaches CheckSig flags (start st script) m -> within_limits m)
    by (intros m H; exact (reaches_limits CheckSig flags _ m H L0)).
  split; [exact R|]; intros st' H; destruct (EvalScript_reaches _ _ _ _ _ H) as (m & H1 & _ & _ & <-).
  destruct (R m H1) as [L1 _ L2 _ _]; split; [exact L1|lia].
Qed.

End Safety.

(** The machine on [OP_1 OP_DUP OP_ADD]. *)
Lemma eval_within_limits_witness :
  Forall u8 [0x51; 0x76; 0x93] /\
  EvalScript (fun _ _ _ => false) 0 [] [0x51; 0x76; 0x93] = Some (Ok [[2]]) /\ Forall element [[2]].
Proof.
  assert (U : Forall u8 [0x51; 0x76; 0x93]) by (repeat constructor; unfold u8; lia).
  assert (E : EvalScript (fun _ _ _ => false) 0 [] [0x51; 0x76; 0x93] = Some (Ok [[2]])) by reflexivity.
  split; [exact U|split; [exact E|]].
  apply (eval_within_limits (fun _ _ _ => false) 0 [] [0x51; 0x76; 0x93] U (Forall_nil _) ltac:(cbn; lia)), E.
Defined.

(** Arithmetic: the operands of numeric opcodes are below 2^31 in
    magnitude whatever the encoding, so the [int64_t] assertions of
    [CScriptNum] hold, [getint] truncates nothing, and a result is written in
    at most five bytes that read back as it; a result of more than four bytes
    is refused when it is used as an operand. *)
Theorem script_arithmetic_exact flags op v w a b :
  element v -> element w -> scriptnum flags v = Ok a -> scriptnum flags w = Ok b ->
  (neg_asserts a = true /\ add_asserts a 1 = true /\ sub_asserts a 1 = true /\
   add_asserts a b = true /\ sub_asserts a b = true /\ getint a = a) /\
  (forall r, r = unary_op op a \/ r = binary_op op a b ->
   set_vch (serialize r) = r /\ (length (serialize r) <= 5)%nat /\
   scriptnum flags (serialize r) = if Z.abs r <? 2 ^ 31 then Ok r else Err SCRIPT_ERR_UNKNOWN_ERROR).
Proof.
  intros Hv Hw Ea Eb; pose proof (scriptnum_range flags v a (proj1 Hv) Ea) as Ra.
  pose proof (scriptnum_range flags w b (proj1 Hw) Eb) as Rb; split.
  - assert (G : getint a = a) by (unfold getint; destruct (Z.gtb_spec a 2147483647), (Z.ltb_spec a (-2147483648)); lia).
    unfold neg_asserts, add_asserts, sub_asserts, int64_max, int64_min; rewrite !Z.gtb_ltb, !Z.geb_leb; repeat split; lia.
  - intros r Hr; pose proof (unary_range op a Ra); pose proof (binary_range op a b Ra Rb).
    assert (R : Z.abs r < 2 ^ 32) by (destruct Hr as [->| ->]; lia).
    destruct (set_vch_serialize r ltac:(lia)) as (S & M & U); split; [exact S|split].
    + apply (serialize_length r 5); lia.
    + pose proof (serialize_length r 4 ltac:(lia) ltac:(lia)) as L; change (8 * Z.of_nat 4 - 1) with 31 in L.
      unfold scriptnum, CScriptNum, nMaxNumSize; rewrite M, S; cbn [negb]; rewrite andb_false_r.
      destruct (Nat.ltb_spec 4 (length (serialize r))), (Z.ltb_spec (Z.abs r) (2 ^ 31)); try reflexivity; lia.
Qed.

Lemma script_arithmetic_exact_witness :
  element [0xff; 0xff; 0xff; 0x7f] /\ scriptnum 0 [0xff; 0xff; 0xff; 0x7f] = Ok 2147483647 /\
  scriptnum 0 (serialize (binary_op OP_ADD 2147483647 2147483647)) = Err SCRIPT_ERR_UNKNOWN_ERROR.
Proof.
  assert (H : element [0xff; 0xff; 0xff; 0x7f]) by (split; [repeat constructor; unfold u8; lia|cbn; lia]).
  assert (E : scriptnum 0 [0xff; 0xff; 0xff; 0x7f] = Ok 2147483647) by reflexivity.
  split; [exact H|split; [exact E|]].
  destruct (script_arithmetic_exact 0 OP_ADD _ _ _ _ H H E E) as [_ R].
  destruct (R _ (or_intror eq_refl)) as (_ & _ & R'); exact R'.
Defined.

(** ** Flags only forbid *)

Section SoftFork.
Variable CheckSig : list Z -> list Z -> list Z -> bool.
Variables flags flags' : Z.
(** Every flag of [flags'] is one of [flags]. *)
Hypothesis submask : flags' .& flags = flags'.

Lemma flag_submask x : flag flags x = false -> flag flags' x = false.
Proof.
  unfold flag; rewrite !negb_false_iff, !Z.eqb_eq; intros H.
  rewrite <- submask, <- Z.land_assoc, H; apply Z.land_0_r.
Qed.

Lemma flag_submask_and x b : flag flags x && b = false -> flag flags' x && b = false.
Proof. rewrite !andb_false_iff; intros [H|H]; [left; apply flag_submask, H|right; exact H]. Qed.

Lemma scriptnum_submask v n : scriptnum flags v = Ok n -> scriptnum flags' v = Ok n.
Proof.
  unfold scriptnum, CScriptNum; destruct (_ <? _)%nat; [discriminate|].
  destruct (fRequireMinimal flags && _) eqn:E; [discriminate|]; apply flag_submask_and in E.
  unfold fRequireMinimal; rewrite E; auto.
Qed.

Lemma check_encodings_submask vchSig vchPubKey :
  check_encodings flags vchSig vchPubKey = None -> check_encodings flags' vchSig vchPubKey = None.
Proof.
  unfold check_encodings, CheckSignatureEncoding, CheckPubKeyEncoding; intros H.
  assert (P : flag flags SCRIPT_VERIFY_STRICTENC && negb (IsCompressedOrUncompressedPubKey vchPubKey) = false)
    by (destruct (_ && negb (IsCompressedOrUncompressedPubKey _)); [|reflexivity];
        destruct (if (length vchSig =? 0)%nat then _ else _); discriminate H).
  rewrite (flag_submask_and _ _ P); rewrite P in H; destruct (length vchSig =? 0)%nat; [reflexivity|].
  destruct (flag flags (_ .| _) && _) eqn:D; [discriminate H|]; rewrite (flag_submask_and _ _ D).
  destruct (flag flags SCRIPT_VERIFY_STRICTENC && negb (IsDefinedHashtypeSignature vchSig)) eqn:T.
  { destruct (if flag flags SCRIPT_VERIFY_LOW_S then _ else _); discriminate H. }
  rewrite (flag_submask_and _ _ T).
  destruct (flag flags SCRIPT_VERIFY_LOW_S) eqn:S.
  - destruct (IsLowDERSignature vchSig); [discriminate H|]; destruct (flag flags' _); reflexivity.
  - rewrite (flag_submask _ S); reflexivity.
Qed.

(** A success under [flags] is the same success under [flags']. *)
Lemma pick_roll_submask roll st st' : pick_roll flags roll st = Ok st' -> pick_roll flags' roll st = Ok st'.
Proof.
  unfold pick_roll; destruct st as [|x [|y st]]; try discriminate.
  destruct (scriptnum flags x) as [n|] eqn:E; [|discriminate]; rewrite (scriptnum_submask _ _ E); auto.
Qed.

Lemma checksig_submask verify code st st' :
  checksig CheckSig flags verify code st = Ok st' -> checksig CheckSig flags' verify code st = Ok st'.
Proof.
  unfold checksig; destruct st as [|k [|s st]]; try discriminate.
  destruct (check_encodings flags s k) eqn:E; [discriminate|]; rewrite (check_encodings_submask _ _ E); auto.
Qed.

Lemma multisig_loop_submask code keys : forall sigs b,
  multisig_loop CheckSig flags code sigs keys = Ok b -> multisig_loop CheckSig flags' code sigs keys = Ok b.
Proof.
  induction keys as [|k keys IH]; intros [|s sigs] b; auto.
  change (multisig_loop CheckSig ?f code (s :: sigs) (k :: keys)) with
    (match check_encodings f s k with
     | Some e => Err e
     | None => let sigs' := if CheckSig s k code then sigs else s :: sigs in
               if (length keys <? length sigs')%nat then Ok false else multisig_loop CheckSig f code sigs' keys
     end).
  destruct (check_encodings flags s k) eqn:E; [discriminate|]; rewrite (check_encodings_submask _ _ E); cbv zeta.
  destruct (_ <? _)%nat; auto.
Qed.

Lemma checkmultisig_submask verify code st n r :
  checkmultisig CheckSig flags verify code st n = Ok r -> checkmultisig CheckSig flags' verify code st n = Ok r.
Proof.
  unfold checkmultisig; destruct st as [|top rest]; [discriminate|].
  destruct (scriptnum flags top) as [k|] eqn:E1; [|discriminate]; rewrite (scriptnum_submask _ _ E1); cbn [bind].
  destruct (_ || _); [discriminate|]; destruct (_ >? 201); [discriminate|]; destruct (_ <? _)%nat; [discriminate|].
  destruct (scriptnum flags (nth _ rest [])) as [m|] eqn:E2; [|discriminate]; rewrite (scriptnum_submask _ _ E2); cbn [bind].
  destruct (_ || _); [discriminate|]; destruct (_ <? _)%nat; [discriminate|].
  destruct (multisig_loop CheckSig flags _ _ _) as [b|] eqn:E3; [|discriminate]; rewrite (multisig_loop_submask _ _ _ _ E3); cbn [bind].
  destruct (skipn (1 + _ + _) rest) as [|d st]; [discriminate|].
  destruct (flag flags SCRIPT_VERIFY_NULLDUMMY && _) eqn:E4; [discriminate|]; rewrite (flag_submask_and _ _ E4); auto.
Qed.

Lemma switch_submask opcode fExec m m' :
  switch CheckSig flags opcode fExec m = Ok m' -> switch CheckSig flags' opcode fExec m = Ok m'.
Proof.
  unfold switch; destruct (enumerator opcode) as [op|]; [|discriminate]; destruct op; intros H; try exact H; ok_steps;
    repeat match goal with
    | E : scriptnum flags _ = Ok _ |- _ => apply scriptnum_submask in E; rewrite E
    | E : flag flags _ = false |- _ => apply flag_submask in E; rewrite E
    | E : pick_roll flags _ _ = Ok _ |- _ => apply pick_roll_submask in E; rewrite E
    | E : checksig _ flags _ _ _ = Ok _ |- _ => apply checksig_submask in E; rewrite E
    | E : checkmultisig _ flags _ _ _ _ = Ok _ |- _ => apply checkmultisig_submask in E; rewrite E
    end; cbn [bind];
    repeat match goal with E : ?x = _ |- context [match ?x with _ => _ end] => rewrite E end; reflexivity.
Qed.

Lemma step_submask m m' : step CheckSig flags m = Ok m' -> step CheckSig flags' m = Ok m'.
Proof.
  unfold step; destruct (GetOp (pc m)) as [[[o d] p]|]; [|discriminate].
  destruct (_ >? MAX_SCRIPT_ELEMENT_SIZE); [discriminate|]; destruct (_ && _); [discriminate|].
  destruct (disabled o); [discriminate|]; set (m0 := mkMachine _ _ _ _ _ _); intros H.
  destruct (if _ && _ && _ then _ else _) as [m1|] eqn:E; [|discriminate H].
  replace (if _ && _ && _ then _ else _) with (Ok m1); [exact H|]; symmetry.
  destruct (_ && _ && _); [|destruct (_ || _); [apply switch_submask|]; exact E].
  destruct (fRequireMinimal flags && _) eqn:F; [discriminate E|].
  unfold fRequireMinimal in *; rewrite (flag_submask_and _ _ F); exact E.
Qed.

Lemma eval_loop_submask fuel : forall m m',
  eval_loop CheckSig flags fuel m = Some (Ok m') -> eval_loop CheckSig flags' fuel m = Some (Ok m').
Proof.
  induction fuel as [|fuel IH]; intros m m'; cbn [eval_loop]; destruct (pc m); auto.
  destruct (step CheckSig flags m) as [m1|] eqn:E; [|discriminate]; rewrite (step_submask _ _ E); apply IH.
Qed.

Lemma EvalScript_submask st script st' :
  EvalScript CheckSig flags st script = Some (Ok st') -> EvalScript CheckSig flags' st script = Some (Ok st').
Proof.
  unfold EvalScript; destruct (_ <? _); [discriminate|].
  destruct (eval_loop CheckSig flags _ _) as [[m|]|] eqn:E; try discriminate; rewrite (eval_loop_submask _ _ _ E); auto.
Qed.

(** C26: soft forks: verification flags only forbid.  A script that succeeds
    under some flags leaves the same stack under any subset of them, and an
    input that is accepted is accepted under any subset. *)
Theorem flags_only_forbid st script st' scriptSig scriptPubKey :
  (EvalScript CheckSig flags st script = Some (Ok st') -> EvalScript CheckSig flags' st script = Some (Ok st')) /\
  (VerifyScript CheckSig flags scriptSig scriptPubKey = Some (Ok tt) ->
   VerifyScript CheckSig flags' scriptSig scriptPubKey = Some (Ok tt)).
Proof.
  split; [apply EvalScript_submask|]; unfold VerifyScript.
  destruct (flag flags SCRIPT_VERIFY_SIGPUSHONLY && _) eqn:P; [discriminate|]; rewrite (flag_submask_and _ _ P).
  destruct (EvalScript CheckSig flags [] scriptSig) as [[st1|]|] eqn:E1; try discriminate; rewrite (EvalScript_submask _ _ _ E1).
  destruct (EvalScript CheckSig flags st1 scriptPubKey) as [[st2|]|] eqn:E2; try discriminate; rewrite (EvalScript_submask _ _ _ E2).
  destruct (eval_true st2) as [[]|]; [|discriminate].
  destruct (flag flags SCRIPT_VERIFY_P2SH && _) eqn:S; [|rewrite (flag_submask_and _ _ S); auto].
  destruct (negb (IsPushOnly scriptSig)); [discriminate|]; destruct st1 as [|x st1]; [discriminate|].
  destruct (EvalScript CheckSig flags st1 x) as [[st3|]|] eqn:E3; try discriminate; rewrite (EvalScript_submask _ _ _ E3).
  destruct (flag flags' SCRIPT_VERIFY_P2SH && _); auto.
Qed.

End SoftFork.

(** [OP_1] pushed minimally is a success with and without the flag. *)
Lemma flags_only_forbid_witness :
  SCRIPT_VERIFY_P2SH .& (SCRIPT_VERIFY_P2SH .| SCRIPT_VERIFY_MINIMALDATA) = SCRIPT_VERIFY_P2SH /\
  VerifyScript (fun _ _ _ => true) SCRIPT_VERIFY_P2SH [0x51] [0x76] = Some (Ok tt).
Proof.
  assert (S : SCRIPT_VERIFY_P2SH .& (SCRIPT_VERIFY_P2SH .| SCRIPT_VERIFY_MINIMALDATA) = SCRIPT_VERIFY_P2SH) by reflexivity.
  split; [exact S|].
  apply (flags_only_forbid (fun _ _ _ => true) _ _ S [] [] [] [0x51] [0x76]); reflexivity.
Defined.

End ScriptSafety.
