(* ===== verification/ScriptVerify.v ===== *)
(** Verification of the standard scripts: what [VerifyScript] of
    [src/src/script/interpreter.cpp] decides on the scripts
    [GetScriptForDestination] of [src/src/script/standard.cpp] builds. *)
From S2P Require Import Prelude SphTypes HashStream Sha256 Ripemd160 Script SigEncoding Interpreter Standard.
Import Script SigEncoding Interpreter Standard.

Module ScriptVerify.

(** ** Scripts that hold nothing to delete *)

Lemma erase_none fuel c b o pc : o <> c -> erase_copies fuel (c :: b) (o :: pc) = (0%nat, o :: pc).
Proof.
  intros H; destruct fuel; [reflexivity|]; cbn [erase_copies]; unfold is_prefix; cbn [length firstn].
  destruct (list_eq_dec _ _ _) as [E|_]; [injection E as E _; contradiction|]; rewrite andb_false_r; reflexivity.
Qed.

Lemma find_and_delete_none c b pc l : reads pc l -> Forall (fun i => fst i <> c) l -> forall fuel,
  find_and_delete fuel (c :: b) pc = (0%nat, pc).
Proof.
  induction 1 as [|pc o d pc' l E R IH]; intros H [|fuel]; try reflexivity; apply Forall_cons_iff in H as [Ho H].
  cbn [find_and_delete fst] in *; destruct (GetOp_suffix _ _ _ _ E) as [p Ep].
  assert (En : erase_copies (length pc) (c :: b) pc = (0%nat, pc)) by (rewrite Ep at 2 3; apply erase_none, Ho).
  rewrite En, E, IH by exact H; f_equal; rewrite Ep, app_comm_cons, length_app, Nat.add_sub, firstn_app, Nat.sub_diag, firstn_O, app_nil_r, firstn_all; reflexivity.
Qed.

(** ** Running the machine *)

Section Run.
Variable CheckSig : list Z -> list Z -> list Z -> bool.
Variable flags : Z.

(** The result does not depend on the fuel. *)
Lemma eval_loop_fuel fuel : forall m r fuel', eval_loop CheckSig flags fuel m = Some r -> (fuel <= fuel')%nat ->
  eval_loop CheckSig flags fuel' m = Some r.
Proof.
  induction fuel as [|fuel IH]; intros m r [|fuel'] H Hf; try lia; cbn [eval_loop] in *; destruct (pc m); try exact H; try discriminate H.
  destruct (step CheckSig flags m); [apply IH; [exact H|lia]|exact H].
Qed.

Lemma EvalScript_run st script fuel r : Z.of_nat (length script) <= 10000 ->
  (fuel <= length script)%nat -> eval_loop CheckSig flags fuel (start st script) = Some r ->
  EvalScript CheckSig flags st script =
  Some (match r with
        | Err e => Err e
        | Ok m => match vfExec m with [] => Ok (stack m) | _ => Err SCRIPT_ERR_UNBALANCED_CONDITIONAL end
        end).
Proof.
  intros Hs Hf H; unfold EvalScript; rewrite (proj2 (Z.ltb_ge _ _)) by exact Hs.
  change (mkMachine script st [] [] 0 script) with (start st script).
  rewrite (eval_loop_fuel fuel _ r _ H Hf); destruct r as [m|e]; [destruct (vfExec m)|]; reflexivity.
Qed.

(** Pushes of at least two bytes are minimal whatever the flags. *)
Lemma push_op_range b : 0 <= push_op b <= value OP_PUSHDATA4.
Proof. unfold push_op; cbn [value]; destruct (Z.ltb_spec (Z.of_nat (length b)) 0x4c); [lia|]; repeat destruct (_ <=? _); lia. Qed.

Lemma minimal_push b : (2 <= length b <= 520)%nat -> CheckMinimalPush b (push_op b) = true.
Proof.
  intros H; unfold CheckMinimalPush, push_op; cbn [value].
  destruct (Nat.eqb_spec (length b) 0), (Nat.eqb_spec (length b) 1); try lia; cbn [andb].
  destruct (Z.ltb_spec (Z.of_nat (length b)) 0x4c), (Z.leb_spec (Z.of_nat (length b)) 0xff), (Z.leb_spec (Z.of_nat (length b)) 0xffff),
    (Nat.leb_spec (length b) 75), (Nat.leb_spec (length b) 255), (Z.leb_spec (Z.of_nat (length b)) 65535); try lia; cbn; lia.
Qed.

Lemma disabled_push o : o < 0x7e -> disabled o = false.
Proof.
  intros H; unfold disabled; apply not_true_is_false; rewrite existsb_exists; intros (op & I & E); apply Z.eqb_eq in E; subst o.
  cbn [In] in I; decompose sum I; subst op; cbn [value] in H; lia || contradiction.
Qed.

Lemma push_length b : (length (push_data [] b) <= 5 + length b)%nat.
Proof.
  unfold push_data; cbv zeta; destruct (_ <? _); [|destruct (_ <=? _); [|destruct (_ <=? _)]];
    rewrite !length_app; cbn [length]; rewrite ?le_bytes_length; lia.
Qed.

Lemma push_head b : exists l, push_data [] b = push_op b :: l.
Proof.
  unfold push_data, push_op; cbv zeta; cbn [value]; destruct (Z.ltb_spec (Z.of_nat (length b)) 0x4c); [|destruct (_ <=? _); [|destruct (_ <=? _)]];
    cbn [app]; eexists; try reflexivity; rewrite T8_id by (unfold u8; lia); reflexivity.
Qed.

Lemma push_nonempty b : (0 < length (push_data [] b))%nat.
Proof. destruct (push_head b) as [l ->]; cbn [length]; lia. Qed.

Lemma step_push b rest st alt n code : (2 <= length b <= 520)%nat ->
  step CheckSig flags (mkMachine (push_data [] b ++ rest) st alt [] n code) =
  if (1000 <? S (length st + length alt))%nat then Err SCRIPT_ERR_STACK_SIZE else Ok (mkMachine rest (b :: st) alt [] n code).
Proof.
  intros Hb; unfold step; cbn [pc vfExec forallb].
  rewrite (GetOp_emit (Data b)) by (cbn; lia); cbn [reported fst snd].
  unfold MAX_SCRIPT_ELEMENT_SIZE; rewrite Z.gtb_ltb, (proj2 (Z.ltb_ge _ _)) by lia.
  pose proof (push_op_range b) as P; cbn [value] in *.
  rewrite Z.gtb_ltb, (proj2 (Z.ltb_ge _ (push_op b))) by lia; cbn [andb].
  rewrite disabled_push by lia; rewrite (proj2 (Z.leb_le 0 _)), (proj2 (Z.leb_le (push_op b) _)) by lia; cbn [andb].
  rewrite minimal_push, andb_false_r by exact Hb; reflexivity.
Qed.

(** An operation outside branches. *)
Lemma step_op o rest st alt n code : value OP_16 < o -> disabled o = false -> n < 201 ->
  step CheckSig flags (mkMachine (o :: rest) st alt [] n code) =
  let* m := switch CheckSig flags o true (mkMachine rest st alt [] (n + 1) code) in
  if (1000 <? length (stack m) + length (altstack m))%nat then Err SCRIPT_ERR_STACK_SIZE else Ok m.
Proof.
  intros Ho Hd Hn; unfold step; cbn [pc vfExec forallb GetOp value] in *.
  rewrite (proj2 (Z.leb_gt o 0x4e)) by lia; cbn [length Z.of_nat].
  change (0 >? MAX_SCRIPT_ELEMENT_SIZE) with false; cbv iota; rewrite !Z.gtb_ltb, (proj2 (Z.ltb_lt _ o)) by lia.
  cbn [nOpCount stack altstack vfExec pbegincodehash andb]; rewrite (proj2 (Z.ltb_ge 201 _)), Hd by lia.
  rewrite (proj2 (Z.leb_gt o 0x4e)), andb_false_r by lia; reflexivity.
Qed.

(** The script of a key hash on a stack of at least two elements. *)
Lemma GetScript_key (id : list Z) : length id = 20%nat ->
  GetScriptForDestination (CKeyID id) = [0x76; 0xa9] ++ push_data [] id ++ [0x88; 0xac].
Proof. intros H; spell id 20%nat; reflexivity. Qed.

Lemma GetScript_hash (id : list Z) : length id = 20%nat ->
  GetScriptForDestination (CScriptID id) = [0xa9] ++ push_data [] id ++ [0x87].
Proof. intros H; spell id 20%nat; reflexivity. Qed.

Lemma eval_loop_step fuel x p st alt vf n code :
  eval_loop CheckSig flags (S fuel) (mkMachine (x :: p) st alt vf n code) =
  match step CheckSig flags (mkMachine (x :: p) st alt vf n code) with
  | Err e => Some (Err e)
  | Ok m => eval_loop CheckSig flags fuel m
  end.
Proof. reflexivity. Qed.

Lemma eval_loop_push fuel b rest st n code : (2 <= length b <= 520)%nat ->
  eval_loop CheckSig flags (S fuel) (mkMachine (push_data [] b ++ rest) st [] [] n code) =
  if (1000 <? S (length st))%nat then Some (Err SCRIPT_ERR_STACK_SIZE)
  else eval_loop CheckSig flags fuel (mkMachine rest (b :: st) [] [] n code).
Proof.
  intros Hb; pose proof (step_push b rest st [] n code Hb) as E; cbn [length] in E; rewrite Nat.add_0_r in E.
  destruct (push_data [] b ++ rest) as [|x p] eqn:P; [|rewrite eval_loop_step, E; destruct (1000 <? _)%nat; reflexivity].
  apply (f_equal (@length Z)) in P; pose proof (push_nonempty b); rewrite length_app in P; cbn [length] in P; lia.
Qed.

(** Two pushes: an input of a signature and a key. *)
Lemma EvalScript_pushes a b : (2 <= length a <= 520)%nat -> (2 <= length b <= 520)%nat ->
  EvalScript CheckSig flags [] (push_data (push_data [] a) b) = Some (Ok [b; a]).
Proof.
  intros Ha Hb; rewrite (emit_app (push_data [] a) (Data b) : push_data _ b = _ ++ push_data [] b).
  pose proof (push_length a); pose proof (push_length b); pose proof (push_nonempty a); pose proof (push_nonempty b).
  rewrite (EvalScript_run [] _ 2 (Ok (mkMachine [] [b; a] [] [] 0 (push_data [] a ++ push_data [] b))));
    [reflexivity|rewrite length_app; lia|rewrite length_app; lia|].
  unfold start; rewrite eval_loop_push by exact Ha; change (1000 <? _)%nat with false; cbv iota.
  rewrite <- (app_nil_r (push_data [] b)) at 1; rewrite eval_loop_push by exact Hb; reflexivity.
Qed.

Lemma IsPushOnly_pushes a b : (2 <= length a <= 520)%nat -> (2 <= length b <= 520)%nat ->
  IsPushOnly (push_data (push_data [] a) b) = true.
Proof.
  intros Ha Hb; rewrite (emit_app (push_data [] a) (Data b) : push_data _ b = _ ++ push_data [] b).
  pose proof (push_op_range a) as Pa; pose proof (push_op_range b) as Pb.
  unfold IsPushOnly; rewrite (push_only_reads _ [(push_op a, a); (push_op b, b)]); [| |reflexivity].
  - cbn [forallb value] in *; rewrite !Z.gtb_ltb, !(proj2 (Z.ltb_ge _ _)) by lia; reflexivity.
  - econstructor; [apply (GetOp_emit (Data a)); cbn; lia|].
    econstructor; [rewrite <- (app_nil_r (push_data [] b)); apply (GetOp_emit (Data b)); cbn; lia|constructor].
Qed.

(** The key hash script deletes nothing for a signature of another length
    than the hash. *)
Lemma key_script_keeps id vchSig : length id = 20%nat -> (2 <= length vchSig <= 520)%nat -> length vchSig <> 20%nat ->
  snd (FindAndDelete (GetScriptForDestination (CKeyID id)) (push_data [] vchSig)) = GetScriptForDestination (CKeyID id).
Proof.
  intros Hi Hs Hn; pose proof (push_head vchSig) as [b E]; rewrite E; unfold FindAndDelete.
  rewrite (find_and_delete_none _ b _ [(0x76, []); (0xa9, []); (20, id); (0x88, []); (0xac, [])]); [reflexivity| |].
  - spell id 20%nat; repeat econstructor.
  - pose proof (push_op_range vchSig) as R; cbn [value] in R; repeat constructor; cbn [fst]; try lia.
    unfold push_op; cbn [value]; destruct (Z.ltb_spec (Z.of_nat (length vchSig)) 0x4c); [lia|].
    destruct (_ <=? 0xff); [lia|]; destruct (_ <=? 0xffff); lia.
Qed.

(** One opcode of a standard script, its effect given. *)
Ltac op_step m :=
  rewrite eval_loop_step, step_op by (reflexivity || (cbn [value]; lia));
  change (switch CheckSig flags _ true _) with (Ok m); cbn [bind stack altstack].

Definition eqb_id (a b : list Z) : bool := if list_eq_dec Z.eq_dec a b then true else false.

(** The key hash script on a signature and a key. *)
Lemma EvalScript_key id vchSig vchPubKey : length id = 20%nat ->
  (2 <= length vchSig <= 520)%nat -> length vchSig <> 20%nat ->
  let script := GetScriptForDestination (CKeyID id) in
  EvalScript CheckSig flags [vchPubKey; vchSig] script =
  Some (if eqb_id id (Ripemd160.Hash160 vchPubKey) then
          match check_encodings flags vchSig vchPubKey with
          | Some e => Err e
          | None => Ok [vchBool (CheckSig vchSig vchPubKey script)]
          end
        else Err SCRIPT_ERR_EQUALVERIFY).
Proof.
  intros Hi Hs Hn script; pose proof (push_length id); pose proof (push_nonempty id).
  assert (L : (length script <= 35)%nat) by (unfold script; rewrite GetScript_key, !length_app by exact Hi; cbn [length]; lia).
  assert (L5 : (5 <= length script)%nat) by (unfold script; rewrite GetScript_key, !length_app by exact Hi; cbn [length]; lia).
  set (h := Ripemd160.Hash160 vchPubKey).
  assert (R : eval_loop CheckSig flags 5 (start [vchPubKey; vchSig] script) =
    Some (if eqb_id id h then
            match check_encodings flags vchSig vchPubKey with
            | Some e => Err e
            | None => Ok (mkMachine [] [vchBool (CheckSig vchSig vchPubKey script)] [] [] 4 script)
            end
          else Err SCRIPT_ERR_EQUALVERIFY)).
  { unfold start; rewrite (GetScript_key id Hi : script = _) at 1; cbn [app].
    op_step (mkMachine (0xa9 :: push_data [] id ++ [0x88; 0xac]) [vchPubKey; vchPubKey; vchSig] [] [] 1 script).
    change (1000 <? _)%nat with false; cbv iota.
    op_step (mkMachine (push_data [] id ++ [0x88; 0xac]) [h; vchPubKey; vchSig] [] [] 2 script).
    change (1000 <? _)%nat with false; cbv iota; rewrite eval_loop_push by lia; change (1000 <? _)%nat with false; cbv iota.
    rewrite eval_loop_step, step_op by (reflexivity || (cbn [value]; lia)).
    change (switch CheckSig flags 0x88 true _) with
      (let* st := push_verify (Some SCRIPT_ERR_EQUALVERIFY) (eqb_id h id) [vchPubKey; vchSig] in
       Ok (mkMachine [0xac] st [] [] 3 script)).
    assert (S : eqb_id h id = eqb_id id h) by (unfold eqb_id; do 2 destruct (list_eq_dec _ _ _); congruence).
    rewrite S; destruct (eqb_id id h); [|reflexivity]; cbn [push_verify bind stack altstack].
    change (1000 <? _)%nat with false; cbv iota; rewrite eval_loop_step, step_op by (reflexivity || (cbn [value]; lia)).
    change (switch CheckSig flags 0xac true _) with
      (let* st := checksig CheckSig flags None script [vchPubKey; vchSig] in Ok (mkMachine [] st [] [] 4 script)).
    unfold checksig; rewrite (key_script_keeps id vchSig Hi Hs Hn : snd (FindAndDelete script _) = script).
    destruct (check_encodings flags vchSig vchPubKey); reflexivity. }
  rewrite (EvalScript_run _ script 5 _ ltac:(lia) L5 R).
  destruct (eqb_id id h); [destruct (check_encodings flags vchSig vchPubKey)|]; reflexivity.
Qed.

(** The script hash script: the serialized script is hashed and compared. *)
Lemma EvalScript_hash id st : length id = 20%nat ->
  EvalScript CheckSig flags st (GetScriptForDestination (CScriptID id)) =
  Some (match st with
        | [] => Err SCRIPT_ERR_INVALID_STACK_OPERATION
        | x :: st =>
            if (1000 <? S (S (length st)))%nat then Err SCRIPT_ERR_STACK_SIZE
            else Ok (vchBool (eqb_id (Ripemd160.Hash160 x) id) :: st)
        end).
Proof.
  intros Hi; set (script := GetScriptForDestination (CScriptID id)); pose proof (push_length id); pose proof (push_nonempty id).
  assert (L : (3 <= length script <= 35)%nat) by (unfold script; rewrite GetScript_hash, !length_app by exact Hi; cbn [length]; lia).
  destruct st as [|x st].
  { rewrite (EvalScript_run [] script 1 (Err SCRIPT_ERR_INVALID_STACK_OPERATION)); [reflexivity|lia|lia|].
    unfold start; rewrite (GetScript_hash id Hi : script = _) at 1; cbn [app].
    rewrite eval_loop_step, step_op by (reflexivity || (cbn [value]; lia)); reflexivity. }
  set (h := Ripemd160.Hash160 x).
  rewrite (EvalScript_run (x :: st) script 3
    (if (1000 <? S (S (length st)))%nat then Err SCRIPT_ERR_STACK_SIZE
     else Ok (mkMachine [] (vchBool (eqb_id h id) :: st) [] [] 2 script))); [destruct (_ <? _)%nat; reflexivity|lia|lia|].
  unfold start; rewrite (GetScript_hash id Hi : script = _) at 1; cbn [app].
  op_step (mkMachine (push_data [] id ++ [0x87]) (h :: st) [] [] 1 script); cbn [length]; rewrite Nat.add_0_r.
  destruct (Nat.ltb_spec 1000 (S (length st))), (Nat.ltb_spec 1000 (S (S (length st)))); try lia; try reflexivity;
    rewrite eval_loop_push by lia; cbn [length].
  - rewrite (proj2 (Nat.ltb_lt _ _)) by lia; reflexivity.
  - rewrite (proj2 (Nat.ltb_ge _ _)) by lia; rewrite eval_loop_step, step_op by (reflexivity || (cbn [value]; lia)).
    change (switch CheckSig flags 0x87 true _) with (Ok (mkMachine [] (vchBool (eqb_id h id) :: st) [] [] 2 script)).
    cbn [bind stack altstack length]; rewrite (proj2 (Nat.ltb_ge _ _)) by lia; reflexivity.
Qed.

Lemma eqb_id_spec a b : eqb_id a b = true <-> a = b.
Proof. unfold eqb_id; destruct (list_eq_dec _ _ _); split; congruence. Qed.

(** C24: pay to public key hash: an input that pushes a signature and a key for
    the script of a key identifier is decided completely - the key must hash
    to the identifier, the encodings must pass the flags, and the signature
    must check over the whole script. *)
Theorem pay_to_key_hash id vchSig vchPubKey :
  length id = 20%nat -> (2 <= length vchSig <= 520)%nat -> length vchSig <> 20%nat -> (2 <= length vchPubKey <= 520)%nat ->
  let script := GetScriptForDestination (CKeyID id) in
  VerifyScript CheckSig flags (push_data (push_data [] vchSig) vchPubKey) script =
  Some (if eqb_id id (Ripemd160.Hash160 vchPubKey) then
          match check_encodings flags vchSig vchPubKey with
          | Some e => Err e
          | None => if CheckSig vchSig vchPubKey script then Ok tt else Err SCRIPT_ERR_EVAL_FALSE
          end
        else Err SCRIPT_ERR_EQUALVERIFY).
Proof.
  intros Hi Hs Hn Hk script; unfold VerifyScript.
  rewrite (IsPushOnly_pushes _ _ Hs Hk), andb_false_r, (EvalScript_pushes vchSig vchPubKey Hs Hk); cbv zeta.
  rewrite (EvalScript_key id vchSig vchPubKey Hi Hs Hn : EvalScript _ _ _ script = _).
  assert (Q : IsPayToScriptHash script = false) by (unfold script; clear - Hi; spell id 20%nat; reflexivity).
  rewrite Q, andb_false_r; fold script; destruct (eqb_id _ _); [|reflexivity].
  destruct (check_encodings _ _ _); [reflexivity|]; destruct (CheckSig _ _ _); reflexivity.
Qed.

(** C25: pay to script hash: with the flag set, the input is accepted exactly
    when it is push-only, its last push is a script that hashes to the
    identifier, and that script succeeds on the rest of the stack. *)
Theorem pay_to_script_hash id scriptSig :
  length id = 20%nat -> flag flags SCRIPT_VERIFY_P2SH = true ->
  VerifyScript CheckSig flags scriptSig (GetScriptForDestination (CScriptID id)) = Some (Ok tt) <->
  IsPushOnly scriptSig = true /\
  exists redeem st st',
    EvalScript CheckSig flags [] scriptSig = Some (Ok (redeem :: st)) /\ (length st <= 998)%nat /\
    Ripemd160.Hash160 redeem = id /\ EvalScript CheckSig flags st redeem = Some (Ok st') /\ eval_true st' = Ok tt.
Proof.
  intros Hi Hf; unfold VerifyScript; rewrite Hf.
  assert (Q : IsPayToScriptHash (GetScriptForDestination (CScriptID id)) = true) by (clear - Hi; spell id 20%nat; reflexivity).
  rewrite Q; cbn [andb]; destruct (IsPushOnly scriptSig); cbn [negb].
  2: { rewrite andb_true_r; split; [|intros [[=] _]]; destruct (flag flags SCRIPT_VERIFY_SIGPUSHONLY); [discriminate|].
       destruct (EvalScript _ _ [] scriptSig) as [[st1|]|]; try discriminate; cbv zeta; rewrite EvalScript_hash by exact Hi.
       destruct st1 as [|x st]; [discriminate|]; destruct (_ <? _)%nat; [discriminate|]; destruct (eval_true _); discriminate. }
  rewrite andb_false_r; destruct (EvalScript _ _ [] scriptSig) as [[st1|]|]; cbv zeta;
    [|split; [discriminate|intros (_ & ? & ? & ? & [=] & _)]..].
  rewrite EvalScript_hash by exact Hi; destruct st1 as [|x st]; [split; [discriminate|intros (_ & ? & ? & ? & [=] & _)]|].
  destruct (Nat.ltb_spec 1000 (S (S (length st)))) as [L|L].
  { split; [discriminate|intros (_ & ? & ? & ? & [= <- <-] & H & _); lia]. }
  pose proof (eqb_id_spec (Ripemd160.Hash160 x) id) as B; destruct (eqb_id _ id); cbn [vchBool eval_true].
  2: { split; [discriminate|intros (_ & ? & ? & ? & [= <- <-] & _ & H & _); apply B in H; discriminate]. }
  change (CastToBool vchTrue) with true; cbv iota.
  destruct (EvalScript CheckSig flags st x) as [[st3|]|] eqn:E.
  - split; [intros [= H]|intros (_ & ? & ? & ? & [= <- <-] & _ & _ & H & T)].
    + split; [reflexivity|]; exists x, st, st3; repeat split; try (assumption || lia); apply B; reflexivity.
    + rewrite E in H; injection H as <-; rewrite T; reflexivity.
  - split; [discriminate|intros (_ & ? & ? & ? & [= <- <-] & _ & _ & H & _); rewrite E in H; discriminate].
  - split; [discriminate|intros (_ & ? & ? & ? & [= <- <-] & _ & _ & H & _); rewrite E in H; discriminate].
Qed.

(** Outputs [IsUnspendable] calls unspendable are: no input is accepted
    for them, and evaluation reports which rule they break. *)
Theorem unspendable_unspent script scriptSig st :
  IsUnspendable script = true ->
  EvalScript CheckSig flags st script =
    Some (Err (if 10000 <? Z.of_nat (length script) then SCRIPT_ERR_SCRIPT_SIZE else SCRIPT_ERR_OP_RETURN)) /\
  (forall u, VerifyScript CheckSig flags scriptSig script <> Some (Ok u)).
Proof.
  intros H; assert (E : forall st, EvalScript CheckSig flags st script =
    Some (Err (if 10000 <? Z.of_nat (length script) then SCRIPT_ERR_SCRIPT_SIZE else SCRIPT_ERR_OP_RETURN))).
  { intros st'; unfold IsUnspendable in H; apply andb_prop in H as [H1 H2]; apply Nat.ltb_lt in H1; apply Z.eqb_eq in H2.
    destruct script as [|x script]; [cbn in H1; lia|]; change ((x :: script).[0]) with x in H2; subst x.
    destruct (Z.ltb_spec 10000 (Z.of_nat (length (value OP_RETURN :: script)))) as [L|L].
    - unfold EvalScript; rewrite (proj2 (Z.ltb_lt _ _)) by exact L; reflexivity.
    - rewrite (EvalScript_run st' _ 1 (Err SCRIPT_ERR_OP_RETURN)); [reflexivity|lia|cbn [length]; lia|].
      unfold start; rewrite eval_loop_step, step_op by (reflexivity || (cbn [value]; lia)); reflexivity. }
  split; [apply E|]; intros u; unfold VerifyScript; destruct (_ && _); [discriminate|].
  destruct (EvalScript _ _ [] scriptSig) as [[st1|]|]; try discriminate; cbv zeta; rewrite E; discriminate.
Qed.

End Run.

(** A signature and a key of the right form and a checker that accepts. *)
Lemma pay_to_key_hash_witness :
  let sig := repeat 1 9 in let key := 2 :: repeat 5 32 in
  (length (Ripemd160.Hash160 key) = 20%nat /\ flag 0 SCRIPT_VERIFY_SIGPUSHONLY = false) /\
  VerifyScript (fun _ _ _ => true) 0 (push_data (push_data [] sig) key)
    (GetScriptForDestination (CKeyID (Ripemd160.Hash160 key))) = Some (Ok tt).
Proof.
  assert (L : length (Ripemd160.Hash160 (2 :: repeat 5 32)) = 20%nat) by (vm_compute; reflexivity).
  split; [split; [exact L|reflexivity]|].
  rewrite (pay_to_key_hash (fun _ _ _ => true) 0 _ (repeat 1 9) (2 :: repeat 5 32) L); cbn [length repeat]; try lia.
  rewrite (proj2 (eqb_id_spec _ _) eq_refl); reflexivity.
Defined.

(** The redeem script [OP_1]. *)
Lemma pay_to_script_hash_witness :
  length (Ripemd160.Hash160 [0x51]) = 20%nat /\ flag SCRIPT_VERIFY_P2SH SCRIPT_VERIFY_P2SH = true /\
  VerifyScript (fun _ _ _ => false) SCRIPT_VERIFY_P2SH (push_data [] [0x51])
    (GetScriptForDestination (CScriptID (Ripemd160.Hash160 [0x51]))) = Some (Ok tt).
Proof.
  assert (L : length (Ripemd160.Hash160 [0x51]) = 20%nat) by (vm_compute; reflexivity).
  split; [exact L|split; [reflexivity|]].
  apply (pay_to_script_hash (fun _ _ _ => false) SCRIPT_VERIFY_P2SH _ (push_data [] [0x51]) L eq_refl).
  split; [reflexivity|exists [0x51], [], [[1]]]; repeat split; cbn [length]; lia || reflexivity.
Defined.

Lemma unspendable_unspent_witness :
  IsUnspendable [0x6a; 0x01; 0x02] = true /\
  EvalScript (fun _ _ _ => true) 0 [] [0x6a; 0x01; 0x02] = Some (Err SCRIPT_ERR_OP_RETURN).
Proof. split; [reflexivity|apply (unspendable_unspent (fun _ _ _ => true) 0 [0x6a; 0x01; 0x02] [] [] eq_refl)]. Defined.

End ScriptVerify.
