(* ===== verification/Serialize.v ===== *)
(** The serialization layer (serialize.h, the reader of streams.h): a format
    is the triple of overloads [Serialize], [Unserialize],
    [GetSerializeSize] the templates resolve for a type.  Integers, opaque
    blobs, compact sizes, variable length integers, vectors, and the
    sequences of [READWRITE]s a [SerializationOp] is; the laws of each
    ([Lawful], [Canonical]) are instances, so that the formats of the
    program's records inherit them. *)
From S2P Require Import Prelude SphTypes.

Module Serialize.

Definition MAX_SIZE : Z := 0x02000000.

(** The [std::ios_base::failure]s of the readers. *)
Inductive failure : Set := EndOfData | NonCanonical | SizeTooLarge.

Inductive outcome (A : Type) : Type :=
| Read (a : A) (rest : list Z)
| Throw (e : failure).
#[global] Arguments Read {A} a rest.
#[global] Arguments Throw {A} e.

Definition reader (A : Type) : Type := list Z -> outcome A.

Definition bind {A B} (r : reader A) (k : A -> reader B) : reader B :=
  fun s => match r s with Read a s' => k a s' | Throw e => Throw e end.
Definition ret {A} (a : A) : reader A := fun s => Read a s.
Definition throw {A} (e : failure) : reader A := fun _ => Throw e.

Notation "x <- r ;; k" := (bind r (fun x => k)) (at level 61, r at next level, right associativity) : word_scope.

(** [CDataStream::read]: a stream is the bytes that are left. *)
Definition read (nSize : nat) : reader (list Z) :=
  fun s => if (length s <? nSize)%nat then Throw EndOfData else Read (firstn nSize s) (skipn nSize s).

Record format (A : Type) : Type := {
  Serialize : A -> list Z;
  Unserialize : reader A;
  GetSerializeSize : A -> Z;
}.
#[global] Arguments Serialize {A} f a.
#[global] Arguments Unserialize {A} f.
#[global] Arguments GetSerializeSize {A} f a.

(** ** Integers: the bytes of the object, least significant first *)

Definition uint_format (sizeof : nat) : format Z := {|
  Serialize a := le_bytes sizeof a;
  Unserialize := b <- read sizeof ;; ret (le_val b);
  GetSerializeSize _ := Z.of_nat sizeof;
|}.

(** Two's complement. *)
Definition to_signed (w x : Z) : Z := if x <? 2 ^ (w - 1) then x else x - 2 ^ w.

Definition int_format (sizeof : nat) : format Z := {|
  Serialize a := le_bytes sizeof (a mod 2 ^ (8 * Z.of_nat sizeof));
  Unserialize := b <- read sizeof ;; ret (to_signed (8 * Z.of_nat sizeof) (le_val b));
  GetSerializeSize _ := Z.of_nat sizeof;
|}.

Definition uint8_format : format Z := uint_format 1.
Definition uint16_format : format Z := uint_format 2.
Definition uint32_format : format Z := uint_format 4.
Definition uint64_format : format Z := uint_format 8.
Definition int32_format : format Z := int_format 4.
Definition int64_format : format Z := int_format 8.

(** [CFlatData], and the raw bytes of a [uint256]. *)
Definition flat_format (size : nat) : format (list Z) := {|
  Serialize a := a;
  Unserialize := read size;
  GetSerializeSize a := T32 (Z.of_nat (length a));
|}.

(** ** Compact sizes *)

Definition GetSizeOfCompactSize (nSize : Z) : Z :=
  if nSize <? 253 then 1
  else if nSize <=? 0xFFFF then 3
  else if nSize <=? 0xFFFFFFFF then 5
  else 9.

Definition WriteCompactSize (nSize : Z) : list Z :=
  if nSize <? 253 then le_bytes 1 nSize
  else if nSize <=? 0xFFFF then 253 :: le_bytes 2 nSize
  else if nSize <=? 0xFFFFFFFF then 254 :: le_bytes 4 nSize
  else 255 :: le_bytes 8 nSize.

(** The size behind the marker of [n] bytes; a value a shorter form holds is
    refused. *)
Definition read_size (n : nat) (least : Z) : reader Z :=
  xSize <- Unserialize (uint_format n) ;;
  if xSize <? least then throw NonCanonical else ret xSize.

Definition ReadCompactSize : reader Z :=
  chSize <- Unserialize uint8_format ;;
  nSizeRet <- (if chSize <? 253 then ret chSize
               else if chSize =? 253 then read_size 2 253
               else if chSize =? 254 then read_size 4 0x10000
               else read_size 8 0x100000000) ;;
  if MAX_SIZE <? nSizeRet then throw SizeTooLarge else ret nSizeRet.

(** ** Variable length integers of [w] bits *)

Fixpoint size_varint_loop (fuel : nat) (n : Z) : Z :=
  match fuel with
  | O => 0
  | S fuel => if n <=? 0x7F then 1 else 1 + size_varint_loop fuel ((n >> 7) - 1)
  end.

(** The bytes of the array [tmp] of [WriteVarInt], which it writes out from
    the last one it has filled back to the first. *)
Fixpoint varint_tmp (fuel : nat) (first : bool) (n : Z) : list Z :=
  match fuel with
  | O => []
  | S fuel =>
      ((n .& 0x7F) .| (if first then 0x00 else 0x80)) ::
      (if n <=? 0x7F then [] else varint_tmp fuel false ((n >> 7) - 1))
  end.

(** [sizeof(tmp)] *)
Definition tmp_size (w : Z) : nat := Z.to_nat ((w + 6) / 7).

Definition GetSizeOfVarInt (w n : Z) : Z := size_varint_loop (tmp_size w) n.
Definition WriteVarInt (w n : Z) : list Z := rev (varint_tmp (tmp_size w) true n).

Fixpoint read_varint_loop (w n : Z) (s : list Z) : outcome Z :=
  match s with
  | [] => Throw EndOfData
  | chData :: s =>
      let n := ((n << 7) mod 2 ^ w) .| (chData .& 0x7F) in
      if chData .& 0x80 =? 0 then Read n s
      else read_varint_loop w ((n + 1) mod 2 ^ w) s
  end.

Definition ReadVarInt (w : Z) : reader Z := read_varint_loop w 0.

(** [VARINT(obj)] of an unsigned integer of [w] bits. *)
Definition varint_format (w : Z) : format Z := {|
  Serialize := WriteVarInt w;
  Unserialize := ReadVarInt w;
  GetSerializeSize := GetSizeOfVarInt w;
|}.

(** ** Vectors *)

(** Blocks of at most 5000000 bytes: a bogus size allocates no more than the
    stream holds, rounded up to a block. *)
Fixpoint blob_loop (fuel : nat) (nSize i : Z) (v : list Z) : reader (list Z) :=
  match fuel with
  | O => throw EndOfData
  | S fuel =>
      if i <? nSize then
        let blk := Z.min (nSize - i) (1 + 4999999) in
        b <- read (Z.to_nat blk) ;;
        blob_loop fuel nSize (i + blk) (v ++ b)
      else ret v
  end.

Definition blob_fuel (nSize : Z) : nat := S (S (Z.to_nat (nSize / 5000000))).

(** A vector of bytes; a [CScript] and a [std::string] serialize alike. *)
Definition bytes_format : format (list Z) := {|
  Serialize v := WriteCompactSize (Z.of_nat (length v)) ++ v;
  Unserialize := nSize <- ReadCompactSize ;; blob_loop (blob_fuel nSize) nSize 0 [];
  GetSerializeSize v := T32 (GetSizeOfCompactSize (Z.of_nat (length v)) + Z.of_nat (length v));
|}.

Fixpoint elements {A} (F : format A) (n : nat) : reader (list A) :=
  match n with
  | O => ret []
  | S n => x <- Unserialize F ;; l <- elements F n ;; ret (x :: l)
  end.

Definition vector_format {A} (F : format A) : format (list A) := {|
  Serialize v := WriteCompactSize (Z.of_nat (length v)) ++ flat_map (Serialize F) v;
  Unserialize := nSize <- ReadCompactSize ;; elements F (Z.to_nat nSize);
  GetSerializeSize v :=
    fold_left (fun nSize x => T32 (nSize + GetSerializeSize F x)) v (GetSizeOfCompactSize (Z.of_nat (length v)));
|}.

(** [READWRITE(first); READWRITE(second);] *)
Definition pair_format {A B} (F : format A) (G : format B) : format (A * B) := {|
  Serialize p := Serialize F (fst p) ++ Serialize G (snd p);
  Unserialize := a <- Unserialize F ;; b <- Unserialize G ;; ret (a, b);
  GetSerializeSize p := T32 (GetSerializeSize F (fst p) + GetSerializeSize G (snd p));
|}.

(** [READWRITE(first); ... READWRITE(second);] where what follows depends on
    the value of the first. *)
Definition dep_format {A B} (F : format A) (G : A -> format B) : format (A * B) := {|
  Serialize p := Serialize F (fst p) ++ Serialize (G (fst p)) (snd p);
  Unserialize := a <- Unserialize F ;; b <- Unserialize (G a) ;; ret (a, b);
  GetSerializeSize p := T32 (GetSerializeSize F (fst p) + GetSerializeSize (G (fst p)) (snd p));
|}.

(** [if (present) READWRITE(member);] where the member is [null] otherwise. *)
Definition when_format {A} (present : bool) (F : format A) (null : A) : format A :=
  if present then F
  else {| Serialize _ := []; Unserialize := ret null; GetSerializeSize _ := 0 |}.

(** A record through the tuple of its serialized members. *)
Definition wrap_format {A B} (F : format A) (to : B -> A) (from : A -> B) : format B := {|
  Serialize b := Serialize F (to b);
  Unserialize := a <- Unserialize F ;; ret (from a);
  GetSerializeSize b := GetSerializeSize F (to b);
|}.

(** * Laws *)

(** What is written reads back, whatever follows it in the stream, and its
    size is the number of bytes written (in the 32 bits of the result). *)
Class Lawful {A} (F : format A) (valid : A -> Prop) : Prop := {
  read_back : forall a rest, valid a -> Unserialize F (Serialize F a ++ rest) = Read a rest;
  size_written : forall a, valid a -> T32 (GetSerializeSize F a) = T32 (Z.of_nat (length (Serialize F a)));
  written_u8 : forall a, valid a -> Forall u8 (Serialize F a);
}.

(** A value has one encoding only: what is accepted is what would be
    written. *)
Class Canonical {A} (F : format A) (valid : A -> Prop) : Prop := {
  canonical : forall s a rest, Forall u8 s -> Unserialize F s = Read a rest ->
    valid a /\ s = Serialize F a ++ rest;
}.

Create HintDb formats discriminated.

Lemma read_app b rest : read (length b) (b ++ rest) = Read b rest.
Proof.
  unfold read. rewrite length_app. destruct (Nat.ltb_spec (length b + length rest) (length b)); [lia|].
  rewrite firstn_app, skipn_app, firstn_all, skipn_all, Nat.sub_diag. cbn. now rewrite app_nil_r.
Qed.

Lemma read_Read n s b rest : read n s = Read b rest -> s = b ++ rest /\ length b = n.
Proof.
  unfold read. destruct (Nat.ltb_spec (length s) n); [discriminate|]. intros H1; inversion H1; subst b rest.
  split; [now rewrite firstn_skipn | rewrite length_firstn; lia].
Qed.

Lemma Read_inj {A} (a b : A) s t : Read a s = Read b t -> a = b /\ s = t.
Proof. intros H. now inversion H. Qed.

Lemma bind_Read {A B} (r : reader A) (k : A -> reader B) s b rest :
  bind r k s = Read b rest -> exists a s', r s = Read a s' /\ k a s' = Read b rest.
Proof. unfold bind. destruct (r s) as [a s'|]; [|discriminate]. now exists a, s'. Qed.

Lemma bind_eq {A B} (r : reader A) (k : A -> reader B) s a s' : r s = Read a s' -> bind r k s = k a s'.
Proof. unfold bind. now intros ->. Qed.

Lemma ret_Read {A} (a b : A) s rest : ret a s = Read b rest -> b = a /\ rest = s.
Proof. unfold ret. intros H; now inversion H. Qed.

(** Destructs the readers of a successful read, outermost first. *)
Ltac inv_read H :=
  let a := fresh "x" in let s' := fresh "s" in let H1 := fresh "R" in
  apply bind_Read in H; destruct H as (a & s' & H1 & H).

Lemma T32_add x y : T32 (T32 x + y) = T32 (x + y).
Proof. rewrite !T32_mod. apply Zplus_mod_idemp_l. Qed.

Lemma T32_add_r x y : T32 (x + T32 y) = T32 (x + y).
Proof. rewrite !T32_mod. apply Zplus_mod_idemp_r. Qed.

Lemma T32_T32' x : T32 (T32 x) = T32 x.
Proof. apply T32_id, T32_u32. Qed.

Lemma T32_cong a b c d : T32 a = T32 b -> T32 c = T32 d -> T32 (a + c) = T32 (b + d).
Proof. intros H1 H2. now rewrite <- T32_add, <- T32_add_r, H1, H2, T32_add, T32_add_r. Qed.

(** ** Integers and blobs *)

#[export] Instance uint_lawful n : Lawful (uint_format n) (in_width (8 * Z.of_nat n)).
Proof.
  split; intros a.
  - intros rest Ha. cbn -[read Z.mul]. rewrite <- (le_bytes_length n a) at 1.
    rewrite (bind_eq _ _ _ _ _ (read_app _ _)). unfold ret. now rewrite le_val_bytes.
  - intros _. cbn. now rewrite le_bytes_length.
  - intros _. cbn. apply le_bytes_u8.
Qed.

#[export] Instance uint_canonical n : Canonical (uint_format n) (in_width (8 * Z.of_nat n)).
Proof.
  split. intros s a rest Hs H. cbn -[read Z.mul] in H. inv_read H. apply read_Read in R as [-> <-].
  apply ret_Read in H as [-> ->]. apply Forall_app in Hs as [Hx _].
  split; [now apply le_val_bound | cbn; now rewrite le_bytes_val].
Qed.

(** The signed integers of [w] bits. *)
Definition in_signed (w x : Z) : Prop := - 2 ^ (w - 1) <= x < 2 ^ (w - 1).

Lemma half w : 0 < w -> 2 ^ w = 2 * 2 ^ (w - 1).
Proof. intros H. rewrite <- Z.pow_succ_r by lia. f_equal; lia. Qed.

Lemma to_signed_mod w x : 0 < w -> in_signed w x -> to_signed w (x mod 2 ^ w) = x.
Proof.
  intros Hw [Hl Hu]. unfold to_signed. pose proof (half w Hw) as E.
  assert (0 < 2 ^ (w - 1)) by (apply Z.pow_pos_nonneg; lia).
  destruct (Z.leb_spec 0 x).
  - rewrite Z.mod_small by lia. destruct (Z.ltb_spec x (2 ^ (w - 1))); lia.
  - replace (x mod 2 ^ w) with (x + 2 ^ w) by (apply (Z.mod_unique _ _ (-1)); lia).
    destruct (Z.ltb_spec (x + 2 ^ w) (2 ^ (w - 1))); lia.
Qed.

Lemma to_signed_range w x : 0 < w -> in_width w x -> in_signed w (to_signed w x) /\ to_signed w x mod 2 ^ w = x.
Proof.
  intros Hw [Hl Hu]. unfold to_signed, in_signed. pose proof (half w Hw) as E.
  assert (0 < 2 ^ (w - 1)) by (apply Z.pow_pos_nonneg; lia).
  destruct (Z.ltb_spec x (2 ^ (w - 1))); (split; [lia|]).
  - apply Z.mod_small; lia.
  - symmetry. apply (Z.mod_unique _ _ (-1)); lia.
Qed.

#[export] Instance int_lawful n : (0 < n)%nat -> Lawful (int_format n) (in_signed (8 * Z.of_nat n)).
Proof.
  intros Hn. split; intros a.
  - intros rest Ha. cbn -[read Z.mul]. rewrite <- (le_bytes_length n (a mod 2 ^ (8 * Z.of_nat n))) at 1.
    rewrite (bind_eq _ _ _ _ _ (read_app _ _)). unfold ret.
    rewrite le_val_bytes by (apply Z.mod_pos_bound; apply Z.pow_pos_nonneg; lia).
    now rewrite to_signed_mod by (assumption || lia).
  - intros _. cbn. now rewrite le_bytes_length.
  - intros _. cbn. apply le_bytes_u8.
Qed.

#[export] Instance int_canonical n : (0 < n)%nat -> Canonical (int_format n) (in_signed (8 * Z.of_nat n)).
Proof.
  intros Hn. split. intros s a rest Hs H. cbn -[read Z.mul] in H. inv_read H. apply read_Read in R as [-> <-].
  apply ret_Read in H as [-> ->]. apply Forall_app in Hs as [Hx _].
  destruct (to_signed_range (8 * Z.of_nat (length x)) (le_val x)) as [H1 H2]; [lia | now apply le_val_bound|].
  split; [exact H1 | unfold int_format, Serialize; now rewrite H2, le_bytes_val].
Qed.

#[export] Instance int32_lawful : Lawful int32_format (in_signed 32).
Proof. apply (int_lawful 4). lia. Qed.
#[export] Instance int64_lawful : Lawful int64_format (in_signed 64).
Proof. apply (int_lawful 8). lia. Qed.
#[export] Instance int32_canonical : Canonical int32_format (in_signed 32).
Proof. apply (int_canonical 4). lia. Qed.
#[export] Instance int64_canonical : Canonical int64_format (in_signed 64).
Proof. apply (int_canonical 8). lia. Qed.
#[export] Instance uint8_lawful : Lawful uint8_format (in_width 8).
Proof. apply (uint_lawful 1). Qed.
#[export] Instance uint32_lawful : Lawful uint32_format (in_width 32).
Proof. apply (uint_lawful 4). Qed.
#[export] Instance uint32_canonical : Canonical uint32_format (in_width 32).
Proof. apply (uint_canonical 4). Qed.

(** The byte strings of [n] bytes. *)
Definition flat (n : nat) (b : list Z) : Prop := length b = n /\ Forall u8 b.

#[export] Instance flat_lawful n : Lawful (flat_format n) (flat n).
Proof.
  split; intros a; cbn.
  - intros rest [<- _]. apply read_app.
  - intros _. apply T32_T32'.
  - now intros [_ H].
Qed.

#[export] Instance flat_canonical n : Canonical (flat_format n) (flat n).
Proof.
  split. intros s a rest Hs H. cbn -[read Z.mul] in *. apply read_Read in H as [-> <-].
  now apply Forall_app in Hs as [Hx _].
Qed.

(** ** Compact sizes *)

Lemma read_back_uint n a rest : in_width (8 * Z.of_nat n) a ->
  Unserialize (uint_format n) (le_bytes n a ++ rest) = Read a rest.
Proof. apply (read_back (F := uint_format n)). Qed.

Lemma compact_size_read nSize rest : 0 <= nSize <= MAX_SIZE ->
  ReadCompactSize (WriteCompactSize nSize ++ rest) = Read nSize rest.
Proof.
  intros H. unfold MAX_SIZE in H. unfold ReadCompactSize, WriteCompactSize.
  assert (Hmark : forall m k r, (m ?= 256) = Lt -> 0 <= m ->
    bind (Unserialize uint8_format) k (m :: r) = (k m : reader Z) r).
  { intros m k r Hm Hm0. apply bind_eq. change (m :: r) with ([m] ++ r).
    replace [m] with (le_bytes 1 m); [apply read_back_uint; change (m < 256) in Hm; unfold in_width; lia|].
    cbn. f_equal. change (m < 256) in Hm. apply Z.mod_small. lia. }
  assert (Hlast : (if MAX_SIZE <? nSize then throw SizeTooLarge else ret nSize) rest = Read nSize rest).
  { destruct (Z.ltb_spec MAX_SIZE nSize); [unfold MAX_SIZE in *; lia | reflexivity]. }
  assert (Hsize : forall n least, in_width (8 * Z.of_nat n) nSize -> least <= nSize ->
    read_size n least (le_bytes n nSize ++ rest) = Read nSize rest).
  { intros n least Hn Hl. unfold read_size. rewrite (bind_eq _ _ _ _ _ (read_back_uint n _ _ Hn)).
    destruct (Z.ltb_spec nSize least); [lia | reflexivity]. }
  destruct (Z.ltb_spec nSize 253); [|destruct (Z.leb_spec nSize 0xFFFF); [|destruct (Z.leb_spec nSize 0xFFFFFFFF)]].
  - rewrite (bind_eq _ _ _ nSize rest) by (apply read_back_uint; unfold in_width; lia).
    rewrite (bind_eq _ _ _ nSize rest); [exact Hlast|]. destruct (Z.ltb_spec nSize 253); [reflexivity | lia].
  - rewrite <- app_comm_cons, Hmark by (reflexivity || lia).
    rewrite (bind_eq _ _ _ nSize rest); [exact Hlast|]. apply Hsize; [unfold in_width; lia | lia].
  - rewrite <- app_comm_cons, Hmark by (reflexivity || lia).
    rewrite (bind_eq _ _ _ nSize rest); [exact Hlast|]. apply Hsize; [unfold in_width; lia | lia].
  - lia.
Qed.

Lemma compact_size_length nSize : length (WriteCompactSize nSize) = Z.to_nat (GetSizeOfCompactSize nSize).
Proof.
  unfold WriteCompactSize, GetSizeOfCompactSize.
  destruct (nSize <? 253), (nSize <=? 0xFFFF), (nSize <=? 0xFFFFFFFF); reflexivity.
Qed.

Lemma compact_size_range nSize : 1 <= GetSizeOfCompactSize nSize <= 9.
Proof.
  unfold GetSizeOfCompactSize. destruct (nSize <? 253), (nSize <=? 0xFFFF), (nSize <=? 0xFFFFFFFF); lia.
Qed.

Lemma compact_size_u8 nSize : Forall u8 (WriteCompactSize nSize).
Proof.
  unfold WriteCompactSize.
  destruct (nSize <? 253), (nSize <=? 0xFFFF), (nSize <=? 0xFFFFFFFF);
    repeat first [apply le_bytes_u8 | apply Forall_cons; [unfold u8; lia|]].
Qed.

Lemma read_size_canonical n least s a rest : Forall u8 s -> read_size n least s = Read a rest ->
  least <= a < 2 ^ (8 * Z.of_nat n) /\ s = le_bytes n a ++ rest.
Proof.
  intros Hs H. unfold read_size in H. inv_read H.
  destruct (canonical _ _ _ Hs R) as [Hx ->]. unfold in_width in Hx.
  destruct (Z.ltb_spec x least); [discriminate|]. apply ret_Read in H as [-> ->]. split; [lia | reflexivity].
Qed.

Lemma compact_size_canonical s nSize rest : Forall u8 s -> ReadCompactSize s = Read nSize rest ->
  0 <= nSize <= MAX_SIZE /\ s = WriteCompactSize nSize ++ rest.
Proof.
  intros Hs H. unfold ReadCompactSize in H. inv_read H.
  destruct (canonical _ _ _ Hs R) as [Hx ->]. apply Forall_app in Hs as [_ Hs]. unfold in_width in Hx.
  change (8 * Z.of_nat 1) with 8 in Hx. inv_read H.
  destruct (Z.ltb_spec MAX_SIZE x0) as [|HM]; [discriminate|]. apply ret_Read in H as [-> ->].
  assert (Hm : forall n least (m : Z), (m =? x) = true -> 0 <= least ->
    read_size n least s0 = Read x0 s ->
    (least <= x0 < 2 ^ (8 * Z.of_nat n)) /\ Serialize uint8_format x ++ s0 = (m :: le_bytes n x0) ++ s).
  { intros n least m Em Hl H. apply read_size_canonical in H as [H ->]; [|exact Hs]. apply Z.eqb_eq in Em. subst m.
    split; [exact H|]. cbn. now rewrite Z.mod_small by lia. }
  unfold WriteCompactSize, MAX_SIZE in *.
  destruct (Z.ltb_spec x 253) as [|H1]; [|destruct (Z.eqb_spec x 253) as [->|H2]; [|destruct (Z.eqb_spec x 254) as [->|H3]]].
  - apply ret_Read in R0 as [-> ->]. destruct (Z.ltb_spec x 253); [|lia]. split; [lia | reflexivity].
  - destruct (Hm 2%nat 253 253) as [Hr ->]; [reflexivity | lia | exact R0|]. change (2 ^ (8 * Z.of_nat 2)) with 65536 in Hr.
    destruct (Z.ltb_spec x0 253); [lia|]. destruct (Z.leb_spec x0 0xFFFF); [|lia]. split; [lia | reflexivity].
  - destruct (Hm 4%nat 0x10000 254) as [Hr ->]; [reflexivity | lia | exact R0|].
    change (2 ^ (8 * Z.of_nat 4)) with 4294967296 in Hr.
    destruct (Z.ltb_spec x0 253); [lia|]. destruct (Z.leb_spec x0 0xFFFF); [lia|].
    destruct (Z.leb_spec x0 0xFFFFFFFF); [|lia]. split; [lia | reflexivity].
  - apply read_size_canonical in R0 as [Hr _]; [|exact Hs]. lia.
Qed.

(** ** Vectors of bytes *)

Lemma blob_loop_read fuel : forall nSize i v b rest, 0 <= i <= nSize -> nSize - i = Z.of_nat (length b) ->
  nSize - i <= 5000000 * (Z.of_nat fuel - 1) -> blob_loop fuel nSize i v (b ++ rest) = Read (v ++ b) rest.
Proof.
  induction fuel as [|fuel IH]; intros nSize i v b rest Hi Hb Hf; [lia|].
  cbn -[Z.min Z.add read]. destruct (Z.ltb_spec i nSize) as [Hlt|Hge].
  - set (k := Z.to_nat (Z.min (nSize - i) (1 + 4999999))).
    assert (Hk : (k <= length b)%nat) by lia.
    rewrite <- (firstn_skipn k b) at 1. rewrite <- app_assoc.
    rewrite <- (firstn_length_le b Hk) at 1. rewrite (bind_eq _ _ _ _ _ (read_app _ _)).
    rewrite IH by (rewrite ?length_skipn; lia).
    now rewrite <- app_assoc, firstn_skipn.
  - destruct b; [|cbn in Hb; lia]. unfold ret. now rewrite app_nil_r.
Qed.

Lemma blob_loop_canonical fuel : forall nSize i v s w rest, 0 <= i <= nSize ->
  blob_loop fuel nSize i v s = Read w rest ->
  exists b, w = v ++ b /\ s = b ++ rest /\ nSize - i = Z.of_nat (length b).
Proof.
  induction fuel as [|fuel IH]; intros nSize i v s w rest Hi H; [discriminate|].
  cbn -[Z.min Z.add read] in H. destruct (Z.ltb_spec i nSize) as [Hlt|Hge].
  - inv_read H. apply read_Read in R as [-> Hx]. apply IH in H as (b & -> & -> & Hb); [|lia].
    exists (x ++ b). rewrite !app_assoc. repeat split; try reflexivity. rewrite length_app. lia.
  - apply ret_Read in H as [-> ->]. exists []. rewrite app_nil_r. cbn. repeat split; lia.
Qed.

Lemma blob_fuel_enough nSize : 0 <= nSize -> nSize <= 5000000 * (Z.of_nat (blob_fuel nSize) - 1).
Proof.
  intros H. unfold blob_fuel. pose proof (Z.div_mod nSize 5000000) as D.
  pose proof (Z.mod_pos_bound nSize 5000000 eq_refl). assert (0 <= nSize / 5000000) by (apply Z.div_pos; lia). lia.
Qed.

(** The vectors of bytes a reader accepts. *)
Definition blob (v : list Z) : Prop := Forall u8 v /\ Z.of_nat (length v) <= MAX_SIZE.

#[export] Instance bytes_lawful : Lawful bytes_format blob.
Proof.
  split; intros v.
  - intros rest [_ Hv]. cbn -[blob_loop blob_fuel]. rewrite <- app_assoc.
    rewrite (bind_eq _ _ _ _ _ (compact_size_read _ _ (conj (Nat2Z.is_nonneg _) Hv))).
    apply (blob_loop_read _ _ 0 []); try lia. rewrite Z.sub_0_r. apply blob_fuel_enough. lia.
  - intros _. cbn. rewrite T32_T32', length_app, compact_size_length.
    pose proof (compact_size_range (Z.of_nat (length v))). f_equal. lia.
  - intros [Hv _]. cbn. apply Forall_app. split; [apply compact_size_u8 | exact Hv].
Qed.

#[export] Instance bytes_canonical : Canonical bytes_format blob.
Proof.
  split. intros s v rest Hs H. cbn -[blob_loop blob_fuel] in H. inv_read H.
  apply compact_size_canonical in R as [Hx ->]; [|exact Hs]. apply Forall_app in Hs as [_ Hs].
  apply blob_loop_canonical in H as (b & Hv & -> & Hb); [|lia]. cbn in Hv. subst b. apply Forall_app in Hs as [Hs _].
  cbn. replace (Z.of_nat (length v)) with x by lia. rewrite <- app_assoc. repeat split; [exact Hs | lia].
Qed.

(** ** Vectors, sequences, records *)

Definition vector {A} (valid : A -> Prop) (l : list A) : Prop := Forall valid l /\ Z.of_nat (length l) <= MAX_SIZE.

Section Combinators.
Context {A B : Type} (F : format A) (G : format B) {P : A -> Prop} {Q : B -> Prop}.

Lemma elements_read `{!Lawful F P} l rest : Forall P l ->
  elements F (length l) (flat_map (Serialize F) l ++ rest) = Read l rest.
Proof using.
  induction 1 as [|x l Hx _ IH]; [reflexivity|]. cbn. rewrite <- app_assoc.
  rewrite (bind_eq _ _ _ _ _ (read_back x _ Hx)). now rewrite (bind_eq _ _ _ _ _ IH).
Qed.

Lemma elements_canonical `{!Canonical F P} n : forall s l rest, Forall u8 s -> elements F n s = Read l rest ->
  Forall P l /\ length l = n /\ s = flat_map (Serialize F) l ++ rest.
Proof using.
  induction n as [|n IH]; intros s l rest Hs H; cbn in H.
  - apply ret_Read in H as [-> ->]. now repeat split.
  - inv_read H. inv_read H. apply ret_Read in H as [-> ->].
    destruct (canonical _ _ _ Hs R) as [Hx ->]. apply Forall_app in Hs as [_ Hs].
    destruct (IH _ _ _ Hs R0) as (Hl & <- & ->). cbn. rewrite <- app_assoc. repeat split; auto.
Qed.

Lemma sizes_written `{!Lawful F P} l : Forall P l -> forall n,
  T32 (fold_left (fun nSize x => T32 (nSize + GetSerializeSize F x)) l n)
  = T32 (n + Z.of_nat (length (flat_map (Serialize F) l))).
Proof using.
  induction 1 as [|x l Hx _ IH]; intros n; cbn; [now rewrite Z.add_0_r|].
  rewrite IH, T32_add, length_app, Nat2Z.inj_add, Z.add_assoc. apply T32_cong; [|reflexivity].
  apply T32_cong; [reflexivity | now apply size_written].
Qed.

#[export] Instance vector_lawful `{!Lawful F P} : Lawful (vector_format F) (vector P).
Proof using.
  split; intros v.
  - intros rest [Hv HM]. cbn. rewrite <- app_assoc.
    rewrite (bind_eq _ _ _ _ _ (compact_size_read _ _ (conj (Nat2Z.is_nonneg _) HM))).
    rewrite Nat2Z.id. now apply elements_read.
  - intros [Hv _]. cbn. rewrite (sizes_written _ Hv), length_app, compact_size_length.
    pose proof (compact_size_range (Z.of_nat (length v))). f_equal. lia.
  - intros [Hv _]. cbn. apply Forall_app. split; [apply compact_size_u8|]. apply Forall_flat_map.
    eapply Forall_impl; [|exact Hv]. intros x. apply written_u8.
Qed.

#[export] Instance vector_canonical `{!Canonical F P} : Canonical (vector_format F) (vector P).
Proof using.
  split. intros s v rest Hs H. cbn in H. inv_read H.
  apply compact_size_canonical in R as [Hx ->]; [|exact Hs]. apply Forall_app in Hs as [_ Hs].
  destruct (elements_canonical _ _ _ _ Hs H) as (Hv & Hl & ->). cbn.
  replace (Z.of_nat (length v)) with x by lia. rewrite <- app_assoc. repeat split; [exact Hv | lia].
Qed.

#[export] Instance pair_lawful `{!Lawful F P} `{!Lawful G Q} : Lawful (pair_format F G) (fun p => P (fst p) /\ Q (snd p)).
Proof using.
  split; intros [a b]; cbn.
  - intros rest [Ha Hb]. rewrite <- app_assoc, (bind_eq _ _ _ _ _ (read_back a _ Ha)).
    now rewrite (bind_eq _ _ _ _ _ (read_back b _ Hb)).
  - intros [Ha Hb]. rewrite T32_T32', length_app, Nat2Z.inj_add. apply T32_cong; now apply size_written.
  - intros [Ha Hb]. apply Forall_app. split; now apply written_u8.
Qed.

#[export] Instance pair_canonical `{!Canonical F P} `{!Canonical G Q} :
  Canonical (pair_format F G) (fun p => P (fst p) /\ Q (snd p)).
Proof using.
  split. intros s [a b] rest Hs H. cbn in H. inv_read H. inv_read H. apply ret_Read in H as [H ->].
  inversion H; subst x x0; clear H. destruct (canonical _ _ _ Hs R) as [Ha ->].
  apply Forall_app in Hs as [_ Hs]. destruct (canonical _ _ _ Hs R0) as [Hb ->]. cbn. now rewrite app_assoc.
Qed.

#[export] Instance when_lawful present null `{!Lawful F P} :
  Lawful (when_format present F null) (fun a => if present then P a else a = null).
Proof using.
  destruct present; [assumption|]. split; intros a; cbn; [now intros rest -> | reflexivity | constructor].
Qed.

#[export] Instance when_canonical present null `{!Canonical F P} :
  Canonical (when_format present F null) (fun a => if present then P a else a = null).
Proof using.
  destruct present; [assumption|]. split. intros s a rest _ HR. cbn in HR. apply ret_Read in HR as [-> ->]. now split.
Qed.
End Combinators.

Section Dependent.
Context {A B : Type} (F : format A) (G : A -> format B) {P : A -> Prop} {Q : A -> B -> Prop}.

#[export] Instance dep_lawful `{!Lawful F P} `{!forall a, Lawful (G a) (Q a)} :
  Lawful (dep_format F G) (fun p => P (fst p) /\ Q (fst p) (snd p)).
Proof using.
  split; intros [a b]; cbn.
  - intros rest [Ha Hb]. rewrite <- app_assoc, (bind_eq _ _ _ _ _ (read_back a _ Ha)).
    now rewrite (bind_eq _ _ _ _ _ (read_back b _ Hb)).
  - intros [Ha Hb]. rewrite T32_T32', length_app, Nat2Z.inj_add. apply T32_cong; now apply size_written.
  - intros [Ha Hb]. apply Forall_app. split; now apply written_u8.
Qed.

#[export] Instance dep_canonical `{!Canonical F P} `{!forall a, Canonical (G a) (Q a)} :
  Canonical (dep_format F G) (fun p => P (fst p) /\ Q (fst p) (snd p)).
Proof using.
  split. intros s [a b] rest Hs HR. cbn in HR. inv_read HR. inv_read HR. apply ret_Read in HR as [HR ->].
  inversion HR; subst x x0; clear HR. destruct (canonical _ _ _ Hs R) as [Ha ->].
  apply Forall_app in Hs as [_ Hs]. destruct (canonical _ _ _ Hs R0) as [Hb ->]. cbn. now rewrite app_assoc.
Qed.
End Dependent.

(** A record is lawful when its members are and [from] rebuilds it. *)
Lemma wrap_lawful {A B} (F : format A) (P : A -> Prop) (to : B -> A) (from : A -> B) (R : B -> Prop) :
  Lawful F P -> (forall b, R b -> P (to b) /\ from (to b) = b) -> Lawful (wrap_format F to from) R.
Proof.
  intros LF H. split; intros b; cbn.
  - intros rest Hb. destruct (H b Hb) as [HP E]. rewrite (bind_eq _ _ _ _ _ (read_back _ _ HP)). unfold ret. now rewrite E.
  - intros Hb. apply size_written, H, Hb.
  - intros Hb. apply (written_u8 (F := F)), H, Hb.
Qed.

Lemma wrap_canonical {A B} (F : format A) (P : A -> Prop) (to : B -> A) (from : A -> B) (R : B -> Prop) :
  Canonical F P -> (forall a, P a -> R (from a) /\ to (from a) = a) -> Canonical (wrap_format F to from) R.
Proof.
  intros CF H. split. intros s b rest Hs Hr. cbn in Hr. inv_read Hr. apply ret_Read in Hr as [-> ->].
  destruct (canonical _ _ _ Hs R0) as [HP ->]. destruct (H _ HP) as [HR E]. cbn. now rewrite E.
Qed.

(** Two values of a lawful format with the same bytes are the same. *)
Lemma Serialize_inj {A} (F : format A) (P : A -> Prop) `{!Lawful F P} a b :
  P a -> P b -> Serialize F a = Serialize F b -> a = b.
Proof.
  intros Ha Hb E. pose proof (read_back a [] Ha) as R1. pose proof (read_back b [] Hb) as R2.
  rewrite E, R2 in R1. now inversion R1.
Qed.

(** ** Variable length integers *)

Lemma low7 n : n .& 0x7F = n mod 2 ^ 7.
Proof. exact (land_ones_mod 7 n ltac:(lia)). Qed.

Lemma lor_80 c : 0 <= c < 128 -> c .| 0x80 = c + 128.
Proof. intros H. change 0x80 with (1 << 7). rewrite lor_shl_add by lia. reflexivity. Qed.

Lemma land_80 d : 0 <= d < 128 -> d .& 0x80 = 0.
Proof.
  intros H. apply Z.bits_inj'. intros i Hi. rewrite Z.land_spec, Z.bits_0. change 0x80 with (2 ^ 7).
  rewrite Z.pow2_bits_eqb by lia. destruct (Z.eqb_spec 7 i) as [<-|]; [|apply andb_false_r].
  rewrite (in_width_high 7 d 7) by (try lia; unfold in_width; change (2 ^ 7) with 128; lia). reflexivity.
Qed.

(** A digit is read back: shifted in, with its continuation bit [e]. *)
Lemma digit_read w acc d (more : bool) s : 0 <= acc -> 0 <= d < 128 -> acc * 128 + d < 2 ^ w ->
  read_varint_loop w acc ((d .| (if more then 0x80 else 0)) :: s)
  = if more then read_varint_loop w ((acc * 128 + d + 1) mod 2 ^ w) s else Read (acc * 128 + d) s.
Proof.
  intros Ha Hd Hw. cbn [read_varint_loop].
  assert (Hacc : ((acc << 7) mod 2 ^ w) .| d = acc * 128 + d).
  { assert (E : acc << 7 = acc * 128) by (now rewrite Z.shiftl_mul_pow2 by lia).
    rewrite Z.mod_small by lia. rewrite Z.lor_comm, lor_shl_add by (try lia; change (2 ^ 7) with 128; lia). lia. }
  destruct more.
  - rewrite lor_80 by lia. rewrite low7. change (2 ^ 7) with 128.
    replace ((d + 128) mod 128) with d by (apply (Z.mod_unique _ _ 1); lia).
    rewrite Hacc. replace ((d + 128) .& 0x80) with 0x80; [reflexivity|].
    rewrite <- lor_80, Z.land_lor_distr_l, land_80 by lia. reflexivity.
  - rewrite Z.lor_0_r, low7. change (2 ^ 7) with 128. rewrite (Z.mod_small d) by lia. rewrite Hacc.
    now rewrite land_80 by lia.
Qed.

Lemma shr7 n : n >> 7 = n / 128.
Proof. now rewrite Z.shiftr_div_pow2 by lia. Qed.

Lemma varint_tmp_S fuel first n : varint_tmp (S fuel) first n =
  ((n mod 128) .| (if first then 0 else 0x80)) :: (if n <=? 0x7F then [] else varint_tmp fuel false (n / 128 - 1)).
Proof. cbn [varint_tmp]. now rewrite low7, shr7. Qed.

Lemma varint_step n fuel : 0x7F < n < 2 ^ (7 * Z.of_nat (S fuel)) -> 0 <= n / 128 - 1 < 2 ^ (7 * Z.of_nat fuel).
Proof.
  intros H. rewrite Nat2Z.inj_succ in H. replace (7 * Z.succ (Z.of_nat fuel)) with (7 * Z.of_nat fuel + 7) in H by lia.
  rewrite Z.pow_add_r in H by lia. change (2 ^ 7) with 128 in H.
  pose proof (Z.div_le_lower_bound n 128 1). pose proof (Z.div_lt_upper_bound n 128 (2 ^ (7 * Z.of_nat fuel))). lia.
Qed.

(** More room than [7 * fuel] bits need changes nothing: the loop ends. *)
Lemma varint_tmp_fuel fuel : forall first n extra, 0 <= n < 2 ^ (7 * Z.of_nat fuel) -> (0 < fuel)%nat ->
  varint_tmp (fuel + extra) first n = varint_tmp fuel first n.
Proof.
  induction fuel as [|fuel IH]; intros first n extra Hn Hf; [lia|].
  rewrite Nat.add_succ_l, !varint_tmp_S. destruct (Z.leb_spec n 0x7F) as [|H]; [reflexivity|].
  pose proof (varint_step n fuel ltac:(lia)). f_equal. apply IH; [assumption|].
  destruct fuel; [cbn in *; lia | lia].
Qed.

Lemma size_varint_length fuel first n :
  size_varint_loop fuel n = Z.of_nat (length (varint_tmp fuel first n)).
Proof.
  revert first n. induction fuel as [|fuel IH]; intros first n; [reflexivity|].
  cbn [varint_tmp size_varint_loop length]. destruct (n <=? 0x7F); [reflexivity|].
  rewrite (IH false). lia.
Qed.

Lemma varint_digits_read w fuel : forall n s, 0 <= n < 2 ^ w -> n < 2 ^ (7 * Z.of_nat fuel) -> (0 < fuel)%nat ->
  read_varint_loop w 0 (rev (varint_tmp fuel false n) ++ s) = read_varint_loop w ((n + 1) mod 2 ^ w) s.
Proof.
  induction fuel as [|fuel IH]; intros n s Hn Hf Hz; [lia|]. rewrite varint_tmp_S. cbn [rev].
  pose proof (Z.div_mod n 128 ltac:(lia)) as D. pose proof (Z.mod_pos_bound n 128 eq_refl) as M.
  destruct (Z.leb_spec n 0x7F) as [|H].
  - cbn [rev app]. rewrite Z.mod_small by lia. now rewrite (digit_read w 0 n true s) by lia.
  - pose proof (varint_step n fuel ltac:(lia)). rewrite <- app_assoc.
    rewrite IH; [|lia|lia|destruct fuel; [cbn in *; lia | lia]].
    replace ((n / 128 - 1 + 1) mod 2 ^ w) with (n / 128) by (rewrite Z.mod_small; lia).
    cbn [app]. rewrite (digit_read w (n / 128) (n mod 128) true s) by lia.
    do 2 f_equal. lia.
Qed.

Lemma varint_read w fuel n rest : 0 <= n < 2 ^ w -> n < 2 ^ (7 * Z.of_nat fuel) -> (0 < fuel)%nat ->
  ReadVarInt w (rev (varint_tmp fuel true n) ++ rest) = Read n rest.
Proof.
  intros Hn Hf Hz. destruct fuel as [|fuel]; [lia|]. rewrite varint_tmp_S. cbn [rev]. unfold ReadVarInt.
  pose proof (Z.div_mod n 128 ltac:(lia)) as D. pose proof (Z.mod_pos_bound n 128 eq_refl) as M.
  destruct (Z.leb_spec n 0x7F) as [|H].
  - cbn [rev app]. rewrite Z.mod_small by lia. now rewrite (digit_read w 0 n false rest) by lia.
  - pose proof (varint_step n fuel ltac:(lia)). rewrite <- app_assoc.
    rewrite varint_digits_read; [|lia|lia|destruct fuel; [cbn in *; lia | lia]].
    replace ((n / 128 - 1 + 1) mod 2 ^ w) with (n / 128) by (rewrite Z.mod_small; lia).
    cbn [app]. rewrite (digit_read w (n / 128) (n mod 128) false rest) by lia. f_equal. lia.
Qed.

Lemma varint_tmp_u8 fuel : forall first n, Forall u8 (varint_tmp fuel first n).
Proof.
  induction fuel as [|fuel IH]; intros first n; [constructor|]. rewrite varint_tmp_S.
  pose proof (Z.mod_pos_bound n 128 eq_refl) as M. constructor; [|destruct (n <=? 0x7F); [constructor | apply IH]].
  destruct first; [rewrite Z.lor_0_r | rewrite lor_80 by lia]; unfold u8; lia.
Qed.

Lemma tmp_size_bits w : 1 <= w -> w <= 7 * Z.of_nat (tmp_size w) /\ (0 < tmp_size w)%nat.
Proof.
  intros H. unfold tmp_size. pose proof (Z.div_mod (w + 6) 7 ltac:(lia)). pose proof (Z.mod_pos_bound (w + 6) 7 eq_refl). lia.
Qed.

Lemma in_tmp w n : 1 <= w -> in_width w n -> n < 2 ^ (7 * Z.of_nat (tmp_size w)).
Proof.
  intros Hw [_ H]. destruct (tmp_size_bits w Hw) as [H1 _].
  pose proof (Z.pow_le_mono_r 2 _ _ eq_refl H1). lia.
Qed.

Lemma varint_lawful w : 1 <= w -> Lawful (varint_format w) (in_width w).
Proof.
  intros Hw. destruct (tmp_size_bits w Hw) as [H1 H2]. split; intros n.
  - intros rest Hn. apply varint_read; [exact Hn | now apply in_tmp | exact H2].
  - intros _. cbn. unfold GetSizeOfVarInt, WriteVarInt. now rewrite (size_varint_length _ true), length_rev.
  - intros _. apply Forall_rev, varint_tmp_u8.
Qed.

#[export] Instance varint32_lawful : Lawful (varint_format 32) (in_width 32).
Proof. apply varint_lawful. lia. Qed.
#[export] Instance varint64_lawful : Lawful (varint_format 64) (in_width 64).
Proof. apply varint_lawful. lia. Qed.

(** [VARINT(obj)] of an [int], whose bits the shifts of the reader fill; a
    negative number keeps its seven low bits only. *)
Definition int_varint_format : format Z := {|
  Serialize := WriteVarInt 32;
  Unserialize := n <- ReadVarInt 32 ;; ret (to_signed 32 n);
  GetSerializeSize := GetSizeOfVarInt 32;
|}.

#[export] Instance int_varint_lawful : Lawful int_varint_format (in_width 31).
Proof.
  assert (V : forall n, in_width 31 n -> in_width 32 n) by (unfold in_width; lia). split; intros n.
  - intros rest Hn. cbn [Unserialize Serialize int_varint_format].
    rewrite (bind_eq _ _ _ _ _ (read_back (F := varint_format 32) n rest (V n Hn))).
    unfold ret, to_signed. unfold in_width in Hn. change (32 - 1) with 31.
    destruct (Z.ltb_spec n (2 ^ 31)); [reflexivity | lia].
  - intros Hn. exact (size_written (F := varint_format 32) n (V n Hn)).
  - intros Hn. exact (written_u8 (F := varint_format 32) n (V n Hn)).
Qed.

(** A byte is a digit and its continuation bit. *)
Lemma digit_of c : u8 c -> exists d more, 0 <= d < 128 /\ c = d .| (if more : bool then 0x80 else 0).
Proof.
  unfold u8. intros H. destruct (Z.ltb_spec c 128).
  - exists c, false. rewrite Z.lor_0_r. split; [lia | reflexivity].
  - exists (c - 128), true. rewrite lor_80 by lia. split; lia.
Qed.

(** The digits read so far, each with its continuation bit, are those of one
    less than the accumulator. *)
Lemma read_varint_canonical w s : forall acc p n rest, Forall u8 s -> 0 <= acc -> (acc + 2) * 128 ^ Z.of_nat (length s) <= 2 ^ w ->
  (forall fuel, acc - 1 < 2 ^ (7 * Z.of_nat fuel) -> (0 < fuel)%nat -> p = if acc =? 0 then [] else rev (varint_tmp fuel false (acc - 1))) ->
  read_varint_loop w acc s = Read n rest ->
  exists c, s = c ++ rest /\ 0 <= n /\
    forall fuel, n < 2 ^ (7 * Z.of_nat fuel) -> (0 < fuel)%nat -> p ++ c = rev (varint_tmp fuel true n).
Proof.
  induction s as [|c s IH]; intros acc p n rest Hs Ha Hw Hp H; [discriminate|].
  inversion Hs as [|? ? Hc Hs']; subst. destruct (digit_of c Hc) as (d & more & Hd & ->).
  assert (Hpow : 0 < 128 ^ Z.of_nat (length s)) by (apply Z.pow_pos_nonneg; lia).
  cbn [length] in Hw. rewrite Nat2Z.inj_succ, Z.pow_succ_r in Hw by lia.
  rewrite digit_read in H by nia.
  assert (Hdig : forall first fuel, acc * 128 + d < 2 ^ (7 * Z.of_nat fuel) -> (0 < fuel)%nat ->
    rev (varint_tmp fuel first (acc * 128 + d)) = p ++ [d .| (if first then 0 else 0x80)]).
  { intros first fuel Hf Hz. destruct fuel as [|fuel]; [lia|]. rewrite varint_tmp_S. cbn [rev].
    replace ((acc * 128 + d) mod 128) with d by (symmetry; rewrite Z.add_comm, Z.mod_add by lia; now apply Z.mod_small).
    f_equal. destruct (Z.leb_spec (acc * 128 + d) 0x7F) as [|Hb].
    - rewrite (Hp 1%nat) by lia. destruct (Z.eqb_spec acc 0); [reflexivity | lia].
    - pose proof (varint_step _ fuel (conj Hb Hf)) as V.
      replace ((acc * 128 + d) / 128) with acc in *
        by (rewrite Z.add_comm, Z.div_add by lia; rewrite Z.div_small by lia; lia).
      rewrite (Hp fuel) by (lia || (destruct fuel; [cbn in *; lia | lia])). destruct (Z.eqb_spec acc 0); [lia | reflexivity]. }
  destruct more.
  - rewrite Z.mod_small in H by nia.
    apply (IH _ (p ++ [d .| 0x80])) in H as (c & -> & Hn & Hc'); [|exact Hs'|lia|nia|].
    + exists ((d .| 0x80) :: c). split; [reflexivity|]. split; [exact Hn|]. intros fuel Hf Hz.
      rewrite <- (Hc' fuel Hf Hz), <- app_assoc. reflexivity.
    + intros fuel Hf Hz. destruct (Z.eqb_spec (acc * 128 + d + 1) 0); [lia|].
      rewrite <- (Hdig false fuel) by lia. do 2 f_equal. lia.
  - inversion H; subst n rest. exists [d .| 0]. split; [reflexivity|]. split; [lia|].
    intros fuel Hf Hz. now rewrite (Hdig true fuel).
Qed.

(** The variable-length integers of the database.  For every width, a
    number of the width reads back from the bytes written, whatever follows;
    their number is [GetSizeOfVarInt] and never exceeds the buffer [tmp] of
    the writer, which a larger one would not change; and each number has one
    code only, among the codes too short to overflow the reader. *)
Theorem varint_codec w n : 1 <= w -> in_width w n ->
  (forall rest, ReadVarInt w (WriteVarInt w n ++ rest) = Read n rest) /\
  Z.of_nat (length (WriteVarInt w n)) = GetSizeOfVarInt w n /\ GetSizeOfVarInt w n <= (w + 6) / 7 /\
  (forall extra, rev (varint_tmp (tmp_size w + extra) true n) = WriteVarInt w n) /\
  (forall s rest, Forall u8 s -> 2 * 128 ^ Z.of_nat (length s) <= 2 ^ w -> ReadVarInt w s = Read n rest ->
     s = WriteVarInt w n ++ rest).
Proof.
  intros Hw Hn. destruct (tmp_size_bits w Hw) as [Hb Hpos]. pose proof (in_tmp w n Hw Hn) as Ht.
  assert (Hlen : forall fuel first m, (length (varint_tmp fuel first m) <= fuel)%nat).
  { induction fuel as [|fuel IH]; intros first m; [reflexivity|]. rewrite varint_tmp_S.
    destruct (m <=? 0x7F); cbn [length]; [lia | specialize (IH false (m / 128 - 1)); lia]. }
  unfold WriteVarInt, GetSizeOfVarInt. split; [intros rest; now apply varint_read|].
  rewrite length_rev, (size_varint_length _ true). split; [reflexivity|]. split.
  - specialize (Hlen (tmp_size w) true n). unfold tmp_size in *. pose proof (Z.div_pos (w + 6) 7). lia.
  - split; [intros extra; f_equal; apply varint_tmp_fuel; [split; [apply Hn | exact Ht] | exact Hpos]|].
    intros s rest Hs Hl H. destruct (read_varint_canonical w s 0 [] n rest Hs) as (c & -> & _ & Hc); [lia | exact Hl | | exact H|].
    + intros fuel _ _. reflexivity.
    + f_equal. exact (Hc _ Ht Hpos).
Qed.

Lemma varint_codec_witness : WriteVarInt 32 70000 = [131; 161; 112] /\ ReadVarInt 32 [131; 161; 112; 9] = Read 70000 [9] /\
  [131; 161; 112] = WriteVarInt 32 70000 ++ [].
Proof.
  assert (H : in_width 32 70000) by (split; [discriminate | reflexivity]).
  destruct (varint_codec 32 70000 ltac:(discriminate) H) as (H1 & _ & _ & _ & H2). split; [reflexivity|]. split; [exact (H1 [9])|].
  apply H2; [|discriminate | reflexivity]. repeat constructor; discriminate.
Defined.

End Serialize.
