(* ===== verification/Transaction.v ===== *)
(** Transactions: the classes of primitives/transaction.h and
    transaction.cpp with their serialization, and [CFeeRate] of amount.cpp.

    A [uint256] is its 32 bytes.  The hash a [CTransaction] caches is the
    function [GetHash] here: every constructor that fills the members and
    every read refreshes it.  The laws of the formats are instances, so that
    a transaction reads back and has one encoding only. *)
From S2P Require Import Prelude SphTypes HashStream Sha256 Script Merkle Serialize.

Module Transaction.
Import Script Serialize.

#[local] Opaque Sha256.Hash.

Definition uint256_max32 : Z := 0xFFFFFFFF.

(** ** Outpoints *)

Record COutPoint : Type := mkOutPoint { hash : list Z; n : Z }.

Definition COutPoint_SetNull : COutPoint := mkOutPoint Merkle.uint256_0 uint256_max32.
Definition COutPoint_IsNull (o : COutPoint) : bool :=
  forallb (Z.eqb 0) (hash o) && (n o =? uint256_max32).
Definition COutPoint_eq (a b : COutPoint) : bool := Merkle.eq_hash (hash a) (hash b) && (n a =? n b).

(** [READWRITE(FLATDATA( *this))]: the object is 36 bytes without padding. *)
Definition COutPoint_format : format COutPoint :=
  wrap_format (pair_format (flat_format 32) uint32_format)
    (fun o => (hash o, n o)) (fun p => mkOutPoint (fst p) (snd p)).

Definition COutPoint_GetHash (o : COutPoint) : list Z := Sha256.Hash2 (hash o) (le_bytes 4 (n o)).

(** ** Inputs and outputs *)

Record CTxIn : Type := mkTxIn { prevout : COutPoint; scriptSig : list Z; nSequence : Z; prevPubKey : list Z }.

Definition CTxIn_IsFinal (txin : CTxIn) : bool := nSequence txin =? uint256_max32.

Definition CTxIn_format : format CTxIn :=
  wrap_format (pair_format COutPoint_format (pair_format bytes_format uint32_format))
    (fun i => (prevout i, (scriptSig i, nSequence i)))
    (fun p => mkTxIn (fst p) (fst (snd p)) (snd (snd p)) []).

Record CTxOut : Type := mkTxOut { nValue : Z; scriptPubKey : list Z; nRounds : Z }.

Definition CTxOut_SetNull : CTxOut := mkTxOut (-1) [] (-10).
Definition CTxOut_new (nValueIn : Z) (scriptPubKeyIn : list Z) : CTxOut := mkTxOut nValueIn scriptPubKeyIn (-10).
Definition CTxOut_IsNull (o : CTxOut) : bool := nValue o =? -1.
Definition CTxOut_IsEmpty (o : CTxOut) : bool := (nValue o =? 0) && (length (scriptPubKey o) =? 0)%nat.

Definition eq_script (a b : list Z) : bool := if list_eq_dec Z.eq_dec a b then true else false.

Definition CTxOut_eq (a b : CTxOut) : bool :=
  (nValue a =? nValue b) && eq_script (scriptPubKey a) (scriptPubKey b) && (nRounds a =? nRounds b).

(** The reader fills a [CTxOut()] the vector holds. *)
Definition CTxOut_format : format CTxOut :=
  wrap_format (pair_format int64_format bytes_format)
    (fun o => (nValue o, scriptPubKey o)) (fun p => mkTxOut (fst p) (snd p) (-10)).

Definition CTxOut_GetHash (o : CTxOut) : list Z := Sha256.Hash (Serialize CTxOut_format o).

(** ** Transactions *)

Record CTransaction : Type := mkTransaction { nVersion : Z; vin : list CTxIn; vout : list CTxOut; nLockTime : Z }.

Definition CURRENT_VERSION : Z := 1.
Definition CTransaction_null : CTransaction := mkTransaction CURRENT_VERSION [] [] 0.

Definition CTransaction_format : format CTransaction :=
  wrap_format (pair_format int32_format (pair_format (vector_format CTxIn_format)
                (pair_format (vector_format CTxOut_format) uint32_format)))
    (fun t => (nVersion t, (vin t, (vout t, nLockTime t))))
    (fun p => mkTransaction (fst p) (fst (snd p)) (fst (snd (snd p))) (snd (snd (snd p)))).

(** [UpdateHash], [CMutableTransaction::GetHash]: [SerializeHash( *this)] *)
Definition GetHash (tx : CTransaction) : list Z := Sha256.Hash (Serialize CTransaction_format tx).

Definition IsNull (tx : CTransaction) : bool := (length (vin tx) =? 0)%nat && (length (vout tx) =? 0)%nat.

(** [vin[0]] of a transaction with inputs. *)
Definition vin0 (p : CTxIn -> bool) (tx : CTransaction) : bool :=
  match vin tx with i :: _ => p i | [] => false end.
Definition vout0 (p : CTxOut -> bool) (tx : CTransaction) : bool :=
  match vout tx with o :: _ => p o | [] => false end.

Definition tx_IsZerocoinSpend (tx : CTransaction) : bool :=
  (0 <? length (vin tx))%nat && vin0 (fun i => COutPoint_IsNull (prevout i)) tx
  && vin0 (fun i => IsZerocoinSpend (scriptSig i)) tx.

Definition tx_IsZerocoinMint (tx : CTransaction) : bool :=
  existsb (fun txout => IsZerocoinMint (scriptPubKey txout)) (vout tx).

Definition ContainsZerocoins (tx : CTransaction) : bool := tx_IsZerocoinSpend tx || tx_IsZerocoinMint tx.

Definition IsCoinBase (tx : CTransaction) : bool :=
  (length (vin tx) =? 1)%nat && vin0 (fun i => COutPoint_IsNull (prevout i)) tx
  && negb (vin0 (fun i => IsProofOfStakeMarker (scriptSig i)) tx) && negb (ContainsZerocoins tx).

Definition IsV5CoinStake (tx : CTransaction) : bool :=
  (length (vin tx) =? 1)%nat && vin0 (fun i => COutPoint_IsNull (prevout i)) tx
  && vin0 (fun i => IsProofOfStakeMarker (scriptSig i)) tx
  && (2 <=? length (vout tx))%nat && vout0 CTxOut_IsEmpty tx.

Definition IsCoinStake (tx : CTransaction) : bool :=
  if (0 <? length (vin tx))%nat && negb (vin0 (fun i => COutPoint_IsNull (prevout i)) tx)
     && (2 <=? length (vout tx))%nat && vout0 CTxOut_IsEmpty tx
  then true
  else if (length (vin tx) =? 1)%nat && vin0 (fun i => COutPoint_IsNull (prevout i)) tx
     && vin0 (fun i => IsProofOfStakeMarker (scriptSig i)) tx
     && (2 <=? length (vout tx))%nat && vout0 CTxOut_IsEmpty tx
  then true
  else false.

(** [tx->vout[k]] where the caller knows the output is there. *)
Definition vout_at (tx : CTransaction) (k : nat) : CTxOut := nth k (vout tx) CTxOut_SetNull.

(** [n == tx->vout.size() - 1] compares in the width of [size_t]. *)
Definition IsMasternodeReward (o : COutPoint) (tx : CTransaction) : bool :=
  if negb (IsCoinStake tx) then false
  else (n o =? T64 (Z.of_nat (length (vout tx)) - 1))
       && negb (eq_script (scriptPubKey (vout_at tx 1)) (scriptPubKey (vout_at tx (Z.to_nat (n o))))).

(** [GetValueOut]: its second check only fails after the addition has left
    [int64_t], which the language leaves undefined. *)
Inductive value_out : Type := Value (v : Z) | ThrowNegative | Undefined.

Fixpoint value_out_loop (nValueOut : Z) (vout : list CTxOut) : value_out :=
  match vout with
  | [] => Value nValueOut
  | o :: vout =>
      if nValue o <? 0 then ThrowNegative
      else if int64_max <? nValueOut + nValue o then Undefined
      else value_out_loop (nValueOut + nValue o) vout
  end.

Definition GetValueOut (tx : CTransaction) : value_out := value_out_loop 0 (vout tx).

Definition UsesUTXO (tx : CTransaction) (out : COutPoint) : bool :=
  existsb (fun i => COutPoint_eq (prevout i) out) (vin tx).

Definition GetOutPoints (tx : CTransaction) : list COutPoint :=
  map (fun i => mkOutPoint (GetHash tx) (Z.of_nat i)) (seq 0 (length (vout tx))).

Definition GetZerocoinMinted (tx : CTransaction) : Z :=
  match find (fun o => IsZerocoinMint (scriptPubKey o)) (vout tx) with
  | Some o => nValue o
  | None => 0
  end.

Definition GetZerocoinMintCount (tx : CTransaction) : Z :=
  fold_left (fun nCount o => if IsZerocoinMint (scriptPubKey o) then nCount + 1 else nCount) (vout tx) 0.

(** [nTxSize -= offset] for every input it is larger than. *)
Definition CalculateModifiedSize (tx : CTransaction) (nTxSize : Z) : Z :=
  let nTxSize := if nTxSize =? 0 then T32 (GetSerializeSize CTransaction_format tx) else nTxSize in
  fold_left (fun nTxSize i =>
      let offset := 41 + Z.min 110 (T32 (Z.of_nat (length (scriptSig i)))) in
      if offset <? nTxSize then nTxSize - offset else nTxSize)
    (vin tx) nTxSize.

(** ** Fee rates: the product of a [CAmount] and a [size_t] is unsigned. *)

Definition CFeeRate_new (nFeePaid nSize : Z) : Z :=
  if 0 <? nSize then to_signed 64 (T64 (T64 (nFeePaid * 1000) / nSize)) else 0.

Definition GetFee (nSatoshisPerK nSize : Z) : Z :=
  let nFee := to_signed 64 (T64 (T64 (nSatoshisPerK * nSize) / 1000)) in
  if (nFee =? 0) && (0 <? nSatoshisPerK) then nSatoshisPerK else nFee.

Definition IsDust (o : CTxOut) (minRelayTxFee : Z) : bool :=
  let nSize := GetSerializeSize CTxOut_format o + 148 in
  nValue o <? 3 * GetFee minRelayTxFee nSize.

(** * Well-formed transactions *)

Definition outpoint_ok (o : COutPoint) : Prop := flat 32 (hash o) /\ in_width 32 (n o).

(** [prevPubKey] and [nRounds] are kept in memory only. *)
Definition txin_ok (i : CTxIn) : Prop :=
  outpoint_ok (prevout i) /\ blob (scriptSig i) /\ in_width 32 (nSequence i) /\ prevPubKey i = [].

Definition txout_ok (o : CTxOut) : Prop :=
  in_signed 64 (nValue o) /\ blob (scriptPubKey o) /\ nRounds o = -10.

Definition tx_ok (t : CTransaction) : Prop :=
  in_signed 32 (nVersion t) /\ vector txin_ok (vin t) /\ vector txout_ok (vout t) /\ in_width 32 (nLockTime t).

#[export] Instance COutPoint_lawful : Lawful COutPoint_format outpoint_ok.
Proof. eapply wrap_lawful; [exact _|]. now intros []. Qed.

#[export] Instance COutPoint_canonical : Canonical COutPoint_format outpoint_ok.
Proof. eapply wrap_canonical; [exact _|]. now intros []. Qed.

#[export] Instance CTxIn_lawful : Lawful CTxIn_format txin_ok.
Proof. eapply wrap_lawful; [exact _|]. intros [o s q k] (Ho & Hs & Hq & Hk). cbn in *. subst k. split; [tauto | reflexivity]. Qed.

#[export] Instance CTxIn_canonical : Canonical CTxIn_format txin_ok.
Proof. eapply wrap_canonical; [exact _|]. intros (o & s & q) (Ho & Hs & Hq). cbn in *. split; [|reflexivity]. unfold txin_ok, txout_ok, tx_ok; cbn; tauto. Qed.

#[export] Instance CTxOut_lawful : Lawful CTxOut_format txout_ok.
Proof. eapply wrap_lawful; [exact _|]. intros [v s r] (Hv & Hs & Hr). cbn in *. subst r. split; [tauto | reflexivity]. Qed.

#[export] Instance CTxOut_canonical : Canonical CTxOut_format txout_ok.
Proof. eapply wrap_canonical; [exact _|]. intros (v & s) (Hv & Hs). cbn in *. split; [|reflexivity]. unfold txin_ok, txout_ok, tx_ok; cbn; tauto. Qed.

#[export] Instance CTransaction_lawful : Lawful CTransaction_format tx_ok.
Proof. eapply wrap_lawful; [exact _|]. intros [v i o l] (Hv & Hi & Ho & Hl). cbn in *. split; [tauto | reflexivity]. Qed.

#[export] Instance CTransaction_canonical : Canonical CTransaction_format tx_ok.
Proof. eapply wrap_canonical; [exact _|]. intros (v & i & o & l) (Hv & Hi & Ho & Hl). cbn in *. split; [|reflexivity]. unfold txin_ok, txout_ok, tx_ok; cbn; tauto. Qed.

(** C17: a transaction reads back from its serialization, whatever follows it
    in the stream, in as many bytes as its size says; any bytes accepted as a
    transaction are its only serialization; so two transactions of the same
    identifier are the same, or their serializations are a collision of the
    double SHA-256. *)
Theorem transaction_codec tx : tx_ok tx ->
  (forall rest, Unserialize CTransaction_format (Serialize CTransaction_format tx ++ rest) = Read tx rest) /\
  T32 (GetSerializeSize CTransaction_format tx) = T32 (Z.of_nat (length (Serialize CTransaction_format tx))) /\
  (forall s tx' rest, Forall u8 s -> Unserialize CTransaction_format s = Read tx' rest ->
     tx_ok tx' /\ s = Serialize CTransaction_format tx' ++ rest) /\
  (forall tx', tx_ok tx' -> GetHash tx' = GetHash tx ->
     tx' = tx \/ (Serialize CTransaction_format tx' <> Serialize CTransaction_format tx /\
                  Sha256.Hash (Serialize CTransaction_format tx') = Sha256.Hash (Serialize CTransaction_format tx))).
Proof.
  intros Hok. split; [intros rest; now apply read_back|]. split; [now apply size_written|]. split.
  - intros s tx' rest Hs H. exact (canonical s tx' rest Hs H).
  - intros tx' Hok' HH. destruct (list_eq_dec Z.eq_dec (Serialize CTransaction_format tx') (Serialize CTransaction_format tx)) as [E|E].
    + left. exact (Serialize_inj CTransaction_format tx_ok _ _ Hok' Hok E).
    + right. split; [exact E | exact HH].
Qed.

Definition one_output (value : Z) : CTransaction := mkTransaction 1 [mkTxIn COutPoint_SetNull [1; 100] uint256_max32 []] [CTxOut_new value [81]] 0.

Lemma one_output_ok value : in_signed 64 value -> tx_ok (one_output value).
Proof.
  intros Hv. assert (U : forall l, forallb (fun x => (0 <=? x) && (x <? 2 ^ 8)) l = true -> Forall u8 l).
  { intros l Hl. apply Forall_forall. intros x Hx. rewrite forallb_forall in Hl. specialize (Hl x Hx). unfold u8. lia. }
  split; [split; [discriminate | reflexivity]|]. split; [|split; [|split; [discriminate | reflexivity]]].
  - split; [|discriminate]. constructor; [|constructor]. split; [|split; [|split; [split; [discriminate | reflexivity]|reflexivity]]].
    + split; [split; [reflexivity | now apply U] | split; [discriminate | reflexivity]].
    + split; [now apply U | discriminate].
  - split; [|discriminate]. constructor; [|constructor]. split; [exact Hv|]. split; [split; [now apply U | discriminate] | reflexivity].
Qed.

Lemma transaction_codec_witness :
  Unserialize CTransaction_format (Serialize CTransaction_format (one_output 700) ++ [1; 2]) = Read (one_output 700) [1; 2] /\
  length (Serialize CTransaction_format (one_output 700)) = 63%nat.
Proof.
  assert (H : in_signed 64 700) by (split; [discriminate | reflexivity]).
  split; [exact (proj1 (transaction_codec (one_output 700) (one_output_ok 700 H)) [1; 2]) | vm_compute; reflexivity].
Defined.

End Transaction.
