(* ===== verification/SigHash.v ===== *)
(** Signature hashes: [CTransactionSignatureSerializer], [SignatureHash] and
    [TransactionSignatureChecker::CheckSig] of script/interpreter.cpp.

    The serializer writes a modified transaction without building it; the
    reference is the copy with its signatures blanked that it stands for.
    [CHashWriter] hashes what is written to it, in one piece here
    ([Sha256.sha256_stream]: the pieces do not matter).  The verification of
    a signature by a key ([CPubKey::Verify], the elliptic curve) is a
    parameter. *)
From S2P Require Import Prelude SphTypes HashStream Sha256 Script Standard Merkle Serialize Transaction.

Module SigHash.
Import Script Serialize Transaction.

#[local] Opaque Sha256.Hash.

Definition SIGHASH_ALL : Z := 1.
Definition SIGHASH_NONE : Z := 2.
Definition SIGHASH_SINGLE : Z := 3.
Definition SIGHASH_ANYONECANPAY : Z := 0x80.

(** The iterator a failing [GetOp] leaves: after the opcode and the size. *)
Definition GetOp_stuck (pc : list Z) : list Z :=
  match pc with
  | [] => []
  | opcode :: pc =>
      if opcode <=? value OP_PUSHDATA4 then
        if opcode <? value OP_PUSHDATA1 then pc
        else if opcode =? value OP_PUSHDATA1 then (if (length pc <? 1)%nat then pc else skipn 1 pc)
        else if opcode =? value OP_PUSHDATA2 then (if (length pc <? 2)%nat then pc else skipn 2 pc)
        else (if (length pc <? 4)%nat then pc else skipn 4 pc)
      else pc
  end.

Fixpoint count_separators (fuel : nat) (it : list Z) : nat :=
  match fuel with
  | O => 0%nat
  | S fuel =>
      match GetOp it with
      | None => 0%nat
      | Some (opcode, _, it) =>
          ((if (opcode =? value OP_CODESEPARATOR)%Z then 1 else 0) + count_separators fuel it)%nat
      end
  end.

(** The second loop: what it writes, and [it] and [itBegin] behind it. *)
Fixpoint write_code (fuel : nat) (it itBegin : list Z) : list Z * list Z * list Z :=
  match fuel with
  | O => ([], it, itBegin)
  | S fuel =>
      match GetOp it with
      | None => ([], GetOp_stuck it, itBegin)
      | Some (opcode, _, it) =>
          if opcode =? value OP_CODESEPARATOR then
            let '(w, it', itBegin') := write_code fuel it it in
            (firstn (length itBegin - length it - 1) itBegin ++ w, it', itBegin')
          else write_code fuel it itBegin
      end
  end.

Definition SerializeScriptCode (scriptCode : list Z) : list Z :=
  let nCodeSeparators := count_separators (S (length scriptCode)) scriptCode in
  let '(w, it, itBegin) := write_code (S (length scriptCode)) scriptCode scriptCode in
  WriteCompactSize (Z.of_nat (length scriptCode) - Z.of_nat nCodeSeparators) ++ w ++
  (if (length itBegin =? 0)%nat then [] else firstn (length itBegin - length it) itBegin).

Definition CTxIn_null : CTxIn := mkTxIn COutPoint_SetNull [] uint256_max32 [].

Definition vin_at (tx : CTransaction) (k : nat) : CTxIn := nth k (vin tx) CTxIn_null.

Section Serializer.
Variables (txTo : CTransaction) (scriptCode : list Z) (nIn : nat) (nHashType : Z).

Definition fAnyoneCanPay : bool := negb (nHashType .& SIGHASH_ANYONECANPAY =? 0).
Definition fHashSingle : bool := nHashType .& 0x1f =? SIGHASH_SINGLE.
Definition fHashNone : bool := nHashType .& 0x1f =? SIGHASH_NONE.

Definition SerializeInput (nInput : nat) : list Z :=
  let nInput := if fAnyoneCanPay then nIn else nInput in
  Serialize COutPoint_format (prevout (vin_at txTo nInput)) ++
  (if negb (nInput =? nIn)%nat then Serialize bytes_format [] else SerializeScriptCode scriptCode) ++
  (if negb (nInput =? nIn)%nat && (fHashSingle || fHashNone) then Serialize int32_format 0
   else Serialize uint32_format (nSequence (vin_at txTo nInput))).

Definition SerializeOutput (nOutput : nat) : list Z :=
  if fHashSingle && negb (nOutput =? nIn)%nat then Serialize CTxOut_format CTxOut_SetNull
  else Serialize CTxOut_format (vout_at txTo nOutput).

Definition SignatureSerialize : list Z :=
  let nInputs := if fAnyoneCanPay then 1%nat else length (vin txTo) in
  let nOutputs := if fHashNone then 0%nat else if fHashSingle then (nIn + 1)%nat else length (vout txTo) in
  Serialize int32_format (nVersion txTo) ++
  WriteCompactSize (Z.of_nat nInputs) ++ flat_map SerializeInput (seq 0 nInputs) ++
  WriteCompactSize (Z.of_nat nOutputs) ++ flat_map SerializeOutput (seq 0 nOutputs) ++
  Serialize uint32_format (nLockTime txTo).

(** [uint256(1)] *)
Definition uint256_1 : list Z := 1 :: repeat 0 31.

Definition SignatureHash : list Z :=
  if (length (vin txTo) <=? nIn)%nat then uint256_1
  else if fHashSingle && (length (vout txTo) <=? nIn)%nat then uint256_1
  else Sha256.Hash (SignatureSerialize ++ Serialize int32_format nHashType).

(** ** The transaction it stands for *)

(** A script without its separators. *)
Fixpoint without_separators (fuel : nat) (pc : list Z) : list Z :=
  match fuel with
  | O => pc
  | S fuel =>
      match GetOp pc with
      | None => pc
      | Some (opcode, _, pc') =>
          (if opcode =? value OP_CODESEPARATOR then [] else firstn (length pc - length pc') pc) ++
          without_separators fuel pc'
      end
  end.

Definition signed_code : list Z := without_separators (S (length scriptCode)) scriptCode.

Definition blank_input (k : nat) : CTxIn :=
  let i := vin_at txTo k in
  mkTxIn (prevout i) (if (k =? nIn)%nat then signed_code else [])
    (if negb (k =? nIn)%nat && (fHashSingle || fHashNone) then 0 else nSequence i) [].

Definition sig_copy : CTransaction :=
  mkTransaction (nVersion txTo)
    (if fAnyoneCanPay then [blank_input nIn] else map blank_input (seq 0 (length (vin txTo))))
    (if fHashNone then [] else if fHashSingle then repeat CTxOut_SetNull nIn ++ [vout_at txTo nIn] else vout txTo)
    (nLockTime txTo).
End Serializer.

(** [TransactionSignatureChecker::CheckSig] *)
Definition CheckSig (Verify : list Z -> list Z -> list Z -> bool) (txTo : CTransaction) (nIn : nat)
    (vchSigIn vchPubKey scriptCode : list Z) : bool :=
  let pubkey := Standard.CPubKey vchPubKey in
  if negb (Standard.IsValid pubkey) then false
  else match vchSigIn with
       | [] => false
       | _ =>
           let nHashType := back vchSigIn in
           let vchSig := removelast vchSigIn in
           let sighash := SignatureHash txTo scriptCode nIn nHashType in
           if negb (Verify pubkey sighash vchSig) then false else true
       end.

(** * The serializer writes the copy *)

Lemma GetOp_split pc opcode data pc' : GetOp pc = Some (opcode, data, pc') ->
  pc = firstn (length pc - length pc') pc ++ pc' /\ (length pc' < length pc)%nat /\ hd 0 pc = opcode.
Proof.
  intros H. pose proof (GetOp_shorter _ _ _ _ H). destruct (GetOp_suffix _ _ _ _ H) as [p ->].
  split; [|split; [assumption | reflexivity]].
  rewrite app_comm_cons, length_app, Nat.add_sub, firstn_app, Nat.sub_diag, firstn_all, app_nil_r. reflexivity.
Qed.

(** A separator is one byte: [GetOp] reads no operand of it. *)
Lemma GetOp_separator pc data pc' : GetOp pc = Some (value OP_CODESEPARATOR, data, pc') ->
  pc = value OP_CODESEPARATOR :: pc'.
Proof.
  destruct pc as [|o pc]; [discriminate|]. cbn. destruct (Z.leb_spec o 78).
  - destruct (if o <? 76 then _ else _) as [[k q]|]; [|discriminate].
    destruct (Z.of_nat (length q) <? k); [discriminate|]. intros E; inversion E. lia.
  - intros E; inversion E. reflexivity.
Qed.

Lemma write_code_reads it l : reads it l -> forall fuel p, (length it < fuel)%nat ->
  exists w itBegin, write_code fuel it (p ++ it) = (w, [], itBegin) /\
    w ++ itBegin = p ++ without_separators fuel it /\
    (length (without_separators fuel it) + count_separators fuel it = length it)%nat.
Proof.
  induction 1 as [|pc o d pc' l E R IH]; intros fuel p Hf; (destruct fuel as [|fuel]; [lia|]).
  { exists [], p. cbn. rewrite !app_nil_r. now repeat split. }
  destruct (GetOp_split _ _ _ _ E) as (Ep & Hlt & _). cbn [write_code without_separators count_separators]. rewrite E.
  destruct (Z.eqb_spec o (value OP_CODESEPARATOR)) as [->|Ho].
  - apply GetOp_separator in E. subst pc. cbn [length] in *.
    destruct (IH fuel [] ltac:(lia)) as (w & ib & Hwc & Hw & Hl). cbn [app] in Hwc, Hw. rewrite Hwc.
    exists (p ++ w), ib. replace (length (p ++ _ :: pc') - length pc' - 1)%nat with (length p) by (rewrite length_app; cbn; lia).
    rewrite firstn_app, firstn_all, Nat.sub_diag. cbn [firstn]. rewrite app_nil_r, <- app_assoc, Hw. cbn [app]. repeat split. lia.
  - destruct (IH fuel (p ++ firstn (length pc - length pc') pc) ltac:(lia)) as (w & ib & Hwc & Hw & Hl).
    rewrite <- app_assoc, <- Ep in Hwc. exists w, ib. rewrite Hwc, Hw, app_assoc. repeat split.
    rewrite length_app, length_firstn. lia.
Qed.

Lemma SerializeScriptCode_reads code l : reads code l ->
  SerializeScriptCode code = Serialize bytes_format (signed_code code).
Proof.
  intros R. destruct (write_code_reads _ _ R (S (length code)) [] ltac:(lia)) as (w & ib & Hw & Hs & Hl).
  unfold SerializeScriptCode, signed_code. cbn [app] in Hw, Hs. rewrite Hw.
  change (Serialize bytes_format ?v) with (WriteCompactSize (Z.of_nat (length v)) ++ v).
  rewrite <- Hs at 2. f_equal; [f_equal; lia|]. f_equal. destruct ib; [reflexivity|].
  cbn [length Nat.eqb]. rewrite Nat.sub_0_r. change (S (length ib)) with (length (z :: ib)). now rewrite firstn_all.
Qed.

Lemma map_nth_seq {A B} (f : A -> B) d l : map (fun k => f (nth k l d)) (seq 0 (length l)) = map f l.
Proof.
  induction l as [|a l IH]; [reflexivity|]. cbn [length seq map nth]. f_equal.
  rewrite <- seq_shift, map_map. exact IH.
Qed.

Lemma flat_map_map {A B C} (f : A -> B) (g : B -> list C) l : flat_map g (map f l) = flat_map (fun x => g (f x)) l.
Proof. now rewrite !flat_map_concat_map, map_map. Qed.

Lemma flat_map_nth_seq {A B} (f : A -> list B) d l : flat_map (fun k => f (nth k l d)) (seq 0 (length l)) = flat_map f l.
Proof. now rewrite !flat_map_concat_map, map_nth_seq. Qed.

Lemma flat_map_seq_ext {B} (f g : nat -> list B) a k :
  (forall i, (a <= i < a + k)%nat -> f i = g i) -> flat_map f (seq a k) = flat_map g (seq a k).
Proof.
  intros H. rewrite !flat_map_concat_map. f_equal. apply map_ext_in. intros i Hi. apply in_seq in Hi. now apply H.
Qed.

Lemma repeat_nth_seq {A} (x d : A) k : map (fun _ => x) (seq 0 k) = repeat x k.
Proof. rewrite map_const, length_seq. reflexivity. Qed.

Section Copy.
Context {txTo : CTransaction} {scriptCode : list Z} {nIn : nat} {nHashType : Z}.
Context {l : list (Z * list Z)} (Hcode : reads scriptCode l).

Lemma input_bytes k :
  SerializeInput txTo scriptCode nIn nHashType k
  = Serialize CTxIn_format (blank_input txTo scriptCode nIn nHashType (if fAnyoneCanPay nHashType then nIn else k)).
Proof using Hcode.
  unfold SerializeInput, blank_input. cbn [Serialize CTxIn_format wrap_format pair_format fst snd prevout scriptSig nSequence].
  set (i := if fAnyoneCanPay nHashType then nIn else k). do 2 f_equal.
  - destruct (i =? nIn)%nat; [|reflexivity]. cbn [negb]. now rewrite (SerializeScriptCode_reads _ _ Hcode).
  - destruct (negb (i =? nIn)%nat && _); reflexivity.
Qed.

Lemma outputs_bytes : (fHashSingle nHashType = true -> (nIn < length (vout txTo))%nat) ->
  flat_map (SerializeOutput txTo nIn nHashType)
    (seq 0 (if fHashNone nHashType then 0 else if fHashSingle nHashType then nIn + 1 else length (vout txTo))%nat)
  = flat_map (Serialize CTxOut_format) (vout (sig_copy txTo scriptCode nIn nHashType)).
Proof using.
  intros Hs. cbn [vout sig_copy]. destruct (fHashNone nHashType) eqn:N; [reflexivity|].
  unfold SerializeOutput. destruct (fHashSingle nHashType) eqn:S1.
  - rewrite seq_app, !flat_map_app. f_equal.
    + rewrite <- (repeat_nth_seq CTxOut_SetNull CTxOut_SetNull), flat_map_map. apply flat_map_seq_ext.
      intros i Hi. destruct (Nat.eqb_spec i nIn); [lia | reflexivity].
    + cbn [seq flat_map Nat.add]. rewrite Nat.eqb_refl. reflexivity.
  - apply (flat_map_nth_seq (Serialize CTxOut_format) CTxOut_SetNull).
Qed.

Lemma sig_copy_bytes : (fHashSingle nHashType = true -> (nIn < length (vout txTo))%nat) ->
  SignatureSerialize txTo scriptCode nIn nHashType
  = Serialize CTransaction_format (sig_copy txTo scriptCode nIn nHashType).
Proof using Hcode.
  intros Hs. unfold SignatureSerialize. rewrite (outputs_bytes Hs).
  cbn [Serialize CTransaction_format wrap_format pair_format vector_format fst snd].
  rewrite <- !app_assoc. f_equal. f_equal.
  { f_equal. cbn [vin sig_copy]. destruct (fAnyoneCanPay nHashType); [reflexivity|]. now rewrite length_map, length_seq. }
  f_equal.
  { cbn [vin sig_copy].
    transitivity (flat_map (Serialize CTxIn_format) (map (fun k => blank_input txTo scriptCode nIn nHashType (if fAnyoneCanPay nHashType then nIn else k)) (seq 0 (if fAnyoneCanPay nHashType then 1 else length (vin txTo))%nat))).
    - rewrite flat_map_map. apply flat_map_seq_ext. intros i _. apply input_bytes.
    - now destruct (fAnyoneCanPay nHashType). }
  f_equal. f_equal. cbn [vout sig_copy]. destruct (fHashNone nHashType); [reflexivity|].
  destruct (fHashSingle nHashType); [|reflexivity]. now rewrite length_app, repeat_length.
Qed.
End Copy.

(** * What a signature commits to *)

(** The bytes that are hashed. *)
Definition preimage (txTo : CTransaction) (scriptCode : list Z) (nIn : nat) (nHashType : Z) : list Z :=
  SignatureSerialize txTo scriptCode nIn nHashType ++ Serialize int32_format nHashType.

Lemma without_separators_u8 fuel : forall pc, Forall u8 pc -> Forall u8 (without_separators fuel pc).
Proof.
  induction fuel as [|fuel IH]; intros pc H; [exact H|]. cbn [without_separators].
  destruct (GetOp pc) as [[[o d] pc']|] eqn:E; [|exact H].
  apply Forall_app. split; [destruct (_ =? _); [constructor | now apply Forall_split]|].
  now apply IH, (GetOp_bytes _ _ _ _ H E).
Qed.

Lemma nth_Forall {A} (P : A -> Prop) l k d : Forall P l -> P d -> P (nth k l d).
Proof. intros H Hd. destruct (nth_in_or_default k l d) as [Hi| ->]; [|exact Hd]. rewrite Forall_forall in H. now apply H. Qed.

Lemma nil_blob : blob [].
Proof. split; [constructor | discriminate]. Qed.

Lemma txin_null_ok : txin_ok CTxIn_null.
Proof.
  assert (W : in_width 32 uint256_max32) by (split; [discriminate | reflexivity]).
  assert (H : flat 32 Merkle.uint256_0).
  { split; [reflexivity|]. apply Forall_forall. intros x Hx. apply repeat_spec in Hx. subst x. split; [discriminate | reflexivity]. }
  exact (conj (conj H W) (conj nil_blob (conj W eq_refl))).
Qed.

Lemma txout_null_ok : txout_ok CTxOut_SetNull.
Proof. split; [split; [discriminate | reflexivity] | exact (conj nil_blob eq_refl)]. Qed.

(** A signed transaction: its script code is a script the interpreter has
    read, its input and, for [SIGHASH_SINGLE], the output exist. *)
Definition signable (txTo : CTransaction) (scriptCode : list Z) (nIn : nat) (nHashType : Z) : Prop :=
  tx_ok txTo /\ blob scriptCode /\ (exists l, reads scriptCode l) /\ (nIn < length (vin txTo))%nat /\
  (fHashSingle nHashType = true -> (nIn < length (vout txTo))%nat) /\ in_signed 32 nHashType.

Lemma sig_copy_ok txTo scriptCode nIn nHashType :
  signable txTo scriptCode nIn nHashType -> tx_ok (sig_copy txTo scriptCode nIn nHashType).
Proof.
  intros ((Hv & [Hi HiM] & [Ho HoM] & Hl) & [Hc HcM] & [l R] & Hn & Hs & Ht).
  assert (Hcode : blob (signed_code scriptCode)).
  { split; [now apply without_separators_u8|].
    destruct (write_code_reads _ _ R (S (length scriptCode)) [] ltac:(lia)) as (w & ib & _ & _ & L).
    unfold signed_code. lia. }
  assert (Hb : forall k, txin_ok (blank_input txTo scriptCode nIn nHashType k)).
  { intros k. pose proof (nth_Forall txin_ok (vin txTo) k CTxIn_null Hi txin_null_ok) as (P1 & P2 & P3 & _).
    unfold blank_input, vin_at. repeat split; cbn [prevout scriptSig nSequence prevPubKey]; try apply P1.
    - destruct (k =? nIn)%nat; [apply Hcode | constructor].
    - destruct (k =? nIn)%nat; [apply Hcode | cbn; unfold MAX_SIZE; lia].
    - destruct (negb _ && _); [lia | apply P3].
    - destruct (negb _ && _); [reflexivity | apply P3]. }
  assert (Hm : MAX_SIZE >= 1) by (unfold MAX_SIZE; lia).
  split; [exact Hv|]. split; [|split; [|exact Hl]]; cbn [vin vout sig_copy].
  - destruct (fAnyoneCanPay nHashType).
    + split; [repeat constructor; apply Hb | cbn; lia].
    + split; [apply Forall_map, Forall_forall; intros k _; apply Hb | now rewrite length_map, length_seq].
  - destruct (fHashNone nHashType); [split; [constructor | cbn; lia]|].
    destruct (fHashSingle nHashType); [|split; assumption]. specialize (Hs eq_refl). split.
    + apply Forall_app. split; [apply Forall_forall; intros x Hx; apply repeat_spec in Hx; subst x; apply txout_null_ok|].
      repeat constructor; apply (nth_Forall txout_ok _ _ _ Ho txout_null_ok).
    + rewrite length_app, repeat_length. cbn. lia.
Qed.

(** Equal preimages are preimages of the same copy with the same type. *)
Lemma preimage_inj tx code i ht tx' code' i' ht' :
  signable tx code i ht -> signable tx' code' i' ht' -> preimage tx code i ht = preimage tx' code' i' ht' ->
  sig_copy tx code i ht = sig_copy tx' code' i' ht' /\ ht = ht'.
Proof.
  intros S1 S2 E. unfold preimage in E.
  pose proof S1 as (_ & _ & (l & R) & _ & Hs & Ht). pose proof S2 as (_ & _ & (l' & R') & _ & Hs' & Ht').
  rewrite (sig_copy_bytes R Hs), (sig_copy_bytes R' Hs') in E.
  pose proof (read_back _ (Serialize int32_format ht) (sig_copy_ok _ _ _ _ S1)) as B1.
  rewrite E, (read_back _ _ (sig_copy_ok _ _ _ _ S2)) in B1. apply Read_inj in B1 as [B2 B3]. split; [now rewrite B2|].
  symmetry. now apply (Serialize_inj int32_format (in_signed 32)).
Qed.

(** [SIGHASH_ALL] without [SIGHASH_ANYONECANPAY], and every undefined type
    that is treated like it. *)
Definition hash_all (nHashType : Z) : bool :=
  negb (fAnyoneCanPay nHashType) && negb (fHashSingle nHashType) && negb (fHashNone nHashType).

Lemma map_seq_eq {A} (f g : nat -> A) n m : map f (seq 0 n) = map g (seq 0 m) ->
  n = m /\ forall k, (k < n)%nat -> f k = g k.
Proof.
  intros E. pose proof (f_equal (@length A) E) as L. rewrite !length_map, !length_seq in L. subst m. split; [reflexivity|].
  intros k Hk. apply (proj1 (map_ext_in_iff (f := f) (g := g)) E), in_seq. lia.
Qed.

(** C16: the serializer that blanks signatures on the fly hashes exactly the
    transaction one would build by hand: a copy whose signed input holds the
    script code without its separators and whose other inputs hold nothing,
    restricted and reset as [SIGHASH_NONE], [SIGHASH_SINGLE] and
    [SIGHASH_ANYONECANPAY] say, followed by the hash type.  Without an input,
    or for [SIGHASH_SINGLE] an output, at the index the hash is the number
    one. *)
Theorem signature_hash txTo scriptCode nIn nHashType l : reads scriptCode l ->
  SignatureHash txTo scriptCode nIn nHashType =
  if ((length (vin txTo) <=? nIn)%nat || (fHashSingle nHashType && (length (vout txTo) <=? nIn)%nat))%bool then uint256_1
  else Sha256.Hash (Serialize CTransaction_format (sig_copy txTo scriptCode nIn nHashType) ++ Serialize int32_format nHashType).
Proof.
  intros R. unfold SignatureHash. destruct (length (vin txTo) <=? nIn)%nat; [reflexivity|]. cbn [orb].
  destruct (fHashSingle nHashType) eqn:S1; cbn [andb].
  - destruct (Nat.leb_spec (length (vout txTo)) nIn); [reflexivity|]. now rewrite (sig_copy_bytes R) by auto.
  - rewrite (sig_copy_bytes R); [reflexivity|]. rewrite S1. discriminate.
Qed.

(** What a [SIGHASH_ALL] signature commits to: two signed transactions
    that are hashed from the same bytes have the same version, lock time,
    outputs, and the same outpoints and sequence numbers in the same order;
    the same input is signed, with the same script code. *)
Theorem sighash_all_commits tx code i ht tx' code' i' ht' :
  signable tx code i ht -> signable tx' code' i' ht' -> hash_all ht = true ->
  preimage tx code i ht = preimage tx' code' i' ht' ->
  ht = ht' /\ nVersion tx = nVersion tx' /\ nLockTime tx = nLockTime tx' /\ vout tx = vout tx' /\
  map (fun i => (prevout i, nSequence i)) (vin tx) = map (fun i => (prevout i, nSequence i)) (vin tx') /\
  signed_code code = if (i =? i')%nat then signed_code code' else [].
Proof.
  intros S1 S2 HA E. destruct (preimage_inj _ _ _ _ _ _ _ _ S1 S2 E) as [C <-].
  pose proof S1 as (_ & _ & _ & Hn & _). unfold sig_copy in C. unfold hash_all in HA.
  apply andb_prop in HA as [HA HN]. apply andb_prop in HA as [HA HS]. apply negb_true_iff in HA, HN, HS.
  rewrite HA, HN, HS in C.
  assert (Cv := f_equal nVersion C). assert (Cl := f_equal nLockTime C). assert (Co := f_equal vout C). assert (Ci := f_equal vin C).
  cbn [nVersion nLockTime vin vout] in *. apply map_seq_eq in Ci as [Cn Ck]. repeat split; try assumption.
  - rewrite <- !(map_nth_seq _ CTxIn_null), <- Cn. apply map_ext_in. intros k Hk. apply in_seq in Hk.
    pose proof (Ck k ltac:(lia)) as B. unfold blank_input, vin_at in B. rewrite HN, HS in B.
    cbn [orb] in B. rewrite !andb_false_r in B. now inversion B.
  - pose proof (f_equal scriptSig (Ck i Hn)) as B. unfold blank_input in B. cbn [scriptSig] in B.
    now rewrite Nat.eqb_refl in B.
Qed.

(** A payment with two inputs, and the script of the key that signs one. *)
Definition example_tx (sig : list Z) : CTransaction :=
  mkTransaction 1
    [mkTxIn (mkOutPoint (repeat 7 32) 0) [] 0xFFFFFFFF []; mkTxIn (mkOutPoint (repeat 9 32) 1) sig 5 []]
    [CTxOut_new 5000 [172]] 0.

Definition example_code : list Z := [value OP_CODESEPARATOR; value OP_CHECKSIG].

Lemma example_reads : reads example_code [(value OP_CODESEPARATOR, []); (value OP_CHECKSIG, [])].
Proof. repeat (econstructor; [reflexivity|]). constructor. Defined.

Lemma example_signable sig ht : blob sig -> hash_all ht = true -> in_signed 32 ht -> signable (example_tx sig) example_code 0 ht.
Proof.
  intros Hs HA Ht. assert (U : Forall u8 [172]) by (constructor; [split; [discriminate | reflexivity] | constructor]).
  assert (F : forall b, u8 b -> flat 32 (repeat b 32)).
  { intros b Hb. split; [reflexivity|]. apply Forall_forall. intros x Hx. apply repeat_spec in Hx. now subst x. }
  assert (D : forall lo hi x, (lo <=? x) && (x <? hi) = true -> lo <= x < hi) by (intros; lia).
  split; [|split; [|split; [|split; [cbn; lia | split; [|exact Ht]]]]].
  - split; [apply D; reflexivity|]. split; [|split; [|apply D; reflexivity]].
    + split; [|discriminate]. repeat constructor; cbn [prevout hash n scriptSig nSequence];
        try apply F; try discriminate; try apply nil_blob; try apply Hs; try reflexivity; split; try discriminate; reflexivity.
    + split; [|discriminate]. repeat constructor; try apply U; try discriminate.
  - split; [|discriminate]. repeat constructor; discriminate.
  - eexists; exact example_reads.
  - unfold hash_all in HA. intros E. rewrite E in HA. now rewrite andb_false_r in HA.
Qed.

Lemma signature_hash_witness :
  reads example_code [(value OP_CODESEPARATOR, []); (value OP_CHECKSIG, [])] /\
  SignatureHash (example_tx [1; 2]) example_code 0 SIGHASH_NONE
  = Sha256.Hash (Serialize CTransaction_format
      (mkTransaction 1 [mkTxIn (mkOutPoint (repeat 7 32) 0) [value OP_CHECKSIG] 0xFFFFFFFF [];
                        mkTxIn (mkOutPoint (repeat 9 32) 1) [] 0 []] [] 0)
      ++ Serialize int32_format SIGHASH_NONE).
Proof.
  split; [exact example_reads|].
  exact (signature_hash (example_tx [1; 2]) example_code 0 SIGHASH_NONE _ example_reads).
Defined.

(** The signature of the other input is not covered. *)
Lemma sighash_all_commits_witness :
  vin (example_tx [1; 2]) <> vin (example_tx []) /\
  preimage (example_tx [1; 2]) example_code 0 SIGHASH_ALL = preimage (example_tx []) example_code 0 SIGHASH_ALL /\
  vout (example_tx [1; 2]) = vout (example_tx []).
Proof.
  split; [discriminate|]. split; [vm_compute; reflexivity|].
  assert (H : in_signed 32 SIGHASH_ALL) by (split; [discriminate | reflexivity]).
  assert (B : blob [1; 2]).
  { split; [|discriminate]. repeat constructor; discriminate. }
  exact (proj1 (proj2 (proj2 (proj2 (sighash_all_commits (example_tx [1; 2]) example_code 0 SIGHASH_ALL
    (example_tx []) example_code 0 SIGHASH_ALL (example_signable [1; 2] SIGHASH_ALL B eq_refl H) (example_signable [] SIGHASH_ALL nil_blob eq_refl H)
    eq_refl ltac:(vm_compute; reflexivity)))))).
Defined.

End SigHash.
