(* ===== verification/Compressor.v ===== *)
(** The compact serialization of outputs in the coin database: compressor.h
    and compressor.cpp.  Amounts are compressed by their trailing zeros,
    standard scripts to the hash or key they hold.

    The two operations on elliptic curve points [CScriptCompressor] calls,
    [CPubKey::IsFullyValid] and [CPubKey::Decompress], are parameters. *)
From S2P Require Import Prelude SphTypes Script Standard Serialize Transaction.

Module Compressor.
Import Script Serialize Transaction.

(** ** Amounts *)

(** [while (((n % 10) == 0) && e < 9)]; [fuel] is [9 - e]. *)
Fixpoint strip_zeros (fuel : nat) (n e : Z) : Z * Z :=
  match fuel with
  | O => (n, e)
  | S fuel => if n mod 10 =? 0 then strip_zeros fuel (n / 10) (e + 1) else (n, e)
  end.

Definition CompressAmount (n : Z) : Z :=
  if n =? 0 then 0
  else
    let '(n, e) := strip_zeros 9 n 0 in
    if e <? 9 then
      let d := n mod 10 in
      let n := n / 10 in
      T64 (1 + (n * 9 + d - 1) * 10 + e)
    else T64 (1 + (n - 1) * 10 + 9).

(** [while (e) { n *= 10; e--; }] *)
Fixpoint append_zeros (e : nat) (n : Z) : Z :=
  match e with O => n | S e => append_zeros e (T64 (n * 10)) end.

Definition DecompressAmount (x : Z) : Z :=
  if x =? 0 then 0
  else
    let x := x - 1 in
    let e := x mod 10 in
    let x := x / 10 in
    let n := if e <? 9 then T64 ((x / 9) * 10 + (x mod 9 + 1)) else T64 (x + 1) in
    append_zeros (Z.to_nat e) n.

(** ** Scripts *)

Definition nSpecialScripts : Z := 6.

Definition sub (l : list Z) (from len : nat) : list Z := firstn len (skipn from l).

Definition IsToKeyID (script : list Z) : option (list Z) :=
  if (length script =? 25)%nat && (script.[0] =? value OP_DUP) && (script.[1] =? value OP_HASH160)
     && (script.[2] =? 20) && (script.[23] =? value OP_EQUALVERIFY) && (script.[24] =? value OP_CHECKSIG)
  then Some (sub script 3 20) else None.

Definition IsToScriptID (script : list Z) : option (list Z) :=
  if (length script =? 23)%nat && (script.[0] =? value OP_HASH160) && (script.[1] =? 20)
     && (script.[22] =? value OP_EQUAL)
  then Some (sub script 2 20) else None.

Definition GetSpecialSize (nSize : Z) : nat :=
  if (nSize =? 0) || (nSize =? 1) then 20
  else if (nSize =? 2) || (nSize =? 3) || (nSize =? 4) || (nSize =? 5) then 32
  else 0.

Section Curve.
Variable IsFullyValid : list Z -> bool.
Variable PubKey_Decompress : list Z -> option (list Z).

Definition IsToPubKey (script : list Z) : option (list Z) :=
  if (length script =? 35)%nat && (script.[0] =? 33) && (script.[34] =? value OP_CHECKSIG)
     && ((script.[1] =? 0x02) || (script.[1] =? 0x03))
  then Some (sub script 1 33)
  else if (length script =? 67)%nat && (script.[0] =? 65) && (script.[66] =? value OP_CHECKSIG)
     && (script.[1] =? 0x04)
  then let pubkey := sub script 1 65 in if IsFullyValid pubkey then Some pubkey else None
  else None.

Definition Compress (script : list Z) : option (list Z) :=
  match IsToKeyID script with
  | Some keyID => Some (0x00 :: keyID)
  | None =>
      match IsToScriptID script with
      | Some scriptID => Some (0x01 :: scriptID)
      | None =>
          match IsToPubKey script with
          | Some pubkey =>
              let out := sub pubkey 1 32 in
              if (pubkey.[0] =? 0x02) || (pubkey.[0] =? 0x03) then Some (pubkey.[0] :: out)
              else if pubkey.[0] =? 0x04 then Some ((0x04 .| (pubkey.[64] .& 0x01)) :: out)
              else None
          | None => None
          end
      end
  end.

(** [None] leaves the script as it was. *)
Definition Decompress (nSize : Z) (input : list Z) : option (list Z) :=
  if nSize =? 0x00 then
    Some ([value OP_DUP; value OP_HASH160; 20] ++ sub input 0 20 ++ [value OP_EQUALVERIFY; value OP_CHECKSIG])
  else if nSize =? 0x01 then Some ([value OP_HASH160; 20] ++ sub input 0 20 ++ [value OP_EQUAL])
  else if (nSize =? 0x02) || (nSize =? 0x03) then Some ([33; nSize] ++ sub input 0 32 ++ [value OP_CHECKSIG])
  else if (nSize =? 0x04) || (nSize =? 0x05) then
    match PubKey_Decompress ((nSize - 2) :: sub input 0 32) with
    | None => None
    | Some pubkey => Some ([65] ++ pubkey ++ [value OP_CHECKSIG])
    end
  else None.

(** The reader fills the script of a fresh [CTxOut()]. *)
Definition CScriptCompressor_format : format (list Z) := {|
  Serialize script :=
    match Compress script with
    | Some compr => compr
    | None => WriteVarInt 32 (T32 (Z.of_nat (length script) + nSpecialScripts)) ++ script
    end;
  Unserialize :=
    nSize <- ReadVarInt 32 ;;
    if nSize <? nSpecialScripts then
      vch <- read (GetSpecialSize nSize) ;;
      ret (match Decompress nSize vch with Some script => script | None => [] end)
    else read (Z.to_nat (nSize - nSpecialScripts));
  GetSerializeSize script :=
    match Compress script with
    | Some compr => Z.of_nat (length compr)
    | None => T32 (Z.of_nat (length script) + GetSizeOfVarInt 32 (T32 (Z.of_nat (length script) + nSpecialScripts)))
    end;
|}.

(** The [SerializationOp] of [CTxOutCompressor]: a [CAmount] is converted
    to [uint64_t] and back. *)
Definition CTxOutCompressor_format : format CTxOut :=
  wrap_format (pair_format (varint_format 64) CScriptCompressor_format)
    (fun o => (CompressAmount (T64 (nValue o)), scriptPubKey o))
    (fun p => mkTxOut (to_signed 64 (DecompressAmount (fst p))) (snd p) (-10)).
End Curve.

(** * Amounts *)

Lemma strip_zeros_spec fuel : forall n e n' e', 0 < n -> strip_zeros fuel n e = (n', e') ->
  0 < n' /\ exists k, (k <= fuel)%nat /\ e' = e + Z.of_nat k /\ n = n' * 10 ^ Z.of_nat k /\ ((k < fuel)%nat -> n' mod 10 <> 0).
Proof.
  induction fuel as [|fuel IH]; intros n e n' e' Hn H; cbn [strip_zeros] in H.
  - inversion H; subst. split; [exact Hn|]. exists 0%nat. rewrite Z.mul_1_r. repeat split; lia.
  - destruct (Z.eqb_spec (n mod 10) 0) as [E|E].
    + assert (Hd : n = n / 10 * 10) by (pose proof (Z.div_mod n 10 ltac:(lia)); lia).
      apply IH in H as (Hp & k & Hk & -> & Hm & Hz); [|lia]. split; [exact Hp|]. exists (S k).
      rewrite Nat2Z.inj_succ, Z.pow_succ_r by lia. repeat split; lia.
    + inversion H; subst. split; [exact Hn|]. exists 0%nat. rewrite Z.mul_1_r. repeat split; try lia.
Qed.

Lemma strip_zeros_inv fuel : forall k n e, (k <= fuel)%nat -> ((k < fuel)%nat -> n mod 10 <> 0) ->
  strip_zeros fuel (n * 10 ^ Z.of_nat k) e = (n, e + Z.of_nat k).
Proof.
  induction fuel as [|fuel IH]; intros k n e Hk Hz.
  - replace k with 0%nat by lia. cbn [strip_zeros]. now rewrite Z.mul_1_r, Z.add_0_r.
  - cbn [strip_zeros]. destruct k as [|k].
    + rewrite Z.mul_1_r, Z.add_0_r. destruct (Z.eqb_spec (n mod 10) 0); [exfalso; apply Hz; lia|]. reflexivity.
    + rewrite Nat2Z.inj_succ, Z.pow_succ_r by lia.
      replace (n * (10 * 10 ^ Z.of_nat k)) with (n * 10 ^ Z.of_nat k * 10) by ring.
      rewrite Z.mod_mul, Z.div_mul by lia. cbn [Z.eqb]. rewrite IH by (try lia; intros; apply Hz; lia). f_equal. lia.
Qed.

Lemma append_zeros_spec e : forall n, 0 <= n -> n * 10 ^ Z.of_nat e < 2 ^ 64 -> append_zeros e n = n * 10 ^ Z.of_nat e.
Proof.
  induction e as [|e IH]; intros n Hn H; [now rewrite Z.mul_1_r|].
  rewrite Nat2Z.inj_succ, Z.pow_succ_r in * by lia.
  assert (1 <= 10 ^ Z.of_nat e) by (pose proof (Z.pow_pos_nonneg 10 (Z.of_nat e)); lia).
  cbn [append_zeros]. rewrite T64_id by (unfold u64; nia). rewrite IH by nia. ring.
Qed.

(** The arithmetic of the two shapes. *)
Lemma shape_digit q d e : 0 <= q -> 1 <= d <= 9 -> 0 <= e < 9 ->
  let c := 1 + (q * 9 + d - 1) * 10 + e in
  0 < c /\ (c - 1) mod 10 = e /\ (c - 1) / 10 / 9 = q /\ (c - 1) / 10 mod 9 = d - 1.
Proof.
  intros Hq Hd He c.
  assert (M : (c - 1) mod 10 = e) by (symmetry; apply (Z.mod_unique _ _ (q * 9 + d - 1)); lia).
  assert (D : (c - 1) / 10 = q * 9 + d - 1) by (symmetry; apply (Z.div_unique _ _ _ e); lia).
  rewrite D. repeat split; [lia | exact M | |].
  - symmetry. apply (Z.div_unique _ _ _ (d - 1)); lia.
  - symmetry. apply (Z.mod_unique _ _ q); lia.
Qed.

Lemma CompressAmount_shape n : 0 < n -> 9 * n < 2 ^ 64 ->
  exists m k, (k <= 9)%nat /\ 0 < m /\ n = m * 10 ^ Z.of_nat k /\
    ((k < 9)%nat /\ m mod 10 <> 0 /\ CompressAmount n = 1 + (m / 10 * 9 + m mod 10 - 1) * 10 + Z.of_nat k \/
     k = 9%nat /\ CompressAmount n = 1 + (m - 1) * 10 + 9) /\ 0 < CompressAmount n <= 9 * n.
Proof.
  intros Hn H9. unfold CompressAmount. destruct (Z.eqb_spec n 0); [lia|].
  destruct (strip_zeros 9 n 0) as [m e] eqn:E. apply strip_zeros_spec in E as (Hm & k & Hk & -> & Hnm & Hz); [|exact Hn].
  rewrite Z.add_0_l. exists m, k. split; [exact Hk|]. split; [exact Hm|]. split; [exact Hnm|].
  assert (Hp : 1 <= 10 ^ Z.of_nat k) by (pose proof (Z.pow_pos_nonneg 10 (Z.of_nat k)); lia).
  pose proof (Z.div_mod m 10 ltac:(lia)) as D. pose proof (Z.mod_pos_bound m 10 eq_refl) as M.
  assert (Hmn : m <= n) by nia.
  assert (Hk9 : (0 < k)%nat -> 10 * m <= n).
  { intros Hk0. rewrite Hnm. replace (Z.of_nat k) with (Z.succ (Z.of_nat (k - 1))) by lia.
    rewrite Z.pow_succ_r by lia. assert (1 <= 10 ^ Z.of_nat (k - 1)) by (pose proof (Z.pow_pos_nonneg 10 (Z.of_nat (k - 1))); lia). nia. }
  destruct (Z.ltb_spec (Z.of_nat k) 9).
  - specialize (Hz ltac:(lia)).
    assert (B : 0 < 1 + (m / 10 * 9 + m mod 10 - 1) * 10 + Z.of_nat k <= 9 * n).
    { destruct k as [|k]; [change (10 ^ Z.of_nat 0) with 1 in *; lia|]. specialize (Hk9 ltac:(lia)). lia. }
    rewrite T64_id by (unfold u64; lia). split; [left; repeat split; lia | exact B].
  - assert (k = 9%nat) by lia. subst k. specialize (Hk9 ltac:(lia)).
    rewrite T64_id by (unfold u64; lia). split; [right; split; reflexivity | lia].
Qed.

(** The amount a compressed number denotes. *)
Definition denoted (x : Z) : Z :=
  if x =? 0 then 0
  else
    let e := (x - 1) mod 10 in
    let y := (x - 1) / 10 in
    (if e <? 9 then (y / 9) * 10 + (y mod 9 + 1) else y + 1) * 10 ^ e.

Lemma DecompressAmount_denoted x : 0 <= x -> denoted x < 2 ^ 64 -> DecompressAmount x = denoted x.
Proof.
  intros Hx. unfold DecompressAmount, denoted. destruct (Z.eqb_spec x 0); [reflexivity|]. intros H.
  pose proof (Z.mod_pos_bound (x - 1) 10 eq_refl) as M. pose proof (Z.div_pos (x - 1) 10 ltac:(lia) ltac:(lia)) as D.
  pose proof (Z.mod_pos_bound ((x - 1) / 10) 9 eq_refl) as M9. pose proof (Z.div_pos ((x - 1) / 10) 9 ltac:(lia) ltac:(lia)) as D9.
  set (m := if _ <? 9 then _ else _) in H |- *.
  set (m' := if _ <? 9 then T64 _ else _).
  assert (Hp : 1 <= 10 ^ ((x - 1) mod 10)) by (pose proof (Z.pow_pos_nonneg 10 ((x - 1) mod 10)); lia).
  assert (Hm : 0 <= m) by (unfold m; destruct (_ <? 9); lia).
  assert (E : m' = m).
  { unfold m', m in *. destruct (_ <? 9); apply T64_id; unfold u64; split; try lia; nia. }
  rewrite E, append_zeros_spec; rewrite ?Z2Nat.id; lia.
Qed.

Lemma denoted_CompressAmount n : 0 <= n -> 9 * n < 2 ^ 64 -> denoted (CompressAmount n) = n.
Proof.
  intros Hn H9. destruct (Z.eqb_spec n 0) as [->|Hn0]; [reflexivity|].
  destruct (CompressAmount_shape n) as (m & k & Hk & Hm & -> & Hc & _); [lia..|].
  pose proof (Z.div_mod m 10 ltac:(lia)) as D. pose proof (Z.mod_pos_bound m 10 eq_refl) as M.
  destruct Hc as [(Hk9 & Hm0 & ->)|(-> & ->)]; unfold denoted.
  - destruct (shape_digit (m / 10) (m mod 10) (Z.of_nat k)) as (H0 & He & Hq & Hd); [lia..|].
    destruct (Z.eqb_spec (1 + (m / 10 * 9 + m mod 10 - 1) * 10 + Z.of_nat k) 0); [lia|].
    rewrite He, Hq, Hd. destruct (Z.ltb_spec (Z.of_nat k) 9); [|lia]. f_equal. lia.
  - destruct (Z.eqb_spec (1 + (m - 1) * 10 + 9) 0); [lia|].
    replace ((1 + (m - 1) * 10 + 9 - 1) mod 10) with 9 by (apply (Z.mod_unique _ _ (m - 1)); lia).
    replace ((1 + (m - 1) * 10 + 9 - 1) / 10) with (m - 1) by (apply (Z.div_unique _ _ _ 9); lia).
    cbn [Z.ltb Z.compare Pos.compare Pos.compare_cont]. f_equal. lia.
Qed.

Lemma CompressAmount_denoted x : 0 <= x < 2 ^ 64 -> CompressAmount (denoted x) = x.
Proof.
  intros Hx. unfold denoted. destruct (Z.eqb_spec x 0) as [->|Hx0]; [reflexivity|].
  pose proof (Z.div_mod (x - 1) 10 ltac:(lia)) as D. pose proof (Z.mod_pos_bound (x - 1) 10 eq_refl) as M.
  pose proof (Z.div_mod ((x - 1) / 10) 9 ltac:(lia)) as D9. pose proof (Z.mod_pos_bound ((x - 1) / 10) 9 eq_refl) as M9.
  pose proof (Z.div_pos (x - 1) 10 ltac:(lia) ltac:(lia)). pose proof (Z.div_pos ((x - 1) / 10) 9 ltac:(lia) ltac:(lia)).
  set (e := (x - 1) mod 10) in *. set (y := (x - 1) / 10) in *.
  set (m := if e <? 9 then _ else _).
  assert (Hm : 0 < m) by (unfold m; destruct (e <? 9); lia).
  assert (Hp : 0 < 10 ^ e) by (apply Z.pow_pos_nonneg; lia).
  assert (S1 : strip_zeros 9 (m * 10 ^ e) 0 = (m, e)).
  { pose proof (strip_zeros_inv 9 (Z.to_nat e) m 0) as S0. rewrite Z2Nat.id in S0 by lia.
    rewrite S0; [reflexivity | lia|]. intros Hlt. unfold m. destruct (Z.ltb_spec e 9); [|lia].
    replace ((y / 9 * 10 + (y mod 9 + 1)) mod 10) with (y mod 9 + 1) by (apply (Z.mod_unique _ _ (y / 9)); lia). lia. }
  unfold CompressAmount. destruct (Z.eqb_spec (m * 10 ^ e) 0); [nia|]. rewrite S1. unfold m.
  destruct (Z.ltb_spec e 9).
  - replace ((y / 9 * 10 + (y mod 9 + 1)) mod 10) with (y mod 9 + 1) by (apply (Z.mod_unique _ _ (y / 9)); lia).
    replace ((y / 9 * 10 + (y mod 9 + 1)) / 10) with (y / 9) by (apply (Z.div_unique _ _ _ (y mod 9 + 1)); lia).
    rewrite T64_id; unfold u64; lia.
  - rewrite T64_id; unfold u64; lia.
Qed.

(** Amounts below a ninth of [2^64], hence all amounts of money, are
    compressed without overflow, to a number at most nine times as large, and
    decompress to themselves.  Conversely a number that denotes an amount of
    64 bits decompresses to that amount and is its only compressed form. *)
Theorem amount_compression :
  (forall n, 0 <= n -> 9 * n < 2 ^ 64 ->
     DecompressAmount (CompressAmount n) = n /\ 0 <= CompressAmount n <= 9 * n) /\
  (forall x, 0 <= x < 2 ^ 64 -> denoted x < 2 ^ 64 ->
     DecompressAmount x = denoted x /\ CompressAmount (DecompressAmount x) = x).
Proof.
  split.
  - intros n Hn H9.
    assert (B : 0 <= CompressAmount n <= 9 * n).
    { destruct (Z.eqb_spec n 0) as [->|Hn0]; [cbn; lia|].
      destruct (CompressAmount_shape n) as (_ & _ & _ & _ & _ & _ & H); lia. }
    split; [|exact B]. rewrite DecompressAmount_denoted, denoted_CompressAmount; try lia. rewrite denoted_CompressAmount; lia.
  - intros x Hx Hd. rewrite DecompressAmount_denoted by lia. split; [reflexivity | now apply CompressAmount_denoted].
Qed.

Lemma amount_compression_witness :
  CompressAmount 5000000000 = 50 /\ DecompressAmount (CompressAmount 123456789) = 123456789 /\
  DecompressAmount 1000 = denoted 1000.
Proof.
  split; [vm_compute; reflexivity|]. split.
  - exact (proj1 (proj1 amount_compression 123456789 ltac:(lia) ltac:(lia))).
  - exact (proj1 (proj2 amount_compression 1000 ltac:(lia) ltac:(vm_compute; reflexivity))).
Defined.

(** * Scripts *)

Lemma pieces l : l = map (get l) (seq 0 (length l)).
Proof.
  symmetry. induction l as [|a l IH]; [reflexivity|]. cbn [length seq map]. f_equal. rewrite <- seq_shift, map_map. exact IH.
Qed.

Lemma sub_map l from len : (from + len <= length l)%nat -> sub l from len = map (get l) (seq from len).
Proof.
  intros H. unfold sub. rewrite (pieces l) at 1. replace (length l) with (from + (len + (length l - from - len)))%nat by lia.
  rewrite !seq_app, !map_app, skipn_app, length_map, length_seq, Nat.sub_diag, skipn_O, skipn_all2 by (rewrite length_map, length_seq; lia).
  cbn [app]. rewrite firstn_app, length_map, length_seq, Nat.sub_diag, firstn_O, app_nil_r, Nat.add_0_l.
  apply firstn_all2. now rewrite length_map, length_seq.
Qed.

Lemma sub_length l from len : (from + len <= length l)%nat -> length (sub l from len) = len.
Proof. intros H. rewrite sub_map, length_map, length_seq by exact H. reflexivity. Qed.

Lemma sub_all l len : length l = len -> sub l 0 len = l.
Proof. intros <-. unfold sub. now rewrite skipn_O, firstn_all. Qed.

Lemma sub_u8 l from len : Forall u8 l -> Forall u8 (sub l from len).
Proof. intros H. now apply Forall_split, Forall_split. Qed.

(** A script that is a frame around [len] bytes. *)
Lemma framed l before len after : length l = (before + len + after)%nat ->
  l = map (get l) (seq 0 before) ++ sub l before len ++ map (get l) (seq (before + len) after).
Proof.
  intros H. rewrite sub_map by lia. rewrite (pieces l) at 1. rewrite H, !seq_app, !map_app, <- app_assoc. reflexivity.
Qed.

Ltac bools H :=
  repeat match type of H with
  | (_ && _)%bool = true => let H1 := fresh in apply andb_prop in H; destruct H as [H H1]; bools H1
  | (_ =? _)%nat = true => apply Nat.eqb_eq in H
  | (_ =? _)%Z = true => apply Z.eqb_eq in H
  end.

Section CurveLaws.
Context {IsFullyValid : list Z -> bool} {PubKey_Decompress : list Z -> option (list Z)}.

(** A point on the curve is determined by its first coordinate and the
    parity of its second. *)
Hypothesis point_parity : forall k, length k = 65%nat -> k.[0] = 4 -> IsFullyValid k = true ->
  PubKey_Decompress ((2 .| (k.[64] .& 1)) :: sub k 1 32) = Some k.

(** The compressed forms: their tag, the bytes behind it, and back. *)
Lemma Compress_Decompress script c : Forall u8 script -> Compress IsFullyValid script = Some c ->
  exists t b, c = t :: b /\ 0 <= t < nSpecialScripts /\ length b = GetSpecialSize t /\ Forall u8 b /\
    Decompress PubKey_Decompress t b = Some script.
Proof using point_parity.
  intros Hu H. unfold Compress, IsToKeyID, IsToScriptID, IsToPubKey in H.
  destruct ((length script =? 25)%nat && _ && _ && _ && _ && _) eqn:K.
  { bools K. inversion H; subst c; clear H. exists 0, (sub script 3 20).
    split; [reflexivity|]. split; [unfold nSpecialScripts; lia|]. rewrite sub_length by lia. split; [reflexivity|].
    split; [now apply sub_u8|]. unfold Decompress. cbn [Z.eqb Pos.eqb]. rewrite sub_all by (apply sub_length; lia). f_equal.
    rewrite (framed script 3 20 2) at 2 by lia. cbn [seq map Nat.add]. congruence. }
  clear K. destruct ((length script =? 23)%nat && _ && _ && _) eqn:K.
  { bools K. inversion H; subst c; clear H. exists 1, (sub script 2 20).
    split; [reflexivity|]. split; [unfold nSpecialScripts; lia|]. rewrite sub_length by lia. split; [reflexivity|].
    split; [now apply sub_u8|]. unfold Decompress. cbn [Z.eqb Pos.eqb]. rewrite sub_all by (apply sub_length; lia). f_equal.
    rewrite (framed script 2 20 1) at 2 by lia. cbn [seq map Nat.add]. congruence. }
  clear K.
  assert (G : forall from len k, (from + len <= length script)%nat -> (k < len)%nat -> (sub script from len).[k] = script.[from + k]).
  { intros from len k Hl Hk. rewrite sub_map by exact Hl. unfold get at 1.
    rewrite (nth_indep _ 0 (get script 0)) by (rewrite length_map, length_seq; exact Hk).
    rewrite map_nth, seq_nth by exact Hk. reflexivity. }
  assert (SS : forall from len a k, (from + len <= length script)%nat -> (a + k <= len)%nat ->
    sub (sub script from len) a k = sub script (from + a) k).
  { intros from len a k Hl Hk. unfold sub. rewrite skipn_firstn_comm, firstn_firstn, skipn_skipn.
    rewrite Nat.min_l by lia. do 2 f_equal. lia. }
  destruct ((length script =? 35)%nat && _ && _ && _) eqn:K.
  { apply andb_prop in K as [K Hd]. bools K. rewrite G in H by lia. change (1 + 0)%nat with 1%nat in H.
    rewrite Hd in H. inversion H; subst c; clear H. rewrite SS by lia. change (1 + 1)%nat with 2%nat.
    exists script.[1], (sub script 2 32). apply orb_prop in Hd.
    split; [reflexivity|]. rewrite sub_length by lia.
    assert (D : script.[1] = 2 \/ script.[1] = 3) by (destruct Hd as [Hd|Hd]; apply Z.eqb_eq in Hd; auto).
    split; [unfold nSpecialScripts; lia|]. split; [destruct D as [-> | ->]; reflexivity|]. split; [now apply sub_u8|].
    assert (E : [33; script.[1]] ++ sub (sub script 2 32) 0 32 ++ [value OP_CHECKSIG] = script).
    { rewrite sub_all by (apply sub_length; lia). rewrite (framed script 2 32 1) at 3 by lia. cbn [seq map Nat.add]. congruence. }
    unfold Decompress. destruct D as [D|D]; rewrite D in *; cbn [Z.eqb orb]; now rewrite E. }
  clear K. destruct ((length script =? 67)%nat && _ && _ && _) eqn:K; [|discriminate].
  bools K. destruct (IsFullyValid (sub script 1 65)) eqn:V; [|discriminate].
  rewrite !G in H by lia. cbn [Nat.add] in H. rewrite SS in H by lia. cbn [Nat.add] in H.
  replace (script.[1]) with 4 in H by congruence. cbn [Z.eqb orb] in H. inversion H; subst c; clear H.
  exists (4 .| (script.[65] .& 1)), (sub script 2 32).
  assert (P : script.[65] .& 1 = 0 \/ script.[65] .& 1 = 1).
  { change 1 with (Z.ones 1) at 1 2. rewrite land_ones_mod by lia. pose proof (Z.mod_pos_bound script.[65] 2 eq_refl).
    change (2 ^ 1) with 2. lia. }
  split; [reflexivity|]. rewrite sub_length by lia.
  assert (E : PubKey_Decompress ((4 .| (script.[65] .& 1)) - 2 :: sub (sub script 2 32) 0 32) = Some (sub script 1 65)).
  { rewrite <- (point_parity (sub script 1 65)); [|now apply sub_length; lia | rewrite G by lia; assumption | exact V].
    rewrite G by lia. rewrite !SS by lia. cbn [Nat.add]. 
    destruct P as [-> | ->]; reflexivity. }
  assert (E2 : [65] ++ sub script 1 65 ++ [value OP_CHECKSIG] = script).
  { rewrite (framed script 1 65 1) at 2 by lia. cbn [seq map Nat.add]. congruence. }
  unfold Decompress. destruct P as [P|P]; rewrite P in *;
    (split; [unfold nSpecialScripts; cbn; lia|]; split; [reflexivity|]; split; [now apply sub_u8|]);
    cbn [Z.lor Z.eqb Pos.lor Pos.eqb orb] in *; now rewrite E, E2.
Qed.

Definition script_ok (script : list Z) : Prop :=
  Forall u8 script /\ Z.of_nat (length script) + nSpecialScripts < 2 ^ 32.

Lemma CScriptCompressor_lawful : Lawful (CScriptCompressor_format IsFullyValid PubKey_Decompress) script_ok.
Proof using point_parity.
  assert (W : forall script, script_ok script -> T32 (Z.of_nat (length script) + nSpecialScripts) = Z.of_nat (length script) + nSpecialScripts
                                            /\ in_width 32 (Z.of_nat (length script) + nSpecialScripts)).
  { intros script [_ H]. unfold nSpecialScripts in *. split; [apply T32_id; unfold u32; lia | unfold in_width; lia]. }
  split; intros script; [intros rest Hs | intros Hs | intros Hs]; destruct (W script Hs) as [E32 Hw];
    cbn [Serialize Unserialize GetSerializeSize CScriptCompressor_format]; rewrite E32.
  - destruct (Compress IsFullyValid script) as [c|] eqn:E.
    + destruct (Compress_Decompress _ _ (proj1 Hs) E) as (t & b & -> & Ht & Hb & _ & Hd).
      rewrite (bind_eq _ _ _ t (b ++ rest)).
      * destruct (Z.ltb_spec t nSpecialScripts); [|lia]. rewrite <- Hb, (bind_eq _ _ _ _ _ (read_app b rest)). now rewrite Hd.
      * unfold nSpecialScripts in Ht. pose proof (digit_read 32 0 t false (b ++ rest)) as R. rewrite Z.lor_0_r in R. apply R; lia.
    + rewrite <- app_assoc, (bind_eq _ _ _ _ _ (read_back (F := varint_format 32) _ (script ++ rest) Hw)).
      destruct (Z.ltb_spec (Z.of_nat (length script) + nSpecialScripts) nSpecialScripts); [lia|].
      rewrite Z.add_simpl_r, Nat2Z.id. apply read_app.
  - destruct (Compress IsFullyValid script); [reflexivity|]. rewrite T32_T32', length_app, Z.add_comm, Nat2Z.inj_add.
    apply T32_cong; [|reflexivity]. exact (size_written (F := varint_format 32) _ Hw).
  - destruct (Compress IsFullyValid script) as [c|] eqn:E.
    + destruct (Compress_Decompress _ _ (proj1 Hs) E) as (t & b & -> & Ht & _ & Hb & _).
      constructor; [unfold u8, nSpecialScripts in *; lia | exact Hb].
    + apply Forall_app. split; [exact (written_u8 (F := varint_format 32) _ Hw) | apply Hs].
Qed.

(** The outputs a coin holds. *)
Definition output_ok (o : CTxOut) : Prop :=
  0 <= nValue o /\ 9 * nValue o < 2 ^ 64 /\ script_ok (scriptPubKey o) /\ nRounds o = -10.

Lemma CTxOutCompressor_lawful : Lawful (CTxOutCompressor_format IsFullyValid PubKey_Decompress) output_ok.
Proof using point_parity.
  eapply wrap_lawful; [apply pair_lawful; [exact varint64_lawful | exact CScriptCompressor_lawful]|].
  intros [v sc r] (Hv & Hv9 & Hs & Hr). cbn [nValue scriptPubKey nRounds fst snd] in *. subst r.
  rewrite T64_id by (unfold u64; lia). destruct (proj1 amount_compression v Hv Hv9) as [-> Hc].
  split; [split; [unfold in_width; lia | exact Hs]|]. f_equal. unfold to_signed. change (64 - 1) with 63.
  destruct (Z.ltb_spec v (2 ^ 63)); [reflexivity | lia].
Qed.
End CurveLaws.

End Compressor.
