(* ===== verification/Bits.v ===== *)
(** Arrays of bits in arrays of bytes, least significant bit first: the
    [v[p / 8] |= b << (p % 8)] and [v[p / 8] & (1 << (p % 8))] that
    [src/src/merkleblock.h] and [src/src/bloom.cpp] share. *)
From S2P Require Import Prelude SphTypes.

Module Bits.

(** [v[k] |= x] *)
Fixpoint or_at (v : list Z) (k : nat) (x : Z) : list Z :=
  match v, k with
  | [], _ => []
  | b :: v, O => (b .| x) :: v
  | b :: v, S k => b :: or_at v k x
  end.

(** [(v[p / 8] & (1 << (p % 8))) != 0] *)
Definition test_bit (v : list Z) (p : nat) : bool := negb (nth (p / 8) v 0 .& (1 << Z.of_nat (p mod 8)) =? 0).

Lemma or_at_length v : forall k x, length (or_at v k x) = length v.
Proof. induction v as [|b v IH]; intros [|k] x; cbn; auto. Qed.

Lemma or_at_nth v : forall k x i, (k < length v)%nat -> nth i (or_at v k x) 0 = if (i =? k)%nat then nth i v 0 .| x else nth i v 0.
Proof.
  induction v as [|b v IH]; intros [|k] x i Hk; cbn [length] in Hk; try lia; destruct i as [|i]; cbn [or_at nth Nat.eqb]; try reflexivity.
  apply IH. lia.
Qed.

Lemma or_at_u8 v : forall k x, Forall u8 v -> u8 x -> Forall u8 (or_at v k x).
Proof.
  induction v as [|b v IH]; intros [|k] x Hv Hx; cbn [or_at]; auto; inversion Hv; subst; constructor; auto.
  apply (in_width_lor 8); [lia | assumption..].
Qed.

Lemma b2z_testbit b i : Z.testbit (Z.b2z b) i = b && (i =? 0).
Proof. destruct b; [|apply Z.bits_0]. cbn [Z.b2z andb]. rewrite <- (Z.pow_0_r 2), Z.pow2_bits_eqb by lia. apply Z.eqb_sym. Qed.

Lemma bit_testbit b j i : 0 <= j -> 0 <= i -> Z.testbit (Z.b2z b << j) i = b && (i =? j).
Proof. intros Hj Hi. rewrite Z.shiftl_spec, b2z_testbit by assumption. f_equal. destruct (Z.eqb_spec (i - j) 0), (Z.eqb_spec i j); lia. Qed.

Lemma land_bit x j : 0 <= j -> negb (x .& (1 << j) =? 0) = Z.testbit x j.
Proof.
  intros Hj. assert (E : x .& (1 << j) = Z.b2z (Z.testbit x j) << j).
  { apply Z.bits_inj'. intros i Hi. rewrite Z.land_spec, bit_testbit by assumption. rewrite (bit_testbit true) by assumption.
    destruct (Z.eqb_spec i j) as [->|]; destruct (Z.testbit _ _); cbn; rewrite ?andb_false_r; reflexivity. }
  rewrite E. destruct (Z.testbit x j); cbn [Z.b2z].
  - rewrite Z.shiftl_1_l. pose proof (Z.pow_pos_nonneg 2 j ltac:(lia) Hj). destruct (Z.eqb_spec (2 ^ j) 0); [lia | reflexivity].
  - rewrite Z.shiftl_0_l. reflexivity.
Qed.

Lemma test_bit_eq v p : test_bit v p = Z.testbit (nth (p / 8) v 0) (Z.of_nat (p mod 8)).
Proof. apply land_bit. lia. Qed.

Lemma bit_u8 (b : bool) p : u8 (Z.b2z b << Z.of_nat (p mod 8)).
Proof.
  pose proof (Nat.mod_upper_bound p 8 ltac:(lia)). rewrite Z.shiftl_mul_pow2 by lia.
  assert (0 < 2 ^ Z.of_nat (p mod 8) <= 2 ^ 7) by (split; [apply Z.pow_pos_nonneg; lia | apply Z.pow_le_mono_r; lia]).
  change (2 ^ 7) with 128 in *. unfold u8. destruct b; cbn [Z.b2z]; lia.
Qed.

(** A bit is set, the others are kept. *)
Lemma test_bit_or_at v p (b : bool) q : (p / 8 < length v)%nat ->
  test_bit (or_at v (p / 8) (Z.b2z b << Z.of_nat (p mod 8))) q = if (q =? p)%nat then test_bit v q || b else test_bit v q.
Proof.
  intros Hp. rewrite !test_bit_eq, or_at_nth by exact Hp.
  pose proof (Nat.div_mod p 8 ltac:(lia)). pose proof (Nat.div_mod q 8 ltac:(lia)).
  destruct (Nat.eqb_spec (q / 8) (p / 8)) as [E|E].
  - rewrite Z.lor_spec, bit_testbit by lia. destruct (Nat.eqb_spec q p) as [->|Hne].
    + now rewrite Z.eqb_refl, andb_true_r.
    + destruct (Z.eqb_spec (Z.of_nat (q mod 8)) (Z.of_nat (p mod 8))); [lia|]. now rewrite andb_false_r, orb_false_r.
  - destruct (Nat.eqb_spec q p) as [->|]; [contradiction | reflexivity].
Qed.

Lemma test_bit_zeros n p : test_bit (repeat 0 n) p = false.
Proof. rewrite test_bit_eq. rewrite nth_repeat. apply Z.bits_0. Qed.

End Bits.
