(* ===== verification/Coins.v ===== *)
(** Unspent outputs of a transaction: [CCoins] (coins.h, coins.cpp) and the
    undo information of its spending, [CTxInUndo] (undo.h), with their
    compact serialization.

    The serialization is stated over the format of an output and its laws
    ([Compressor.CTxOutCompressor_format] discharges them). *)
From S2P Require Import Prelude SphTypes Script Serialize Transaction Compressor.

Module CTxInUndo.
Record t : Type := mk { txout : Transaction.CTxOut; fCoinBase : bool; fCoinStake : bool; nHeight : Z; nVersion : Z }.

(** [CTxInUndo()] and [CTxInUndo(txoutIn)]. *)
Definition empty : t := mk Transaction.CTxOut_SetNull false false 0 0.
Definition of_txout (txoutIn : Transaction.CTxOut) : t := mk txoutIn false false 0 0.
End CTxInUndo.

Module Coins.
Import Script Serialize Transaction.

Record CCoins : Type := mkCoins {
  fCoinBase : bool;
  fCoinStake : bool;
  vout : list CTxOut;
  nHeight : Z;
  nVersion : Z
}.

(** [CCoins()], and what [Clear] leaves. *)
Definition CCoins_empty : CCoins := mkCoins false false [] 0 0.
Definition Clear (c : CCoins) : CCoins := mkCoins false false [] 0 0.

Definition with_vout (c : CCoins) (v : list CTxOut) : CCoins := mkCoins (fCoinBase c) (fCoinStake c) v (nHeight c) (nVersion c).

(** [while (vout.size() > 0 && vout.back().IsNull()) vout.pop_back();] *)
Fixpoint pop_nulls (fuel : nat) (vout : list CTxOut) : list CTxOut :=
  match fuel with
  | O => vout
  | S fuel =>
      if (0 <? length vout)%nat && CTxOut_IsNull (last vout CTxOut_SetNull)
      then pop_nulls fuel (removelast vout) else vout
  end.

Definition Cleanup (c : CCoins) : CCoins := with_vout c (pop_nulls (length (vout c)) (vout c)).

Definition ClearUnspendable (c : CCoins) : CCoins :=
  Cleanup (with_vout c (map (fun txout => if IsUnspendable (scriptPubKey txout) then CTxOut_SetNull else txout) (vout c))).

Definition FromTx (tx : CTransaction) (nHeightIn : Z) : CCoins :=
  ClearUnspendable (mkCoins (IsCoinBase tx) (IsCoinStake tx) (Transaction.vout tx) nHeightIn (Transaction.nVersion tx)).

Definition IsPruned (c : CCoins) : bool := forallb CTxOut_IsNull (vout c).

Definition vout_at (c : CCoins) (nPos : Z) : CTxOut := nth (Z.to_nat nPos) (vout c) CTxOut_SetNull.

Definition IsAvailable (c : CCoins) (nPos : Z) : bool :=
  (nPos <? Z.of_nat (length (vout c))) && negb (CTxOut_IsNull (vout_at c nPos)).

Fixpoint eq_outs (a b : list CTxOut) : bool :=
  match a, b with
  | [], [] => true
  | x :: a, y :: b => CTxOut_eq x y && eq_outs a b
  | _, _ => false
  end.

Definition CCoins_eq (a b : CCoins) : bool :=
  if IsPruned a && IsPruned b then true
  else Bool.eqb (fCoinBase a) (fCoinBase b) && Bool.eqb (fCoinStake a) (fCoinStake b)
       && (nHeight a =? nHeight b) && (nVersion a =? nVersion b) && eq_outs (vout a) (vout b).

Fixpoint set_vout (v : list CTxOut) (k : nat) (o : CTxOut) : list CTxOut :=
  match v, k with
  | [], _ => []
  | _ :: v, O => o :: v
  | x :: v, S k => x :: set_vout v k o
  end.

(** [Spend(out, undo)]; [None] is [return false]. *)
Definition Spend (c : CCoins) (n : Z) : option (CCoins * CTxInUndo.t) :=
  if Z.of_nat (length (vout c)) <=? n then None
  else if CTxOut_IsNull (vout_at c n) then None
  else
    let undo := CTxInUndo.of_txout (vout_at c n) in
    let c := Cleanup (with_vout c (set_vout (vout c) (Z.to_nat n) CTxOut_SetNull)) in
    Some (c, if (length (vout c) =? 0)%nat
             then CTxInUndo.mk (CTxInUndo.txout undo) (fCoinBase c) (fCoinStake c) (T32 (nHeight c)) (nVersion c)
             else undo).

(** ** Serialization *)

Definition available (vout : list CTxOut) (k : nat) : bool :=
  (k <? length vout)%nat && negb (CTxOut_IsNull (nth k vout CTxOut_SetNull)).

(** The bytes [b] with [2 + b * 8 < vout.size()]. *)
Definition mask_bytes (vout : list CTxOut) : nat := ((length vout - 2 + 7) / 8)%nat.

(** [CalcMaskSize]: [nBytes] and [nNonzeroBytes]. *)
Definition CalcMaskSize (vout : list CTxOut) : nat * nat :=
  fold_left (fun '(nLastUsedByte, nNonzeroBytes) b =>
      if forallb (fun i => negb (available vout (2 + b * 8 + i))) (seq 0 8)
      then (nLastUsedByte, nNonzeroBytes)
      else (b + 1, nNonzeroBytes + 1)%nat)
    (seq 0 (mask_bytes vout)) (0%nat, 0%nat).

Definition mask_byte (vout : list CTxOut) (b : nat) : Z :=
  fold_left (fun chAvail i => if available vout (2 + b * 8 + i) then chAvail .| (1 << Z.of_nat i) else chAvail) (seq 0 8) 0.

Definition b2z (b : bool) (n : Z) : Z := if b then n else 0.

(** The header code, [factor] being 16. *)
Definition header_code (factor : Z) (c : CCoins) : Z :=
  let '(nMaskSize, nMaskCode) := CalcMaskSize (vout c) in
  let fFirst := available (vout c) 0 in
  let fSecond := available (vout c) 1 in
  T32 (factor * (Z.of_nat nMaskCode - (if fFirst || fSecond then 0 else 1))
       + b2z (fCoinBase c) 1 + b2z (fCoinStake c) 2 + b2z fFirst 4 + b2z fSecond 8).

(** [assert(fFirst || fSecond || nMaskCode)] *)
Definition serialize_assert (c : CCoins) : bool :=
  available (vout c) 0 || available (vout c) 1 || negb (snd (CalcMaskSize (vout c)) =? 0)%nat.

Definition bits_of (chAvail : Z) : list bool := map (fun p => negb (chAvail .& (1 << Z.of_nat p) =? 0)) (seq 0 8).

(** [while (nMaskCode > 0)]: every turn takes a byte of the stream. *)
Fixpoint read_mask (nMaskCode : Z) (s : list Z) : outcome (list bool) :=
  if nMaskCode <=? 0 then Read [] s
  else match s with
       | [] => Throw EndOfData
       | chAvail :: s =>
           match read_mask (if chAvail =? 0 then nMaskCode else nMaskCode - 1) s with
           | Read vAvail s => Read (bits_of chAvail ++ vAvail) s
           | Throw e => Throw e
           end
       end.

Section Formats.
Variable F : format CTxOut.

Fixpoint read_outs (vAvail : list bool) : reader (list CTxOut) :=
  match vAvail with
  | [] => ret []
  | avail :: vAvail =>
      o <- (if avail then Unserialize F else ret CTxOut_SetNull) ;;
      l <- read_outs vAvail ;;
      ret (o :: l)
  end.

Definition CCoins_format : format CCoins := {|
  Serialize c :=
    let '(nMaskSize, nMaskCode) := CalcMaskSize (vout c) in
    Serialize int_varint_format (nVersion c) ++
    Serialize (varint_format 32) (header_code 16 c) ++
    flat_map (fun b => Serialize uint8_format (mask_byte (vout c) b)) (seq 0 nMaskSize) ++
    flat_map (fun o => if CTxOut_IsNull o then [] else Serialize F o) (vout c) ++
    Serialize int_varint_format (nHeight c);
  Unserialize :=
    nVersion <- Unserialize int_varint_format ;;
    nCode <- Unserialize (varint_format 32) ;;
    let fCoinBase := negb (nCode .& 1 =? 0) in
    let fCoinStake := negb (nCode .& 2 =? 0) in
    let nMaskCode := nCode / 16 + (if negb (nCode .& 12 =? 0) then 0 else 1) in
    bits <- read_mask nMaskCode ;;
    vout <- read_outs ([negb (nCode .& 4 =? 0); negb (nCode .& 8 =? 0)] ++ bits) ;;
    nHeight <- Unserialize int_varint_format ;;
    ret (Cleanup (mkCoins fCoinBase fCoinStake vout nHeight nVersion));
  GetSerializeSize c :=
    let '(nMaskSize, nMaskCode) := CalcMaskSize (vout c) in
    T32 (fold_left (fun nSize o => if CTxOut_IsNull o then nSize else T32 (nSize + GetSerializeSize F o)) (vout c)
           (T32 (GetSerializeSize int_varint_format (nVersion c)
                 + GetSerializeSize (varint_format 32) (header_code 8 c) + Z.of_nat nMaskSize))
         + GetSerializeSize int_varint_format (nHeight c));
|}.

Definition undo_code (u : CTxInUndo.t) : Z :=
  T32 (CTxInUndo.nHeight u * 4 + b2z (CTxInUndo.fCoinBase u) 2 + b2z (CTxInUndo.fCoinStake u) 1).

Definition CTxInUndo_format : format CTxInUndo.t := {|
  Serialize u :=
    Serialize (varint_format 32) (undo_code u) ++
    (if 0 <? CTxInUndo.nHeight u then Serialize int_varint_format (CTxInUndo.nVersion u) else []) ++
    Serialize F (CTxInUndo.txout u);
  Unserialize :=
    nCode <- Unserialize (varint_format 32) ;;
    let nHeight := nCode >> 2 in
    nVersion <- (if 0 <? nHeight then Unserialize int_varint_format else ret 0) ;;
    txout <- Unserialize F ;;
    ret (CTxInUndo.mk txout (negb (nCode .& 2 =? 0)) (negb (nCode .& 1 =? 0)) nHeight nVersion);
  GetSerializeSize u :=
    T32 (GetSerializeSize (varint_format 32) (undo_code u)
         + (if 0 <? CTxInUndo.nHeight u then GetSerializeSize int_varint_format (CTxInUndo.nVersion u) else 0)
         + GetSerializeSize F (CTxInUndo.txout u));
|}.

Definition CTxUndo_format : format (list CTxInUndo.t) := vector_format CTxInUndo_format.
End Formats.

(** * Cleaning up *)

(** No spent output at the end. *)
Definition clean (v : list CTxOut) : Prop := v = [] \/ CTxOut_IsNull (last v CTxOut_SetNull) = false.

Lemma pop_nulls_snoc fuel v o : pop_nulls (S fuel) (v ++ [o]) = if CTxOut_IsNull o then pop_nulls fuel v else v ++ [o].
Proof.
  cbn [pop_nulls]. rewrite last_last, length_app, removelast_last. cbn [length].
  destruct (Nat.ltb_spec 0 (length v + 1)); [|lia]. reflexivity.
Qed.

Lemma pop_nulls_clean fuel v : clean v -> pop_nulls fuel v = v.
Proof.
  intros [-> | H]; destruct fuel; try reflexivity. cbn [pop_nulls]. now rewrite H, andb_false_r.
Qed.

(** What is left is clean, and what went were spent outputs. *)
Lemma pop_nulls_spec v : clean (pop_nulls (length v) v) /\
  exists t, v = pop_nulls (length v) v ++ t /\ Forall (fun o => CTxOut_IsNull o = true) t.
Proof.
  induction v as [|o v IH] using rev_ind; [split; [now left | exists []; now split]|].
  rewrite length_app, Nat.add_1_r, pop_nulls_snoc. destruct (CTxOut_IsNull o) eqn:E.
  - destruct IH as [IH (t & Ht & Hn)]. split; [exact IH|]. exists (t ++ [o]). rewrite app_assoc, <- Ht.
    split; [reflexivity|]. apply Forall_app. now split; [|constructor].
  - split; [right; now rewrite last_last|]. exists []. rewrite app_nil_r. now split.
Qed.

Lemma pop_nulls_app v k : clean v -> forall fuel, (k <= fuel)%nat -> pop_nulls fuel (v ++ repeat CTxOut_SetNull k) = v.
Proof.
  intros Hv. induction k as [|k IH]; intros fuel Hf; cbn [repeat].
  - rewrite app_nil_r. now apply pop_nulls_clean.
  - destruct fuel as [|fuel]; [lia|].
    change (CTxOut_SetNull :: repeat CTxOut_SetNull k) with (repeat CTxOut_SetNull (S k)).
    rewrite <- (Nat.add_1_r k), repeat_app, app_assoc. cbn [repeat]. rewrite pop_nulls_snoc. cbn [CTxOut_IsNull nValue CTxOut_SetNull Z.eqb Pos.eqb].
    apply IH. lia.
Qed.

Lemma available_app v t k : Forall (fun o => CTxOut_IsNull o = true) t -> available (v ++ t) k = available v k.
Proof.
  intros Ht. unfold available. rewrite length_app. destruct (Nat.ltb_spec k (length v)) as [Hk|Hk].
  - rewrite app_nth1 by exact Hk. destruct (Nat.ltb_spec k (length v + length t)); [reflexivity | lia].
  - cbn [andb]. rewrite app_nth2 by exact Hk. destruct (nth_in_or_default (k - length v) t CTxOut_SetNull) as [Hi| ->].
    + rewrite Forall_forall in Ht. rewrite (Ht _ Hi). apply andb_false_r.
    + apply andb_false_r.
Qed.

Lemma available_pop v k : available (pop_nulls (length v) v) k = available v k.
Proof. destruct (pop_nulls_spec v) as [_ (t & Ht & Hn)]. rewrite Ht at 3. now rewrite available_app. Qed.

Lemma IsPruned_available c : IsPruned c = true <-> forall k, available (vout c) k = false.
Proof.
  unfold IsPruned, available. rewrite forallb_forall. split.
  - intros H k. destruct (Nat.ltb_spec k (length (vout c))) as [Hk|]; [|reflexivity]. now rewrite (H _ (nth_In _ _ Hk)).
  - intros H o Ho. destruct (In_nth _ _ CTxOut_SetNull Ho) as (k & Hk & <-). specialize (H k).
    destruct (Nat.ltb_spec k (length (vout c))); [|lia]. now destruct (CTxOut_IsNull _).
Qed.

(** A clean record is pruned when it has no outputs at all. *)
Lemma clean_pruned c : clean (vout c) -> IsPruned c = true -> vout c = [].
Proof.
  intros [H|H] HP; [exact H|]. unfold IsPruned in HP. rewrite forallb_forall in HP.
  destruct (vout c) as [|o v] using rev_ind; [reflexivity|]. rewrite last_last in H.
  rewrite HP in H by (apply in_or_app; right; now left). discriminate H.
Qed.

(** * The bit vector *)

Ltac eight_bits v b :=
  repeat match goal with |- context [available v ?k] => let a := fresh in set (a := available v k) in *; clearbody a end;
  repeat match goal with a : bool |- _ => destruct a end; reflexivity.

Lemma bits_of_mask v b : bits_of (mask_byte v b) = map (fun i => available v (2 + b * 8 + i)) (seq 0 8).
Proof. unfold bits_of, mask_byte. cbn [seq fold_left map]. eight_bits v b. Qed.

Lemma mask_byte_zero v b : forallb (fun i => negb (available v (2 + b * 8 + i))) (seq 0 8) = (mask_byte v b =? 0).
Proof. unfold mask_byte. cbn [seq fold_left forallb]. eight_bits v b. Qed.

Lemma mask_byte_u8 v b : u8 (mask_byte v b).
Proof.
  assert (H : (0 <=? mask_byte v b) && (mask_byte v b <? 2 ^ 8) = true) by (unfold mask_byte; cbn [seq fold_left]; eight_bits v b).
  unfold u8. lia.
Qed.

Definition nonzero (l : list Z) : nat := length (filter (fun x => negb (x =? 0)) l).

Lemma nonzero_snoc l x : nonzero (l ++ [x]) = (nonzero l + if (x =? 0)%Z then 0 else 1)%nat.
Proof. unfold nonzero. rewrite filter_app, length_app. cbn. now destruct (x =? 0). Qed.

(** The bytes up to the last used one, and how many are not zero. *)
Lemma CalcMaskSize_spec v : exists L, (L <= mask_bytes v)%nat /\
  CalcMaskSize v = (L, nonzero (map (mask_byte v) (seq 0 L))) /\
  (L = 0%nat \/ mask_byte v (L - 1) <> 0) /\ (forall b, (L <= b < mask_bytes v)%nat -> mask_byte v b = 0).
Proof.
  unfold CalcMaskSize. induction (mask_bytes v) as [|n IH].
  - exists 0%nat. cbn. repeat split; auto; lia.
  - destruct IH as (L & HL & E & Hlast & Hz). rewrite (seq_S n 0), fold_left_app, E. cbn [fold_left]; change (0 + n)%nat with n.
    rewrite mask_byte_zero. destruct (Z.eqb_spec (mask_byte v n) 0) as [Z0|Z0].
    + exists L. split; [lia|]. split; [reflexivity|]. split; [exact Hlast|].
      intros b Hb. destruct (Nat.eq_dec b n) as [->|]; [exact Z0 | apply Hz; lia].
    + exists (n + 1)%nat. split; [lia|]. split; [|split; [right; now rewrite Nat.add_sub | lia]].
      f_equal. rewrite (Nat.add_1_r n), seq_S, map_app. cbn [Nat.add map]. rewrite nonzero_snoc.
      destruct (Z.eqb_spec (mask_byte v n) 0); [contradiction|]. f_equal.
      assert (Q : forall k, (forall b, (L <= b < L + k)%nat -> mask_byte v b = 0) ->
        nonzero (map (mask_byte v) (seq 0 (L + k))) = nonzero (map (mask_byte v) (seq 0 L))).
      { induction k as [|k IHk]; intros Hk; [now rewrite Nat.add_0_r|].
        rewrite <- plus_n_Sm, seq_S, map_app. cbn [Nat.add map]. rewrite nonzero_snoc, Hk, IHk by (intros; try apply Hk; lia).
        cbn. lia. }
      rewrite <- (Q (n - L)%nat); [do 3 f_equal; lia|]. intros b Hb. apply Hz. lia.
Qed.

(** Reading takes exactly the bytes written: the last one is not zero. *)
Lemma read_mask_spec l rest : (l = [] \/ last l 0 <> 0) ->
  read_mask (Z.of_nat (nonzero l)) (l ++ rest) = Read (flat_map bits_of l) rest.
Proof.
  induction l as [|x l IH]; intros Hl; [destruct rest; reflexivity|].
  assert (Hl' : l = [] \/ last l 0 <> 0) by (destruct Hl as [|Hl]; [discriminate|]; destruct l; [now left | now right]).
  assert (Hpos : (0 < nonzero (x :: l))%nat).
  { destruct Hl as [|Hl]; [discriminate|]. unfold nonzero.
    assert (Hin : In (last (x :: l) 0) (filter (fun y => negb (y =? 0)) (x :: l))).
    { apply filter_In. split; [|now destruct (Z.eqb_spec (last (x :: l) 0) 0)].
      destruct (exists_last (l := x :: l)) as (q & y & ->); [discriminate|]. rewrite last_last. apply in_or_app. right. now left. }
    destruct (filter _ (x :: l)); [destruct Hin | cbn; lia]. }
  cbn [app read_mask flat_map]. destruct (Z.leb_spec (Z.of_nat (nonzero (x :: l))) 0); [lia|].
  replace (if x =? 0 then _ else _) with (Z.of_nat (nonzero l)).
  - now rewrite (IH Hl').
  - unfold nonzero. cbn [filter]. destruct (x =? 0); cbn [negb length]; lia.
Qed.

Lemma flat_bits v L : flat_map bits_of (map (mask_byte v) (seq 0 L)) = map (available v) (seq 2 (8 * L)).
Proof.
  induction L as [|L IH]; [reflexivity|]. rewrite seq_S, map_app, flat_map_app, IH. cbn [map flat_map Nat.add].
  rewrite app_nil_r, bits_of_mask. replace (8 * S L)%nat with (8 * L + 8)%nat by lia. rewrite seq_app, map_app. f_equal.
  replace (2 + 8 * L)%nat with (2 + L * 8)%nat by lia. cbn [seq map]. repeat (f_equal; try lia).
Qed.

(** The mask covers a clean vector. *)
Lemma mask_covers v L : clean v -> (forall b, (L <= b < mask_bytes v)%nat -> mask_byte v b = 0) -> (length v <= 2 + 8 * L)%nat.
Proof.
  intros Hv Hz. destruct (Nat.le_gt_cases (length v) (2 + 8 * L)) as [|Hgt]; [assumption|exfalso].
  destruct Hv as [-> | Hl]; [cbn in Hgt; lia|].
  destruct (exists_last (l := v)) as (q & y & ->); [intros ->; cbn in Hgt; lia|]. rewrite last_last in Hl.
  rewrite length_app in Hgt. cbn [length] in Hgt. set (k := length q) in *.
  assert (Hb : (L <= (k - 2) / 8 < mask_bytes (q ++ [y]))%nat).
  { unfold mask_bytes. rewrite length_app. cbn [length]. fold k.
    pose proof (Nat.div_mod (k - 2) 8 ltac:(lia)). pose proof (Nat.mod_upper_bound (k - 2) 8 ltac:(lia)).
    pose proof (Nat.div_mod (k + 1 - 2 + 7) 8 ltac:(lia)). pose proof (Nat.mod_upper_bound (k + 1 - 2 + 7) 8 ltac:(lia)). lia. }
  specialize (Hz _ Hb). apply Z.eqb_eq in Hz. rewrite <- mask_byte_zero, forallb_forall in Hz.
  specialize (Hz ((k - 2) mod 8)%nat). rewrite in_seq in Hz.
  pose proof (Nat.div_mod (k - 2) 8 ltac:(lia)) as D. pose proof (Nat.mod_upper_bound (k - 2) 8 ltac:(lia)).
  replace (2 + (k - 2) / 8 * 8 + (k - 2) mod 8)%nat with k in Hz by lia.
  unfold available, k in Hz. rewrite length_app, nth_middle, Hl in Hz. cbn [length] in Hz.
  destruct (Nat.ltb_spec (length q) (length q + 1)); [|lia]. fold k in Hz; now specialize (Hz ltac:(lia)).
Qed.

(** * Codes and flags *)

Lemma land_low k m r j : 0 <= k -> 0 <= r < 2 ^ k -> 0 <= j < 2 ^ k -> (2 ^ k * m + r) .& j = r .& j.
Proof.
  intros Hk Hr Hj. apply Z.bits_inj'. intros i Hi. rewrite !Z.land_spec.
  destruct (Z.ltb_spec i k).
  - f_equal. rewrite <- (Z.mod_pow2_bits_low (2 ^ k * m + r) k i), <- (Z.mod_pow2_bits_low r k i) by lia. f_equal.
    rewrite Z.add_comm, Z.mul_comm, Z.mod_add by lia. reflexivity.
  - rewrite (in_width_high k j i) by (try lia; exact Hj). now rewrite !andb_false_r.
Qed.

Definition flags (cb cs f1 f2 : bool) : Z := b2z cb 1 + b2z cs 2 + b2z f1 4 + b2z f2 8.

Lemma header_read m cb cs f1 f2 : 0 <= m ->
  let nCode := 16 * m + flags cb cs f1 f2 in
  negb (nCode .& 1 =? 0) = cb /\ negb (nCode .& 2 =? 0) = cs /\ negb (nCode .& 4 =? 0) = f1 /\ negb (nCode .& 8 =? 0) = f2 /\
  nCode / 16 + (if negb (nCode .& 12 =? 0) then 0 else 1) = m + (if f1 || f2 then 0 else 1).
Proof.
  intros Hm nCode. assert (Hf : 0 <= flags cb cs f1 f2 < 16) by (destruct cb, cs, f1, f2; cbn; lia).
  assert (Hd : nCode / 16 = m) by (symmetry; apply (Z.div_unique _ _ _ (flags cb cs f1 f2)); unfold nCode; lia).
  unfold nCode in *. rewrite Hd. change 16 with (2 ^ 4). rewrite !land_low by (change (2 ^ 4) with 16; lia). destruct cb, cs, f1, f2; cbn; repeat split; lia.
Qed.

Section Codec.
Context {F : format CTxOut} {P : CTxOut -> Prop} `{LF : !Lawful F P}.

(** A spent output is the one [SetNull] makes. *)
Definition slot_ok (o : CTxOut) : Prop := if CTxOut_IsNull o then o = CTxOut_SetNull else P o.

Definition serialize_outs (v : list CTxOut) : list Z := flat_map (fun o => if CTxOut_IsNull o then [] else Serialize F o) v.

Lemma read_outs_spec v rest : Forall slot_ok v ->
  read_outs F (map (fun o => negb (CTxOut_IsNull o)) v) (serialize_outs v ++ rest) = Read v rest.
Proof using LF.
  induction 1 as [|o v Ho _ IH]; [reflexivity|]. unfold serialize_outs, slot_ok in *. cbn [map read_outs flat_map].
  destruct (CTxOut_IsNull o) eqn:E; cbn [negb].
  - rewrite (bind_eq _ _ _ _ _ (eq_refl : ret CTxOut_SetNull _ = Read CTxOut_SetNull _)). subst o. now rewrite (bind_eq _ _ _ _ _ IH).
  - rewrite <- app_assoc, (bind_eq _ _ _ _ _ (read_back o _ Ho)). now rewrite (bind_eq _ _ _ _ _ IH).
Qed.

Lemma available_pad v k : map (available v) (seq 0 (length v + k)) = map (fun o => negb (CTxOut_IsNull o)) (v ++ repeat CTxOut_SetNull k).
Proof using.
  assert (G : forall w, map (available w) (seq 0 (length w)) = map (fun o => negb (CTxOut_IsNull o)) w).
  { induction w as [|o w IH] using rev_ind; [reflexivity|].
    rewrite length_app, Nat.add_1_r, seq_S, !map_app, <- IH. f_equal.
    - apply map_ext_in. intros i Hi. apply in_seq in Hi. unfold available. rewrite length_app, app_nth1 by lia.
      destruct (Nat.ltb_spec i (length w + length [o])), (Nat.ltb_spec i (length w)); try reflexivity; cbn in *; lia.
    - cbn. unfold available. rewrite length_app, nth_middle. cbn [length]. destruct (Nat.ltb_spec (length w) (length w + 1)); [reflexivity | lia]. }
  rewrite <- (G (v ++ repeat CTxOut_SetNull k)), length_app, repeat_length.
  apply map_ext_in. intros i _. symmetry. apply available_app. apply Forall_forall. intros o Ho. now apply repeat_spec in Ho as ->.
Qed.

(** The coins that are stored: not pruned, without spent outputs at the end. *)
Definition coins_ok (c : CCoins) : Prop :=
  clean (vout c) /\ IsPruned c = false /\ Forall slot_ok (vout c) /\ Z.of_nat (length (vout c)) <= MAX_SIZE /\
  in_width 31 (nHeight c) /\ in_width 31 (nVersion c).

Lemma mask_nonempty v L : clean v -> (length v <= 2 + 8 * L)%nat -> available v 0 = false -> available v 1 = false ->
  nonzero (map (mask_byte v) (seq 0 L)) = 0%nat -> (L = 0%nat \/ mask_byte v (L - 1) <> 0) -> v = [].
Proof using.
  intros Hv HL H0 H1 Hn Hl. destruct L as [|L].
  - cbn in HL. destruct v as [|a [|b [|? ?]]]; [reflexivity| | |cbn in HL; lia]; destruct Hv as [Hv|Hv]; try discriminate Hv;
      unfold available in *; cbn in *; rewrite Hv in *; discriminate.
  - exfalso. destruct Hl as [|Hl]; [discriminate|]. rewrite seq_S, map_app in Hn. cbn [map Nat.add] in Hn.
    rewrite nonzero_snoc in Hn. cbn [Nat.sub] in Hl. rewrite Nat.sub_0_r in Hl.
    destruct (Z.eqb_spec (mask_byte v L) 0); [contradiction | lia].
Qed.

Lemma nonzero_le l : (nonzero l <= length l)%nat.
Proof using. unfold nonzero. induction l as [|x l IH]; [reflexivity|]. cbn. destruct (x =? 0); cbn; lia. Qed.

(** The header of stored coins: nothing overflows, and the mask count it
    holds is that of [CalcMaskSize]. *)
Lemma header_ok c L : coins_ok c -> (L <= mask_bytes (vout c))%nat ->
  CalcMaskSize (vout c) = (L, nonzero (map (mask_byte (vout c)) (seq 0 L))) ->
  (L = 0%nat \/ mask_byte (vout c) (L - 1) <> 0) -> (length (vout c) <= 2 + 8 * L)%nat ->
  exists m, 0 <= m /\ m + (if available (vout c) 0 || available (vout c) 1 then 0 else 1) = Z.of_nat (nonzero (map (mask_byte (vout c)) (seq 0 L))) /\
    header_code 16 c = 16 * m + flags (fCoinBase c) (fCoinStake c) (available (vout c) 0) (available (vout c) 1) /\
    in_width 32 (header_code 16 c).
Proof using.
  intros (Hv & HP & _ & HM & _) HL E Hl Hcov. set (f1 := available (vout c) 0). set (f2 := available (vout c) 1).
  set (N := nonzero _) in *.
  assert (HN : (N <= L)%nat) by (unfold N; pose proof (nonzero_le (map (mask_byte (vout c)) (seq 0 L))) as Q; now rewrite length_map, length_seq in Q).
  assert (HLM : 8 * Z.of_nat L <= MAX_SIZE + 7).
  { unfold mask_bytes in HL. pose proof (Nat.div_mod (length (vout c) - 2 + 7) 8 ltac:(lia)). lia. }
  exists (Z.of_nat N - (if f1 || f2 then 0 else 1)).
  assert (Hm : 0 <= Z.of_nat N - (if f1 || f2 then 0 else 1)).
  { destruct (f1 || f2) eqn:Ef; [lia|]. apply orb_false_iff in Ef as [E1 E2]. destruct N eqn:EN; [exfalso|lia].
    pose proof (mask_nonempty _ L Hv Hcov E1 E2 EN Hl) as Hnil. unfold IsPruned in HP. rewrite Hnil in HP. discriminate. }
  assert (Hc : header_code 16 c = 16 * (Z.of_nat N - (if f1 || f2 then 0 else 1)) + flags (fCoinBase c) (fCoinStake c) f1 f2).
  { unfold header_code. rewrite E. fold N f1 f2. rewrite T32_id; [unfold flags; lia|]. unfold u32, MAX_SIZE in *.
    clear - Hm HN HLM. clearbody f1 f2. destruct (fCoinBase c), (fCoinStake c), f1, f2; cbn [b2z orb] in *; lia. }
  split; [exact Hm|]. split; [lia|]. split; [exact Hc|]. rewrite Hc. unfold in_width, MAX_SIZE, flags in *.
  clear - Hm HN HLM. clearbody f1 f2. destruct (fCoinBase c), (fCoinStake c), f1, f2; cbn [b2z orb] in *; lia.
Qed.

Lemma mask_written v l : flat_map (fun b => Serialize uint8_format (mask_byte v b)) l = map (mask_byte v) l.
Proof using.
  induction l as [|b l IH]; [reflexivity|]. cbn [flat_map map]. rewrite IH. cbn -[mask_byte]. pose proof (mask_byte_u8 v b) as U. unfold u8 in U.
  now rewrite Z.mod_small by lia.
Qed.

Lemma coins_read_back c rest : coins_ok c -> Unserialize (CCoins_format F) (Serialize (CCoins_format F) c ++ rest) = Read c rest.
Proof using LF.
  intros Hok. pose proof Hok as (Hv & HP & Hslots & HM & Hh & Hn).
  destruct (CalcMaskSize_spec (vout c)) as (L & HL & E & Hlast & Hz). pose proof (mask_covers _ L Hv Hz) as Hcov.
  destruct (header_ok c L Hok HL E Hlast Hcov) as (m & Hm & HN & Hcode & Hw).
  cbn [Serialize Unserialize CCoins_format]. rewrite E. fold (serialize_outs (vout c)). rewrite <- !app_assoc.
  rewrite (bind_eq _ _ _ _ _ (read_back (F := int_varint_format) _ _ Hn)).
  rewrite (bind_eq _ _ _ _ _ (read_back (F := varint_format 32) _ _ Hw)). rewrite Hcode.
  destruct (header_read m (fCoinBase c) (fCoinStake c) (available (vout c) 0) (available (vout c) 1) Hm) as (-> & -> & -> & -> & ->).
  rewrite HN.
  assert (Hbytes : map (mask_byte (vout c)) (seq 0 L) = [] \/ last (map (mask_byte (vout c)) (seq 0 L)) 0 <> 0).
  { destruct L as [|L']; [now left | right]. destruct Hlast as [|Hlast]; [discriminate|].
    rewrite seq_S, map_app. cbn [map Nat.add]. rewrite last_last. cbn [Nat.sub] in Hlast. now rewrite Nat.sub_0_r in Hlast. }
  rewrite mask_written, (bind_eq _ _ _ _ _ (read_mask_spec _ _ Hbytes)), flat_bits.
  replace ([available (vout c) 0; available (vout c) 1] ++ map (available (vout c)) (seq 2 (8 * L)))
    with (map (available (vout c)) (seq 0 (length (vout c) + (2 + 8 * L - length (vout c)))))
    by (replace (length (vout c) + (2 + 8 * L - length (vout c)))%nat with (2 + 8 * L)%nat by lia; reflexivity).
  rewrite available_pad.
  set (k := (2 + 8 * L - length (vout c))%nat).
  assert (Hpad : serialize_outs (vout c) = serialize_outs (vout c ++ repeat CTxOut_SetNull k)).
  { unfold serialize_outs. rewrite flat_map_app. replace (flat_map _ (repeat _ k)) with (@nil Z); [now rewrite app_nil_r|].
    induction k; [reflexivity | assumption]. }
  assert (Hslots' : Forall slot_ok (vout c ++ repeat CTxOut_SetNull k)).
  { apply Forall_app. split; [exact Hslots|]. apply Forall_forall. intros o Ho. now apply repeat_spec in Ho as ->. }
  rewrite Hpad, (bind_eq _ _ _ _ _ (read_outs_spec _ _ Hslots')).
  rewrite (bind_eq _ _ _ _ _ (read_back (F := int_varint_format) _ _ Hh)). unfold ret, Cleanup, with_vout. cbn [vout fCoinBase fCoinStake nHeight nVersion].
  rewrite (pop_nulls_app _ k Hv) by (rewrite length_app, repeat_length; lia). now destruct c.
Qed.

(** [GetSerializeSize] counts a header code of half the mask count. *)
Lemma coins_size c : coins_ok c ->
  T32 (GetSerializeSize (CCoins_format F) c + GetSizeOfVarInt 32 (header_code 16 c))
  = T32 (Z.of_nat (length (Serialize (CCoins_format F) c)) + GetSizeOfVarInt 32 (header_code 8 c)).
Proof using LF.
  intros Hok. pose proof Hok as (Hv & HP & Hslots & HM & Hh & Hn).
  destruct (CalcMaskSize_spec (vout c)) as (L & HL & E & Hlast & Hz). pose proof (mask_covers _ L Hv Hz) as Hcov.
  destruct (header_ok c L Hok HL E Hlast Hcov) as (m & _ & _ & _ & Hw).
  cbn [Serialize GetSerializeSize CCoins_format]. rewrite E.
  assert (Hf : forall v, Forall slot_ok v -> forall n,
    T32 (fold_left (fun nSize o => if CTxOut_IsNull o then nSize else T32 (nSize + GetSerializeSize F o)) v n)
    = T32 (n + Z.of_nat (length (serialize_outs v)))).
  { induction 1 as [|o v Ho _ IH]; intros n; [cbn; now rewrite Z.add_0_r|]. unfold serialize_outs, slot_ok in *. cbn [fold_left flat_map].
    rewrite IH. destruct (CTxOut_IsNull o); [reflexivity|]. rewrite T32_add, length_app, Nat2Z.inj_add, Z.add_assoc.
    apply T32_cong; [|reflexivity]. apply T32_cong; [reflexivity | now apply size_written]. }
  pose proof (size_written (F := int_varint_format) _ Hn) as S1. pose proof (size_written (F := int_varint_format) _ Hh) as S2.
  pose proof (size_written (F := varint_format 32) _ Hw) as S3. fold (serialize_outs (vout c)).
  rewrite T32_add, !length_app, !Nat2Z.inj_add.
  rewrite mask_written, length_map, length_seq.
  pose proof (Hf (vout c) Hslots (T32 (GetSerializeSize int_varint_format (nVersion c)
    + GetSerializeSize (varint_format 32) (header_code 8 c) + Z.of_nat L))) as HX. rewrite T32_add in HX.
  set (X := fold_left _ _ _) in *. cbn [GetSerializeSize varint_format int_varint_format] in *.
  rewrite <- !Z.add_assoc, (T32_cong _ _ _ _ HX eq_refl).
  match goal with |- T32 (?a + ?v8 + ?l + ?o + (?h + ?v16)) = T32 (?la + (?lv + (_ + (_ + (?lh + _))))) =>
    replace (a + v8 + l + o + (h + v16)) with (a + v16 + l + o + h + v8) by ring;
    replace (la + (lv + (l + (o + (lh + v8))))) with (la + lv + l + o + lh + v8) by ring end.
  repeat apply T32_cong; try reflexivity; assumption.
Qed.

(** The assertion of [Serialize], on coins with an unspent output. *)
Lemma unpruned_assert c : clean (vout c) -> IsPruned c = false -> serialize_assert c = true.
Proof using.
  intros Hv HP. destruct (CalcMaskSize_spec (vout c)) as (L & HL & E & Hlast & Hz). pose proof (mask_covers _ L Hv Hz) as Hcov.
  unfold serialize_assert. rewrite E. cbn [snd]. destruct (available (vout c) 0) eqn:E0; [reflexivity|].
  destruct (available (vout c) 1) eqn:E1; [reflexivity|]. cbn [orb].
  destruct (Nat.eqb_spec (nonzero (map (mask_byte (vout c)) (seq 0 L))) 0) as [Hn|]; [|reflexivity].
  pose proof (mask_nonempty _ L Hv Hcov E0 E1 Hn Hlast) as Hnil. unfold IsPruned in HP. rewrite Hnil in HP. discriminate.
Qed.

(** Coins with a version of any sign: a negative one keeps its seven low
    bits only when it is stored. *)
Definition version_kept (n : Z) : Z := if n <? 0 then n mod 128 else n.

Definition as_stored (c : CCoins) : CCoins :=
  mkCoins (fCoinBase c) (fCoinStake c) (vout c) (nHeight c) (version_kept (nVersion c)).

Definition recordable (c : CCoins) : Prop :=
  clean (vout c) /\ IsPruned c = false /\ Forall slot_ok (vout c) /\ Z.of_nat (length (vout c)) <= MAX_SIZE /\
  in_width 31 (nHeight c) /\ - 2 ^ 31 <= nVersion c < 2 ^ 31.

Lemma version_written n : WriteVarInt 32 (version_kept n) = WriteVarInt 32 n.
Proof using.
  unfold version_kept. destruct (Z.ltb_spec n 0) as [Hn|]; [|reflexivity]. unfold WriteVarInt. change (tmp_size 32) with 5%nat.
  cbn [varint_tmp]. change 0x7F with (Z.ones 7). rewrite !Z.land_ones by lia. change (2 ^ 7) with 128. change (Z.ones 7) with 127.
  pose proof (Z.mod_pos_bound n 128 ltac:(lia)). rewrite Z.mod_mod by lia.
  destruct (Z.leb_spec (n mod 128) 127), (Z.leb_spec n 127); [reflexivity | lia..].
Qed.

(** What is stored reads back, but for a negative version. *)
Lemma recorded_back c rest : recordable c -> Unserialize (CCoins_format F) (Serialize (CCoins_format F) c ++ rest) = Read (as_stored c) rest.
Proof using LF.
  intros (Hv & HP & Hs & HM & Hh & Hn).
  assert (E : Serialize (CCoins_format F) (as_stored c) = Serialize (CCoins_format F) c).
  { cbn [Serialize CCoins_format as_stored vout nHeight nVersion int_varint_format]. rewrite version_written. reflexivity. }
  rewrite <- E. apply coins_read_back. repeat (split; [assumption|]). unfold in_width, as_stored, version_kept. cbn [nVersion].
  destruct (Z.ltb_spec (nVersion c) 0); [|lia]. pose proof (Z.mod_pos_bound (nVersion c) 128 ltac:(lia)). lia.
Qed.

(** The undo information of a spending: the height is that of the spent
    coins, or zero with nothing else set. *)
Definition undo_ok (u : CTxInUndo.t) : Prop :=
  P (CTxInUndo.txout u) /\ in_width 30 (CTxInUndo.nHeight u) /\ in_width 31 (CTxInUndo.nVersion u) /\
  (CTxInUndo.nHeight u = 0 -> CTxInUndo.nVersion u = 0).

Lemma undo_code_read u : in_width 30 (CTxInUndo.nHeight u) ->
  in_width 32 (undo_code u) /\ undo_code u >> 2 = CTxInUndo.nHeight u /\
  negb (undo_code u .& 2 =? 0) = CTxInUndo.fCoinBase u /\ negb (undo_code u .& 1 =? 0) = CTxInUndo.fCoinStake u.
Proof using.
  unfold in_width, undo_code. intros Hh. set (r := b2z (CTxInUndo.fCoinBase u) 2 + b2z (CTxInUndo.fCoinStake u) 1).
  assert (Hr : 0 <= r < 4) by (unfold r; destruct (CTxInUndo.fCoinBase u), (CTxInUndo.fCoinStake u); cbn; lia).
  assert (E : T32 (CTxInUndo.nHeight u * 4 + b2z (CTxInUndo.fCoinBase u) 2 + b2z (CTxInUndo.fCoinStake u) 1) = 2 ^ 2 * CTxInUndo.nHeight u + r).
  { rewrite T32_id; [unfold r; change (2 ^ 2) with 4; lia | unfold u32, r in *; lia]. }
  rewrite E, !land_low, Z.shiftr_div_pow2 by (change (2 ^ 2) with 4; lia). change (2 ^ 2) with 4.
  split; [lia|]. split; [symmetry; apply (Z.div_unique _ _ _ r); lia|].
  unfold r. now destruct (CTxInUndo.fCoinBase u), (CTxInUndo.fCoinStake u).
Qed.

Lemma CTxInUndo_lawful : Lawful (CTxInUndo_format F) undo_ok.
Proof using LF.
  split; intros u; [intros rest|..]; intros (Ho & Hh & Hv & H0); destruct (undo_code_read u Hh) as (Hw & Es & E2 & E1);
    cbn [Serialize Unserialize GetSerializeSize CTxInUndo_format].
  - rewrite <- !app_assoc, (bind_eq _ _ _ _ _ (read_back (F := varint_format 32) _ _ Hw)), Es, E2, E1.
    rewrite (bind_eq _ _ _ (CTxInUndo.nVersion u) (Serialize F (CTxInUndo.txout u) ++ rest)).
    + rewrite (bind_eq _ _ _ _ _ (read_back _ _ Ho)). now destruct u.
    + destruct (Z.ltb_spec 0 (CTxInUndo.nHeight u)) as [|Hle]; [now apply (read_back (F := int_varint_format))|].
      unfold in_width in Hh. rewrite H0 by lia. reflexivity.
  - rewrite T32_T32', !length_app, !Nat2Z.inj_add, Z.add_assoc. repeat apply T32_cong.
    + exact (size_written (F := varint_format 32) _ Hw).
    + destruct (0 <? CTxInUndo.nHeight u); [exact (size_written (F := int_varint_format) _ Hv) | reflexivity].
    + now apply size_written.
  - apply Forall_app; split; [|apply Forall_app; split].
    + exact (written_u8 (F := varint_format 32) _ Hw).
    + destruct (0 <? CTxInUndo.nHeight u); [exact (written_u8 (F := int_varint_format) _ Hv) | constructor].
    + now apply written_u8.
Qed.
End Codec.

(** * Spending *)

Lemma length_set_vout v k o : length (set_vout v k o) = length v.
Proof. revert k. induction v as [|x v IH]; intros [|k]; cbn; auto. Qed.

Lemma nth_set_vout v k o i d : nth i (set_vout v k o) d = if ((i =? k) && (i <? length v))%nat then o else nth i v d.
Proof.
  revert k i. induction v as [|x v IH]; intros k i.
  - cbn. destruct i; now rewrite ?andb_false_r.
  - destruct k as [|k], i as [|i]; try reflexivity.
    cbn [set_vout nth length Nat.eqb]. rewrite IH. now destruct (Nat.ltb_spec i (length v)), (Nat.ltb_spec (S i) (S (length v))); try lia.
Qed.

Lemma available_set v k o i : CTxOut_IsNull o = true ->
  available (set_vout v k o) i = available v i && negb (i =? k)%nat.
Proof.
  intros Ho. unfold available. rewrite length_set_vout, nth_set_vout. destruct (Nat.ltb_spec i (length v)); [|reflexivity].
  rewrite andb_true_r. destruct (i =? k)%nat; cbn [andb negb]; [now rewrite Ho, andb_false_r | now rewrite andb_true_r].
Qed.

(** What [Cleanup] keeps is unchanged. *)
Lemma nth_pop v k : available v k = true -> nth k (pop_nulls (length v) v) CTxOut_SetNull = nth k v CTxOut_SetNull.
Proof.
  intros H. pose proof H as H'. rewrite <- available_pop in H'. destruct (pop_nulls_spec v) as [_ (t & Ht & _)].
  unfold available in H'. destruct (Nat.ltb_spec k (length (pop_nulls (length v) v))); [|discriminate].
  rewrite Ht at 3. now rewrite app_nth1.
Qed.

Lemma IsAvailable_available c n : 0 <= n -> IsAvailable c n = available (vout c) (Z.to_nat n).
Proof.
  intros Hn. unfold IsAvailable, available, vout_at. f_equal.
  destruct (Z.ltb_spec n (Z.of_nat (length (vout c)))), (Nat.ltb_spec (Z.to_nat n) (length (vout c))); try reflexivity; lia.
Qed.

(** Spending takes an output once: it fails exactly when the output is
    not available, and otherwise that output and no other becomes
    unavailable, the record has no spent outputs at its end, and the undo
    information holds the output, with the height, version and kind of the
    transaction exactly when it was the last one. *)
Theorem Spend_spec c n : 0 <= n ->
  (Spend c n = None <-> IsAvailable c n = false) /\
  (forall c' u, Spend c n = Some (c', u) ->
     (forall k, 0 <= k -> IsAvailable c' k = (IsAvailable c k && negb (k =? n))%bool) /\
     (forall k, 0 <= k -> IsAvailable c' k = true -> vout_at c' k = vout_at c k) /\
     fCoinBase c' = fCoinBase c /\ fCoinStake c' = fCoinStake c /\ nHeight c' = nHeight c /\ nVersion c' = nVersion c /\
     clean (vout c') /\
     u = if IsPruned c' then CTxInUndo.mk (vout_at c n) (fCoinBase c) (fCoinStake c) (T32 (nHeight c)) (nVersion c)
         else CTxInUndo.of_txout (vout_at c n)).
Proof.
  intros Hn. unfold Spend. rewrite (IsAvailable_available c n Hn).
  destruct (Z.leb_spec (Z.of_nat (length (vout c))) n) as [H1|H1].
  { split; [|discriminate]. unfold available. destruct (Nat.ltb_spec (Z.to_nat n) (length (vout c))); [lia | easy]. }
  assert (Ha : available (vout c) (Z.to_nat n) = negb (CTxOut_IsNull (vout_at c n))).
  { unfold available, vout_at. destruct (Nat.ltb_spec (Z.to_nat n) (length (vout c))); [reflexivity | lia]. }
  rewrite Ha. destruct (CTxOut_IsNull (vout_at c n)) eqn:E; [split; [easy | discriminate]|]. split; [easy|].
  set (v := set_vout (vout c) (Z.to_nat n) CTxOut_SetNull). intros c' u H. inversion H; subst c' u; clear H.
  change (vout (Cleanup (with_vout c v))) with (pop_nulls (length v) v).
  assert (Hav : forall k, 0 <= k -> IsAvailable (Cleanup (with_vout c v)) k = IsAvailable c k && negb (k =? n)).
  { intros k Hk. rewrite !IsAvailable_available by exact Hk. change (vout (Cleanup (with_vout c v))) with (pop_nulls (length v) v).
    rewrite available_pop. unfold v. rewrite available_set by reflexivity. f_equal.
    destruct (Nat.eqb_spec (Z.to_nat k) (Z.to_nat n)), (Z.eqb_spec k n); try reflexivity; lia. }
  split; [exact Hav|]. split.
  { intros k Hk Hk'. pose proof Hk' as Hd. rewrite Hav in Hd by exact Hk. apply andb_prop in Hd as [_ Hd].
    rewrite IsAvailable_available in Hk' by exact Hk. change (vout (Cleanup (with_vout c v))) with (pop_nulls (length v) v) in Hk'.
    rewrite available_pop in Hk'. unfold vout_at. change (vout (Cleanup (with_vout c v))) with (pop_nulls (length v) v).
    rewrite nth_pop by exact Hk'. unfold v. rewrite nth_set_vout.
    destruct (Nat.eqb_spec (Z.to_nat k) (Z.to_nat n)), (Z.eqb_spec k n); try reflexivity; try lia; discriminate. }
  do 4 (split; [reflexivity|]). split; [apply pop_nulls_spec|].
  destruct (IsPruned (Cleanup (with_vout c v))) eqn:Ep.
  - apply clean_pruned in Ep; [|apply pop_nulls_spec]. change (vout (Cleanup (with_vout c v))) with (pop_nulls (length v) v) in Ep.
    now rewrite Ep.
  - destruct (Nat.eqb_spec (length (pop_nulls (length v) v)) 0) as [Hz|]; [|reflexivity].
    apply length_zero_iff_nil in Hz. unfold IsPruned in Ep. change (vout (Cleanup (with_vout c v))) with (pop_nulls (length v) v) in Ep.
    rewrite Hz in Ep. discriminate.
Qed.

#[global] Arguments coins_ok P c : clear implicits.
#[global] Arguments recordable P c : clear implicits.
#[global] Arguments undo_ok P u : clear implicits.

(** C18: coins of the database read back as they were written, the spent
    outputs the bit vector skips included, and so does the undo information
    of a spending; the assertion of [Serialize] holds of coins that are not
    pruned.  The size [GetSerializeSize] promises is that of a header code
    with half the mask count: it differs from the bytes written by the
    lengths of the two codes. *)
Theorem coins_codec (F : format CTxOut) (P : CTxOut -> Prop) : Lawful F P ->
  (forall c rest, coins_ok P c ->
     serialize_assert c = true /\
     Unserialize (CCoins_format F) (Serialize (CCoins_format F) c ++ rest) = Read c rest /\
     T32 (GetSerializeSize (CCoins_format F) c + GetSizeOfVarInt 32 (header_code 16 c))
     = T32 (Z.of_nat (length (Serialize (CCoins_format F) c)) + GetSizeOfVarInt 32 (header_code 8 c))) /\
  (forall u rest, undo_ok P u ->
     Unserialize (CTxInUndo_format F) (Serialize (CTxInUndo_format F) u ++ rest) = Read u rest).
Proof.
  intros LF. split.
  - intros c rest Hc. split; [now apply unpruned_assert; apply Hc|]. split; [now apply coins_read_back | now apply coins_size].
  - intros u rest Hu. now apply (CTxInUndo_lawful (P := P)).
Qed.

(** A curve of one point, and coins with nine outputs eight places apart. *)
Definition point : list Z := 4 :: repeat 2 32 ++ repeat 3 32.
Definition point_valid (k : list Z) : bool := eq_script k point.
Definition point_decompress (k : list Z) : option (list Z) := if eq_script k (3 :: repeat 2 32) then Some point else None.

Lemma point_parity k : length k = 65%nat -> k.[0] = 4 -> point_valid k = true ->
  point_decompress ((2 .| (k.[64] .& 1)) :: Compressor.sub k 1 32) = Some k.
Proof.
  unfold point_valid, eq_script. destruct (list_eq_dec Z.eq_dec k point) as [->|]; [reflexivity | discriminate].
Qed.

Definition point_format : format CTxOut := Compressor.CTxOutCompressor_format point_valid point_decompress.

Definition point_output : CTxOut := CTxOut_new 5000 ([65] ++ point ++ [value OP_CHECKSIG]).

Definition sparse : CCoins :=
  mkCoins false true ([point_output; CTxOut_SetNull] ++ concat (repeat (point_output :: repeat CTxOut_SetNull 7) 7) ++ [point_output]) 1000 1.

Lemma sparse_ok : coins_ok Compressor.output_ok sparse.
Proof.
  assert (Hp : Compressor.output_ok point_output).
  { split; [discriminate|]. split; [reflexivity|]. split; [|reflexivity]. split; [|reflexivity].
    apply Forall_forall. intros x Hx.
    assert (H : forallb (fun x => (0 <=? x) && (x <? 2 ^ 8)) (scriptPubKey point_output) = true) by reflexivity.
    rewrite forallb_forall in H. specialize (H x Hx). unfold u8. lia. }
  split; [now right|]. split; [reflexivity|]. split; [|split; [discriminate | split; split; discriminate || reflexivity]].
  apply Forall_forall. intros o Ho. unfold slot_ok.
  assert (D : o = point_output \/ o = CTxOut_SetNull).
  { unfold vout, sparse in Ho. repeat (apply in_app_or in Ho as [Ho|Ho] || (destruct Ho as [Ho|Ho]; [auto|])); try destruct Ho;
    try (apply in_concat in Ho as (q & Hq & Ho)); try (apply repeat_spec in Hq; subst q); auto. }
  destruct D as [-> | ->]; [exact Hp | reflexivity].
Qed.

Lemma Spend_spec_witness : exists c' u, Spend sparse 58 = Some (c', u) /\ length (vout c') = 51%nat /\ IsAvailable c' 58 = false /\
  CTxInUndo.nHeight u = 0 /\ nVersion c' = nVersion sparse.
Proof.
  destruct (Spend sparse 58) as [[c' u]|] eqn:E; [|vm_compute in E; discriminate].
  destruct (Spend_spec sparse 58 ltac:(lia)) as [_ H]. destruct (H c' u E) as (Ha & _ & _ & _ & _ & Hv & _).
  exists c', u. split; [reflexivity|].
  assert (Hl : match Spend sparse 58 with Some (c, u) => ((length (vout c) =? 51)%nat && (CTxInUndo.nHeight u =? 0))%bool | None => false end = true)
    by (vm_compute; reflexivity).
  rewrite E in Hl. apply andb_prop in Hl as [Hl Hh]. apply Nat.eqb_eq in Hl. apply Z.eqb_eq in Hh.
  split; [exact Hl|]. split; [rewrite Ha by lia; now rewrite andb_false_r|]. split; [exact Hh | exact Hv].
Defined.

Lemma coins_codec_witness :
  GetSerializeSize (CCoins_format point_format) sparse + 1 = Z.of_nat (length (Serialize (CCoins_format point_format) sparse)) /\
  Unserialize (CCoins_format point_format) (Serialize (CCoins_format point_format) sparse ++ [7]) = Read sparse [7].
Proof.
  split; [vm_compute; reflexivity|].
  exact (proj1 (proj2 (proj1 (coins_codec point_format Compressor.output_ok (Compressor.CTxOutCompressor_lawful point_parity)) sparse [7] sparse_ok))).
Defined.

End Coins.
