(* ===== verification/CoinsView.v ===== *)
(** The views of the unspent outputs: [CCoinsView], its database
    ([CCoinsViewDB] of txdb.cpp over a key-value store) and the cache layers
    [CCoinsViewCache] (coins.h, coins.cpp).

    [CCoinsView] is a class of the source and a typeclass here; reading
    through a cache fills it (its map is [mutable]), so the reads return the
    view they leave.  [CoinsSpec] says what a view promises: it denotes a map
    from transactions to their unspent outputs.  The database, which keeps
    the serialized coins, keeps the
    promise, and a cache over a view that keeps it keeps it too, whatever
    the depth of the stack. *)
From stdpp Require Import base list gmap fin_maps.
From S2P Require Import Prelude Script Merkle Serialize Transaction Coins.

Module CoinsView.
Import Coins.

Abbreviation txid := (list Z) (only parsing).

Definition uint256_0 : txid := Merkle.uint256_0.
Definition is_zero (h : txid) : bool := bool_decide (h = uint256_0).

(** [flags]: the bits [DIRTY] and [FRESH]. *)
Record CCoinsCacheEntry : Type := mkEntry { coins : CCoins; DIRTY : bool; FRESH : bool }.

Definition with_coins (e : CCoinsCacheEntry) (c : CCoins) : CCoinsCacheEntry := mkEntry c (DIRTY e) (FRESH e).

Abbreviation CCoinsMap := (gmap (list Z) CCoinsCacheEntry) (only parsing).

(** The virtual methods; [BatchWrite] is [None] where an assertion fails. *)
Class CCoinsView (V : Type) : Type := {
  GetCoins : txid -> V -> option CCoins * V;
  HaveCoins : txid -> V -> bool * V;
  GetBestBlock : V -> txid * V;
  BatchWrite : CCoinsMap -> txid -> V -> option V;
}.

(** ** The database *)

(** The values are bytes: coins serialized over the format [F] of an
    output. *)
Record CCoinsViewDB (F : Serialize.format Transaction.CTxOut) : Type := mkDB { db_coins : gmap (list Z) (list Z); db_best : option txid }.
#[global] Arguments mkDB {F} db_coins db_best.
#[global] Arguments db_coins {F} c.
#[global] Arguments db_best {F} c.

Section Database.
Variable F : Serialize.format Transaction.CTxOut.

(** [CLevelDBWrapper::Read] of a value found: an exception of the
    deserialization is [false]. *)
Definition db_read (value : list Z) : option CCoins :=
  match Serialize.Unserialize (CCoins_format F) value with
  | Serialize.Read c _ => Some c
  | Serialize.Throw _ => None
  end.

(** [BatchWriteCoins]; the assertion of [CCoins::Serialize] is [None]. *)
Definition BatchWriteCoins (h : txid) (c : CCoins) (db : gmap (list Z) (list Z)) : option (gmap (list Z) (list Z)) :=
  if IsPruned c then Some (delete h db)
  else if serialize_assert c then Some (<[h := Serialize.Serialize (CCoins_format F) c]> db)
  else None.

#[export] Instance CCoinsViewDB_view : CCoinsView (CCoinsViewDB F) := {
  GetCoins t db := (value ← db_coins db !! t; db_read value, db);
  HaveCoins t db := (bool_decide (is_Some (db_coins db !! t)), db);
  GetBestBlock db := (match db_best db with Some h => h | None => uint256_0 end, db);
  BatchWrite mapCoins hashBlock db :=
    m ← map_fold (fun t e om => m ← om; if DIRTY e then BatchWriteCoins t (coins e) m else Some m) (Some (db_coins db)) mapCoins;
    Some (mkDB m (if is_zero hashBlock then db_best db else Some hashBlock));
}.
End Database.

(** ** The cache *)

Record CCoinsViewCache (V : Type) : Type := mkCache {
  base : V;
  hasModifier : bool;
  hashBlock : txid;
  cacheCoins : CCoinsMap;
}.
#[global] Arguments mkCache {V} base hasModifier hashBlock cacheCoins.
#[global] Arguments base {V} c.
#[global] Arguments hasModifier {V} c.
#[global] Arguments hashBlock {V} c.
#[global] Arguments cacheCoins {V} c.

Section Cache.
Context {V : Type} `{!CCoinsView V}.
Implicit Types (v : CCoinsViewCache V).

Definition CCoinsViewCache_new (baseIn : V) : CCoinsViewCache V := mkCache baseIn false uint256_0 ∅.

Definition with_cache v (b : V) (m : CCoinsMap) : CCoinsViewCache V := mkCache b (hasModifier v) (hashBlock v) m.

(** The entry found or pulled in; [None] is [cacheCoins.end()]. *)
Definition FetchCoins (t : txid) v : option CCoins * CCoinsViewCache V :=
  match cacheCoins v !! t with
  | Some e => (Some (coins e), v)
  | None =>
      match GetCoins t (base v) with
      | (None, b) => (None, with_cache v b (cacheCoins v))
      | (Some tmp, b) => (Some tmp, with_cache v b (<[t := mkEntry tmp false (IsPruned tmp)]> (cacheCoins v)))
      end
  end.

Definition Cache_HaveCoins (t : txid) v : bool * CCoinsViewCache V :=
  match FetchCoins t v with
  | (Some c, v) => (negb (length (vout c) =? 0)%nat, v)
  | (None, v) => (false, v)
  end.

Definition Cache_GetBestBlock v : txid * CCoinsViewCache V :=
  if is_zero (hashBlock v) then
    let '(h, b) := GetBestBlock (base v) in
    (h, mkCache b (hasModifier v) h (cacheCoins v))
  else (hashBlock v, v).

Definition SetBestBlock (hashBlockIn : txid) v : CCoinsViewCache V :=
  mkCache (base v) (hasModifier v) hashBlockIn (cacheCoins v).

(** One turn of the loop of [BatchWrite]. *)
Definition write_entry (t : txid) (it : CCoinsCacheEntry) (m : CCoinsMap) : option CCoinsMap :=
  if DIRTY it then
    match m !! t with
    | None =>
        if negb (IsPruned (coins it))
        then if FRESH it then Some (<[t := mkEntry (coins it) true true]> m) else None
        else Some m
    | Some itUs =>
        if FRESH itUs && IsPruned (coins it) then Some (delete t m)
        else Some (<[t := mkEntry (coins it) true (FRESH itUs)]> m)
    end
  else Some m.

Definition Cache_BatchWrite (mapCoins : CCoinsMap) (hashBlockIn : txid) v : option (CCoinsViewCache V) :=
  if hasModifier v then None
  else
    m ← map_fold (fun t it om => m ← om; write_entry t it m) (Some (cacheCoins v)) mapCoins;
    Some (mkCache (base v) (hasModifier v) hashBlockIn m).

(** [ModifyCoins]: the entry is there and dirty afterwards, and the modifier
    holds the view.  The assertions are [None]. *)
Definition ModifyCoins (t : txid) v : option (CCoinsViewCache V) :=
  if hasModifier v then None
  else
    let '(e, b) :=
      match cacheCoins v !! t with
      | Some e => (e, base v)
      | None =>
          match GetCoins t (base v) with
          | (None, b) => (mkEntry CCoins_empty false true, b)
          | (Some c, b) => (mkEntry c false (IsPruned c), b)
          end
      end in
    Some (mkCache b true (hashBlock v) (<[t := mkEntry (coins e) true (FRESH e)]> (cacheCoins v))).

(** [CCoinsModifier]: access and destructor. *)
Definition modifier_coins (t : txid) v : option CCoins := coins <$> cacheCoins v !! t.
Definition modifier_assign (t : txid) (c : CCoins) v : CCoinsViewCache V :=
  with_cache v (base v) (alter (fun e => with_coins e c) t (cacheCoins v)).
Definition modifier_release (t : txid) v : option (CCoinsViewCache V) :=
  if negb (hasModifier v) then None
  else
    e ← cacheCoins v !! t;
    let c := Cleanup (coins e) in
    Some (mkCache (base v) false (hashBlock v)
            (if FRESH e && IsPruned c then delete t (cacheCoins v)
             else <[t := with_coins e c]> (cacheCoins v))).

(** A modification under a modifier, with the result of [f]. *)
Definition modify {A} (t : txid) (f : CCoins -> CCoins * A) v : option (A * CCoinsViewCache V) :=
  v ← ModifyCoins t v;
  c ← modifier_coins t v;
  v ← modifier_release t (modifier_assign t (f c).1 v);
  Some ((f c).2, v).

(** [base->BatchWrite] takes the entries; the cache is empty afterwards. *)
Definition Flush v : option (CCoinsViewCache V) :=
  b ← BatchWrite (cacheCoins v) (hashBlock v) (base v);
  Some (mkCache b (hasModifier v) (hashBlock v) ∅).

Definition GetCacheSize v : nat := size (cacheCoins v).
End Cache.

#[export] Instance CCoinsViewCache_view (V : Type) `{!CCoinsView V} : CCoinsView (CCoinsViewCache V) := {
  GetCoins := FetchCoins;
  HaveCoins := Cache_HaveCoins;
  GetBestBlock := Cache_GetBestBlock;
  BatchWrite := Cache_BatchWrite;
}.

(** * What a view promises *)

(** Coins all of whose outputs are spent are no coins. *)
Definition unpruned (c : CCoins) : option CCoins := if IsPruned c then None else Some c.

(** [utxo]: the unspent outputs a view denotes; [held]: the entries it can be
    written without being told they are fresh; [storable]: the coins it can
    be written, and [stored_as]: what it then holds for them. *)
Class CoinsSpec (V : Type) `{!CCoinsView V} : Type := {
  wf : V -> Prop;
  utxo : V -> txid -> option CCoins;
  held : V -> txid -> Prop;
  best : V -> txid;
  storable : CCoins -> Prop;
  stored_as : CCoins -> CCoins;
}.
#[global] Arguments storable V {CCoinsView0 CoinsSpec} c.
#[global] Arguments stored_as V {CCoinsView0 CoinsSpec} c.

Section Promises.
Context {V : Type} `{!CCoinsView V} `{!CoinsSpec V}.

(** A read has not changed what the view denotes. *)
Definition unchanged (v v' : V) : Prop :=
  wf v' /\ (forall t, utxo v' t = utxo v t) /\ (forall t, held v t -> held v' t) /\ best v' = best v.

(** The coins of the dirty entries can be stored. *)
Definition all_storable (m : CCoinsMap) : Prop :=
  forall t e, m !! t = Some e -> DIRTY e = true -> IsPruned (coins e) = false -> storable V (coins e).

(** The dirty entries of a child: a fresh one is unknown to the parent, any
    other the child has pulled in. *)
Definition writable (v : V) (m : CCoinsMap) : Prop :=
  (forall t e, m !! t = Some e -> DIRTY e = true ->
    clean (vout (coins e)) /\ if FRESH e then utxo v t = None else held v t) /\ all_storable m.

Definition written (m : CCoinsMap) (old : txid -> option CCoins) (t : txid) : option CCoins :=
  match m !! t with
  | Some e => if DIRTY e then stored_as V <$> unpruned (coins e) else old t
  | None => old t
  end.
End Promises.
#[global] Arguments all_storable V {CCoinsView0 CoinsSpec0} m.
#[global] Arguments written V {CCoinsView0 CoinsSpec0} m old t.

(** What reading a view promises. *)
Class ReadableView (V : Type) `{!CCoinsView V, !CoinsSpec V} : Prop := {
  GetCoins_law : forall t (v : V) r v', wf v -> GetCoins t v = (r, v') ->
    unchanged v v' /\
    match r with
    | Some c => clean (vout c) /\ utxo v t = unpruned c /\ (IsPruned c = false -> held v' t)
    | None => utxo v t = None
    end;
  GetBestBlock_law : forall (v : V) h v', wf v -> GetBestBlock v = (h, v') -> unchanged v v' /\ h = best v;
}.

(** A view that can be asked for the coins alone and written. *)
Class LawfulView (V : Type) `{!CCoinsView V, !CoinsSpec V} : Prop := {
  LawfulView_readable :: ReadableView V;
  HaveCoins_law : forall t (v : V) r v', wf v -> HaveCoins t v = (r, v') ->
    unchanged v v' /\ (r = true <-> utxo v t <> None);
  BatchWrite_law : forall m h (v : V), wf v -> writable v m ->
    exists v', BatchWrite m h v = Some v' /\ wf v' /\ (forall t, utxo v' t = written V m (utxo v) t) /\
      (h <> uint256_0 -> best v' = h);
}.

Lemma unpruned_Some c c' : unpruned c = Some c' -> c' = c /\ IsPruned c = false.
Proof. unfold unpruned. destruct (IsPruned c); [done | naive_solver]. Qed.

Lemma unchanged_refl {V} `{!CCoinsView V, !CoinsSpec V} (v : V) : wf v -> unchanged v v.
Proof. by repeat split. Qed.

Lemma unchanged_trans {V} `{!CCoinsView V, !CoinsSpec V} (v1 v2 v3 : V) : unchanged v1 v2 -> unchanged v2 v3 -> unchanged v1 v3.
Proof. intros (_ & U1 & H1 & B1) (W & U2 & H2 & B2). repeat split; [done | congruence | eauto | congruence]. Qed.

(** * The database keeps it *)

Section DatabaseLaws.
Variable F : Serialize.format Transaction.CTxOut.

(** A value reads as coins that a cache may hold. *)
Definition reads_well (value : list Z) (c : CCoins) : Prop := db_read F value = Some c /\ clean (vout c) /\ IsPruned c = false.

Definition db_wf (db : CCoinsViewDB F) : Prop := forall t value, db_coins db !! t = Some value -> exists c, reads_well value c.

#[export] Instance CCoinsViewDB_spec : CoinsSpec (CCoinsViewDB F) := {
  wf := db_wf;
  utxo db t := value ← db_coins db !! t; db_read F value;
  held _ _ := True;
  best db := match db_best db with Some h => h | None => uint256_0 end;
  storable c := exists c', reads_well (Serialize.Serialize (CCoins_format F) c) c';
  stored_as c := match db_read F (Serialize.Serialize (CCoins_format F) c) with Some c' => c' | None => c end;
}.

(** What the batch leaves under a key. *)
Lemma db_write m : forall db, (forall t e, m !! t = Some e -> DIRTY e = true -> clean (vout (coins e))) ->
  exists db', map_fold (fun t e om => m ← om; if DIRTY e then BatchWriteCoins F t (coins e) m else Some m) (Some db) m = Some db' /\
    forall t, db' !! t = match m !! t with
                         | Some e => if DIRTY e then Serialize.Serialize (CCoins_format F) <$> unpruned (coins e) else db !! t
                         | None => db !! t
                         end.
Proof using.
  intros db. apply (map_fold_weak_ind (fun r m => (forall t e, m !! t = Some e -> DIRTY e = true -> clean (vout (coins e))) ->
    exists db', r = Some db' /\ forall t, db' !! t = match m !! t with
      | Some e => if DIRTY e then Serialize.Serialize (CCoins_format F) <$> unpruned (coins e) else db !! t
      | None => db !! t end)); [intros _; by exists db|].
  intros i e m' r Hi IH Hcl. destruct IH as (d & -> & Hd).
  { intros t e' E. apply (Hcl t). rewrite lookup_insert_ne; [exact E|]. intros ->. by rewrite Hi in E. }
  cbn [mbind option_bind].
  assert (H : exists d', (if DIRTY e then BatchWriteCoins F i (coins e) d else Some d) = Some d' /\
    forall t, d' !! t = if decide (i = t) then (if DIRTY e then Serialize.Serialize (CCoins_format F) <$> unpruned (coins e) else db !! i) else d !! t).
  { specialize (Hd i). rewrite Hi in Hd. destruct (DIRTY e) eqn:D.
    - unfold BatchWriteCoins, unpruned. destruct (IsPruned (coins e)) eqn:P.
      + eexists. split; [done|]. intros t. apply lookup_delete.
      + rewrite (unpruned_assert (coins e) (Hcl i e (lookup_insert_eq _ _ _) D) P). eexists. split; [done|]. intros t. apply lookup_insert.
    - exists d. split; [done|]. intros t. by destruct (decide (i = t)) as [<-|]. }
  destruct H as (d' & -> & Hd'). exists d'. split; [done|]. intros t. rewrite Hd', lookup_insert.
  by destruct (decide (i = t)) as [<-|]; [|apply Hd].
Qed.

#[export] Instance CCoinsViewDB_lawful : LawfulView (CCoinsViewDB F).
Proof using.
  split; [split|..].
  - intros t db r db' Hwf [= <- <-]. split; [by apply unchanged_refl|]. cbn.
    destruct (db_coins db !! t) as [value|] eqn:E; [|done]. destruct (Hwf _ _ E) as (c & Ec & Hc & Hp). cbn. rewrite Ec. unfold unpruned. by rewrite Hp.
  - intros db h db' Hwf [= <- <-]. split; [by apply unchanged_refl | done].
  - intros t db r db' Hwf [= <- <-]. split; [by apply unchanged_refl|]. cbn. rewrite bool_decide_eq_true.
    destruct (db_coins db !! t) as [value|] eqn:E; [|by split; [intros []|]]. destruct (Hwf _ _ E) as (c & Ec & _). cbn. rewrite Ec.
    split; [done | by eexists].
  - intros m h db Hwf [Hm Hst]. cbn. destruct (db_write m (db_coins db)) as (d & -> & Hd); [intros t e E D; by apply (Hm t e E D)|].
    eexists. split; [done|]. split; [|split].
    + intros t value. cbn. rewrite Hd. destruct (m !! t) as [e|] eqn:E; [|apply Hwf]. destruct (DIRTY e) eqn:D; [|apply Hwf].
      unfold unpruned. destruct (IsPruned (coins e)) eqn:P; [done|]. intros [= <-]. exact (Hst t e E D P).
    + intros t. cbn [utxo CCoinsViewDB_spec db_coins]. rewrite Hd. unfold written. destruct (m !! t) as [e|] eqn:E; [|done]. destruct (DIRTY e) eqn:D; [|done].
      unfold unpruned. destruct (IsPruned (coins e)) eqn:P; [done|]. cbn [fmap option_fmap option_map mbind option_bind].
      destruct (Hst t e E D P) as (c & Ec & _). unfold stored_as. cbn [CCoinsViewDB_spec]. by rewrite Ec.
    + intros Hh. unfold is_zero. cbn. by rewrite bool_decide_eq_false_2.
Qed.

(** Coins of the width the code gives them are stored, a negative version
    apart. *)
Lemma recordable_stored {P : Transaction.CTxOut -> Prop} `{!Serialize.Lawful F P} c : recordable P c ->
  storable (CCoinsViewDB F) c /\ stored_as (CCoinsViewDB F) c = as_stored c.
Proof using.
  intros Hc. assert (E : db_read F (Serialize.Serialize (CCoins_format F) c) = Some (as_stored c)).
  { unfold db_read. pose proof (recorded_back c [] Hc) as R. rewrite app_nil_r in R. by rewrite R. }
  cbn [storable stored_as CCoinsViewDB_spec]. rewrite E. split; [|done]. exists (as_stored c). split; [exact E|]. split; apply Hc.
Qed.
End DatabaseLaws.

(** * A cache over a view that keeps it *)

#[local] Arguments IsPruned : simpl never.
#[local] Arguments Cleanup : simpl never.

Section CacheLaws.
Context {V : Type} `{!CCoinsView V, !CoinsSpec V, !ReadableView V}.
Implicit Types (v : CCoinsViewCache V) (b : V) (m : CCoinsMap).

(** An entry over its parent: a fresh one is unknown there, any other is
    held there; one that is not dirty is the parent's. *)
Definition entry_ok b (t : txid) (e : CCoinsCacheEntry) : Prop :=
  clean (vout (coins e)) /\ (if FRESH e then utxo b t = None else held b t) /\
  (DIRTY e = false -> unpruned (coins e) = utxo b t).

Definition entries_ok b m : Prop := forall t e, m !! t = Some e -> entry_ok b t e.

Definition denoted b m (t : txid) : option CCoins :=
  match m !! t with Some e => unpruned (coins e) | None => utxo b t end.

#[export] Instance CCoinsViewCache_spec : CoinsSpec (CCoinsViewCache V) := {
  wf v := wf (base v) /\ hasModifier v = false /\ entries_ok (base v) (cacheCoins v);
  utxo v t := denoted (base v) (cacheCoins v) t;
  held v t := is_Some (cacheCoins v !! t);
  best v := if is_zero (hashBlock v) then best (base v) else hashBlock v;
  storable _ := True;
  stored_as c := c;
}.

Lemma entries_ok_unchanged b b' m : unchanged b b' -> entries_ok b m -> entries_ok b' m.
Proof using.
  intros (_ & U & H & _) Hm t e E. destruct (Hm _ _ E) as (Hc & Hf & Hd).
  split; [done|]. rewrite U. split; [destruct (FRESH e); auto | done].
Qed.

Lemma denoted_unchanged b b' m t : unchanged b b' -> denoted b' m t = denoted b m t.
Proof using. intros (_ & U & _). unfold denoted. by rewrite U. Qed.

(** Pulling an entry in. *)
Lemma pulled_ok b b' t c m : unchanged b b' -> entries_ok b m -> clean (vout c) -> utxo b t = unpruned c ->
  (IsPruned c = false -> held b' t) -> entries_ok b' (<[t := mkEntry c false (IsPruned c)]> m).
Proof using.
  intros U Hm Hc Hu Hh t' e. rewrite lookup_insert. destruct (decide (t = t')) as [<-|]; [|by eapply entries_ok_unchanged].
  intros [= <-]. destruct U as (_ & U & _). split; [done|]. cbn. rewrite U, Hu. unfold unpruned.
  destruct (IsPruned c); auto.
Qed.

Lemma pulled_denoted b b' t c m : unchanged b b' -> m !! t = None -> utxo b t = unpruned c ->
  forall t', denoted b' (<[t := mkEntry c false (IsPruned c)]> m) t' = denoted b m t'.
Proof using.
  intros U Hm Hu t'. unfold denoted. rewrite lookup_insert. destruct (decide (t = t')) as [<-|]; [by rewrite Hm, Hu|].
  apply (denoted_unchanged _ _ _ _ U).
Qed.

Lemma FetchCoins_law t v r v' : wf v -> FetchCoins t v = (r, v') ->
  unchanged v v' /\
  match r with
  | Some c => clean (vout c) /\ utxo v t = unpruned c /\ held v' t
  | None => utxo v t = None
  end.
Proof using All.
  intros (Hb & Hmod & Hm). unfold FetchCoins. destruct (cacheCoins v !! t) as [e|] eqn:E.
  { intros [= <- <-]. split; [by apply unchanged_refl|]. cbn. unfold denoted. rewrite E. split; [apply (Hm _ _ E) | done]. }
  destruct (GetCoins t (base v)) as [r0 b] eqn:G. destruct (GetCoins_law _ _ _ _ Hb G) as [U Hr]. pose proof U as (Hwf & _ & _ & Hbest).
  destruct r0 as [c|]; intros [= <- <-].
  - destruct Hr as (Hc & Hu & Hh). split; [split; [|split; [|split]]|]; cbn.
    + split; [done|]. split; [done|]. by eapply pulled_ok.
    + intros t'. by apply pulled_denoted.
    + intros t'. rewrite lookup_insert_is_Some'. auto.
    + by rewrite Hbest.
    + split; [done|]. unfold denoted. rewrite E. split; [done|]. rewrite lookup_insert_eq. eauto.
  - split; [split; [|split; [|split]]|]; cbn.
    + split; [done|]. split; [done|]. by eapply entries_ok_unchanged.
    + intros t'. by apply denoted_unchanged.
    + done.
    + by rewrite Hbest.
    + unfold denoted. by rewrite E.
Qed.

Lemma clean_unpruned c : clean (vout c) -> unpruned c = if (length (vout c) =? 0)%nat then None else Some c.
Proof using.
  intros Hc. unfold unpruned. destruct (IsPruned c) eqn:P.
  - by rewrite (clean_pruned c Hc P).
  - destruct (Nat.eqb_spec (length (vout c)) 0) as [Hz|]; [|done]. apply nil_length_inv in Hz.
    unfold IsPruned in P. by rewrite Hz in P.
Qed.

Lemma Cache_HaveCoins_law t v r v' : wf v -> Cache_HaveCoins t v = (r, v') -> unchanged v v' /\ (r = true <-> utxo v t <> None).
Proof using All.
  intros Hwf. unfold Cache_HaveCoins. destruct (FetchCoins t v) as [o w] eqn:F.
  destruct (FetchCoins_law _ _ _ _ Hwf F) as [U Hr]. destruct o as [c|]; intros [= <- <-].
  - destruct Hr as (Hc & Hu & _). split; [done|]. rewrite Hu, (clean_unpruned c Hc).
    by destruct (length (vout c) =? 0)%nat.
  - split; [done|]. by rewrite Hr.
Qed.

Lemma Cache_GetBestBlock_law v h v' : wf v -> Cache_GetBestBlock v = (h, v') -> unchanged v v' /\ h = best v.
Proof using All.
  intros Hwf. pose proof Hwf as (Hb & Hmod & Hm). unfold Cache_GetBestBlock. cbn. destruct (is_zero (hashBlock v)) eqn:Ez.
  - destruct (GetBestBlock (base v)) as [h0 b] eqn:G. destruct (GetBestBlock_law _ _ _ Hb G) as [U ->].
    pose proof U as (Hwf' & _ & _ & Hbest). intros [= <- <-]. split; [|done].
    split; [split; [done|]; split; [done|]; by eapply entries_ok_unchanged|].
    split; [intros t'; by apply denoted_unchanged|]. split; [done|]. cbn. rewrite Ez.
    destruct (is_zero (best (base v))) eqn:Eb; [by rewrite Hbest | done].
  - intros [= <- <-]. split; [by apply unchanged_refl | done].
Qed.

(** ** Writing a child's entries *)

(** What one entry of the child makes of the parent's. *)
Definition write_result (it : CCoinsCacheEntry) (o : option CCoinsCacheEntry) : option CCoinsCacheEntry :=
  if DIRTY it then
    match o with
    | None => if IsPruned (coins it) then None else Some (mkEntry (coins it) true true)
    | Some itUs => if FRESH itUs && IsPruned (coins it) then None else Some (mkEntry (coins it) true (FRESH itUs))
    end
  else o.

(** The assertion of the loop. *)
Definition write_assert (it : CCoinsCacheEntry) (o : option CCoinsCacheEntry) : Prop :=
  DIRTY it = true -> o = None -> IsPruned (coins it) = false -> FRESH it = true.

Lemma write_entry_result t it m : write_assert it (m !! t) ->
  exists m', write_entry t it m = Some m' /\
    forall t', m' !! t' = if decide (t = t') then write_result it (m !! t) else m !! t'.
Proof using.
  intros Ha. unfold write_entry, write_result. destruct (DIRTY it) eqn:D.
  2: { exists m. split; [done|]. intros t'. by destruct (decide (t = t')) as [->|]. }
  destruct (m !! t) as [us|] eqn:E.
  - destruct (FRESH us && IsPruned (coins it)); eexists; (split; [done|]); intros t'; [by rewrite lookup_delete | by rewrite lookup_insert].
  - destruct (IsPruned (coins it)) eqn:P; cbn [negb].
    + exists m. split; [done|]. intros t'. by destruct (decide (t = t')) as [<-|].
    + rewrite (Ha D eq_refl P). eexists. split; [done|]. intros t'. by rewrite lookup_insert.
Qed.

Lemma write_all c : forall m, (forall t it, m !! t = Some it -> write_assert it (c !! t)) ->
  exists m', map_fold (fun t it om => m ← om; write_entry t it m) (Some c) m = Some m' /\
    forall t, m' !! t = match m !! t with Some it => write_result it (c !! t) | None => c !! t end.
Proof using.
  apply (map_fold_weak_ind (fun r m => (forall t it, m !! t = Some it -> write_assert it (c !! t)) ->
    exists m', r = Some m' /\ forall t, m' !! t = match m !! t with Some it => write_result it (c !! t) | None => c !! t end)).
  { intros _. exists c. split; [done|]. intros t. by rewrite lookup_empty. }
  intros i it m r Hi IH Ha. destruct IH as (m1 & -> & H1).
  { intros t it' E. apply Ha. rewrite lookup_insert_ne; [done|]. by intros ->; rewrite Hi in E. }
  assert (Hm1 : m1 !! i = c !! i) by (rewrite H1; by rewrite Hi).
  destruct (write_entry_result i it m1) as (m2 & E2 & H2); [rewrite Hm1; apply Ha, lookup_insert_eq|].
  exists m2. split; [exact E2|]. intros t. rewrite H2, lookup_insert, Hm1. by destruct (decide (i = t)) as [<-|]; [|apply H1].
Qed.

Lemma written_ok b c t it : entries_ok b c -> clean (vout (coins it)) ->
  (if FRESH it then denoted b c t = None else is_Some (c !! t)) -> DIRTY it = true ->
  (match write_result it (c !! t) with Some e => entry_ok b t e | None => True end) /\
  (match write_result it (c !! t) with Some e => unpruned (coins e) | None => utxo b t end) = unpruned (coins it).
Proof using.
  intros Hc Hcl Hf D. unfold write_result. rewrite D. unfold denoted in Hf. destruct (c !! t) as [us|] eqn:E.
  - destruct (Hc _ _ E) as (_ & Hus & _). unfold unpruned. destruct (FRESH us) eqn:Fus, (IsPruned (coins it)) eqn:P; cbn [andb];
      unfold entry_ok; cbn; rewrite ?P; repeat split; done.
  - unfold unpruned. destruct (FRESH it); [|by destruct Hf]. destruct (IsPruned (coins it)) eqn:P; [auto|].
    unfold entry_ok; cbn. rewrite P. repeat split; done.
Qed.

Lemma Cache_BatchWrite_law m h v : wf v -> writable v m ->
  exists v', Cache_BatchWrite m h v = Some v' /\ wf v' /\ (forall t, utxo v' t = written (CCoinsViewCache V) m (utxo v) t) /\
    (h <> uint256_0 -> best v' = h).
Proof using All.
  intros (Hb & Hmod & Hm) [Hw _]. unfold Cache_BatchWrite. rewrite Hmod.
  destruct (write_all (cacheCoins v) m) as (m' & -> & Hm').
  { intros t it E D E0 P. destruct (Hw _ _ E D) as [_ Hf]. destruct (FRESH it); [done|]. cbn in Hf. by destruct Hf as [? Hf]; rewrite E0 in Hf. }
  cbn. eexists. split; [done|]. cbn. split; [split; [done|]; split; [done|]|split].
  - intros t e. rewrite Hm'. destruct (m !! t) as [it|] eqn:E; [|apply Hm]. intros R.
    destruct (DIRTY it) eqn:D; [|unfold write_result in R; rewrite D in R; by apply Hm].
    destruct (Hw _ _ E D) as [Hcl Hf]. destruct (written_ok (base v) (cacheCoins v) t it Hm Hcl Hf D) as [Hok _]. by rewrite R in Hok.
  - intros t. unfold denoted at 1, written. rewrite Hm'. destruct (m !! t) as [it|] eqn:E; [|done].
    destruct (DIRTY it) eqn:D; [|unfold write_result; by rewrite D].
    destruct (Hw _ _ E D) as [Hcl Hf]. destruct (written_ok (base v) (cacheCoins v) t it Hm Hcl Hf D) as [_ Hok].
    etransitivity; [exact Hok|]. by destruct (unpruned (coins it)).
  - intros Hh. unfold is_zero. by rewrite bool_decide_eq_false_2.
Qed.

#[export] Instance CCoinsViewCache_lawful : LawfulView (CCoinsViewCache V).
Proof using All.
  split; [split|..].
  - intros t v r v' Hwf F. destruct (FetchCoins_law t v r v' Hwf F) as [U Hr]. split; [done|]. destruct r; [destruct Hr as (? & ? & ?); auto | done].
  - apply Cache_GetBestBlock_law.
  - apply Cache_HaveCoins_law.
  - apply Cache_BatchWrite_law.
Qed.

(** ** Modifying and flushing *)

(** The modification of [t] by [f]: it is given coins that denote what the
    view holds for [t] (or cleared ones), and the view then holds what [f]
    made of them, cleaned up. *)
Lemma modify_law {A} t (f : CCoins -> CCoins * A) v : wf v ->
  exists c v', modify t f v = Some ((f c).2, v') /\ clean (vout c) /\ unpruned c = utxo v t /\ wf v' /\ best v' = best v /\
    forall t', utxo v' t' = if decide (t = t') then unpruned (Cleanup (f c).1) else utxo v t'.
Proof using All.
  intros (Hb & Hmod & Hm). unfold modify, ModifyCoins. rewrite Hmod.
  assert (Hpull : exists e b, (match cacheCoins v !! t with
      | Some e => (e, base v)
      | None => match GetCoins t (base v) with
                | (Some c, b) => (mkEntry c false (IsPruned c), b)
                | (None, b) => (mkEntry CCoins_empty false true, b) end end) = (e, b) /\
      unchanged (base v) b /\ clean (vout (coins e)) /\ unpruned (coins e) = denoted (base v) (cacheCoins v) t /\
      (if FRESH e then utxo b t = None else held b t)).
  { unfold denoted. destruct (cacheCoins v !! t) as [e|] eqn:E.
    - exists e, (base v). destruct (Hm _ _ E) as (Hc & Hf & _). split; [done|]. split; [by apply unchanged_refl | done].
    - destruct (GetCoins t (base v)) as [r b] eqn:G. destruct (GetCoins_law _ _ _ _ Hb G) as [U Hr]. pose proof U as (_ & Hu & _).
      destruct r as [c|]; eexists; exists b; (split; [done|]); (split; [done|]); cbn; rewrite Hu.
      + destruct Hr as (Hc & Hr & Hh). split; [done|]. split; [done|]. rewrite Hr. unfold unpruned. destruct (IsPruned c); auto.
      + split; [by left|]. by rewrite Hr. }
  destruct Hpull as (e & b & -> & U & Hc & Hden & Hf). cbn. unfold modifier_coins. cbn. rewrite lookup_insert_eq. cbn.
  unfold modifier_release, modifier_assign, with_cache. cbn. rewrite alter_insert_eq, lookup_insert_eq. cbn.
  exists (coins e). eexists. split; [done|]. split; [done|]. split; [by rewrite Hden|].
  pose proof U as (Hwf' & Hu & _ & Hbest). set (c' := Cleanup (f (coins e)).1).
  assert (Hcl : clean (vout c')) by apply pop_nulls_spec.
  split; [|split; [cbn; by rewrite Hbest|]].
  - split; [done|]. split; [done|]. cbn. destruct (FRESH e && IsPruned c') eqn:D; intros t' e'.
    + rewrite delete_insert_eq, lookup_delete. destruct (decide (t = t')); [done|]. by eapply entries_ok_unchanged.
    + rewrite insert_insert_eq, lookup_insert. destruct (decide (t = t')) as [<-|]; [|by eapply entries_ok_unchanged].
      intros [= <-]. split; [done|]. split; [exact Hf | done].
  - intros t'. cbn. unfold denoted. destruct (FRESH e && IsPruned c') eqn:D.
    + rewrite delete_insert_eq, lookup_delete. apply andb_true_iff in D as [Fe Pc]. rewrite Fe in Hf. unfold unpruned. rewrite Pc.
      destruct (decide (t = t')) as [<-|]; [done | by rewrite Hu].
    + rewrite insert_insert_eq, lookup_insert. destruct (decide (t = t')) as [<-|]; [done | by rewrite Hu].
Qed.

(** Flushing leaves in the base what the dirty entries are stored as. *)
Definition flushed v : txid -> option CCoins := written V (cacheCoins v) (utxo (base v)).

Lemma Flush_spec `{!LawfulView V} v : wf v -> all_storable V (cacheCoins v) ->
  exists v', Flush v = Some v' /\ wf v' /\ cacheCoins v' = ∅ /\
    (forall t, utxo (base v') t = flushed v t) /\ (forall t, utxo v' t = flushed v t) /\
    (hashBlock v <> uint256_0 -> best (base v') = best v /\ best v' = best v).
Proof using All.
  intros (Hb & Hmod & Hm) Hst. unfold Flush.
  destruct (BatchWrite_law (cacheCoins v) (hashBlock v) (base v) Hb) as (b & -> & Hwf & Hu & Hbest).
  { split; [|exact Hst]. intros t e E D. destruct (Hm _ _ E) as (Hc & Hf & _). done. }
  cbn. eexists. split; [done|]. cbn. split; [split; [done|]; split; [done|]; by intros ? ?|]. split; [done|].
  split; [done|]. split; [done|]. intros Hz. unfold is_zero. rewrite !bool_decide_eq_false_2 by done. by rewrite Hbest.
Qed.

(** It is what the cache stood for, when the base stores coins as they are. *)
Lemma flushed_same v : wf v -> (forall t e, cacheCoins v !! t = Some e -> DIRTY e = true -> IsPruned (coins e) = false -> stored_as V (coins e) = coins e) ->
  forall t, flushed v t = utxo v t.
Proof using All.
  intros (_ & _ & Hm) Hs t. unfold flushed, written. cbn. unfold denoted. destruct (cacheCoins v !! t) as [e|] eqn:E; [|done].
  destruct (DIRTY e) eqn:D; [|symmetry; by apply (Hm _ _ E)]. unfold unpruned. destruct (IsPruned (coins e)) eqn:P; [done|]. cbn.
  by rewrite (Hs t e E D P).
Qed.
End CacheLaws.

(** A cache over a cache. *)
Lemma Flush_cache {V} `{!CCoinsView V, !CoinsSpec V, !ReadableView V} (v : CCoinsViewCache (CCoinsViewCache V)) : wf v ->
  exists v', Flush v = Some v' /\ wf v' /\ cacheCoins v' = ∅ /\
    (forall t, utxo v' t = utxo v t) /\ (forall t, utxo (base v') t = utxo v t) /\
    (hashBlock v <> uint256_0 -> best (base v') = best v /\ best v' = best v).
Proof.
  intros Hwf. destruct (Flush_spec v Hwf) as (v' & E & Hwf' & H0 & H1 & H2 & H3); [by intros t e _ _ _|].
  assert (Hs : forall t, flushed v t = utxo v t) by (by apply flushed_same).
  exists v'. repeat (split; [done|]). split; [intros t; by rewrite H2, Hs|]. split; [intros t; by rewrite H1, Hs | exact H3].
Qed.

(** C13: flushing pushes a cache into its base without a failing assertion
    and leaves it empty, with the best block kept if one is set.  A base that
    is another cache then holds exactly what the cache stood for.  The
    database holds its serialized coins, and read back they are those of the
    cache, but that a modified record with a negative version comes back with
    the seven low bits of it. *)
Theorem Flush_correct :
  (forall V `(!CCoinsView V, !CoinsSpec V, !ReadableView V) (v : CCoinsViewCache (CCoinsViewCache V)), wf v ->
     exists v', Flush v = Some v' /\ wf v' /\ cacheCoins v' = ∅ /\
       (forall t, utxo v' t = utxo v t) /\ (forall t, utxo (base v') t = utxo v t) /\
       (hashBlock v <> uint256_0 -> best (base v') = best v /\ best v' = best v)) /\
  (forall F P `(!Serialize.Lawful F P) (v : CCoinsViewCache (CCoinsViewDB F)), wf v ->
     (forall t e, cacheCoins v !! t = Some e -> DIRTY e = true -> IsPruned (coins e) = false -> recordable P (coins e)) ->
     exists v', Flush v = Some v' /\ wf v' /\ cacheCoins v' = ∅ /\
       (forall t, utxo v' t = utxo (base v') t) /\
       (forall t, utxo (base v') t =
          match cacheCoins v !! t with
          | Some e => if DIRTY e then as_stored <$> utxo v t else utxo v t
          | None => utxo v t
          end) /\
       (forall t, (forall c, utxo v t = Some c -> 0 <= nVersion c) -> utxo (base v') t = utxo v t) /\
       (hashBlock v <> uint256_0 -> best (base v') = best v /\ best v' = best v)).
Proof.
  split; [intros V ? ? ? v; apply Flush_cache|]. intros F P ? v Hwf Hrec.
  destruct (Flush_spec v Hwf) as (v' & E & Hwf' & H0 & H1 & H2 & H3).
  { intros t e Et D Hp. by apply (recordable_stored F), (Hrec t e). }
  assert (Hb : forall t, utxo (base v') t = match cacheCoins v !! t with
    | Some e => if DIRTY e then as_stored <$> utxo v t else utxo v t | None => utxo v t end).
  { intros t. rewrite H1. unfold flushed, written. change (utxo v t) with (denoted (base v) (cacheCoins v) t). unfold denoted.
    destruct (cacheCoins v !! t) as [e|] eqn:Et; [|done]. destruct (DIRTY e) eqn:D; [|symmetry; by apply (proj2 (proj2 Hwf) _ _ Et)].
    unfold unpruned. destruct (IsPruned (coins e)) eqn:Hp; [done|]. cbn [fmap option_fmap option_map].
    f_equal. by apply (recordable_stored F), (Hrec t e). }
  exists v'. repeat (split; [done|]). split; [intros t; by rewrite H1, H2|]. split; [exact Hb|]. split; [|exact H3].
  intros t Hv. rewrite Hb. destruct (cacheCoins v !! t) as [e|]; [|done]. destruct (DIRTY e); [|done].
  destruct (utxo v t) as [c|]; [|done]. specialize (Hv c eq_refl). cbn. f_equal. unfold as_stored, version_kept.
  destruct (Z.ltb_spec (nVersion c) 0); [lia | by destruct c].
Qed.

End CoinsView.
