(* ===== verification/Block.v ===== *)
(** Blocks: [CBlockHeader] and [CBlock] of [src/src/primitives/block.h] and
    [block.cpp], the [StakePointer] a version 5 proof-of-stake block carries
    ([src/src/stakepointer.h], [stakepointer.cpp]), and the serialized form of
    [CPubKey] ([src/src/pubkey.h]).

    The members a block does not serialize ([payee], [vMerkleTree]) are left
    out.  [XEVAN] and the verification of signatures are parameters. *)
From S2P Require Import Prelude SphTypes Hex Script Standard Sha256 Merkle Serialize Transaction.

Module Block.
Import Script Standard Serialize Transaction.

#[local] Opaque Sha256.Hash.

(** ** Public keys in a stream *)

(** A key as [Standard] has it, from the array [vch]: up to the length its
    first byte tells, and at least that byte. *)
Definition loaded (vch : list Z) : list Z := firstn (Nat.max 1 (GetLen vch.[0])) vch.

(** [vch0] is what the array holds before: [CPubKey()] sets its first byte to
    0xFF only. *)
Definition CPubKey_format (vch0 : list Z) : format (list Z) := {|
  Serialize vch := WriteCompactSize (Z.of_nat (key_size vch)) ++ key_bytes vch;
  Unserialize :=
    len <- ReadCompactSize ;;
    if len <=? 65 then b <- read (Z.to_nat len) ;; ret (loaded (b ++ skipn (length b) vch0))
    else _ <- read (Z.to_nat len) ;; ret Invalid;
  GetSerializeSize vch := Z.of_nat (key_size vch) + 1;
|}.

(** ** [StakePointer] *)

Record StakePointer : Type := mkPointer {
  hashBlock : list Z; txid : list Z; nPos : Z;
  pubKeyCollateral : list Z; pubKeyProofOfStake : list Z; vchSigCollateralSignOver : list Z
}.

Definition StakePointer_SetNull : StakePointer := mkPointer Merkle.uint256_0 Merkle.uint256_0 0 Invalid Invalid [].

(** [base_uint::IsNull] *)
Definition uint256_IsNull (h : list Z) : bool := forallb (Z.eqb 0) h.

Definition StakePointer_IsNull (sp : StakePointer) : bool := uint256_IsNull (hashBlock sp).

(** The outpoint a pointer names: [COutPoint(sp.txid, sp.nPos)]. *)
Definition outpointPointer (sp : StakePointer) : COutPoint := mkOutPoint (txid sp) (nPos sp).

(** [vch1], [vch2]: the arrays of the two keys read into. *)
Definition StakePointer_format (vch1 vch2 : list Z) : format StakePointer :=
  wrap_format (pair_format (flat_format 32) (pair_format (flat_format 32) (pair_format uint32_format
                (pair_format (CPubKey_format vch1) (pair_format (CPubKey_format vch2) bytes_format)))))
    (fun p => (hashBlock p, (txid p, (nPos p, (pubKeyCollateral p, (pubKeyProofOfStake p, vchSigCollateralSignOver p))))))
    (fun '(h, (t, (n, (c, (k, s))))) => mkPointer h t n c k s).

(** ** Headers *)

Record CBlockHeader : Type := mkHeader {
  nVersion : Z; hashPrevBlock : list Z; hashMerkleRoot : list Z; nTime : Z; nBits : Z; nNonce : Z;
  nAccumulatorCheckpoint : list Z
}.

Definition CURRENT_VERSION : Z := 5.
Definition CBlockHeader_SetNull : CBlockHeader :=
  mkHeader CURRENT_VERSION Merkle.uint256_0 Merkle.uint256_0 0 0 0 Merkle.uint256_0.
Definition header_IsNull (h : CBlockHeader) : bool := nBits h =? 0.

Definition CBlockHeader_format : format CBlockHeader :=
  wrap_format
    (dep_format (pair_format int32_format (pair_format (flat_format 32) (pair_format (flat_format 32)
                  (pair_format uint32_format (pair_format uint32_format uint32_format)))))
       (fun p => when_format (fst p >? 3) (flat_format 32) Merkle.uint256_0))
    (fun h => ((nVersion h, (hashPrevBlock h, (hashMerkleRoot h, (nTime h, (nBits h, nNonce h))))), nAccumulatorCheckpoint h))
    (fun '((v, (p, (r, (t, (b, n))))), a) => mkHeader v p r t b n a).

(** The bytes from [nVersion] to [nNonce], which follow each other without
    padding. *)
Definition header_bytes (h : CBlockHeader) : list Z :=
  le_bytes 4 (nVersion h mod 2 ^ 32) ++ hashPrevBlock h ++ hashMerkleRoot h ++ le_bytes 4 (nTime h) ++ le_bytes 4 (nBits h) ++
  le_bytes 4 (nNonce h).

Section Hash.
Variable XEVAN : list Z -> list Z.

Definition GetHash (h : CBlockHeader) : list Z :=
  if nVersion h <? 4 then XEVAN (header_bytes h)
  else Sha256.Hash (header_bytes h ++ nAccumulatorCheckpoint h).
End Hash.

(** ** Blocks *)

Record CBlock : Type := mkBlock {
  header : CBlockHeader; vtx : list CTransaction; vchBlockSig : list Z; stakePointer : StakePointer
}.

Definition CBlock_SetNull : CBlock := mkBlock CBlockHeader_SetNull [] [] StakePointer_SetNull.
Definition CBlock_of_header (h : CBlockHeader) : CBlock := mkBlock h [] [] StakePointer_SetNull.

(** [vtx.size() > 1 && vtx[1].IsCoinStake()] *)
Definition staked (vtx : list CTransaction) : bool :=
  match vtx with _ :: tx :: _ => IsCoinStake tx | _ => false end.

Definition IsProofOfStake (b : CBlock) : bool := staked (vtx b).
Definition IsProofOfWork (b : CBlock) : bool := negb (IsProofOfStake b).

Definition CBlock_format (vch1 vch2 : list Z) : format CBlock :=
  wrap_format
    (dep_format (pair_format CBlockHeader_format (vector_format CTransaction_format))
       (fun p => pair_format (when_format (staked (snd p)) bytes_format [])
                   (when_format (staked (snd p) && (nVersion (fst p) >=? 5)) (StakePointer_format vch1 vch2) StakePointer_SetNull)))
    (fun b => ((header b, vtx b), (vchBlockSig b, stakePointer b)))
    (fun '((h, v), (s, p)) => mkBlock h v s p).

(** [vtx[1].vin[0].prevout] *)
Definition kernel_prevout (b : CBlock) : COutPoint :=
  match vtx b with
  | _ :: tx :: _ => match vin tx with i :: _ => prevout i | [] => COutPoint_SetNull end
  | _ => COutPoint_SetNull
  end.

Definition GetProofOfStake (b : CBlock) : COutPoint * Z :=
  if negb (IsProofOfStake b) then (COutPoint_SetNull, 0)
  else
    match vtx b with
    | _ :: tx :: _ =>
        if IsV5CoinStake tx then (outpointPointer (stakePointer b), nTime (header b))
        else (kernel_prevout b, nTime (header b))
    | _ => (COutPoint_SetNull, 0)
    end.

(** ** Signatures *)

Section Signatures.
Variable XEVAN : list Z -> list Z.
(** [CPubKey::Verify(hash, vchSig)] *)
Variable Verify : list Z -> list Z -> list Z -> bool.

Definition CheckBlockSignature_with (b : CBlock) (pubkey : list Z) : bool :=
  if negb (IsValid pubkey) then false
  else match vchBlockSig b with
       | [] => false
       | _ => Verify pubkey (GetHash XEVAN (header b)) (vchBlockSig b)
       end.

(** [None] is an access out of range: no second output. *)
Definition CheckBlockSignature (b : CBlock) : option bool :=
  if IsProofOfWork b then Some (match vchBlockSig b with [] => true | _ => false end)
  else if nVersion (header b) >=? 5 then
    if negb (IsValid (pubKeyProofOfStake (stakePointer b))) then Some false
    else Some (CheckBlockSignature_with b (pubKeyProofOfStake (stakePointer b)))
  else
    match vtx b with
    | _ :: tx :: _ =>
        match vout tx with
        | _ :: txout :: _ =>
            match Solver (scriptPubKey txout) with
            | None => None
            | Some r =>
                if negb (ok r) then Some false
                else
                  match typeRet r with
                  | TX_PUBKEY | TX_PUBKEYHASH =>
                      match front (vSolutionsRet r) with
                      | None => None
                      | Some v =>
                      let pubkey := CPubKey v in
                      if negb (IsValid pubkey) then Some false
                      else match vchBlockSig b with
                           | [] => Some false
                           | _ => Some (Verify pubkey (GetHash XEVAN (header b)) (vchBlockSig b))
                           end
                      end
                  | _ => Some false
                  end
            end
        | _ => None
        end
    | _ => None
    end.

(** [uint160::ToString], of the bytes of the number. *)
Definition uint_ToString (h : list Z) : list Z := flat_map Hex.sprintf02x (rev h).

(** ["DarkNet Signed Message:\n"] and ["StakePointer sign-over:"] *)
Definition strStakePointerMsgMagic : list Z :=
  [68; 97; 114; 107; 78; 101; 116; 32; 83; 105; 103; 110; 101; 100; 32; 77; 101; 115; 115; 97; 103; 101; 58; 10].
Definition sign_over : list Z :=
  [83; 116; 97; 107; 101; 80; 111; 105; 110; 116; 101; 114; 32; 115; 105; 103; 110; 45; 111; 118; 101; 114; 58].

Definition CollateralSignOverHash (pubKeyPoS : list Z) : list Z :=
  Sha256.Hash (Serialize bytes_format strStakePointerMsgMagic ++
               Serialize bytes_format (sign_over ++ uint_ToString (GetID pubKeyPoS))).

Definition VerifyCollateralSignOver (sp : StakePointer) : bool :=
  Verify (pubKeyCollateral sp) (CollateralSignOverHash (pubKeyProofOfStake sp)) (vchSigCollateralSignOver sp).
End Signatures.

(** * The serialized forms *)

Definition key_ok (k : list Z) : Prop := (0 < length k)%nat /\ GetLen k.[0] = length k /\ Forall u8 k \/ k = Invalid.

Definition pointer_ok (p : StakePointer) : Prop :=
  flat 32 (hashBlock p) /\ flat 32 (txid p) /\ in_width 32 (nPos p) /\ key_ok (pubKeyCollateral p) /\ key_ok (pubKeyProofOfStake p) /\
  blob (vchSigCollateralSignOver p).

Definition header_ok (h : CBlockHeader) : Prop :=
  in_signed 32 (nVersion h) /\ flat 32 (hashPrevBlock h) /\ flat 32 (hashMerkleRoot h) /\ in_width 32 (nTime h) /\ in_width 32 (nBits h) /\
  in_width 32 (nNonce h) /\ (if nVersion h >? 3 then flat 32 (nAccumulatorCheckpoint h) else nAccumulatorCheckpoint h = Merkle.uint256_0).

(** What is serialized only for some blocks is empty in the others. *)
Definition block_ok (b : CBlock) : Prop :=
  header_ok (header b) /\ vector tx_ok (vtx b) /\
  (if IsProofOfStake b then blob (vchBlockSig b) else vchBlockSig b = []) /\
  (if IsProofOfStake b && (nVersion (header b) >=? 5) then pointer_ok (stakePointer b) else stakePointer b = StakePointer_SetNull).

Lemma GetLen_bound c : (GetLen c <= 65)%nat.
Proof. unfold GetLen. destruct (_ || _); [lia|]. destruct (_ || _); lia. Qed.

Lemma key_ok_size k : key_ok k -> key_bytes k = firstn (key_size k) k /\ (key_size k <= 65)%nat /\ (key_size k = length k \/ key_size k = 0%nat /\ k = Invalid).
Proof.
  intros [(H0 & HL & _)| ->]; unfold key_bytes, key_size; (split; [reflexivity|split; [apply GetLen_bound|]]); [now left | now right].
Qed.

Lemma CPubKey_lawful vch0 : vch0.[0] = 0xFF -> Lawful (CPubKey_format vch0) key_ok.
Proof.
  intros H0. split; intros k.
  - intros rest Hk. cbn [Unserialize Serialize CPubKey_format]. rewrite <- app_assoc.
    destruct (key_ok_size k Hk) as (EK & Hs & HE).
    rewrite (bind_eq _ _ _ _ _ (compact_size_read (Z.of_nat (key_size k)) _ ltac:(unfold MAX_SIZE; lia))).
    destruct (Z.leb_spec (Z.of_nat (key_size k)) 65); [|lia]. rewrite Nat2Z.id.
    assert (EL : length (key_bytes k) = key_size k) by (rewrite EK, length_firstn; destruct HE as [-> | [-> _]]; lia).
    rewrite <- EL at 1. rewrite (bind_eq _ _ _ _ _ (read_app _ _)). unfold ret. f_equal.
    destruct HE as [HE|[HE ->]].
    + assert (E : key_bytes k = k) by (rewrite EK, HE; apply firstn_all). rewrite E. unfold loaded.
      destruct Hk as [(Hp & HL & _)|HI]; [|subst k; discriminate HE].
      rewrite get_app_l by exact Hp. rewrite HL. rewrite Nat.max_r by lia. rewrite firstn_app, Nat.sub_diag, firstn_all. cbn. apply app_nil_r.
    + cbn [key_bytes key_size Invalid GetLen]. destruct vch0 as [|x vch0]; [discriminate H0|]. cbn in H0. subst x. reflexivity.
  - intros Hk. destruct (key_ok_size k Hk) as (EK & Hs & HE). cbn [GetSerializeSize Serialize CPubKey_format]. rewrite length_app, compact_size_length.
    unfold GetSizeOfCompactSize. destruct (Z.ltb_spec (Z.of_nat (key_size k)) 253); [|lia]. rewrite EK, length_firstn.
    f_equal. destruct HE as [HE | [HE ->]]; [rewrite HE; lia | rewrite HE; reflexivity].
  - intros Hk. cbn [Serialize CPubKey_format]. apply Forall_app. split; [apply compact_size_u8|]. destruct (key_ok_size k Hk) as (-> & _).
    apply Forall_split. destruct Hk as [(_ & _ & H)| ->]; [exact H|]. repeat constructor; unfold u8; lia.
Qed.

Lemma StakePointer_lawful vch1 vch2 : vch1.[0] = 0xFF -> vch2.[0] = 0xFF -> Lawful (StakePointer_format vch1 vch2) pointer_ok.
Proof.
  intros H1 H2. pose proof (CPubKey_lawful _ H1). pose proof (CPubKey_lawful _ H2). eapply wrap_lawful; [exact _|].
  intros [h t n c k s] (? & ? & ? & ? & ? & ?). cbn in *. tauto.
Qed.

#[export] Instance CBlockHeader_lawful : Lawful CBlockHeader_format header_ok.
Proof. eapply wrap_lawful; [exact _|]. intros [v p r t b n a] (? & ? & ? & ? & ? & ? & ?). cbn in *. tauto. Qed.

#[export] Instance CBlockHeader_canonical : Canonical CBlockHeader_format header_ok.
Proof.
  eapply wrap_canonical; [exact _|]. intros ((v & (p & (r & (t & (b & n))))) & a) H. cbn in *. split; [|reflexivity]. unfold header_ok. cbn. tauto.
Qed.

Lemma CBlock_lawful vch1 vch2 : vch1.[0] = 0xFF -> vch2.[0] = 0xFF -> Lawful (CBlock_format vch1 vch2) block_ok.
Proof.
  intros H1 H2. pose proof (StakePointer_lawful _ _ H1 H2). eapply wrap_lawful; [exact _|].
  intros [h v s p] (? & ? & ? & ?). unfold IsProofOfStake in *. cbn in *. tauto.
Qed.

Lemma header_bytes_serialize h : (nVersion h >? 3) = true -> header_bytes h ++ nAccumulatorCheckpoint h = Serialize CBlockHeader_format h.
Proof.
  intros H. unfold header_bytes. cbn [CBlockHeader_format wrap_format dep_format pair_format Serialize fst snd int32_format int_format
    flat_format uint32_format uint_format]. unfold when_format. rewrite H. cbn [Serialize flat_format]. rewrite <- !app_assoc. reflexivity.
Qed.

(** A block, with its optional signature and stake pointer, reads back from
    the bytes written, whatever follows and whatever the memory of the keys
    held, in as many bytes as its size says. *)
Theorem block_codec vch1 vch2 b rest : vch1.[0] = 0xFF -> vch2.[0] = 0xFF -> block_ok b ->
  Unserialize (CBlock_format vch1 vch2) (Serialize (CBlock_format vch1 vch2) b ++ rest) = Read b rest /\
  T32 (GetSerializeSize (CBlock_format vch1 vch2) b) = T32 (Z.of_nat (length (Serialize (CBlock_format vch1 vch2) b))).
Proof.
  intros H1 H2 Hb. pose proof (CBlock_lawful _ _ H1 H2). split; [now apply read_back | now apply size_written].
Qed.

(** From version 4 the hash of a block is the hash of its serialized header:
    headers with the same hash are the same, or a collision of the double
    SHA-256. *)
Theorem header_hash_binds XEVAN h1 h2 : header_ok h1 -> header_ok h2 -> 4 <= nVersion h1 -> 4 <= nVersion h2 ->
  GetHash XEVAN h1 = GetHash XEVAN h2 ->
  h1 = h2 \/ (Serialize CBlockHeader_format h1 <> Serialize CBlockHeader_format h2 /\
              Sha256.Hash (Serialize CBlockHeader_format h1) = Sha256.Hash (Serialize CBlockHeader_format h2)).
Proof.
  intros O1 O2 V1 V2. unfold GetHash. destruct (Z.ltb_spec (nVersion h1) 4); [lia|]. destruct (Z.ltb_spec (nVersion h2) 4); [lia|].
  rewrite !header_bytes_serialize by lia. intros E.
  destruct (list_eq_dec Z.eq_dec (Serialize CBlockHeader_format h1) (Serialize CBlockHeader_format h2)) as [S|S]; [left|right; now split].
  exact (Serialize_inj CBlockHeader_format header_ok _ _ O1 O2 S).
Qed.

(** The hash covers neither the signature nor the stake pointer. *)
Theorem hash_uncommitted XEVAN h v s p s' p' : GetHash XEVAN (header (mkBlock h v s p)) = GetHash XEVAN (header (mkBlock h v s' p')).
Proof. reflexivity. Qed.

(** A key whose length in the stream is not the one its first byte tells is
    filled up with what the memory held before. *)
Theorem pubkey_stale_memory : exists s vch1 vch2, vch1.[0] = 0xFF /\ vch2.[0] = 0xFF /\ length vch1 = 65%nat /\ length vch2 = 65%nat /\
  exists k1 k2, Unserialize (CPubKey_format vch1) s = Read k1 [] /\ Unserialize (CPubKey_format vch2) s = Read k2 [] /\
    IsValid k1 = true /\ IsValid k2 = true /\ k1 <> k2.
Proof.
  exists [1; 2], (0xFF :: repeat 0 64), (0xFF :: repeat 1 64). repeat (split; [reflexivity|]).
  exists (2 :: repeat 0 32), (2 :: repeat 1 32). repeat (split; [reflexivity|]). discriminate.
Qed.

(** A legacy proof-of-stake block that pays a public key hash has no valid
    signature: the hash is taken for the key. *)
Theorem legacy_keyhash_unsigned XEVAN Verify b tx0 tx txs o0 o os r :
  vtx b = tx0 :: tx :: txs -> IsCoinStake tx = true -> nVersion (header b) < 5 -> vout tx = o0 :: o :: os ->
  Solver (scriptPubKey o) = Some r -> ok r = true -> typeRet r = TX_PUBKEYHASH ->
  CheckBlockSignature XEVAN Verify b = Some false.
Proof.
  intros Hv Hc HV Ho Hr Hk Ht. unfold CheckBlockSignature, IsProofOfWork, IsProofOfStake, staked. rewrite Hv, Hc. cbn [negb].
  destruct (Z.geb_spec (nVersion (header b)) 5); [lia|]. rewrite Ho, Hr, Hk. cbn [negb]. rewrite Ht.
  assert (Hs : scriptPubKey o <> [Script.value Script.OP_ZEROCOINMINT]).
  { intros E. rewrite E in Hr. discriminate Hr. }
  destruct (Solver_shaped _ Hs) as (r' & Er & Hsh). rewrite Hr in Er. injection Er as <-. specialize (Hsh Hk). rewrite Ht in Hsh.
  destruct Hsh as (k & -> & HL). cbn [front]. assert (E : CPubKey k = Invalid).
  { unfold CPubKey. destruct k as [|x k]; [discriminate HL|]. unfold GetLen. rewrite HL. destruct (_ || _); [reflexivity|]. destruct (_ || _ || _); reflexivity. }
  now rewrite E.
Qed.

End Block.
