(* ===== verification/PartialMerkle.v ===== *)
(** Partial Merkle trees, which prove to a light client that transactions are
    in a block: [CPartialMerkleTree] of [src/src/merkleblock.h] and
    [merkleblock.cpp].

    The tree is never built: [CalcHash] computes a node from the leaves, the
    constructor emits one bit per visited node and a hash where it stops, and
    [ExtractMatches] replays them.  The nodes are those of [Merkle]. *)
From S2P Require Import Prelude SphTypes Bits Params Sha256 Merkle Serialize.

Module PartialMerkle.
Import Bits Merkle Sha256 Serialize.

#[local] Opaque Hash2.

Record CPartialMerkleTree : Type := mkTree { nTransactions : Z; vBits : list bool; vHash : list hash; fBad : bool }.

(** [CPartialMerkleTree()] *)
Definition CPartialMerkleTree_empty : CPartialMerkleTree := mkTree 0 [] [] true.

Definition CalcTreeWidth (nTransactions height : Z) : Z := T32 (nTransactions + (1 << height) - 1) >> height.

(** [while (CalcTreeWidth(nHeight) > 1) nHeight++;] an [int] shift ends at 31. *)
Fixpoint height_loop (fuel : nat) (nTransactions : Z) (nHeight : nat) : nat :=
  match fuel with
  | O => nHeight
  | S fuel => if CalcTreeWidth nTransactions (Z.of_nat nHeight) >? 1 then height_loop fuel nTransactions (S nHeight) else nHeight
  end.

Definition tree_height (nTransactions : Z) : nat := height_loop 31 nTransactions 0.

Section Tree.
Variable nTransactions : Z.

(** The right child is there. *)
Definition has_right (height : nat) (pos : Z) : bool := T32 (T32 (pos * 2) + 1) <? CalcTreeWidth nTransactions (Z.of_nat height).

Fixpoint CalcHash (height : nat) (pos : Z) (vTxid : list hash) : hash :=
  match height with
  | O => node vTxid (Z.to_nat pos)
  | S height =>
      let left := CalcHash height (T32 (pos * 2)) vTxid in
      let right := if has_right height pos then CalcHash height (T32 (T32 (pos * 2) + 1)) vTxid else left in
      Hash2 left right
  end.

(** [for (p = pos << height; p < (pos + 1) << height && p < nTransactions; p++)] *)
Definition first_leaf (height : nat) (pos : Z) : nat := Z.to_nat (T32 (pos << Z.of_nat height)).
Definition end_leaf (height : nat) (pos : Z) : nat := Z.to_nat (Z.min (T32 (T32 (pos + 1) << Z.of_nat height)) nTransactions).

Definition parent_of_match (height : nat) (pos : Z) (vMatch : list bool) : bool :=
  fold_left (fun f p => f || nth p vMatch false) (seq (first_leaf height pos) (end_leaf height pos - first_leaf height pos)) false.

Fixpoint TraverseAndBuild (height : nat) (pos : Z) (vTxid : list hash) (vMatch : list bool) (s : list bool * list hash)
  : list bool * list hash :=
  let '(vBits, vHash) := s in
  let fParentOfMatch := parent_of_match height pos vMatch in
  let vBits := vBits ++ [fParentOfMatch] in
  match height with
  | O => (vBits, vHash ++ [CalcHash 0 pos vTxid])
  | S h =>
      if negb fParentOfMatch then (vBits, vHash ++ [CalcHash height pos vTxid])
      else
        let s := TraverseAndBuild h (T32 (pos * 2)) vTxid vMatch (vBits, vHash) in
        if has_right h pos then TraverseAndBuild h (T32 (T32 (pos * 2) + 1)) vTxid vMatch s else s
  end.

(** The counters, the matches and [fBad]. *)
Record extraction : Type := mkExtraction { nBitsUsed : nat; nHashUsed : nat; vMatch : list hash; bad : bool }.

Definition spoil (s : extraction) : hash * extraction := (uint256_0, mkExtraction (nBitsUsed s) (nHashUsed s) (vMatch s) true).

(** The stored hash of a node that is not descended into. *)
Definition use_hash (height : nat) (fParentOfMatch : bool) (vHash : list hash) (s : extraction) : hash * extraction :=
  if (length vHash <=? nHashUsed s)%nat then spoil s
  else
    let h := node vHash (nHashUsed s) in
    (h, mkExtraction (nBitsUsed s) (S (nHashUsed s))
          (if (height =? 0)%nat && fParentOfMatch then vMatch s ++ [h] else vMatch s) (bad s)).

Fixpoint TraverseAndExtract (height : nat) (pos : Z) (vBits : list bool) (vHash : list hash) (s : extraction) : hash * extraction :=
  if (length vBits <=? nBitsUsed s)%nat then spoil s
  else
    let fParentOfMatch := nth (nBitsUsed s) vBits false in
    let s := mkExtraction (S (nBitsUsed s)) (nHashUsed s) (vMatch s) (bad s) in
    match height with
    | O => use_hash 0 fParentOfMatch vHash s
    | S h =>
        if negb fParentOfMatch then use_hash height fParentOfMatch vHash s
        else
          let '(hashL, s) := TraverseAndExtract h (T32 (pos * 2)) vBits vHash s in
          let '(hashR, s) :=
            if has_right h pos then TraverseAndExtract h (T32 (T32 (pos * 2) + 1)) vBits vHash s else (hashL, s) in
          (Hash2 hashL hashR, s)
    end.
End Tree.

Definition CPartialMerkleTree_new (vTxid : list hash) (vMatch : list bool) : CPartialMerkleTree :=
  let nTransactions := Z.of_nat (length vTxid) in
  let '(vBits, vHash) := TraverseAndBuild nTransactions (tree_height nTransactions) 0 vTxid vMatch ([], []) in
  mkTree nTransactions vBits vHash false.

(** The root, zero in case of failure, and the matches. *)
Definition ExtractMatches (t : CPartialMerkleTree) : hash * list hash :=
  if nTransactions t =? 0 then (uint256_0, [])
  else if nTransactions t >? Params.MAX_BLOCK_SIZE_CURRENT / 60 then (uint256_0, [])
  else if Z.of_nat (length (vHash t)) >? nTransactions t then (uint256_0, [])
  else if (length (vBits t) <? length (vHash t))%nat then (uint256_0, [])
  else
    let '(hashMerkleRoot, s) :=
      TraverseAndExtract (nTransactions t) (tree_height (nTransactions t)) 0 (vBits t) (vHash t) (mkExtraction 0 0 [] (fBad t)) in
    if bad s then (uint256_0, vMatch s)
    else if negb ((nBitsUsed s + 7) / 8 =? (length (vBits t) + 7) / 8)%nat then (uint256_0, vMatch s)
    else if negb (nHashUsed s =? length (vHash t))%nat then (uint256_0, vMatch s)
    else (hashMerkleRoot, vMatch s).

(** ** Serialization *)

Definition bits_to_bytes (vBits : list bool) : list Z :=
  fold_left (fun v p => or_at v (p / 8) (Z.b2z (nth p vBits false) << Z.of_nat (p mod 8)))
    (seq 0 (length vBits)) (repeat 0 ((length vBits + 7) / 8)).

Definition bytes_to_bits (vBytes : list Z) : list bool :=
  map (test_bit vBytes) (seq 0 (8 * length vBytes)).

Definition CPartialMerkleTree_format : format CPartialMerkleTree :=
  wrap_format (pair_format uint32_format (pair_format (vector_format (flat_format 32)) bytes_format))
    (fun t => (nTransactions t, (vHash t, bits_to_bytes (vBits t))))
    (fun '(n, (h, b)) => mkTree n (bytes_to_bits b) h false).

(** * The levels below the root *)

Fixpoint lev (h : nat) (l : list hash) : list hash := match h with O => l | S h => above (lev h l) end.

Lemma lev_above h l : lev h (above l) = lev (S h) l.
Proof. induction h as [|h IH]; [reflexivity|]. cbn [lev]. now rewrite IH. Qed.

Lemma lev_length h l : Z.of_nat (length (lev h l)) = (Z.of_nat (length l) + 2 ^ Z.of_nat h - 1) / 2 ^ Z.of_nat h.
Proof.
  induction h as [|h IH].
  - cbn [lev]. change (2 ^ Z.of_nat 0) with 1. rewrite Z.div_1_r. lia.
  - cbn [lev]. rewrite above_length, Nat2Z.inj_div, Nat2Z.inj_add, IH. change (Z.of_nat 2) with 2. change (Z.of_nat 1) with 1.
    rewrite Nat2Z.inj_succ, Z.pow_succ_r by lia. set (p := 2 ^ Z.of_nat h). assert (0 < p) by (apply Z.pow_pos_nonneg; lia).
    replace (2 * p) with (p * 2) by ring. rewrite <- Z.div_div by lia. f_equal.
    replace (Z.of_nat (length l) + p * 2 - 1) with (Z.of_nat (length l) + p - 1 + 1 * p) by ring. now rewrite Z.div_add by lia.
Qed.

Lemma merkle_root_lev h l : (forall j, (j < h)%nat -> (1 < length (lev j l))%nat) -> merkle_root l = merkle_root (lev h l).
Proof.
  induction h as [|h IH]; intros H; [reflexivity|]. rewrite IH by (intros j Hj; apply H; lia).
  cbn [lev]. apply merkle_root_above. apply H. lia.
Qed.

Lemma lev_in_levels h : forall l, (forall j, (j < h)%nat -> (1 < length (lev j l))%nat) -> In (lev h l) (all_levels l).
Proof.
  induction h as [|h IH]; intros l H.
  - cbn [lev]. unfold all_levels. cbn [levels]. destruct (_ <=? _)%nat; now left.
  - rewrite all_levels_cons by (apply (H 0%nat); lia). right. rewrite <- lev_above. apply IH.
    intros j Hj. rewrite lev_above. apply H. lia.
Qed.

(** ** The width of a level, and the leaves under a node *)

Lemma pow_le h : (h <= 30)%nat -> 0 < 2 ^ Z.of_nat h <= 2 ^ 30.
Proof. intros Hh. split; [apply Z.pow_pos_nonneg; lia | apply Z.pow_le_mono_r; lia]. Qed.

Lemma pow2_nat h : Z.of_nat (2 ^ h) = 2 ^ Z.of_nat h.
Proof. now rewrite Nat2Z.inj_pow. Qed.

Lemma or_fold f ps b : fold_left (fun acc (p : nat) => acc || f p) ps b = b || existsb f ps.
Proof. revert b. induction ps as [|p ps IH]; intros b; cbn; [now rewrite orb_false_r|]. now rewrite IH, orb_assoc. Qed.

Section Shape.
Variable l : list hash.
Abbreviation n := (length l).
Hypothesis Hn : (0 < n)%nat /\ Z.of_nat n <= 2 ^ 30.

Abbreviation wd h := (length (lev h l)).
Abbreviation N := (Z.of_nat (length l)).

Lemma width_eq h : (h <= 30)%nat -> CalcTreeWidth N (Z.of_nat h) = Z.of_nat (wd h).
Proof using Hn.
  intros Hh. pose proof (pow_le h Hh). unfold CalcTreeWidth. rewrite Z.shiftl_1_l, T32_id by (unfold u32; lia).
  rewrite Z.shiftr_div_pow2 by lia. now rewrite lev_length.
Qed.

(** A node is there when its first leaf is. *)
Lemma node_leaf h pos : (h <= 30)%nat -> (pos < wd h)%nat <-> Z.of_nat pos * 2 ^ Z.of_nat h < N.
Proof using Hn.
  intros Hh. pose proof (pow_le h Hh). pose proof (lev_length h l) as E. fold n in E.
  set (p := 2 ^ Z.of_nat h) in *. pose proof (Z.div_mod (N + p - 1) p ltac:(lia)). pose proof (Z.mod_pos_bound (N + p - 1) p ltac:(lia)).
  set (q := (N + p - 1) / p) in *. split; intros Hx; nia.
Qed.

Lemma wd_pos h : (h <= 30)%nat -> (0 < wd h)%nat.
Proof using Hn. intros Hh. apply (node_leaf h 0 Hh). lia. Qed.

Lemma width_bound h : (h <= 30)%nat -> Z.of_nat (wd h) <= 2 ^ 30.
Proof using Hn.
  intros Hh. pose proof (pow_le h Hh). rewrite lev_length. fold n. set (p := 2 ^ Z.of_nat h) in *.
  apply (Z.le_trans _ N); [|lia]. apply Z.lt_succ_r. apply Z.div_lt_upper_bound; nia.
Qed.

Lemma child_bound h pos : (h < 30)%nat -> (pos < wd (S h))%nat -> (2 * pos < wd h)%nat.
Proof using Hn. intros Hh Hp. cbn [lev] in Hp. rewrite above_length in Hp. pose proof (Nat.div_mod (wd h + 1) 2 ltac:(lia)). lia. Qed.

Lemma left_pos h pos : (h < 30)%nat -> (pos < wd (S h))%nat -> T32 (Z.of_nat pos * 2) = Z.of_nat (2 * pos).
Proof using Hn.
  intros Hh Hp. pose proof (child_bound h pos Hh Hp). pose proof (width_bound h ltac:(lia)). rewrite T32_id by (unfold u32; lia). lia.
Qed.

Lemma right_pos h pos : (h < 30)%nat -> (pos < wd (S h))%nat -> T32 (T32 (Z.of_nat pos * 2) + 1) = Z.of_nat (2 * pos + 1).
Proof using Hn.
  intros Hh Hp. rewrite (left_pos h pos Hh Hp). pose proof (child_bound h pos Hh Hp). pose proof (width_bound h ltac:(lia)).
  rewrite T32_id by (unfold u32; lia). lia.
Qed.

Lemma has_right_eq h pos : (h < 30)%nat -> (pos < wd (S h))%nat -> has_right N h (Z.of_nat pos) = (2 * pos + 1 <? wd h)%nat.
Proof using Hn.
  intros Hh Hp. unfold has_right. rewrite (right_pos h pos Hh Hp), width_eq by lia.
  destruct (Z.ltb_spec (Z.of_nat (2 * pos + 1)) (Z.of_nat (wd h))), (Nat.ltb_spec (2 * pos + 1) (wd h)); lia.
Qed.

Definition right_child (h pos : nat) : nat := if (2 * pos + 1 <? wd h)%nat then (2 * pos + 1)%nat else (2 * pos)%nat.

Lemma node_S h pos : (h < 30)%nat -> (pos < wd (S h))%nat ->
  node (lev (S h) l) pos = Hash2 (node (lev h l) (2 * pos)) (node (lev h l) (right_child h pos)).
Proof using Hn.
  intros Hh Hp. pose proof (child_bound h pos Hh Hp). cbn [lev]. rewrite above_node by lia. do 2 f_equal. unfold right_child.
  destruct (Nat.ltb_spec (2 * pos + 1) (wd h)); lia.
Qed.

Lemma CalcHash_node h : forall pos, (h <= 30)%nat -> (pos < wd h)%nat -> CalcHash N h (Z.of_nat pos) l = node (lev h l) pos.
Proof using Hn.
  induction h as [|h IH]; intros pos Hh Hp; [cbn; now rewrite Nat2Z.id|].
  cbn [CalcHash]. rewrite (right_pos h pos), (left_pos h pos), (has_right_eq h pos), node_S by lia.
  pose proof (child_bound h pos ltac:(lia) Hp). rewrite !IH by lia. unfold right_child.
  destruct (Nat.ltb_spec (2 * pos + 1) (wd h)); [now rewrite IH by lia | reflexivity].
Qed.

(** The leaves under a node. *)
Definition leaves (h pos : nat) : list nat := seq (pos * 2 ^ h) (Nat.min ((pos + 1) * 2 ^ h) n - pos * 2 ^ h).

Lemma leaf_lt h pos : (h <= 30)%nat -> (pos < wd h)%nat <-> (pos * 2 ^ h < n)%nat.
Proof using Hn. intros Hh. rewrite (node_leaf h pos Hh), <- pow2_nat. lia. Qed.

Lemma leaves_0 pos : (pos < n)%nat -> leaves 0 pos = [pos].
Proof using Hn. intros Hp. unfold leaves. cbn [Nat.pow]. replace (Nat.min ((pos + 1) * 1) n - pos * 1)%nat with 1%nat by lia. cbn. f_equal. lia. Qed.

Lemma leaves_S h pos : (h < 30)%nat -> (pos < wd (S h))%nat ->
  leaves (S h) pos = leaves h (2 * pos) ++ (if (2 * pos + 1 <? wd h)%nat then leaves h (2 * pos + 1) else []).
Proof using Hn.
  intros Hh Hp. pose proof (child_bound h pos Hh Hp) as Hc. apply leaf_lt in Hc; [|lia]. unfold leaves. rewrite Nat.pow_succ_r'. set (p := (2 ^ h)%nat) in *.
  assert (E : forall a b c, (a <= b)%nat -> seq c (Nat.min b n - c) = seq c (Nat.min a n - c) ++ seq (Nat.max c (Nat.min a n)) (Nat.min b n - Nat.max c (Nat.min a n))).
  { intros a b c Hab. replace (Nat.min b n - c)%nat with ((Nat.min a n - c) + (Nat.min b n - Nat.max c (Nat.min a n)))%nat by lia.
    rewrite seq_app. do 2 f_equal; lia. }
  replace (pos * (2 * p))%nat with (2 * pos * p)%nat by lia. replace ((pos + 1) * (2 * p))%nat with ((2 * pos + 1 + 1) * p)%nat by lia.
  rewrite (E ((2 * pos + 1) * p)%nat) by nia. f_equal.
  destruct (Nat.ltb_spec (2 * pos + 1) (wd h)) as [Hr|Hr].
  - apply leaf_lt in Hr; [|lia]. fold p in Hr. f_equal; nia.
  - assert (Hge : (n <= (2 * pos + 1) * p)%nat).
    { destruct (Nat.lt_ge_cases ((2 * pos + 1) * p) n) as [Hlt|]; [|assumption]. apply leaf_lt in Hlt; lia. }
    replace (Nat.min ((2 * pos + 1 + 1) * p) n - Nat.max (2 * pos * p) (Nat.min ((2 * pos + 1) * p) n))%nat with 0%nat by nia. reflexivity.
Qed.

Lemma parent_of_match_eq h pos m : (h <= 30)%nat -> (pos < wd h)%nat ->
  parent_of_match N h (Z.of_nat pos) m = existsb (fun p => nth p m false) (leaves h pos).
Proof using Hn.
  intros Hh Hp. pose proof (pow_le h Hh). pose proof (proj1 (node_leaf h pos Hh) Hp).
  assert (F : first_leaf h (Z.of_nat pos) = (pos * 2 ^ h)%nat).
  { unfold first_leaf. rewrite Z.shiftl_mul_pow2, T32_id by (unfold u32; lia). rewrite <- pow2_nat. lia. }
  assert (G : end_leaf N h (Z.of_nat pos) = Nat.min ((pos + 1) * 2 ^ h) n).
  { pose proof (width_bound h Hh). unfold end_leaf. rewrite (T32_id (Z.of_nat pos + 1)) by (unfold u32; lia).
    rewrite Z.shiftl_mul_pow2, T32_id by (unfold u32; lia). rewrite <- pow2_nat. lia. }
  unfold parent_of_match. rewrite or_fold, F, G. reflexivity.
Qed.
End Shape.

(** * Building and extracting *)

Section Replay.
Variable l : list hash.
Variable m : list bool.
Abbreviation n := (length l).
Hypothesis Hn : (0 < n)%nat /\ Z.of_nat n <= 2 ^ 30.

Abbreviation wd h := (length (lev h l)).
Abbreviation N := (Z.of_nat (length l)).

(** The matched ones of some leaves. *)
Definition selected (ps : list nat) : list hash := flat_map (fun p => if nth p m false then [node l p] else []) ps.

Lemma selected_none ps : existsb (fun p => nth p m false) ps = false -> selected ps = [].
Proof using.
  induction ps as [|p ps IH]; cbn; [reflexivity|]. destruct (nth p m false); [discriminate | exact IH].
Qed.

Lemma selected_app ps qs : selected (ps ++ qs) = selected ps ++ selected qs.
Proof using. apply flat_map_app. Qed.

(** The bits and hashes [B], [H] emitted for a node make the extraction find
    the hash of the node and the matches under it. *)
Definition replays (h pos : nat) (B : list bool) (H : list hash) : Prop :=
  forall bits0 bits1 hs0 hs1 ms bd,
    TraverseAndExtract N h (Z.of_nat pos) (bits0 ++ B ++ bits1) (hs0 ++ H ++ hs1) (mkExtraction (length bits0) (length hs0) ms bd)
    = (node (lev h l) pos,
       mkExtraction (length bits0 + length B) (length hs0 + length H) (ms ++ selected (leaves l h pos)) bd).

Lemma extraction_eq (x : hash) b b' h h' ms ms' bd : b = b' -> h = h' -> ms = ms' ->
  (x, mkExtraction b h ms bd) = (x, mkExtraction b' h' ms' bd).
Proof using. now intros -> -> ->. Qed.

Lemma nth_mid {A} (a : list A) x b d : nth (length a) (a ++ [x] ++ b) d = x.
Proof using. apply nth_middle. Qed.

Lemma node_mid a x b : node (a ++ [x] ++ b) (length a) = x.
Proof using. apply nth_middle. Qed.

Lemma replays_stop h pos f : (h <= 30)%nat -> (pos < wd h)%nat -> f = existsb (fun p => nth p m false) (leaves l h pos) ->
  (h = 0%nat \/ f = false) -> replays h pos [f] [node (lev h l) pos].
Proof using Hn.
  intros Hh Hp Hf Hs bits0 bits1 hs0 hs1 ms bd.
  assert (U : use_hash h f (hs0 ++ [node (lev h l) pos] ++ hs1) (mkExtraction (S (length bits0)) (length hs0) ms bd)
    = (node (lev h l) pos, mkExtraction (length bits0 + 1) (length hs0 + 1) (ms ++ selected (leaves l h pos)) bd)).
  { unfold use_hash. cbn [nHashUsed nBitsUsed vMatch bad]. rewrite !length_app. cbn [length].
    destruct (Nat.leb_spec (length hs0 + (1 + length hs1)) (length hs0)); [lia|]. rewrite !node_mid.
    f_equal. f_equal; [lia..|]. destruct f.
    - destruct Hs as [->|]; [|discriminate]. cbn [Nat.eqb andb]. rewrite leaves_0 by assumption. rewrite leaves_0 in Hf by assumption.
      unfold selected. cbn [flat_map existsb] in *. rewrite orb_false_r in Hf. now rewrite <- Hf.
    - rewrite andb_false_r, selected_none by now symmetry. now rewrite app_nil_r. }
  destruct h as [|h]; cbn [TraverseAndExtract nBitsUsed nHashUsed vMatch bad]; rewrite !length_app; cbn [length];
    (destruct (Nat.leb_spec (length bits0 + (1 + length bits1)) (length bits0)); [lia|]); rewrite nth_mid.
  - exact U.
  - destruct Hs as [|Hs]; [discriminate|]. subst f. rewrite Hs in *. exact U.
Qed.

Lemma replays_step h pos B1 H1 B2 H2 : (h < 30)%nat -> (pos < wd (S h))%nat ->
  replays h (2 * pos) B1 H1 ->
  (if (2 * pos + 1 <? wd h)%nat then replays h (2 * pos + 1) B2 H2 else B2 = [] /\ H2 = []) ->
  replays (S h) pos (true :: B1 ++ B2) (H1 ++ H2).
Proof using Hn.
  intros Hh Hp R1 R2 bits0 bits1 hs0 hs1 ms bd. cbn [TraverseAndExtract nBitsUsed nHashUsed vMatch bad].
  rewrite length_app. cbn [length app]. destruct (Nat.leb_spec (length bits0 + S (length ((B1 ++ B2) ++ bits1))) (length bits0)); [lia|].
  rewrite nth_middle. cbn [negb]. rewrite (right_pos l Hn h pos), (left_pos l Hn h pos), (has_right_eq l Hn h pos) by assumption.
  replace (bits0 ++ true :: (B1 ++ B2) ++ bits1) with ((bits0 ++ [true]) ++ B1 ++ (B2 ++ bits1)) by (rewrite <- !app_assoc; reflexivity).
  replace (S (length bits0)) with (length (bits0 ++ [true])) by (rewrite length_app; cbn; lia).
  rewrite <- (app_assoc H1 H2 hs1). rewrite R1. rewrite (node_S l Hn h pos), (leaves_S l Hn h pos), selected_app by assumption. unfold right_child.
  destruct (Nat.ltb_spec (2 * pos + 1) (wd h)).
  - replace ((bits0 ++ [true]) ++ B1 ++ (B2 ++ bits1)) with (((bits0 ++ [true]) ++ B1) ++ B2 ++ bits1) by (now rewrite <- !app_assoc).
    rewrite (app_assoc hs0 H1 (H2 ++ hs1)).
    replace (length (bits0 ++ [true]) + length B1)%nat with (length ((bits0 ++ [true]) ++ B1)) by now rewrite length_app.
    replace (length hs0 + length H1)%nat with (length (hs0 ++ H1)) by now rewrite length_app.
    rewrite R2. apply extraction_eq; [rewrite !length_app; cbn [length]; lia.. | now rewrite <- app_assoc].
  - destruct R2 as [-> ->]. rewrite !app_nil_r. apply extraction_eq; [rewrite ?length_app; cbn [length]; lia.. | reflexivity].
Qed.

Lemma TraverseAndBuild_replays h : forall pos, (h <= 30)%nat -> (pos < wd h)%nat ->
  exists B H, (forall bits hs, TraverseAndBuild N h (Z.of_nat pos) l m (bits, hs) = (bits ++ B, hs ++ H)) /\
    (length H <= length (leaves l h pos))%nat /\ (length H <= length B)%nat /\ replays h pos B H.
Proof using Hn.
  induction h as [|h IH]; intros pos Hh Hp.
  - exists [existsb (fun p => nth p m false) (leaves l 0 pos)], [node (lev 0 l) pos]. split; [|split; [|split]].
    + intros bits hs. cbn [TraverseAndBuild]. rewrite parent_of_match_eq, (CalcHash_node l Hn 0 pos) by assumption. reflexivity.
    + rewrite leaves_0 by assumption. reflexivity.
    + reflexivity.
    + apply replays_stop; [lia | assumption | reflexivity | now left].
  - pose proof (parent_of_match_eq l Hn (S h) pos m Hh Hp) as HP. set (f := existsb _ _) in HP. destruct f eqn:Ef.
    + destruct (IH (2 * pos)%nat) as (B1 & H1 & E1 & L1 & M1 & R1); [lia|now apply child_bound|].
      assert (R : exists B2 H2, (forall s, (if (2 * pos + 1 <? wd h)%nat then TraverseAndBuild N h (Z.of_nat (2 * pos + 1)) l m s else s)
            = (fst s ++ B2, snd s ++ H2)) /\
          (length H2 <= length (if (2 * pos + 1 <? wd h)%nat then leaves l h (2 * pos + 1) else []))%nat /\ (length H2 <= length B2)%nat /\
          (if (2 * pos + 1 <? wd h)%nat then replays h (2 * pos + 1) B2 H2 else B2 = [] /\ H2 = [])).
      { destruct (Nat.ltb_spec (2 * pos + 1) (wd h)) as [Hr|Hr].
        - destruct (IH (2 * pos + 1)%nat) as (B2 & H2 & E2 & L2 & M2 & R2); [lia|assumption|]. exists B2, H2.
          split; [intros [b hs]; apply E2 | tauto].
        - exists [], []. split; [intros [b hs]; cbn; now rewrite !app_nil_r | cbn; auto]. }
      destruct R as (B2 & H2 & E2 & L2 & M2 & R2). exists (true :: B1 ++ B2), (H1 ++ H2). split; [|split; [|split]].
      * intros bits hs. cbn [TraverseAndBuild]. rewrite HP. cbn [negb].
        rewrite (right_pos l Hn h pos), (left_pos l Hn h pos), (has_right_eq l Hn h pos), E1, E2 by (assumption || lia). cbn [fst snd].
        rewrite <- !app_assoc. reflexivity.
      * rewrite (leaves_S l Hn h pos), !length_app by (assumption || lia). lia.
      * cbn [length]. rewrite !length_app. lia.
      * apply replays_step; [lia | assumption..].
    + exists [false], [node (lev (S h) l) pos]. split; [|split; [|split]].
      * intros bits hs. cbn [TraverseAndBuild]. rewrite HP. cbn [negb]. rewrite CalcHash_node by assumption. reflexivity.
      * unfold leaves. rewrite length_seq. pose proof (proj1 (leaf_lt l Hn (S h) pos Hh) Hp). pose proof (Nat.pow_nonzero 2 (S h) ltac:(lia)). cbn [length]. fold n. nia.
      * reflexivity.
      * apply replays_stop; [lia | assumption | now symmetry | now right].
Qed.

(** ** The height of the tree *)

Lemma height_loop_spec fuel : forall k, (k + fuel = 31)%nat -> (k <= 30)%nat -> (forall j, (j < k)%nat -> (1 < wd j)%nat) ->
  let r := height_loop fuel N k in (r <= 30)%nat /\ wd r = 1%nat /\ forall j, (j < r)%nat -> (1 < wd j)%nat.
Proof using Hn.
  induction fuel as [|fuel IH]; intros k Hk Hk30 Hj; [lia|]. cbn [height_loop]. rewrite (width_eq l Hn k Hk30).
  destruct (Z.gtb_spec (Z.of_nat (wd k)) 1) as [Hgt|Hle].
  - assert (k < 30)%nat.
    { destruct (Nat.eq_dec k 30) as [->|]; [|lia]. exfalso.
      assert (W : (wd 30 <= 1)%nat); [|lia]. apply Nat.nlt_ge. intros Hlt. apply (node_leaf l Hn 30 1) in Hlt; [|lia]. fold n in Hlt.
      change (2 ^ Z.of_nat 30) with (2 ^ 30) in Hlt. lia. }
    apply IH; [lia|lia|]. intros j Hlt. destruct (Nat.eq_dec j k) as [->|]; [lia | apply Hj; lia].
  - split; [exact Hk30|]. split; [pose proof (wd_pos l Hn k Hk30); lia | exact Hj].
Qed.

Lemma tree_height_spec : (tree_height N <= 30)%nat /\ wd (tree_height N) = 1%nat /\ forall j, (j < tree_height N)%nat -> (1 < wd j)%nat.
Proof using Hn. apply height_loop_spec; lia. Qed.

Lemma root_node : node (lev (tree_height N) l) 0 = merkle_root l.
Proof using Hn.
  destruct tree_height_spec as (_ & H1 & Hj). rewrite (merkle_root_lev _ l Hj). unfold merkle_root. rewrite all_levels_nil by lia.
  destruct (lev _ l) as [|x [|? ?]]; try discriminate H1. reflexivity.
Qed.

Lemma all_leaves : leaves l (tree_height N) 0 = seq 0 n.
Proof using Hn.
  destruct tree_height_spec as (H30 & H1 & _). unfold leaves. cbn [Nat.mul]. fold n. f_equal.
  assert (n <= 2 ^ tree_height N)%nat; [|lia]. apply Nat.nlt_ge. intros Hlt.
  assert (W : (1 < wd (tree_height N))%nat) by (apply (leaf_lt l Hn); [exact H30 | fold n; lia]). lia.
Qed.
End Replay.

(** The transactions that match, in the order of the block. *)
Definition matching (vTxid : list hash) (vMatch : list bool) : list hash := map fst (filter snd (combine vTxid vMatch)).

Lemma selected_matching l : forall m, length m = length l -> selected l m (seq 0 (length l)) = matching l m.
Proof.
  induction l as [|x l IH]; intros [|b m] H; try discriminate H; [reflexivity|].
  unfold selected, matching. cbn [length seq flat_map combine filter map nth node].
  rewrite <- seq_shift, flat_map_concat_map, map_map, <- flat_map_concat_map. unfold selected, node in IH. cbn [nth].
  cbn in H. specialize (IH m (f_equal pred H)). cbn [snd]. destruct b; cbn [app map fst]; [f_equal|]; apply IH.
Qed.

(** What the constructor builds is read back, with padding bits at the end
    that make up no whole byte. *)
Lemma extract_built vTxid vMatch pad :
  (0 < length vTxid)%nat -> Z.of_nat (length vTxid) <= Params.MAX_BLOCK_SIZE_CURRENT / 60 -> length vMatch = length vTxid ->
  let t := CPartialMerkleTree_new vTxid vMatch in
  ((length (vBits t) + pad + 7) / 8 = (length (vBits t) + 7) / 8)%nat ->
  ExtractMatches (mkTree (nTransactions t) (vBits t ++ repeat false pad) (vHash t) false) = (merkle_root vTxid, matching vTxid vMatch).
Proof.
  intros H0 Hmax Hm t. subst t. assert (Hn : (0 < length vTxid)%nat /\ Z.of_nat (length vTxid) <= 2 ^ 30).
  { split; [assumption|]. eapply Z.le_trans; [exact Hmax|]. now vm_compute. }
  destruct (tree_height_spec vTxid Hn) as (H30 & Hw & _). unfold CPartialMerkleTree_new.
  destruct (TraverseAndBuild_replays vTxid vMatch Hn (tree_height (Z.of_nat (length vTxid))) 0 H30 ltac:(lia)) as (B & H & E & L1 & L2 & R).
  change (Z.of_nat 0) with 0 in E. rewrite E. cbn [app vBits vHash nTransactions]. intros Hpad. rewrite (all_leaves vTxid Hn), length_seq in L1.
  unfold ExtractMatches. cbn [vBits vHash nTransactions fBad]. rewrite length_app, repeat_length.
  destruct (Z.eqb_spec (Z.of_nat (length vTxid)) 0); [lia|]. destruct (Z.gtb_spec (Z.of_nat (length vTxid)) (Params.MAX_BLOCK_SIZE_CURRENT / 60)); [lia|].
  destruct (Z.gtb_spec (Z.of_nat (length H)) (Z.of_nat (length vTxid))); [lia|]. destruct (Nat.ltb_spec (length B + pad) (length H)); [lia|].
  specialize (R [] (repeat false pad) [] [] [] false). cbn [app length] in R. rewrite app_nil_r in R. change (Z.of_nat 0) with 0 in R. rewrite R.
  cbn [bad nBitsUsed nHashUsed PartialMerkle.vMatch Nat.add app]. rewrite Hpad, !Nat.eqb_refl. cbn [negb].
  now rewrite (root_node vTxid Hn), (all_leaves vTxid Hn), selected_matching.
Qed.

(** * What a root proves *)

Lemma sha256_u8 msg : Forall u8 (Fips.sha256 msg).
Proof.
  unfold Fips.sha256. apply Forall_flat_map, Forall_forall. intros x _. unfold sph_enc32be. repeat constructor; apply T8_u8.
Qed.

Lemma Hash2_flat a b : length a = 32%nat -> length b = 32%nat -> flat 32 (Hash2 a b).
Proof.
  intros Ha Hb. pose proof (sha256_Write_absorbed [] a _ (sha256_absorbed_init (repeat 0 64) eq_refl)) as A.
  pose proof (sha256_Write_absorbed _ b _ A) as B. cbn [app] in B.
  change (Hash2 a b) with (CHash256_Finalize (Write (Write CSHA256_init a) b)).
  rewrite (CHash256_digest _ (Write (Write CSHA256_init a) b) B) by (rewrite length_app, Ha, Hb; now vm_compute).
  split; [apply sha256_length | apply sha256_u8].
Qed.

Lemma Hash2_length a b : length a = 32%nat -> length b = 32%nat -> length (Hash2 a b) = 32%nat.
Proof. apply Hash2_flat. Qed.

(** The pairs hashed on the way to a root: siblings of a level, a last one
    that is alone being its own sibling, below the root of the tree. *)
Fixpoint siblings (l : list hash) : list (hash * hash) :=
  match l with
  | a :: b :: r => (a, b) :: siblings r
  | [a] => [(a, a)]
  | [] => []
  end.

Definition tree_pairs (l : list hash) : list (hash * hash) :=
  flat_map (fun h => siblings (lev h l)) (seq 0 (tree_height (Z.of_nat (length l)))).

(** The pairs [TraverseAndExtract] hashes. *)
Fixpoint hashed (n : Z) (height : nat) (pos : Z) (vBits : list bool) (vHash : list hash) (s : extraction) : list (hash * hash) :=
  if (length vBits <=? nBitsUsed s)%nat then []
  else
    let fParentOfMatch := nth (nBitsUsed s) vBits false in
    let s := mkExtraction (S (nBitsUsed s)) (nHashUsed s) (vMatch s) (bad s) in
    match height with
    | O => []
    | S h =>
        if negb fParentOfMatch then []
        else
          let '(hashL, s1) := TraverseAndExtract n h (T32 (pos * 2)) vBits vHash s in
          let below := hashed n h (T32 (pos * 2)) vBits vHash s in
          if has_right n h pos then
            (hashL, fst (TraverseAndExtract n h (T32 (T32 (pos * 2) + 1)) vBits vHash s1)) ::
              below ++ hashed n h (T32 (T32 (pos * 2) + 1)) vBits vHash s1
          else (hashL, hashL) :: below
    end.

Definition peer_pairs (t : CPartialMerkleTree) : list (hash * hash) :=
  hashed (nTransactions t) (tree_height (nTransactions t)) 0 (vBits t) (vHash t) (mkExtraction 0 0 [] (fBad t)).

(** Two different strings of 64 bytes, one of each list, with the same
    double SHA-256. *)
Definition collides (P Q : list (hash * hash)) : Prop :=
  exists a b c d, In (a, b) P /\ In (c, d) Q /\ length (a ++ b) = 64%nat /\ length (c ++ d) = 64%nat /\
    a ++ b <> c ++ d /\ Hash2 a b = Hash2 c d.

Lemma collides_incl P P' Q : incl P P' -> collides P Q -> collides P' Q.
Proof. intros Hi (a & b & c & d & H & R). exists a, b, c, d. split; [now apply Hi | exact R]. Qed.

Lemma pairs_collide a b c d P Q : In (a, b) P -> In (c, d) Q ->
  length a = 32%nat -> length b = 32%nat -> length c = 32%nat -> length d = 32%nat -> Hash2 a b = Hash2 c d ->
  collides P Q \/ (a = c /\ b = d).
Proof.
  intros HP HQ La Lb Lc Ld E.
  destruct (hash_dec a c) as [Ea|Ea]; [destruct (hash_dec b d) as [Eb|Eb]; [right; split; assumption|]|]; left; exists a, b, c, d;
    rewrite !length_app, La, Lb, Lc, Ld; repeat (split; [assumption || reflexivity|]); (split; [|assumption]); intros X.
  - rewrite Ea in X. now apply app_inv_head in X.
  - apply (f_equal (firstn 32)) in X. rewrite !firstn_app, La, Lc, !Nat.sub_diag, !firstn_O, !app_nil_r in X.
    rewrite <- La in X at 1. rewrite <- Lc in X. now rewrite !firstn_all in X.
Qed.

Lemma above_siblings m v : In v (above m) -> exists c d, In (c, d) (siblings m) /\ v = Hash2 c d /\ In c m /\ In d m.
Proof.
  revert v. enough (H : forall k m, (length m <= k)%nat -> forall v, In v (above m) ->
    exists c d, In (c, d) (siblings m) /\ v = Hash2 c d /\ In c m /\ In d m) by (apply (H (length m)); lia).
  intros k. induction k as [|k IH]; intros [|a [|b r]] Hk v; cbn [above siblings length] in *; try lia; intros Hv; try destruct Hv.
  - exists a, a. subst v. cbn. tauto.
  - contradiction.
  - exists a, b. subst v. cbn. tauto.
  - destruct (IH r ltac:(lia) v H) as (c & d & H1 & H2 & H3 & H4). exists c, d. cbn. tauto.
Qed.

Lemma lev_lengths l h : Forall (fun x => length x = 32%nat) l -> Forall (fun x => length x = 32%nat) (lev h l).
Proof.
  intros Hl. induction h as [|h IH]; [exact Hl|]. cbn [lev]. apply Forall_forall. intros v Hv.
  apply above_siblings in Hv as (c & d & _ & -> & Hc & Hd). rewrite Forall_forall in IH. apply Hash2_length; auto.
Qed.

Section Sound.
Variables (vBits : list bool) (vHash : list hash).
Hypothesis H32 : Forall (fun h => length h = 32%nat) vHash.

Lemma use_hash_length h f s : length (fst (use_hash h f vHash s)) = 32%nat.
Proof using H32.
  unfold use_hash. destruct (Nat.leb_spec (length vHash) (nHashUsed s)); [reflexivity|]. cbn [fst].
  rewrite Forall_forall in H32. apply H32, nth_In. assumption.
Qed.

Lemma use_hash_bad h f s : bad (snd (use_hash h f vHash s)) = false -> bad s = false.
Proof using. unfold use_hash. destruct (_ <=? _)%nat; [discriminate | auto]. Qed.

Lemma extract_length n h : forall pos s, length (fst (TraverseAndExtract n h pos vBits vHash s)) = 32%nat.
Proof using H32.
  induction h as [|h IH]; intros pos s; cbn [TraverseAndExtract]; destruct (_ <=? _)%nat; try reflexivity; [apply use_hash_length|].
  destruct (negb _); [apply use_hash_length|].
  set (s0 := mkExtraction _ _ _ _). pose proof (IH (T32 (pos * 2)) s0) as L1.
  destruct (TraverseAndExtract _ _ (T32 (pos * 2)) _ _ _) as [hL s1]. cbn [fst] in L1. destruct (has_right n h pos); [|now apply Hash2_length].
  pose proof (IH (T32 (T32 (pos * 2) + 1)) s1) as L2. destruct (TraverseAndExtract _ _ (T32 (T32 _ + 1)) _ _ _) as [hR s2].
  now apply Hash2_length.
Qed.

Lemma extract_bad n h : forall pos s, bad (snd (TraverseAndExtract n h pos vBits vHash s)) = false -> bad s = false.
Proof using.
  induction h as [|h IH]; intros pos s; cbn [TraverseAndExtract]; destruct (_ <=? _)%nat; try discriminate.
  - intros H. now apply use_hash_bad in H.
  - destruct (negb _); [intros H; now apply use_hash_bad in H|].
    set (s0 := mkExtraction _ _ _ _). pose proof (IH (T32 (pos * 2)) s0) as I1. change (bad s) with (bad s0).
    destruct (TraverseAndExtract _ _ (T32 (pos * 2)) _ _ _) as [hL s1]. cbn [snd] in I1. destruct (has_right n h pos); [|exact I1].
    pose proof (IH (T32 (T32 (pos * 2) + 1)) s1) as I2. destruct (TraverseAndExtract _ _ (T32 (T32 _ + 1)) _ _ _) as [hR s2].
    cbn [snd] in *. tauto.
Qed.

Variable n : Z.

(** One turn: the tree stops here with a stored hash, or two subtrees are
    traversed (or one) and their hashes combined. *)
Lemma extract_cases h pos s :
  match TraverseAndExtract n (S h) pos vBits vHash s with
  | (x, s') =>
      bad s' = false ->
      vMatch s' = vMatch s \/
      exists s0 hL s1 hR, vMatch s0 = vMatch s /\ TraverseAndExtract n h (T32 (pos * 2)) vBits vHash s0 = (hL, s1) /\ bad s1 = false /\
        In (hL, hR) (hashed n (S h) pos vBits vHash s) /\ incl (hashed n h (T32 (pos * 2)) vBits vHash s0) (hashed n (S h) pos vBits vHash s) /\
        x = Hash2 hL hR /\ length hL = 32%nat /\ length hR = 32%nat /\
        ((hR = hL /\ s' = s1) \/
         TraverseAndExtract n h (T32 (T32 (pos * 2) + 1)) vBits vHash s1 = (hR, s') /\
         incl (hashed n h (T32 (T32 (pos * 2) + 1)) vBits vHash s1) (hashed n (S h) pos vBits vHash s))
  end.
Proof using H32.
  cbn [TraverseAndExtract hashed]. destruct (_ <=? _)%nat; [discriminate|].
  set (s0 := mkExtraction _ _ _ _). destruct (negb _).
  { unfold use_hash. destruct (_ <=? _)%nat; [discriminate|]. left. reflexivity. }
  pose proof (extract_length n h (T32 (pos * 2)) s0) as L1. destruct (TraverseAndExtract _ _ (T32 (pos * 2)) _ _ _) as [hL s1] eqn:E1. cbn [fst] in L1.
  destruct (has_right n h pos).
  - pose proof (extract_length n h (T32 (T32 (pos * 2) + 1)) s1) as L2. pose proof (extract_bad n h (T32 (T32 (pos * 2) + 1)) s1) as B2.
    destruct (TraverseAndExtract _ _ (T32 (T32 _ + 1)) _ _ _) as [hR s2] eqn:E2. cbn [fst snd] in *. intros Hb. right.
    exists s0, hL, s1, hR. split; [reflexivity|]. split; [exact E1|]. split; [now apply B2|]. split; [now left|].
    split; [intros x Hx; right; apply in_app_iff; now left|]. split; [reflexivity|]. split; [exact L1|]. split; [exact L2|]. right.
    split; [exact E2|]. intros x Hx. right. apply in_app_iff. now right.
  - intros Hb. right. exists s0, hL, s1, hL. split; [reflexivity|]. split; [exact E1|]. split; [exact Hb|]. split; [now left|].
    split; [intros x Hx; now right|]. split; [reflexivity|]. split; [exact L1|]. split; [exact L1|]. left. now split.
Qed.

Variable l : list hash.
Hypothesis Hl : Forall (fun h => length h = 32%nat) l.

(** A hash of the peer that is a node of the tree is made of its children. *)
Lemma children_or_collision P j hL hR : (j < tree_height (Z.of_nat (length l)))%nat -> In (hL, hR) P -> length hL = 32%nat -> length hR = 32%nat ->
  In (Hash2 hL hR) (lev (S j) l) -> collides P (tree_pairs l) \/ (In hL (lev j l) /\ In hR (lev j l)).
Proof using Hl.
  intros Hj HP L1 L2 Hin. destruct (above_siblings (lev j l) (Hash2 hL hR) Hin) as (c & d & Hs & E & Hc & Hd).
  pose proof (lev_lengths l j Hl) as HL. rewrite Forall_forall in HL.
  assert (HQ : In (c, d) (tree_pairs l)) by (apply in_flat_map; exists j; split; [apply in_seq; lia | exact Hs]).
  destruct (pairs_collide hL hR c d P (tree_pairs l) HP HQ L1 L2 (HL c Hc) (HL d Hd) E) as [C|[E1 E2]]; [now left | right].
  rewrite E1, E2. now split.
Qed.

(** A subtree of the peer that hashes to a node [h] levels above the level
    [d] of the tree has its matches there. *)
Lemma extract_at d h : forall pos s, (h + d <= tree_height (Z.of_nat (length l)))%nat ->
  let '(x, s') := TraverseAndExtract n h pos vBits vHash s in
  bad s' = false -> In x (lev (h + d) l) ->
  collides (hashed n h pos vBits vHash s) (tree_pairs l) \/ incl (vMatch s') (vMatch s ++ lev d l).
Proof using H32 Hl.
  induction h as [|h IH]; intros pos s Hh.
  - cbn [TraverseAndExtract]. destruct (_ <=? _)%nat; [discriminate|]. unfold use_hash.
    destruct (_ <=? _)%nat; [discriminate|]. cbn [vMatch Nat.eqb andb Nat.add]. intros _ Hx. right.
    destruct (nth _ vBits false); [|apply incl_appl, incl_refl]. apply incl_app_app; [apply incl_refl|]. now intros m [<-|[]].
  - pose proof (extract_cases h pos s) as C. destruct (TraverseAndExtract n (S h) pos vBits vHash s) as [x s']. intros Hb Hx.
    destruct (C Hb) as [E|(s0 & hL & s1 & hR & E0 & E1 & B1 & HP & HiL & -> & L1 & L2 & HR)]; [right; rewrite E; apply incl_appl, incl_refl|].
    destruct (children_or_collision (hashed n (S h) pos vBits vHash s) (h + d) hL hR ltac:(lia) HP L1 L2 Hx) as [F|[HcL HcR]]; [now left|].
    pose proof (IH (T32 (pos * 2)) s0 ltac:(lia)) as I1. rewrite E1 in I1. destruct (I1 B1 HcL) as [F|J1]; [left; now apply (collides_incl _ _ _ HiL)|].
    rewrite E0 in J1. destruct HR as [[_ ->]|[E2 HiR]]; [now right|].
    pose proof (IH (T32 (T32 (pos * 2) + 1)) s1 ltac:(lia)) as I2. rewrite E2 in I2. destruct (I2 Hb HcR) as [F|J2]; [left; now apply (collides_incl _ _ _ HiR)|].
    right. intros m Hm. apply J2, in_app_iff in Hm as [Hm|Hm]; [now apply J1 | apply in_app_iff; now right].
Qed.

(** A subtree deeper than the tree has no match, or has hashed a pair to a
    leaf of it. *)
Lemma extract_below e h : forall pos s, (h <= tree_height (Z.of_nat (length l)))%nat ->
  let '(x, s') := TraverseAndExtract n (h + S e) pos vBits vHash s in
  bad s' = false -> In x (lev h l) ->
  collides (hashed n (h + S e) pos vBits vHash s) (tree_pairs l) \/ vMatch s' = vMatch s \/
  exists a b, In (a, b) (hashed n (h + S e) pos vBits vHash s) /\ In (Hash2 a b) l.
Proof using H32 Hl.
  induction h as [|h IH]; intros pos s Hh; cbn [Nat.add].
  - pose proof (extract_cases e pos s) as C. destruct (TraverseAndExtract n (S e) pos vBits vHash s) as [x s']. intros Hb Hx.
    destruct (C Hb) as [E|(s0 & hL & s1 & hR & _ & _ & _ & HP & _ & -> & _)]; [right; now left|]. right. right. now exists hL, hR.
  - pose proof (extract_cases (h + S e) pos s) as C. destruct (TraverseAndExtract n (S (h + S e)) pos vBits vHash s) as [x s']. intros Hb Hx.
    destruct (C Hb) as [E|(s0 & hL & s1 & hR & E0 & E1 & B1 & HP & HiL & -> & L1 & L2 & HR)]; [right; now left|].
    destruct (children_or_collision (hashed n (S (h + S e)) pos vBits vHash s) h hL hR ltac:(lia) HP L1 L2 Hx) as [F|[HcL HcR]]; [now left|].
    pose proof (IH (T32 (pos * 2)) s0 ltac:(lia)) as I1. rewrite E1 in I1.
    destruct (I1 B1 HcL) as [F|[J1|(a & b & Hab & Hin)]]; [left; now apply (collides_incl _ _ _ HiL) | | right; right; exists a, b; auto].
    rewrite E0 in J1. destruct HR as [[_ ->]|[E2 HiR]]; [right; now left|].
    pose proof (IH (T32 (T32 (pos * 2) + 1)) s1 ltac:(lia)) as I2. rewrite E2 in I2.
    destruct (I2 Hb HcR) as [F|[J2|(a & b & Hab & Hin)]]; [left; now apply (collides_incl _ _ _ HiR) | | right; right; exists a, b; auto].
    right. left. congruence.
Qed.
End Sound.

(** * The serialized form *)

Lemma bits_fold_length B ps : forall v,
  length (fold_left (fun v p => or_at v (p / 8) (Z.b2z (nth p B false) << Z.of_nat (p mod 8))) ps v) = length v.
Proof. induction ps as [|p ps IH]; intros v; cbn [fold_left]; [reflexivity|]. now rewrite IH, or_at_length. Qed.

Lemma bits_fold_u8 B ps : forall v, Forall u8 v ->
  Forall u8 (fold_left (fun v p => or_at v (p / 8) (Z.b2z (nth p B false) << Z.of_nat (p mod 8))) ps v).
Proof. induction ps as [|p ps IH]; intros v Hv; cbn [fold_left]; [exact Hv|]. apply IH, or_at_u8; [exact Hv | apply bit_u8]. Qed.

Lemma bits_fold_bit B q : forall k v, (forall p, (p < k)%nat -> (p / 8 < length v)%nat) ->
  test_bit (fold_left (fun v p => or_at v (p / 8) (Z.b2z (nth p B false) << Z.of_nat (p mod 8))) (seq 0 k) v) q
  = test_bit v q || ((q <? k)%nat && nth q B false).
Proof.
  induction k as [|k IH]; intros v Hv; [now rewrite orb_false_r|]. rewrite seq_S, fold_left_app. cbn [fold_left Nat.add].
  rewrite test_bit_or_at by (rewrite bits_fold_length; apply Hv; lia). rewrite IH by (intros; apply Hv; lia).
  destruct (Nat.eqb_spec q k) as [E|E]; destruct (Nat.ltb_spec q k), (Nat.ltb_spec q (S k)); try lia; try reflexivity.
  subst q. now rewrite orb_false_r.
Qed.

Lemma bits_to_bytes_length B : length (bits_to_bytes B) = ((length B + 7) / 8)%nat.
Proof. unfold bits_to_bytes. now rewrite bits_fold_length, repeat_length. Qed.

Lemma bits_to_bytes_u8 B : Forall u8 (bits_to_bytes B).
Proof. apply bits_fold_u8, Forall_forall. intros x Hx. apply repeat_spec in Hx. subst x. unfold u8. lia. Qed.

(** The padding bits of the last byte. *)
Definition padding (n : nat) : nat := 8 * ((n + 7) / 8) - n.

Lemma bits_bytes B : bytes_to_bits (bits_to_bytes B) = B ++ repeat false (padding (length B)).
Proof.
  pose proof (Nat.div_mod (length B + 7) 8 ltac:(lia)) as D. pose proof (Nat.mod_upper_bound (length B + 7) 8 ltac:(lia)).
  unfold bytes_to_bits, padding. rewrite bits_to_bytes_length. apply (nth_ext _ _ false false).
  - rewrite length_map, length_seq, length_app, repeat_length. lia.
  - rewrite length_map, length_seq. intros q Hq. rewrite (nth_indep _ false (test_bit (bits_to_bytes B) 0)) by (rewrite length_map, length_seq; exact Hq).
    rewrite (map_nth (test_bit (bits_to_bytes B))), seq_nth by exact Hq. unfold bits_to_bytes. rewrite bits_fold_bit, test_bit_zeros.
    + cbn [orb Nat.add]. destruct (Nat.ltb_spec q (length B)); cbn [andb]; [now rewrite app_nth1|].
      rewrite app_nth2 by assumption. symmetry. apply nth_repeat.
    + intros p Hp. rewrite repeat_length. apply Nat.Div0.div_lt_upper_bound. lia.
Qed.

Lemma padding_bytes n : ((n + padding n + 7) / 8 = (n + 7) / 8)%nat.
Proof.
  pose proof (Nat.div_mod (n + 7) 8 ltac:(lia)) as D. pose proof (Nat.mod_upper_bound (n + 7) 8 ltac:(lia)). unfold padding.
  symmetry. apply (Nat.div_unique _ 8 _ 7); lia.
Qed.

Definition valid_tree (t : CPartialMerkleTree) : Prop :=
  u32 (nTransactions t) /\ Forall (flat 32) (vHash t) /\ Z.of_nat (length (vHash t)) <= MAX_SIZE /\
  Z.of_nat (length (bits_to_bytes (vBits t))) <= MAX_SIZE.

Lemma tree_read_back t rest : valid_tree t ->
  Unserialize CPartialMerkleTree_format (Serialize CPartialMerkleTree_format t ++ rest)
  = Read (mkTree (nTransactions t) (vBits t ++ repeat false (padding (length (vBits t)))) (vHash t) false) rest.
Proof.
  intros (Hn & Hh & Hl & Hb). unfold CPartialMerkleTree_format, wrap_format, Unserialize at 1, Serialize at 1. rewrite <- bits_bytes.
  refine (bind_eq _ _ _ (nTransactions t, (vHash t, bits_to_bytes (vBits t))) rest _).
  apply read_back. cbn [fst snd]. split; [exact Hn|split; split; [exact Hh | exact Hl | apply bits_to_bytes_u8 | exact Hb]].
Qed.

(** ** The built tree can be serialized *)

Section Built.
Variables (n : Z) (vTxid : list hash) (vMatch : list bool).
Hypothesis Hflat : Forall (flat 32) vTxid.

Lemma zero_flat : flat 32 uint256_0.
Proof using. split; [reflexivity|]. apply Forall_forall. intros x Hx. apply repeat_spec in Hx. subst x. unfold u8. lia. Qed.

Lemma node_flat i : flat 32 (node vTxid i).
Proof using Hflat.
  unfold node. destruct (Nat.lt_ge_cases i (length vTxid)); [|rewrite nth_overflow by assumption; exact zero_flat].
  rewrite Forall_forall in Hflat. now apply Hflat, nth_In.
Qed.

Lemma CalcHash_flat h : forall pos, flat 32 (CalcHash n h pos vTxid).
Proof using Hflat.
  induction h as [|h IH]; intros pos; cbn [CalcHash]; [apply node_flat|]. apply Hash2_flat; [apply IH|]. destruct (has_right n h pos); apply IH.
Qed.

Lemma TraverseAndBuild_bounds h : forall pos s, Forall (flat 32) (snd s) ->
  Forall (flat 32) (snd (TraverseAndBuild n h pos vTxid vMatch s)) /\
  (length (fst (TraverseAndBuild n h pos vTxid vMatch s)) + 1 <= length (fst s) + 2 ^ S h)%nat.
Proof using Hflat.
  assert (Leaf : forall h pos B (H : list hash) (b : bool), Forall (flat 32) H ->
    Forall (flat 32) (snd (B ++ [b], H ++ [CalcHash n h pos vTxid])) /\ (length (fst (B ++ [b], H ++ [CalcHash n h pos vTxid])) + 1 <= length B + 2 ^ S h)%nat).
  { intros k pos B H b HH. cbn [fst snd]. rewrite length_app, Forall_app. pose proof (Nat.pow_nonzero 2 k ltac:(lia)). rewrite Nat.pow_succ_r'.
    cbn [length]. split; [split; [exact HH | constructor; [apply CalcHash_flat | constructor]] | lia]. }
  induction h as [|h IH]; intros pos [B H] HH; cbn [fst snd] in HH; cbn [TraverseAndBuild fst]; [now apply (Leaf 0%nat)|].
  destruct (negb _); [now apply (Leaf (S h))|]. set (b := parent_of_match _ _ _ _). rewrite (Nat.pow_succ_r' 2 (S h)). pose proof (Nat.pow_nonzero 2 (S h) ltac:(lia)). set (p := (2 ^ S h)%nat) in *.
  destruct (IH (T32 (pos * 2)) (B ++ [b], H) HH) as [F1 L1]. cbn [fst] in L1. rewrite length_app in L1. cbn [length] in L1.
  destruct (has_right n h pos); [|split; [exact F1 | eapply Nat.le_trans; [exact L1 | lia]]].
  destruct (IH (T32 (T32 (pos * 2) + 1)) _ F1) as [F2 L2]. split; [exact F2|].
  eapply Nat.le_trans; [exact L2|]. apply (Nat.add_le_mono_r _ _ 1). rewrite <- Nat.add_assoc, (Nat.add_comm p), Nat.add_assoc. eapply Nat.le_trans; [apply Nat.add_le_mono_r; exact L1 | lia].
Qed.
End Built.

Lemma built_valid (vTxid : list hash) vMatch : (0 < length vTxid)%nat -> Z.of_nat (length vTxid) <= Params.MAX_BLOCK_SIZE_CURRENT / 60 ->
  Forall (flat 32) vTxid -> valid_tree (CPartialMerkleTree_new vTxid vMatch).
Proof.
  intros H0 Hmax Hflat. change (Params.MAX_BLOCK_SIZE_CURRENT / 60) with 33333 in Hmax.
  assert (Hn : (0 < length vTxid)%nat /\ Z.of_nat (length vTxid) <= 2 ^ 30) by lia.
  destruct (tree_height_spec vTxid Hn) as (H30 & Hw & Hj). unfold CPartialMerkleTree_new.
  destruct (TraverseAndBuild_bounds (Z.of_nat (length vTxid)) vTxid vMatch Hflat (tree_height (Z.of_nat (length vTxid))) 0 ([], []) (Forall_nil _)) as [F L].
  destruct (TraverseAndBuild_replays vTxid vMatch Hn (tree_height (Z.of_nat (length vTxid))) 0 H30 ltac:(lia)) as (B & H & E & L1 & L2 & _).
  change (Z.of_nat 0) with 0 in E. rewrite E in *. cbn [fst snd app length Nat.add] in *. rewrite (all_leaves vTxid Hn), length_seq in L1.
  unfold valid_tree. cbn [nTransactions vHash vBits]. rewrite bits_to_bytes_length. unfold u32, MAX_SIZE.
  assert (Hp : (2 ^ tree_height (Z.of_nat (length vTxid)) < 2 * length vTxid)%nat).
  { set (h := tree_height _) in *. destruct h as [|h]; [cbn; lia|]. specialize (Hj h ltac:(lia)). apply (leaf_lt vTxid Hn h 1) in Hj; [|lia].
    rewrite Nat.pow_succ_r'. lia. }
  rewrite Nat.pow_succ_r' in L. pose proof (Nat.Div0.div_le_mono (length B + 7) (8 * (length B + 7)) 8 ltac:(lia)) as D.
  rewrite (Nat.mul_comm 8), Nat.div_mul in D by lia. split; [lia|]. split; [exact F|]. lia.
Qed.

Lemma partial_merkle_complete_spec (vTxid : list hash) vMatch rest :
  (0 < length vTxid)%nat -> Z.of_nat (length vTxid) <= Params.MAX_BLOCK_SIZE_CURRENT / 60 ->
  length vMatch = length vTxid -> Forall (flat 32) vTxid ->
  exists t, Unserialize CPartialMerkleTree_format (Serialize CPartialMerkleTree_format (CPartialMerkleTree_new vTxid vMatch) ++ rest) = Read t rest /\
    ExtractMatches t = (snd (BuildMerkleTree vTxid), matching vTxid vMatch).
Proof.
  intros H0 Hmax Hm Hflat. rewrite tree_read_back by now apply built_valid. eexists. split; [reflexivity|].
  rewrite BuildMerkleTree_spec. apply extract_built; [assumption..|]. apply padding_bytes.
Qed.

(** C36: A partial Merkle tree made from the transactions of a block, written to
    the wire and read back, gives the root of the block and exactly the
    matched transactions, in order. *)
Theorem partial_merkle_complete (vTxid : list hash) vMatch rest :
  (0 < length vTxid)%nat -> Z.of_nat (length vTxid) <= Params.MAX_BLOCK_SIZE_CURRENT / 60 ->
  length vMatch = length vTxid -> Forall (flat 32) vTxid ->
  exists t, Unserialize CPartialMerkleTree_format (Serialize CPartialMerkleTree_format (CPartialMerkleTree_new vTxid vMatch) ++ rest) = Read t rest /\
    ExtractMatches t = (snd (BuildMerkleTree vTxid), map fst (filter snd (combine vTxid vMatch))).
Proof. exact (partial_merkle_complete_spec vTxid vMatch rest). Qed.

Lemma partial_merkle_complete_witness :
  let vTxid := [repeat 1 32; repeat 2 32; repeat 3 32; repeat 4 32; repeat 5 32] in
  let vMatch := [false; false; true; false; true] in
  exists t, Unserialize CPartialMerkleTree_format (Serialize CPartialMerkleTree_format (CPartialMerkleTree_new vTxid vMatch) ++ []) = Read t [] /\
    ExtractMatches t = (snd (BuildMerkleTree vTxid), [repeat 3 32; repeat 5 32]).
Proof.
  intros vTxid vMatch. apply (partial_merkle_complete vTxid vMatch []); [cbn; lia | vm_compute; discriminate | reflexivity|].
  repeat constructor; unfold u8; lia.
Defined.

(** C34: Whatever a peer sends, when the root it gives is that of the block's
    transactions, two of the pairs hashed, one by [ExtractMatches] and one in
    the block's tree, are a collision of the hash, or the following holds.
    When the number of transactions the peer claims is right, every match is
    a transaction of the block.  When it gives the tree too few levels, every
    match is a node of the block's tree that many levels up.  When it gives
    it too many, there is no match, or [ExtractMatches] has hashed a pair
    to the identifier of a transaction. *)
Theorem partial_merkle_sound (vTxid : list hash) t matches :
  Z.of_nat (length vTxid) <= Params.MAX_BLOCK_SIZE_CURRENT / 60 ->
  Forall (fun h => length h = 32%nat) vTxid -> Forall (fun h => length h = 32%nat) (vHash t) ->
  snd (BuildMerkleTree vTxid) <> uint256_0 -> ExtractMatches t = (snd (BuildMerkleTree vTxid), matches) ->
  let claimed := tree_height (nTransactions t) in
  let real := tree_height (Z.of_nat (length vTxid)) in
  collides (peer_pairs t) (tree_pairs vTxid) \/
  (nTransactions t = Z.of_nat (length vTxid) -> incl matches vTxid) /\
  ((claimed <= real)%nat -> incl matches (lev (real - claimed) vTxid)) /\
  ((real < claimed)%nat -> matches = [] \/ exists a b, In (a, b) (peer_pairs t) /\ In (Hash2 a b) vTxid).
Proof.
  intros Hmax Hl H32 Hr HE claimed real. rewrite BuildMerkleTree_spec in Hr, HE. cbn [snd] in Hr, HE. unfold ExtractMatches in HE.
  assert (Z0 : forall ms, (uint256_0, ms) <> (merkle_root vTxid, matches)) by (intros ms X; apply Hr; symmetry; exact (f_equal fst X)).
  destruct (nTransactions t =? 0); [contradiction (Z0 _ HE)|]. destruct (nTransactions t >? _); [contradiction (Z0 _ HE)|].
  destruct (_ >? _); [contradiction (Z0 _ HE)|]. destruct (_ <? _)%nat; [contradiction (Z0 _ HE)|].
  change (Params.MAX_BLOCK_SIZE_CURRENT / 60) with 33333 in Hmax.
  assert (Hn : (0 < length vTxid)%nat /\ Z.of_nat (length vTxid) <= 2 ^ 30).
  { split; [|lia]. destruct vTxid; [now destruct Hr | cbn; lia]. }
  destruct (tree_height_spec vTxid Hn) as (_ & Hw & _). fold real in Hw.
  assert (Hroot : In (merkle_root vTxid) (lev real vTxid)) by (rewrite <- (root_node vTxid Hn); apply nth_In; fold real; lia).
  fold claimed in HE. unfold peer_pairs. fold claimed.
  pose proof (extract_at (vBits t) (vHash t) H32 (nTransactions t) vTxid Hl (real - claimed) claimed 0 (mkExtraction 0 0 [] (fBad t))) as A.
  pose proof (extract_below (vBits t) (vHash t) H32 (nTransactions t) vTxid Hl (claimed - real - 1) real 0 (mkExtraction 0 0 [] (fBad t))) as B.
  destruct (Nat.le_gt_cases claimed real) as [C|C].
  - clear B. replace (claimed + (real - claimed))%nat with real in A by lia. specialize (A ltac:(reflexivity)).
    destruct (TraverseAndExtract _ _ _ _ _ _) as [x s]. destruct (bad s); [contradiction (Z0 _ HE)|].
    destruct (negb _); [contradiction (Z0 _ HE)|]. destruct (negb _); [contradiction (Z0 _ HE)|]. injection HE as -> <-.
    destruct (A eq_refl Hroot) as [F|J]; [now left|]. right. cbn [vMatch app] in J. split; [|split; [intros _; exact J | lia]].
    intros EN. unfold claimed, real in J. now rewrite EN, Nat.sub_diag in J.
  - clear A. replace (real + S (claimed - real - 1))%nat with claimed in B by lia. specialize (B ltac:(reflexivity)).
    destruct (TraverseAndExtract _ _ _ _ _ _) as [x s]. destruct (bad s); [contradiction (Z0 _ HE)|].
    destruct (negb _); [contradiction (Z0 _ HE)|]. destruct (negb _); [contradiction (Z0 _ HE)|]. injection HE as -> <-.
    destruct (B eq_refl Hroot) as [F|J]; [now left|]. right. split; [|split; [lia | intros _; exact J]].
    intros EN. unfold claimed, real in C. rewrite EN in C. lia.
Qed.

(** A tree of the right number of transactions, and one that takes the nodes
    of the second level for transactions. *)
Lemma partial_merkle_sound_witness :
  let vTxid := [repeat 1 32; repeat 2 32; repeat 3 32; repeat 4 32] in
  let t := CPartialMerkleTree_new vTxid [false; true; false; true] in
  let t' := mkTree 2 [true; true; false] [Hash2 (repeat 1 32) (repeat 2 32); Hash2 (repeat 3 32) (repeat 4 32)] false in
  (collides (peer_pairs t) (tree_pairs vTxid) \/ incl [repeat 2 32; repeat 4 32] vTxid) /\
  (collides (peer_pairs t') (tree_pairs vTxid) \/ incl [Hash2 (repeat 1 32) (repeat 2 32)] (lev 1 vTxid)).
Proof.
  intros vTxid t t'.
  assert (HM : Z.of_nat (length vTxid) <= Params.MAX_BLOCK_SIZE_CURRENT / 60) by (vm_compute; discriminate).
  assert (HL : Forall (fun h => length h = 32%nat) vTxid) by repeat constructor.
  assert (HR : snd (BuildMerkleTree vTxid) <> uint256_0) by (vm_compute; discriminate). split.
  - destruct (partial_merkle_sound vTxid t [repeat 2 32; repeat 4 32] HM HL) as [C|[H _]]; [repeat constructor | exact HR | vm_compute; reflexivity | now left|].
    right. now apply H.
  - destruct (partial_merkle_sound vTxid t' [Hash2 (repeat 1 32) (repeat 2 32)] HM HL) as [C|[_ [H _]]];
      [repeat constructor | exact HR | vm_compute; reflexivity | now left|].
    right. apply H. vm_compute. lia.
Defined.

End PartialMerkle.
