(* ===== verification/Bloom.v ===== *)
(** Bloom filters of light clients: [MurmurHash3] of [src/src/hash.cpp],
    [CBloomFilter] of [src/src/bloom.h] and [bloom.cpp], and the messages of
    [src/src/main.cpp] that load, extend and clear the filter of a peer. *)
From Stdlib Require Import RelationClasses.
From S2P Require Import Prelude SphTypes Bits Script Standard Serialize Transaction.

Module Bloom.
Import Bits Script Standard Serialize Transaction.

#[local] Opaque GetHash.

(** ** [MurmurHash3] *)

Definition ROTL32 (x r : Z) : Z := T32 (x << r) .| (x >> (32 - r)).

Definition c1 : Z := 0xcc9e2d51.
Definition c2 : Z := 0x1b873593.

(** [k1 *= c1; k1 = ROTL32(k1, 15); k1 *= c2;] *)
Definition mix (k1 : Z) : Z := T32 (ROTL32 (T32 (k1 * c1)) 15 * c2).

(** The [i]th block, a little-endian load. *)
Definition murmur_block (v : list Z) (h1 : Z) (i : nat) : Z :=
  let k1 := mix (le_val (firstn 4 (skipn (4 * i) v))) in
  let h1 := ROTL32 (h1 ⊕ k1) 13 in
  T32 (h1 * 5 + 0xe6546b64).

Definition murmur_tail (tail : list Z) (h1 : Z) : Z :=
  match tail with
  | [a] => h1 ⊕ mix a
  | [a; b] => h1 ⊕ mix ((b << 8) ⊕ a)
  | [a; b; c] => h1 ⊕ mix (((c << 16) ⊕ (b << 8)) ⊕ a)
  | _ => h1
  end.

Definition murmur_final (h1 : Z) : Z :=
  let h1 := h1 ⊕ (h1 >> 16) in
  let h1 := T32 (h1 * 0x85ebca6b) in
  let h1 := h1 ⊕ (h1 >> 13) in
  let h1 := T32 (h1 * 0xc2b2ae35) in
  h1 ⊕ (h1 >> 16).

Definition MurmurHash3 (nHashSeed : Z) (vDataToHash : list Z) : Z :=
  let nblocks := (length vDataToHash / 4)%nat in
  let h1 := fold_left (murmur_block vDataToHash) (seq 0 nblocks) nHashSeed in
  let h1 := murmur_tail (skipn (4 * nblocks) vDataToHash) h1 in
  murmur_final (h1 ⊕ T32 (Z.of_nat (length vDataToHash))).

(** ** [CBloomFilter] *)

Definition MAX_BLOOM_FILTER_SIZE : Z := 36000.
Definition MAX_HASH_FUNCS : Z := 50.

Definition BLOOM_UPDATE_NONE : Z := 0.
Definition BLOOM_UPDATE_ALL : Z := 1.
Definition BLOOM_UPDATE_P2PUBKEY_ONLY : Z := 2.
Definition BLOOM_UPDATE_MASK : Z := 3.

Record CBloomFilter : Type := mkFilter {
  vData : list Z; isFull : bool; isEmpty : bool; nHashFuncs : Z; nTweak : Z; nFlags : Z
}.

(** [CBloomFilter()] *)
Definition CBloomFilter_empty : CBloomFilter := mkFilter [] true false 0 0 0.

(** The constructor, given the two floating-point sizes truncated to an
    [unsigned int]: the ideal number of bits, and the ideal number of functions
    for a number of bits per element. *)
Definition CBloomFilter_new (ideal_bits : Z) (ideal_funcs : Z -> Z) (nElements nTweakIn nFlagsIn : Z) : CBloomFilter :=
  let vData := repeat 0 (Z.to_nat (Z.min ideal_bits (MAX_BLOOM_FILTER_SIZE * 8) / 8)) in
  let nHashFuncs := Z.min (ideal_funcs (Z.of_nat (length vData) * 8 / nElements)) MAX_HASH_FUNCS in
  mkFilter vData false false nHashFuncs nTweakIn nFlagsIn.

(** What the reader of a [CBloomFilter()] leaves in the flags. *)
Definition CBloomFilter_format : format CBloomFilter :=
  wrap_format (pair_format bytes_format (pair_format uint32_format (pair_format uint32_format uint8_format)))
    (fun f => (vData f, (nHashFuncs f, (nTweak f, nFlags f))))
    (fun '(d, (h, (t, fl))) => mkFilter d true false h t fl).

Section Filter.
Variable f : CBloomFilter.

(** [Hash(nHashNum, vDataToHash)] *)
Definition filter_Hash (nHashNum : Z) (vDataToHash : list Z) : Z :=
  MurmurHash3 (T32 (T32 (nHashNum * 0xFBA4C795) + nTweak f)) vDataToHash mod (Z.of_nat (length (vData f)) * 8).

(** [for (unsigned int i = 0; i < nHashFuncs; i++)] *)
Definition funcs : list Z := map Z.of_nat (seq 0 (Z.to_nat (nHashFuncs f))).

(** [vData[nIndex >> 3] |= (1 << (7 & nIndex))] *)
Definition set_index (v : list Z) (nIndex : Z) : list Z := or_at v (Z.to_nat (nIndex >> 3)) (1 << (7 .& nIndex)).

(** [vData[nIndex >> 3] & (1 << (7 & nIndex))] *)
Definition get_index (v : list Z) (nIndex : Z) : bool := negb (nth (Z.to_nat (nIndex >> 3)) v 0 .& (1 << (7 .& nIndex)) =? 0).

Definition insert (vKey : list Z) : CBloomFilter :=
  if isFull f then f
  else mkFilter (fold_left (fun v i => set_index v (filter_Hash i vKey)) funcs (vData f)) (isFull f) false (nHashFuncs f) (nTweak f) (nFlags f).

Definition contains (vKey : list Z) : bool :=
  if isFull f then true
  else if isEmpty f then false
  else forallb (fun i => get_index (vData f) (filter_Hash i vKey)) funcs.

Definition clear : CBloomFilter := mkFilter (repeat 0 (length (vData f))) false true (nHashFuncs f) (nTweak f) (nFlags f).

Definition IsWithinSizeConstraints : bool :=
  (Z.of_nat (length (vData f)) <=? MAX_BLOOM_FILTER_SIZE) && (nHashFuncs f <=? MAX_HASH_FUNCS).

Definition UpdateEmptyFull : CBloomFilter :=
  mkFilter (vData f) (forallb (Z.eqb 0xff) (vData f)) (forallb (Z.eqb 0) (vData f)) (nHashFuncs f) (nTweak f) (nFlags f).

(** The [while (pc < script.end())] loops. *)
Fixpoint script_hit (fuel : nat) (pc : list Z) : bool :=
  match fuel, pc with
  | _, [] => false
  | O, _ => false
  | S fuel, _ =>
      match GetOp pc with
      | None => false
      | Some (_, data, pc) => if negb (length data =? 0)%nat && contains data then true else script_hit fuel pc
      end
  end.
End Filter.

Definition insert_outpoint (f : CBloomFilter) (o : COutPoint) : CBloomFilter := insert f (Serialize COutPoint_format o).
Definition contains_outpoint (f : CBloomFilter) (o : COutPoint) : bool := contains f (Serialize COutPoint_format o).

(** The spends of a matched output will match.  [Solver] is never undefined on
    a script with data ([script_hit_solver]). *)
Definition follow_output (f : CBloomFilter) (hash : list Z) (i : Z) (scriptPubKey : list Z) : CBloomFilter :=
  if nFlags f .& BLOOM_UPDATE_MASK =? BLOOM_UPDATE_ALL then insert_outpoint f (mkOutPoint hash i)
  else if nFlags f .& BLOOM_UPDATE_MASK =? BLOOM_UPDATE_P2PUBKEY_ONLY then
    match Solver scriptPubKey with
    | Some (mkSolved true TX_PUBKEY _) | Some (mkSolved true TX_MULTISIG _) => insert_outpoint f (mkOutPoint hash i)
    | _ => f
    end
  else f.

Fixpoint match_outputs (hash : list Z) (i : Z) (vout : list CTxOut) (fFound : bool) (f : CBloomFilter) : bool * CBloomFilter :=
  match vout with
  | [] => (fFound, f)
  | txout :: vout =>
      if script_hit f (length (scriptPubKey txout)) (scriptPubKey txout)
      then match_outputs hash (i + 1) vout true (follow_output f hash i (scriptPubKey txout))
      else match_outputs hash (i + 1) vout fFound f
  end.

Definition match_input (f : CBloomFilter) (txin : CTxIn) : bool :=
  contains_outpoint f (prevout txin) || script_hit f (length (scriptSig txin)) (scriptSig txin).

Definition IsRelevantAndUpdate (f : CBloomFilter) (tx : CTransaction) : bool * CBloomFilter :=
  if isFull f then (true, f)
  else if isEmpty f then (false, f)
  else
    let hash := GetHash tx in
    let '(fFound, f) := match_outputs hash 0 (vout tx) (contains f hash) f in
    if fFound then (true, f) else (existsb (match_input f) (vin tx), f).

(** ** The filter of a peer *)

(** The part of [CNode] and [CNodeState] the filter messages touch. *)
Record CNodeState : Type := mkNodeState { nMisbehavior : Z; fShouldBan : bool }.

Record peer : Type := mkPeer { pfilter : option CBloomFilter; fRelayTxes : bool; State : CNodeState }.

(** [banscore] is the value of the option [-banscore], 100 by default; the
    score is an [int], taken not to overflow. *)
Definition Misbehaving (banscore : Z) (s : CNodeState) (howmuch : Z) : CNodeState :=
  if howmuch =? 0 then s
  else
    let nMisbehavior' := nMisbehavior s + howmuch in
    mkNodeState nMisbehavior'
      (if (nMisbehavior' >=? banscore) && (nMisbehavior' - howmuch <? banscore) then true else fShouldBan s).

Definition punish (banscore : Z) (p : peer) (howmuch : Z) : peer := mkPeer (pfilter p) (fRelayTxes p) (Misbehaving banscore (State p) howmuch).

Inductive filter_message : Type :=
| filterload (vRecv : list Z)
| filteradd (vRecv : list Z)
| filterclear.

(** [None] is the exception of the reader: the message is dropped. *)
Definition ProcessFilterMessage (banscore : Z) (node_bloom : bool) (m : filter_message) (p : peer) : option peer :=
  if negb node_bloom then Some (punish banscore p 100)
  else
    match m with
    | filterload vRecv =>
        match Unserialize CBloomFilter_format vRecv with
        | Throw _ => None
        | Read filter _ =>
            let p := if negb (IsWithinSizeConstraints filter) then punish banscore p 100
                     else mkPeer (Some (UpdateEmptyFull filter)) (fRelayTxes p) (State p) in
            Some (mkPeer (pfilter p) true (State p))
        end
    | filteradd vRecv =>
        match Unserialize bytes_format vRecv with
        | Throw _ => None
        | Read vData _ =>
            if Z.of_nat (length vData) >? MAX_SCRIPT_ELEMENT_SIZE then Some (punish banscore p 100)
            else
              match pfilter p with
              | Some filter => Some (mkPeer (Some (insert filter vData)) (fRelayTxes p) (State p))
              | None => Some (punish banscore p 100)
              end
        end
    | filterclear => Some (mkPeer (Some CBloomFilter_empty) true (State p))
    end.

(** * Probes *)

Lemma index_byte x : 0 <= x -> Z.to_nat (x >> 3) = (Z.to_nat x / 8)%nat.
Proof. intros Hx. rewrite Z.shiftr_div_pow2 by lia. change (2 ^ 3) with (Z.of_nat 8). rewrite <- (Z2Nat.id x) at 1 by exact Hx. now rewrite <- Nat2Z.inj_div, Nat2Z.id. Qed.

Lemma index_bit x : 0 <= x -> 7 .& x = Z.of_nat (Z.to_nat x mod 8).
Proof.
  intros Hx. rewrite Z.land_comm. change 7 with (Z.ones 3). rewrite Z.land_ones by lia. change (2 ^ 3) with (Z.of_nat 8).
  rewrite <- (Z2Nat.id x) at 1 by exact Hx. now rewrite <- Nat2Z.inj_mod.
Qed.

Lemma get_index_eq v x : 0 <= x -> get_index v x = test_bit v (Z.to_nat x).
Proof. intros Hx. unfold get_index, test_bit. now rewrite index_byte, index_bit. Qed.

Lemma set_index_length v x : length (set_index v x) = length v.
Proof. apply or_at_length. Qed.

Lemma get_set_index v x y : 0 <= x < 8 * Z.of_nat (length v) -> 0 <= y -> get_index (set_index v x) y = (y =? x) || get_index v y.
Proof.
  intros Hx Hy. rewrite !get_index_eq by exact Hy. unfold set_index. rewrite index_byte, index_bit by lia. change 1 with (Z.b2z true).
  rewrite test_bit_or_at by (apply Nat.Div0.div_lt_upper_bound; lia).
  destruct (Z.eqb_spec y x) as [->|Hne]; [now rewrite Nat.eqb_refl, orb_true_r|]. destruct (Nat.eqb_spec (Z.to_nat y) (Z.to_nat x)); [lia | reflexivity].
Qed.

Lemma set_indices_length l : forall v, length (fold_left set_index l v) = length v.
Proof. induction l as [|x l IH]; intros v; cbn [fold_left]; [reflexivity|]. now rewrite IH, set_index_length. Qed.

Lemma get_set_indices l y : 0 <= y -> forall v, Forall (fun x => 0 <= x < 8 * Z.of_nat (length v)) l ->
  get_index (fold_left set_index l v) y = existsb (Z.eqb y) l || get_index v y.
Proof.
  intros Hy. induction l as [|x l IH]; intros v Hl; [reflexivity|]. inversion Hl; subst. cbn [fold_left existsb].
  rewrite IH by (rewrite set_index_length; assumption). rewrite get_set_index by assumption.
  destruct (y =? x), (existsb (Z.eqb y) l); reflexivity.
Qed.

(** The parts of a filter an insertion keeps. *)
Definition shape (f : CBloomFilter) : nat * Z * Z * Z := (length (vData f), nHashFuncs f, nTweak f, nFlags f).

Definition probes (f : CBloomFilter) (vKey : list Z) : list Z := map (fun i => filter_Hash f i vKey) (funcs f).

Lemma shape_probes f g k : shape f = shape g -> probes f k = probes g k.
Proof. unfold shape, probes, funcs, filter_Hash. intros [= -> -> -> _]. reflexivity. Qed.

Lemma probes_range f k : vData f <> [] -> Forall (fun x => 0 <= x < 8 * Z.of_nat (length (vData f))) (probes f k).
Proof.
  intros Hv. apply Forall_map, Forall_forall. intros i _. unfold filter_Hash. rewrite (Z.mul_comm 8). apply Z.mod_pos_bound.
  destruct (vData f); [contradiction | cbn [length]; lia].
Qed.

(** The division by the size and the accesses are defined. *)
Definition usable (f : CBloomFilter) : Prop := isFull f = true \/ vData f <> [].

Lemma fold_left_map {A B C} (g : C -> B -> C) (h : A -> B) l : forall c, fold_left (fun c x => g c (h x)) l c = fold_left g (map h l) c.
Proof. induction l as [|x l IH]; intros c; [reflexivity | apply IH]. Qed.

Lemma insert_eq f k : isFull f = false ->
  insert f k = mkFilter (fold_left set_index (probes f k) (vData f)) false false (nHashFuncs f) (nTweak f) (nFlags f).
Proof. intros E. unfold insert, probes. rewrite E. f_equal. apply fold_left_map. Qed.

Lemma contains_eq f k : isFull f = false -> contains f k = negb (isEmpty f) && forallb (get_index (vData f)) (probes f k).
Proof.
  intros E. unfold contains, probes. rewrite E. destruct (isEmpty f); [reflexivity|]. cbn [negb andb].
  induction (funcs f) as [|i l IH]; cbn; [reflexivity | now rewrite IH].
Qed.

Lemma insert_shape f k : shape (insert f k) = shape f.
Proof. destruct (isFull f) eqn:E; [unfold insert; now rewrite E|]. rewrite insert_eq by exact E. unfold shape. cbn. now rewrite set_indices_length. Qed.

Lemma insert_full f k : isFull (insert f k) = isFull f.
Proof. unfold insert. destruct (isFull f) eqn:E; cbn; congruence. Qed.

Lemma shape_nonempty f g : shape f = shape g -> vData f <> [] -> vData g <> [].
Proof. unfold shape. intros [= E _ _ _] Hf Hg. rewrite Hg in E. now destruct (vData f). Qed.

Lemma insert_usable f k : usable f -> usable (insert f k).
Proof.
  intros [H|H]; [left; now rewrite insert_full | right]. apply (shape_nonempty f); [symmetry; apply insert_shape | exact H].
Qed.

(** * A filter grows: what it contains it keeps *)

Record grows (f g : CBloomFilter) : Prop := {
  grows_shape : shape g = shape f;
  grows_full : isFull g = isFull f;
  grows_contains : forall k, contains f k = true -> contains g k = true;
}.

#[export] Instance grows_refl : Reflexive grows.
Proof. intros f. now split. Qed.
#[export] Instance grows_trans : Transitive grows.
Proof. intros f g h [S1 F1 C1] [S2 F2 C2]. split; [congruence..|auto]. Qed.

Lemma grows_usable f g : grows f g -> usable f -> usable g.
Proof. intros [HS HF _] [H|H]; [left; congruence | right; apply (shape_nonempty f); [congruence | exact H]]. Qed.

Lemma contains_insert f k : usable f -> contains (insert f k) k = true.
Proof.
  intros Hu. destruct (isFull f) eqn:E; [unfold contains; now rewrite insert_full, E|]. destruct Hu as [|Hv]; [congruence|].
  rewrite contains_eq by (now rewrite insert_full). rewrite (shape_probes _ f k (insert_shape f k)), insert_eq by exact E. cbn [isEmpty vData negb andb].
  apply forallb_forall. intros x Hx. pose proof (probes_range f k Hv) as R. pose proof R as R'. rewrite Forall_forall in R'. specialize (R' x Hx).
  rewrite get_set_indices by (assumption || lia). apply orb_true_iff. left. apply existsb_exists. exists x. split; [exact Hx | apply Z.eqb_refl].
Qed.

Lemma insert_grows f k : usable f -> grows f (insert f k).
Proof.
  intros Hu. split; [apply insert_shape | apply insert_full|]. intros j. destruct (isFull f) eqn:E; [unfold contains; now rewrite insert_full, E|].
  destruct Hu as [|Hv]; [congruence|]. rewrite !contains_eq by (rewrite ?insert_full; exact E). rewrite (shape_probes _ f j (insert_shape f k)), insert_eq by exact E.
  cbn [isEmpty vData negb andb]. rewrite andb_true_iff. intros [_ H]. rewrite forallb_forall in *. intros x Hx.
  pose proof (probes_range f j Hv) as R. rewrite Forall_forall in R. specialize (R x Hx).
  rewrite get_set_indices by (apply probes_range || lia; assumption). now rewrite (H x Hx), orb_true_r.
Qed.

Lemma script_hit_grows f g : grows f g -> forall fuel pc, script_hit f fuel pc = true -> script_hit g fuel pc = true.
Proof.
  intros G. induction fuel as [|fuel IH]; intros [|b pc]; cbn [script_hit]; try discriminate. destruct (GetOp _) as [[[op data] pc']|]; [|discriminate].
  destruct (negb _); cbn [andb]; [|apply IH]. destruct (contains f data) eqn:E; [now rewrite (grows_contains _ _ G _ E)|].
  intros H. apply IH in H. now destruct (contains g data).
Qed.

Lemma follow_output_grows f hash i s : usable f -> grows f (follow_output f hash i s).
Proof.
  intros Hu. unfold follow_output, insert_outpoint. destruct (_ =? _); [now apply insert_grows|]. destruct (_ =? _); [|reflexivity].
  destruct (Solver s) as [[[] [] ?]|]; try reflexivity; now apply insert_grows.
Qed.

Lemma match_outputs_grows hash vout : forall i b f, usable f -> grows f (snd (match_outputs hash i vout b f)).
Proof.
  induction vout as [|o vout IH]; intros i b f Hu; cbn [match_outputs]; [reflexivity|]. destruct (script_hit _ _ _); [|now apply IH].
  transitivity (follow_output f hash i (scriptPubKey o)); [now apply follow_output_grows|]. apply IH.
  apply (grows_usable f); [now apply follow_output_grows | exact Hu].
Qed.

Lemma IsRelevantAndUpdate_grows f tx : usable f -> grows f (snd (IsRelevantAndUpdate f tx)).
Proof.
  intros Hu. unfold IsRelevantAndUpdate. destruct (isFull f); [reflexivity|]. destruct (isEmpty f); [reflexivity|].
  pose proof (match_outputs_grows (GetHash tx) (vout tx) 0 (contains f (GetHash tx)) f Hu) as G. destruct (match_outputs _ _ _ _ _) as [[] g]; exact G.
Qed.

(** * What matches *)

Definition hit (f : CBloomFilter) (s : list Z) : bool := script_hit f (length s) s.

Lemma match_outputs_found hash vout : forall i f, fst (match_outputs hash i vout true f) = true.
Proof. induction vout as [|o vout IH]; intros i f; cbn [match_outputs]; [reflexivity|]. destruct (script_hit _ _ _); apply IH. Qed.

Lemma match_outputs_none hash vout : forall i b f, existsb (fun o => hit f (scriptPubKey o)) vout = false -> match_outputs hash i vout b f = (b, f).
Proof.
  induction vout as [|o vout IH]; intros i b f H; cbn [match_outputs]; [reflexivity|]. cbn [existsb] in H. apply orb_false_iff in H as [H1 H2].
  unfold hit in H1. rewrite H1. now apply IH.
Qed.

Lemma match_outputs_some hash vout : forall i b f, existsb (fun o => hit f (scriptPubKey o)) vout = true -> fst (match_outputs hash i vout b f) = true.
Proof.
  induction vout as [|o vout IH]; intros i b f H; cbn [match_outputs existsb] in *; [discriminate|]. unfold hit at 1 in H.
  destruct (script_hit _ _ _); [apply match_outputs_found | now apply IH].
Qed.

Lemma IsRelevantAndUpdate_spec f tx :
  fst (IsRelevantAndUpdate f tx) =
    isFull f || negb (isEmpty f) &&
      (contains f (GetHash tx) || existsb (fun o => hit f (scriptPubKey o)) (vout tx) || existsb (match_input f) (vin tx)).
Proof.
  unfold IsRelevantAndUpdate. destruct (isFull f); [reflexivity|]. destruct (isEmpty f); [reflexivity|]. cbn [orb negb andb].
  destruct (existsb (fun o => hit f (scriptPubKey o)) (vout tx)) eqn:E.
  - pose proof (match_outputs_some (GetHash tx) (vout tx) 0 (contains f (GetHash tx)) f E) as H. destruct (match_outputs _ _ _ _ _) as [b g]. cbn in H. subst b.
    now rewrite orb_true_r.
  - rewrite match_outputs_none by exact E. rewrite orb_false_r. now destruct (contains f (GetHash tx)).
Qed.

(** The outputs whose spends are to match as well. *)
Definition followed (f : CBloomFilter) (s : list Z) : Prop :=
  nFlags f .& BLOOM_UPDATE_MASK = BLOOM_UPDATE_ALL \/
  nFlags f .& BLOOM_UPDATE_MASK = BLOOM_UPDATE_P2PUBKEY_ONLY /\
    exists t sols, Solver s = Some (mkSolved true t sols) /\ (t = TX_PUBKEY \/ t = TX_MULTISIG).

Lemma followed_shape f g s : shape g = shape f -> followed f s -> followed g s.
Proof. unfold shape, followed. intros [= _ _ _ ->]. auto. Qed.

Lemma follow_output_contains f hash i s : usable f -> followed f s -> contains_outpoint (follow_output f hash i s) (mkOutPoint hash i) = true.
Proof.
  intros Hu HF. unfold follow_output, insert_outpoint, contains_outpoint. destruct HF as [E|[E (t & sols & ES & Ht)]]; rewrite E; [now apply contains_insert|].
  cbn [Z.eqb Pos.eqb BLOOM_UPDATE_ALL BLOOM_UPDATE_P2PUBKEY_ONLY]. rewrite ES. destruct Ht as [-> | ->]; now apply contains_insert.
Qed.

Lemma match_outputs_follow hash vout : forall i b f j o, usable f -> nth_error vout j = Some o -> hit f (scriptPubKey o) = true ->
  followed f (scriptPubKey o) -> contains_outpoint (snd (match_outputs hash i vout b f)) (mkOutPoint hash (i + Z.of_nat j)) = true.
Proof.
  induction vout as [|o' vout IH]; intros i b f [|j] o Hu Hj Hh HF; try discriminate Hj; cbn [match_outputs]; cbn [nth_error] in Hj.
  - injection Hj as ->. unfold hit in Hh. rewrite Hh. rewrite Z.add_0_r.
    assert (Hu' : usable (follow_output f hash i (scriptPubKey o))) by (apply (grows_usable f); [now apply follow_output_grows | exact Hu]).
    apply (grows_contains _ _ (match_outputs_grows hash vout (i + 1) true _ Hu')). now apply follow_output_contains.
  - replace (i + Z.of_nat (S j)) with (i + 1 + Z.of_nat j) by lia. destruct (script_hit _ _ _); [|now apply (IH _ _ _ j o)].
    pose proof (follow_output_grows f hash i (scriptPubKey o') Hu) as G. apply (IH _ _ _ j o).
    + now apply (grows_usable f).
    + exact Hj.
    + now apply (script_hit_grows f).
    + apply (followed_shape f); [apply G | exact HF].
Qed.

Lemma hit_active f s : hit f s = true -> isFull f = false -> isEmpty f = false.
Proof.
  intros Hh HF. destruct (isEmpty f) eqn:E; [|reflexivity]. unfold hit in Hh. exfalso. revert Hh. generalize (length s). intros fuel. revert s.
  induction fuel as [|fuel IH]; intros [|b pc]; cbn [script_hit]; try discriminate. destruct (GetOp _) as [[[op data] pc']|]; [|discriminate].
  unfold contains. rewrite HF, E, andb_false_r. apply IH.
Qed.

Lemma contains_active f k : contains f k = true -> isFull f || negb (isEmpty f) = true.
Proof. unfold contains. destruct (isFull f); [reflexivity|]. now destruct (isEmpty f). Qed.

Lemma spend_relevant f o tx : contains_outpoint f o = true -> In o (map prevout (vin tx)) -> fst (IsRelevantAndUpdate f tx) = true.
Proof.
  intros Ho Hin. rewrite IsRelevantAndUpdate_spec. pose proof (contains_active f _ Ho) as HA.
  assert (Hx : existsb (match_input f) (vin tx) = true).
  { apply existsb_exists. apply in_map_iff in Hin as (i & <- & Hi). exists i. split; [exact Hi|]. unfold match_input. now rewrite Ho. }
  rewrite Hx, orb_true_r. destruct (isFull f); [reflexivity | now rewrite andb_true_r].
Qed.

Lemma relevant_follows f tx j o : usable f -> nth_error (vout tx) j = Some o -> hit f (scriptPubKey o) = true -> followed f (scriptPubKey o) ->
  fst (IsRelevantAndUpdate f tx) = true /\ contains_outpoint (snd (IsRelevantAndUpdate f tx)) (mkOutPoint (GetHash tx) (Z.of_nat j)) = true.
Proof.
  intros Hu Hj Hh HF.
  assert (He : existsb (fun o => hit f (scriptPubKey o)) (vout tx) = true) by (apply existsb_exists; exists o; split; [now apply nth_error_In in Hj | exact Hh]).
  destruct (isFull f) eqn:EF.
  - unfold IsRelevantAndUpdate. rewrite EF. cbn [fst snd]. split; [reflexivity|]. unfold contains_outpoint, contains. rewrite EF. reflexivity.
  - pose proof (hit_active f _ Hh EF) as EE. split; [rewrite IsRelevantAndUpdate_spec, EF, EE, He, !orb_true_r; reflexivity|].
    unfold IsRelevantAndUpdate. rewrite EF, EE.
    pose proof (match_outputs_follow (GetHash tx) (vout tx) 0 (contains f (GetHash tx)) f j o Hu Hj Hh HF) as H.
    destruct (match_outputs _ _ _ _ _) as [[] g]; exact H.
Qed.

(** [Solver] is defined wherever [IsRelevantAndUpdate] calls it. *)
Lemma script_hit_solver f s : hit f s = true -> Solver s <> None.
Proof.
  intros H. assert (Hs : s <> [Script.value Script.OP_ZEROCOINMINT]) by (intros ->; vm_compute in H; discriminate).
  destruct (Solver_shaped s Hs) as (r & -> & _). discriminate.
Qed.

(** * The shortcuts for empty and full filters *)

Lemma test_bit_full v q : Forall (eq 255) v -> (q < 8 * length v)%nat -> test_bit v q = true.
Proof.
  intros Hv Hq. rewrite test_bit_eq. assert (Hi : (q / 8 < length v)%nat) by (apply Nat.Div0.div_lt_upper_bound; lia).
  rewrite Forall_forall in Hv. rewrite <- (Hv _ (nth_In v 0 Hi)). change 255 with (Z.ones 8).
  pose proof (Nat.mod_upper_bound q 8 ltac:(lia)). apply Z.ones_spec_low. lia.
Qed.

Lemma test_bit_empty v q : Forall (eq 0) v -> test_bit v q = false.
Proof.
  intros Hv. rewrite test_bit_eq. destruct (Nat.lt_ge_cases (q / 8) (length v)) as [Hi|Hi]; [|rewrite nth_overflow by exact Hi; apply Z.bits_0].
  rewrite Forall_forall in Hv. rewrite <- (Hv _ (nth_In v 0 Hi)). apply Z.bits_0.
Qed.

Lemma forallb_eqb c v : forallb (Z.eqb c) v = true -> Forall (eq c) v.
Proof. intros H. apply Forall_forall. intros x Hx. rewrite forallb_forall in H. now apply Z.eqb_eq, H. Qed.

Lemma UpdateEmptyFull_sound f k : vData f <> [] -> 0 < nHashFuncs f -> contains (UpdateEmptyFull f) k = forallb (get_index (vData f)) (probes f k).
Proof.
  intros Hv Hn. assert (EP : probes (UpdateEmptyFull f) k = probes f k) by (apply shape_probes; reflexivity). pose proof (probes_range f k Hv) as R.
  unfold contains. cbn [UpdateEmptyFull isFull isEmpty vData]. destruct (forallb (Z.eqb 255) (vData f)) eqn:EF.
  - symmetry. apply forallb_forall. intros x Hx. rewrite Forall_forall in R. specialize (R x Hx). rewrite get_index_eq by lia.
    apply test_bit_full; [now apply forallb_eqb | lia].
  - destruct (forallb (Z.eqb 0) (vData f)) eqn:EE.
    + assert (Hp : exists x l, probes f k = x :: l).
      { unfold probes, funcs. destruct (Z.to_nat (nHashFuncs f)) eqn:E; [lia|]. cbn. eauto. }
      destruct Hp as (x & l & Hp). rewrite Hp in *. inversion R; subst. cbn [forallb]. rewrite get_index_eq by lia. now rewrite test_bit_empty by (apply forallb_eqb; exact EE).
    + rewrite <- EP. unfold probes. change (funcs (UpdateEmptyFull f)) with (funcs f). induction (funcs f) as [|i l IH]; cbn [forallb map]; [reflexivity | now rewrite IH].
Qed.

(** * Theorems *)

(** A filter in use: extended, and consulted on transactions. *)
Inductive filter_run : CBloomFilter -> CBloomFilter -> Prop :=
| run_done f : filter_run f f
| run_insert f k g : filter_run (insert f k) g -> filter_run f g
| run_relevant f tx g : filter_run (snd (IsRelevantAndUpdate f tx)) g -> filter_run f g.

Lemma filter_run_grows f g : filter_run f g -> usable f -> grows f g.
Proof.
  induction 1 as [f|f k g _ IH|f tx g _ IH]; intros Hu; [reflexivity| |].
  - pose proof (insert_grows f k Hu) as G. transitivity (insert f k); [exact G|]. exact (IH (grows_usable _ _ G Hu)).
  - pose proof (IsRelevantAndUpdate_grows f tx Hu) as G. transitivity (snd (IsRelevantAndUpdate f tx)); [exact G|]. exact (IH (grows_usable _ _ G Hu)).
Qed.

(** No false negatives: a key inserted into a filter is contained in it ever
    after, however it is extended and used. *)
Theorem bloom_no_false_negatives f k g : usable f -> filter_run (insert f k) g -> contains g k = true.
Proof.
  intros Hu R. apply (grows_contains (insert f k)); [|now apply contains_insert].
  apply filter_run_grows; [exact R | now apply insert_usable].
Qed.

Definition example_filter : CBloomFilter := CBloomFilter_new 64 (fun bits => bits / 2) 8 2147483649 BLOOM_UPDATE_ALL.

Lemma bloom_no_false_negatives_witness :
  let g := insert (insert example_filter [1; 2; 3]) [9] in contains example_filter [1; 2; 3] = false /\ contains g [1; 2; 3] = true.
Proof.
  intros g. split; [vm_compute; reflexivity|]. apply (bloom_no_false_negatives example_filter [1; 2; 3] g); [right; discriminate|].
  apply (run_insert _ [9]). apply run_done.
Defined.

(** C37: A filter that asks for it follows the outputs it matches: once a
    transaction with a matching output has been seen, every transaction that
    spends the output is relevant, whatever happened to the filter meanwhile. *)
Theorem bloom_follows_spends f tx j o g tx2 :
  usable f -> nth_error (vout tx) j = Some o -> hit f (scriptPubKey o) = true -> followed f (scriptPubKey o) ->
  filter_run (snd (IsRelevantAndUpdate f tx)) g -> In (mkOutPoint (GetHash tx) (Z.of_nat j)) (map prevout (vin tx2)) ->
  fst (IsRelevantAndUpdate f tx) = true /\ fst (IsRelevantAndUpdate g tx2) = true.
Proof.
  intros Hu Hj Hh HF R Hin. destruct (relevant_follows f tx j o Hu Hj Hh HF) as [H1 H2]. split; [exact H1|].
  apply (spend_relevant g (mkOutPoint (GetHash tx) (Z.of_nat j)) tx2); [|exact Hin]. apply (grows_contains (snd (IsRelevantAndUpdate f tx))); [|exact H2].
  apply filter_run_grows; [exact R|]. apply (grows_usable f); [now apply IsRelevantAndUpdate_grows | exact Hu].
Qed.

Definition paying (key : list Z) : CTransaction := mkTransaction 1 [] [CTxOut_new 5 (push_data [] key ++ [value OP_CHECKSIG])] 0.
Definition spending (tx : CTransaction) : CTransaction := mkTransaction 1 [mkTxIn (mkOutPoint (GetHash tx) 0) [] uint256_max32 []] [] 0.

Lemma bloom_follows_spends_witness :
  let f := insert example_filter [7; 7; 7] in
  fst (IsRelevantAndUpdate f (paying [7; 7; 7])) = true /\
  fst (IsRelevantAndUpdate (snd (IsRelevantAndUpdate f (paying [7; 7; 7]))) (spending (paying [7; 7; 7]))) = true.
Proof.
  intros f. apply (bloom_follows_spends f (paying [7; 7; 7]) 0 (CTxOut_new 5 (push_data [] [7; 7; 7] ++ [value OP_CHECKSIG])));
    [right; discriminate | reflexivity | vm_compute; reflexivity | left; reflexivity | apply run_done | left; reflexivity].
Defined.

(** The flags for empty and full filters never change an answer: whatever a
    peer loads, a lookup gives what probing every bit would give. *)
Theorem UpdateEmptyFull_exact f k : vData f <> [] -> 0 < nHashFuncs f ->
  contains (UpdateEmptyFull f) k = true <-> forall i, 0 <= i < nHashFuncs f -> test_bit (vData f) (Z.to_nat (filter_Hash f i k)) = true.
Proof.
  intros Hv Hn. rewrite (UpdateEmptyFull_sound f k Hv Hn). pose proof (probes_range f k Hv) as R. unfold probes, funcs in *.
  rewrite forallb_forall. rewrite Forall_forall in R. split.
  - intros H i Hi. assert (Hin : In (filter_Hash f i k) (map (fun i => filter_Hash f i k) (map Z.of_nat (seq 0 (Z.to_nat (nHashFuncs f)))))).
    { apply (in_map (fun i => filter_Hash f i k)). apply in_map_iff. exists (Z.to_nat i). split; [lia|]. apply in_seq. lia. }
    rewrite <- get_index_eq by (apply R in Hin; lia). now apply H.
  - intros H x Hx. rewrite get_index_eq by (apply R in Hx; lia). apply in_map_iff in Hx as (i & <- & Hi). apply in_map_iff in Hi as (j & <- & Hj).
    apply in_seq in Hj. apply H. lia.
Qed.

Lemma UpdateEmptyFull_exact_witness :
  let f := mkFilter [255; 255] true false 3 5 0 in contains (UpdateEmptyFull f) [1] = true.
Proof.
  intros f. apply (UpdateEmptyFull_exact f [1]); [discriminate | reflexivity|]. intros i Hi. apply test_bit_full; [repeat constructor|].
  pose proof (Z.mod_pos_bound (MurmurHash3 (T32 (T32 (i * 0xFBA4C795) + 5)) [1]) 16 ltac:(lia)). unfold filter_Hash. cbn [vData f nTweak length].
  change (Z.of_nat 2 * 8) with 16. lia.
Defined.

(** What happens to the filter of a peer. *)
Inductive peer_step (banscore : Z) (node_bloom : bool) : peer -> peer -> Prop :=
| step_message m p p' : ProcessFilterMessage banscore node_bloom m p = Some p' -> peer_step banscore node_bloom p p'
| step_transaction tx p f : pfilter p = Some f ->
    peer_step banscore node_bloom p (mkPeer (Some (snd (IsRelevantAndUpdate f tx))) (fRelayTxes p) (State p)).

Inductive reachable (banscore : Z) (node_bloom : bool) : peer -> Prop :=
| reach_start b : reachable banscore node_bloom (mkPeer None b (mkNodeState 0 false))
| reach_step p p' : reachable banscore node_bloom p -> peer_step banscore node_bloom p p' -> reachable banscore node_bloom p'.

Definition filter_safe (p : peer) : Prop := forall f, pfilter p = Some f -> usable f /\ IsWithinSizeConstraints f = true.

Lemma constraints_shape f g : shape g = shape f -> IsWithinSizeConstraints g = IsWithinSizeConstraints f.
Proof. unfold shape, IsWithinSizeConstraints. now intros [= -> -> _ _]. Qed.

Lemma grows_safe f g b l : grows f g -> usable f -> IsWithinSizeConstraints f = true -> filter_safe (mkPeer (Some g) b l).
Proof.
  intros G Hu Hc h [= <-]. split; [now apply (grows_usable f)|]. rewrite (constraints_shape f); [exact Hc | apply G].
Qed.

Lemma load_usable f : usable (UpdateEmptyFull f).
Proof. unfold usable. destruct f as [[|x v] ? ? ? ? ?]; [now left | right; discriminate]. Qed.

Lemma peer_step_safe bs nb p p' : peer_step bs nb p p' -> filter_safe p -> filter_safe p'.
Proof.
  intros S Hp. destruct S as [m p p' H | tx p f Hf].
  - unfold ProcessFilterMessage in H. destruct nb; cbn [negb] in H; [|injection H as <-; exact Hp]. destruct m as [v|v|].
    + destruct (Unserialize _ v) as [f rest|]; [|discriminate]. destruct (IsWithinSizeConstraints f) eqn:E; cbn [negb] in H; injection H as <-.
      * intros g [= <-]. split; [apply load_usable | exact E].
      * exact Hp.
    + destruct (Unserialize _ v) as [d rest|]; [|discriminate]. destruct (_ >? _); [injection H as <-; exact Hp|].
      destruct (pfilter p) as [f|] eqn:E; injection H as <-; [|intros g Hg; cbn in Hg; congruence].
      destruct (Hp f E) as [Hu Hc]. now apply (grows_safe f); [apply insert_grows|..].
    + injection H as <-. intros g [= <-]. split; [now left | reflexivity].
  - destruct (Hp f Hf) as [Hu Hc]. now apply (grows_safe f); [apply IsRelevantAndUpdate_grows|..].
Qed.

Lemma reachable_safe bs nb p : reachable bs nb p -> filter_safe p.
Proof. induction 1 as [b|p p' _ IH S]; [intros g [=] | now apply (peer_step_safe bs nb p)]. Qed.

(** C38: Whatever filter messages a peer sends and whatever it is served, its
    filter stays within the size limits, is never probed modulo a size of
    zero, and every probed byte exists. *)
Theorem peer_filter_safe bs nb p f k : reachable bs nb p -> pfilter p = Some f ->
  Z.of_nat (length (vData f)) <= MAX_BLOOM_FILTER_SIZE /\ nHashFuncs f <= MAX_HASH_FUNCS /\
  (isFull f = true \/ length (vData f) <> 0%nat /\
     forall i, 0 <= i < nHashFuncs f -> 0 <= filter_Hash f i k >> 3 < Z.of_nat (length (vData f))).
Proof.
  intros R Hf. pose proof (reachable_safe bs nb p R) as HS.
  destruct (HS f Hf) as [Hu Hc]. unfold IsWithinSizeConstraints in Hc. apply andb_true_iff in Hc as [H1 H2]. split; [lia|]. split; [lia|].
  destruct Hu as [Hu|Hu]; [now left|right]. assert (HL : length (vData f) <> 0%nat) by (now destruct (vData f)). split; [exact HL|].
  intros i _. rewrite Z.shiftr_div_pow2 by lia. change (2 ^ 3) with 8.
  pose proof (Z.mod_pos_bound (MurmurHash3 (T32 (T32 (i * 0xFBA4C795) + nTweak f)) k) (Z.of_nat (length (vData f)) * 8) ltac:(lia)) as B.
  fold (filter_Hash f i k) in B. split; [apply Z.div_pos; lia | apply Z.div_lt_upper_bound; lia].
Qed.

Lemma peer_filter_safe_witness :
  exists p f, reachable 100 true p /\ pfilter p = Some f /\ vData f = [] /\ isFull f = true /\ Z.of_nat (length (vData f)) <= MAX_BLOOM_FILTER_SIZE.
Proof.
  set (load := filterload [0; 5; 0; 0; 0; 1; 0; 0; 0; 0]). destruct (ProcessFilterMessage 100 true load (mkPeer None false (mkNodeState 0 false))) as [p|] eqn:E; [|discriminate E].
  assert (R : reachable 100 true p) by (apply (reach_step 100 true (mkPeer None false (mkNodeState 0 false))); [constructor | now apply (step_message 100 true load)]).
  exists p, (mkFilter [] true true 5 1 0). vm_compute in E. injection E as <-.
  split; [exact R|]. split; [reflexivity|]. split; [reflexivity|]. split; [reflexivity|]. apply (peer_filter_safe 100 true _ _ [] R eq_refl).
Defined.

End Bloom.
