(* ===== verification/MerkleBlock.v ===== *)
(** [CMerkleBlock] ([src/src/merkleblock.h], [merkleblock.cpp]): a block
    filtered for a light client, through its Bloom filter into a partial
    Merkle tree. *)
From Stdlib Require Import RelationClasses.
From S2P Require Import Prelude SphTypes Params HashStream Sha256 Merkle Script Serialize Transaction Block PartialMerkle Bloom.

Module MerkleBlock.
Import Merkle Serialize Transaction PartialMerkle Bloom.

#[local] Opaque Transaction.GetHash Sha256.Hash.

(** [vMatchedTxn] is not part of the message. *)
Record CMerkleBlock : Type := mkMerkleBlock {
  header : Block.CBlockHeader; txn : CPartialMerkleTree; vMatchedTxn : list (Z * list Z)
}.

(** The loop of the constructor from transaction [i]: [vMatch], [vMatchedTxn],
    [vHashes] and the filter. *)
Fixpoint filter_loop (i : Z) (vtx : list CTransaction) (filter : CBloomFilter) : list bool * list (Z * list Z) * list (list Z) * CBloomFilter :=
  match vtx with
  | [] => ([], [], [], filter)
  | tx :: vtx =>
      let hash := Transaction.GetHash tx in
      let '(relevant, filter) := IsRelevantAndUpdate filter tx in
      let '(vMatch, vMatchedTxn, vHashes, filter) := filter_loop (i + 1) vtx filter in
      (relevant :: vMatch, if relevant then (i, hash) :: vMatchedTxn else vMatchedTxn, hash :: vHashes, filter)
  end.

Definition CMerkleBlock_new (block : Block.CBlock) (filter : CBloomFilter) : CMerkleBlock * CBloomFilter :=
  let '(vMatch, vMatchedTxn, vHashes, filter) := filter_loop 0 (Block.vtx block) filter in
  (mkMerkleBlock (Block.header block) (CPartialMerkleTree_new vHashes vMatch) vMatchedTxn, filter).

Definition CMerkleBlock_format : format CMerkleBlock :=
  wrap_format (pair_format Block.CBlockHeader_format CPartialMerkleTree_format)
    (fun m => (header m, txn m)) (fun p => mkMerkleBlock (fst p) (snd p) []).

(** * Hashes are 32 bytes *)

Lemma be32_u8 x : Forall u8 (Sha256.WriteBE32 x).
Proof. repeat constructor; apply T8_u8. Qed.

Lemma output_flat s : flat 32 (Sha256.output s).
Proof.
  unfold Sha256.output. split; [now rewrite (flat_map_constant_length (c := 4)) by reflexivity|].
  apply Forall_flat_map, Forall_forall. intros j _. apply be32_u8.
Qed.

#[local] Transparent Sha256.Hash.
Lemma Hash_flat p : flat 32 (Sha256.Hash p).
Proof. apply output_flat. Qed.
#[local] Opaque Sha256.Hash.

#[local] Transparent Transaction.GetHash.
Lemma GetHash_flat tx : flat 32 (Transaction.GetHash tx).
Proof. apply Hash_flat. Qed.
#[local] Opaque Transaction.GetHash.

(** * The loop *)

Lemma match_input_grows f g i : grows f g -> match_input f i = true -> match_input g i = true.
Proof.
  intros G. unfold match_input. rewrite !orb_true_iff. intros [H|H]; [left; now apply (grows_contains _ _ G) | right; now apply (script_hit_grows f)].
Qed.

Lemma hit_full f s : isFull f = false -> isEmpty f = true -> hit f s = false.
Proof. intros HF HE. destruct (hit f s) eqn:E; [|reflexivity]. pose proof (hit_active f s E HF). congruence. Qed.

Lemma existsb_impl {A} (p q : A -> bool) l : (forall x, p x = true -> q x = true) -> existsb p l = true -> existsb q l = true.
Proof. intros H. rewrite !existsb_exists. intros (x & Hx & E). exists x. split; [exact Hx | now apply H]. Qed.

Lemma active_grows f g : grows f g -> forall s, contains f s = true -> isFull g || negb (isEmpty g) = true.
Proof. intros G s H. apply (contains_active g s), (grows_contains _ _ G), H. Qed.

Lemma script_hit_contains f fuel : forall pc, script_hit f fuel pc = true -> exists d, contains f d = true.
Proof.
  induction fuel as [|fuel IH]; intros [|b pc]; cbn [script_hit]; try discriminate. destruct (Script.GetOp _) as [[[op data] pc']|]; [|discriminate].
  destruct (contains f data) eqn:E; [intros _; now exists data | rewrite andb_false_r; apply IH].
Qed.

(** What was relevant stays relevant as the filter grows. *)
Lemma relevant_grows f g tx : grows f g -> fst (IsRelevantAndUpdate f tx) = true -> fst (IsRelevantAndUpdate g tx) = true.
Proof.
  intros G. rewrite !IsRelevantAndUpdate_spec, (grows_full _ _ G). destruct (isFull f) eqn:EF; [reflexivity|]. cbn [orb]. rewrite !andb_true_iff, !orb_true_iff.
  intros [HE H]. assert (HA : exists d, contains f d = true).
  { destruct H as [[H|H]|H]; [now exists (Transaction.GetHash tx)| |]; apply existsb_exists in H as (x & _ & H).
    - exact (script_hit_contains _ _ _ H).
    - unfold match_input in H. apply orb_true_iff in H as [H|H]; [eauto | exact (script_hit_contains _ _ _ H)]. }
  destruct HA as (d & Hd). pose proof (active_grows f g G d Hd) as HG. rewrite (grows_full _ _ G), EF in HG. split; [exact HG|].
  destruct H as [[H|H]|H]; [left; left; now apply (grows_contains _ _ G) | left; right | right]; revert H; apply existsb_impl; intros x Hx.
  - now apply (script_hit_grows f).
  - now apply (match_input_grows f).
Qed.

Lemma filter_loop_shape vtx : forall i f, let '(m, t, h, g) := filter_loop i vtx f in
  length m = length vtx /\ h = map Transaction.GetHash vtx /\ map snd t = matching h m.
Proof.
  induction vtx as [|tx vtx IH]; intros i f; cbn [filter_loop]; [now repeat split|].
  destruct (IsRelevantAndUpdate f tx) as [r f']. specialize (IH (i + 1) f'). destruct (filter_loop (i + 1) vtx f') as [[[m t] h] g].
  destruct IH as (Hm & Hh & Ht). split; [cbn; now rewrite Hm|]. split; [cbn; now rewrite Hh|]. unfold matching. cbn [combine filter snd].
  destruct r; cbn [map fst snd]; [exact (f_equal (cons _) Ht) | exact Ht].
Qed.

Lemma filter_loop_grows vtx : forall i f, usable f -> grows f (snd (filter_loop i vtx f)).
Proof.
  induction vtx as [|tx vtx IH]; intros i f Hu; cbn [filter_loop]; [reflexivity|].
  pose proof (IsRelevantAndUpdate_grows f tx Hu) as G. destruct (IsRelevantAndUpdate f tx) as [r f']. cbn [snd] in G.
  specialize (IH (i + 1) f' (grows_usable _ _ G Hu)). destruct (filter_loop (i + 1) vtx f') as [[[m t] h] g]. cbn [snd] in *. now transitivity f'.
Qed.

Definition matched (r : list bool * list (Z * list Z) * list (list Z) * CBloomFilter) : list (Z * list Z) := snd (fst (fst r)).

Lemma filter_loop_relevant vtx : forall i f j tx, usable f -> nth_error vtx j = Some tx -> fst (IsRelevantAndUpdate f tx) = true ->
  In (i + Z.of_nat j, Transaction.GetHash tx) (matched (filter_loop i vtx f)).
Proof.
  induction vtx as [|tx' vtx IH]; intros i f [|j] tx Hu Hj Hr; try discriminate Hj; cbn [filter_loop]; cbn [nth_error] in Hj.
  - injection Hj as ->. destruct (IsRelevantAndUpdate f tx) as [r f']. cbn [fst] in Hr. subst r. destruct (filter_loop _ _ _) as [[[m t] h] g].
    left. now rewrite Z.add_0_r.
  - pose proof (IsRelevantAndUpdate_grows f tx' Hu) as G. destruct (IsRelevantAndUpdate f tx') as [r f']. cbn [snd] in G.
    specialize (IH (i + 1) f' j tx (grows_usable _ _ G Hu) Hj (relevant_grows f f' tx G Hr)). unfold matched in *.
    destruct (filter_loop (i + 1) vtx f') as [[[m t] h] g]. cbn [fst snd] in *. replace (i + Z.of_nat (S j)) with (i + 1 + Z.of_nat j) by lia.
    destruct r; [now right | exact IH].
Qed.

(** A transaction of the block that spends a matched and followed output of an
    earlier one. *)
Lemma filter_loop_follows vtx : forall i f j k tx1 tx2 n o, usable f -> (j < k)%nat -> nth_error vtx j = Some tx1 -> nth_error vtx k = Some tx2 ->
  nth_error (vout tx1) n = Some o -> hit f (scriptPubKey o) = true -> followed f (scriptPubKey o) ->
  In (mkOutPoint (Transaction.GetHash tx1) (Z.of_nat n)) (map prevout (vin tx2)) ->
  In (i + Z.of_nat k, Transaction.GetHash tx2) (matched (filter_loop i vtx f)).
Proof.
  induction vtx as [|tx vtx IH]; intros i f [|j] [|k] tx1 tx2 n o Hu Hjk Hj Hk Hn Hh HF Hin; try discriminate Hj; try lia; cbn [filter_loop nth_error] in *.
  - injection Hj as ->. destruct (relevant_follows f tx1 n o Hu Hn Hh HF) as [_ Hc]. pose proof (IsRelevantAndUpdate_grows f tx1 Hu) as G.
    destruct (IsRelevantAndUpdate f tx1) as [r f']. cbn [snd] in *.
    pose proof (filter_loop_relevant vtx (i + 1) f' k tx2 (grows_usable _ _ G Hu) Hk (spend_relevant _ _ _ Hc Hin)) as H. unfold matched in *.
    destruct (filter_loop (i + 1) vtx f') as [[[m t] h] g]. cbn [fst snd] in *. replace (i + Z.of_nat (S k)) with (i + 1 + Z.of_nat k) by lia.
    destruct r; [now right | exact H].
  - pose proof (IsRelevantAndUpdate_grows f tx Hu) as G. destruct (IsRelevantAndUpdate f tx) as [r f']. cbn [snd] in G.
    specialize (IH (i + 1) f' j k tx1 tx2 n o (grows_usable _ _ G Hu) ltac:(lia) Hj Hk Hn (script_hit_grows f f' G _ _ Hh)
      (followed_shape f f' _ (grows_shape _ _ G) HF) Hin). unfold matched in *.
    destruct (filter_loop (i + 1) vtx f') as [[[m t] h] g]. cbn [fst snd] in *. replace (i + Z.of_nat (S k)) with (i + 1 + Z.of_nat k) by lia.
    destruct r; [now right | exact IH].
Qed.

Lemma wrap_read {A B} (F : format A) (to : B -> A) (from : A -> B) s a rest :
  Unserialize F s = Read a rest -> Unserialize (wrap_format F to from) s = Read (from a) rest.
Proof. intros H. cbn [Unserialize wrap_format]. exact (bind_eq _ _ _ _ _ H). Qed.

(** C35: The filtered block a client receives proves against the root of the
    block, in order, exactly the transactions the server lists as matched; none
    that the client's filter is relevant to is missing, nor one that spends,
    in the same block, a followed output of an earlier transaction. *)
Theorem merkle_block_delivers block f rest :
  usable f -> (0 < length (Block.vtx block))%nat -> Z.of_nat (length (Block.vtx block)) <= Params.MAX_BLOCK_SIZE_CURRENT / 60 ->
  Block.header_ok (Block.header block) ->
  let m := fst (CMerkleBlock_new block f) in
  (exists m', Unserialize CMerkleBlock_format (Serialize CMerkleBlock_format m ++ rest) = Read m' rest /\ header m' = Block.header block /\
     ExtractMatches (txn m') = (snd (BuildMerkleTree (map Transaction.GetHash (Block.vtx block))), map snd (vMatchedTxn m))) /\
  (forall j tx, nth_error (Block.vtx block) j = Some tx -> fst (IsRelevantAndUpdate f tx) = true ->
     In (Z.of_nat j, Transaction.GetHash tx) (vMatchedTxn m)) /\
  (forall j k tx1 tx2 n o, (j < k)%nat -> nth_error (Block.vtx block) j = Some tx1 -> nth_error (Block.vtx block) k = Some tx2 ->
     nth_error (vout tx1) n = Some o -> hit f (scriptPubKey o) = true -> followed f (scriptPubKey o) ->
     In (mkOutPoint (Transaction.GetHash tx1) (Z.of_nat n)) (map prevout (vin tx2)) ->
     In (Z.of_nat k, Transaction.GetHash tx2) (vMatchedTxn m)).
Proof.
  intros Hu H0 Hmax Hh m. subst m. unfold CMerkleBlock_new. pose proof (filter_loop_shape (Block.vtx block) 0 f) as HS.
  pose proof (filter_loop_relevant (Block.vtx block) 0 f) as HR. pose proof (filter_loop_follows (Block.vtx block) 0 f) as HF. unfold matched in *.
  destruct (filter_loop 0 (Block.vtx block) f) as [[[vm t] h] g]. destruct HS as (Hm & -> & Ht). cbn [fst snd] in *.
  split; [|split; [intros j tx; exact (HR j tx Hu) | intros j k tx1 tx2 n o; exact (HF j k tx1 tx2 n o Hu)]].
  assert (Hflat : Forall (flat 32) (map Transaction.GetHash (Block.vtx block))) by (apply Forall_map, Forall_forall; intros tx _; apply GetHash_flat).
  assert (HL : length (map Transaction.GetHash (Block.vtx block)) = length (Block.vtx block)) by apply length_map.
  destruct (partial_merkle_complete_spec (map Transaction.GetHash (Block.vtx block)) vm rest ltac:(unfold Merkle.hash; lia) ltac:(unfold Merkle.hash; lia) ltac:(unfold Merkle.hash; lia) Hflat) as (pt & E & X).
  exists (mkMerkleBlock (Block.header block) pt []). split; [|split; [reflexivity | cbn [txn vMatchedTxn]; rewrite Ht; exact X]].
  apply (wrap_read _ _ (fun p => mkMerkleBlock (fst p) (snd p) []) _ (Block.header block, pt)). cbn [Serialize CMerkleBlock_format wrap_format pair_format fst snd header txn].
  rewrite <- app_assoc. cbn [Unserialize pair_format]. rewrite (bind_eq _ _ _ _ _ (@read_back _ _ _ Block.CBlockHeader_lawful (Block.header block) _ Hh)). now rewrite (bind_eq _ _ _ _ _ E).
Qed.

Definition example_block : Block.CBlock :=
  Block.mkBlock (Block.mkHeader 4 (repeat 3 32) (repeat 4 32) 5 6 7 (repeat 0 32)) [paying [8]; paying [7; 7; 7]; spending (paying [7; 7; 7])] []
    Block.StakePointer_SetNull.

Lemma merkle_block_delivers_witness :
  let f := insert example_filter [7; 7; 7] in let m := fst (CMerkleBlock_new example_block f) in
  In (2, Transaction.GetHash (spending (paying [7; 7; 7]))) (vMatchedTxn m).
Proof.
  intros f m. refine (proj2 (proj2 (merkle_block_delivers example_block f [] _ _ _ _)) 1%nat 2%nat (paying [7; 7; 7]) _ 0%nat
    (CTxOut_new 5 (Script.push_data [] [7; 7; 7] ++ [Script.value Script.OP_CHECKSIG])) _ _ _ _ _ _ _).
  - right; discriminate.
  - cbn; lia.
  - vm_compute; discriminate.
  - repeat split; try (unfold in_width, in_signed; cbn; lia); repeat constructor; unfold u8; lia.
  - lia.
  - reflexivity.
  - reflexivity.
  - reflexivity.
  - vm_compute; reflexivity.
  - left; reflexivity.
  - left; reflexivity.
Defined.

End MerkleBlock.
