(* ===== verification/StakePointers.v ===== *)
(** Proof of stake by masternode payments: [RebuildStakePointerCache],
    [IsStakePointerUsed], [CheckBlockProofPointer] and [CheckStake] of
    [src/src/main.cpp], and what [ConnectBlock] and [DisconnectBlock] do to
    [mapUsedStakePointers].

    The index is that of [Chain]; the fields of [CBlockIndex] it leaves out and
    this part reads are the record [stake_index], given per position, and the
    two [ReadBlockFromDisk] are parameters. *)
From stdpp Require Import base list gmap fin_maps.
From S2P Require Import Prelude SphTypes BaseUint Uint256 Hex Params Chain Kernel Script Standard Sha256 Merkle Serialize Transaction Block.

Module StakePointers.
Import BaseUint Uint256 Params Chain Transaction Block.

#[local] Opaque Sha256.Hash Transaction.GetHash Kernel.hash_stream.

(** [nVersion], [prevoutStake] and [nStatus] of an entry. *)
Record stake_index : Type := mkStakeIndex { i_nVersion : Z; prevoutStake : COutPoint; i_nStatus : Z }.

Definition BLOCK_HAVE_DATA : Z := 8.

(** What [CBlockIndex(const CBlock&)] and [AddToBlockIndex] give the entry of a
    block, before its data is stored. *)
Definition stake_index_of (b : CBlock) : stake_index :=
  mkStakeIndex (nVersion (header b)) (if IsProofOfStake b then fst (GetProofOfStake b) else COutPoint_SetNull) 0.

Definition uint256_of (h : list Z) : base_uint := Hex.of_bytes WIDTH h.

(** [StakePointerHash] *)
Definition StakePointerHash (outpoint : COutPoint) : list Z := Sha256.Hash (Serialize.Serialize COutPoint_format outpoint).

(** [mapUsedStakePointers]: the hash of a pointer to the hash of the block that
    consumes it. *)
Abbreviation used_map := (gmap (list Z) (list Z)) (only parsing).

Section WithParams.
Context {P : CChainParams}.
Variable XEVAN : list Z -> list Z.
Variable Verify : list Z -> list Z -> list Z -> bool.

(** A block that records its pointer. *)
Definition v5_stake (height : Z) (b : CBlock) : bool :=
  IsProofOfStake b && (nVersion (header b) >=? 5) && (height >=? StakePointerForkHeight) && negb (StakePointer_IsNull (stakePointer b)).

Definition pointer_key (b : CBlock) : list Z := StakePointerHash (outpointPointer (stakePointer b)).

(** The end of [ConnectBlock]; [None] is the rejection "stake-pointer-reuse". *)
Definition connect_pointer (height : Z) (b : CBlock) (used : used_map) : option used_map :=
  if v5_stake height b then
    match used !! pointer_key b with
    | Some _ => None
    | None => Some (<[pointer_key b := GetHash XEVAN (header b)]> used)
    end
  else Some used.

(** The end of [DisconnectBlock]. *)
Definition disconnect_pointer (height : Z) (b : CBlock) (used : used_map) : used_map :=
  if v5_stake height b then delete (pointer_key b) used else used.

Section Index.
Variable m : index.
Variable ext : nat -> stake_index.
(** [ReadBlockFromDisk(block, pindex)], which checks the hash of the block, and
    [ReadBlockFromDisk(block, pindex->GetBlockPos())], which does not. *)
Variables disk disk_pos : nat -> option CBlock.

(** The [while] loop of [RebuildStakePointerCache]; the heights
    go down to zero, so the height of the first entry is enough fuel. *)
Fixpoint rebuild_loop (fuel : nat) (nStopHeight : Z) (pindex : option nat) (used : used_map) : used_map :=
  match fuel, pindex with
  | S fuel, Some p =>
      match deref m p with
      | None => used
      | Some e =>
          if nHeight e >? nStopHeight then
            let used :=
              if (i_nVersion (ext p) >=? 5) && Chain.IsProofOfStake e then
                match disk p with
                | Some block =>
                    if IsProofOfStake block && (nVersion (header block) >=? 5) && negb (StakePointer_IsNull (stakePointer block))
                    then <[pointer_key block := GetHash XEVAN (header block)]> used else used
                | None => used
                end
              else used in
            rebuild_loop fuel nStopHeight (pprev e) used
          else used
      end
  | _, _ => used
  end.

Definition RebuildStakePointerCache (v : CChain) : used_map :=
  match Tip v with
  | None => ∅
  | Some p =>
      match deref m p with
      | None => ∅
      | Some e =>
          if nHeight e <? StakePointerForkHeight then ∅
          else
            let nStopHeight := Z.max (nHeight e - ValidStakePointerDuration) (StakePointerForkHeight - 1) in
            rebuild_loop (S (Z.to_nat (nHeight e))) nStopHeight (Some p) ∅
      end
  end.

(** The body of the loop of [IsStakePointerUsed]. *)
Definition consumes (p : nat) (e : CBlockIndex) (outpointPointer : COutPoint) : bool :=
  Chain.IsProofOfStake e && (i_nVersion (ext p) >=? 5) &&
  (COutPoint_eq (prevoutStake (ext p)) outpointPointer ||
   COutPoint_IsNull (prevoutStake (ext p)) && negb (i_nStatus (ext p) .& BLOCK_HAVE_DATA =? 0) &&
     match disk p with
     | Some block =>
         IsProofOfStake block && (nVersion (header block) >=? 5) && negb (StakePointer_IsNull (stakePointer block)) &&
         COutPoint_eq (Block.outpointPointer (stakePointer block)) outpointPointer
     | None => false
     end).

Fixpoint used_loop (fuel : nat) (nStopHeight : Z) (pindex : option nat) (outpointPointer : COutPoint) : bool :=
  match fuel, pindex with
  | S fuel, Some p =>
      match deref m p with
      | None => false
      | Some e =>
          if nHeight e >=? nStopHeight
          then if consumes p e outpointPointer then true else used_loop fuel nStopHeight (pprev e) outpointPointer
          else false
      end
  | _, _ => false
  end.

Definition IsStakePointerUsed (pindexPrev : option nat) (outpointPointer : COutPoint) : bool :=
  match pindexPrev with
  | None => false
  | Some p =>
      match deref m p with
      | None => false
      | Some e =>
          let nStopHeight := Z.max StakePointerForkHeight (nHeight e - ValidStakePointerDuration + 1) in
          used_loop (S (Z.to_nat (nHeight e))) nStopHeight (Some p) outpointPointer
      end
  end.

(** The key to check the signature of the block with, and the pointer. *)
Definition CheckBlockProofPointer (v : CChain) (pindexPrev : nat) (nNewHeight : Z) (block : CBlock) : option (list Z * COutPoint) :=
  let sp := stakePointer block in
  match Kernel.find_block m (uint256_of (hashBlock sp)) with
  | None => None
  | Some pindexFrom =>
      match deref m pindexFrom with
      | None => None
      | Some from =>
          if negb (Contains m v pindexFrom) then None
          else if nHeight from <? nNewHeight - ValidStakePointerDuration then None
          else if nHeight from >? nNewHeight - MaxReorganizationDepth then None
          else if IsStakePointerUsed (Some pindexPrev) (outpointPointer sp) then None
          else
            match disk_pos pindexFrom with
            | None => None
            | Some blockFrom =>
                match List.find (fun tx => Merkle.eq_hash (Transaction.GetHash tx) (txid sp)) (vtx blockFrom) with
                | None => None
                | Some tx =>
                    if nPos sp >=? Z.of_nat (length (vout tx)) then None
                    else
                      match Standard.ExtractDestination (scriptPubKey (vout_at tx (Z.to_nat (nPos sp)))) with
                      | Some (Some (Standard.CKeyID id)) =>
                          if negb (Standard.key_size (pubKeyCollateral sp) =? 33)%nat then None
                          else if negb (eq_script (Standard.GetID (pubKeyCollateral sp)) id) then None
                          else if negb (eq_script (Standard.key_bytes (pubKeyProofOfStake sp)) (Standard.key_bytes (pubKeyCollateral sp)) &&
                                        ((pubKeyProofOfStake sp).[0] =? (pubKeyCollateral sp).[0])) &&
                                  negb (VerifyCollateralSignOver Verify sp) then None
                          else Some (pubKeyProofOfStake sp, outpointPointer sp)
                      | _ => None
                      end
                end
            end
      end
  end.

(** [None] is an access out of range. *)
Definition CheckStake (GetAdjustedTime : Z) (v : CChain) (pindexPrev : nat) (block : CBlock) : option bool :=
  match deref m pindexPrev with
  | None => None
  | Some prev =>
      let nNewHeight := nHeight prev + 1 in
      match vtx block with
      | tx0 :: tx1 :: _ =>
          if negb (IsProofOfStake block) then Some false
          else if nVersion (header block) <? 5 then Some false
          else if negb (IsV5CoinStake tx1) then Some false
          else if StakePointer_IsNull (stakePointer block) then Some false
          else
            match vout tx0 with
            | [] => None
            | o :: _ =>
                if negb (nValue o =? 0) then Some false
                else
                  match CheckBlockProofPointer v pindexPrev nNewHeight block with
                  | None => Some false
                  | Some (pubkeyMasternode, outpointStakePointer) =>
                      if negb (CheckBlockSignature_with XEVAN Verify block pubkeyMasternode) then Some false
                      else
                        match Kernel.find_block m (uint256_of (hashBlock (stakePointer block))) with
                        | None => Some false
                        | Some pindexFrom =>
                            Kernel.CheckStakePointerKernelHash GetAdjustedTime m (nBits (header block))
                              (Kernel.mkOutPoint (uint256_of (hash outpointStakePointer)) (n outpointStakePointer))
                              pindexFrom pindexPrev (nTime (header block))
                        end
                  end
            end
      | _ => Some false
      end
  end.
End Index.
End WithParams.

(** * The loops over a branch *)

Section Branch.
Context {P : CChainParams}.
Variables (m : index) (ext : nat -> stake_index) (disk : nat -> option CBlock).
Hypothesis Hw : wf m.

Lemma used_loop_complete o stop : forall k fuel p e q c, deref m p = Some e -> up m k p = Some q -> deref m q = Some c ->
  nHeight e = nHeight c + Z.of_nat k -> stop <= nHeight c -> consumes ext disk q c o = true -> (k < fuel)%nat ->
  used_loop m ext disk fuel stop (Some p) o = true.
Proof using Hw.
  induction k as [|k IH]; intros fuel p e q c Hp Hk Hq Hh Hs Hc Hf; (destruct fuel as [|fuel]; [lia|]); cbn [used_loop]; rewrite Hp;
    (destruct (Z.geb_spec (nHeight e) stop); [|lia]).
  - cbn [up] in Hk. injection Hk as ->. rewrite Hp in Hq. injection Hq as ->. now rewrite Hc.
  - destruct (consumes ext disk p e o); [reflexivity|]. cbn [up] in Hk. rewrite Hp in Hk. destruct (Hw p e Hp) as [_ HE].
    destruct (pprev e) as [r|]; [|discriminate]. destruct HE as [(d & Hr & Hd) _]. apply (IH fuel r d q c); try assumption; lia.
Qed.

Lemma up_heights k : forall p e q c, deref m p = Some e -> up m k p = Some q -> deref m q = Some c -> nHeight e = nHeight c + Z.of_nat k.
Proof using Hw.
  induction k as [|k IH]; intros p e q c Hp Hk Hq; cbn [up] in Hk.
  - injection Hk as ->. rewrite Hp in Hq. injection Hq as ->. lia.
  - rewrite Hp in Hk. destruct (Hw p e Hp) as [_ HE]. destruct (pprev e) as [r|]; [|discriminate].
    destruct HE as [(d & Hr & Hd) _]. rewrite Hd, (IH r d q c Hr Hk Hq). lia.
Qed.

(** A pointer consumed by a block of the branch, not too deep below. *)
Lemma IsStakePointerUsed_complete p e k q c o : deref m p = Some e -> up m k p = Some q -> deref m q = Some c ->
  consumes ext disk q c o = true -> StakePointerForkHeight <= nHeight c -> nHeight e - ValidStakePointerDuration + 1 <= nHeight c ->
  IsStakePointerUsed m ext disk (Some p) o = true.
Proof using Hw.
  intros Hp Hk Hq Hc Hf Hd. unfold IsStakePointerUsed. rewrite Hp. pose proof (up_heights k p e q c Hp Hk Hq) as HH. destruct (Hw q c Hq) as [H0 _].
  apply (used_loop_complete o _ k _ p e q c); try assumption; lia.
Qed.
End Branch.

(** What a successful check has established. *)
Lemma CheckBlockProofPointer_inv {P : CChainParams} Verify m ext disk disk_pos v prev h b key o :
  CheckBlockProofPointer Verify m ext disk disk_pos v prev h b = Some (key, o) ->
  o = outpointPointer (stakePointer b) /\ key = pubKeyProofOfStake (stakePointer b) /\ IsStakePointerUsed m ext disk (Some prev) o = false /\
  exists p e blk tx, Kernel.find_block m (uint256_of (hashBlock (stakePointer b))) = Some p /\ deref m p = Some e /\ Contains m v p = true /\
    h - ValidStakePointerDuration <= nHeight e <= h - MaxReorganizationDepth /\
    disk_pos p = Some blk /\ In tx (vtx blk) /\ Transaction.GetHash tx = txid (stakePointer b) /\ nPos (stakePointer b) < Z.of_nat (length (vout tx)) /\
    Standard.ExtractDestination (scriptPubKey (vout_at tx (Z.to_nat (nPos (stakePointer b))))) =
      Some (Some (Standard.CKeyID (Standard.GetID (pubKeyCollateral (stakePointer b))))) /\
    Standard.key_size (pubKeyCollateral (stakePointer b)) = 33%nat /\
    (Standard.key_bytes key = Standard.key_bytes (pubKeyCollateral (stakePointer b)) \/ VerifyCollateralSignOver Verify (stakePointer b) = true).
Proof.
  unfold CheckBlockProofPointer. destruct (Kernel.find_block _ _) as [p|]; [|discriminate]. destruct (deref m p) as [e|] eqn:Hp; [|discriminate].
  destruct (Contains m v p) eqn:HC; [|discriminate]. cbn [negb]. destruct (Z.ltb_spec (nHeight e) (h - ValidStakePointerDuration)); [discriminate|].
  destruct (Z.gtb_spec (nHeight e) (h - MaxReorganizationDepth)); [discriminate|]. destruct (IsStakePointerUsed _ _ _ _ _) eqn:HU; [discriminate|].
  destruct (disk_pos p) as [blk|] eqn:HB; [|discriminate]. destruct (List.find _ _) as [tx|] eqn:HT; [|discriminate].
  apply find_some in HT as [Hin HT]. apply BaseUint.op_eq_spec in HT. destruct (Z.geb_spec (nPos (stakePointer b)) (Z.of_nat (length (vout tx)))); [discriminate|].
  destruct (Standard.ExtractDestination _) as [[[|id|]|]|] eqn:HE; try discriminate.
  destruct (Nat.eqb_spec (Standard.key_size (pubKeyCollateral (stakePointer b))) 33) as [HK|]; [|discriminate]. cbn [negb].
  unfold eq_script at 1. destruct (list_eq_dec Z.eq_dec _ id) as [HI|]; [|discriminate]. cbn [negb].
  set (same := eq_script _ _ && _). destruct (negb same && negb _) eqn:HV; [discriminate|]. intros [= <- <-].
  split; [reflexivity|]. split; [reflexivity|]. split; [exact HU|]. exists p, e, blk, tx. rewrite <- HI in HE. repeat (split; [assumption || reflexivity || lia|]).
  apply andb_false_iff in HV. destruct HV as [HV|HV]; [left | right; now apply negb_false_iff]. apply negb_false_iff in HV. subst same.
  apply andb_true_iff in HV as [HV _]. unfold eq_script in HV. now destruct (list_eq_dec _ _ _).
Qed.

(** The entry of a block whose body has been received: [ReceivedBlockTransactions]. *)
Definition receive_stake (b : CBlock) (i : stake_index) : stake_index :=
  mkStakeIndex (i_nVersion i) (if IsProofOfStake b then fst (GetProofOfStake b) else prevoutStake i) (i_nStatus i .| BLOCK_HAVE_DATA).

(** The entry [p] is that of the proof-of-stake block [b]. *)
Definition records (ext : nat -> stake_index) (p : nat) (e : CBlockIndex) (b : CBlock) : Prop :=
  Chain.IsProofOfStake e = true /\ 5 <= i_nVersion (ext p) /\ prevoutStake (ext p) = outpointPointer (stakePointer b).

Lemma received_records ext p e b i tx0 tx txs : vtx b = tx0 :: tx :: txs -> IsV5CoinStake tx = true -> IsCoinStake tx = true -> 5 <= nVersion (header b) ->
  Chain.IsProofOfStake e = true -> i = stake_index_of (mkBlock (header b) [] [] StakePointer_SetNull) \/ i = stake_index_of b ->
  ext p = receive_stake b i -> records ext p e b.
Proof.
  intros Hv H5 Hc HV He Hi HE. unfold records. rewrite HE. split; [exact He|].
  assert (HS : IsProofOfStake b = true) by (unfold IsProofOfStake, staked; rewrite Hv; exact Hc).
  assert (HP : fst (GetProofOfStake b) = outpointPointer (stakePointer b)) by (unfold GetProofOfStake; rewrite HS, Hv, H5; reflexivity).
  unfold receive_stake. cbn [i_nVersion prevoutStake]. rewrite HS, HP. split; [|reflexivity]. now destruct Hi as [-> | ->].
Qed.

Lemma COutPoint_eq_refl o : COutPoint_eq o o = true.
Proof. unfold COutPoint_eq. apply andb_true_iff. split; [now apply BaseUint.op_eq_spec | apply Z.eqb_refl]. Qed.

Lemma records_consumes ext disk p e b : records ext p e b -> consumes ext disk p e (outpointPointer (stakePointer b)) = true.
Proof.
  intros (He & HV & HP). unfold consumes. rewrite He, HP, COutPoint_eq_refl. destruct (Z.geb_spec (i_nVersion (ext p)) 5); [reflexivity | lia].
Qed.

(** * The map along the active chain *)

Section Map.
Context {P : CChainParams}.
Variable XEVAN : list Z -> list Z.

(** The blocks of the active chain, the tip first: the height of a block is the
    number of blocks behind it. *)
Abbreviation height rest := (Z.of_nat (length (rest : list CBlock))).

Definition rebuilt_entry (b : CBlock) (used : used_map) : used_map :=
  if IsProofOfStake b && (nVersion (header b) >=? 5) && negb (StakePointer_IsNull (stakePointer b))
  then <[pointer_key b := GetHash XEVAN (header b)]> used else used.

Fixpoint rebuilt (stop : Z) (blocks : list CBlock) (used : used_map) : used_map :=
  match blocks with
  | [] => used
  | b :: rest => if height rest >? stop then rebuilt stop rest (rebuilt_entry b used) else used
  end.

(** The index and the disk hold the chain below [p]. *)
Fixpoint holds (m : index) (ext : nat -> stake_index) (disk : nat -> option CBlock) (p : option nat) (blocks : list CBlock) : Prop :=
  match blocks with
  | [] => p = None
  | b :: rest => exists q e, p = Some q /\ deref m q = Some e /\ nHeight e = height rest /\ disk q = Some b /\
      Chain.IsProofOfStake e = IsProofOfStake b /\ i_nVersion (ext q) = nVersion (header b) /\ holds m ext disk (pprev e) rest
  end.

Lemma rebuild_loop_rebuilt m ext disk stop blocks : forall fuel p used, holds m ext disk p blocks -> (length blocks <= fuel)%nat ->
  rebuild_loop XEVAN m ext disk fuel stop p used = rebuilt stop blocks used.
Proof using.
  induction blocks as [|b rest IH]; intros fuel p used H Hf; cbn [holds] in H.
  - subst p. now destruct fuel.
  - destruct H as (q & e & -> & He & HH & HD & HS & HV & HR). destruct fuel as [|fuel]; [cbn in Hf; lia|].
    cbn [rebuild_loop rebuilt]. rewrite He, HH, HD, HS, HV. destruct (_ >? stop); [|reflexivity]. rewrite <- (IH fuel _ (rebuilt_entry b used) HR) by (cbn in Hf; lia).
    unfold rebuilt_entry. destruct (IsProofOfStake b); cbn [andb]; [|now rewrite andb_false_r].
    rewrite andb_true_r. destruct (_ >=? 5); reflexivity.
Qed.

(** The height the last rebuild stops above. *)
Definition rebuild_stop (tip : Z) : Z := Z.max (tip - ValidStakePointerDuration) (StakePointerForkHeight - 1).

Definition rebuilt_chain (blocks : list CBlock) : used_map :=
  let tip := height blocks - 1 in
  if tip <? StakePointerForkHeight then ∅ else rebuilt (rebuild_stop tip) blocks ∅.

Lemma RebuildStakePointerCache_spec m ext disk v blocks : holds m ext disk (Tip v) blocks -> 0 <= StakePointerForkHeight ->
  RebuildStakePointerCache XEVAN m ext disk v = rebuilt_chain blocks.
Proof using.
  intros H Hf. unfold RebuildStakePointerCache, rebuilt_chain. destruct blocks as [|b rest]; cbn [holds] in H.
  - rewrite H. destruct (Z.ltb_spec (Z.of_nat (length ([] : list CBlock)) - 1) StakePointerForkHeight); [reflexivity | cbn in *; lia].
  - pose proof H as H'. destruct H as (q & e & Hp & He & HH & _). rewrite Hp, He in *. cbn [length]. rewrite HH.
    replace (Z.of_nat (S (length rest)) - 1) with (Z.of_nat (length rest)) by lia. destruct (_ <? _); [reflexivity|].
    apply rebuild_loop_rebuilt; [exact H' | cbn [length]; lia].
Qed.

(** [b] is the block of height [h] of the chain. *)
Fixpoint block_at (blocks : list CBlock) (h : Z) (b : CBlock) : Prop :=
  match blocks with
  | [] => False
  | c :: rest => h = height rest /\ b = c \/ block_at rest h b
  end.

Lemma block_at_height blocks h b : block_at blocks h b -> 0 <= h < height blocks.
Proof using.
  induction blocks as [|c rest IH]; cbn [block_at]; [tauto|]. cbn [length]. intros [[-> _]|H]; [lia|]. apply IH in H. lia.
Qed.

Lemma v5_rebuilt h b used : StakePointerForkHeight <= h ->
  rebuilt_entry b used = if v5_stake h b then <[pointer_key b := GetHash XEVAN (header b)]> used else used.
Proof using.
  intros Hh. unfold rebuilt_entry, v5_stake. destruct (Z.geb_spec h StakePointerForkHeight); [|lia]. now rewrite andb_true_r.
Qed.

(** The keys are those of blocks of the chain. *)
Definition sound_map (blocks : list CBlock) (used : used_map) : Prop :=
  forall k h, used !! k = Some h -> exists i b, block_at blocks i b /\ v5_stake i b = true /\ pointer_key b = k /\ GetHash XEVAN (header b) = h.

(** The pointers consumed above a height are recorded. *)
Definition covers (stop : Z) (blocks : list CBlock) (used : used_map) : Prop :=
  forall i b, block_at blocks i b -> stop < i -> v5_stake i b = true -> is_Some (used !! pointer_key b).

Lemma rebuilt_keeps stop blocks : forall used k, is_Some (used !! k) -> is_Some (rebuilt stop blocks used !! k).
Proof using.
  induction blocks as [|b rest IH]; intros used k H; cbn [rebuilt]; [exact H|]. destruct (_ >? stop); [|exact H]. apply IH.
  unfold rebuilt_entry. destruct (_ && _); [|exact H]. destruct (decide (pointer_key b = k)) as [->|Hne]; [rewrite lookup_insert_eq; eauto | now rewrite lookup_insert_ne].
Qed.

Lemma rebuilt_covers stop blocks : StakePointerForkHeight - 1 <= stop -> forall used, covers stop blocks (rebuilt stop blocks used).
Proof using.
  intros Hs. induction blocks as [|c rest IH]; intros used i b Hb Hi Hv; cbn [block_at] in Hb; [tauto|]. cbn [rebuilt].
  destruct Hb as [[-> ->]|Hb].
  - destruct (Z.gtb_spec (height rest) stop); [|lia]. apply rebuilt_keeps. rewrite (v5_rebuilt (height rest)) by lia. rewrite Hv, lookup_insert_eq. eauto.
  - pose proof (block_at_height _ _ _ Hb). destruct (Z.gtb_spec (height rest) stop); [|lia]. now apply (IH _ i b).
Qed.

Lemma rebuilt_sound stop blocks : StakePointerForkHeight - 1 <= stop -> forall used k h, rebuilt stop blocks used !! k = Some h ->
  used !! k = Some h \/ exists i b, block_at blocks i b /\ v5_stake i b = true /\ pointer_key b = k /\ GetHash XEVAN (header b) = h.
Proof using.
  intros Hs. induction blocks as [|c rest IH]; intros used k h H; cbn [rebuilt] in H; [now left|]. destruct (Z.gtb_spec (height rest) stop); [|now left].
  apply IH in H. destruct H as [H|(i & b & Hb & H)]; [|right; exists i, b; cbn [block_at]; tauto].
  rewrite (v5_rebuilt (height rest)) in H by lia. destruct (v5_stake (height rest) c) eqn:Hv; [|now left].
  apply lookup_insert_Some in H as [[<- <-]|[_ H]]; [right; exists (height rest), c; cbn [block_at]; tauto | now left].
Qed.

(** ** Connecting, disconnecting and restarting *)

(** The heights of the blocks of the active chain in which the transaction of
    a pointer was found when the pointer was checked. *)
Variable mined : list Z -> Z -> Prop.

(** The pointer of a connected block passes [CheckBlockProofPointer]. *)
Definition pointer_in_window (h : Z) (b : CBlock) : Prop :=
  v5_stake h b = true -> exists i, mined (pointer_key b) i /\ h - ValidStakePointerDuration <= i <= h - MaxReorganizationDepth.

(** A payment is mined at one height, whatever the branch. *)
Definition mined_once : Prop := forall k i j, mined k i -> mined k j -> i = j.

(** [shallow] remembers whether every disconnection so far ended at most
    [MaxReorganizationDepth] below the tip of the last restart: headers of
    deeper forks are refused, but [invalidateblock] can go below. *)
Record node : Type := mkNode { blocks : list CBlock; used : used_map; restart_tip : Z; shallow : bool }.

Definition tip (s : node) : Z := height (blocks s) - 1.

Inductive node_step : node -> node -> Prop :=
| step_connect s b u : pointer_in_window (height (blocks s)) b -> connect_pointer XEVAN (height (blocks s)) b (used s) = Some u ->
    node_step s (mkNode (b :: blocks s) u (restart_tip s) (shallow s))
| step_disconnect b rest u r w :
    node_step (mkNode (b :: rest) u r w)
      (mkNode rest (disconnect_pointer (height rest) b u) r (w && (r - MaxReorganizationDepth <=? height rest - 1)))
| step_restart s m ext disk v : holds m ext disk (Tip v) (blocks s) ->
    node_step s (mkNode (blocks s) (RebuildStakePointerCache XEVAN m ext disk v) (tip s) (shallow s)).

Inductive node_reachable : node -> Prop :=
| node_start genesis : v5_stake 0 genesis = false -> node_reachable (mkNode [genesis] ∅ 0 true)
| node_next s s' : node_reachable s -> node_step s s' -> node_reachable s'.

(** No pointer is consumed twice along the chain. *)
Fixpoint distinct_pointers (blocks : list CBlock) : Prop :=
  match blocks with
  | [] => True
  | b :: rest => (v5_stake (height rest) b = true -> forall i c, block_at rest i c -> v5_stake i c = true -> pointer_key c <> pointer_key b) /\
      distinct_pointers rest
  end.

Fixpoint windows (blocks : list CBlock) : Prop :=
  match blocks with [] => True | b :: rest => pointer_in_window (height rest) b /\ windows rest end.

Record node_inv (s : node) : Prop := {
  inv_covers : covers (Z.max (restart_tip s - ValidStakePointerDuration) (StakePointerForkHeight - 1)) (blocks s) (used s);
  inv_distinct : distinct_pointers (blocks s);
  inv_windows : windows (blocks s);
  inv_depth : restart_tip s - MaxReorganizationDepth <= tip s;
}.

Lemma windows_at blocks h b : windows blocks -> block_at blocks h b -> pointer_in_window h b.
Proof using.
  induction blocks as [|c rest IH]; cbn [windows block_at]; [tauto|]. intros [Hc Hr] [[-> ->]|H]; [exact Hc | now apply IH].
Qed.

Lemma v5_stake_fork h b : v5_stake h b = true -> StakePointerForkHeight <= h.
Proof using. unfold v5_stake. rewrite !andb_true_iff. intros [[_ H] _]. lia. Qed.

(** *** The map never holds a pointer the chain has not consumed *)

Lemma connect_sound h b bs u0 u : h = height bs -> sound_map bs u0 -> connect_pointer XEVAN h b u0 = Some u -> sound_map (b :: bs) u.
Proof using.
  intros -> HS HC. unfold connect_pointer in HC. assert (Hin : sound_map (b :: bs) u0).
  { intros k x H. destruct (HS k x H) as (i & c & Hc & X). exists i, c. exact (conj (or_intror Hc) X). }
  destruct (v5_stake (height bs) b) eqn:Hv; [|now injection HC as <-]. destruct (u0 !! pointer_key b); [discriminate|]. injection HC as <-.
  intros k x H. apply lookup_insert_Some in H as [[<- <-]|[_ H]]; [|now apply Hin].
  exists (height bs), b. split; [left; now split | now split].
Qed.

Lemma disconnect_sound b rest u : sound_map (b :: rest) u -> sound_map rest (disconnect_pointer (height rest) b u).
Proof using.
  intros HS k x H. unfold disconnect_pointer in H. destruct (v5_stake (height rest) b) eqn:Hv.
  - apply lookup_delete_Some in H as [Hne H]. destruct (HS k x H) as (i & c & [[-> ->]|Hc] & Hvc & E & X); [congruence|]. exists i, c. exact (conj Hc (conj Hvc (conj E X))).
  - destruct (HS k x H) as (i & c & [[-> ->]|Hc] & Hvc & X); [congruence|]. exists i, c. exact (conj Hc (conj Hvc X)).
Qed.

Lemma restart_sound bs : sound_map bs (rebuilt_chain bs).
Proof using.
  unfold rebuilt_chain. destruct (_ <? _); intros k x H; [now rewrite lookup_empty in H|].
  apply rebuilt_sound in H; [|unfold rebuild_stop; lia]. destruct H as [H|H]; [now rewrite lookup_empty in H | exact H].
Qed.

Lemma node_reachable_sound s : 0 <= StakePointerForkHeight -> node_reachable s -> sound_map (blocks s) (used s).
Proof using.
  intros Hf. induction 1 as [g Hg|s s' _ IH S]; [intros k x H; cbn [used] in H; now rewrite lookup_empty in H|].
  destruct S as [s b u Hb HC|b rest u r w|s m ext disk v H]; cbn [blocks used] in *.
  - exact (connect_sound _ b (blocks s) (used s) u eq_refl IH HC).
  - now apply disconnect_sound.
  - rewrite (RebuildStakePointerCache_spec m ext disk v (blocks s) H Hf). apply restart_sound.
Qed.

(** *** While the reorganisations stay shallow it holds those that matter *)

Section Shallow.
Hypothesis Honce : mined_once.

(** An earlier use of the pointer of a new block is always recorded. *)
Lemma earlier_use_covered s b i c : node_inv s -> pointer_in_window (height (blocks s)) b -> v5_stake (height (blocks s)) b = true ->
  block_at (blocks s) i c -> v5_stake i c = true -> pointer_key c = pointer_key b -> is_Some (used s !! pointer_key b).
Proof using Honce.
  intros [HC _ HW HD] Hb Hv Hc Hvc E. rewrite <- E. destruct (windows_at _ _ _ HW Hc Hvc) as (x & Hx & W). destruct (Hb Hv) as (y & Hy & Wy).
  rewrite E in Hx. pose proof (Honce _ _ _ Hx Hy) as Exy. pose proof (v5_stake_fork _ _ Hvc). unfold tip in HD. apply (HC i c); [exact Hc | lia | exact Hvc].
Qed.

Lemma connect_inv s b u : node_inv s -> pointer_in_window (height (blocks s)) b -> connect_pointer XEVAN (height (blocks s)) b (used s) = Some u ->
  node_inv (mkNode (b :: blocks s) u (restart_tip s) (shallow s)).
Proof using Honce.
  intros I Hb HC. pose proof I as [HV HD HW HT]. unfold connect_pointer in HC.
  destruct (v5_stake (height (blocks s)) b) eqn:Hv.
  - destruct (used s !! pointer_key b) eqn:EU; [discriminate|]. injection HC as <-. split; cbn [blocks used restart_tip].
    + intros i c [[-> ->]|Hc] Hi Hvc; [rewrite lookup_insert_eq; eauto|]. destruct (decide (pointer_key b = pointer_key c)) as [->|Hne].
      * rewrite lookup_insert_eq; eauto.
      * rewrite lookup_insert_ne by exact Hne. now apply (HV i c).
    + split; [|exact HD]. intros _ i c Hc Hvc E. destruct (earlier_use_covered s b i c I Hb Hv Hc Hvc E) as [x Hx]. congruence.
    + now split.
    + unfold tip in *. cbn [blocks length] in *. lia.
  - injection HC as <-. split; cbn [blocks used restart_tip].
    + intros i c [[-> ->]|Hc] Hi Hvc; [congruence|]. now apply (HV i c).
    + split; [|exact HD]. congruence.
    + now split.
    + unfold tip in *. cbn [blocks length] in *. lia.
Qed.

Lemma disconnect_inv b rest u r w w' : node_inv (mkNode (b :: rest) u r w) -> r - MaxReorganizationDepth <= height rest - 1 ->
  node_inv (mkNode rest (disconnect_pointer (height rest) b u) r w').
Proof using.
  intros [HV [HD1 HD2] [HW1 HW2] HT] Hr. unfold disconnect_pointer. split; cbn [blocks used restart_tip] in *; [|exact HD2|exact HW2|exact Hr].
  intros i c Hc Hi Hvc. assert (H : is_Some (u !! pointer_key c)) by (apply (HV i c); [now right | exact Hi | exact Hvc]).
  destruct (v5_stake (height rest) b) eqn:Hv; [|exact H]. rewrite lookup_delete_ne; [exact H|]. specialize (HD1 eq_refl i c Hc Hvc). congruence.
Qed.

Lemma restart_inv s : node_inv s -> 0 <= MaxReorganizationDepth -> node_inv (mkNode (blocks s) (rebuilt_chain (blocks s)) (tip s) (shallow s)).
Proof using.
  intros [HV HD HW HT] HM. unfold rebuilt_chain. fold (tip s). destruct (Z.ltb_spec (tip s) StakePointerForkHeight) as [Hf|Hf]; split; cbn [blocks used restart_tip];
    try exact HD; try exact HW; try (unfold tip in *; cbn [blocks]; lia).
  - intros i b Hb Hi Hv. pose proof (block_at_height _ _ _ Hb). apply v5_stake_fork in Hv. unfold tip in Hf. lia.
  - apply rebuilt_covers. unfold rebuild_stop. lia.
Qed.

Lemma node_reachable_inv s : 0 <= StakePointerForkHeight -> 0 <= MaxReorganizationDepth -> node_reachable s -> shallow s = true -> node_inv s.
Proof using Honce.
  intros Hf HM. induction 1 as [g Hg|s s' _ IH S].
  - intros _. change 0 with (height []) in Hg. split; cbn [blocks used restart_tip].
    + intros i b [[-> ->]|[]] _ H. congruence.
    + split; [|exact I]. intros _ i c [].
    + split; [|exact I]. intros H. congruence.
    + unfold tip. cbn [blocks length]. lia.
  - destruct S as [s b u Hb HC|b rest u r w|s m ext disk v H]; cbn [shallow] in *; intros Hs.
    + now apply connect_inv; [apply IH | |].
    + apply andb_true_iff in Hs as [Hs Hr]. apply (disconnect_inv b rest u r w); [now apply IH | lia].
    + rewrite (RebuildStakePointerCache_spec m ext disk v (blocks s) H Hf). apply restart_inv; [now apply IH | exact HM].
Qed.
End Shallow.
End Map.

(** * Theorems *)

(** C22: No branch consumes a stake pointer twice.  Let a block of the branch
    of a new block, at or above the fork height, have consumed the pointer of
    the new block.  When it is at most [ValidStakePointerDuration] below,
    the new block is refused, whatever else holds: the search of
    [IsStakePointerUsed] misses no use in the window.  When it is further
    below, the new block is refused too, if the pointer passed the check of
    both blocks on the way and its payment is mined at one height only: the
    payment has then left the window. *)
Theorem stake_pointer_unique {P : CChainParams} Verify m ext disk pos v prev eprev k q e b o :
  wf m -> 0 < MaxReorganizationDepth ->
  deref m prev = Some eprev -> up m k prev = Some q -> deref m q = Some e -> StakePointerForkHeight <= nHeight e ->
  (forall b1, records ext q e b1 -> outpointPointer (stakePointer b1) = o -> outpointPointer (stakePointer b) = o ->
   (nHeight eprev + 1 - ValidStakePointerDuration <= nHeight e ->
    CheckBlockProofPointer Verify m ext disk pos v prev (nHeight eprev + 1) b = None) /\
   (forall m1 ext1 disk1 pos1 v1 prev1 key1,
    CheckBlockProofPointer Verify m1 ext1 disk1 pos1 v1 prev1 (nHeight e) b1 = Some (key1, o) ->
    (forall f1 e1 blk1 tx1 f2 e2 blk2 tx2,
       deref m1 f1 = Some e1 -> pos1 f1 = Some blk1 -> In tx1 (vtx blk1) -> Transaction.GetHash tx1 = hash o ->
       deref m f2 = Some e2 -> pos f2 = Some blk2 -> In tx2 (vtx blk2) -> Transaction.GetHash tx2 = hash o -> nHeight e1 = nHeight e2) ->
    CheckBlockProofPointer Verify m ext disk pos v prev (nHeight eprev + 1) b = None)).
Proof.
  intros Hw HM Hp Hk Hq HF b1 HR Ho1 Ho2.
  assert (Win : nHeight eprev + 1 - ValidStakePointerDuration <= nHeight e -> CheckBlockProofPointer Verify m ext disk pos v prev (nHeight eprev + 1) b = None).
  { intros Hd. destruct (CheckBlockProofPointer _ _ _ _ _ _ _ _ _) as [[key2 o2]|] eqn:H2; [|reflexivity]. exfalso.
    apply CheckBlockProofPointer_inv in H2 as (E2 & _ & U2 & _).
    rewrite (IsStakePointerUsed_complete m ext disk Hw prev eprev k q e o2) in U2; try assumption; [discriminate | | lia].
    rewrite E2, Ho2, <- Ho1. now apply records_consumes. }
  split; [exact Win|]. intros m1 ext1 disk1 pos1 v1 prev1 key1 H1 Hone.
  destruct (Z.le_gt_cases (nHeight eprev + 1 - ValidStakePointerDuration) (nHeight e)) as [Hd|Hd]; [exact (Win Hd)|].
  destruct (CheckBlockProofPointer _ m _ _ _ _ _ _ _) as [[key2 o2]|] eqn:H2; [|reflexivity]. exfalso.
  apply CheckBlockProofPointer_inv in H1 as (E1 & _ & _ & f1 & e1 & blk1 & tx1 & _ & F1 & _ & B1 & D1 & T1 & X1 & _).
  apply CheckBlockProofPointer_inv in H2 as (E2 & _ & _ & f2 & e2 & blk2 & tx2 & _ & F2 & _ & B2 & D2 & T2 & X2 & _).
  assert (Y1 : Transaction.GetHash tx1 = hash o) by (etransitivity; [exact X1|]; rewrite E1; reflexivity).
  assert (Y2 : Transaction.GetHash tx2 = hash o) by (etransitivity; [exact X2|]; rewrite <- Ho2; reflexivity).
  pose proof (Hone f1 e1 blk1 tx1 f2 e2 blk2 tx2 F1 D1 T1 Y1 F2 D2 T2 Y2). lia.
Qed.

(** C21: [mapUsedStakePointers] along the active chain, as it grows, is
    reorganised to any depth and the node restarted.  A block it refuses
    always names a pointer that an earlier block of the chain has consumed.
    Conversely it refuses every such block, and no pointer is consumed twice
    along the chain, as long as no disconnection has gone deeper than
    [MaxReorganizationDepth] below the tip of the last restart, the pointer
    lies in its window and payments are mined at one height, although a
    restart records only the last [ValidStakePointerDuration] blocks.  (What
    the map can miss beyond that depth is in [stake_map_misses].) *)
Theorem stake_map_exact {P : CChainParams} XEVAN mined s b : 0 <= StakePointerForkHeight -> 0 <= MaxReorganizationDepth ->
  node_reachable XEVAN mined s -> let h := Z.of_nat (length (blocks s)) in
  v5_stake h b = true ->
  let reused := exists i c, block_at (blocks s) i c /\ v5_stake i c = true /\ pointer_key c = pointer_key b in
  (connect_pointer XEVAN h b (used s) = None -> reused) /\
  (shallow s = true -> mined_once mined -> pointer_in_window mined h b -> reused -> connect_pointer XEVAN h b (used s) = None) /\
  (shallow s = true -> mined_once mined -> distinct_pointers (blocks s)).
Proof.
  intros Hf HM R h Hv reused. unfold connect_pointer. rewrite Hv. split; [|split].
  - destruct (used s !! pointer_key b) as [x|] eqn:E; [|discriminate]. intros _.
    destruct (node_reachable_sound XEVAN mined s Hf R _ _ E) as (i & c & Hc & Hvc & Ek & _). exists i, c. exact (conj Hc (conj Hvc Ek)).
  - intros Hs Ho Hb (i & c & Hc & Hvc & Ek). pose proof (node_reachable_inv XEVAN mined Ho s Hf HM R Hs) as I.
    destruct (earlier_use_covered mined Ho s b i c I Hb Hv Hc Hvc Ek) as [x ->]. reflexivity.
  - intros Hs Ho. apply (node_reachable_inv XEVAN mined Ho s Hf HM R Hs).
Qed.

(** C23: Proof of stake is authorised: a version 5 block passes [CheckStake] only
    with a signature of its hash by a key that is, or was signed for by, the
    compressed key to which a transaction of the active chain pays, in a block
    between the reorganisation depth and the validity period below, and with a
    kernel hash below the target scaled by the collateral. *)
Theorem CheckStake_authorised {P : CChainParams} XEVAN Verify m ext disk pos now v prev eprev b :
  deref m prev = Some eprev -> CheckStake XEVAN Verify m ext disk pos now v prev b = Some true ->
  let sp := stakePointer b in
  5 <= nVersion (header b) /\ IsProofOfStake b = true /\
  Verify (pubKeyProofOfStake sp) (GetHash XEVAN (header b)) (vchBlockSig b) = true /\
  (Standard.key_bytes (pubKeyProofOfStake sp) = Standard.key_bytes (pubKeyCollateral sp) \/ VerifyCollateralSignOver Verify sp = true) /\
  Standard.key_size (pubKeyCollateral sp) = 33%nat /\
  exists p e blk tx, deref m p = Some e /\ Contains m v p = true /\
    nHeight eprev + 1 - ValidStakePointerDuration <= nHeight e <= nHeight eprev + 1 - MaxReorganizationDepth /\
    pos p = Some blk /\ In tx (vtx blk) /\ Transaction.GetHash tx = txid sp /\
    Standard.ExtractDestination (scriptPubKey (vout_at tx (Z.to_nat (nPos sp)))) = Some (Some (Standard.CKeyID (Standard.GetID (pubKeyCollateral sp)))) /\
    Kernel.CheckStakePointerKernelHash now m (nBits (header b)) (Kernel.mkOutPoint (uint256_of (txid sp)) (nPos sp)) p prev (nTime (header b)) = Some true.
Proof.
  intros Hp. unfold CheckStake. rewrite Hp. destruct (vtx b) as [|tx0 [|tx1 txs]]; try discriminate.
  destruct (IsProofOfStake b); [|discriminate]. cbn [negb]. destruct (Z.ltb_spec (nVersion (header b)) 5); [discriminate|].
  destruct (IsV5CoinStake tx1); [|discriminate]. cbn [negb]. destruct (StakePointer_IsNull _); [discriminate|]. destruct (vout tx0) as [|o0 os]; [discriminate|].
  destruct (negb (nValue o0 =? 0)); [discriminate|]. destruct (CheckBlockProofPointer _ _ _ _ _ _ _ _ _) as [[key o]|] eqn:HC; [|discriminate].
  destruct (negb (CheckBlockSignature_with _ _ _ _)) eqn:HS; [discriminate|]. apply negb_false_iff in HS.
  apply CheckBlockProofPointer_inv in HC as (-> & -> & _ & p & e & blk & tx & HB & He & HCt & HH & HD & HT & HX & _ & HE & HK & HV). rewrite HB. intros HKr.
  split; [lia|]. split; [reflexivity|]. split.
  { unfold CheckBlockSignature_with in HS. destruct (negb _); [discriminate|]. destruct (vchBlockSig b); [discriminate | exact HS]. }
  split; [exact HV|]. split; [exact HK|]. exists p, e, blk, tx. repeat (split; [assumption|]). exact HKr.
Qed.

(** ** Examples, on the regression test network *)

Definition stake_line (k : nat) : index :=
  link_all [mkIndex (uint256 1) None None 0 10 0x1e0ffff0 0 0 []]
    (map (fun i => (i, mkIndex (uint256 (Z.of_nat i + 2)) None None 0 (60 * Z.of_nat i + 70) 0x207fffff (if (i =? 124)%nat then 1 else 0) 0 [])) (seq 0 k)).

Definition stake_key : list Z := 2 :: repeat 1 32.

(** An ordinary payment of one satoshi to the key. *)
Definition stake_payment : CTransaction :=
  mkTransaction 1 [mkTxIn (mkOutPoint (repeat 9 32) 0) [] uint256_max32 []]
    [CTxOut_new 1 (Standard.GetScriptForDestination (Standard.CKeyID (Standard.GetID stake_key)))] 0.

Definition pointer_to (i : Z) : StakePointer := mkPointer (le_bytes 32 (i + 1)) (Transaction.GetHash stake_payment) 0 stake_key stake_key [].

Definition coinstake : CTransaction :=
  mkTransaction 1 [mkTxIn COutPoint_SetNull [Script.value Script.OP_PROOFOFSTAKE] uint256_max32 []] [CTxOut_new 0 []; CTxOut_new 5 [81]] 0.

Definition staking (i : Z) : CBlock :=
  mkBlock (mkHeader 5 (repeat 0 32) (repeat 0 32) 8000 0x207fffff 0 (repeat 0 32)) [mkTransaction 1 [] [CTxOut_new 0 []] 0; coinstake] [1] (pointer_to i).

Definition plain : CBlock := mkBlock CBlockHeader_SetNull [stake_payment] [] StakePointer_SetNull.

(** Block 125 consumes the payment, which is mined in the blocks 110 and 130. *)
Definition stake_ext (p : nat) : stake_index :=
  if (p =? 125)%nat then mkStakeIndex 5 (outpointPointer (pointer_to 110)) 8 else mkStakeIndex 4 COutPoint_SetNull 8.

Definition stake_chain (k : nat) : CChain := map Some (seq 0 (S k)).

Lemma stake_line_wf k : wf (stake_line k).
Proof. apply link_all_wf. intros [|[|p]] b H; cbn in H; try discriminate; injection H as <-; split; cbn; lia || reflexivity. Qed.

(** The payment a pointer names need not be one to a masternode, or to a miner
    at all: an ordinary payment of one satoshi is accepted, and no signature is
    asked for. *)
Theorem pointer_to_ordinary_payment :
  CheckBlockProofPointer (P := CRegTestParams) (fun _ _ _ => false) (stake_line 30) stake_ext (fun _ => None) (fun _ => Some plain) (stake_chain 30)
    30 31 (staking 15) = Some (stake_key, outpointPointer (pointer_to 15)) /\
  IsCoinBase stake_payment = false /\ IsCoinStake stake_payment = false /\ map nValue (vout stake_payment) = [1].
Proof. vm_compute. auto. Qed.

Definition stake_line_30 : index := Eval vm_compute in stake_line 30.
Definition stake_line_176 : index := Eval vm_compute in stake_line 176.

Lemma stake_line_30_eq : stake_line_30 = stake_line 30.
Proof. vm_compute. reflexivity. Qed.

Lemma stake_line_176_wf : wf stake_line_176.
Proof. assert (E : stake_line_176 = stake_line 176) by (vm_compute; reflexivity). rewrite E. apply stake_line_wf. Qed.

Lemma CheckStake_authorised_witness :
  exists eprev, deref stake_line_30 30 = Some eprev /\
    CheckStake (P := CRegTestParams) (fun _ => []) (fun _ _ sig => negb (length sig =? 0)%nat) stake_line_30 stake_ext (fun _ => None) (fun _ => Some plain)
      8000 (stake_chain 30) 30 (staking 15) = Some true /\ 5 <= nVersion (header (staking 15)).
Proof.
  destruct (deref stake_line_30 30) as [eprev|] eqn:E; [|vm_compute in E; discriminate E]. exists eprev. split; [reflexivity|].
  assert (H : CheckStake (P := CRegTestParams) (fun _ => []) (fun _ _ sig => negb (length sig =? 0)%nat) stake_line_30 stake_ext (fun _ => None) (fun _ => Some plain)
      8000 (stake_chain 30) 30 (staking 15) = Some true) by (vm_compute; reflexivity).
  split; [exact H|]. exact (proj1 (CheckStake_authorised (P := CRegTestParams) _ _ _ _ _ _ _ _ _ _ _ E H)).
Defined.

Definition mined_in (p : nat) : option CBlock := if (p =? 110)%nat || (p =? 130)%nat then Some plain else None.

(** A payment mined again above the block that consumed it, once that block is
    out of reach of the search, is accepted again. *)
Lemma pointer_reused_when_mined_twice :
  let check prev b := CheckBlockProofPointer (P := CRegTestParams) (fun _ _ _ => false) stake_line_176 stake_ext (fun _ => None) mined_in (stake_chain 175)
    prev (Z.of_nat prev + 1) b in
  check 124%nat (staking 110) = Some (stake_key, outpointPointer (pointer_to 110)) /\
  check 175%nat (staking 130) = Some (stake_key, outpointPointer (pointer_to 110)).
Proof. vm_compute. split; reflexivity. Qed.

(** Mined once, it is refused inside the window of the search and beyond. *)
Definition mined_at_110 (p : nat) : option CBlock := if (p =? 110)%nat then Some plain else None.

Definition check_at (prev : nat) (h : Z) : option (list Z * COutPoint) :=
  CheckBlockProofPointer (P := CRegTestParams) (fun _ _ _ => false) stake_line_176 stake_ext (fun _ => None) mined_at_110 (stake_chain 175) prev h (staking 110).

Lemma stake_pointer_unique_witness :
  check_at 124 125 = Some (stake_key, outpointPointer (pointer_to 110)) /\
  (exists e, deref stake_line_176 140 = Some e /\ check_at 140 (nHeight e + 1) = None) /\
  (exists e, deref stake_line_176 175 = Some e /\ check_at 175 (nHeight e + 1) = None).
Proof.
  destruct (deref stake_line_176 125) as [e|] eqn:Ee; [|vm_compute in Ee; discriminate Ee].
  assert (Hh : nHeight e = 125) by (vm_compute in Ee; injection Ee as <-; reflexivity).
  assert (H1 : check_at 124 125 = Some (stake_key, outpointPointer (pointer_to 110))) by (vm_compute; reflexivity).
  assert (HR : records stake_ext 125 e (staking 110)) by (vm_compute in Ee; injection Ee as <-; split; [vm_compute; reflexivity | split; [discriminate | reflexivity]]).
  assert (U1 : up stake_line_176 15 140 = Some 125%nat) by (vm_compute; reflexivity).
  assert (U2 : up stake_line_176 50 175 = Some 125%nat) by (vm_compute; reflexivity).
  split; [exact H1|]. split.
  - destruct (deref stake_line_176 140) as [ep|] eqn:Ep; [|vm_compute in Ep; discriminate Ep].
    assert (Hp : nHeight ep = 140) by (vm_compute in Ep; injection Ep as <-; reflexivity). exists ep. split; [reflexivity|].
    refine (proj1 (stake_pointer_unique (P := CRegTestParams) (fun _ _ _ => false) stake_line_176 stake_ext (fun _ => None) mined_at_110 (stake_chain 175) 140
      ep 15 125 e (staking 110) (outpointPointer (pointer_to 110)) stake_line_176_wf _ Ep U1 Ee _ (staking 110) HR eq_refl eq_refl) _);
      [reflexivity | rewrite Hh; discriminate | rewrite Hh, Hp; discriminate].
  - destruct (deref stake_line_176 175) as [ep|] eqn:Ep; [|vm_compute in Ep; discriminate Ep]. exists ep. split; [reflexivity|].
    refine (proj2 (stake_pointer_unique (P := CRegTestParams) (fun _ _ _ => false) stake_line_176 stake_ext (fun _ => None) mined_at_110 (stake_chain 175) 175
      ep 50 125 e (staking 110) (outpointPointer (pointer_to 110)) stake_line_176_wf _ Ep U2 Ee _ (staking 110) HR eq_refl eq_refl)
      stake_line_176 stake_ext (fun _ => None) mined_at_110 (stake_chain 175) 124%nat stake_key _ _);
      [reflexivity | rewrite Hh; discriminate | rewrite Hh; exact H1 |].
    intros f1 e1 blk1 tx1 f2 e2 blk2 tx2 F1 D1 _ _ F2 D2 _ _. unfold mined_at_110 in D1, D2.
    destruct (Nat.eqb_spec f1 110) as [E1|]; [|discriminate D1]. destruct (Nat.eqb_spec f2 110) as [E2|]; [|discriminate D2].
    rewrite E1 in F1. rewrite E2 in F2. rewrite F1 in F2. injection F2 as E. rewrite E. reflexivity.
Defined.

Definition no_xevan : list Z -> list Z := fun _ => [].
Definition at_105 : list Z -> Z -> Prop := fun _ i => i = 105.

Lemma plain_connected {P : CChainParams} s k : node_reachable no_xevan at_105 s ->
  node_reachable no_xevan at_105 (mkNode (repeat plain k ++ blocks s) (used s) (restart_tip s) (shallow s)).
Proof.
  intros R. induction k as [|k IH]; [destruct s; exact R|]. refine (node_next _ _ _ _ IH _).
  apply (step_connect _ _ (mkNode (repeat plain k ++ blocks s) (used s) (restart_tip s) (shallow s)) plain); [discriminate | reflexivity].
Qed.

Lemma plain_disconnected {P : CChainParams} bs u r k : forall w, node_reachable no_xevan at_105 (mkNode (repeat plain k ++ bs) u r w) ->
  exists w', node_reachable no_xevan at_105 (mkNode bs u r w').
Proof.
  induction k as [|k IH]; intros w R; [now exists w|]. eapply IH. refine (node_next _ _ _ _ R _). apply step_disconnect.
Qed.

Lemma plain_reachable {P : CChainParams} k : node_reachable no_xevan at_105 (mkNode (repeat plain (k + 1)) ∅ 0 true).
Proof.
  assert (R : node_reachable no_xevan at_105 (mkNode [plain] ∅ 0 true)) by (apply node_start; reflexivity).
  apply (plain_connected _ k) in R. rewrite repeat_app. exact R.
Qed.

(** The node with 121 plain blocks and one that consumes a pointer. *)
Definition consumed : used_map := <[pointer_key (staking 110) := GetHash no_xevan (header (staking 110))]> ∅.
Definition staked_node : node := mkNode (staking 110 :: repeat plain 121) consumed 0 true.

Lemma staking_window h : 115 <= h <= 155 -> pointer_in_window (P := CRegTestParams) at_105 h (staking 110).
Proof. intros Hh _. exists 105. split; [reflexivity|]. cbn. lia. Qed.

Lemma staking_v5 h : 101 <= h -> v5_stake (P := CRegTestParams) h (staking 110) = true.
Proof.
  intros Hh. unfold v5_stake. change (IsProofOfStake (staking 110)) with true. change (nVersion (header (staking 110)) >=? 5) with true.
  change (StakePointer_IsNull (stakePointer (staking 110))) with false. change (@StakePointerForkHeight CRegTestParams) with 101.
  destruct (Z.geb_spec h 101); [reflexivity | lia].
Qed.

Lemma staked_reachable : node_reachable (P := CRegTestParams) no_xevan at_105 staked_node.
Proof.
  refine (node_next _ _ _ _ (plain_reachable (P := CRegTestParams) 120) _).
  apply (step_connect (P := CRegTestParams) _ _ (mkNode (repeat plain (120 + 1)) ∅ 0 true) (staking 110) consumed); cbn [blocks used].
  - apply staking_window. rewrite repeat_length. lia.
  - unfold connect_pointer. rewrite staking_v5 by (rewrite repeat_length; lia). now rewrite lookup_empty.
Qed.

Lemma stake_map_exact_witness :
  connect_pointer (P := CRegTestParams) no_xevan 122 (staking 110) (used staked_node) = None /\ distinct_pointers (P := CRegTestParams) (blocks staked_node).
Proof.
  assert (Ho : mined_once at_105) by (intros k i j -> ->; reflexivity).
  assert (Hv : v5_stake (P := CRegTestParams) (Z.of_nat (length (blocks staked_node))) (staking 110) = true) by (apply staking_v5; discriminate).
  destruct (stake_map_exact (P := CRegTestParams) no_xevan at_105 staked_node (staking 110) ltac:(discriminate) ltac:(discriminate) staked_reachable Hv)
    as (_ & H1 & H2).
  split; [|exact (H2 eq_refl Ho)]. apply (H1 eq_refl Ho).
  - apply staking_window. split; discriminate.
  - exists 121, (staking 110). split; [left; split; reflexivity|]. split; [apply staking_v5; discriminate | reflexivity].
Defined.

(** Every chain can be held by an index and a disk. *)
Lemma holds_mono m m' ext ext' disk disk' bs : forall p, holds m ext disk p bs ->
  (forall q e, deref m q = Some e -> deref m' q = Some e /\ ext' q = ext q /\ disk' q = disk q) -> holds m' ext' disk' p bs.
Proof.
  induction bs as [|b rest IH]; intros p H Hm; [exact H|]. destruct H as (q & e & -> & He & HH & HD & HS & HV & HR).
  destruct (Hm q e He) as (He' & Ee & Ed). exists q, e. rewrite Ee, Ed. repeat (split; [assumption || reflexivity|]). now apply IH.
Qed.

Lemma holds_exists bs : exists m ext disk v, length m = length bs /\ holds m ext disk (Tip v) bs.
Proof.
  induction bs as [|b rest (m & ext & disk & v & L & H)]; [exists [], (fun _ => stake_index_of plain), (fun _ => None), []; now split|].
  set (q := length rest). set (e := mkIndex [] (Tip v) None (Z.of_nat q) 0 0 (if IsProofOfStake b then 1 else 0) 0 []).
  exists (m ++ [e]), (fun k => if (k =? q)%nat then mkStakeIndex (nVersion (header b)) COutPoint_SetNull 0 else ext k),
    (fun k => if (k =? q)%nat then Some b else disk k), [Some q].
  split; [rewrite length_app, L; cbn; lia|]. exists q, e. rewrite Nat.eqb_refl. split; [reflexivity|].
  split; [unfold deref; rewrite nth_error_app2 by lia; now rewrite L, Nat.sub_diag|]. split; [reflexivity|]. split; [reflexivity|].
  split; [now destruct (IsProofOfStake b)|]. split; [reflexivity|].
  apply (holds_mono m _ ext _ disk _ rest _ H). intros k c Hk. assert (Hlt : (k < length m)%nat) by (apply nth_error_Some; unfold deref in Hk; now rewrite Hk).
  split; [unfold deref in *; now rewrite nth_error_app1|]. destruct (Nat.eqb_spec k q); [lia | now split].
Qed.

(** Beyond the depth the map can miss a use: the node is restarted fifty
    blocks above the block that consumed a pointer, all fifty are
    disconnected, and the map lets the next block consume the pointer again
    ([IsStakePointerUsed], which walks the branch, still refuses it). *)
Lemma stake_map_misses : exists s, node_reachable (P := CRegTestParams) no_xevan at_105 s /\ shallow s = false /\
  blocks s = blocks staked_node /\ pointer_in_window (P := CRegTestParams) at_105 122 (staking 110) /\
  connect_pointer (P := CRegTestParams) no_xevan 122 (staking 110) (used s) <> None.
Proof.
  pose proof (plain_connected (P := CRegTestParams) staked_node 50 staked_reachable) as R.
  destruct (holds_exists (repeat plain 50 ++ blocks staked_node)) as (m & ext & disk & v & _ & H).
  set (s1 := mkNode (repeat plain 50 ++ blocks staked_node) (used staked_node) 0 true). change (node_reachable (P := CRegTestParams) no_xevan at_105 s1) in R.
  pose proof (node_next _ _ _ _ R (step_restart (P := CRegTestParams) no_xevan at_105 s1 m ext disk v H)) as R1.
  rewrite (RebuildStakePointerCache_spec (P := CRegTestParams) no_xevan m ext disk v (blocks s1) H ltac:(discriminate)) in R1.
  assert (E : rebuilt_chain (P := CRegTestParams) no_xevan (blocks s1) = ∅) by (vm_compute; reflexivity). rewrite E in R1.
  change (tip s1) with 171 in R1. change (blocks s1) with (repeat plain 49 ++ plain :: blocks staked_node) in R1.
  apply plain_disconnected in R1 as (w & R2).
  pose proof (node_next _ _ _ _ R2 (step_disconnect (P := CRegTestParams) no_xevan at_105 plain (blocks staked_node) ∅ 171 w)) as R3.
  eexists. split; [exact R3|]. split; [apply andb_false_r|]. split; [reflexivity|]. split; [apply staking_window; split; discriminate|].
  unfold connect_pointer. rewrite staking_v5 by discriminate. cbn [used]. change (disconnect_pointer (P := CRegTestParams) _ plain ∅) with (∅ : used_map).
  rewrite lookup_empty. discriminate.
Qed.

End StakePointers.
