(* ===== verification/BlockTree.v ===== *)
(** The tree of blocks and the choice of the active chain: the status of
    [CBlockIndex] ([src/src/chain.h]) and, of [src/src/main.cpp],
    [AddToBlockIndex], [ReceivedBlockTransactions], [FindMostWorkChain],
    [PruneBlockIndexCandidates], [DisconnectTip], [ConnectTip],
    [ActivateBestChain] with its step, [InvalidateBlock], [ReconsiderBlock] and
    the assertions of [CheckBlockIndex].

    The tree is the heap of [Chain]; the fields that change after an entry is
    made are a function of the pointer.  What connecting and disconnecting a
    block does to the coins, the memory pool and the disk is behind the class
    [ChainClient], as is the checksum of the stake modifier that is made when a
    block is linked ([Kernel] has the modifier itself); the theorems are proved
    against the laws of the class.  The sets of dirty entries, the file
    positions, fork warnings and notifications are not part of this state. *)
From stdpp Require Import base list gmap fin_maps fin_sets.
From S2P Require Import Prelude BaseUint Uint256 Params Chain Pow Kernel.

Module BlockTree.
Import BaseUint Uint256 Chain.

(** * Entries *)

Definition BLOCK_VALID_TREE : Z := 2.
Definition BLOCK_VALID_TRANSACTIONS : Z := 3.
Definition BLOCK_VALID_CHAIN : Z := 4.
Definition BLOCK_VALID_SCRIPTS : Z := 5.
Definition BLOCK_VALID_MASK : Z := 1 .| BLOCK_VALID_TREE .| BLOCK_VALID_TRANSACTIONS .| BLOCK_VALID_CHAIN .| BLOCK_VALID_SCRIPTS.
Definition BLOCK_HAVE_DATA : Z := 8.
Definition BLOCK_HAVE_UNDO : Z := 16.
Definition BLOCK_FAILED_VALID : Z := 32.
Definition BLOCK_FAILED_CHILD : Z := 64.
Definition BLOCK_FAILED_MASK : Z := BLOCK_FAILED_VALID .| BLOCK_FAILED_CHILD.

Record block_state : Type := mkBlockState { nStatus : Z; nTx : Z; nChainTx : Z; nSequenceId : Z }.

Definition block_state_null : block_state := mkBlockState 0 0 0 0.

Definition with_status (b : block_state) (status : Z) : block_state := mkBlockState status (nTx b) (nChainTx b) (nSequenceId b).

(** [nStatus & flag] *)
Definition has (flag : Z) (b : block_state) : bool := negb (nStatus b .& flag =? 0).
Definition level (b : block_state) : Z := nStatus b .& BLOCK_VALID_MASK.
Definition mark (flag : Z) (b : block_state) : block_state := with_status b (nStatus b .| flag).
Definition unmark (flag : Z) (b : block_state) : block_state := with_status b (nStatus b .& Z.lnot flag).

Definition IsValid (nUpTo : Z) (b : block_state) : bool :=
  if has BLOCK_FAILED_MASK b then false else level b >=? nUpTo.

Definition RaiseValidity (nUpTo : Z) (b : block_state) : block_state :=
  if has BLOCK_FAILED_MASK b then b
  else if level b <? nUpTo then with_status b (nStatus b .& Z.lnot BLOCK_VALID_MASK .| nUpTo)
  else b.

Definition null_index : CBlockIndex := mkIndex [] None None 0 0 0 0 0 [].

(** [*p] *)
Definition at_ (m : index) (p : nat) : CBlockIndex := nth p m null_index.

(** * The state *)

(** The answer of [ConnectBlock] and of what [ConnectTip] does after it:
    accepted, refused by a rule ([state.IsInvalid()], with
    [CorruptionPossible]) or a system error; [undo] tells whether a refused
    block got past the writing of its undo data. *)
Inductive connect_result : Type :=
| Connected
| Refused (corruption undo : bool)
| SystemError (undo : bool).

(** The rest of the node, as the choice of the chain uses it. *)
Class ChainClient (C : Type) : Type := {
  ConnectBlock : C -> nat -> C * connect_result;
  DisconnectBlock : C -> nat -> C * bool;
  ShutdownRequested : C -> bool;
  (** [nStakeModifierChecksum] of an entry whose ancestors have their data. *)
  StakeModifierChecksum : C -> nat -> Z
}.

Section State.
(** The address of an entry, the last tie breaker of the candidates. *)
Variable addr : nat -> Z.
Context {C : Type} `{ChainClient C}.

Record chainstate : Type := mkState {
  mapBlockIndex : index;
  entries : nat -> block_state;
  chainActive : CChain;
  setBlockIndexCandidates : gset nat;
  mapBlocksUnlinked : list (nat * nat);
  pindexBestInvalid : option nat;
  pindexBestHeader : option nat;
  nBlockSequenceId : Z;
  client : C
}.

Definition with_index (s : chainstate) m :=
  mkState m (entries s) (chainActive s) (setBlockIndexCandidates s) (mapBlocksUnlinked s) (pindexBestInvalid s) (pindexBestHeader s) (nBlockSequenceId s) (client s).
Definition with_entries (s : chainstate) E :=
  mkState (mapBlockIndex s) E (chainActive s) (setBlockIndexCandidates s) (mapBlocksUnlinked s) (pindexBestInvalid s) (pindexBestHeader s) (nBlockSequenceId s) (client s).
Definition with_entry (s : chainstate) (p : nat) (b : block_state) := with_entries s (fun q => if (q =? p)%nat then b else entries s q).
Definition with_active (s : chainstate) v :=
  mkState (mapBlockIndex s) (entries s) v (setBlockIndexCandidates s) (mapBlocksUnlinked s) (pindexBestInvalid s) (pindexBestHeader s) (nBlockSequenceId s) (client s).
Definition with_candidates (s : chainstate) c :=
  mkState (mapBlockIndex s) (entries s) (chainActive s) c (mapBlocksUnlinked s) (pindexBestInvalid s) (pindexBestHeader s) (nBlockSequenceId s) (client s).
Definition with_unlinked (s : chainstate) u :=
  mkState (mapBlockIndex s) (entries s) (chainActive s) (setBlockIndexCandidates s) u (pindexBestInvalid s) (pindexBestHeader s) (nBlockSequenceId s) (client s).
Definition with_best_invalid (s : chainstate) p :=
  mkState (mapBlockIndex s) (entries s) (chainActive s) (setBlockIndexCandidates s) (mapBlocksUnlinked s) p (pindexBestHeader s) (nBlockSequenceId s) (client s).
Definition with_best_header (s : chainstate) p :=
  mkState (mapBlockIndex s) (entries s) (chainActive s) (setBlockIndexCandidates s) (mapBlocksUnlinked s) (pindexBestInvalid s) p (nBlockSequenceId s) (client s).
Definition with_sequence (s : chainstate) n :=
  mkState (mapBlockIndex s) (entries s) (chainActive s) (setBlockIndexCandidates s) (mapBlocksUnlinked s) (pindexBestInvalid s) (pindexBestHeader s) n (client s).
Definition with_client (s : chainstate) c :=
  mkState (mapBlockIndex s) (entries s) (chainActive s) (setBlockIndexCandidates s) (mapBlocksUnlinked s) (pindexBestInvalid s) (pindexBestHeader s) (nBlockSequenceId s) c.

Definition prev (s : chainstate) (p : nat) : option nat := pprev (at_ (mapBlockIndex s) p).
Definition work (s : chainstate) (p : nat) : base_uint := nChainWork (at_ (mapBlockIndex s) p).
Definition height (s : chainstate) (p : nat) : Z := nHeight (at_ (mapBlockIndex s) p).
Definition tip (s : chainstate) : option nat := Tip (chainActive s).

Definition update_entry (s : chainstate) (p : nat) (f : block_state -> block_state) := with_entry s p (f (entries s p)).
Definition erase_candidate (s : chainstate) (p : nat) := with_candidates s (setBlockIndexCandidates s ∖ {[ p ]}).
Definition insert_candidate (s : chainstate) (p : nat) := with_candidates s ({[ p ]} ∪ setBlockIndexCandidates s).

Definition CBlockIndexWorkComparator (s : chainstate) (pa pb : nat) : bool :=
  if op_gt (work s pa) (work s pb) then false
  else if op_lt (work s pa) (work s pb) then true
  else if nSequenceId (entries s pa) <? nSequenceId (entries s pb) then false
  else if nSequenceId (entries s pa) >? nSequenceId (entries s pb) then true
  else if addr pa <? addr pb then false
  else if addr pa >? addr pb then true
  else false.

(** Compared with the tip, which may be NULL before the first block. *)
Definition worse_than_tip (s : chainstate) (p : nat) : bool :=
  match tip s with Some t => CBlockIndexWorkComparator s p t | None => false end.

(** * New entries *)

(** [hashPrevBlock] is looked up by hash; the flags are those of the block. *)
Definition AddToBlockIndex (s : chainstate) (hash hashPrevBlock : base_uint) (time bits flags : Z) : option (chainstate * nat) :=
  let m := mapBlockIndex s in
  match Kernel.find_block m hash with
  | Some p => Some (s, p)
  | None =>
      match Pow.GetBlockProof bits with
      | None => None
      | Some proof =>
          let pindexNew := length m in
          let entropy e := if GetStakeEntropyBit e =? 0 then nFlags e else nFlags e .| BLOCK_STAKE_ENTROPY in
          let blk := mkIndex hash None None 0 time bits flags 0 (op_add (uint256 0) proof) in
          match
            match Kernel.find_block m hashPrevBlock with
            | Some q => link m q (mkIndex hash None None 0 time bits (entropy blk) 0 (op_add (nChainWork (at_ m q)) proof))
            | None => Some (m ++ [blk])
            end
          with
          | None => None
          | Some m' =>
              let s := with_entry (with_index s m') pindexNew (RaiseValidity BLOCK_VALID_TREE block_state_null) in
              let better := match pindexBestHeader s with None => true | Some h => op_lt (work s h) (work s pindexNew) end in
              Some (if better then with_best_header s (Some pindexNew) else s, pindexNew)
          end
      end
  end.

(** ** The data of a block *)

(** [mapBlocksUnlinked.equal_range(pindex)], in the order of insertion. *)
Definition unlinked_children (s : chainstate) (p : nat) : list nat :=
  map snd (List.filter (fun e => fst e =? p)%nat (mapBlocksUnlinked s)).

Definition linked_tx (s : chainstate) (p : nat) : Z :=
  T32 (match prev s p with Some q => nChainTx (entries s q) | None => 0 end + nTx (entries s p)).

Definition modifier_passes (s : chainstate) (p : nat) : bool :=
  match prev s p with
  | None => true
  | Some _ => Kernel.CheckStakeModifierCheckpoints (height s p) (StakeModifierChecksum (client s) p)
  end.

(** One turn of the [while (!queue.empty())] loop, with what it adds to the
    queue. *)
Definition link_block (s : chainstate) (p : nat) : chainstate * list nat :=
  let s := update_entry s p (fun b => mkBlockState (nStatus b) (nTx b) (linked_tx s p) (nBlockSequenceId s)) in
  let s := with_sequence s (T32 (nBlockSequenceId s + 1)) in
  if modifier_passes s p then
    let s := if negb (worse_than_tip s p) then insert_candidate s p else s in
    (with_unlinked s (List.filter (fun e => negb (fst e =? p)%nat) (mapBlocksUnlinked s)), unlinked_children s p)
  else (update_entry s p (mark BLOCK_FAILED_VALID), []).

Fixpoint link_queue (fuel : nat) (queue : list nat) (s : chainstate) : option chainstate :=
  match queue with
  | [] => Some s
  | p :: queue =>
      match fuel with
      | O => None
      | S fuel => let '(s, more) := link_block s p in link_queue fuel (queue ++ more) s
      end
  end.

(** Every pair of [mapBlocksUnlinked] enters the queue at most once. *)
Definition ReceivedBlockTransactions (s : chainstate) (pindexNew : nat) (vtx_size : Z) : option chainstate :=
  let s := update_entry s pindexNew (fun b => mkBlockState (nStatus b .| BLOCK_HAVE_DATA) (T32 vtx_size) 0 (nSequenceId b)) in
  let s := update_entry s pindexNew (RaiseValidity BLOCK_VALID_TRANSACTIONS) in
  match prev s pindexNew with
  | Some q =>
      if nChainTx (entries s q) =? 0 then
        Some (if IsValid BLOCK_VALID_TREE (entries s q) then with_unlinked s (mapBlocksUnlinked s ++ [(q, pindexNew)]) else s)
      else link_queue (S (length (mapBlocksUnlinked s))) [pindexNew] s
  | None => link_queue (S (length (mapBlocksUnlinked s))) [pindexNew] s
  end.

(** * The most work *)

(** [rbegin()] of the candidates. *)
Definition best_of (s : chainstate) (l : list nat) : option nat :=
  fold_left (fun best p => match best with
                           | None => Some p
                           | Some q => if CBlockIndexWorkComparator s q p then Some p else best
                           end) l None.

Definition best_candidate (s : chainstate) : option nat := best_of s (elements (setBlockIndexCandidates s)).

(** The walk from a candidate to the active chain. *)
Inductive path_test : Type :=
| Connects
| Unusable (pindexTest : nat)
| AssertionFails.

Fixpoint test_path (fuel : nat) (s : chainstate) (pindexTest : option nat) : path_test :=
  match pindexTest with
  | None => Connects
  | Some q =>
      if Contains (mapBlockIndex s) (chainActive s) q then Connects
      else
        match fuel with
        | O => AssertionFails
        | S fuel =>
            if (nChainTx (entries s q) =? 0) && negb (height s q =? 0) then AssertionFails
            else if has BLOCK_FAILED_MASK (entries s q) || negb (has BLOCK_HAVE_DATA (entries s q)) then Unusable q
            else test_path fuel s (prev s q)
        end
  end.

(** [while (pindexTest != pindexFailed)] and the erasure after it. *)
Fixpoint remove_chain (fuel : nat) (s : chainstate) (fFailedChain : bool) (pindexTest pindexFailed : nat) : option chainstate :=
  if (pindexTest =? pindexFailed)%nat then Some (erase_candidate s pindexTest)
  else
    match fuel, prev s pindexFailed with
    | S fuel, Some q =>
        let s := if fFailedChain then update_entry s pindexFailed (mark BLOCK_FAILED_CHILD)
                 else with_unlinked s (mapBlocksUnlinked s ++ [(q, pindexFailed)]) in
        remove_chain fuel (erase_candidate s pindexFailed) fFailedChain pindexTest q
    | _, _ => None
    end.

Definition better_invalid (s : chainstate) (p : nat) : bool :=
  match pindexBestInvalid s with None => true | Some b => op_gt (work s p) (work s b) end.

(** [None] is a failed assertion (or not enough fuel). *)
Fixpoint FindMostWorkChain_loop (fuel : nat) (s : chainstate) : option (chainstate * option nat) :=
  match fuel with
  | O => None
  | S fuel =>
      match best_candidate s with
      | None => Some (s, None)
      | Some pindexNew =>
          let n := S (Z.to_nat (height s pindexNew)) in
          match test_path n s (Some pindexNew) with
          | Connects => Some (s, Some pindexNew)
          | AssertionFails => None
          | Unusable q =>
              let fFailedChain := has BLOCK_FAILED_MASK (entries s q) in
              let s := if fFailedChain && better_invalid s pindexNew then with_best_invalid s (Some pindexNew) else s in
              match remove_chain n s fFailedChain q pindexNew with
              | Some s => FindMostWorkChain_loop fuel s
              | None => None
              end
          end
      end
  end.

(** Every turn but the last removes a candidate. *)
Definition FindMostWorkChain (s : chainstate) : option (chainstate * option nat) :=
  FindMostWorkChain_loop (S (size (setBlockIndexCandidates s))) s.

(** [None]: there is no tip, or the assertion that a candidate is left fails. *)
Definition PruneBlockIndexCandidates (s : chainstate) : option chainstate :=
  match tip s with
  | None => None
  | Some t =>
      let s := with_candidates s (base.filter (fun p => CBlockIndexWorkComparator s p t = false) (setBlockIndexCandidates s)) in
      if decide (setBlockIndexCandidates s = ∅) then None else Some s
  end.

(** * Moving the tip *)

Definition InvalidChainFound (s : chainstate) (p : nat) : chainstate :=
  if better_invalid s p then with_best_invalid s (Some p) else s.

Definition InvalidBlockFound (s : chainstate) (p : nat) : chainstate :=
  InvalidChainFound (erase_candidate (update_entry s p (mark BLOCK_FAILED_VALID)) p) p.

Definition UpdateTip (s : chainstate) (p : option nat) : chainstate := with_active s (SetTip (mapBlockIndex s) (chainActive s) p).

(** [false]: the block could not be disconnected. *)
Definition DisconnectTip (s : chainstate) : option (chainstate * bool) :=
  match tip s with
  | None => None
  | Some pindexDelete =>
      let '(c, ok) := DisconnectBlock (client s) pindexDelete in
      let s := with_client s c in
      Some (if ok : bool then UpdateTip s (prev s pindexDelete) else s, ok)
  end.

(** The undo data written and the validity raised by [ConnectBlock]; the
    genesis block returns before. *)
Definition undo_entry (b : block_state) : block_state :=
  if negb (has BLOCK_HAVE_UNDO b) || negb (IsValid BLOCK_VALID_SCRIPTS b)
  then RaiseValidity BLOCK_VALID_SCRIPTS (mark BLOCK_HAVE_UNDO b) else b.

Definition note_undo (s : chainstate) (p : nat) : chainstate :=
  match prev s p with
  | None => s
  | Some _ => update_entry s p undo_entry
  end.

Inductive tip_result : Type := TipConnected | TipRefused (corruption : bool) | TipError.

(** [None] is the assertion [pindexNew->pprev == chainActive.Tip()]. *)
Definition ConnectTip (s : chainstate) (pindexNew : nat) : option (chainstate * tip_result) :=
  if negb (eq_ptr (prev s pindexNew) (tip s)) then None
  else
    let '(c, r) := ConnectBlock (client s) pindexNew in
    let s := with_client s c in
    match r with
    | Connected => Some (UpdateTip (note_undo s pindexNew) (Some pindexNew), TipConnected)
    | Refused corruption undo =>
        let s := if undo then note_undo s pindexNew else s in
        Some (if corruption then s else InvalidBlockFound s pindexNew, TipRefused corruption)
    | SystemError undo => Some (if undo then note_undo s pindexNew else s, TipError)
    end.

(** [while (chainActive.Tip() && chainActive.Tip() != pindexFork)] *)
Fixpoint disconnect_to (fuel : nat) (s : chainstate) (pindexFork : option nat) : option (chainstate * bool) :=
  match tip s with
  | None => Some (s, true)
  | Some t =>
      if eq_ptr (Some t) pindexFork then Some (s, true)
      else
        match fuel with
        | O => None
        | S fuel =>
            match DisconnectTip s with
            | None => None
            | Some (s, false) => Some (s, false)
            | Some (s, true) => disconnect_to fuel s pindexFork
            end
        end
  end.

(** [while (pindexIter && pindexIter->nHeight != nHeight)], the first to
    connect last. *)
Fixpoint blocks_above (fuel : nat) (s : chainstate) (pindexIter : option nat) (nHeight : Z) : list nat :=
  match fuel, pindexIter with
  | S fuel, Some p => if height s p =? nHeight then [] else p :: blocks_above fuel s (prev s p) nHeight
  | _, _ => []
  end.

(** How the inner loop of the step ends. *)
Inductive progress : Type := Continue | Better | InvalidFound | Failed.

Definition better_than (s : chainstate) (pindexOldTip : option nat) : bool :=
  match pindexOldTip, tip s with
  | None, _ => true
  | Some o, Some t => op_gt (work s t) (work s o)
  | Some _, None => false
  end.

(** [BOOST_REVERSE_FOREACH (pindexConnect, vpindexToConnect)]; [first] is [vpindexToConnect.back()]. *)
Fixpoint connect_list (pindexOldTip : option nat) (first : nat) (l : list nat) (s : chainstate) : option (chainstate * progress) :=
  match l with
  | [] => Some (s, Continue)
  | pindexConnect :: l =>
      match ConnectTip s pindexConnect with
      | None => None
      | Some (s, TipRefused corruption) => Some (if corruption then s else InvalidChainFound s first, InvalidFound)
      | Some (s, TipError) => Some (s, Failed)
      | Some (s, TipConnected) =>
          match PruneBlockIndexCandidates s with
          | None => None
          | Some s => if better_than s pindexOldTip then Some (s, Better) else connect_list pindexOldTip first l s
          end
      end
  end.

(** [while (fContinue && nHeight != pindexMostWork->nHeight)], 32 blocks a turn. *)
Fixpoint connect_chunks (fuel : nat) (s : chainstate) (pindexOldTip : option nat) (pindexMostWork : nat) (nHeight : Z)
  : option (chainstate * progress) :=
  if nHeight =? height s pindexMostWork then Some (s, Continue)
  else
    match fuel with
    | O => None
    | S fuel =>
        let nTargetHeight := Z.min (nHeight + 32) (height s pindexMostWork) in
        let vpindexToConnect :=
          blocks_above (Z.to_nat (nTargetHeight - nHeight + 1)) s (GetAncestor (mapBlockIndex s) pindexMostWork nTargetHeight) nHeight in
        match connect_list pindexOldTip (List.last vpindexToConnect 0%nat) (rev vpindexToConnect) s with
        | Some (s, Continue) => connect_chunks fuel s pindexOldTip pindexMostWork nTargetHeight
        | r => r
        end
    end.

Definition ActivateBestChainStep (s : chainstate) (pindexMostWork : nat) : option (chainstate * bool) :=
  let pindexOldTip := tip s in
  let pindexFork := FindFork (mapBlockIndex s) (chainActive s) pindexMostWork in
  match disconnect_to (length (chainActive s)) s pindexFork with
  | None => None
  | Some (s, false) => Some (s, false)
  | Some (s, true) =>
      let nHeight := match pindexFork with Some f => height s f | None => -1 end in
      match connect_chunks (Z.to_nat (height s pindexMostWork + 2)) s pindexOldTip pindexMostWork nHeight with
      | None => None
      | Some (s, Failed) => Some (s, false)
      | Some (s, _) => Some (s, true)
      end
  end.

(** [fuel] bounds the turns of the outer loop; [ActivateBestChain_best]
    shows how many are enough.  The flush at the end is left to the client. *)
Fixpoint ActivateBestChain (fuel : nat) (s : chainstate) : option (chainstate * bool) :=
  match fuel with
  | O => None
  | S fuel =>
      if ShutdownRequested (client s) then Some (s, true)
      else
        match FindMostWorkChain s with
        | None => None
        | Some (s, None) => Some (s, true)
        | Some (s, Some pindexMostWork) =>
            if eq_ptr (tip s) (Some pindexMostWork) then Some (s, true)
            else
              match ActivateBestChainStep s pindexMostWork with
              | None => None
              | Some (s, false) => Some (s, false)
              | Some (s, true) => if eq_ptr (tip s) (Some pindexMostWork) then Some (s, true) else ActivateBestChain fuel s
              end
        end
  end.

(** * Manual decisions *)

Fixpoint invalidate_loop (fuel : nat) (s : chainstate) (p : nat) : option (chainstate * bool) :=
  if Contains (mapBlockIndex s) (chainActive s) p then
    match fuel, tip s with
    | S fuel, Some pindexWalk =>
        let s := erase_candidate (update_entry s pindexWalk (mark BLOCK_FAILED_CHILD)) pindexWalk in
        match DisconnectTip s with
        | None => None
        | Some (s, false) => Some (s, false)
        | Some (s, true) => invalidate_loop fuel s p
        end
    | _, _ => None
    end
  else Some (s, true).

(** The entries of [mapBlockIndex]. *)
Definition pointers (s : chainstate) : list nat := seq 0 (length (mapBlockIndex s)).

Definition InvalidateBlock (s : chainstate) (p : nat) : option (chainstate * bool) :=
  let s := erase_candidate (update_entry s p (mark BLOCK_FAILED_VALID)) p in
  match invalidate_loop (length (chainActive s)) s p with
  | None => None
  | Some (s, false) => Some (s, false)
  | Some (s, true) =>
      let s := fold_left (fun s q =>
                 if IsValid BLOCK_VALID_TRANSACTIONS (entries s q) && negb (nChainTx (entries s q) =? 0) && negb (worse_than_tip s q)
                 then insert_candidate s q else s) (pointers s) s in
      Some (InvalidChainFound s p, true)
  end.

Definition better_than_tip (s : chainstate) (p : nat) : bool :=
  match tip s with Some t => CBlockIndexWorkComparator s t p | None => false end.

Fixpoint clear_ancestors (fuel : nat) (s : chainstate) (pindex : option nat) : chainstate :=
  match fuel, pindex with
  | S fuel, Some p =>
      clear_ancestors fuel
        (if has BLOCK_FAILED_MASK (entries s p) then update_entry s p (unmark BLOCK_FAILED_MASK) else s) (prev s p)
  | _, _ => s
  end.

(** The body of the loop over [mapBlockIndex]. *)
Definition reconsider_entry (p : nat) (s : chainstate) (q : nat) : chainstate :=
  if negb (IsValid BLOCK_VALID_TRANSACTIONS (entries s q)) && eq_ptr (GetAncestor (mapBlockIndex s) q (height s p)) (Some p) then
    let s := update_entry s q (unmark BLOCK_FAILED_MASK) in
    let s := if IsValid BLOCK_VALID_TRANSACTIONS (entries s q) && negb (nChainTx (entries s q) =? 0) && better_than_tip s q
             then insert_candidate s q else s in
    if eq_ptr (pindexBestInvalid s) (Some q) then with_best_invalid s None else s
  else s.

Definition ReconsiderBlock (s : chainstate) (p : nat) : chainstate :=
  clear_ancestors (S (Z.to_nat (height s p))) (fold_left (reconsider_entry p) (pointers s) s) (Some p).

(** * [CheckBlockIndex] *)

(** Some entry between the root and [p] has the property:
    [pindexFirst... != NULL]. *)
Fixpoint any_up (fuel : nat) (m : index) (f : nat -> bool) (p : nat) : bool :=
  f p || match fuel, pprev (at_ m p) with
         | S fuel, Some q => any_up fuel m f q
         | _, _ => false
         end.

Definition first (s : chainstate) (f : nat -> bool) (p : nat) : bool := any_up (Z.to_nat (height s p)) (mapBlockIndex s) f p.

Definition below (s : chainstate) (nUpTo : Z) (p : nat) : bool :=
  match prev s p with None => false | Some _ => level (entries s p) <? nUpTo end.

Definition missing (s : chainstate) (p : nat) : bool := negb (has BLOCK_HAVE_DATA (entries s p)).
Definition invalid (s : chainstate) (p : nat) : bool := has BLOCK_FAILED_VALID (entries s p).

Definition implb' (a b : bool) : bool := negb a || b.

(** The assertions made at entry [p]. *)
Definition check_entry (hashGenesisBlock : base_uint) (s : chainstate) (p : nat) : bool :=
  let b := entries s p in
  let e := at_ (mapBlockIndex s) p in
  implb' (eq_ptr (pprev e) None) (op_eq (GetBlockHash e) hashGenesisBlock && eq_ptr (entry (chainActive s) 0) (Some p)) &&
  eqb (missing s p) (nTx b =? 0) &&
  eqb (level b >=? BLOCK_VALID_TRANSACTIONS) (nTx b >? 0) &&
  implb' (nChainTx b =? 0) (nSequenceId b =? 0) &&
  eqb (first s (missing s) p) (nChainTx b =? 0) &&
  match pprev e with
  | None => nHeight e =? 0
  | Some q => (nHeight e =? height s q + 1) && op_ge (nChainWork e) (work s q)
  end &&
  implb' (nHeight e >=? 2) (match pskip e with Some k => height s k <? nHeight e | None => false end) &&
  negb (first s (below s BLOCK_VALID_TREE) p) &&
  implb' (level b >=? BLOCK_VALID_CHAIN) (negb (first s (below s BLOCK_VALID_CHAIN) p)) &&
  implb' (level b >=? BLOCK_VALID_SCRIPTS) (negb (first s (below s BLOCK_VALID_SCRIPTS) p)) &&
  implb' (negb (first s (invalid s) p)) (negb (has BLOCK_FAILED_MASK b)) &&
  (if negb (worse_than_tip s p) && negb (first s (missing s) p)
   then implb' (negb (first s (invalid s) p)) (bool_decide (p ∈ setBlockIndexCandidates s))
   else bool_decide (p ∉ setBlockIndexCandidates s)) &&
  let foundInUnlinked := match pprev e with Some q => bool_decide ((q, p) ∈ mapBlocksUnlinked s) | None => false end in
  (if negb (eq_ptr (pprev e) None) && has BLOCK_HAVE_DATA b && first s (missing s) p
   then implb' (negb (first s (invalid s) p)) foundInUnlinked
   else negb foundInUnlinked).

(** The walk of the tree visits every entry, the parents first. *)
Definition CheckBlockIndex (hashGenesisBlock : base_uint) (s : chainstate) : bool :=
  if Height (chainActive s) <? 0 then (length (mapBlockIndex s) <=? 1)%nat
  else
    match List.filter (fun p => eq_ptr (prev s p) None) (pointers s) with
    | [_] => forallb (check_entry hashGenesisBlock s) (pointers s)
    | _ => false
    end.
End State.
End BlockTree.
