(* ===== verification/BlockTreeInv.v ===== *)
(** The invariant of the tree of blocks ([BlockTree]): the lemmas on status
    bits, ancestors, the order of candidates and the shape of the state that
    the theorems on its operations share. *)
From stdpp Require Import base list gmap fin_maps fin_sets.
From S2P Require Import Prelude BaseUint Uint256 Params Chain Pow Kernel BlockTree.

Module BlockTreeInv.
Import BaseUint Uint256 Chain BlockTree.

(** Splits the conjunctions that are written. *)
Ltac ands := repeat match goal with |- _ /\ _ => split end.

(** * Status bits *)

(** A property of the 128 status words holds if evaluation says so. *)
Definition statuses : list Z := map Z.of_nat (seq 0 128).

Lemma by_status (f : Z -> bool) : forallb f statuses = true -> forall s, 0 <= s < 128 -> f s = true.
Proof.
  intros HF s Hs. apply (proj1 (forallb_forall f statuses) HF). unfold statuses.
  replace s with (Z.of_nat (Z.to_nat s)) by lia. apply in_map, in_seq. lia.
Qed.

Definition status_ok (b : block_state) : Prop := 0 <= nStatus b < 128.

Definition word (s : Z) : block_state := mkBlockState s 0 0 0.

Definition mark_test (s : Z) : bool :=
  let b := word s in
  forallb (fun flag =>
    let c := mark flag b in
    (0 <=? nStatus c) && (nStatus c <? 128) && (level c =? level b) && has flag c &&
    forallb (fun other => eqb (has other c) (has other b || (other =? flag)))
      [BLOCK_HAVE_DATA; BLOCK_HAVE_UNDO; BLOCK_FAILED_VALID; BLOCK_FAILED_CHILD])
    [BLOCK_HAVE_DATA; BLOCK_HAVE_UNDO; BLOCK_FAILED_VALID; BLOCK_FAILED_CHILD].

Definition raise_test (s : Z) : bool :=
  let b := word s in
  forallb (fun n =>
    let c := RaiseValidity n b in
    (0 <=? nStatus c) && (nStatus c <? 128) &&
    (level c =? (if has BLOCK_FAILED_MASK b then level b else Z.max n (level b))) &&
    forallb (fun other => eqb (has other c) (has other b))
      [BLOCK_HAVE_DATA; BLOCK_HAVE_UNDO; BLOCK_FAILED_VALID; BLOCK_FAILED_CHILD])
    [BLOCK_VALID_TREE; BLOCK_VALID_TRANSACTIONS; BLOCK_VALID_SCRIPTS].

Definition unmark_test (s : Z) : bool :=
  let b := word s in
  let c := unmark BLOCK_FAILED_MASK b in
  (0 <=? nStatus c) && (nStatus c <? 128) && (level c =? level b) && negb (has BLOCK_FAILED_MASK c) &&
  negb (has BLOCK_FAILED_VALID c) && eqb (has BLOCK_HAVE_DATA c) (has BLOCK_HAVE_DATA b).

Definition mask_test (s : Z) : bool :=
  let b := word s in
  eqb (has BLOCK_FAILED_MASK b) (has BLOCK_FAILED_VALID b || has BLOCK_FAILED_CHILD b) && (0 <=? level b) && (level b <? 8).

Lemma status_tests : forall s, 0 <= s < 128 -> mark_test s && raise_test s && unmark_test s && mask_test s = true.
Proof. apply (by_status (fun s => mark_test s && raise_test s && unmark_test s && mask_test s)). vm_compute. reflexivity. Qed.

Definition flags : list Z := [BLOCK_HAVE_DATA; BLOCK_HAVE_UNDO; BLOCK_FAILED_VALID; BLOCK_FAILED_CHILD].

Lemma mark_spec flag b : status_ok b -> In flag flags ->
  status_ok (mark flag b) /\ level (mark flag b) = level b /\
  forall other, In other flags -> has other (mark flag b) = has other b || (other =? flag).
Proof.
  intros Hb Hf. pose proof (status_tests _ Hb) as T. apply andb_true_iff in T as [T _]. apply andb_true_iff in T as [T _]. apply andb_true_iff in T as [T _].
  unfold mark_test in T. rewrite forallb_forall in T. specialize (T flag Hf). rewrite !andb_true_iff in T. destruct T as [[[[T1 T2] T3] T4] T5].
  split; [unfold status_ok; change (nStatus (mark flag b)) with (nStatus (mark flag (word (nStatus b)))); lia|]. split; [apply Z.eqb_eq in T3; exact T3|].
  intros other Ho. rewrite forallb_forall in T5. apply eqb_prop, (T5 other Ho).
Qed.

Lemma raise_status n b : nStatus (RaiseValidity n b) = nStatus (RaiseValidity n (word (nStatus b))).
Proof.
  unfold RaiseValidity. change (has BLOCK_FAILED_MASK (word (nStatus b))) with (has BLOCK_FAILED_MASK b).
  change (level (word (nStatus b))) with (level b). destruct (has _ b), (level b <? n); reflexivity.
Qed.

Lemma raise_fields n b : nTx (RaiseValidity n b) = nTx b /\ nChainTx (RaiseValidity n b) = nChainTx b /\ nSequenceId (RaiseValidity n b) = nSequenceId b.
Proof. unfold RaiseValidity. destruct (has _ b), (level b <? n); repeat split; reflexivity. Qed.

Lemma raise_spec n b : status_ok b -> In n [BLOCK_VALID_TREE; BLOCK_VALID_TRANSACTIONS; BLOCK_VALID_SCRIPTS] ->
  status_ok (RaiseValidity n b) /\
  level (RaiseValidity n b) = (if has BLOCK_FAILED_MASK b then level b else Z.max n (level b)) /\
  forall other, In other flags -> has other (RaiseValidity n b) = has other b.
Proof.
  intros Hb Hn. pose proof (status_tests _ Hb) as T. apply andb_true_iff in T as [T _]. apply andb_true_iff in T as [T _]. apply andb_true_iff in T as [_ T].
  unfold raise_test in T. rewrite forallb_forall in T. specialize (T n Hn). rewrite !andb_true_iff in T. destruct T as [[[T1 T2] T3] T4].
  split; [unfold status_ok; rewrite raise_status; lia|]. split; [unfold level at 1; rewrite raise_status; apply Z.eqb_eq in T3; exact T3|].
  intros other Ho. unfold has at 1. rewrite raise_status. rewrite forallb_forall in T4. apply eqb_prop, (T4 other Ho).
Qed.

Lemma unmark_spec b : status_ok b -> let c := unmark BLOCK_FAILED_MASK b in
  status_ok c /\ level c = level b /\ has BLOCK_FAILED_MASK c = false /\ has BLOCK_FAILED_VALID c = false /\ has BLOCK_HAVE_DATA c = has BLOCK_HAVE_DATA b.
Proof.
  intros Hb c. pose proof (status_tests _ Hb) as T. apply andb_true_iff in T as [T _]. apply andb_true_iff in T as [_ T].
  unfold unmark_test in T. rewrite !andb_true_iff, !negb_true_iff in T. destruct T as [[[[[T1 T2] T3] T4] T5] T6]. apply eqb_prop in T6.
  split; [unfold status_ok, c; change (nStatus (unmark BLOCK_FAILED_MASK b)) with (nStatus (unmark BLOCK_FAILED_MASK (word (nStatus b)))); lia|].
  split; [apply Z.eqb_eq in T3; exact T3|]. split; [exact T4|]. split; [exact T5 | exact T6].
Qed.

Lemma mask_spec b : status_ok b ->
  has BLOCK_FAILED_MASK b = has BLOCK_FAILED_VALID b || has BLOCK_FAILED_CHILD b /\ 0 <= level b < 8.
Proof.
  intros Hb. pose proof (status_tests _ Hb) as T. apply andb_true_iff in T as [_ T].
  unfold mask_test in T. rewrite !andb_true_iff in T. destruct T as [[T1 T2] T3]. split; [apply eqb_prop in T1; exact T1|].
  change (level b) with (level (word (nStatus b))). lia.
Qed.

(** * The tree *)

Definition ptr (m : index) (p : nat) : Prop := (p < length m)%nat.
Definition par (m : index) (p : nat) : option nat := pprev (at_ m p).
Definition W (m : index) (p : nat) : Z := val (nChainWork (at_ m p)).

(** [q] is [p] or an ancestor of it. *)
Definition anc (m : index) (q p : nat) : Prop := exists k, up m k p = Some q.

Record tree_ok (m : index) : Prop := {
  tree_wf : wf m;
  tree_root : forall p, ptr m p -> par m p = None <-> p = 0%nat;
  tree_down : forall p q, ptr m p -> par m p = Some q -> (q < p)%nat;
  tree_limbs : forall p, ptr m p -> limbs (nChainWork (at_ m p)) /\ length (nChainWork (at_ m p)) = WIDTH;
  tree_work : forall p q, ptr m p -> par m p = Some q -> W m q < W m p
}.

Lemma deref_at m p : ptr m p <-> deref m p = Some (at_ m p).
Proof.
  unfold ptr, deref, at_. split; intros Hp; [now apply nth_error_nth' | apply nth_error_Some; congruence].
Qed.

Lemma deref_ptr m p e : deref m p = Some e -> ptr m p /\ at_ m p = e.
Proof. unfold deref, ptr, at_. intros E. split; [apply nth_error_Some; congruence | now apply nth_error_nth]. Qed.

Section Tree.
Variable m : index.
Hypothesis T : tree_ok m.

Lemma par_spec p q : ptr m p -> par m p = Some q ->
  ptr m q /\ (q < p)%nat /\ nHeight (at_ m p) = nHeight (at_ m q) + 1 /\ W m q < W m p.
Proof using T.
  intros Hp Hq. pose proof (proj1 (deref_at m p) Hp) as D. pose proof (wf_pprev m p _ (tree_wf m T) D) as HW.
  unfold par in Hq. rewrite Hq in HW. destruct HW as (c & Hc & Hh & _). destruct (deref_ptr _ _ _ Hc) as [Pq <-].
  split; [exact Pq|]. split; [now apply (tree_down m T)|]. split; [exact Hh | now apply (tree_work m T)].
Qed.

Lemma height_nonneg p : ptr m p -> 0 <= nHeight (at_ m p).
Proof using T. intros Hp. apply (tree_wf m T p), deref_at, Hp. Qed.

Lemma root_height p : ptr m p -> par m p = None -> nHeight (at_ m p) = 0.
Proof using T.
  intros Hp Hq. pose proof (wf_pprev m p _ (tree_wf m T) (proj1 (deref_at m p) Hp)) as HW. unfold par in Hq. now rewrite Hq in HW.
Qed.

Lemma up_S k p : ptr m p -> up m (S k) p = match par m p with Some q => up m k q | None => None end.
Proof using. intros Hp. cbn [up]. now rewrite (proj1 (deref_at m p) Hp). Qed.

Lemma anc_refl p : anc m p p.
Proof using. now exists 0%nat. Qed.

Lemma anc_up r p q : ptr m p -> par m p = Some q -> anc m r q -> anc m r p.
Proof using. intros Hp Hq [k Hk]. exists (S k). now rewrite up_S, Hq. Qed.

Lemma anc_cases r p : ptr m p -> anc m r p -> r = p \/ exists q, par m p = Some q /\ anc m r q.
Proof using.
  intros Hp [[|k] Hk]; [left; now injection Hk|]. rewrite up_S in Hk by exact Hp.
  destruct (par m p) as [q|]; [|discriminate]. right. exists q. split; [reflexivity | now exists k].
Qed.

(** Induction from the root up. *)
Lemma ancestor_ind (P : nat -> Prop) :
  (forall p, ptr m p -> (forall q, par m p = Some q -> P q) -> P p) -> forall p, ptr m p -> P p.
Proof using T.
  intros IH p. induction p as [p IHp] using lt_wf_ind. intros Hp. apply IH; [exact Hp|].
  intros q Hq. destruct (par_spec p q Hp Hq) as (Pq & Hlt & _). now apply IHp.
Qed.

Lemma anc_facts r p : ptr m p -> anc m r p ->
  ptr m r /\ (r <= p)%nat /\ W m r <= W m p /\ nHeight (at_ m r) <= nHeight (at_ m p) /\ (r <> p -> W m r < W m p /\ nHeight (at_ m r) < nHeight (at_ m p)).
Proof using T.
  intros Hp. revert r. pattern p. apply ancestor_ind; [|exact Hp]. clear p Hp. intros p Hp IH r Hr.
  destruct (anc_cases r p Hp Hr) as [->|(q & Hq & Ha)]; [repeat split; try lia; exact Hp|].
  destruct (par_spec p q Hp Hq) as (Pq & H1 & H2 & H3). destruct (IH q Hq r Ha) as (Pr & H4 & H5 & H6 & _). repeat split; try lia. exact Pr.
Qed.

Lemma anc_trans r q p : anc m r q -> anc m q p -> anc m r p.
Proof using. intros [a Ha] [b Hb]. exists (b + a)%nat. rewrite up_add, Hb. exact Ha. Qed.

Lemma anc_linear r q p : anc m r p -> anc m q p -> anc m r q \/ anc m q r.
Proof using.
  intros [a Ha] [b Hb]. destruct (Nat.le_ge_cases a b) as [H|H].
  - right. exists (b - a)%nat. replace b with (a + (b - a))%nat in Hb by lia. now rewrite up_add, Ha in Hb.
  - left. exists (a - b)%nat. replace a with (b + (a - b))%nat in Ha by lia. now rewrite up_add, Hb in Ha.
Qed.

Lemma anc_antisym q p : ptr m p -> anc m q p -> anc m p q -> q = p.
Proof using T.
  intros Hp H1 H2. destruct (anc_facts q p Hp H1) as (Hq & L1 & _). destruct (anc_facts p q Hq H2) as (_ & L2 & _). lia.
Qed.

Lemma root_anc p : ptr m p -> anc m 0%nat p.
Proof using T.
  intros Hp. pattern p. apply ancestor_ind; [|exact Hp]. clear p Hp. intros p Hp IH. destruct (par m p) as [q|] eqn:E.
  - now apply (anc_up _ p q Hp E), IH.
  - apply (tree_root m T p Hp) in E. subst p. apply anc_refl.
Qed.

Lemma any_up_true f : forall fuel p, ptr m p -> nHeight (at_ m p) <= Z.of_nat fuel -> any_up fuel m f p = true <-> exists q, anc m q p /\ f q = true.
Proof using T.
  induction fuel as [|fuel IH]; intros p Hp Hh; cbn [any_up]; fold (par m p); rewrite orb_true_iff.
  - assert (E : par m p = None).
    { destruct (par m p) as [q|] eqn:E; [|reflexivity]. destruct (par_spec p q Hp E) as (Pq & _ & H & _). pose proof (height_nonneg q Pq). lia. }
    split; [intros [H|H]; [exists p; split; [apply anc_refl | exact H] | discriminate]|].
    intros (q & Ha & Hf). left. destruct (anc_cases q p Hp Ha) as [->|(r & Hr & _)]; [exact Hf | congruence].
  - destruct (par m p) as [q|] eqn:E.
    + destruct (par_spec p q Hp E) as (Pq & _ & H & _). rewrite (IH q Pq) by lia. split.
      * intros [H'|(r & Ha & Hf)]; [exists p; split; [apply anc_refl | exact H'] | exists r; split; [now apply (anc_up r p q) | exact Hf]].
      * intros (r & Ha & Hf). destruct (anc_cases r p Hp Ha) as [->|(q' & E' & Ha')]; [now left | right; exists r; split; [congruence | exact Hf]].
    + split; [intros [H'|H']; [exists p; split; [apply anc_refl | exact H'] | discriminate]|].
      intros (r & Ha & Hf). left. destruct (anc_cases r p Hp Ha) as [->|(q' & E' & _)]; [exact Hf | congruence].
Qed.

(** ** The active chain is the branch of its tip *)

Variable v : CChain.
Hypothesis V : is_chain m v.

Lemma tip_nth t : Tip v = Some t -> nth (length v - 1) v None = Some t /\ (0 < length v)%nat.
Proof using. unfold Tip. clear V. destruct v; [discriminate|]. intros E. split; [exact E | cbn; lia]. Qed.

Lemma tip_spec t : Tip v = Some t -> ptr m t /\ nHeight (at_ m t) = Height v.
Proof using V.
  intros Ht. destruct (tip_nth t Ht) as [N L]. destruct (V (length v - 1)%nat ltac:(lia)) as (p & b & N' & D & H & _).
  rewrite N in N'. injection N' as <-. destruct (deref_ptr _ _ _ D) as [Hp <-]. split; [exact Hp|]. unfold Height. lia.
Qed.

Lemma chain_anc t p : Tip v = Some t -> ptr m p -> Contains m v p = true <-> anc m p t.
Proof using T V.
  intros Ht Hp. destruct (tip_nth t Ht) as [N L]. pose proof (height_nonneg p Hp) as H0. destruct (tip_spec t Ht) as [Pt Eh].
  rewrite (Contains_spec m v p _ (proj1 (deref_at m p) Hp) H0 V). split.
  - intros [Hh Hn]. set (i := Z.to_nat (nHeight (at_ m p))) in *. exists (length v - 1 - i)%nat. unfold Height in Hh.
    rewrite (is_chain_up m v V _ (length v - 1)) by (assumption || lia). rewrite <- Hn. f_equal. lia.
  - intros [k Hk]. destruct (anc_facts p t Pt (ex_intro _ k Hk)) as (_ & _ & _ & Hle & _). rewrite <- Eh. split; [exact Hle|].
    assert (Hkl : (k <= length v - 1)%nat).
    { destruct (Nat.le_gt_cases k (length v - 1)) as [|Hgt]; [assumption|]. exfalso.
      replace k with (length v - 1 + S (k - length v))%nat in Hk by lia. rewrite up_add in Hk.
      rewrite (is_chain_up m v V _ (length v - 1)) in Hk by (assumption || lia). rewrite Nat.sub_diag in Hk.
      destruct (V 0%nat L) as (r & b & N0 & D & _ & P0). rewrite N0 in Hk. destruct (deref_ptr _ _ _ D) as [Pr Er].
      rewrite up_S in Hk by exact Pr. unfold par in Hk. rewrite Er, P0 in Hk. discriminate. }
    rewrite (is_chain_up m v V _ (length v - 1)) in Hk by (assumption || lia).
    destruct (V (length v - 1 - k)%nat ltac:(lia)) as (r & b & N0 & D & Hb & _). rewrite Hk in N0. injection N0 as <-.
    destruct (deref_ptr _ _ _ D) as [_ ->]. rewrite Hb, Nat2Z.id. exact Hk.
Qed.
End Tree.

(** * The order of the candidates *)

(** The order of [CBlockIndexWorkComparator]: less work, then later arrival,
    then the higher address. *)
Definition worse (addr : nat -> Z) (m : index) (E : nat -> block_state) (p q : nat) : Prop :=
  W m p < W m q \/
  W m p = W m q /\ (nSequenceId (E q) < nSequenceId (E p) \/ nSequenceId (E p) = nSequenceId (E q) /\ addr q < addr p).

Lemma worse_total addr m E p q : (forall a b, addr a = addr b -> a = b) -> p <> q -> worse addr m E p q \/ worse addr m E q p.
Proof.
  intros HA Hne. assert (addr p <> addr q) by (intros H; now apply Hne, HA). unfold worse. lia.
Qed.

Lemma worse_irrefl addr m E p : ~ worse addr m E p p.
Proof. unfold worse. lia. Qed.

Lemma worse_trans addr m E p q r : worse addr m E p q -> worse addr m E q r -> worse addr m E p r.
Proof. unfold worse. lia. Qed.

Lemma worse_seq addr m E E' p q : nSequenceId (E' p) = nSequenceId (E p) -> nSequenceId (E' q) = nSequenceId (E q) ->
  worse addr m E' p q <-> worse addr m E p q.
Proof. intros H1 H2. unfold worse. now rewrite H1, H2. Qed.

Section Comparator.
Context {C : Type}.
Variable addr : nat -> Z.
Variable s : chainstate (C := C).
Hypothesis T : tree_ok (mapBlockIndex s).

Lemma comparator_spec p q : ptr (mapBlockIndex s) p -> ptr (mapBlockIndex s) q ->
  CBlockIndexWorkComparator addr s p q = true <-> worse addr (mapBlockIndex s) (entries s) p q.
Proof using T.
  intros Hp Hq. destruct (tree_limbs _ T p Hp) as [Lp Ep]. destruct (tree_limbs _ T q Hq) as [Lq Eq].
  unfold CBlockIndexWorkComparator, worse. rewrite op_gt_spec, op_lt_spec by (assumption || (unfold work; congruence)).
  change (val (work s p)) with (W (mapBlockIndex s) p). change (val (work s q)) with (W (mapBlockIndex s) q).
  destruct (Z.ltb_spec (W (mapBlockIndex s) q) (W (mapBlockIndex s) p)), (Z.ltb_spec (W (mapBlockIndex s) p) (W (mapBlockIndex s) q)),
    (Z.ltb_spec (nSequenceId (entries s p)) (nSequenceId (entries s q))), (Z.gtb_spec (nSequenceId (entries s p)) (nSequenceId (entries s q))),
    (Z.ltb_spec (addr p) (addr q)), (Z.gtb_spec (addr p) (addr q)); split; intros; try reflexivity; try discriminate; lia.
Qed.

Lemma comparator_false p q : ptr (mapBlockIndex s) p -> ptr (mapBlockIndex s) q ->
  CBlockIndexWorkComparator addr s p q = false <-> ~ worse addr (mapBlockIndex s) (entries s) p q.
Proof using T. intros Hp Hq. rewrite <- comparator_spec by assumption. destruct (CBlockIndexWorkComparator addr s p q); split; congruence. Qed.

Hypothesis addr_inj : forall a b, addr a = addr b -> a = b.

(** The fold keeps the best of what it has seen. *)
Lemma best_of_spec l : Forall (ptr (mapBlockIndex s)) l ->
  match best_of addr s l with
  | None => l = []
  | Some p => In p l /\ forall q, In q l -> q <> p -> worse addr (mapBlockIndex s) (entries s) q p
  end.
Proof using T addr_inj.
  unfold best_of. induction l as [|x l IH] using rev_ind; intros Hl; [reflexivity|].
  apply Forall_app in Hl as [Hl Hx]. inversion Hx as [|? ? Px _]; subst. specialize (IH Hl). rewrite fold_left_app. cbn [fold_left].
  destruct (fold_left _ l None) as [b|].
  - destruct IH as [Hb Hmax]. assert (Pb : ptr (mapBlockIndex s) b) by (exact (proj1 (List.Forall_forall _ _) Hl b Hb)).
    destruct (CBlockIndexWorkComparator addr s b x) eqn:E.
    + apply comparator_spec in E; [|assumption..]. split; [apply in_or_app; right; now left|]. intros q Hq Hne.
      apply in_app_or in Hq as [Hq|[->|[]]]; [|congruence]. destruct (Nat.eq_dec q b) as [->|Hqb]; [exact E|].
      apply (worse_trans _ _ _ _ b); [now apply Hmax | exact E].
    + apply comparator_false in E; [|assumption..]. split; [apply in_or_app; now left|]. intros q Hq Hne.
      apply in_app_or in Hq as [Hq|[<-|[]]]; [now apply Hmax|].
      destruct (worse_total addr (mapBlockIndex s) (entries s) x b addr_inj Hne) as [H|H]; [exact H | contradiction].
  - subst l. split; [now left|]. intros q [<-|[]] Hne. contradiction.
Qed.

Lemma best_candidate_spec : (forall p, p ∈ setBlockIndexCandidates s -> ptr (mapBlockIndex s) p) ->
  match best_candidate addr s with
  | None => setBlockIndexCandidates s = ∅
  | Some p => p ∈ setBlockIndexCandidates s /\
      forall q, q ∈ setBlockIndexCandidates s -> q <> p -> worse addr (mapBlockIndex s) (entries s) q p
  end.
Proof using T addr_inj.
  intros Hc. unfold best_candidate. assert (HF : Forall (ptr (mapBlockIndex s)) (elements (setBlockIndexCandidates s))).
  { apply List.Forall_forall. intros p Hp. apply Hc. now apply list_elem_of_In, elem_of_elements in Hp. }
  pose proof (best_of_spec _ HF) as HB. destruct (best_of addr s _) as [p|].
  - destruct HB as [Hin HB]. split; [now apply elem_of_elements, list_elem_of_In|]. intros q Hq. apply HB. now apply list_elem_of_In, elem_of_elements.
  - apply leibniz_equiv. now apply elements_empty_iff.
Qed.
End Comparator.

(** * The invariant *)

(** What the tree may assume of its client: a client stands for the chain that
    ends in a block, whether a block connects depends on the block alone (its
    parents included), refusals are final and the system does not fail. *)
Class LawfulClient (C : Type) `{ChainClient C} : Type := {
  parents : nat -> option nat;
  valid : nat -> bool;
  stands_for : C -> option nat -> Prop;
  connect_law : forall c p, stands_for c (parents p) ->
    match ConnectBlock c p with
    | (c', Connected) => valid p = true /\ stands_for c' (Some p)
    | (c', Refused corruption _) => valid p = false /\ corruption = false /\ stands_for c' (parents p)
    | (_, SystemError _) => False
    end;
  disconnect_law : forall c p, stands_for c (Some p) -> exists c', DisconnectBlock c p = (c', true) /\ stands_for c' (parents p);
  running_law : forall c, ShutdownRequested c = false
}.

Definition failed (b : block_state) : bool := has BLOCK_FAILED_MASK b.
Definition stored (b : block_state) : bool := has BLOCK_HAVE_DATA b.
Definition refused (b : block_state) : bool := has BLOCK_FAILED_VALID b.

(** The transactions of a branch. *)
Fixpoint sum_up (fuel : nat) (m : index) (f : nat -> Z) (p : nat) : Z :=
  f p + match fuel, par m p with
        | S fuel, Some q => sum_up fuel m f q
        | _, _ => 0
        end.

Definition branch_txs (m : index) (E : nat -> block_state) (p : nat) : Z :=
  sum_up (Z.to_nat (nHeight (at_ m p))) m (fun q => nTx (E q)) p.

Lemma branch_txs_step m E p : tree_ok m -> ptr m p ->
  branch_txs m E p = nTx (E p) + match par m p with Some q => branch_txs m E q | None => 0 end.
Proof.
  intros T Hp. unfold branch_txs at 1. pose proof (height_nonneg m T p Hp). destruct (par m p) as [q|] eqn:Eq.
  - destruct (par_spec m T p q Hp Eq) as (Pq & _ & Hh & _). pose proof (height_nonneg m T q Pq).
    replace (Z.to_nat (nHeight (at_ m p))) with (S (Z.to_nat (nHeight (at_ m q)))) by lia. cbn [sum_up]. now rewrite Eq.
  - rewrite (root_height m T p Hp Eq). change (Z.to_nat 0) with 0%nat. reflexivity.
Qed.

Lemma sum_up_ext m f g : (forall q, f q = g q) -> forall fuel p, sum_up fuel m f p = sum_up fuel m g p.
Proof. intros HE. induction fuel as [|fuel IH]; intros p; cbn [sum_up]; rewrite HE; [reflexivity|]. destruct (par m p); [now rewrite IH | reflexivity]. Qed.

Lemma branch_txs_ext m E E' p : (forall q, nTx (E' q) = nTx (E q)) -> branch_txs m E' p = branch_txs m E p.
Proof. intros HE. unfold branch_txs. now apply sum_up_ext. Qed.

(** What the entries say of each other. *)
Record entries_ok (m : index) (E : nat -> block_state) : Prop := {
  eo_status : forall p, ptr m p -> status_ok (E p);
  eo_tx : forall p, ptr m p -> 0 <= nTx (E p) /\ (stored (E p) = true <-> nTx (E p) <> 0) /\ (3 <= level (E p) <-> nTx (E p) <> 0);
  eo_level : forall p, ptr m p -> level (E p) = 2 \/ level (E p) = 3 \/ level (E p) = 5;
  eo_levels : forall p q, ptr m p -> par m p = Some q -> par m q <> None -> level (E p) = 5 -> level (E q) = 5;
  eo_linked : forall p, ptr m p -> nChainTx (E p) = 0 <-> exists q, anc m q p /\ stored (E q) = false;
  eo_count : forall p, ptr m p -> nChainTx (E p) <> 0 -> nChainTx (E p) = branch_txs m E p;
  eo_sequence : forall p, ptr m p -> nChainTx (E p) = 0 -> nSequenceId (E p) = 0;
  eo_flags : forall p, ptr m p -> failed (E p) = true -> exists q, anc m q p /\ refused (E q) = true
}.

(** The candidates are the linked blocks at least as good as [best], except
    failed ones. *)
Record candidates_ok (addr : nat -> Z) (m : index) (E : nat -> block_state) (cand : gset nat) (best : nat) : Prop := {
  co_sound : forall p, p ∈ cand -> ptr m p /\ nChainTx (E p) <> 0 /\ ~ worse addr m E p best;
  co_complete : forall p, ptr m p -> nChainTx (E p) <> 0 -> failed (E p) = false -> ~ worse addr m E p best -> p ∈ cand
}.

(** The pairs of [mapBlocksUnlinked] are the blocks with data and a missing
    ancestor, once each. *)
Record unlinked_ok (m : index) (E : nat -> block_state) (unl : list (nat * nat)) : Prop := {
  uo_pairs : forall a b, In (a, b) unl <-> ptr m b /\ par m b = Some a /\ stored (E b) = true /\ nChainTx (E b) = 0;
  uo_nodup : List.NoDup unl
}.

Section Invariant.
Variable addr : nat -> Z.
Context {C : Type} `{LawfulClient C}.

(** A block whose branch is connected or fit to be. *)
Definition sound_branch (m : index) (E : nat -> block_state) (p : nat) : Prop :=
  forall q, anc m q p -> failed (E q) = false /\ valid q = true.

(** [t] is the tip; [best] is the best tip since the candidates were last
    complete, which is [t] between two calls. *)
Record Inv (s : chainstate) (t best : nat) : Prop := {
  inv_tree : tree_ok (mapBlockIndex s);
  inv_parents : forall p, ptr (mapBlockIndex s) p -> par (mapBlockIndex s) p = parents p;
  inv_entries : entries_ok (mapBlockIndex s) (entries s);
  inv_chain : is_chain (mapBlockIndex s) (chainActive s);
  inv_tip : tip s = Some t;
  inv_linked : nChainTx (entries s t) <> 0;
  inv_branch : sound_branch (mapBlockIndex s) (entries s) t;
  inv_scripts : forall p, anc (mapBlockIndex s) p t -> par (mapBlockIndex s) p <> None -> level (entries s p) = 5;
  inv_best : ptr (mapBlockIndex s) best /\ nChainTx (entries s best) <> 0 /\ sound_branch (mapBlockIndex s) (entries s) best;
  inv_order : ~ worse addr (mapBlockIndex s) (entries s) best t;
  inv_candidates : candidates_ok addr (mapBlockIndex s) (entries s) (setBlockIndexCandidates s) best;
  inv_unlinked : unlinked_ok (mapBlockIndex s) (entries s) (mapBlocksUnlinked s);
  inv_client : stands_for (client s) (Some t)
}.

Lemma inv_ptr s t best : Inv s t best -> ptr (mapBlockIndex s) t.
Proof. intros I. apply (tip_spec _ _ (inv_chain _ _ _ I) t (inv_tip _ _ _ I)). Qed.
End Invariant.
End BlockTreeInv.
