(* ===== verification/BlockTreeOps.v ===== *)
(** The operations of [BlockTree] keep its invariant: marking and erasing
    entries, [FindMostWorkChain], [ConnectTip], [DisconnectTip] and the step
    of [ActivateBestChain]. *)
From stdpp Require Import base list gmap fin_maps fin_sets.
From S2P Require Import Prelude BaseUint Uint256 Params Chain Pow Kernel BlockTree BlockTreeInv.

Module BlockTreeOps.
Import BaseUint Uint256 Chain BlockTree BlockTreeInv.

(** A change of status words that keeps what the other fields are tied to. *)
Lemma entries_restatus m E E' : entries_ok m E ->
  (forall p, nTx (E' p) = nTx (E p) /\ nChainTx (E' p) = nChainTx (E p) /\ nSequenceId (E' p) = nSequenceId (E p)) ->
  (forall p, ptr m p -> status_ok (E' p) /\ stored (E' p) = stored (E p)) ->
  (forall p, ptr m p -> level (E' p) = level (E p) \/ 3 <= level (E p) /\ level (E' p) = 5) ->
  (forall p q, ptr m p -> par m p = Some q -> par m q <> None -> level (E' p) = 5 -> level (E' q) = 5) ->
  (forall p, ptr m p -> failed (E' p) = true -> exists q, anc m q p /\ refused (E' q) = true) ->
  tree_ok m -> entries_ok m E'.
Proof.
  intros O Hf Hs Hl Hlv Hfl T. destruct O as [O1 O2 O3 O4 O5 O6 O7 O8].
  constructor; intros p; try destruct (Hf p) as (F1 & F2 & F3); try (intros Hp; destruct (Hs p Hp) as [S1 S2]); try assumption.
  - destruct (O2 p Hp) as (A & B & D). rewrite F1, S2. split; [exact A|]. split; [exact B|].
    destruct (Hl p Hp) as [-> | [L1 L2]]; [exact D|]. rewrite L2. split; [|lia]. intros _. now apply D.
  - destruct (Hl p Hp) as [-> | [_ ->]]; [now apply O3 | lia].
  - now apply Hlv.
  - rewrite F2, (O5 p Hp). split; intros (q & Ha & Hd); exists q; (split; [exact Ha|]);
      destruct (anc_facts m T q p Hp Ha) as (Pq & _); destruct (Hs q Pq) as [_ E1]; congruence.
  - rewrite F2. intros HN. rewrite (O6 p Hp HN). symmetry. apply branch_txs_ext. intros q. apply (Hf q).
  - rewrite F2, F3. now apply O7.
  - now apply Hfl.
Qed.

Section Ops.
Variable addr : nat -> Z.
Hypothesis addr_inj : forall a b, addr a = addr b -> a = b.
Context {C : Type} `{LC : LawfulClient C}.

Abbreviation st := (chainstate (C := C)).
Abbreviation Inv := (Inv addr (C := C)).

Lemma entry_update (s : st) p f q : entries (update_entry s p f) q = if (q =? p)%nat then f (entries s p) else entries s q.
Proof. reflexivity. Qed.

Lemma mark_failed b flag : status_ok b -> flag = BLOCK_FAILED_VALID \/ flag = BLOCK_FAILED_CHILD ->
  status_ok (mark flag b) /\ level (mark flag b) = level b /\ stored (mark flag b) = stored b /\ failed (mark flag b) = true /\
  refused (mark flag b) = refused b || (flag =? BLOCK_FAILED_VALID).
Proof.
  intros Hb Hf. assert (Hin : In flag flags) by (destruct Hf as [-> | ->]; unfold flags; cbn; tauto).
  destruct (mark_spec flag b Hb Hin) as (S1 & S2 & S3). split; [exact S1|]. split; [exact S2|].
  unfold stored, failed, refused. rewrite (S3 BLOCK_HAVE_DATA) by (cbn; tauto).
  rewrite (proj1 (mask_spec _ S1)), (S3 BLOCK_FAILED_VALID), (S3 BLOCK_FAILED_CHILD) by (cbn; tauto).
  destruct Hf as [-> | ->]; cbn; rewrite ?orb_false_r, ?orb_true_r; repeat split.
Qed.

Lemma refused_failed b : status_ok b -> refused b = true -> failed b = true.
Proof. intros Hb Hr. unfold failed. rewrite (proj1 (mask_spec b Hb)). unfold refused in Hr. now rewrite Hr. Qed.

(** Entries in which every failed mark is kept. *)
Definition keeps (E E' : nat -> block_state) : Prop :=
  forall p, nTx (E' p) = nTx (E p) /\ nChainTx (E' p) = nChainTx (E p) /\ nSequenceId (E' p) = nSequenceId (E p).

Lemma keeps_worse E E' m p q : keeps E E' -> worse addr m E' p q <-> worse addr m E p q.
Proof. intros K. apply worse_seq; apply K. Qed.

Lemma mark_keeps (s : st) p flag : keeps (entries s) (entries (update_entry s p (mark flag))).
Proof. intros q. rewrite entry_update. destruct (Nat.eqb_spec q p) as [->|]; repeat split; reflexivity. Qed.

(** A change of status words that respects the branches that matter. *)
Lemma Inv_restatus s t best E' (I : Inv s t best) : keeps (entries s) E' ->
  (forall p, ptr (mapBlockIndex s) p -> status_ok (E' p) /\ stored (E' p) = stored (entries s p)) ->
  (forall p, ptr (mapBlockIndex s) p -> level (E' p) = level (entries s p) \/ 3 <= level (entries s p) /\ level (E' p) = 5) ->
  (forall p q, ptr (mapBlockIndex s) p -> par (mapBlockIndex s) p = Some q -> par (mapBlockIndex s) q <> None -> level (E' p) = 5 -> level (E' q) = 5) ->
  (forall p, ptr (mapBlockIndex s) p -> failed (E' p) = true -> exists q, anc (mapBlockIndex s) q p /\ refused (E' q) = true) ->
  (forall p, ptr (mapBlockIndex s) p -> failed (E' p) = false -> failed (entries s p) = false) ->
  (forall p, anc (mapBlockIndex s) p t \/ anc (mapBlockIndex s) p best -> failed (E' p) = failed (entries s p)) ->
  Inv (with_entries s E') t best.
Proof.
  intros K HS HL HLv HFl HF HB. pose proof (inv_tree _ _ _ _ I) as T. destruct (inv_best _ _ _ _ I) as (B1 & B2 & B3).
  constructor; try exact (inv_tree _ _ _ _ I); try exact (inv_parents _ _ _ _ I); try exact (inv_chain _ _ _ _ I); try exact (inv_tip _ _ _ _ I);
    try exact (inv_client _ _ _ _ I); cbn [with_entries mapBlockIndex entries setBlockIndexCandidates mapBlocksUnlinked].
  - now apply (entries_restatus _ (entries s)); [apply I|..].
  - destruct (K t) as (_ & -> & _). exact (inv_linked _ _ _ _ I).
  - intros q Ha. destruct (inv_branch _ _ _ _ I q Ha) as [F V]. split; [rewrite HB; auto | exact V].
  - intros q Ha Hr. pose proof (inv_scripts _ _ _ _ I q Ha Hr). destruct (HL q); [apply (anc_facts _ T q t (inv_ptr _ _ _ _ I) Ha) | congruence | tauto].
  - split; [exact B1|]. split; [destruct (K best) as (_ & -> & _); exact B2|]. intros q Ha. destruct (B3 q Ha) as [F V]. split; [rewrite HB; auto | exact V].
  - rewrite (keeps_worse _ _ _ _ _ K). exact (inv_order _ _ _ _ I).
  - destruct (inv_candidates _ _ _ _ I) as [C1 C2]. constructor; intros q Hq; rewrite (keeps_worse _ _ _ _ _ K); destruct (K q) as (_ & -> & _); [now apply C1|].
    intros Hn Hf. apply C2; auto.
  - destruct (inv_unlinked _ _ _ _ I) as [U1 U2]. constructor; [|exact U2]. intros a b. rewrite (U1 a b). destruct (K b) as (_ & -> & _).
    split; intros (Pb & X); (split; [exact Pb|]); destruct (HS b Pb) as (_ & E3); first [rewrite E3 | rewrite <- E3]; exact X.
Qed.

(** Marking a block that is not on the branches that matter. *)
Lemma Inv_mark s t best p flag : Inv s t best -> ptr (mapBlockIndex s) p ->
  flag = BLOCK_FAILED_VALID \/ flag = BLOCK_FAILED_CHILD /\ (exists q, anc (mapBlockIndex s) q p /\ refused (entries s q) = true) ->
  ~ anc (mapBlockIndex s) p t -> ~ anc (mapBlockIndex s) p best -> Inv (update_entry s p (mark flag)) t best.
Proof.
  intros I Hp Hflag Ht Hb. pose proof (inv_tree _ _ _ _ I) as T. pose proof (inv_entries _ _ _ _ I) as O.
  destruct (mark_failed (entries s p) flag (eo_status _ _ O p Hp) ltac:(tauto)) as (M1 & M2 & M3 & M4 & M5).
  assert (HS : forall q, ptr (mapBlockIndex s) q -> refused (entries s q) = true -> refused (entries (update_entry s p (mark flag)) q) = true).
  { intros q Hq Hr. rewrite entry_update. destruct (Nat.eqb_spec q p) as [->|]; [now rewrite M5, Hr | exact Hr]. }
  refine (Inv_restatus s t best (entries (update_entry s p (mark flag))) I (mark_keeps s p flag) _ _ _ _ _ _).
  - intros q Hq. rewrite entry_update. destruct (Nat.eqb_spec q p) as [->|]; [now split | split; [now apply (eo_status _ _ O) | reflexivity]].
  - intros q Hq. left. rewrite entry_update. now destruct (Nat.eqb_spec q p) as [->|].
  - intros a b Ha Hab Hr. rewrite !entry_update.
    destruct (Nat.eqb_spec a p) as [->|], (Nat.eqb_spec b p) as [->|]; rewrite ?M2; now apply (eo_levels _ _ O).
  - intros q Hq Hf. destruct (failed (entries s q)) eqn:F.
    + destruct (eo_flags _ _ O q Hq F) as (r & Ha & Hr). exists r. split; [exact Ha | apply HS; [now apply (anc_facts _ T r q) | exact Hr]].
    + rewrite entry_update in Hf. destruct (Nat.eqb_spec q p) as [->|]; [|congruence]. destruct Hflag as [-> | [-> (r & Ha & Hr)]].
      * exists p. split; [apply anc_refl|]. rewrite entry_update, Nat.eqb_refl, M5. apply orb_true_r.
      * exists r. split; [exact Ha | apply HS; [now apply (anc_facts _ T r p) | exact Hr]].
  - intros q Hq. rewrite entry_update. destruct (Nat.eqb_spec q p) as [->|]; congruence.
  - intros q Hq. rewrite entry_update. destruct (Nat.eqb_spec q p) as [->|]; [exfalso; tauto | reflexivity].
Qed.

Lemma Inv_erase s t best p : Inv s t best -> (ptr (mapBlockIndex s) p -> failed (entries s p) = true) -> Inv (erase_candidate s p) t best.
Proof.
  intros I Hf. destruct I as [I1 I2 I3 I4 I5 I6 I7 I8 I9 I10 [C1 C2] I12 I13]. constructor; try assumption. constructor.
  - intros q Hq. apply C1. cbn in Hq. now apply elem_of_difference in Hq as [Hq _].
  - intros q Hq HN HF HW. cbn. apply elem_of_difference. split; [now apply C2|]. intros Eq%elem_of_singleton. subst q. exact (eq_true_false_abs _ (Hf Hq) HF).
Qed.

Lemma Inv_best_invalid s t best p : Inv s t best -> Inv (with_best_invalid s p) t best.
Proof. intros I. destruct I. constructor; assumption. Qed.

(** ** [FindMostWorkChain] *)

(** The removal of unusable candidates changes only failed marks and the
    candidates. *)
Record purged (s s' : st) : Prop := {
  pg_index : mapBlockIndex s' = mapBlockIndex s;
  pg_active : chainActive s' = chainActive s;
  pg_client : client s' = client s;
  pg_keeps : keeps (entries s) (entries s');
  pg_refused : forall p, ptr (mapBlockIndex s) p -> refused (entries s' p) = refused (entries s p);
  pg_candidates : setBlockIndexCandidates s' ⊆ setBlockIndexCandidates s
}.

Lemma purged_refl s : purged s s.
Proof. constructor; try reflexivity. intros p. ands; reflexivity. Qed.

Lemma purged_trans s1 s2 s3 : purged s1 s2 -> purged s2 s3 -> purged s1 s3.
Proof.
  intros [A1 A2 A3 A4 A5 A6] [B1 B2 B3 B4 B5 B6]. constructor; try congruence.
  - intros p. destruct (A4 p) as (E1 & E2 & E3), (B4 p) as (E4 & E5 & E6). ands; congruence.
  - intros p Hp. rewrite B5, A5; congruence.
  - now transitivity (setBlockIndexCandidates s2).
Qed.

(** A failed block is on no branch that matters. *)
Lemma failed_off s t best r p : Inv s t best -> failed (entries s r) = true -> anc (mapBlockIndex s) r p ->
  ~ anc (mapBlockIndex s) p t /\ ~ anc (mapBlockIndex s) p best.
Proof.
  intros I Hr Ha. destruct (inv_best _ _ _ _ I) as (_ & _ & Hb).
  split; intros Hx; [destruct (inv_branch _ _ _ _ I r (anc_trans _ _ _ _ Ha Hx)) | destruct (Hb r (anc_trans _ _ _ _ Ha Hx))]; congruence.
Qed.

Lemma remove_chain_spec t best r : forall fuel (s : st) p, Inv s t best -> ptr (mapBlockIndex s) p -> anc (mapBlockIndex s) r p ->
  failed (entries s r) = true -> nHeight (at_ (mapBlockIndex s) p) <= nHeight (at_ (mapBlockIndex s) r) + Z.of_nat fuel ->
  exists s', remove_chain fuel s true r p = Some s' /\ Inv s' t best /\ purged s s' /\ p ∉ setBlockIndexCandidates s'.
Proof.
  induction fuel as [|fuel IH]; intros s p I Hp Ha Hr Hh; pose proof (inv_tree _ _ _ _ I) as T; cbn [remove_chain].
  - assert (E : r = p). { destruct (Nat.eq_dec r p) as [|Hne]; [assumption|]. destruct (anc_facts _ T r p Hp Ha) as (_ & _ & _ & _ & HS). destruct (HS Hne). lia. }
    subst r. rewrite Nat.eqb_refl. eexists. split; [reflexivity|]. split; [now apply Inv_erase|]. split.
    + constructor; try reflexivity; [intros q; ands; reflexivity | cbn; apply subseteq_difference_l; reflexivity].
    + cbn. intros Hin. apply elem_of_difference in Hin as [_ Hin]. now apply Hin, elem_of_singleton.
  - destruct (Nat.eqb_spec r p) as [->|Hne].
    + eexists. split; [reflexivity|]. split; [now apply Inv_erase|]. split.
      * constructor; try reflexivity; [intros q; ands; reflexivity | cbn; apply subseteq_difference_l; reflexivity].
      * cbn. intros Hin. apply elem_of_difference in Hin as [_ Hin]. now apply Hin, elem_of_singleton.
    + destruct (anc_cases _ r p Hp Ha) as [|(q & Eq & Hq)]; [contradiction|]. unfold prev. fold (par (mapBlockIndex s) p). rewrite Eq.
      destruct (par_spec _ T p q Hp Eq) as (Pq & _ & Hhq & _).
      set (s1 := update_entry s p (mark BLOCK_FAILED_CHILD)). destruct (failed_off s t best r p I Hr Ha) as [Hot Hob].
      destruct (eo_flags _ _ (inv_entries _ _ _ _ I) r (proj1 (anc_facts _ T r p Hp Ha)) Hr) as (x & Hx & Hxr).
      assert (I1 : Inv s1 t best).
      { apply Inv_mark; try assumption. right. split; [reflexivity|]. exists x. split; [now apply (anc_trans _ x r p) | exact Hxr]. }
      destruct (mark_failed (entries s p) BLOCK_FAILED_CHILD (eo_status _ _ (inv_entries _ _ _ _ I) p Hp) ltac:(now right)) as (_ & _ & _ & M4 & M5).
      assert (F1 : failed (entries s1 p) = true) by (unfold s1; rewrite entry_update, Nat.eqb_refl; exact M4).
      set (s2 := erase_candidate s1 p). assert (I2 : Inv s2 t best) by (apply Inv_erase; [exact I1 | now intros _]).
      destruct (IH s2 q I2 Pq Hq) as (s' & R & I' & P' & Hn).
      { change (failed (entries s1 r) = true). unfold s1. rewrite entry_update. destruct (Nat.eqb_spec r p); [contradiction | exact Hr]. }
      { change (mapBlockIndex s2) with (mapBlockIndex s). lia. }
      exists s'. split; [exact R|]. split; [exact I'|].
      assert (P2 : purged s s2).
      { constructor; try reflexivity; [apply mark_keeps | | cbn; apply subseteq_difference_l; reflexivity].
        intros a _. change (refused (entries s1 a) = refused (entries s a)). unfold s1. rewrite entry_update. destruct (Nat.eqb_spec a p) as [->|]; [|reflexivity].
        rewrite M5. apply orb_false_r. }
      split; [now apply (purged_trans _ s2)|]. intros Hin. apply (pg_candidates _ _ P') in Hin. cbn in Hin.
      apply elem_of_difference in Hin as [_ Hin]. now apply Hin, elem_of_singleton.
Qed.

(** The walk to the active chain ends there or at a failed block. *)
Lemma test_path_spec (s : st) t best : Inv s t best -> forall fuel p, ptr (mapBlockIndex s) p -> nChainTx (entries s p) <> 0 ->
  nHeight (at_ (mapBlockIndex s) p) < Z.of_nat fuel ->
  (test_path fuel s (Some p) = Connects /\ forall r, anc (mapBlockIndex s) r p -> failed (entries s r) = false) \/
  exists r, test_path fuel s (Some p) = Unusable r /\ anc (mapBlockIndex s) r p /\ failed (entries s r) = true.
Proof.
  intros I. pose proof (inv_tree _ _ _ _ I) as T. pose proof (inv_entries _ _ _ _ I) as O.
  induction fuel as [|fuel IH]; intros p Hp HN Hh; [pose proof (height_nonneg _ T p Hp); lia|]. cbn [test_path].
  destruct (Contains (mapBlockIndex s) (chainActive s) p) eqn:HC.
  - left. split; [reflexivity|]. apply (chain_anc _ T _ (inv_chain _ _ _ _ I) t p (inv_tip _ _ _ _ I) Hp) in HC.
    intros r Hr. apply (inv_branch _ _ _ _ I). now apply (anc_trans _ r p t).
  - destruct (Z.eqb_spec (nChainTx (entries s p)) 0); [contradiction|]. cbn [andb].
    assert (HD : forall r, anc (mapBlockIndex s) r p -> stored (entries s r) = true).
    { intros r Hr. destruct (stored (entries s r)) eqn:E; [reflexivity|]. exfalso. apply HN, (eo_linked _ _ O p Hp). now exists r. }
    pose proof (HD p (anc_refl _ p)) as Hd. unfold stored in Hd. rewrite Hd. cbn [negb]. rewrite orb_false_r.
    fold (failed (entries s p)). destruct (failed (entries s p)) eqn:Hf; [right; exists p; ands; [reflexivity | apply anc_refl | exact Hf]|].
    unfold prev. fold (par (mapBlockIndex s) p). destruct (par (mapBlockIndex s) p) as [q|] eqn:Eq.
    + destruct (par_spec _ T p q Hp Eq) as (Pq & _ & Hhq & _).
      assert (HNq : nChainTx (entries s q) <> 0).
      { intros E. apply (eo_linked _ _ O q Pq) in E as (r & Hr & Hn). rewrite HD in Hn by now apply (anc_up _ r p q). discriminate. }
      destruct (IH q Pq HNq ltac:(lia)) as [[R Hall]|(r & R & Hr & Hrf)].
      * left. split; [exact R|]. intros r Hr. destruct (anc_cases _ r p Hp Hr) as [->|(q' & Eq' & Hr')]; [exact Hf | apply Hall; congruence].
      * right. exists r. split; [exact R|]. split; [now apply (anc_up _ r p q) | exact Hrf].
    + left. assert (E : test_path fuel s None = Connects) by (now destruct fuel). rewrite E. split; [reflexivity|].
      intros r Hr. destruct (anc_cases _ r p Hp Hr) as [->|(q' & Eq' & _)]; [exact Hf | congruence].
Qed.

Lemma FindMostWorkChain_spec t best : forall fuel (s : st), Inv s t best -> (size (setBlockIndexCandidates s) < fuel)%nat ->
  exists s' p, FindMostWorkChain_loop addr fuel s = Some (s', Some p) /\ Inv s' t best /\ purged s s' /\
    p ∈ setBlockIndexCandidates s' /\
    (forall q, q ∈ setBlockIndexCandidates s' -> q <> p -> worse addr (mapBlockIndex s') (entries s') q p) /\
    (forall r, anc (mapBlockIndex s') r p -> failed (entries s' r) = false).
Proof.
  induction fuel as [|fuel IH]; intros s I Hf; [lia|]. cbn [FindMostWorkChain_loop]. pose proof (inv_tree _ _ _ _ I) as T.
  destruct (inv_candidates _ _ _ _ I) as [C1 C2]. destruct (inv_best _ _ _ _ I) as (B1 & B2 & B3).
  pose proof (best_candidate_spec addr s T addr_inj ltac:(intros p Hp; now apply C1)) as HB.
  assert (Hin : best ∈ setBlockIndexCandidates s).
  { apply C2; [exact B1 | exact B2 | apply (B3 best), anc_refl | apply worse_irrefl]. }
  destruct (best_candidate addr s) as [p|]; [|rewrite HB in Hin; now apply not_elem_of_empty in Hin]. destruct HB as [Hp Hmax].
  destruct (C1 p Hp) as (Pp & HN & _). set (n := S (Z.to_nat (height s p))).
  assert (Hn : nHeight (at_ (mapBlockIndex s) p) < Z.of_nat n) by (unfold n, height; pose proof (height_nonneg _ T p Pp); lia).
  destruct (test_path_spec s t best I n p Pp HN Hn) as [[-> Hall]|(r & -> & Ha & Hr)].
  - exists s, p. ands; auto using purged_refl.
  - fold (failed (entries s r)). rewrite Hr. set (s1 := if true && better_invalid s p then _ else s).
    assert (I1 : Inv s1 t best) by (unfold s1; destruct (true && _); [now apply Inv_best_invalid | exact I]).
    assert (P1 : purged s s1) by (unfold s1; destruct (true && _); [|apply purged_refl]; constructor; try reflexivity; intros q; ands; reflexivity).
    assert (Em : mapBlockIndex s1 = mapBlockIndex s) by apply P1. assert (Ee : entries s1 = entries s) by (unfold s1; now destruct (true && _)).
    assert (Ec : setBlockIndexCandidates s1 = setBlockIndexCandidates s) by (unfold s1; now destruct (true && _)).
    destruct (remove_chain_spec t best r n s1 p I1) as (s2 & R & I2 & P2 & Hnot); rewrite ?Em, ?Ee; try assumption.
    { pose proof (height_nonneg _ T r (proj1 (anc_facts _ T r p Pp Ha))). lia. }
    rewrite R. destruct (IH s2 I2) as (s3 & p3 & R3 & I3 & P3 & Rest).
    { assert (Hlt : setBlockIndexCandidates s2 ⊂ setBlockIndexCandidates s).
      { split; [rewrite <- Ec; apply P2|]. intros Hsub. now apply Hnot, Hsub. }
      apply subset_size in Hlt. lia. }
    exists s3, p3. split; [exact R3|]. split; [exact I3|]. split; [|exact Rest].
    apply (purged_trans _ s1); [exact P1|]. now apply (purged_trans _ s2).
Qed.

(** ** Moving the tip *)

(** The tree is the same, only invalid blocks are newly refused and no
    candidate is added. *)
Record progressed (s s' : st) : Prop := {
  pr_index : mapBlockIndex s' = mapBlockIndex s;
  pr_keeps : keeps (entries s) (entries s');
  pr_refused : forall p, ptr (mapBlockIndex s) p -> refused (entries s p) = true -> refused (entries s' p) = true;
  pr_invalid : forall p, ptr (mapBlockIndex s) p -> refused (entries s' p) = true -> refused (entries s p) = true \/ valid p = false;
  pr_candidates : setBlockIndexCandidates s' ⊆ setBlockIndexCandidates s
}.

Lemma progressed_refl s : progressed s s.
Proof. constructor; auto. intros p. ands; reflexivity. Qed.

Lemma progressed_trans s1 s2 s3 : progressed s1 s2 -> progressed s2 s3 -> progressed s1 s3.
Proof.
  intros [A1 A2 A3 A4 A5] [B1 B2 B3 B4 B5]. rewrite A1 in *. constructor; [congruence | | auto | | now transitivity (setBlockIndexCandidates s2)].
  - intros p. destruct (A2 p) as (E1 & E2 & E3), (B2 p) as (E4 & E5 & E6). ands; congruence.
  - intros p Hp Hr. destruct (B4 p Hp Hr) as [Hr'|]; [now apply A4 | now right].
Qed.

Lemma purged_progressed s s' : purged s s' -> progressed s s'.
Proof. intros [A1 A2 A3 A4 A5 A6]. constructor; try assumption; intros p Hp; rewrite (A5 p Hp); auto. Qed.

Lemma SetTip_chain (s : st) t best x : Inv s t best -> ptr (mapBlockIndex s) x ->
  is_chain (mapBlockIndex s) (SetTip (mapBlockIndex s) (chainActive s) (Some x)) /\
  Tip (SetTip (mapBlockIndex s) (chainActive s) (Some x)) = Some x.
Proof.
  intros I Hx. destruct (SetTip_spec (mapBlockIndex s) (chainActive s) x _ (tree_wf _ (inv_tree _ _ _ _ I)) (inv_chain _ _ _ _ I) (proj1 (deref_at _ x) Hx)) as (R1 & _ & R3).
  now split.
Qed.

Lemma DisconnectTip_spec (s : st) t best q : Inv s t best -> par (mapBlockIndex s) t = Some q ->
  exists s', DisconnectTip s = Some (s', true) /\ Inv s' q best /\ progressed s s' /\ entries s' = entries s.
Proof.
  intros I Hq. pose proof (inv_ptr _ _ _ _ I) as Pt. pose proof (inv_tree _ _ _ _ I) as T. destruct (par_spec _ T t q Pt Hq) as (Pq & _ & _ & HW).
  unfold DisconnectTip. rewrite (inv_tip _ _ _ _ I). destruct (disconnect_law (client s) t (inv_client _ _ _ _ I)) as (c & -> & Hc).
  unfold UpdateTip, prev. cbn [mapBlockIndex with_client chainActive]. fold (par (mapBlockIndex s) t). rewrite Hq.
  destruct (SetTip_chain s t best q I Pq) as [V1 V2]. eexists. split; [reflexivity|]. split; [|split; [constructor; auto; intros p; ands; reflexivity | reflexivity]].
  assert (Hsub : forall p, anc (mapBlockIndex s) p q -> anc (mapBlockIndex s) p t) by (intros p Hp; now apply (anc_up _ p t q)).
  destruct I as [I1 I2 I3 I4 I5 I6 I7 I8 I9 I10 I11 I12 I13]. constructor; try assumption.
  - intros E. apply (eo_linked _ _ I3 q Pq) in E as (r & Hr & Hd). apply I6, (eo_linked _ _ I3 t Pt). exists r. split; [now apply Hsub | exact Hd].
  - intros p Hp. apply I7, Hsub, Hp.
  - intros p Hp. apply I8, Hsub, Hp.
  - cbn. unfold worse in *. lia.
  - cbn. rewrite <- Hq, (I2 t Pt). exact Hc.
Qed.

Lemma undo_entry_spec b : status_ok b -> failed b = false -> level b = 2 \/ level b = 3 \/ level b = 5 ->
  let b' := undo_entry b in
  status_ok b' /\ level b' = 5 /\ stored b' = stored b /\ refused b' = refused b /\ failed b' = false /\
  nTx b' = nTx b /\ nChainTx b' = nChainTx b /\ nSequenceId b' = nSequenceId b.
Proof.
  intros Hb Hf Hl b'. unfold b', undo_entry. destruct (negb (has BLOCK_HAVE_UNDO b) || _) eqn:Ec.
  2:{ apply orb_false_iff in Ec as [_ Ec]. apply negb_false_iff in Ec. unfold IsValid in Ec. fold (failed b) in Ec. rewrite Hf in Ec.
      change BLOCK_VALID_SCRIPTS with 5 in Ec. ands; try reflexivity; try assumption. lia. }
  set (b1 := mark BLOCK_HAVE_UNDO b). destruct (mark_spec BLOCK_HAVE_UNDO b Hb ltac:(cbn; tauto)) as (S1 & S2 & S3). fold b1 in S1, S2, S3.
  assert (F1 : failed b1 = false).
  { unfold failed in *. rewrite (proj1 (mask_spec b1 S1)), !S3 by (cbn; tauto). rewrite (proj1 (mask_spec b Hb)) in Hf. apply orb_false_iff in Hf as [-> ->]. reflexivity. }
  destruct (raise_spec BLOCK_VALID_SCRIPTS b1 S1 ltac:(cbn; tauto)) as (R1 & R2 & R3). fold (failed b1) in R2. rewrite F1 in R2. change BLOCK_VALID_SCRIPTS with 5 in R2.
  set (b2 := RaiseValidity BLOCK_VALID_SCRIPTS b1) in *. destruct (raise_fields BLOCK_VALID_SCRIPTS b1) as (G1 & G2 & G3). fold b2 in G1, G2, G3.
  ands; try assumption.
  - cbv iota in R2. change (level b2 = Z.max 5 (level b1)) in R2. lia.
  - unfold stored. rewrite R3, S3 by (cbn; tauto). apply orb_false_r.
  - unfold refused. rewrite R3, S3 by (cbn; tauto). apply orb_false_r.
  - unfold failed in *. rewrite (proj1 (mask_spec b2 R1)), !R3 by (cbn; tauto). rewrite (proj1 (mask_spec b1 S1)) in F1. exact F1.
Qed.

(** What [ConnectBlock] leaves in the entry of a block it got through. *)
Lemma note_undo_spec (s : st) t best x : Inv s t best -> ptr (mapBlockIndex s) x -> par (mapBlockIndex s) x = Some t ->
  failed (entries s x) = false ->  nChainTx (entries s x) <> 0 ->
  Inv (note_undo s x) t best /\ level (entries (note_undo s x) x) = 5 /\ failed (entries (note_undo s x) x) = false /\
  refused (entries (note_undo s x) x) = refused (entries s x) /\ progressed s (note_undo s x) /\
  (forall p, failed (entries (note_undo s x) p) = failed (entries s p)).
Proof.
  intros I Hx Hq Hf HN. pose proof (inv_tree _ _ _ _ I) as T. pose proof (inv_entries _ _ _ _ I) as O. unfold note_undo, prev.
  fold (par (mapBlockIndex s) x). rewrite Hq.
  destruct (undo_entry_spec (entries s x) (eo_status _ _ O x Hx) Hf (eo_level _ _ O x Hx)) as (S1 & S2 & S3 & S4 & S5 & S6 & S7 & S8).
  assert (Hd : stored (entries s x) = true).
  { destruct (stored (entries s x)) eqn:E; [reflexivity|]. exfalso. apply HN, (eo_linked _ _ O x Hx). exists x. split; [apply anc_refl | exact E]. }
  assert (L3 : 3 <= level (entries s x)) by (destruct (eo_tx _ _ O x Hx) as (_ & HT & HL); tauto).
  assert (K : keeps (entries s) (entries (update_entry s x undo_entry))).
  { intros q. rewrite entry_update. destruct (Nat.eqb_spec q x) as [->|]; ands; auto. }
  assert (HF : forall q, refused (entries (update_entry s x undo_entry) q) = refused (entries s q) /\ failed (entries (update_entry s x undo_entry) q) = failed (entries s q)).
  { intros q. rewrite entry_update. destruct (Nat.eqb_spec q x) as [->|]; [split; congruence | now split]. }
  assert (HX : entries (update_entry s x undo_entry) x = undo_entry (entries s x)) by (now rewrite entry_update, Nat.eqb_refl).
  split; [|rewrite HX; ands; auto; [|intros p; apply (HF p)]]. 2:{ constructor; [reflexivity | exact K | | | reflexivity]; intros q _; rewrite (proj1 (HF q)); auto. }
  refine (Inv_restatus s t best (entries (update_entry s x undo_entry)) I K _ _ _ _ _ _).
  - intros q Pq. rewrite entry_update. destruct (Nat.eqb_spec q x) as [->|]; [now split | split; [now apply (eo_status _ _ O) | reflexivity]].
  - intros q Pq. rewrite entry_update. destruct (Nat.eqb_spec q x) as [->|]; auto.
  - intros a c Pa Hac Hc. rewrite !entry_update. destruct (Nat.eqb_spec c x) as [->|]; [intros _; exact S2|].
    destruct (Nat.eqb_spec a x) as [->|]; [|now apply (eo_levels _ _ O a c)]. rewrite Hq in Hac. injection Hac as <-. intros _.
    apply (inv_scripts _ _ _ _ I); [apply anc_refl | exact Hc].
  - intros q Pq. rewrite (proj2 (HF q)). intros Hfq. destruct (eo_flags _ _ O q Pq Hfq) as (r & Ha & Hr). exists r. split; [exact Ha|]. now rewrite (proj1 (HF r)).
  - intros q _. rewrite (proj2 (HF q)). auto.
  - intros q _. apply (HF q).
Qed.

Lemma note_undo_client (s : st) c x : note_undo (with_client s c) x = with_client (note_undo s x) c.
Proof. unfold note_undo. change (prev (with_client s c) x) with (prev s x). now destruct (prev s x). Qed.

(** A new tip on top of the old one, and the candidates worse than it pruned. *)
Lemma Inv_connect (s : st) t best x c : Inv s t best -> ptr (mapBlockIndex s) x -> par (mapBlockIndex s) x = Some t ->
  failed (entries s x) = false -> nChainTx (entries s x) <> 0 -> level (entries s x) = 5 -> valid x = true -> stands_for c (Some x) ->
  exists s' best', PruneBlockIndexCandidates addr (UpdateTip (with_client s c) (Some x)) = Some s' /\ Inv s' x best' /\ progressed s s' /\
    entries s' = entries s /\ (best' = best \/ best' = x).
Proof.
  intros I Hx Hq Hf HN HL HV Hc. pose proof (inv_tree _ _ _ _ I) as T. destruct (SetTip_chain s t best x I Hx) as [V1 V2].
  destruct (inv_best _ _ _ _ I) as (B1 & B2 & B3). destruct (inv_candidates _ _ _ _ I) as [C1 C2].
  set (s1 := UpdateTip (with_client s c) (Some x)). assert (T1 : tree_ok (mapBlockIndex s1)) by exact T.
  assert (HB : sound_branch (mapBlockIndex s) (entries s) x).
  { intros q Ha. destruct (anc_cases _ q x Hx Ha) as [->|(q' & Eq & Ha')]; [now split|]. apply (inv_branch _ _ _ _ I). congruence. }
  set (best' := if CBlockIndexWorkComparator addr s1 best x then x else best).
  assert (Hbest : (worse addr (mapBlockIndex s) (entries s) best x /\ best' = x) \/ (~ worse addr (mapBlockIndex s) (entries s) best x /\ best' = best)).
  { unfold best'. destruct (CBlockIndexWorkComparator addr s1 best x) eqn:E; [left | right]; (split; [|reflexivity]).
    - now apply (comparator_spec addr s1 T1 best x B1 Hx) in E.
    - now apply (comparator_false addr s1 T1 best x B1 Hx) in E. }
  unfold PruneBlockIndexCandidates. change (tip s1) with (Tip (SetTip (mapBlockIndex s) (chainActive s) (Some x))). rewrite V2.
  set (s2 := with_candidates s1 _).
  assert (H2 : forall p, p ∈ setBlockIndexCandidates s2 <-> p ∈ setBlockIndexCandidates s /\ CBlockIndexWorkComparator addr s1 p x = false).
  { intros p. cbn. rewrite elem_of_filter. tauto. }
  assert (CO : candidates_ok addr (mapBlockIndex s) (entries s) (setBlockIndexCandidates s2) best').
  { constructor; intros p Hp.
    - apply H2 in Hp as [Hin Hw]. destruct (C1 p Hin) as (Pp & N & Hb). apply (comparator_false addr s1 T1 p x Pp Hx) in Hw.
      ands; try assumption. now destruct Hbest as [[_ ->]|[_ ->]].
    - intros Hn Hfp Hw. assert (Hw' : ~ worse addr (mapBlockIndex s) (entries s) p best /\ ~ worse addr (mapBlockIndex s) (entries s) p x).
      { destruct Hbest as [[Hbx ->]|[Hbx ->]]; (split; [|]); try assumption; intros Hp'; apply Hw.
        - now apply (worse_trans _ _ _ _ best).
        - destruct (Nat.eq_dec x best) as [<-|Hne]; [exact Hp'|]. apply (worse_trans _ _ _ _ x); [exact Hp'|].
          destruct (worse_total addr (mapBlockIndex s) (entries s) x best addr_inj Hne); [assumption | contradiction]. }
      apply H2. split; [now apply C2 | now apply (comparator_false addr s1 T1 p x Hp Hx)]. }
  assert (G : ptr (mapBlockIndex s) best' /\ nChainTx (entries s best') <> 0 /\ sound_branch (mapBlockIndex s) (entries s) best').
  { destruct Hbest as [[_ ->]|[_ ->]]; now ands. }
  assert (Hne : best' ∈ setBlockIndexCandidates s2).
  { destruct G as (G1 & G2 & G3). apply CO; [exact G1 | exact G2 | apply (G3 best'), anc_refl | apply worse_irrefl]. }
  destruct (decide (setBlockIndexCandidates s2 = ∅)) as [E|_]; [rewrite E in Hne; now apply not_elem_of_empty in Hne|].
  exists s2, best'. split; [reflexivity|].
  split; [|split; [constructor; auto; [intros p; ands; reflexivity | intros p Hp; now apply H2 in Hp] | split; [reflexivity | destruct Hbest as [[_ ->]|[_ ->]]; auto]]].
  destruct I as [I1 I2 I3 I4 I5 I6 I7 I8 I9 I10 I11 I12 I13]. constructor; try assumption.
  - intros p Ha Hr. destruct (anc_cases _ p x Hx Ha) as [->|(q' & Eq & Ha')]; [exact HL|]. apply I8; [congruence | exact Hr].
  - destruct Hbest as [[_ ->]|[Hbx ->]]; [apply worse_irrefl | exact Hbx].
Qed.

Lemma ConnectTip_spec (s : st) t best x : Inv s t best -> ptr (mapBlockIndex s) x -> par (mapBlockIndex s) x = Some t ->
  failed (entries s x) = false -> nChainTx (entries s x) <> 0 ->
  (exists s1 s2 best', ConnectTip s x = Some (s1, TipConnected) /\ PruneBlockIndexCandidates addr s1 = Some s2 /\ Inv s2 x best' /\ progressed s s2 /\
     (best' = best \/ best' = x) /\ forall p, failed (entries s2 p) = failed (entries s p)) \/
  (exists s', ConnectTip s x = Some (s', TipRefused false) /\ Inv s' t best /\ progressed s s' /\ refused (entries s x) = false /\ refused (entries s' x) = true).
Proof.
  intros I Hx Hq Hf HN. pose proof (inv_tree _ _ _ _ I) as T. unfold ConnectTip.
  assert (E : eq_ptr (prev s x) (tip s) = true) by (apply eq_ptr_true; rewrite (inv_tip _ _ _ _ I); exact Hq). rewrite E. cbn [negb].
  assert (Hpar : parents x = Some t) by (rewrite <- (inv_parents _ _ _ _ I x Hx); exact Hq).
  assert (Hr : refused (entries s x) = false).
  { destruct (refused (entries s x)) eqn:R; [|reflexivity]. rewrite (refused_failed _ (eo_status _ _ (inv_entries _ _ _ _ I) x Hx) R) in Hf. discriminate. }
  destruct (note_undo_spec s t best x I Hx Hq Hf HN) as (IU & LU & FU & RU & PU & AU).
  assert (EU : mapBlockIndex (note_undo s x) = mapBlockIndex s) by apply PU.
  assert (NU : nChainTx (entries (note_undo s x) x) <> 0) by (destruct (pr_keeps _ _ PU x) as (_ & -> & _); exact HN).
  pose proof (connect_law (client s) x ltac:(rewrite Hpar; exact (inv_client _ _ _ _ I))) as HL. rewrite Hpar in HL.
  destruct (ConnectBlock (client s) x) as [c [|corruption undo|undo]]; [left | right | contradiction].
  - destruct HL as [HV Hc]. rewrite note_undo_client.
    destruct (Inv_connect (note_undo s x) t best x c IU) as (s2 & best' & R & I2 & P2 & E2 & D2); rewrite ?EU; try assumption.
    eexists _, s2, best'. split; [reflexivity|]. split; [exact R|]. split; [exact I2|].
    split; [now apply (progressed_trans _ (note_undo s x)) | split; [exact D2 | intros p; rewrite E2; apply AU]].
  - destruct HL as (HV & -> & Hc). set (s1 := if undo then note_undo (with_client s c) x else with_client s c).
    set (sU := if undo then note_undo s x else s).
    assert (IS : Inv sU t best) by (unfold sU; now destruct undo). assert (PS : progressed s sU) by (unfold sU; destruct undo; [exact PU | apply progressed_refl]).
    assert (ES : s1 = with_client sU c) by (unfold s1, sU; destruct undo; [apply note_undo_client | reflexivity]).
    assert (EI : mapBlockIndex sU = mapBlockIndex s) by apply PS.
    assert (I1 : Inv s1 t best) by (rewrite ES; destruct IS; constructor; assumption).
    assert (P1 : progressed s s1) by (rewrite ES; destruct PS; constructor; assumption).
    assert (Hoff : forall y, ptr (mapBlockIndex s) y -> sound_branch (mapBlockIndex s) (entries s) y -> ~ anc (mapBlockIndex s) x y).
    { intros y _ Hy Ha. destruct (Hy x Ha). congruence. }
    set (s2 := update_entry s1 x (mark BLOCK_FAILED_VALID)).
    assert (E1 : mapBlockIndex s1 = mapBlockIndex s) by apply P1.
    assert (I2 : Inv s2 t best).
    { apply Inv_mark; rewrite ?E1; auto; apply Hoff; try apply (inv_branch _ _ _ _ I); try apply (inv_best _ _ _ _ I); exact (inv_ptr _ _ _ _ I). }
    destruct (mark_failed (entries s1 x) BLOCK_FAILED_VALID) as (_ & _ & _ & M4 & M5); [apply (eo_status _ _ (inv_entries _ _ _ _ I1)); now rewrite E1 | now left|].
    assert (RX : entries s2 x = mark BLOCK_FAILED_VALID (entries s1 x)) by (unfold s2; now rewrite entry_update, Nat.eqb_refl).
    assert (I3 : Inv (InvalidBlockFound s1 x) t best).
    { unfold InvalidBlockFound, InvalidChainFound. fold s2. assert (IE : Inv (erase_candidate s2 x) t best) by (apply Inv_erase; [exact I2 | intros _; now rewrite RX]).
      destruct (better_invalid (erase_candidate s2 x) x); [now apply Inv_best_invalid | exact IE]. }
    assert (EE : mapBlockIndex (InvalidBlockFound s1 x) = mapBlockIndex s /\ entries (InvalidBlockFound s1 x) = entries s2).
    { unfold InvalidBlockFound, InvalidChainFound. destruct (better_invalid _ x); split; try reflexivity; exact E1. }
    destruct EE as [EE1 EE2]. exists (InvalidBlockFound s1 x). split; [reflexivity|]. split; [exact I3|].
    assert (RR : refused (entries (InvalidBlockFound s1 x) x) = true) by (rewrite EE2, RX, M5; apply orb_true_r).
    split; [|now split]. constructor; [exact EE1 | | | |]; rewrite ?EE2.
    + intros p. destruct (pr_keeps _ _ P1 p) as (K1 & K2 & K3), (mark_keeps s1 x BLOCK_FAILED_VALID p) as (K4 & K5 & K6). unfold s2. ands; congruence.
    + intros p Hp HR. unfold s2. rewrite entry_update. destruct (Nat.eqb_spec p x) as [->|]; [rewrite M5; apply orb_true_r | now apply (pr_refused _ _ P1)].
    + intros p Hp. unfold s2. rewrite entry_update. destruct (Nat.eqb_spec p x) as [->|]; [now right | now apply (pr_invalid _ _ P1)].
    + unfold InvalidBlockFound, InvalidChainFound. transitivity (setBlockIndexCandidates s1); [|apply P1].
      destruct (better_invalid _ x); cbn; apply subseteq_difference_l; reflexivity.
Qed.

(** ** The step *)

Lemma disconnect_to_spec best f : forall fuel (s : st) t, Inv s t best -> anc (mapBlockIndex s) f t ->
  nHeight (at_ (mapBlockIndex s) t) <= nHeight (at_ (mapBlockIndex s) f) + Z.of_nat fuel ->
  exists s', disconnect_to fuel s (Some f) = Some (s', true) /\ Inv s' f best /\ progressed s s' /\ entries s' = entries s.
Proof.
  induction fuel as [|fuel IH]; intros s t I Ha Hh; pose proof (inv_tree _ _ _ _ I) as T; pose proof (inv_ptr _ _ _ _ I) as Pt;
    cbn [disconnect_to]; rewrite (inv_tip _ _ _ _ I); cbn [eq_ptr].
  - assert (E : t = f). { destruct (Nat.eq_dec f t) as [|Hne]; [congruence|]. destruct (anc_facts _ T f t Pt Ha) as (_ & _ & _ & _ & HS). destruct (HS Hne). lia. }
    subst f. rewrite Nat.eqb_refl. exists s. ands; auto using progressed_refl.
  - destruct (Nat.eqb_spec t f) as [<-|Hne]; [exists s; ands; auto using progressed_refl|].
    destruct (anc_cases _ f t Pt Ha) as [|(q & Hq & Hfq)]; [congruence|]. destruct (par_spec _ T t q Pt Hq) as (_ & _ & Hhq & _).
    destruct (DisconnectTip_spec s t best q I Hq) as (s1 & -> & I1 & P1 & E1). pose proof (pr_index _ _ P1) as M1.
    destruct (IH s1 q I1) as (s2 & R & I2 & P2 & E2); rewrite ?M1; [exact Hfq | lia|].
    exists s2. ands; [exact R | exact I2 | now apply (progressed_trans _ s1) | congruence].
Qed.

(** [l] leads from [t] up to [u]. *)
Fixpoint links (m : index) (t : nat) (l : list nat) (u : nat) : Prop :=
  match l with
  | [] => t = u
  | x :: l => par m x = Some t /\ links m x l u
  end.

Lemma links_snoc m x u : forall l t, links m t l u -> par m x = Some u -> links m t (l ++ [x]) x.
Proof. induction l as [|y l IH]; intros t Hl Hx; cbn in *; [subst t; now split | destruct Hl as [H1 H2]; split; [exact H1 | now apply IH]]. Qed.

Lemma blocks_above_spec (s : st) a (T : tree_ok (mapBlockIndex s)) : forall fuel p, ptr (mapBlockIndex s) p -> anc (mapBlockIndex s) a p ->
  nHeight (at_ (mapBlockIndex s) p) < nHeight (at_ (mapBlockIndex s) a) + Z.of_nat fuel ->
  let l := blocks_above fuel s (Some p) (nHeight (at_ (mapBlockIndex s) a)) in
  links (mapBlockIndex s) a (rev l) p /\ forall x, In x l -> anc (mapBlockIndex s) x p /\ ptr (mapBlockIndex s) x.
Proof.
  induction fuel as [|fuel IH]; intros p Hp Ha Hh; [destruct (anc_facts _ T a p Hp Ha) as (_ & _ & _ & ? & _); lia|]. cbn [blocks_above]. unfold height.
  destruct (Z.eqb_spec (nHeight (at_ (mapBlockIndex s) p)) (nHeight (at_ (mapBlockIndex s) a))) as [E|E].
  - split; [|intros x []]. cbn. destruct (Nat.eq_dec a p) as [|Hne]; [assumption|]. destruct (anc_facts _ T a p Hp Ha) as (_ & _ & _ & _ & HS). destruct (HS Hne). lia.
  - destruct (anc_cases _ a p Hp Ha) as [->|(q & Hq & Haq)]; [congruence|]. unfold prev. fold (par (mapBlockIndex s) p). rewrite Hq.
    destruct (par_spec _ T p q Hp Hq) as (Pq & _ & Hhq & _). destruct (IH q Pq Haq ltac:(lia)) as [L1 L2]. split.
    + cbn [rev]. now apply (links_snoc _ _ q).
    + intros x [<-|Hx]; [split; [apply anc_refl | exact Hp]|]. destruct (L2 x Hx) as [Hx1 Hx2]. split; [now apply (anc_up _ x p q) | exact Hx2].
Qed.

(** How a call that moves the tip towards [u] can end. *)
Definition outcome (s s' : st) (old t' u : nat) (r : progress) : Prop :=
  match r with
  | Continue => t' = u
  | Better => W (mapBlockIndex s) old < W (mapBlockIndex s) t'
  | InvalidFound => exists x, ptr (mapBlockIndex s) x /\ refused (entries s x) = false /\ refused (entries s' x) = true
  | Failed => False
  end.

Lemma better_than_spec (s : st) old t best : Inv s t best -> ptr (mapBlockIndex s) old ->
  better_than s (Some old) = true -> W (mapBlockIndex s) old < W (mapBlockIndex s) t.
Proof.
  intros I Ho. unfold better_than. rewrite (inv_tip _ _ _ _ I). pose proof (inv_tree _ _ _ _ I) as T.
  destruct (tree_limbs _ T old Ho) as [Lo Eo]. destruct (tree_limbs _ T t (inv_ptr _ _ _ _ I)) as [Lt Et].
  rewrite op_gt_spec by (assumption || (unfold work; congruence)). unfold W, work. lia.
Qed.

Lemma connect_list_spec old first u : forall l (s : st) t best, Inv s t best -> ptr (mapBlockIndex s) old -> links (mapBlockIndex s) t l u ->
  (forall x, In x l -> ptr (mapBlockIndex s) x /\ failed (entries s x) = false /\ nChainTx (entries s x) <> 0) ->
  exists s' t' best' r, connect_list addr (Some old) first l s = Some (s', r) /\ Inv s' t' best' /\ progressed s s' /\ outcome s s' old t' u r /\
    (best' = best \/ In best' l) /\ (r = Continue -> forall p, failed (entries s' p) = failed (entries s p)).
Proof.
  induction l as [|x l IH]; intros s t best I Ho Hl Hall; cbn [connect_list].
  - exists s, t, best, Continue. ands; auto using progressed_refl.
  - destruct Hl as [Hx Hl]. destruct (Hall x ltac:(now left)) as (Px & Fx & Nx).
    destruct (ConnectTip_spec s t best x I Px Hx Fx Nx) as [(s1 & s2 & best' & R & R2 & I2 & P2 & D2 & F2)|(s' & R & I' & P' & Hr & Hr')]; rewrite R.
    + rewrite R2. pose proof (pr_index _ _ P2) as M2. destruct (better_than s2 (Some old)) eqn:HB.
      * exists s2, x, best', Better. ands; auto; [|destruct D2 as [-> | ->]; [now left | right; now left]]. cbn. rewrite <- M2. apply (better_than_spec s2 old x best' I2); [now rewrite M2 | exact HB].
      * destruct (IH s2 x best' I2) as (s3 & t3 & best3 & r & R3 & I3 & P3 & O3 & D3 & F3); rewrite ?M2; try assumption.
        { intros y Hy. destruct (Hall y ltac:(now right)) as (Py & Fy & Ny). rewrite F2. destruct (pr_keeps _ _ P2 y) as (_ & -> & _). now ands. }
        exists s3, t3, best3, r. ands; [exact R3 | exact I3 | now apply (progressed_trans _ s2) | | destruct D3 as [-> |]; [destruct D2 as [-> | ->]; [now left | right; now left] | right; now right] | intros Er p; now rewrite (F3 Er p)].
        unfold outcome in *. rewrite M2 in O3. destruct r; auto. destruct O3 as (y & Py & Hy1 & Hy2). exists y. ands; [exact Py | | exact Hy2].
        destruct (refused (entries s y)) eqn:E; [|reflexivity]. rewrite (pr_refused _ _ P2 y Py E) in Hy1. discriminate.
    + exists (InvalidChainFound s' first), t, best, InvalidFound.
      assert (E : mapBlockIndex (InvalidChainFound s' first) = mapBlockIndex s' /\ entries (InvalidChainFound s' first) = entries s' /\
        setBlockIndexCandidates (InvalidChainFound s' first) = setBlockIndexCandidates s').
      { unfold InvalidChainFound. now destruct (better_invalid s' first). }
      destruct E as (E1 & E2 & E3). ands; [reflexivity | | | | now left | discriminate].
      * unfold InvalidChainFound. destruct (better_invalid s' first); [now apply Inv_best_invalid | exact I'].
      * destruct P' as [A1 A2 A3 A4 A5]. constructor; rewrite ?E1, ?E2, ?E3; assumption.
      * exists x. rewrite E2. now ands.
Qed.
End Ops.
End BlockTreeOps.
