(* ===== verification/BestChain.v ===== *)
(** [ActivateBestChain] ends with the best valid branch active: the loops of
    the step, the measure that makes the outer loop end and the theorem, with
    a run on a small tree. *)
From stdpp Require Import base list gmap fin_maps fin_sets.
From S2P Require Import Prelude BaseUint Uint256 Params Chain Pow Kernel BlockTree BlockTreeInv BlockTreeOps.

Module BestChain.
Import BaseUint Uint256 Chain BlockTree BlockTreeInv BlockTreeOps.

Section Activate.
Variable addr : nat -> Z.
Hypothesis addr_inj : forall a b, addr a = addr b -> a = b.
Context {C : Type} `{LC : LawfulClient C}.

Abbreviation st := (chainstate (C := C)).
Abbreviation Inv := (Inv addr (C := C)).

(** A branch that can be connected: all its data, no failed block. *)
Definition usable (s : st) (p : nat) : Prop :=
  ptr (mapBlockIndex s) p /\ nChainTx (entries s p) <> 0 /\ forall r, anc (mapBlockIndex s) r p -> failed (entries s r) = false.

Lemma usable_anc (s : st) t best x p : Inv s t best -> usable s p -> anc (mapBlockIndex s) x p -> usable s x.
Proof.
  intros I (Hp & HN & HF) Hx. pose proof (inv_tree _ _ _ _ I) as T. destruct (anc_facts _ T x p Hp Hx) as (Px & _).
  split; [exact Px|]. split; [|intros r Hr; apply HF; now apply (anc_trans _ r x p)].
  intros E. apply (eo_linked _ _ (inv_entries _ _ _ _ I) x Px) in E as (r & Hr & Hd). apply HN, (eo_linked _ _ (inv_entries _ _ _ _ I) p Hp).
  exists r. split; [now apply (anc_trans _ r x p) | exact Hd].
Qed.

Lemma usable_step (s s' : st) p : progressed s s' -> (forall q, failed (entries s' q) = failed (entries s q)) -> usable s p -> usable s' p.
Proof.
  intros P HF (Hp & HN & Hall). unfold usable. rewrite (pr_index _ _ P). destruct (pr_keeps _ _ P p) as (_ & -> & _).
  ands; try assumption. intros r Hr. rewrite HF. now apply Hall.
Qed.

Lemma outcome_trans (s s1 s' : st) old t' u r : progressed s s1 -> outcome s1 s' old t' u r -> outcome s s' old t' u r.
Proof.
  intros P. unfold outcome. rewrite (pr_index _ _ P). destruct r; auto. intros (x & Px & H1 & H2). exists x. ands; [exact Px | | exact H2].
  destruct (refused (entries s x)) eqn:E; [|reflexivity]. rewrite (pr_refused _ _ P x Px E) in H1. discriminate.
Qed.

(** The ancestor a chunk aims at. *)
Lemma chunk_target (s : st) t p h : tree_ok (mapBlockIndex s) -> ptr (mapBlockIndex s) p -> anc (mapBlockIndex s) t p ->
  nHeight (at_ (mapBlockIndex s) t) < h <= nHeight (at_ (mapBlockIndex s) p) ->
  exists u, GetAncestor (mapBlockIndex s) p h = Some u /\ ptr (mapBlockIndex s) u /\ nHeight (at_ (mapBlockIndex s) u) = h /\
    anc (mapBlockIndex s) u p /\ anc (mapBlockIndex s) t u.
Proof.
  intros T Hp Ht Hh. pose proof (proj1 (deref_at _ p) Hp) as D. pose proof (height_nonneg _ T t (proj1 (anc_facts _ T t p Hp Ht))).
  rewrite (GetAncestor_spec _ p _ h (tree_wf _ T) D). destruct (Z.leb_spec 0 h), (Z.leb_spec h (nHeight (at_ (mapBlockIndex s) p))); try lia. cbn [andb].
  destruct (up_height _ (tree_wf _ T) (Z.to_nat (nHeight (at_ (mapBlockIndex s) p) - h)) p _ D ltac:(lia)) as (u & c & U & Dc & Hc).
  destruct (deref_ptr _ _ _ Dc) as [Pu <-]. exists u. assert (Ha : anc (mapBlockIndex s) u p) by (eexists; exact U).
  ands; [exact U | exact Pu | lia | exact Ha|]. destruct (anc_linear _ t u p Ht Ha) as [|Hut]; [assumption|].
  destruct (anc_facts _ T u t (proj1 (anc_facts _ T t p Hp Ht)) Hut) as (_ & _ & _ & ? & _). lia.
Qed.

Lemma connect_chunks_spec old p : forall fuel (s : st) t best, Inv s t best -> ptr (mapBlockIndex s) old -> usable s p -> anc (mapBlockIndex s) t p ->
  nHeight (at_ (mapBlockIndex s) p) < nHeight (at_ (mapBlockIndex s) t) + Z.of_nat fuel ->
  exists s' t' best' r, connect_chunks addr fuel s (Some old) p (nHeight (at_ (mapBlockIndex s) t)) = Some (s', r) /\ Inv s' t' best' /\
    progressed s s' /\ outcome s s' old t' p r /\ (best' = best \/ anc (mapBlockIndex s) best' p).
Proof.
  induction fuel as [|fuel IH]; intros s t best I Ho HU Ha Hh; pose proof (inv_tree _ _ _ _ I) as T; pose proof (proj1 HU) as Hp;
    pose proof (anc_facts _ T t p Hp Ha) as (_ & _ & _ & Hle & HS); cbn [connect_chunks]; unfold height at 1; [lia|].
  destruct (Z.eqb_spec (nHeight (at_ (mapBlockIndex s) t)) (nHeight (at_ (mapBlockIndex s) p))) as [E|E].
  - exists s, t, best, Continue. ands; auto using progressed_refl. cbn. clear - E Ha HS. destruct (Nat.eq_dec t p) as [|Hne]; [assumption | destruct (HS Hne); lia].
  - set (h := Z.min (nHeight (at_ (mapBlockIndex s) t) + 32) (height s p)).
    assert (Hlt : nHeight (at_ (mapBlockIndex s) t) < h <= nHeight (at_ (mapBlockIndex s) p)) by (unfold h, height; lia).
    destruct (chunk_target s t p h T Hp Ha Hlt) as (u & -> & Pu & Hhu & Hup & Htu).
    destruct (blocks_above_spec s t T (Z.to_nat (h - nHeight (at_ (mapBlockIndex s) t) + 1)) u Pu Htu ltac:(lia)) as [L1 L2].
    set (l := blocks_above _ s (Some u) _) in *.
    destruct (connect_list_spec addr addr_inj old (List.last l 0%nat) u (rev l) s t best I Ho L1) as (s1 & t1 & b1 & r & R & I1 & P1 & O1 & D1 & F1).
    { intros x Hx. apply in_rev in Hx. destruct (L2 x Hx) as [Hxu Px].
      destruct (usable_anc s t best x p I HU (anc_trans _ x u p Hxu Hup)) as (_ & Nx & Fx). ands; [exact Px | apply Fx, anc_refl | exact Nx]. }
    assert (D1' : b1 = best \/ anc (mapBlockIndex s) b1 p).
    { destruct D1 as [|Hin]; [now left | right]. apply in_rev in Hin. destruct (L2 _ Hin) as [Hbu _]. now apply (anc_trans _ b1 u p). }
    rewrite R. destruct r; try (exists s1, t1, b1; eexists; ands; [reflexivity | exact I1 | exact P1 | exact O1 | exact D1']).
    cbn in O1. subst t1. pose proof (pr_index _ _ P1) as M1.
    destruct (IH s1 u b1 I1) as (s2 & t2 & b2 & r2 & R2 & I2 & P2 & O2 & D2).
    + now rewrite M1.
    + apply (usable_step s s1); auto.
    + now rewrite M1.
    + rewrite M1. lia.
    + rewrite M1, Hhu in R2. exists s2, t2, b2, r2. ands; [exact R2 | exact I2 | now apply (progressed_trans s s1) | now apply (outcome_trans s s1)|].
      rewrite M1 in D2. destruct D2 as [-> |]; [exact D1' | now right].
Qed.

(** The fork exists: all branches share the root. *)
Lemma fork_spec (s : st) t best p : Inv s t best -> ptr (mapBlockIndex s) p ->
  exists f, FindFork (mapBlockIndex s) (chainActive s) p = Some f /\ anc (mapBlockIndex s) f p /\ anc (mapBlockIndex s) f t.
Proof.
  intros I Hp. pose proof (inv_tree _ _ _ _ I) as T. pose proof (inv_chain _ _ _ _ I) as V. pose proof (proj1 (deref_at _ p) Hp) as D.
  destruct (tip_nth (chainActive s) t (inv_tip _ _ _ _ I)) as [_ L].
  assert (G : same_genesis (mapBlockIndex s) (chainActive s) p).
  { exists (at_ (mapBlockIndex s) p). split; [exact D|]. split; [|exact L].
    destruct (V 0%nat L) as (r & b & -> & Db & _ & P0). destruct (deref_ptr _ _ _ Db) as [Pr Er]. subst b.
    apply (tree_root _ T r Pr) in P0. subst r. pose proof (height_nonneg _ T p Hp).
    destruct (up_height _ (tree_wf _ T) (Z.to_nat (nHeight (at_ (mapBlockIndex s) p))) p _ D ltac:(lia)) as (u & c & U & Dc & Hc). rewrite U. f_equal.
    destruct (deref_ptr _ _ _ Dc) as [Pu <-]. destruct (Nat.eq_dec u 0) as [|Hne]; [assumption|]. exfalso.
    destruct (par (mapBlockIndex s) u) as [q|] eqn:Eq; [|now apply (tree_root _ T u Pu) in Eq].
    destruct (par_spec _ T u q Pu Eq) as (Pq & _ & Hq & _). pose proof (height_nonneg _ T q Pq). lia. }
  destruct (FindFork_spec _ _ p _ (tree_wf _ T) V D G) as (f & -> & k & Hk & HC & _). exists f. split; [reflexivity|].
  assert (Ha : anc (mapBlockIndex s) f p) by (now exists k). split; [exact Ha|].
  apply (chain_anc _ T _ V t f (inv_tip _ _ _ _ I)); [apply (anc_facts _ T f p Hp Ha) | exact HC].
Qed.

Lemma step_spec (s : st) t best p : Inv s t best -> usable s p ->
  exists s' t' best', ActivateBestChainStep addr s p = Some (s', true) /\ Inv s' t' best' /\ progressed s s' /\
    (best' = best \/ anc (mapBlockIndex s) best' p) /\
    (t' = p \/ W (mapBlockIndex s) t < W (mapBlockIndex s) t' \/
     exists x, ptr (mapBlockIndex s) x /\ refused (entries s x) = false /\ refused (entries s' x) = true).
Proof.
  intros I HU. pose proof (inv_tree _ _ _ _ I) as T. pose proof (inv_ptr _ _ _ _ I) as Pt. unfold ActivateBestChainStep.
  destruct (fork_spec s t best p I (proj1 HU)) as (f & -> & Hfp & Hft). destruct (anc_facts _ T f t Pt Hft) as (Pf & _).
  destruct (disconnect_to_spec addr best f (length (chainActive s)) s t I Hft) as (s1 & -> & I1 & P1 & E1).
  { destruct (tip_spec _ _ (inv_chain _ _ _ _ I) t (inv_tip _ _ _ _ I)) as [_ Hh]. unfold Height in Hh. pose proof (height_nonneg _ T f Pf). lia. }
  rewrite (inv_tip _ _ _ _ I). pose proof (pr_index _ _ P1) as M1. pose proof (height_nonneg _ T p (proj1 HU)). pose proof (height_nonneg _ T f Pf).
  destruct (connect_chunks_spec t p (Z.to_nat (height s1 p + 2)) s1 f best I1) as (s2 & t2 & b2 & r & R & I2 & P2 & O2 & D2).
  - now rewrite M1.
  - apply (usable_step s s1); [exact P1 | now rewrite E1 | exact HU].
  - now rewrite M1.
  - rewrite M1. unfold height. rewrite M1. lia.
  - unfold height at 2. rewrite R. exists s2, t2, b2. apply (outcome_trans s s1) in O2; [|exact P1].
    rewrite M1 in D2. destruct r; cbn in O2; [| | |contradiction]; (ands; [reflexivity | exact I2 | now apply (progressed_trans s s1) | exact D2 |]).
    + now left.
    + right. now left.
    + right. now right.
Qed.

(** ** The measure of the outer loop *)

Lemma filter_le {A} (f g : A -> bool) l : (forall x, In x l -> g x = true -> f x = true) -> (length (List.filter g l) <= length (List.filter f l))%nat.
Proof using.
  induction l as [|x l IH]; intros HI; cbn; [lia|]. specialize (IH ltac:(intros y Hy; apply HI; now right)). pose proof (HI x ltac:(now left)) as Hx.
  destruct (g x); [rewrite Hx by reflexivity; cbn; lia|]. destruct (f x); cbn; lia.
Qed.

Lemma filter_lt {A} (f g : A -> bool) l y : (forall x, In x l -> g x = true -> f x = true) -> In y l -> f y = true -> g y = false ->
  (length (List.filter g l) < length (List.filter f l))%nat.
Proof using.
  intros HI Hy Hf Hg. induction l as [|x l IH]; [destruct Hy|]. cbn. assert (HI' : forall z, In z l -> g z = true -> f z = true) by (intros z Hz; apply HI; now right).
  pose proof (filter_le f g l HI'). destruct Hy as [->|Hy]; [rewrite Hf, Hg; cbn; lia|]. specialize (IH HI' Hy). pose proof (HI x ltac:(now left)) as Hx.
  destruct (g x); [rewrite Hx by reflexivity; cbn; lia|]. destruct (f x); cbn; lia.
Qed.

(** The blocks not yet found invalid, and those with more work than the tip. *)
Definition unrefused (s : st) : nat := length (List.filter (fun p => negb (refused (entries s p))) (pointers s)).
Definition above (s : st) (t : nat) : nat := length (List.filter (fun p => W (mapBlockIndex s) t <? W (mapBlockIndex s) p) (pointers s)).
Definition turns (s : st) (t : nat) : nat := unrefused s * S (length (mapBlockIndex s)) + above s t.

Lemma pointers_ptr (s : st) p : In p (pointers s) <-> ptr (mapBlockIndex s) p.
Proof using. unfold pointers, ptr. rewrite in_seq. lia. Qed.

Lemma above_le (s : st) t : (above s t <= length (mapBlockIndex s))%nat.
Proof using. unfold above. rewrite filter_length_le. unfold pointers. now rewrite length_seq. Qed.

Lemma unrefused_le (s : st) : (unrefused s <= length (mapBlockIndex s))%nat.
Proof using. unfold unrefused. rewrite filter_length_le. unfold pointers. now rewrite length_seq. Qed.

Lemma unrefused_mono (s s' : st) : progressed s s' -> (unrefused s' <= unrefused s)%nat.
Proof using.
  intros P. unfold unrefused, pointers. rewrite (pr_index _ _ P). apply filter_le. intros p Hp. fold (pointers s) in Hp. apply pointers_ptr in Hp.
  rewrite !negb_true_iff. intros Hr. destruct (refused (entries s p)) eqn:E; [|reflexivity]. rewrite (pr_refused _ _ P p Hp E) in Hr. discriminate.
Qed.

Lemma turns_decrease (s s' : st) t t' : progressed s s' -> ptr (mapBlockIndex s) t' ->
  W (mapBlockIndex s) t < W (mapBlockIndex s) t' \/ (exists x, ptr (mapBlockIndex s) x /\ refused (entries s x) = false /\ refused (entries s' x) = true) ->
  (turns s' t' < turns s t)%nat.
Proof using.
  intros P Pt' HX. pose proof (unrefused_mono s s' P) as HM. unfold turns. pose proof (above_le s' t') as HA. rewrite (pr_index _ _ P) in *. destruct HX as [HW|(x & Px & R1 & R2)].
  - assert (HL : (above s' t' < above s t)%nat).
    { unfold above, pointers. rewrite (pr_index _ _ P). apply (filter_lt _ _ _ t'); [intros p _; lia | now apply pointers_ptr | lia | lia]. }
    nia.
  - assert (HL : (unrefused s' < unrefused s)%nat); [|nia]. unfold unrefused, pointers. rewrite (pr_index _ _ P).
    apply (filter_lt _ _ _ x); [|now apply pointers_ptr | now rewrite R1 | now rewrite R2].
    intros p Hp. fold (pointers s) in Hp. apply pointers_ptr in Hp. rewrite !negb_true_iff. intros Hr.
    destruct (refused (entries s p)) eqn:E; [|reflexivity]. rewrite (pr_refused _ _ P p Hp E) in Hr. discriminate.
Qed.

(** ** The outer loop *)

(** When the best candidate is the tip, the candidates are complete again. *)
Lemma Inv_settled (s : st) t best : Inv s t best -> t = best \/ ~ worse addr (mapBlockIndex s) (entries s) t best -> Inv s t t.
Proof.
  intros I Hw. assert (E : t = best); [|now subst best]. destruct Hw as [|Hw]; [assumption|]. destruct (Nat.eq_dec t best) as [|Hne]; [assumption|].
  pose proof (inv_order _ _ _ _ I). destruct (worse_total addr (mapBlockIndex s) (entries s) t best addr_inj Hne); contradiction.
Qed.

Definition best_tip (s : st) (t : nat) : Prop := forall q, q ∈ setBlockIndexCandidates s -> q <> t -> worse addr (mapBlockIndex s) (entries s) q t.

Lemma ActivateBestChain_ends : forall fuel (s : st) t best, Inv s t best -> (turns s t < fuel)%nat ->
  exists s' t', ActivateBestChain addr fuel s = Some (s', true) /\ Inv s' t' t' /\ progressed s s' /\ best_tip s' t'.
Proof.
  induction fuel as [|fuel IH]; intros s t best I Hf; [lia|]. cbn [ActivateBestChain]. rewrite running_law.
  destruct (FindMostWorkChain_spec addr addr_inj t best (S (size (setBlockIndexCandidates s))) s I ltac:(lia)) as (s1 & p & R & I1 & G1 & Hp & Hmax & Hpath).
  unfold FindMostWorkChain. rewrite R. pose proof (purged_progressed _ _ G1) as P1.
  destruct (co_sound _ _ _ _ _ (inv_candidates _ _ _ _ I1) p Hp) as (Pp & Np & Wp).
  rewrite (inv_tip _ _ _ _ I1). cbn [eq_ptr]. destruct (Nat.eqb_spec t p) as [->|Htp].
  { exists s1, p. ands; [reflexivity | | exact P1 | exact Hmax]. apply (Inv_settled s1 p best I1). now right. }
  destruct (step_spec s1 t best p I1 ltac:(now ands)) as (s2 & t2 & b2 & -> & I2 & P2 & D2 & O2). pose proof (pr_index _ _ P2) as M2.
  assert (Hk : forall a b, worse addr (mapBlockIndex s2) (entries s2) a b <-> worse addr (mapBlockIndex s1) (entries s1) a b).
  { intros a b. rewrite M2. apply (keeps_worse addr _ _ _ _ _ (pr_keeps _ _ P2)). }
  rewrite (inv_tip _ _ _ _ I2). cbn [eq_ptr]. destruct (Nat.eqb_spec t2 p) as [->|Ht2].
  - exists s2, p. ands; [reflexivity | | now apply (progressed_trans s s1) |].
    + apply (Inv_settled s2 p b2 I2). right. rewrite Hk. destruct D2 as [-> | Hb]; [exact Wp|]. intros Hw.
      destruct (anc_facts _ (inv_tree _ _ _ _ I1) b2 p Pp Hb) as (_ & _ & Hle & _ & HS). destruct (Nat.eq_dec b2 p) as [->|Hne]; [now apply worse_irrefl in Hw|].
      destruct (HS Hne). unfold worse in Hw. lia.
    + intros q Hq Hne. apply Hk, Hmax; [now apply (pr_candidates _ _ P2) | exact Hne].
  - assert (Hlt : (turns s2 t2 < fuel)%nat).
    { assert (HT : (turns s1 t <= turns s t)%nat).
      { unfold turns, above, pointers. pose proof (unrefused_mono s s1 P1). rewrite (pr_index _ _ P1). nia. }
      pose proof (inv_ptr _ _ _ _ I2) as Pt2. rewrite M2 in Pt2. pose proof (turns_decrease s1 s2 t t2 P2 Pt2 ltac:(tauto)). lia. }
    destruct (IH s2 t2 b2 I2 Hlt) as (s3 & t3 & R3 & I3 & P3 & B3). exists s3, t3. ands; [exact R3 | exact I3 | | exact B3].
    apply (progressed_trans s s1); [exact P1 | now apply (progressed_trans s1 s2)].
Qed.

(** Fuel for any state of this size. *)
Definition enough (s : st) : nat := S (length (mapBlockIndex s)) * S (length (mapBlockIndex s)).

Lemma turns_enough (s : st) t : (turns s t < enough s)%nat.
Proof using. unfold turns, enough. pose proof (above_le s t). pose proof (unrefused_le s). nia. Qed.

(** No block of a complete, unfailed branch is better than the tip. *)
Lemma settled_best (s : st) t p : Inv s t t -> best_tip s t -> ptr (mapBlockIndex s) p -> nChainTx (entries s p) <> 0 -> failed (entries s p) = false ->
  ~ worse addr (mapBlockIndex s) (entries s) t p.
Proof.
  intros I HB Pp Np Fp Hw. assert (Hne : p <> t) by (intros ->; now apply worse_irrefl in Hw).
  assert (Hn : ~ worse addr (mapBlockIndex s) (entries s) p t) by (intros Hw'; apply (worse_irrefl addr (mapBlockIndex s) (entries s) t); now apply (worse_trans _ _ _ _ p)).
  apply Hn, HB; [|exact Hne]. now apply (inv_candidates _ _ _ _ I).
Qed.
End Activate.
End BestChain.
