(* ===== verification/BlockTreeSteps.v ===== *)
(** The tree of blocks grows and is judged: [AddToBlockIndex],
    [ReceivedBlockTransactions], [InvalidateBlock] and [ReconsiderBlock] keep
    the invariant of [BlockTreeInv]. *)
From stdpp Require Import base list gmap fin_maps fin_sets.
From S2P Require Import Prelude BaseUint Uint256 Params Chain Pow Kernel BlockTree BlockTreeInv BlockTreeOps.

Module BlockTreeSteps.
Import BaseUint Uint256 Chain BlockTree BlockTreeInv BlockTreeOps.

(** * A new entry *)

Lemma find_from_spec h : forall m i p, Kernel.find_from i m h = Some p -> (i <= p < i + length m)%nat.
Proof.
  induction m as [|b m IH]; intros i p; cbn [Kernel.find_from]; [discriminate|]. destruct (op_eq _ h).
  - intros [= ->]. cbn. lia.
  - intros E. apply IH in E. cbn. lia.
Qed.

Lemma find_block_ptr m h p : Kernel.find_block m h = Some p -> ptr m p.
Proof. unfold Kernel.find_block, ptr. intros E. apply find_from_spec in E. lia. Qed.

Section Append.
Variable m : index.
Variable e : CBlockIndex.
Hypothesis T : tree_ok m.

Lemma at_old p : ptr m p -> at_ (m ++ [e]) p = at_ m p.
Proof using. intros Hp. unfold at_. now apply app_nth1. Qed.

Lemma at_new : at_ (m ++ [e]) (length m) = e.
Proof using. unfold at_. now rewrite app_nth2, Nat.sub_diag by lia. Qed.

Lemma ptr_app p : ptr (m ++ [e]) p <-> ptr m p \/ p = length m.
Proof using. unfold ptr. rewrite length_app. cbn. lia. Qed.

Lemma par_old p : ptr m p -> par (m ++ [e]) p = par m p.
Proof using. intros Hp. unfold par. now rewrite at_old. Qed.

Lemma W_old p : ptr m p -> W (m ++ [e]) p = W m p.
Proof using. intros Hp. unfold W. now rewrite at_old. Qed.

Lemma anc_old q p : ptr m p -> anc (m ++ [e]) q p <-> anc m q p.
Proof using T. intros Hp. unfold anc. pose proof (proj1 (deref_at m p) Hp) as D. now setoid_rewrite (fun k => up_old m e (tree_wf m T) k p _ D). Qed.

Lemma branch_txs_old E E' : (forall p, ptr m p -> E' p = E p) -> forall p, ptr m p -> branch_txs (m ++ [e]) E' p = branch_txs m E p.
Proof using T.
  intros HE p Hp. unfold branch_txs. rewrite at_old by exact Hp. generalize (Z.to_nat (nHeight (at_ m p))). intros n. revert p Hp.
  induction n as [|n IH]; intros p Hp; cbn [sum_up]; rewrite HE by exact Hp; [reflexivity|]. rewrite par_old by exact Hp.
  destruct (par m p) as [q|] eqn:Eq; [|reflexivity]. f_equal. apply IH. now apply (par_spec m T p q).
Qed.

Lemma worse_old addr E E' p q : (forall p, ptr m p -> E' p = E p) -> ptr m p -> ptr m q -> worse addr (m ++ [e]) E' p q <-> worse addr m E p q.
Proof using. intros HE Hp Hq. unfold worse. now rewrite !W_old, !HE. Qed.

Lemma chain_old v : is_chain m v -> is_chain (m ++ [e]) v.
Proof using.
  intros V i Hi. destruct (V i Hi) as (p & b & H1 & H2 & H3). exists p, b. ands; [exact H1 | now apply deref_old | exact (proj1 H3) | exact (proj2 H3)].
Qed.

Variable q : nat.
Hypothesis Hq : ptr m q.
Hypothesis Eq : pprev e = Some q.
Hypothesis HW : wf (m ++ [e]).
Hypothesis HL : limbs (nChainWork e) /\ length (nChainWork e) = WIDTH.
Hypothesis HWork : W m q < val (nChainWork e).

Lemma par_new : par (m ++ [e]) (length m) = Some q.
Proof using Eq. unfold par. now rewrite at_new. Qed.

Lemma tree_app : tree_ok (m ++ [e]).
Proof using All.
  constructor; [exact HW|..].
  - intros p HX. apply ptr_app in HX as [Hp| ->]; [rewrite par_old by exact Hp; now apply (tree_root m T)|]. rewrite par_new. split; [discriminate|]. unfold ptr in Hq. intros E0. rewrite E0 in Hq. lia.
  - intros p r HX. apply ptr_app in HX as [Hp| ->]; [rewrite par_old by exact Hp; now apply (tree_down m T)|]. rewrite par_new. intros [= <-]. exact Hq.
  - intros p HX. apply ptr_app in HX as [Hp| ->]; [rewrite at_old by exact Hp; now apply (tree_limbs m T) | now rewrite at_new].
  - intros p r HX. apply ptr_app in HX as [Hp| ->].
    + rewrite par_old by exact Hp. intros Er. rewrite !W_old by (try exact Hp; now apply (par_spec m T p r)). now apply (tree_work m T).
    + rewrite par_new. intros [= <-]. rewrite W_old by exact Hq. unfold W. now rewrite at_new.
Qed.
End Append.

(** The status of a header that has just been accepted. *)
Definition header_state : block_state := RaiseValidity BLOCK_VALID_TREE block_state_null.

Lemma header_state_spec : status_ok header_state /\ level header_state = 2 /\ stored header_state = false /\ failed header_state = false /\
  nTx header_state = 0 /\ nChainTx header_state = 0 /\ nSequenceId header_state = 0.
Proof. unfold status_ok. change (nStatus header_state) with 2. split; [lia|]. repeat split; reflexivity. Qed.

Lemma entries_app m e q E : tree_ok m -> tree_ok (m ++ [e]) -> ptr m q -> pprev e = Some q -> entries_ok m E ->
  entries_ok (m ++ [e]) (fun p => if (p =? length m)%nat then header_state else E p).
Proof.
  intros T T' Hq Eq O. destruct header_state_spec as (S1 & S2 & S3 & S4 & S5 & S6 & S7). destruct O as [O1 O2 O3 O4 O5 O6 O7 O8].
  set (E' := fun p => _). assert (HO : forall p, ptr m p -> E' p = E p).
  { intros p Hp. unfold E'. destruct (Nat.eqb_spec p (length m)) as [->|]; [unfold ptr in Hp; lia | reflexivity]. }
  assert (HN : E' (length m) = header_state) by (unfold E'; now rewrite Nat.eqb_refl).
  assert (HA : forall p r, ptr m p -> anc m r p -> ptr m r) by (intros p r Hp Hr; apply (anc_facts m T r p Hp Hr)).
  constructor; intros p; try (intros r HX; apply ptr_app in HX as [Hp| ->]); try (intros HX; apply ptr_app in HX as [Hp| ->]); rewrite ?HN, ?(HO p Hp).
  - now apply O1.
  - exact S1.
  - now apply O2.
  - rewrite S3, S5, S2. split; [lia|]. split; split; try discriminate; lia.
  - now apply O3.
  - now left.
  - rewrite par_old by exact Hp. intros Er. destruct (par_spec m T p r Hp Er) as (Pr & _). rewrite par_old, (HO r Pr) by exact Pr. now apply O4.
  - intros _ _. rewrite S2. lia.
  - rewrite (O5 p Hp). split; intros (r & Hr & Hd); exists r.
    + rewrite anc_old, (HO r (HA p r Hp Hr)) by assumption. now split.
    + rewrite anc_old in Hr by assumption. rewrite (HO r (HA p r Hp Hr)) in Hd. now split.
  - split; intros _; [|exact S6]. exists (length m). rewrite HN. split; [apply anc_refl | exact S3].
  - intros Hn. rewrite (branch_txs_old m e T E E' HO p Hp). now apply O6.
  - rewrite S6. congruence.
  - now apply O7.
  - intros _. exact S7.
  - intros Hf. destruct (O8 p Hp Hf) as (r & Hr & Hd). exists r. rewrite anc_old, (HO r (HA p r Hp Hr)) by assumption. now split.
  - rewrite S4. discriminate.
Qed.

Section Steps.
Variable addr : nat -> Z.
Hypothesis addr_inj : forall a b, addr a = addr b -> a = b.
Context {C : Type} `{LC : LawfulClient C}.

Abbreviation st := (chainstate (C := C)).
Abbreviation Inv := (Inv addr (C := C)).

(** A header [AcceptBlockHeader] may add: unknown, with a known parent and a
    target that asks for work. *)
Record new_header (s : st) (hash hashPrevBlock : base_uint) (bits : Z) (q : nat) : Prop := {
  nh_new : Kernel.find_block (mapBlockIndex s) hash = None;
  nh_prev : Kernel.find_block (mapBlockIndex s) hashPrevBlock = Some q;
  nh_parents : parents (length (mapBlockIndex s)) = Some q;
  nh_work : exists proof w, Pow.GetBlockProof bits = Some proof /\ u256 proof w /\ 0 < w /\ W (mapBlockIndex s) q + w < 2 ^ 256
}.

Lemma Inv_append (s : st) t best e q : Inv s t best -> tree_ok (mapBlockIndex s ++ [e]) -> ptr (mapBlockIndex s) q -> pprev e = Some q ->
  parents (length (mapBlockIndex s)) = Some q ->
  Inv (with_entry (with_index s (mapBlockIndex s ++ [e])) (length (mapBlockIndex s)) header_state) t best.
Proof.
  intros I T' Hq Eq HP. pose proof (inv_tree _ _ _ _ I) as T. pose proof (inv_ptr _ _ _ _ I) as Pt. destruct (inv_best _ _ _ _ I) as (B1 & B2 & B3).
  pose proof (entries_app (mapBlockIndex s) e q (entries s) T T' Hq Eq (inv_entries _ _ _ _ I)) as OK. destruct header_state_spec as (S1 & S2 & S3 & S4 & S5 & S6 & S7).
  set (m := mapBlockIndex s) in *. set (E' := fun p => if (p =? length m)%nat then header_state else entries s p) in *.
  assert (HO : forall p, ptr m p -> E' p = entries s p).
  { intros p Hp. unfold E'. destruct (Nat.eqb_spec p (length m)) as [->|]; [unfold ptr in Hp; lia | reflexivity]. }
  assert (HN : E' (length m) = header_state) by (unfold E'; now rewrite Nat.eqb_refl).
  assert (HB : forall y, ptr m y -> sound_branch m (entries s) y -> sound_branch (m ++ [e]) E' y).
  { intros y Py Hy r Hr. rewrite anc_old in Hr by assumption. rewrite HO by apply (anc_facts m T r y Py Hr). now apply Hy. }
  destruct (inv_candidates _ _ _ _ I) as [C1 C2]. destruct (inv_unlinked _ _ _ _ I) as [U1 U2].
  assert (EE : entries (with_entry (with_index s (m ++ [e])) (length m) header_state) = E') by reflexivity.
  constructor; rewrite ?EE; clearbody E'; cbn [with_entry with_entries with_index mapBlockIndex chainActive setBlockIndexCandidates mapBlocksUnlinked client]; auto.
  - intros p Hp. apply ptr_app in Hp as [Hp| ->]; [rewrite par_old by exact Hp; now apply (inv_parents _ _ _ _ I)|]. now rewrite (par_new m e q Eq).
  - apply chain_old, I.
  - exact (inv_tip _ _ _ _ I).
  - rewrite HO by exact Pt. exact (inv_linked _ _ _ _ I).
  - apply HB; [exact Pt | apply (inv_branch _ _ _ _ I)].
  - intros p Ha. rewrite anc_old in Ha by assumption. destruct (anc_facts m T p t Pt Ha) as (Pp & _). rewrite par_old, HO by exact Pp. now apply (inv_scripts _ _ _ _ I).
  - rewrite ptr_app, HO by exact B1. ands; [now left | exact B2 | now apply HB].
  - rewrite (worse_old m e addr (entries s) E' best t HO) by assumption. exact (inv_order _ _ _ _ I).
  - constructor; intros p Hp.
    + destruct (C1 p Hp) as (Pp & N & Hw). rewrite ptr_app, HO, (worse_old m e addr (entries s) E' p best HO) by assumption. ands; auto.
    + apply ptr_app in Hp as [Hp| ->]; [rewrite HO, (worse_old m e addr (entries s) E' p best HO) by assumption; now apply C2|]. rewrite HN, S6. congruence.
  - constructor; [|exact U2]. intros a b. rewrite (U1 a b), ptr_app. split.
    + intros (Pb & X1 & X2 & X3). rewrite par_old, HO by exact Pb. ands; auto.
    + intros ([Pb| ->] & X1 & X2 & X3); [rewrite par_old, HO in * by exact Pb; now ands|]. rewrite HN, S3 in X2. discriminate.
  - exact (inv_client _ _ _ _ I).
Qed.

Lemma AddToBlockIndex_spec (s : st) t hash hashPrevBlock time bits flags q : Inv s t t -> new_header s hash hashPrevBlock bits q ->
  exists s' e, AddToBlockIndex s hash hashPrevBlock time bits flags = Some (s', length (mapBlockIndex s)) /\ Inv s' t t /\
    mapBlockIndex s' = mapBlockIndex s ++ [e] /\ GetBlockHash e = hash /\ pprev e = Some q.
Proof.
  intros I [N1 N2 N3 (proof & w & N4 & N5 & N6 & N7)]. pose proof (inv_tree _ _ _ _ I) as T. pose proof (find_block_ptr _ _ _ N2) as Pq.
  unfold AddToBlockIndex. rewrite N1, N4, N2. set (blk := mkIndex hash None None 0 time bits _ 0 (op_add (nChainWork _) proof)).
  destruct (link (mapBlockIndex s) q blk) as [m'|] eqn:EL; [|unfold link in EL; now rewrite (proj1 (deref_at _ q) Pq) in EL].
  pose proof (link_wf _ _ _ _ (tree_wf _ T) EL) as HW. unfold link in EL. rewrite (proj1 (deref_at _ q) Pq) in EL. injection EL as <-.
  set (e := mkIndex _ (Some q) _ _ _ _ _ _ _) in *. destruct (tree_limbs _ T q Pq) as [Lq Eq].
  assert (Hu : u256 (nChainWork e) ((W (mapBlockIndex s) q + w) mod 2 ^ 256)) by (apply u256_add; [now ands | exact N5]).
  pose proof (val_bound _ Lq) as HV. change (val (nChainWork (at_ (mapBlockIndex s) q))) with (W (mapBlockIndex s) q) in HV.
  destruct Hu as (U1 & U2 & U3). rewrite Z.mod_small in U3 by lia.
  assert (T' : tree_ok (mapBlockIndex s ++ [e])) by (apply (tree_app _ e T q); auto; rewrite U3; lia).
  eexists _, e. split; [reflexivity|]. pose proof (Inv_append s t t e q I T' Pq eq_refl N3) as I'. fold header_state.
  set (s1 := with_entry _ _ _) in *. destruct (match pindexBestHeader _ with Some _ => _ | None => _ end); ands; try reflexivity; [destruct I'; constructor; assumption | exact I'].
Qed.

(** * The data of a block *)

(** The state inside [ReceivedBlockTransactions]: the blocks of [Q] have their
    data and wait in the queue; all else is as in the invariant. *)
Record linking (s : st) (t : nat) (Q : list nat) : Prop := {
  lk_tree : tree_ok (mapBlockIndex s);
  lk_parents : forall p, ptr (mapBlockIndex s) p -> par (mapBlockIndex s) p = parents p;
  lk_status : forall p, ptr (mapBlockIndex s) p -> status_ok (entries s p);
  lk_tx : forall p, ptr (mapBlockIndex s) p -> 0 <= nTx (entries s p) /\ (stored (entries s p) = true <-> nTx (entries s p) <> 0) /\ (3 <= level (entries s p) <-> nTx (entries s p) <> 0);
  lk_level : forall p, ptr (mapBlockIndex s) p -> level (entries s p) = 2 \/ level (entries s p) = 3 \/ level (entries s p) = 5;
  lk_levels : forall p q, ptr (mapBlockIndex s) p -> par (mapBlockIndex s) p = Some q -> par (mapBlockIndex s) q <> None -> level (entries s p) = 5 -> level (entries s q) = 5;
  lk_linked : forall p, ptr (mapBlockIndex s) p -> nChainTx (entries s p) = 0 <-> exists q, anc (mapBlockIndex s) q p /\ (stored (entries s q) = false \/ In q Q);
  lk_count : forall p, ptr (mapBlockIndex s) p -> nChainTx (entries s p) <> 0 -> nChainTx (entries s p) = branch_txs (mapBlockIndex s) (entries s) p;
  lk_small : forall p, ptr (mapBlockIndex s) p -> branch_txs (mapBlockIndex s) (entries s) p < 2 ^ 32;
  lk_sequence : forall p, ptr (mapBlockIndex s) p -> nChainTx (entries s p) = 0 -> nSequenceId (entries s p) = 0;
  lk_flags : forall p, ptr (mapBlockIndex s) p -> failed (entries s p) = true -> exists q, anc (mapBlockIndex s) q p /\ refused (entries s q) = true;
  lk_chain : is_chain (mapBlockIndex s) (chainActive s);
  lk_tip : tip s = Some t;
  lk_tip_linked : nChainTx (entries s t) <> 0;
  lk_branch : sound_branch (mapBlockIndex s) (entries s) t;
  lk_scripts : forall p, anc (mapBlockIndex s) p t -> par (mapBlockIndex s) p <> None -> level (entries s p) = 5;
  lk_candidates : candidates_ok addr (mapBlockIndex s) (entries s) (setBlockIndexCandidates s) t;
  lk_unlinked : forall a b, In (a, b) (mapBlocksUnlinked s) <->
    ptr (mapBlockIndex s) b /\ par (mapBlockIndex s) b = Some a /\ stored (entries s b) = true /\ nChainTx (entries s b) = 0 /\ ~ In b Q;
  lk_nodup : List.NoDup (mapBlocksUnlinked s);
  lk_queue : List.NoDup Q;
  lk_waiting : forall b, In b Q -> ptr (mapBlockIndex s) b /\ stored (entries s b) = true /\ nChainTx (entries s b) = 0;
  lk_client : stands_for (client s) (Some t)
}.

(** The parents of the blocks in the queue are linked. *)
Definition ready (s : st) (Q : list nat) : Prop :=
  forall b, In b Q -> exists a, par (mapBlockIndex s) b = Some a /\ nChainTx (entries s a) <> 0.

Lemma linking_done (s : st) t : linking s t [] -> Inv s t t.
Proof.
  intros L. destruct L. pose proof (tip_spec _ _ lk_chain0 t lk_tip0) as [Pt _]. constructor; auto.
  - constructor; auto. intros p Hp. rewrite (lk_linked0 p Hp). split; intros (q & Ha & Hq); exists q; (split; [exact Ha|]); [destruct Hq as [|[]]; assumption | now left].
  - apply worse_irrefl.
  - constructor; [|exact lk_nodup0]. intros a b. rewrite lk_unlinked0. cbn. tauto.
Qed.

(** A proper descendant is below a child. *)
Lemma anc_child (m : index) (T : tree_ok m) q p : ptr m p -> anc m q p -> q <> p -> exists c, par m c = Some q /\ anc m c p /\ ptr m c.
Proof using.
  intros Hp. revert q. pattern p. apply (ancestor_ind m T); [|exact Hp]. clear p Hp. intros p Hp IH q Ha Hne.
  destruct (anc_cases m q p Hp Ha) as [|(r & Er & Hr)]; [contradiction|]. destruct (Nat.eq_dec q r) as [->|Hqr].
  - exists p. ands; [exact Er | apply anc_refl | exact Hp].
  - destruct (IH r Er q Hr Hqr) as (c & E1 & E2 & E3). exists c. ands; [exact E1 | now apply (anc_up m c p r) | exact E3].
Qed.

Lemma modifier_passes_true (s : st) p : tree_ok (mapBlockIndex s) -> ptr (mapBlockIndex s) p -> modifier_passes s p = true.
Proof.
  intros T Hp. unfold modifier_passes, prev. fold (par (mapBlockIndex s) p). destruct (par (mapBlockIndex s) p) as [q|] eqn:E; [|reflexivity].
  destruct (par_spec _ T p q Hp E) as (Pq & _ & Hh & _). pose proof (height_nonneg _ T q Pq). unfold Kernel.CheckStakeModifierCheckpoints, Kernel.mapStakeModifierCheckpoints, height.
  destruct (Z.eqb_spec (nHeight (at_ (mapBlockIndex s) p)) 0); [lia | reflexivity].
Qed.

Lemma unlinked_children_spec (s : st) p b : In b (unlinked_children s p) <-> In (p, b) (mapBlocksUnlinked s).
Proof.
  unfold unlinked_children. rewrite in_map_iff. split.
  - intros ([a c] & <- & HF). apply filter_In in HF as [HF E]. cbn in E. apply Nat.eqb_eq in E. now subst a.
  - intros HF. exists (p, b). split; [reflexivity|]. apply filter_In. split; [exact HF|]. apply Nat.eqb_refl.
Qed.

Lemma unlinked_children_nodup (s : st) p : List.NoDup (mapBlocksUnlinked s) -> List.NoDup (unlinked_children s p).
Proof.
  unfold unlinked_children. induction (mapBlocksUnlinked s) as [|[a b] l IH]; intros HN; [constructor|]. inversion HN as [|? ? HA HB]; subst. cbn [List.filter fst].
  destruct (Nat.eqb_spec a p) as [->|]; [|now apply IH]. cbn [map snd]. constructor; [|now apply IH].
  rewrite in_map_iff. intros ([a c] & Ec & HF). cbn in Ec. subst c. apply filter_In in HF as [HF E]. cbn in E. apply Nat.eqb_eq in E. now subst a.
Qed.

Lemma filter_split {A} (f : A -> bool) l : (length (List.filter f l) + length (List.filter (fun x => negb (f x)) l) = length l)%nat.
Proof using. induction l as [|x l IH]; [reflexivity|]. cbn. destruct (f x); cbn; lia. Qed.

(** The blocks that join the queue when [p] leaves it. *)
Lemma link_waits (s : st) t p Q q : linking s t (p :: Q) -> ptr (mapBlockIndex s) q -> anc (mapBlockIndex s) p q -> q <> p ->
  exists c, anc (mapBlockIndex s) c q /\ (stored (entries s c) = false \/ In c (Q ++ unlinked_children s p)).
Proof.
  intros L Hq Ha Hne. pose proof (lk_tree _ _ _ L) as T. destruct (anc_child _ T p q Hq Ha ltac:(congruence)) as (c & Ec & Hc & Pc). exists c. split; [exact Hc|].
  destruct (stored (entries s c)) eqn:Sc; [right | now left]. apply in_or_app. destruct (in_dec Nat.eq_dec c Q) as [|Hn]; [now left | right].
  apply unlinked_children_spec, (lk_unlinked _ _ _ L). ands; auto.
  - apply (lk_linked _ _ _ L c Pc). exists p. split; [now apply (anc_up _ p c p); [..|apply anc_refl] | right; now left].
  - intros [->|]; [|contradiction]. destruct (par_spec _ T c c Pc Ec). lia.
Qed.

(** One turn of the queue. *)
Lemma linked_entry (s : st) t p Q : linking s t (p :: Q) -> ready s (p :: Q) ->
  linked_tx s p = branch_txs (mapBlockIndex s) (entries s) p /\ linked_tx s p <> 0.
Proof.
  intros L R. pose proof (lk_tree _ _ _ L) as T. destruct (lk_waiting _ _ _ L p ltac:(now left)) as (Pp & Sp & Np).
  destruct (R p ltac:(now left)) as (a & Ea & Na). destruct (par_spec _ T p a Pp Ea) as (Pa & _). pose proof (lk_small _ _ _ L p Pp) as HS.
  pose proof (branch_txs_step _ (entries s) p T Pp) as HB. rewrite Ea, <- (lk_count _ _ _ L a Pa Na) in HB. rewrite HB in *.
  destruct (lk_tx _ _ _ L p Pp) as (H0 & HX & _). apply HX in Sp.
  assert (HC : 0 <= nChainTx (entries s a)).
  { rewrite (lk_count _ _ _ L a Pa Na). clear -L T Pa. revert Pa. revert a. apply (ancestor_ind _ T). intros a Pa IH. rewrite (branch_txs_step _ _ a T Pa).
    pose proof (proj1 (lk_tx _ _ _ L a Pa)). destruct (par (mapBlockIndex s) a) as [b|]; [pose proof (IH b eq_refl)|]; lia. }
  unfold linked_tx, prev. fold (par (mapBlockIndex s) p). rewrite Ea. rewrite T32_id by (unfold u32; lia). lia.
Qed.

(** [E'] differs from the entries of [s] in the count and the sequence number
    of [p]. *)
Record relinked (s : st) (p : nat) (E' : nat -> block_state) : Prop := {
  rl_other : forall q, q <> p -> E' q = entries s q;
  rl_status : forall q, nStatus (E' q) = nStatus (entries s q);
  rl_tx : forall q, nTx (E' q) = nTx (entries s q);
  rl_count : nChainTx (E' p) = branch_txs (mapBlockIndex s) (entries s) p;
  rl_linked : nChainTx (E' p) <> 0
}.

Lemma relinked_bits s p E' : relinked s p E' -> forall q, level (E' q) = level (entries s q) /\ stored (E' q) = stored (entries s q) /\
  failed (E' q) = failed (entries s q) /\ refused (E' q) = refused (entries s q).
Proof. intros RL q. unfold level, stored, failed, refused, has. rewrite (rl_status _ _ _ RL). ands; reflexivity. Qed.

Lemma link_block_linked (s : st) t p Q (E' : nat -> block_state) : linking s t (p :: Q) -> ready s (p :: Q) -> relinked s p E' ->
  forall q, ptr (mapBlockIndex s) q ->
  nChainTx (E' q) = 0 <-> exists r, anc (mapBlockIndex s) r q /\ (stored (E' r) = false \/ In r (Q ++ unlinked_children s p)).
Proof.
  intros L R RL q Pq. pose proof (lk_tree _ _ _ L) as T. assert (HD : forall r, stored (E' r) = stored (entries s r)) by (intros r; apply (relinked_bits _ _ _ RL)).
  pose proof (rl_linked _ _ _ RL) as HN. pose proof (rl_other _ _ _ RL) as HO.
  pose proof (lk_queue _ _ _ L) as ND. inversion ND as [|? ? NQ _]; subst. destruct (lk_waiting _ _ _ L p ltac:(now left)) as (Pp & Sp & Np).
  setoid_rewrite HD. destruct (Nat.eq_dec q p) as [->|Hne].
  - split; [contradiction|]. intros (r & Hr & Hx). exfalso. destruct (anc_cases _ r p Pp Hr) as [->|(a & Ea & Hra)].
    + destruct Hx as [Hx|Hx]; [congruence|]. apply in_app_or in Hx as [Hx|Hx]; [contradiction|]. apply unlinked_children_spec, (lk_unlinked _ _ _ L) in Hx as (_ & Epp & _).
      destruct (par_spec _ T p p Pp Epp). lia.
    + destruct (R p ltac:(now left)) as (a' & Ea' & Na). rewrite Ea in Ea'. injection Ea' as <-. destruct (par_spec _ T p a Pp Ea) as (Pa & _).
      apply Na, (lk_linked _ _ _ L a Pa). destruct Hx as [Hx|Hx]; [exists r; auto|]. apply in_app_or in Hx as [Hx|Hx]; [exists r; split; [exact Hra | right; now right]|].
      apply unlinked_children_spec, (lk_unlinked _ _ _ L) in Hx as (Pr & Er & _). exists p. split; [|right; now left].
      apply (anc_trans _ p r a); [|exact Hra]. apply (anc_up _ p r p Pr Er), anc_refl.
  - rewrite (HO q Hne), (lk_linked _ _ _ L q Pq). split.
    + intros (r & Hr & [Hx|[<-|Hx]]); [exists r; auto | now apply (link_waits s t) | exists r; split; [exact Hr | right; apply in_or_app; now left]].
    + intros (r & Hr & [Hx|Hx]); [exists r; auto|]. apply in_app_or in Hx as [Hx|Hx]; [exists r; split; [exact Hr | right; now right]|].
      apply unlinked_children_spec, (lk_unlinked _ _ _ L) in Hx as (Pr & Er & _). exists p. split; [|right; now left].
      apply (anc_trans _ p r q); [|exact Hr]. apply (anc_up _ p r p Pr Er), anc_refl.
Qed.

Lemma link_block_candidates (s : st) t p Q (E' : nat -> block_state) cand : linking s t (p :: Q) -> relinked s p E' ->
  (forall q, q <> p -> q ∈ cand <-> q ∈ setBlockIndexCandidates s) -> (p ∈ cand <-> ~ worse addr (mapBlockIndex s) E' p t) ->
  candidates_ok addr (mapBlockIndex s) E' cand t.
Proof.
  intros L RL HC HP. pose proof (rl_linked _ _ _ RL) as HN. pose proof (rl_other _ _ _ RL) as HO. destruct (lk_waiting _ _ _ L p ltac:(now left)) as (Pp & _ & Np). destruct (lk_candidates _ _ _ L) as [C1 C2].
  assert (Ht : t <> p) by (intros ->; now apply (lk_tip_linked _ _ _ L)).
  assert (HW : forall q, q <> p -> worse addr (mapBlockIndex s) E' q t <-> worse addr (mapBlockIndex s) (entries s) q t) by (intros q Hq; apply worse_seq; now rewrite HO).
  constructor; intros q Hq.
  - destruct (Nat.eq_dec q p) as [->|Hne]; [ands; [exact Pp | exact HN | now apply HP]|]. rewrite HW, HO by exact Hne. apply C1. now apply HC.
  - destruct (Nat.eq_dec q p) as [->|Hne]; [intros _ _; apply HP|]. rewrite HW, HO by exact Hne. intros X1 X2 X3. apply HC; [exact Hne | now apply C2].
Qed.

Lemma link_block_unlinked (s : st) t p Q (E' : nat -> block_state) : linking s t (p :: Q) -> relinked s p E' ->
  forall a b, In (a, b) (List.filter (fun e => negb (fst e =? p)%nat) (mapBlocksUnlinked s)) <->
    ptr (mapBlockIndex s) b /\ par (mapBlockIndex s) b = Some a /\ stored (E' b) = true /\ nChainTx (E' b) = 0 /\ ~ In b (Q ++ unlinked_children s p).
Proof.
  intros L RL a b. pose proof (rl_linked _ _ _ RL) as HN. pose proof (rl_other _ _ _ RL) as HO.
  assert (HD : forall r, stored (E' r) = stored (entries s r)) by (intros r; apply (relinked_bits _ _ _ RL)).
  rewrite filter_In, HD. cbn [fst]. rewrite negb_true_iff, Nat.eqb_neq, in_app_iff, unlinked_children_spec, !(lk_unlinked _ _ _ L). cbn [In]. split.
  - intros ((Pb & Eb & Sb & Nb & Hn) & Ha). assert (b <> p) by (intros ->; apply Hn; now left). rewrite HO by assumption. ands; auto. intros [|(_ & E2 & _)]; [tauto|]. congruence.
  - intros (Pb & Eb & Sb & Nb & Hn). assert (Hbp : b <> p) by (intros ->; contradiction). rewrite HO in Nb by exact Hbp.
    assert (~ (p = b \/ In b Q)) by (intros [|]; [congruence | tauto]). split; [now ands|]. intros ->. apply Hn. right. now ands.
Qed.

Lemma linking_relinked (s s' : st) t p Q : linking s t (p :: Q) -> ready s (p :: Q) -> relinked s p (entries s') ->
  mapBlockIndex s' = mapBlockIndex s -> chainActive s' = chainActive s -> client s' = client s ->
  mapBlocksUnlinked s' = List.filter (fun e => negb (fst e =? p)%nat) (mapBlocksUnlinked s) ->
  candidates_ok addr (mapBlockIndex s) (entries s') (setBlockIndexCandidates s') t ->
  linking s' t (Q ++ unlinked_children s p) /\ ready s' (Q ++ unlinked_children s p).
Proof.
  intros L R RL EM EA EK EU CC. pose proof (link_block_linked s t p Q _ L R RL) as LL. pose proof (link_block_unlinked s t p Q _ L RL) as UU.
  pose proof (relinked_bits _ _ _ RL) as HB. pose proof (fun E => branch_txs_ext (mapBlockIndex s) (entries s) E) as BX.
  destruct RL as [HO HS HT HC HN]. destruct L as [L1 L2 L3 L4 L5 L6 L7 L8 L9 L10 L11 L12 L13 L14 L15 L16 L17 L18 L19 L20 L21 L22].
  pose proof (L21 p ltac:(now left)) as (Pp & _ & Np). inversion L20 as [|? ? NQ DQ]; subst.
  assert (HK : forall q, nChainTx (entries s q) <> 0 -> nChainTx (entries s' q) = nChainTx (entries s q)) by (intros q Hq; rewrite HO; [reflexivity | intros ->; contradiction]).
  assert (HX : forall b, In b (Q ++ unlinked_children s p) -> b <> p /\ (In b Q \/ In (p, b) (mapBlocksUnlinked s))).
  { intros b Hb. apply in_app_or in Hb as [Hb|Hb]; [split; [intros ->; contradiction | now left]|]. apply unlinked_children_spec in Hb. split; [|now right].
    intros ->. apply L18 in Hb as (_ & _ & _ & _ & Hn). apply Hn. now left. }
  split; [constructor|]; unfold ready, tip; rewrite ?EM, ?EA, ?EK, ?EU; try assumption.
  - intros q Pq. unfold status_ok. rewrite HS. now apply L3.
  - intros q Pq. destruct (HB q) as (-> & -> & _). rewrite HT. now apply L4.
  - intros q Pq. rewrite (proj1 (HB q)). now apply L5.
  - intros q r. rewrite (proj1 (HB q)), (proj1 (HB r)). apply L6.
  - intros q Pq Hq. rewrite (BX _ q HT). destruct (Nat.eq_dec q p) as [->|Hne]; [exact HC|]. rewrite HO in * by exact Hne. now apply L8.
  - intros q Pq. rewrite (BX _ q HT). now apply L9.
  - intros q Pq Hq. destruct (Nat.eq_dec q p) as [->|Hne]; [contradiction|]. rewrite HO in * by exact Hne. now apply L10.
  - intros q Pq. destruct (HB q) as (_ & _ & -> & _). intros Hf. destruct (L11 q Pq Hf) as (r & Hr & Hd). exists r. split; [exact Hr|]. destruct (HB r) as (_ & _ & _ & ->). exact Hd.
  - rewrite HK; exact L14.
  - intros q Hq. destruct (HB q) as (_ & _ & -> & _). now apply L15.
  - intros q Hq Hr. rewrite (proj1 (HB q)). now apply L16.
  - now apply List.NoDup_filter.
  - apply List.NoDup_app; [exact DQ | now apply unlinked_children_nodup|]. intros b Hb1 Hb2. apply unlinked_children_spec, L18 in Hb2 as (_ & _ & _ & _ & Hn). apply Hn. now right.
  - intros b Hb. destruct (HX b Hb) as [Hne [HQ|HU]]; rewrite HO by exact Hne; [apply L21; now right | now apply L18 in HU].
  - intros b Hb. destruct (HX b Hb) as [Hne [HQ|HU]].
    + destruct (R b ltac:(now right)) as (a & Ea & Na). exists a. rewrite HK by exact Na. now split.
    + apply L18 in HU as (_ & Ea & _). exists p. now split.
Qed.

Lemma link_block_spec (s : st) t p Q : linking s t (p :: Q) -> ready s (p :: Q) ->
  exists s' more, link_block addr s p = (s', more) /\ linking s' t (Q ++ more) /\ ready s' (Q ++ more) /\
    (length more + length (mapBlocksUnlinked s') = length (mapBlocksUnlinked s))%nat /\ mapBlockIndex s' = mapBlockIndex s /\
    forall q, nStatus (entries s' q) = nStatus (entries s q) /\ nTx (entries s' q) = nTx (entries s q).
Proof.
  intros L R. pose proof (lk_tree _ _ _ L) as T. destruct (linked_entry s t p Q L R) as [HB HN]. destruct (lk_waiting _ _ _ L p ltac:(now left)) as (Pp & Sp & Np).
  unfold link_block. set (s1 := update_entry s p _). set (s2 := with_sequence s1 _).
  rewrite (modifier_passes_true s2 p T Pp). set (s3 := if negb _ then _ else _).
  assert (RL : relinked s p (entries s2)).
  { assert (HP : entries s2 p = mkBlockState (nStatus (entries s p)) (nTx (entries s p)) (linked_tx s p) (nBlockSequenceId s)) by (cbn; now rewrite Nat.eqb_refl).
    assert (HO : forall q, q <> p -> entries s2 q = entries s q) by (intros q Hq; cbn; now destruct (Nat.eqb_spec q p)).
    constructor; [exact HO | | | rewrite HP; exact HB | rewrite HP; exact HN]; intros q; (destruct (Nat.eq_dec q p) as [->|]; [now rewrite HP | now rewrite HO]). }
  assert (F3 : entries s3 = entries s2 /\ mapBlockIndex s3 = mapBlockIndex s /\ chainActive s3 = chainActive s /\ client s3 = client s /\ mapBlocksUnlinked s3 = mapBlocksUnlinked s)
    by (unfold s3; destruct (negb _); ands; reflexivity). destruct F3 as (E3 & M3 & A3 & K3 & U3).
  assert (CC : candidates_ok addr (mapBlockIndex s) (entries s2) (setBlockIndexCandidates s3) t).
  { assert (Hw : worse_than_tip addr s2 p = CBlockIndexWorkComparator addr s2 p t) by (unfold worse_than_tip; change (tip s2) with (tip s); now rewrite (lk_tip _ _ _ L)).
    pose proof (tip_spec _ _ (lk_chain _ _ _ L) t (lk_tip _ _ _ L)) as [Pt _]. pose proof (comparator_false addr s2 T p t Pp Pt) as CF.
    apply (link_block_candidates s t p Q); auto; unfold s3; rewrite Hw; destruct (CBlockIndexWorkComparator addr s2 p t); cbn [negb insert_candidate with_candidates setBlockIndexCandidates];
      change (setBlockIndexCandidates s2) with (setBlockIndexCandidates s).
    - intros q Hq. reflexivity.
    - intros q Hq. rewrite elem_of_union, elem_of_singleton. tauto.
    - split; [intros Hx; now apply (lk_candidates _ _ _ L) in Hx as (_ & X & _) | intros Hx; now apply CF in Hx].
    - split; [intros _; now apply CF | intros _; apply elem_of_union_l; now apply elem_of_singleton]. }
  assert (EC : unlinked_children s3 p = unlinked_children s p) by (unfold unlinked_children; now rewrite U3).
  rewrite EC, U3. set (s4 := with_unlinked s3 _). destruct (linking_relinked s s4 t p Q L R) as [L4 R4]; unfold s4; cbn [with_unlinked mapBlockIndex entries chainActive client mapBlocksUnlinked setBlockIndexCandidates];
    rewrite ?E3; auto.
  eexists _, _. split; [reflexivity|]. ands; [exact L4 | exact R4 | | exact M3 |].
  - unfold unlinked_children. cbn [with_unlinked mapBlocksUnlinked]. rewrite length_map. apply filter_split.
  - intros q. cbn [with_unlinked entries]. rewrite E3. split; [apply RL | apply RL].
Qed.

Lemma link_queue_spec t : forall fuel Q (s : st), linking s t Q -> ready s Q -> (length Q + length (mapBlocksUnlinked s) <= fuel)%nat ->
  exists s', link_queue addr fuel Q s = Some s' /\ Inv s' t t /\ mapBlockIndex s' = mapBlockIndex s /\
    forall q, nStatus (entries s' q) = nStatus (entries s q) /\ nTx (entries s' q) = nTx (entries s q).
Proof.
  induction fuel as [|fuel IH]; intros [|p Q] s L R Hf; cbn in Hf; try lia.
  - exists s. ands; [reflexivity | now apply linking_done | reflexivity | intros q; now split].
  - exists s. ands; [reflexivity | now apply linking_done | reflexivity | intros q; now split].
  - cbn [link_queue]. destruct (link_block_spec s t p Q L R) as (s1 & more & -> & L1 & R1 & HL & HM & HS).
    destruct (IH (Q ++ more) s1 L1 R1) as (s2 & R2 & I2 & M2 & S2); [rewrite length_app; lia|].
    exists s2. ands; [exact R2 | exact I2 | congruence |]. intros q. destruct (HS q) as [<- <-]. apply S2.
Qed.

(** ** [ReceivedBlockTransactions] *)

(** The entry of a block whose [n] transactions have arrived. *)
Definition received (n : Z) (b : block_state) : block_state :=
  RaiseValidity BLOCK_VALID_TRANSACTIONS (mkBlockState (nStatus b .| BLOCK_HAVE_DATA) (T32 n) 0 (nSequenceId b)).

Definition data_state (s : st) (p : nat) (n : Z) : st :=
  update_entry (update_entry s p (fun b => mkBlockState (nStatus b .| BLOCK_HAVE_DATA) (T32 n) 0 (nSequenceId b))) p (RaiseValidity BLOCK_VALID_TRANSACTIONS).

Definition data_entries (s : st) (p : nat) (n : Z) : nat -> block_state := entries (data_state s p n).

(** A block [AcceptBlock] may store: it has no data and neither it nor its
    parent has failed; the transactions of a branch are counted in 32 bits. *)
Record new_data (s : st) (p : nat) (n : Z) : Prop := {
  nd_ptr : ptr (mapBlockIndex s) p;
  nd_missing : stored (entries s p) = false;
  nd_failed : failed (entries s p) = false;
  nd_parent : forall q, par (mapBlockIndex s) p = Some q -> failed (entries s q) = false;
  nd_size : 0 < n < 2 ^ 32;
  nd_small : forall q, ptr (mapBlockIndex s) q -> branch_txs (mapBlockIndex s) (data_entries s p n) q < 2 ^ 32
}.

Lemma received_spec n b : status_ok b -> failed b = false -> level b = 2 -> 0 < n < 2 ^ 32 ->
  let b' := received n b in
  status_ok b' /\ level b' = 3 /\ stored b' = true /\ failed b' = false /\ refused b' = refused b /\ nTx b' = n /\ nChainTx b' = 0 /\ nSequenceId b' = nSequenceId b.
Proof using.
  intros Hb Hf Hl Hn b'. unfold b', received. destruct (mark_spec BLOCK_HAVE_DATA b Hb ltac:(cbn; tauto)) as (M1 & M2 & M3).
  set (c := mkBlockState _ _ _ _). assert (EC : forall flag, has flag c = has flag (mark BLOCK_HAVE_DATA b)) by reflexivity.
  assert (SC : status_ok c) by exact M1. assert (LC' : level c = 2) by (rewrite <- Hl, <- M2; reflexivity).
  assert (FC : failed c = false).
  { unfold failed in *. rewrite (proj1 (mask_spec c SC)), !EC, !M3 by (cbn; tauto). rewrite (proj1 (mask_spec b Hb)) in Hf. apply orb_false_iff in Hf as [-> ->]. reflexivity. }
  destruct (raise_spec BLOCK_VALID_TRANSACTIONS c SC ltac:(cbn; tauto)) as (R1 & R2 & R3). fold (failed c) in R2. rewrite FC, LC' in R2.
  destruct (raise_fields BLOCK_VALID_TRANSACTIONS c) as (G1 & G2 & G3).
  ands; try assumption.
  - unfold stored. rewrite R3, EC, M3 by (cbn; tauto). apply orb_true_r.
  - unfold failed in *. rewrite (proj1 (mask_spec _ R1)), !R3 by (cbn; tauto). now rewrite (proj1 (mask_spec c SC)) in FC.
  - unfold refused. rewrite R3, EC, M3 by (cbn; tauto). apply orb_false_r.
  - rewrite G1. cbn. rewrite T32_id; [reflexivity | unfold u32; lia].
Qed.

Lemma branch_txs_anc (m : index) E E' : tree_ok m -> forall p, ptr m p -> (forall q, anc m q p -> nTx (E' q) = nTx (E q)) -> branch_txs m E' p = branch_txs m E p.
Proof using.
  intros T. apply (ancestor_ind m T (fun p => (forall q, anc m q p -> nTx (E' q) = nTx (E q)) -> branch_txs m E' p = branch_txs m E p)).
  intros p Hp IH HE. rewrite !(branch_txs_step m _ p T Hp), HE by apply anc_refl. f_equal. destruct (par m p) as [q|] eqn:Eq; [|reflexivity].
  apply IH; [reflexivity|]. intros r Hr. apply HE. now apply (anc_up m r p q).
Qed.

(** What the arrival of data keeps of the entries. *)
Lemma data_entries_spec (s : st) t p n : Inv s t t -> new_data s p n ->
  (forall q, ptr (mapBlockIndex s) q -> status_ok (data_entries s p n q)) /\
  (forall q, failed (data_entries s p n q) = failed (entries s q) /\ refused (data_entries s p n q) = refused (entries s q) /\
     nChainTx (data_entries s p n q) = nChainTx (entries s q) /\ nSequenceId (data_entries s p n q) = nSequenceId (entries s q)) /\
  data_entries s p n p = received n (entries s p) /\ level (entries s p) = 2 /\ nChainTx (entries s p) = 0 /\
  (level (data_entries s p n p) = 3 /\ stored (data_entries s p n p) = true /\ nTx (data_entries s p n p) = n) /\
  (forall q, q <> p -> data_entries s p n q = entries s q).
Proof.
  intros I [D1 D2 D3 D4 D5 D6]. pose proof (inv_entries _ _ _ _ I) as O. destruct (eo_tx _ _ O p D1) as (_ & HS & HL).
  assert (Hl : level (entries s p) = 2) by (destruct (eo_level _ _ O p D1) as [|Hl]; [assumption|]; assert (nTx (entries s p) <> 0) by (apply HL; lia); assert (stored (entries s p) = true) by tauto; congruence).
  destruct (received_spec n (entries s p) (eo_status _ _ O p D1) D3 Hl D5) as (R1 & R2 & R3 & R4 & R5 & R6 & R7 & R8).
  assert (Hn : nChainTx (entries s p) = 0) by (apply (eo_linked _ _ O p D1); exists p; split; [apply anc_refl | exact D2]).
  assert (HX : data_entries s p n p = received n (entries s p)) by (unfold data_entries, data_state; cbn; now rewrite Nat.eqb_refl).
  assert (HO : forall q, q <> p -> data_entries s p n q = entries s q) by (intros q Hq; unfold data_entries, data_state; cbn; now destruct (Nat.eqb_spec q p)).
  ands; auto; try (rewrite HX; assumption).
  - intros q Pq. destruct (Nat.eq_dec q p) as [->|Hq]; [now rewrite HX | rewrite HO by exact Hq; now apply (eo_status _ _ O)].
  - intros q. destruct (Nat.eq_dec q p) as [->|Hq]; [rewrite HX; ands; congruence | rewrite HO by exact Hq; ands; reflexivity].
Qed.

Lemma data_linking (s s' : st) t p n : Inv s t t -> new_data s p n -> entries s' = data_entries s p n -> mapBlockIndex s' = mapBlockIndex s -> chainActive s' = chainActive s ->
  setBlockIndexCandidates s' = setBlockIndexCandidates s -> mapBlocksUnlinked s' = mapBlocksUnlinked s -> client s' = client s -> linking s' t [p].
Proof.
  intros I D EE EM EA EC EU EK. destruct (data_entries_spec s t p n I D) as (E1 & E2 & HX & Hl & Hn & (L3 & S1 & N1) & HO).
  destruct D as [D1 D2 D3 D4 D5 D6]. pose proof (inv_tree _ _ _ _ I) as T. pose proof (inv_entries _ _ _ _ I) as O. destruct I as [I1 I2 I3 I4 I5 I6 I7 I8 I9 I10 [C1 C2] [U1 U2] I13].
  assert (HA : forall q r, ptr (mapBlockIndex s) q -> nChainTx (entries s q) <> 0 -> anc (mapBlockIndex s) r q -> r <> p).
  { intros q r Pq Hq Hr ->. apply Hq, (eo_linked _ _ O q Pq). now exists p. }
  pose proof (tip_spec _ _ I4 t I5) as [Pt _].
  assert (HW : forall q, worse addr (mapBlockIndex s) (data_entries s p n) q t <-> worse addr (mapBlockIndex s) (entries s) q t) by (intros q; apply worse_seq; apply E2).
  constructor; unfold tip; rewrite ?EE, ?EM, ?EA, ?EC, ?EU, ?EK; try assumption.
  - intros q Pq. destruct (Nat.eq_dec q p) as [->|Hq]; [rewrite S1, L3, N1; split; [lia|]; split; split; intros _; lia || reflexivity | rewrite HO by exact Hq; now apply (eo_tx _ _ O)].
  - intros q Pq. destruct (Nat.eq_dec q p) as [->|Hq]; [rewrite L3; tauto | rewrite HO by exact Hq; now apply (eo_level _ _ O)].
  - intros a b Pa Hab Hb Ha. destruct (Nat.eq_dec a p) as [->|Hap]; [lia|]. rewrite HO in Ha by exact Hap. pose proof (eo_levels _ _ O a b Pa Hab Hb Ha) as Hl5.
    rewrite HO; [exact Hl5 | intros ->; lia].
  - intros q Pq. destruct (E2 q) as (_ & _ & -> & _). rewrite (eo_linked _ _ O q Pq). split; intros (r & Hr & Hx); (destruct (Nat.eq_dec r p) as [->|Hne]; [|]).
    + exists p. split; [exact Hr | right; now left].
    + exists r. split; [exact Hr|]. left. now rewrite HO.
    + exists p. now split.
    + exists r. split; [exact Hr|]. rewrite HO in Hx by exact Hne. destruct Hx as [Hx|[Hx|[]]]; [exact Hx | congruence].
  - intros q Pq. destruct (E2 q) as (_ & _ & -> & _). intros Hq. rewrite (eo_count _ _ O q Pq Hq). symmetry. apply branch_txs_anc; [exact T | exact Pq|].
    intros r Hr. rewrite HO; [reflexivity | now apply (HA q r)].
  - intros q Pq. destruct (E2 q) as (_ & _ & -> & ->). now apply (eo_sequence _ _ O).
  - intros q Pq. destruct (E2 q) as (-> & _). intros Hf. destruct (eo_flags _ _ O q Pq Hf) as (r & Hr & Hd). exists r. split; [exact Hr|]. destruct (E2 r) as (_ & -> & _). exact Hd.
  - destruct (E2 t) as (_ & _ & -> & _). exact I6.
  - intros q Hq. destruct (E2 q) as (-> & _). now apply I7.
  - intros q Hq Hr. rewrite HO; [now apply I8 | now apply (HA t q)].
  - constructor; intros q Hq; rewrite HW; destruct (E2 q) as (F & _ & -> & _); [now apply C1 | rewrite F; now apply C2].
  - intros a b. rewrite (U1 a b). destruct (E2 b) as (_ & _ & -> & _). destruct (Nat.eq_dec b p) as [->|Hbp]; [rewrite D2, S1; split; [intros (_ & _ & X & _); discriminate | intros (_ & _ & _ & _ & X); exfalso; apply X; now left]|].
    rewrite HO by exact Hbp. assert (~ In b [p]) by (intros [|[]]; congruence). tauto.
  - constructor; [intros [] | constructor].
  - intros b [<-|[]]. destruct (E2 p) as (_ & _ & -> & _). now ands.
Qed.

(** A block whose parent is not linked waits in [mapBlocksUnlinked]. *)
Lemma linking_unlinked (s : st) t p q : linking s t [p] -> par (mapBlockIndex s) p = Some q -> nChainTx (entries s q) = 0 ->
  Inv (with_unlinked s (mapBlocksUnlinked s ++ [(q, p)])) t t.
Proof.
  intros L Eq Nq. set (s2 := with_unlinked s _). pose proof (lk_tree _ _ _ L) as T. apply linking_done.
  destruct L as [L1 L2 L3 L4 L5 L6 L7 L8 L9 L10 L11 L12 L13 L14 L15 L16 L17 L18 L19 L20 L21 L22]. destruct (L21 p ltac:(now left)) as (Pp & Sp & Np).
  destruct (par_spec _ T p q Pp Eq) as (Pq & Hlt & _). constructor; try assumption.
  - intros r Pr. change (entries s2) with (entries s). rewrite (L7 r Pr). split; intros (x & Hx & Hd); [|exists x; split; [exact Hx | destruct Hd as [|[]]; auto]].
    destruct Hd as [Hd|[<-|[]]]; [exists x; auto|]. apply (L7 q Pq) in Nq as (y & Hy & Hd).
    assert (y <> p) by (intros ->; destruct (anc_facts _ T p q Pq Hy) as (_ & Hle & _); lia). exists y. split; [|destruct Hd as [|[Hd|[]]]; [now left | congruence]].
    apply (anc_trans _ y q r Hy). apply (anc_trans _ q p r); [|exact Hx]. apply (anc_up _ q p q Pp Eq), anc_refl.
  - intros a b. unfold s2. cbn [with_unlinked mapBlocksUnlinked]. rewrite in_app_iff, L18. cbn [In]. split.
    + intros [(X1 & X2 & X3 & X4 & _)|[[= <- <-]|[]]]; ands; auto.
    + intros (X1 & X2 & X3 & X4 & _). destruct (Nat.eq_dec b p) as [->|Hbp]; [right; left; change (par (mapBlockIndex s) p = Some a) in X2; congruence|].
      left. ands; auto. intros [|[]]; congruence.
  - unfold s2. cbn [with_unlinked mapBlocksUnlinked]. apply List.NoDup_app; [exact L19 | constructor; [intros [] | constructor]|]. intros [a b] HX [[= <- <-]|[]].
    apply L18 in HX as (_ & _ & _ & _ & Hn). apply Hn. now left.
  - constructor.
  - intros b [].
Qed.

Lemma ReceivedBlockTransactions_spec (s : st) t p n : Inv s t t -> new_data s p n ->
  exists s', ReceivedBlockTransactions addr s p n = Some s' /\ Inv s' t t /\ mapBlockIndex s' = mapBlockIndex s /\
    forall q, nStatus (entries s' q) = nStatus (data_entries s p n q) /\ nTx (entries s' q) = nTx (data_entries s p n q).
Proof.
  intros I D. unfold ReceivedBlockTransactions. fold (data_state s p n). set (s1 := data_state s p n).
  pose proof (data_linking s s1 t p n I D eq_refl eq_refl eq_refl eq_refl eq_refl eq_refl) as L. pose proof (inv_tree _ _ _ _ I) as T. pose proof (inv_entries _ _ _ _ I) as O.
  pose proof (data_entries_spec s t p n I D) as (_ & E2 & _ & _ & _ & (_ & S1 & _) & HO). pose proof (nd_ptr _ _ _ D) as Pp.
  change (prev s1 p) with (par (mapBlockIndex s) p). destruct (par (mapBlockIndex s) p) as [q|] eqn:Eq.
  2:{ exfalso. apply (tree_root _ T p Pp) in Eq. subst p. pose proof (tip_spec _ _ (inv_chain _ _ _ _ I) t (inv_tip _ _ _ _ I)) as [Pt _].
      apply (inv_linked _ _ _ _ I), (eo_linked _ _ O t Pt). exists 0%nat. split; [now apply root_anc | apply D]. }
  destruct (par_spec _ T p q Pp Eq) as (Pq & Hlt & _). assert (EQ : entries s1 q = entries s q) by (apply HO; lia).
  rewrite EQ. destruct (Z.eqb_spec (nChainTx (entries s q)) 0) as [Nq|Nq].
  - assert (HV : IsValid BLOCK_VALID_TREE (entries s q) = true).
    { unfold IsValid. fold (failed (entries s q)). rewrite (nd_parent _ _ _ D q Eq). change BLOCK_VALID_TREE with 2. destruct (eo_level _ _ O q Pq) as [|[|]]; lia. }
    rewrite HV. eexists. ands; [reflexivity | now apply (linking_unlinked s1 t p q); [..|rewrite EQ] | reflexivity | intros r; now split].
  - destruct (link_queue_spec t (S (length (mapBlocksUnlinked s1))) [p] s1 L) as (s' & R & I' & M' & S').
    + intros b [<-|[]]. exists q. split; [exact Eq | now rewrite EQ].
    + cbn. lia.
    + exists s'. ands; [exact R | exact I' | exact M' | exact S'].
Qed.
End Steps.
End BlockTreeSteps.
