(* ===== verification/BlockTreeJudge.v ===== *)
(** Blocks are judged by hand or before their data is stored: the mark
    [AcceptBlock] leaves on a block that fails its checks, [InvalidateBlock]
    and [ReconsiderBlock] keep the invariant of [BlockTreeInv]. *)
From stdpp Require Import base list gmap fin_maps fin_sets.
From S2P Require Import Prelude BaseUint Uint256 Params Chain Pow Kernel BlockTree BlockTreeInv BlockTreeOps BlockTreeSteps.

Module BlockTreeJudge.
Import BaseUint Uint256 Chain BlockTree BlockTreeInv BlockTreeOps BlockTreeSteps.

Section Judge.
Variable addr : nat -> Z.
Hypothesis addr_inj : forall a b, addr a = addr b -> a = b.
Context {C : Type} `{LC : LawfulClient C}.

Abbreviation st := (chainstate (C := C)).
Abbreviation Inv := (Inv addr (C := C)).

(** ** A block that fails the checks of [AcceptBlock] *)

Definition reject_block (s : st) (p : nat) : st := update_entry s p (mark BLOCK_FAILED_VALID).

Lemma missing_off (s : st) t p : Inv s t t -> stored (entries s p) = false -> ~ anc (mapBlockIndex s) p t.
Proof.
  intros I Hs Ha. apply (inv_linked _ _ _ _ I), (eo_linked _ _ (inv_entries _ _ _ _ I) t (inv_ptr _ _ _ _ I)). now exists p.
Qed.

Lemma reject_block_spec (s : st) t p : Inv s t t -> ptr (mapBlockIndex s) p -> stored (entries s p) = false -> Inv (reject_block s p) t t.
Proof. intros I Hp Hs. apply Inv_mark; auto; now apply missing_off. Qed.

(** ** [InvalidateBlock] *)

Lemma entries_mark m E p flag : tree_ok m -> entries_ok m E -> ptr m p ->
  flag = BLOCK_FAILED_VALID \/ flag = BLOCK_FAILED_CHILD /\ (exists q, anc m q p /\ refused (E q) = true) ->
  entries_ok m (fun q => if (q =? p)%nat then mark flag (E p) else E q).
Proof using.
  intros T O Hp Hflag. destruct (mark_failed (E p) flag (eo_status _ _ O p Hp) ltac:(tauto)) as (M1 & M2 & M3 & M4 & M5).
  set (E' := fun q => _). assert (HP : E' p = mark flag (E p)) by (unfold E'; now rewrite Nat.eqb_refl).
  assert (HO : forall q, q <> p -> E' q = E q) by (intros q Hq; unfold E'; now destruct (Nat.eqb_spec q p)).
  assert (HR : forall q, refused (E q) = true -> refused (E' q) = true).
  { intros q Hq. destruct (Nat.eq_dec q p) as [->|]; [now rewrite HP, M5, Hq | now rewrite HO]. }
  assert (HL : forall q, level (E' q) = level (E q)) by (intros q; destruct (Nat.eq_dec q p) as [->|]; [now rewrite HP | now rewrite HO]).
  apply (entries_restatus m E E' O); auto.
  - intros q. destruct (Nat.eq_dec q p) as [->|]; [now rewrite HP | rewrite HO by assumption; ands; reflexivity].
  - intros q Hq. destruct (Nat.eq_dec q p) as [->|]; [rewrite HP; now split | rewrite HO by assumption; split; [now apply (eo_status _ _ O) | reflexivity]].
  - intros a b. rewrite !HL. apply (eo_levels _ _ O).
  - intros q Hq Hf. destruct (failed (E q)) eqn:F.
    + destruct (eo_flags _ _ O q Hq F) as (r & Hr & Hd). exists r. auto.
    + destruct (Nat.eq_dec q p) as [->|Hne]; [|rewrite HO in Hf by exact Hne; congruence].
      destruct Hflag as [-> | [_ (r & Hr & Hd)]]; [exists p; split; [apply anc_refl | rewrite HP, M5; apply orb_true_r] | exists r; auto].
Qed.

(** The state while the blocks from the tip down to [p] are disconnected. *)
Record falling (s : st) (t p : nat) : Prop := {
  fl_tree : tree_ok (mapBlockIndex s);
  fl_parents : forall q, ptr (mapBlockIndex s) q -> par (mapBlockIndex s) q = parents q;
  fl_entries : entries_ok (mapBlockIndex s) (entries s);
  fl_chain : is_chain (mapBlockIndex s) (chainActive s);
  fl_tip : tip s = Some t;
  fl_linked : nChainTx (entries s t) <> 0;
  fl_valid : forall q, anc (mapBlockIndex s) q t -> valid q = true;
  fl_failed : forall q, anc (mapBlockIndex s) q t -> failed (entries s q) = true -> anc (mapBlockIndex s) p q;
  fl_scripts : forall q, anc (mapBlockIndex s) q t -> par (mapBlockIndex s) q <> None -> level (entries s q) = 5;
  fl_candidates : forall q, q ∈ setBlockIndexCandidates s -> ptr (mapBlockIndex s) q /\ nChainTx (entries s q) <> 0 /\ ~ worse addr (mapBlockIndex s) (entries s) q t;
  fl_unlinked : unlinked_ok (mapBlockIndex s) (entries s) (mapBlocksUnlinked s);
  fl_client : stands_for (client s) (Some t);
  fl_block : ptr (mapBlockIndex s) p /\ par (mapBlockIndex s) p <> None
}.

(** Marking and erasing a block above [p]. *)
Lemma falling_mark (s : st) t p x flag : falling s t p -> ptr (mapBlockIndex s) x -> anc (mapBlockIndex s) p x ->
  flag = BLOCK_FAILED_VALID /\ x = p \/ flag = BLOCK_FAILED_CHILD /\ refused (entries s p) = true ->
  let s' := erase_candidate (update_entry s x (mark flag)) x in falling s' t p /\ refused (entries s' p) = true.
Proof.
  intros [F1 F2 F3 F4 F5 F6 F7 F8 F9 F10 [U1 U2] F12 (F13 & F15)] Px Hx Hflag.
  destruct (mark_failed (entries s x) flag (eo_status _ _ F3 x Px) ltac:(tauto)) as (M1 & M2 & M3 & M4 & M5).
  intros s'. assert (HP : entries s' x = mark flag (entries s x)) by (cbn; now rewrite Nat.eqb_refl).
  assert (HO : forall q, q <> x -> entries s' q = entries s q) by (intros q Hq; cbn; now destruct (Nat.eqb_spec q x)).
  assert (HK : keeps (entries s) (entries s')) by apply mark_keeps.
  split; [constructor; auto|].
  - apply (entries_mark _ _ x flag F1 F3 Px). destruct Hflag as [[]|[]]; [now left | right; split; [assumption | now exists p]].
  - destruct (HK t) as (_ & -> & _). exact F6.
  - intros q Hq. destruct (Nat.eq_dec q x) as [->|Hne]; [intros _; exact Hx | rewrite HO by exact Hne; now apply F8].
  - intros q Hq Hn. destruct (Nat.eq_dec q x) as [->|Hne]; [rewrite HP, M2; now apply F9 | rewrite HO by exact Hne; now apply F9].
  - intros q Hq. change (q ∈ setBlockIndexCandidates s ∖ {[ x ]}) in Hq. apply elem_of_difference in Hq as [Hq _]. destruct (F10 q Hq) as (Pq & Nq & Wq). destruct (HK q) as (_ & -> & _). ands; [exact Pq | exact Nq|].
    change (mapBlockIndex s') with (mapBlockIndex s). now rewrite (keeps_worse addr _ _ _ q t HK).
  - constructor; [|exact U2]. intros a b. change (mapBlocksUnlinked s') with (mapBlocksUnlinked s). rewrite (U1 a b). destruct (HK b) as (_ & -> & _).
    assert (stored (entries s' b) = stored (entries s b)) as -> by (destruct (Nat.eq_dec b x) as [->|]; [now rewrite HP | now rewrite HO]). reflexivity.
  - destruct (Nat.eq_dec p x) as [->|Hne]; [rewrite HP, M5; destruct Hflag as [[-> _]|[_ ->]]; [apply orb_true_r | reflexivity]|].
    rewrite HO by exact Hne. destruct Hflag as [[_ ->]|[_ Hr]]; [contradiction | exact Hr].
Qed.

Lemma falling_disconnect (s : st) t p q : falling s t p -> par (mapBlockIndex s) t = Some q ->
  exists s', DisconnectTip s = Some (s', true) /\ falling s' q p /\ mapBlockIndex s' = mapBlockIndex s /\ entries s' = entries s.
Proof.
  intros F Hq. destruct F as [F1 F2 F3 F4 F5 F6 F7 F8 F9 F10 F11 F12 F13]. destruct (tip_spec _ _ F4 t F5) as [Pt _].
  destruct (par_spec _ F1 t q Pt Hq) as (Pq & _ & _ & HW). unfold DisconnectTip. rewrite F5. destruct (disconnect_law (client s) t F12) as (c & -> & Hc).
  unfold UpdateTip, prev. cbn [mapBlockIndex with_client chainActive]. fold (par (mapBlockIndex s) t). rewrite Hq.
  destruct (SetTip_spec (mapBlockIndex s) (chainActive s) q _ (tree_wf _ F1) F4 (proj1 (deref_at _ q) Pq)) as (V1 & _ & V2).
  eexists. split; [reflexivity|]. split; [|now split].
  assert (Hsub : forall r, anc (mapBlockIndex s) r q -> anc (mapBlockIndex s) r t) by (intros r Hr; now apply (anc_up _ r t q)).
  constructor; auto.
  - intros E. apply (eo_linked _ _ F3 q Pq) in E as (r & Hr & Hd). apply F6, (eo_linked _ _ F3 t Pt). exists r. split; [now apply Hsub | exact Hd].
  - intros r Hr Hn. apply F9; [now apply Hsub | exact Hn].
  - intros r Hr. destruct (F10 r Hr) as (Pr & Nr & Wr). ands; [exact Pr | exact Nr|]. intros Hw. apply Wr. unfold worse in *. cbn in Hw. lia.
  - cbn. rewrite <- Hq, (F2 t Pt). exact Hc.
Qed.

Lemma invalidate_loop_spec p : forall fuel (s : st) t, falling s t p -> refused (entries s p) = true -> nHeight (at_ (mapBlockIndex s) t) < nHeight (at_ (mapBlockIndex s) p) + Z.of_nat fuel ->
  exists s' t', invalidate_loop fuel s p = Some (s', true) /\ falling s' t' p /\ ~ anc (mapBlockIndex s') p t' /\ mapBlockIndex s' = mapBlockIndex s /\
    refused (entries s' p) = true /\ forall q, ~ anc (mapBlockIndex s) p q -> entries s' q = entries s q.
Proof.
  induction fuel as [|fuel IH]; intros s t F Rp Hf; pose proof (fl_tree _ _ _ F) as T; destruct (fl_block _ _ _ F) as (Pp & Np);
    destruct (tip_spec _ _ (fl_chain _ _ _ F) t (fl_tip _ _ _ F)) as [Pt _];
    pose proof (chain_anc _ T _ (fl_chain _ _ _ F) t p (fl_tip _ _ _ F) Pp) as HC; cbn [invalidate_loop];
    (destruct (Contains (mapBlockIndex s) (chainActive s) p) eqn:E; [|exists s, t; ands; auto; intros Ha; apply HC in Ha; discriminate]);
    pose proof (proj1 HC eq_refl) as Ha.
  - destruct (anc_facts _ T p t Pt Ha) as (_ & _ & _ & Hle & _). lia.
  - rewrite (fl_tip _ _ _ F). set (s1 := erase_candidate _ t).
    destruct (falling_mark s t p t BLOCK_FAILED_CHILD F Pt Ha ltac:(now right)) as [F1 R1]. fold s1 in F1, R1.
    destruct (par (mapBlockIndex s) t) as [q|] eqn:Eq.
    + destruct (falling_disconnect s1 t p q F1 Eq) as (s2 & -> & F2 & M2 & E2). destruct (par_spec _ T t q Pt Eq) as (_ & _ & Hh & _).
      destruct (IH s2 q F2) as (s3 & t3 & R3 & F3 & N3 & M3 & R4 & O3); [now rewrite E2 | rewrite M2; change (mapBlockIndex s1) with (mapBlockIndex s); lia|].
      exists s3, t3. ands; auto; [now rewrite M3, M2|]. intros x Hx. rewrite M2 in O3. rewrite (O3 x Hx), E2. cbn. destruct (Nat.eqb_spec x t) as [->|]; [contradiction | reflexivity].
    + exfalso. destruct (anc_cases _ p t Pt Ha) as [->|(r & Er & _)]; congruence.
Qed.

Lemma pointers_in (s : st) q : In q (pointers s) <-> ptr (mapBlockIndex s) q.
Proof using. unfold pointers, ptr. rewrite in_seq. lia. Qed.

(** The loop that completes the candidates. *)
Lemma fold_insert (cond : st -> nat -> bool) : (forall s c q, cond (with_candidates s c) q = cond s q) -> forall l (s : st),
  exists c, fold_left (fun s q => if cond s q then insert_candidate s q else s) l s = with_candidates s c /\
    forall q, q ∈ c <-> q ∈ setBlockIndexCandidates s \/ In q l /\ cond s q = true.
Proof using.
  clear addr_inj addr LC. intros HC. induction l as [|x l IH]; intros s.
  - exists (setBlockIndexCandidates s). split; [now destruct s | cbn; tauto].
  - cbn [fold_left]. destruct (cond s x) eqn:Ex.
    + destruct (IH (insert_candidate s x)) as (c & -> & HX). exists c. split; [reflexivity|]. intros q. rewrite HX. unfold insert_candidate at 2. rewrite HC. cbn [insert_candidate with_candidates setBlockIndexCandidates In].
      rewrite elem_of_union, elem_of_singleton. split; [intros [[->|]|[]]; auto | intros [|[[->|] H1]]; auto].
    + destruct (IH s) as (c & -> & HX). exists c. split; [reflexivity|]. intros q. rewrite HX. cbn [In]. split; [intros [|[]]; auto | intros [|[[->|] H1]]; auto; congruence].
Qed.

Lemma InvalidateBlock_spec (s : st) t p : Inv s t t -> ptr (mapBlockIndex s) p -> par (mapBlockIndex s) p <> None ->
  exists s' t', InvalidateBlock addr s p = Some (s', true) /\ Inv s' t' t' /\ mapBlockIndex s' = mapBlockIndex s /\ ~ anc (mapBlockIndex s) p t' /\
    refused (entries s' p) = true /\ forall q, ~ anc (mapBlockIndex s) p q -> entries s' q = entries s q.
Proof.
  intros I Pp Np. assert (F0 : falling s t p).
  { pose proof (inv_branch _ _ _ _ I) as HB. destruct (inv_candidates _ _ _ _ I) as [C1 _]. destruct I as [I1 I2 I3 I4 I5 I6 I7 I8 I9 I10 I11 I12 I13].
    constructor; auto; intros q Hq; destruct (HB q Hq); [assumption | congruence]. }
  unfold InvalidateBlock. destruct (falling_mark s t p p BLOCK_FAILED_VALID F0 Pp (anc_refl _ p) ltac:(left; now split)) as [F1 R1]. set (s1 := erase_candidate _ p) in *.
  destruct (invalidate_loop_spec p (length (chainActive s1)) s1 t F1 R1) as (s2 & t2 & -> & F2 & N2 & M2 & R2 & O2).
  { destruct (tip_spec _ _ (inv_chain _ _ _ _ I) t (inv_tip _ _ _ _ I)) as [_ Hh]. unfold Height in Hh.
    change (mapBlockIndex s1) with (mapBlockIndex s). change (chainActive s1) with (chainActive s). pose proof (height_nonneg _ (inv_tree _ _ _ _ I) p Pp). lia. }
  set (cond := fun (s : st) q => IsValid BLOCK_VALID_TRANSACTIONS (entries s q) && negb (nChainTx (entries s q) =? 0) && negb (worse_than_tip addr s q)).
  destruct (fold_insert cond ltac:(reflexivity) (pointers s2) s2) as (c & R & HX). unfold cond in R at 1. rewrite R.
  destruct F2 as [F1' F2' F3 F4 F5 F6 F7 F8 F9 F10 F11 F12 F13]. destruct (tip_spec _ _ F4 t2 F5) as [Pt2 _].
  assert (HS : sound_branch (mapBlockIndex s2) (entries s2) t2).
  { intros q Hq. split; [|now apply F7]. destruct (failed (entries s2 q)) eqn:E; [|reflexivity]. exfalso. apply N2. apply (anc_trans _ p q t2); [now apply F8 | exact Hq]. }
  assert (HC : forall q, ptr (mapBlockIndex s2) q -> cond s2 q = true <-> failed (entries s2 q) = false /\ nChainTx (entries s2 q) <> 0 /\ ~ worse addr (mapBlockIndex s2) (entries s2) q t2).
  { intros q Pq. unfold cond, worse_than_tip. rewrite F5, !andb_true_iff, !negb_true_iff, Z.eqb_neq, (comparator_false addr s2 F1' q t2 Pq Pt2).
    unfold IsValid. fold (failed (entries s2 q)). destruct (failed (entries s2 q)); [split; [intros [[]]; discriminate | intros []; discriminate]|]. split; [tauto|]. intros (_ & Hn & Hw). ands; auto.
    assert (stored (entries s2 q) = true) as Hd by (destruct (stored (entries s2 q)) eqn:E; [reflexivity|]; exfalso; apply Hn, (eo_linked _ _ F3 q Pq); exists q; split; [apply anc_refl | exact E]).
    change BLOCK_VALID_TRANSACTIONS with 3. destruct (eo_tx _ _ F3 q Pq) as (_ & H1 & H2). apply H1, H2 in Hd. lia. }
  assert (I' : Inv (with_candidates s2 c) t2 t2).
  { constructor; auto; [apply worse_irrefl|]. constructor; intros q Hq; [|intros X1 X2 X3; apply HX; right; split; [now apply pointers_in | now apply HC]].
    apply HX in Hq as [Hq|[Hq Hc]]; [now apply F10|]. apply pointers_in in Hq. apply HC in Hc as (_ & X1 & X2); [now ands | exact Hq]. }
  eexists _, t2. split; [reflexivity|]. unfold InvalidChainFound. change (mapBlockIndex s1) with (mapBlockIndex s) in M2.
  ands; [destruct (better_invalid _ p); [now apply Inv_best_invalid | exact I'] | destruct (better_invalid _ p); exact M2 | now rewrite <- M2 | destruct (better_invalid _ p); exact R2 |].
  intros q Hq. change (mapBlockIndex s1) with (mapBlockIndex s) in O2. transitivity (entries s2 q); [destruct (better_invalid _ p); reflexivity|]. rewrite (O2 q Hq). cbn.
  destruct (Nat.eqb_spec q p) as [->|]; [exfalso; apply Hq, anc_refl | reflexivity].
Qed.

(** ** [ReconsiderBlock] *)

Definition in_subtree (m : index) (p q : nat) : bool := eq_ptr (GetAncestor m q (nHeight (at_ m p))) (Some p).

Lemma in_subtree_spec (m : index) (T : tree_ok m) p q : ptr m p -> ptr m q -> in_subtree m p q = true <-> anc m p q.
Proof using.
  clear addr_inj addr LC. intros Hp Hq. pose proof (proj1 (deref_at m q) Hq) as D. pose proof (height_nonneg m T p Hp). unfold in_subtree.
  rewrite eq_ptr_true, (GetAncestor_spec m q _ _ (tree_wf m T) D). destruct (Z.leb_spec 0 (nHeight (at_ m p))); [|lia]. split.
  - destruct (_ <=? _); [|discriminate]. cbn [andb]. intros E. eexists. exact E.
  - intros Ha. destruct (anc_facts m T p q Hq Ha) as (_ & _ & _ & Hle & _). destruct (Z.leb_spec (nHeight (at_ m p)) (nHeight (at_ m q))); [|lia]. cbn [andb].
    destruct Ha as [k Hk]. destruct (up_height m (tree_wf m T) (Z.to_nat (nHeight (at_ m q) - nHeight (at_ m p))) q _ D ltac:(lia)) as (u & b & U & Du & Hu).
    destruct (deref_ptr _ _ _ Du) as [Pu <-]. rewrite U. f_equal. assert (Hau : anc m u q) by (eexists; exact U).
    destruct (anc_linear m u p q Hau (ex_intro _ k Hk)) as [Hx|Hx]; [destruct (anc_facts m T u p Hp Hx) as (_ & _ & _ & _ & HS) | destruct (anc_facts m T p u Pu Hx) as (_ & _ & _ & _ & HS)];
      destruct (Nat.eq_dec u p) as [|Hne]; try assumption; exfalso; [destruct (HS Hne) | destruct (HS ltac:(congruence))]; lia.
Qed.

(** The entry of [q] after the loop has come to it. *)
Definition reset (s : st) (p q : nat) : bool := negb (IsValid BLOCK_VALID_TRANSACTIONS (entries s q)) && in_subtree (mapBlockIndex s) p q.
Definition reset_entry (s : st) (p q : nat) : block_state := if reset s p q then unmark BLOCK_FAILED_MASK (entries s q) else entries s q.
Definition reinstated (s : st) (p q : nat) : bool :=
  reset s p q && IsValid BLOCK_VALID_TRANSACTIONS (reset_entry s p q) && negb (nChainTx (entries s q) =? 0) && better_than_tip addr s q.

Record reconsidered (s s' : st) (p : nat) (l : list nat) : Prop := {
  rc_index : mapBlockIndex s' = mapBlockIndex s;
  rc_active : chainActive s' = chainActive s;
  rc_unlinked : mapBlocksUnlinked s' = mapBlocksUnlinked s;
  rc_client : client s' = client s;
  rc_entries : forall q, entries s' q = if existsb (Nat.eqb q) l then reset_entry s p q else entries s q;
  rc_candidates : forall q, q ∈ setBlockIndexCandidates s' <-> q ∈ setBlockIndexCandidates s \/ In q l /\ reinstated s p q = true
}.

Lemma reset_entry_fields (s : st) p q : nTx (reset_entry s p q) = nTx (entries s q) /\ nChainTx (reset_entry s p q) = nChainTx (entries s q) /\ nSequenceId (reset_entry s p q) = nSequenceId (entries s q).
Proof. unfold reset_entry. destruct (reset s p q); ands; reflexivity. Qed.

(** One entry. *)
Lemma reconsider_entry_spec (s s' : st) p l x : reconsidered s s' p l -> ~ In x l -> reconsidered s (reconsider_entry addr p s' x) p (x :: l).
Proof.
  intros [R1 R2 R3 R4 R5 R6] Hx. assert (EX : entries s' x = entries s x).
  { rewrite R5. destruct (existsb (Nat.eqb x) l) eqn:E; [|reflexivity]. apply existsb_exists in E as (y & Hy & E). apply Nat.eqb_eq in E. now subst y. }
  assert (ES : forall q, nSequenceId (entries s' q) = nSequenceId (entries s q)) by (intros q; rewrite R5; destruct (existsb _ l); [apply reset_entry_fields | reflexivity]).
  unfold reconsider_entry, height. rewrite R1, EX. fold (in_subtree (mapBlockIndex s) p x). fold (reset s p x). destruct (reset s p x) eqn:HR.
  - set (s1 := update_entry s' x _). assert (E1 : entries s1 x = reset_entry s p x) by (cbn; rewrite Nat.eqb_refl, EX; unfold reset_entry; now rewrite HR).
    assert (EB : better_than_tip addr s1 x = better_than_tip addr s x).
    { unfold better_than_tip. change (tip s1) with (tip s'). unfold tip. rewrite R2. destruct (Tip (chainActive s)) as [t|]; [|reflexivity].
      unfold CBlockIndexWorkComparator, work. change (mapBlockIndex s1) with (mapBlockIndex s'). rewrite R1.
      assert (EQ : forall q, nSequenceId (entries s1 q) = nSequenceId (entries s q)).
      { intros q. rewrite <- ES. unfold s1. cbn. destruct (Nat.eqb_spec q x) as [->|]; reflexivity. }
      now rewrite !EQ. }
    rewrite EB, E1. set (s2 := if _ && _ && _ then _ else _).
    assert (HC : forall q, q ∈ setBlockIndexCandidates s2 <-> q ∈ setBlockIndexCandidates s' \/ q = x /\ reinstated s p x = true).
    { intros q. unfold s2, reinstated. destruct (reset_entry_fields s p x) as (_ & EN & _). rewrite HR, EN. cbn [andb].
      destruct (IsValid BLOCK_VALID_TRANSACTIONS (reset_entry s p x) && negb (nChainTx (entries s x) =? 0) && better_than_tip addr s x).
      - change (setBlockIndexCandidates (insert_candidate s1 x)) with ({[ x ]} ∪ setBlockIndexCandidates s'). rewrite elem_of_union, elem_of_singleton. tauto.
      - change (setBlockIndexCandidates s1) with (setBlockIndexCandidates s'). split; [now left | intros [|[_ E]]; [assumption | discriminate]]. }
    assert (F2 : mapBlockIndex s2 = mapBlockIndex s /\ chainActive s2 = chainActive s /\ mapBlocksUnlinked s2 = mapBlocksUnlinked s /\ client s2 = client s /\ entries s2 = entries s1)
      by (unfold s2; destruct (_ && _); ands; try reflexivity; assumption).
    set (s3 := if eq_ptr _ _ then _ else s2). assert (E3 : entries s3 = entries s1 /\ setBlockIndexCandidates s3 = setBlockIndexCandidates s2) by (unfold s3; destruct (eq_ptr _ _); split; try reflexivity; apply F2).
    destruct F2 as (F21 & F22 & F23 & F24 & F25). destruct E3 as [E31 E32].
    constructor; try (unfold s3; destruct (eq_ptr _ _); assumption).
    + intros q. rewrite E31. cbn [existsb]. destruct (Nat.eqb_spec q x) as [->|Hq]; [exact E1|]. cbn [orb]. rewrite <- R5. unfold s1. cbn. now destruct (Nat.eqb_spec q x).
    + intros q. rewrite E32, HC, R6. cbn [In]. split; [intros [[]|[-> ]]; auto; tauto | intros [|[[<-|] H1]]; tauto].
  - constructor; auto.
    + intros q. cbn [existsb]. destruct (Nat.eqb_spec q x) as [->|Hq]; [|apply R5]. cbn [orb]. rewrite EX. unfold reset_entry. now rewrite HR.
    + intros q. rewrite R6. cbn [In]. split; [intros [|[]]; auto | intros [|[[<-|] H1]]; auto]. unfold reinstated in H1. rewrite HR in H1. discriminate.
Qed.

Lemma reconsider_fold (s : st) p : forall l s' done, reconsidered s s' p done -> List.NoDup l -> (forall x, In x l -> ~ In x done) ->
  exists all, reconsidered s (fold_left (reconsider_entry addr p) l s') p all /\ forall x, In x all <-> In x l \/ In x done.
Proof.
  induction l as [|x l IH]; intros s' done R ND HD; cbn [fold_left]; [exists done; split; [exact R | cbn; tauto]|]. inversion ND as [|? ? Hx NL]; subst.
  destruct (IH _ (x :: done) (reconsider_entry_spec s s' p done x R (HD x ltac:(now left))) NL) as (all & R' & HA).
  - intros y Hy [->|Hd]; [contradiction | exact (HD y (or_intror Hy) Hd)].
  - exists all. split; [exact R'|]. intros y. rewrite HA. cbn [In]. tauto.
Qed.

Lemma clear_ancestors_id : forall fuel (s : st) p, ptr (mapBlockIndex s) p -> tree_ok (mapBlockIndex s) -> (forall q, anc (mapBlockIndex s) q p -> failed (entries s q) = false) ->
  clear_ancestors fuel s (Some p) = s.
Proof.
  clear addr_inj addr LC. induction fuel as [|fuel IH]; intros s p Hp T HF; [reflexivity|]. cbn [clear_ancestors]. fold (failed (entries s p)). rewrite (HF p (anc_refl _ p)).
  unfold prev. fold (par (mapBlockIndex s) p). destruct (par (mapBlockIndex s) p) as [q|] eqn:Eq; [|now destruct fuel].
  apply IH; [apply (par_spec _ T p q Hp Eq) | exact T|]. intros r Hr. apply HF. now apply (anc_up _ r p q).
Qed.

(** What the reset does to the marks. *)
Lemma reset_spec (s : st) t p q : Inv s t t -> ptr (mapBlockIndex s) p -> ptr (mapBlockIndex s) q ->
  status_ok (reset_entry s p q) /\ stored (reset_entry s p q) = stored (entries s q) /\ level (reset_entry s p q) = level (entries s q) /\
  (anc (mapBlockIndex s) p q -> failed (reset_entry s p q) = false) /\ (~ anc (mapBlockIndex s) p q -> reset_entry s p q = entries s q) /\
  (failed (reset_entry s p q) = true -> failed (entries s q) = true).
Proof.
  intros I Pp Pq. pose proof (inv_tree _ _ _ _ I) as T. pose proof (in_subtree_spec _ T p q Pp Pq) as HS.
  pose proof (eo_status _ _ (inv_entries _ _ _ _ I) q Pq) as Hb. destruct (unmark_spec (entries s q) Hb) as (U1 & U2 & U3 & U4 & U5).
  unfold reset_entry. destruct (reset s p q) eqn:HR; unfold reset in HR.
  - apply andb_true_iff in HR as [_ HR]. ands; auto; [intros Hn; exfalso; now apply Hn, HS | unfold failed at 1; rewrite U3; discriminate].
  - ands; auto. intros Ha. apply HS in Ha. rewrite Ha, andb_true_r in HR. apply negb_false_iff in HR. unfold IsValid in HR. fold (failed (entries s q)) in HR. now destruct (failed (entries s q)).
Qed.

Lemma reconsidered_entries (s : st) t p E' : Inv s t t -> ptr (mapBlockIndex s) p -> keeps (entries s) E' ->
  (forall q, ptr (mapBlockIndex s) q -> E' q = reset_entry s p q) -> entries_ok (mapBlockIndex s) E'.
Proof.
  intros I Pp K HE. pose proof (inv_tree _ _ _ _ I) as T. pose proof (inv_entries _ _ _ _ I) as O. pose proof (fun q => reset_spec s t p q I Pp) as RS.
  apply (entries_restatus _ _ E' O); auto.
  - intros q Pq. rewrite (HE q Pq). split; apply (RS q Pq).
  - intros q Pq. left. rewrite (HE q Pq). apply (RS q Pq).
  - intros a b Pa Hab Hb. destruct (par_spec _ T a b Pa Hab) as (Pb & _). rewrite (HE a Pa), (HE b Pb). destruct (RS a Pa) as (_ & _ & -> & _), (RS b Pb) as (_ & _ & -> & _). now apply (eo_levels _ _ O).
  - intros q Pq. rewrite (HE q Pq). destruct (RS q Pq) as (_ & _ & _ & R4 & _ & R6). intros Hf.
    destruct (eo_flags _ _ O q Pq (R6 Hf)) as (r & Hr & Hd). exists r. split; [exact Hr|]. destruct (anc_facts _ T r q Pq Hr) as (Pr & _). rewrite (HE r Pr).
    destruct (RS r Pr) as (_ & _ & _ & _ & -> & _); [exact Hd|]. intros Ha. rewrite R4 in Hf; [discriminate | now apply (anc_trans _ p r q)].
Qed.

Lemma reinstated_spec (s : st) t p q : Inv s t t -> ptr (mapBlockIndex s) p -> ptr (mapBlockIndex s) q -> nChainTx (entries s q) <> 0 ->
  failed (entries s q) = true -> failed (reset_entry s p q) = false -> worse addr (mapBlockIndex s) (entries s) t q -> reinstated s p q = true.
Proof.
  intros I Pp Pq Nq Fq Hf Hw. pose proof (inv_tree _ _ _ _ I) as T. destruct (reset_spec s t p q I Pp Pq) as (_ & _ & L & _).
  unfold reinstated, better_than_tip. rewrite (inv_tip _ _ _ _ I). apply (comparator_spec addr s T t q (inv_ptr _ _ _ _ I) Pq) in Hw. rewrite Hw, andb_true_r.
  assert (HR : reset s p q = true) by (unfold reset_entry in Hf; destruct (reset s p q); [reflexivity | congruence]). rewrite HR. cbn [andb].
  apply andb_true_iff. split; [|apply negb_true_iff; now apply Z.eqb_neq]. unfold IsValid. fold (failed (reset_entry s p q)). rewrite Hf, L. change BLOCK_VALID_TRANSACTIONS with 3.
  destruct (eo_tx _ _ (inv_entries _ _ _ _ I) q Pq) as (_ & H1 & H2).
  assert (stored (entries s q) = true) as Hd by (destruct (stored (entries s q)) eqn:E; [reflexivity|]; exfalso; apply Nq, (eo_linked _ _ (inv_entries _ _ _ _ I) q Pq); exists q; split; [apply anc_refl | exact E]).
  apply H1, H2 in Hd. lia.
Qed.

Lemma ReconsiderBlock_spec (s : st) t p : Inv s t t -> ptr (mapBlockIndex s) p -> (forall q, anc (mapBlockIndex s) q p -> q <> p -> failed (entries s q) = false) ->
  Inv (ReconsiderBlock addr s p) t t /\ mapBlockIndex (ReconsiderBlock addr s p) = mapBlockIndex s /\
  forall q, ptr (mapBlockIndex s) q -> anc (mapBlockIndex s) p q -> failed (entries (ReconsiderBlock addr s p) q) = false.
Proof.
  intros I Pp HA. pose proof (inv_tree _ _ _ _ I) as T. unfold ReconsiderBlock. set (s' := fold_left _ _ s).
  destruct (reconsider_fold s p (pointers s) s []) as (all & R & Hall); [constructor; auto; intros q; cbn; tauto | unfold pointers; apply seq_NoDup | intros x _ []|].
  fold s' in R. destruct R as [R1 R2 R3 R4 R5 R6].
  assert (HE : forall q, ptr (mapBlockIndex s) q -> entries s' q = reset_entry s p q).
  { intros q Pq. rewrite R5. destruct (existsb (Nat.eqb q) all) eqn:E; [reflexivity|]. exfalso. rewrite (proj2 (existsb_exists _ _)) in E; [discriminate|].
    exists q. split; [apply Hall; left; now apply pointers_in | apply Nat.eqb_refl]. }
  assert (K : keeps (entries s) (entries s')) by (intros q; rewrite R5; destruct (existsb _ all); [apply reset_entry_fields | ands; reflexivity]).
  pose proof (fun q => reset_spec s t p q I Pp) as RS. pose proof (inv_ptr _ _ _ _ I) as Pt.
  assert (HF : forall q, ptr (mapBlockIndex s) q -> failed (entries s q) = false -> failed (entries s' q) = false).
  { intros q Pq Hq. rewrite (HE q Pq). destruct (RS q Pq) as (_ & _ & _ & _ & _ & R). destruct (failed (reset_entry s p q)); [rewrite R in Hq by reflexivity; discriminate | reflexivity]. }
  assert (I' : Inv s' t t).
  { destruct (inv_candidates _ _ _ _ I) as [C1 C2]. destruct (inv_unlinked _ _ _ _ I) as [U1 U2].
    assert (HB : sound_branch (mapBlockIndex s) (entries s') t) by (intros q Hq; destruct (inv_branch _ _ _ _ I q Hq) as [X1 X2]; split; [apply HF; [apply (anc_facts _ T q t Pt Hq) | exact X1] | exact X2]).
    constructor; unfold tip; rewrite ?R1, ?R2, ?R3, ?R4; try apply I; auto using worse_irrefl.
    - now apply (reconsidered_entries s t p).
    - destruct (K t) as (_ & -> & _). apply I.
    - intros q Hq Hn. destruct (anc_facts _ T q t Pt Hq) as (Pq & _). rewrite (HE q Pq). destruct (RS q Pq) as (_ & _ & -> & _). now apply (inv_scripts _ _ _ _ I).
    - ands; [exact Pt | destruct (K t) as (_ & -> & _); apply I | exact HB].
    - constructor; intros q Hq; rewrite (keeps_worse addr _ _ _ q t K); destruct (K q) as (_ & EN & _); rewrite EN.
      + apply R6 in Hq as [Hq|[Hq Hr]]; [now apply C1|]. apply Hall in Hq as [Hq|[]]. apply pointers_in in Hq. unfold reinstated, better_than_tip in Hr.
        rewrite (inv_tip _ _ _ _ I), !andb_true_iff, negb_true_iff, Z.eqb_neq in Hr. destruct Hr as [[[_ _] Hn] Hw]. apply (comparator_spec addr s T t q Pt Hq) in Hw. ands; [exact Hq | exact Hn|].
        intros Hw'. apply (worse_irrefl addr (mapBlockIndex s) (entries s) t). now apply (worse_trans _ _ _ _ q).
      + intros Nq Fq Hw. apply R6. destruct (failed (entries s q)) eqn:F; [|left; now apply C2]. rewrite (HE q Hq) in Fq. right. split; [apply Hall; left; now apply pointers_in|].
        destruct (Nat.eq_dec q t) as [->|Hne]; [destruct (inv_branch _ _ _ _ I t (anc_refl _ t)); congruence|]. apply (reinstated_spec s t p q); auto.
        destruct (worse_total addr (mapBlockIndex s) (entries s) q t addr_inj Hne); [contradiction | assumption].
    - constructor; [|exact U2]. intros a b. rewrite (U1 a b). destruct (K b) as (_ & -> & _).
      split; intros (Pb & X); (split; [exact Pb|]); rewrite (HE b Pb) in *; destruct (RS b Pb) as (_ & E3 & _); first [rewrite E3 | rewrite <- E3]; exact X. }
  assert (HX : forall q, ptr (mapBlockIndex s) q -> anc (mapBlockIndex s) p q -> failed (entries s' q) = false) by (intros q Pq Hq; rewrite (HE q Pq); now apply (RS q Pq)).
  rewrite clear_ancestors_id; [now ands | now rewrite R1 | now rewrite R1|].
  rewrite R1. intros q Hq. destruct (anc_facts _ T q p Pp Hq) as (Pq & _). destruct (Nat.eq_dec q p) as [->|Hne]; [now apply HX, anc_refl | now apply HF, HA].
Qed.
End Judge.
End BlockTreeJudge.
