(* ===== verification/BlockTreeReach.v ===== *)
(** The states the tree of blocks can reach: the first block
    ([InitBlockIndex]), the steps of the node and the theorems on every
    reachable state, with runs on a small tree. *)
From stdpp Require Import base list gmap fin_maps fin_sets.
From S2P Require Import Prelude BaseUint Uint256 Params Chain Pow Kernel BlockTree BlockTreeInv BlockTreeOps BestChain BlockTreeSteps BlockTreeJudge.

Module BlockTreeReach.
Import BaseUint Uint256 Chain BlockTree BlockTreeInv BlockTreeOps BestChain BlockTreeSteps BlockTreeJudge.

Lemma CompareTo_refl a : CompareTo a a = 0.
Proof. unfold CompareTo. induction (rev a) as [|x l IH]; [reflexivity|]. cbn [compare_loop]. now rewrite !Z.ltb_irrefl. Qed.

Section Start.
Variable addr : nat -> Z.
Context {C : Type} `{ChainClient C}.

(** The globals before the first block. *)
Definition empty_state (c : C) : chainstate := mkState [] (fun _ => block_state_null) [] ∅ [] None None 1 c.

(** [InitBlockIndex] on an empty database. *)
Definition InitBlockIndex (c : C) (hash : base_uint) (time bits flags vtx_size : Z) : option (chainstate * bool) :=
  match AddToBlockIndex (empty_state c) hash (uint256 0) time bits flags with
  | Some (s, p) =>
      match ReceivedBlockTransactions addr s p vtx_size with
      | Some s => ActivateBestChain addr (enough s) s
      | None => None
      end
  | None => None
  end.
End Start.

Section Reach.
Variable addr : nat -> Z.
Hypothesis addr_inj : forall a b, addr a = addr b -> a = b.
Context {C : Type} `{LC : LawfulClient C}.

Abbreviation st := (chainstate (C := C)).
Abbreviation Inv := (Inv addr (C := C)).

(** A genesis block the node can start with. *)
Record genesis_ok (c : C) (hash : base_uint) (bits vtx_size : Z) : Prop := {
  go_client : stands_for c None;
  go_parents : parents 0%nat = None;
  go_valid : valid 0%nat = true;
  go_work : exists proof w, Pow.GetBlockProof bits = Some proof /\ u256 proof w;
  go_size : 0 < vtx_size < 2 ^ 32
}.

Definition genesis_entry (hash : base_uint) (time bits flags : Z) (proof : base_uint) : CBlockIndex :=
  mkIndex hash None None 0 time bits flags 0 (op_add (uint256 0) proof).

Lemma genesis_received (c : C) hash time bits flags n proof : Pow.GetBlockProof bits = Some proof ->
  exists s E, AddToBlockIndex (empty_state c) hash (uint256 0) time bits flags = Some (s, 0%nat) /\
    ReceivedBlockTransactions addr s 0 n = Some (mkState [genesis_entry hash time bits flags proof] E [] {[ 0%nat ]} [] None (Some 0%nat) 2 c) /\
    E 0%nat = mkBlockState 11 (T32 n) (T32 (0 + T32 n)) 1.
Proof.
  intros HB. unfold AddToBlockIndex. change (Kernel.find_block (mapBlockIndex (empty_state c)) hash) with (@None nat). rewrite HB.
  change (Kernel.find_block (mapBlockIndex (empty_state c)) (uint256 0)) with (@None nat). cbv beta iota.
  eexists _, _. split; [reflexivity|]. split.
  - unfold ReceivedBlockTransactions. cbn -[union singleton T32]. unfold link_block. cbn -[union singleton T32].
    reflexivity.
  - reflexivity.
Qed.

Lemma genesis_active (c : C) hash bits n h time bits' flags m wk E : genesis_ok c hash bits n -> E 0%nat = mkBlockState 11 n n 1 ->
  let e := mkIndex h None None 0 time bits' flags m wk in
  let s := mkState [e] E [] {[ 0%nat ]} [] None (Some 0%nat) 2 c in
  exists c', ActivateBestChain addr (enough s) s = Some (mkState [e] E [Some 0%nat] {[ 0%nat ]} [] None (Some 0%nat) 2 c', true) /\ stands_for c' (Some 0%nat).
Proof.
  intros [G1 G2 G3 _ G5] EE e s. pose proof (connect_law c 0%nat ltac:(rewrite G2; exact G1)) as HL. rewrite G2, G3 in HL.
  assert (HC : ConnectBlock c 0%nat = (fst (ConnectBlock c 0%nat), Connected) /\ stands_for (fst (ConnectBlock c 0%nat)) (Some 0%nat)).
  { destruct (ConnectBlock c 0%nat) as [c' [|corruption undo|undo]]; cbn; [split; [reflexivity | tauto] | destruct HL; discriminate | contradiction]. }
  destruct HC as [EC HC]. set (c' := fst (ConnectBlock c 0%nat)) in *. exists c'. split; [|exact HC].
  assert (ET : test_path 1 s (Some 0%nat) = Connects).
  { cbn [test_path]. change (Contains (mapBlockIndex s) (chainActive s) 0) with false. cbn iota. change (entries s 0%nat) with (E 0%nat). rewrite EE. cbn [nChainTx].
    destruct (Z.eqb_spec n 0); [lia | reflexivity]. }
  assert (EM : FindMostWorkChain addr s = Some (s, Some 0%nat)).
  { unfold FindMostWorkChain. change (size (setBlockIndexCandidates s)) with 1%nat. cbn [FindMostWorkChain_loop]. change (best_candidate addr s) with (Some 0%nat). cbn iota beta.
    change (S (Z.to_nat (height s 0))) with 1%nat. now rewrite ET. }
  set (s' := mkState [e] E [Some 0%nat] {[ 0%nat ]} [] None (Some 0%nat) 2 c').
  assert (ETip : ConnectTip s 0 = Some (s', TipConnected)) by (unfold ConnectTip; cbn -[ConnectBlock]; now rewrite EC).
  assert (EP : PruneBlockIndexCandidates addr s' = Some s').
  { unfold PruneBlockIndexCandidates. change (tip s') with (Some 0%nat). cbn iota. assert (EF : base.filter (fun p => CBlockIndexWorkComparator addr s' p 0 = false) ({[ 0%nat ]} : gset nat) = {[ 0%nat ]}).
    { apply leibniz_equiv. intros x. rewrite elem_of_filter, elem_of_singleton. split; [tauto|]. intros ->. split; [|reflexivity].
      unfold CBlockIndexWorkComparator. destruct (op_gt _ _); [reflexivity|].
      destruct (op_lt _ _) eqn:EL; [exfalso; revert EL; unfold op_lt; rewrite CompareTo_refl; discriminate|]. now rewrite Z.ltb_irrefl, Z.gtb_ltb, Z.ltb_irrefl, Z.ltb_irrefl, Z.gtb_ltb, Z.ltb_irrefl. }
    change (setBlockIndexCandidates s') with ({[ 0%nat ]} : gset nat). rewrite EF. reflexivity. }
  change (enough s) with 4%nat. cbn [ActivateBestChain]. rewrite running_law, EM. cbn -[ActivateBestChainStep].
  assert (EA : ActivateBestChainStep addr s 0 = Some (s', true)).
  { unfold ActivateBestChainStep. change (disconnect_to _ s _) with (Some (s, true)). cbn iota. cbn [tip s chainActive Tip].
    change (FindFork _ _ 0) with (@None nat). change (height s 0) with 0. cbn iota.
    change (connect_chunks addr (Z.to_nat (0 + 2)) s None 0 (-1)) with
      (match connect_list addr None 0 [0%nat] s with Some (s0, Continue) => connect_chunks addr 1 s0 None 0 0 | r => r end).
    cbn [connect_list]. rewrite ETip, EP. reflexivity. }
  rewrite EA. reflexivity.
Qed.

(** ** The invariant at the start *)

Lemma ptr_one (e : CBlockIndex) p : ptr [e] p <-> p = 0%nat.
Proof using. unfold ptr. cbn. lia. Qed.

Lemma genesis_inv (c0 c : C) hash bits n h time bits' flags m wk E : genesis_ok c0 hash bits n -> E 0%nat = mkBlockState 11 n n 1 ->
  limbs wk -> length wk = WIDTH -> stands_for c (Some 0%nat) ->
  Inv (mkState [mkIndex h None None 0 time bits' flags m wk] E [Some 0%nat] {[ 0%nat ]} [] None (Some 0%nat) 2 c) 0 0.
Proof.
  intros [_ G2 G3 _ G5] EE HL HW HC. set (e := mkIndex _ _ _ _ _ _ _ _ _). set (s := mkState _ _ _ _ _ _ _ _ _).
  assert (HA : forall q, anc [e] q 0%nat -> q = 0%nat) by (intros q Ha; destruct (anc_cases [e] q 0 ltac:(now apply ptr_one) Ha) as [|(r & Hr & _)]; [assumption | discriminate]).
  assert (T : tree_ok [e]).
  { constructor.
    - intros p b Hp. apply deref_ptr in Hp as [Hp <-]. apply ptr_one in Hp. subst p. split; reflexivity || (cbn; lia).
    - intros p Hp. apply ptr_one in Hp. subst p. split; reflexivity.
    - intros p q Hp. apply ptr_one in Hp. subst p. discriminate.
    - intros p Hp. apply ptr_one in Hp. subst p. now split.
    - intros p q Hp. apply ptr_one in Hp. subst p. discriminate. }
  assert (O : entries_ok [e] E).
  { constructor; intros p; try (intros q Hp; apply ptr_one in Hp; subst p); try (intros Hp; apply ptr_one in Hp; subst p); rewrite ?EE; cbn [nStatus nTx nChainTx nSequenceId].
    - unfold status_ok. cbn [nStatus]. lia.
    - change (stored (mkBlockState 11 n n 1)) with true. change (level (mkBlockState 11 n n 1)) with 3. split; [lia|]. split; split; intros; try reflexivity; lia.
    - right. now left.
    - discriminate.
    - split; [lia|]. intros (q & Hq & Hd). apply HA in Hq. subst q. rewrite EE in Hd. discriminate.
    - intros _. unfold branch_txs. change (Z.to_nat (nHeight (at_ [e] 0))) with 0%nat. cbn [sum_up]. rewrite EE. cbn. lia.
    - lia.
    - discriminate. }
  assert (B : sound_branch [e] E 0) by (intros q Hq; apply HA in Hq; subst q; rewrite EE; now split).
  constructor; auto; cbn [mapBlockIndex s entries chainActive setBlockIndexCandidates mapBlocksUnlinked client].
  - intros p Hp. apply ptr_one in Hp. subst p. now rewrite G2.
  - intros i Hi. cbn in Hi. replace i with 0%nat by lia. exists 0%nat, e. ands; reflexivity.
  - rewrite EE. cbn. lia.
  - intros p Hp. apply HA in Hp. subst p. intros Hx. now destruct Hx.
  - ands; [now apply ptr_one | rewrite EE; cbn; lia | exact B].
  - apply worse_irrefl.
  - constructor; intros p Hp.
    + apply elem_of_singleton in Hp. subst p. rewrite EE. ands; [now apply ptr_one | cbn; lia | apply worse_irrefl].
    + apply ptr_one in Hp. subst p. intros _ _ _. now apply elem_of_singleton.
  - constructor; [|constructor]. intros a b. split; [intros [] | intros (Pb & Hx & _)]. apply ptr_one in Pb. subst b. discriminate.
Qed.

Lemma InitBlockIndex_spec (c : C) hash time bits flags n : genesis_ok c hash bits n ->
  exists s, InitBlockIndex addr c hash time bits flags n = Some (s, true) /\ Inv s 0 0 /\ GetBlockHash (at_ (mapBlockIndex s) 0) = hash.
Proof.
  intros G. pose proof G as [_ _ _ (proof & w & G4 & G5) G6]. destruct (genesis_received c hash time bits flags n proof G4) as (s & E & A & R & EE).
  unfold InitBlockIndex. rewrite A, R. unfold genesis_entry. rewrite T32_id in EE by (unfold u32; lia). rewrite (Z.add_0_l n), T32_id in EE by (unfold u32; lia).
  destruct (genesis_active c hash bits n hash time bits flags 0 (op_add (uint256 0) proof) E G EE) as (c' & -> & HC).
  eexists. split; [reflexivity|]. split; [|reflexivity]. destruct (u256_add (uint256 0) proof 0 w (u256_uint256 0 ltac:(unfold u64; lia)) G5) as (U1 & U2 & _).
  now apply (genesis_inv c c' hash bits n).
Qed.

(** ** Reachable states *)

Inductive reachable (hashGenesisBlock : base_uint) : st -> Prop :=
| reach_start c time bits flags n s :
    genesis_ok c hashGenesisBlock bits n -> InitBlockIndex addr c hashGenesisBlock time bits flags n = Some (s, true) -> reachable hashGenesisBlock s
| reach_header s hash hashPrevBlock time bits flags q s' p :
    reachable hashGenesisBlock s -> new_header s hash hashPrevBlock bits q ->
    AddToBlockIndex s hash hashPrevBlock time bits flags = Some (s', p) -> reachable hashGenesisBlock s'
| reach_data s p n s' :
    reachable hashGenesisBlock s -> new_data s p n -> ReceivedBlockTransactions addr s p n = Some s' -> reachable hashGenesisBlock s'
| reach_reject s p :
    reachable hashGenesisBlock s -> ptr (mapBlockIndex s) p -> stored (entries s p) = false -> reachable hashGenesisBlock (reject_block s p)
| reach_activate s s' ok :
    reachable hashGenesisBlock s -> ActivateBestChain addr (enough s) s = Some (s', ok) -> reachable hashGenesisBlock s'
| reach_invalidate s p s' ok :
    reachable hashGenesisBlock s -> ptr (mapBlockIndex s) p -> par (mapBlockIndex s) p <> None -> InvalidateBlock addr s p = Some (s', ok) -> reachable hashGenesisBlock s'
| reach_reconsider s p :
    reachable hashGenesisBlock s -> ptr (mapBlockIndex s) p -> (forall q, anc (mapBlockIndex s) q p -> q <> p -> failed (entries s q) = false) ->
    reachable hashGenesisBlock (ReconsiderBlock addr s p).

Lemma reachable_inv g s : reachable g s -> (exists t, Inv s t t) /\ GetBlockHash (at_ (mapBlockIndex s) 0) = g.
Proof.
  induction 1 as [c time bits flags n s G E | s hash hashPrevBlock time bits flags q s' p _ [[t I] HG] HN E | s p n s' _ [[t I] HG] HD E
    | s p _ [[t I] HG] Pp Hs | s s' ok _ [[t I] HG] E | s p s' ok _ [[t I] HG] Pp Np E | s p _ [[t I] HG] Pp HA].
  - destruct (InitBlockIndex_spec c g time bits flags n G) as (s0 & E0 & I0 & H0). rewrite E0 in E. injection E as <-. split; [now exists 0%nat | exact H0].
  - destruct (AddToBlockIndex_spec addr s t hash hashPrevBlock time bits flags q I HN) as (s1 & e & E1 & I1 & M1 & _). rewrite E1 in E. injection E as <- <-.
    split; [now exists t|]. rewrite M1, at_old; [exact HG|]. pose proof (inv_ptr _ _ _ _ I). unfold ptr in *. lia.
  - destruct (ReceivedBlockTransactions_spec addr s t p n I HD) as (s1 & E1 & I1 & M1 & _). rewrite E1 in E. injection E as <-. split; [now exists t | now rewrite M1].
  - split; [exists t; now apply reject_block_spec | exact HG].
  - destruct (ActivateBestChain_ends addr addr_inj (enough s) s t t I (turns_enough s t)) as (s1 & t1 & E1 & I1 & P1 & _). rewrite E1 in E. injection E as <- <-.
    split; [now exists t1 | now rewrite (pr_index _ _ P1)].
  - destruct (InvalidateBlock_spec addr s t p I Pp Np) as (s1 & t1 & E1 & I1 & M1 & _ & _). rewrite E1 in E. injection E as <- <-. split; [now exists t1 | now rewrite M1].
  - destruct (ReconsiderBlock_spec addr addr_inj s t p I Pp HA) as (I1 & M1 & _). split; [now exists t | now rewrite M1].
Qed.

(** ** [CheckBlockIndex] *)

Lemma first_true (s : st) f p : tree_ok (mapBlockIndex s) -> ptr (mapBlockIndex s) p -> first s f p = true <-> exists q, anc (mapBlockIndex s) q p /\ f q = true.
Proof.
  intros T Hp. unfold first. apply (any_up_true _ T); [exact Hp|]. unfold height. pose proof (height_nonneg _ T p Hp). lia.
Qed.

Lemma first_false (s : st) f p : tree_ok (mapBlockIndex s) -> ptr (mapBlockIndex s) p -> (forall q, anc (mapBlockIndex s) q p -> f q = false) -> first s f p = false.
Proof.
  intros T Hp HF. destruct (first s f p) eqn:E; [|reflexivity]. apply (first_true s f p T Hp) in E as (q & Hq & Ef). now rewrite HF in Ef.
Qed.

Lemma levels_up (m : index) E : tree_ok m -> entries_ok m E -> forall p, ptr m p -> level (E p) = 5 -> forall q, anc m q p -> par m q <> None -> level (E q) = 5.
Proof.
  intros T O p Hp. pattern p. apply (ancestor_ind m T); [|exact Hp]. clear p Hp. intros p Hp IH Hl q Hq Hn.
  destruct (anc_cases m q p Hp Hq) as [->|(r & Er & Hr)]; [exact Hl|]. destruct (par m r) eqn:E2.
  - apply (IH r Er); auto. apply (eo_levels _ _ O p r Hp Er); [congruence | exact Hl].
  - destruct (anc_cases m q r (proj1 (par_spec m T p r Hp Er)) Hr) as [->|(x & Ex & _)]; congruence.
Qed.

Lemma implb_intro a b : (a = true -> b = true) -> implb' a b = true.
Proof. unfold implb'. destruct a; [intros HX; now apply HX | reflexivity]. Qed.

Section Entry.
Variables (g : base_uint) (s : st) (t p : nat).
Hypothesis I : Inv s t t.
Hypothesis G : GetBlockHash (at_ (mapBlockIndex s) 0) = g.
Hypothesis Pp : ptr (mapBlockIndex s) p.

Abbreviation m := (mapBlockIndex s).
Abbreviation b := (entries s p).

Lemma check_genesis : implb' (eq_ptr (pprev (at_ m p)) None) (op_eq (GetBlockHash (at_ m p)) g && eq_ptr (entry (chainActive s) 0) (Some p)) = true.
Proof.
  apply implb_intro. intros E. apply eq_ptr_true in E. pose proof (inv_tree _ _ _ _ I) as T. apply (tree_root _ T p Pp) in E. subst p.
  rewrite (proj2 (op_eq_spec _ _)) by exact G. cbn [andb]. destruct (tip_nth (chainActive s) t (inv_tip _ _ _ _ I)) as [_ L].
  destruct (inv_chain _ _ _ _ I 0%nat L) as (r & e & N & D & H0 & P0). unfold entry. destruct (Z.leb_spec (Z.of_nat (length (chainActive s))) 0); [lia|].
  cbn [Z.ltb orb]. change (nth (Z.to_nat 0) (chainActive s) None) with (nth 0 (chainActive s) None). rewrite N. cbn [Z.compare orb]. apply eq_ptr_true. f_equal.
  destruct (deref_ptr _ _ _ D) as [Pr <-]. now apply (tree_root _ T r Pr).
Qed.

Lemma check_data : eqb (missing s p) (nTx b =? 0) = true /\ eqb (level b >=? BLOCK_VALID_TRANSACTIONS) (nTx b >? 0) = true /\
  implb' (nChainTx b =? 0) (nSequenceId b =? 0) = true /\ eqb (first s (missing s) p) (nChainTx b =? 0) = true.
Proof.
  pose proof (inv_tree _ _ _ _ I) as T. pose proof (inv_entries _ _ _ _ I) as O. destruct (eo_tx _ _ O p Pp) as (H0 & H1 & H2). change BLOCK_VALID_TRANSACTIONS with 3. ands.
  - unfold missing. fold (stored b). destruct (Z.eqb_spec (nTx b) 0) as [E|E]; destruct (stored b); try reflexivity; exfalso; [now apply H1 | apply H1 in E; discriminate].
  - destruct (Z.geb_spec (level b) 3), (Z.gtb_spec (nTx b) 0); try reflexivity; exfalso; lia.
  - apply implb_intro. intros E. apply Z.eqb_eq in E. apply Z.eqb_eq. now apply (eo_sequence _ _ O).
  - apply eqb_true_iff. apply eq_true_iff_eq. rewrite (first_true s _ p T Pp), Z.eqb_eq, (eo_linked _ _ O p Pp). unfold missing.
    split; intros (q & Hq & Hd); exists q; (split; [exact Hq|]); [now apply negb_true_iff in Hd | now apply negb_true_iff].
Qed.

Lemma check_position : match pprev (at_ m p) with None => nHeight (at_ m p) =? 0 | Some q => (nHeight (at_ m p) =? height s q + 1) && op_ge (nChainWork (at_ m p)) (work s q) end = true /\
  implb' (nHeight (at_ m p) >=? 2) (match pskip (at_ m p) with Some k => height s k <? nHeight (at_ m p) | None => false end) = true.
Proof.
  pose proof (inv_tree _ _ _ _ I) as T. split.
  - destruct (pprev (at_ m p)) as [q|] eqn:E; [|apply Z.eqb_eq; now apply (root_height _ T)]. destruct (par_spec _ T p q Pp E) as (Pq & _ & Hh & HW). unfold height. rewrite Hh, Z.eqb_refl. cbn [andb].
    destruct (tree_limbs _ T p Pp) as [L1 E1], (tree_limbs _ T q Pq) as [L2 E2]. rewrite op_ge_spec by (assumption || (unfold work; congruence)). apply Z.leb_le. unfold W in HW. unfold work. lia.
  - apply implb_intro. intros E. pose proof (proj1 (deref_at _ p) Pp) as D. destruct (tree_wf _ T p _ D) as [_ HS]. destruct (pprev (at_ m p)) as [q|] eqn:Eq; [|rewrite HS in E; discriminate].
    destruct HS as [_ HS]. pose proof (GetSkipHeight_bound (nHeight (at_ m p)) ltac:(lia)) as HB.
    destruct (up_height _ (tree_wf _ T) (Z.to_nat (nHeight (at_ m p) - GetSkipHeight (nHeight (at_ m p)))) p _ D ltac:(lia)) as (k & c & U & Dk & Hk).
    rewrite HS, U. destruct (deref_ptr _ _ _ Dk) as [_ <-]. unfold height. apply Z.ltb_lt. lia.
Qed.

Lemma check_levels : negb (first s (below s BLOCK_VALID_TREE) p) = true /\ implb' (level b >=? BLOCK_VALID_CHAIN) (negb (first s (below s BLOCK_VALID_CHAIN) p)) = true /\
  implb' (level b >=? BLOCK_VALID_SCRIPTS) (negb (first s (below s BLOCK_VALID_SCRIPTS) p)) = true.
Proof.
  pose proof (inv_tree _ _ _ _ I) as T. pose proof (inv_entries _ _ _ _ I) as O. change BLOCK_VALID_TREE with 2. change BLOCK_VALID_CHAIN with 4. change BLOCK_VALID_SCRIPTS with 5.
  assert (HF : forall n, n <= 5 -> (n <= 2 \/ level b = 5) -> negb (first s (below s n) p) = true).
  { intros n Hn Hl. apply negb_true_iff, first_false; auto. intros q Hq. unfold below, prev. fold (par m q). destruct (par m q) eqn:Eq; [|reflexivity]. apply Z.ltb_ge.
    destruct (anc_facts _ T q p Pp Hq) as (Pq & _). destruct Hl as [Hl|Hl]; [destruct (eo_level _ _ O q Pq) as [|[|]]; lia|].
    rewrite (levels_up _ _ T O p Pp Hl q Hq) by congruence. exact Hn. }
  ands; [apply HF; lia | |]; apply implb_intro; intros E; apply HF; try lia; right; destruct (eo_level _ _ O p Pp) as [|[|]]; lia.
Qed.

Lemma first_invalid : first s (invalid s) p = false -> failed b = false.
Proof.
  intros E. destruct (failed b) eqn:F; [|reflexivity]. destruct (eo_flags _ _ (inv_entries _ _ _ _ I) p Pp F) as (q & Hq & Hd).
  assert (first s (invalid s) p = true) by (apply first_true; [apply I | exact Pp | now exists q]). congruence.
Qed.

Lemma check_candidate :
  (if negb (worse_than_tip addr s p) && negb (first s (missing s) p)
   then implb' (negb (first s (invalid s) p)) (bool_decide (p ∈ setBlockIndexCandidates s))
   else bool_decide (p ∉ setBlockIndexCandidates s)) = true.
Proof.
  pose proof (inv_tree _ _ _ _ I) as T. destruct (inv_candidates _ _ _ _ I) as [C1 C2]. pose proof (proj2 (proj2 (proj2 check_data))) as HM. apply eqb_prop in HM. rewrite HM.
  unfold worse_than_tip. rewrite (inv_tip _ _ _ _ I). pose proof (comparator_false addr s T p t Pp (inv_ptr _ _ _ _ I)) as HW.
  destruct (CBlockIndexWorkComparator addr s p t); cbn [negb andb].
  - apply bool_decide_eq_true. intros Hc. apply C1 in Hc as (_ & _ & Hc). apply HW in Hc. discriminate.
  - destruct (Z.eqb_spec (nChainTx b) 0) as [E|E]; cbn [negb].
    + apply bool_decide_eq_true. intros Hc. apply C1 in Hc as (_ & Hc & _). contradiction.
    + apply implb_intro. intros Hi. apply negb_true_iff, first_invalid in Hi. apply bool_decide_eq_true. apply C2; auto. now apply HW.
Qed.

Lemma check_unlinked :
  let foundInUnlinked := match pprev (at_ m p) with Some q => bool_decide ((q, p) ∈ mapBlocksUnlinked s) | None => false end in
  (if negb (eq_ptr (pprev (at_ m p)) None) && has BLOCK_HAVE_DATA b && first s (missing s) p
   then implb' (negb (first s (invalid s) p)) foundInUnlinked
   else negb foundInUnlinked) = true.
Proof.
  destruct (inv_unlinked _ _ _ _ I) as [U1 _]. pose proof (proj2 (proj2 (proj2 check_data))) as HM. apply eqb_prop in HM. rewrite HM. intros found. fold (stored b).
  unfold found. destruct (pprev (at_ m p)) as [q|] eqn:E; [|reflexivity]. cbn [eq_ptr negb andb].
  assert (HF : bool_decide ((q, p) ∈ mapBlocksUnlinked s) = stored b && (nChainTx b =? 0)).
  { apply eq_true_iff_eq. rewrite bool_decide_eq_true, list_elem_of_In, U1, andb_true_iff, Z.eqb_eq. unfold par. rewrite E. tauto. }
  rewrite HF. destruct (stored b && (nChainTx b =? 0)); [apply implb_intro; reflexivity | reflexivity].
Qed.

Lemma check_entry_true : check_entry addr g s p = true.
Proof.
  unfold check_entry. destruct check_data as (-> & -> & -> & ->), check_position as (-> & ->), check_levels as (-> & -> & ->). rewrite check_genesis, check_candidate.
  cbn [andb]. rewrite check_unlinked, !andb_true_r. apply implb_intro. intros E. apply negb_true_iff, first_invalid in E. unfold failed in E. now rewrite E.
Qed.
End Entry.

Lemma filter_none {A} (f : A -> bool) l : (forall x, In x l -> f x = false) -> List.filter f l = [].
Proof using. clear addr_inj addr LC. induction l as [|x l IH]; intros HF; [reflexivity|]. cbn. rewrite HF by now left. apply IH. intros y Hy. apply HF. now right. Qed.

Lemma CheckBlockIndex_inv g (s : st) t : Inv s t t -> GetBlockHash (at_ (mapBlockIndex s) 0) = g -> CheckBlockIndex addr g s = true.
Proof.
  intros I G. unfold CheckBlockIndex. destruct (Height (chainActive s) <? 0) eqn:EH.
  - exfalso. destruct (tip_nth (chainActive s) t (inv_tip _ _ _ _ I)) as [_ L]. apply Z.ltb_lt in EH. unfold Height in EH. lia.
  - pose proof (inv_tree _ _ _ _ I) as T. pose proof (inv_ptr _ _ _ _ I) as Pt.
    assert (ER : List.filter (fun p => eq_ptr (prev s p) None) (pointers s) = [0%nat]).
    { unfold pointers. unfold ptr in Pt. destruct (length (mapBlockIndex s)) as [|n] eqn:EL; [lia|]. cbn [seq List.filter].
      assert (P0 : eq_ptr (prev s 0) None = true) by (apply eq_ptr_true; apply (tree_root _ T 0); [unfold ptr; lia | reflexivity]). rewrite P0. f_equal.
      apply filter_none. intros p Hp. apply in_seq in Hp. destruct (eq_ptr (prev s p) None) eqn:E; [|reflexivity]. apply eq_ptr_true in E. apply (tree_root _ T p) in E; [lia | unfold ptr; lia]. }
    rewrite ER. apply forallb_forall. intros p Hp. apply pointers_in in Hp. now apply (check_entry_true g s t p).
Qed.

(** ** The theorems *)

(** C9: whatever headers and blocks arrive, in any order, and whatever is
    activated, invalidated or reconsidered (below no failed block), the
    assertions of [CheckBlockIndex] hold of the tree: data and transaction
    counts agree, the heights, chain work and validity levels grow as they
    should, failed marks have a cause, and both the set of candidates and the
    map of unlinked blocks hold exactly what they must. *)
Theorem CheckBlockIndex_holds g (s : st) : reachable g s -> CheckBlockIndex addr g s = true.
Proof using addr_inj. intros R. destruct (reachable_inv g s R) as [[t I] G]. now apply (CheckBlockIndex_inv g s t). Qed.

(** A branch whose blocks are all stored, valid and not refused by hand. *)
Definition good_branch (s : st) (p : nat) : Prop :=
  ptr (mapBlockIndex s) p /\ forall q, anc (mapBlockIndex s) q p -> stored (entries s q) = true /\ refused (entries s q) = false /\ valid q = true.

(** C8: from every reachable state [ActivateBestChain] ends, connects and
    disconnects blocks so that the client stands for the new tip, leaves only
    valid blocks active, and no branch that is stored, valid and not refused
    is better than the tip it chose. *)
Theorem ActivateBestChain_best g (s : st) : reachable g s ->
  exists s' t, ActivateBestChain addr (enough s) s = Some (s', true) /\ tip s' = Some t /\ stands_for (client s') (Some t) /\
    (forall q, anc (mapBlockIndex s) q t -> valid q = true) /\
    forall p, good_branch s p -> ~ worse addr (mapBlockIndex s) (entries s) t p.
Proof using addr_inj.
  intros R. destruct (reachable_inv g s R) as [[t I] _]. destruct (ActivateBestChain_ends addr addr_inj (enough s) s t t I (turns_enough s t)) as (s' & t' & E & I' & P & B).
  pose proof (pr_index _ _ P) as M. exists s', t'. ands; [exact E | apply I' | apply I' | intros q Hq; apply (inv_branch _ _ _ _ I'); now rewrite M |].
  intros p [Pp HG] Hw. apply (settled_best addr s' t' p I' B); rewrite ?M; try exact Pp.
  - destruct (pr_keeps _ _ P p) as (_ & -> & _). intros N. apply (eo_linked _ _ (inv_entries _ _ _ _ I) p Pp) in N as (q & Hq & Hd). destruct (HG q Hq); congruence.
  - destruct (failed (entries s' p)) eqn:F; [|reflexivity]. exfalso. rewrite <- M in Pp. destruct (eo_flags _ _ (inv_entries _ _ _ _ I') p Pp F) as (q & Hq & Hd).
    destruct (anc_facts _ (inv_tree _ _ _ _ I') q p Pp Hq) as (Pq & _). rewrite M in Hq, Pq. destruct (HG q Hq) as (_ & H1 & H2). destruct (pr_invalid _ _ P q Pq Hd); congruence.
  - now rewrite (keeps_worse addr _ _ _ _ _ (pr_keeps _ _ P)).
Qed.

(** C10: [InvalidateBlock] of a block other than the first takes it and all
    that is built on it off the active chain, and [ReconsiderBlock] right
    after it clears every mark in its subtree, so that the tree is as before
    the decision for the next [ActivateBestChain]. *)
Theorem InvalidateBlock_reconsidered g (s : st) p : reachable g s -> ptr (mapBlockIndex s) p -> par (mapBlockIndex s) p <> None ->
  (forall q, anc (mapBlockIndex s) q p -> q <> p -> failed (entries s q) = false) ->
  exists s1 t1, InvalidateBlock addr s p = Some (s1, true) /\ tip s1 = Some t1 /\ ~ anc (mapBlockIndex s) p t1 /\ stands_for (client s1) (Some t1) /\
    refused (entries s1 p) = true /\
    let s2 := ReconsiderBlock addr s1 p in
    reachable g s2 /\ tip s2 = Some t1 /\ forall q, ptr (mapBlockIndex s) q -> anc (mapBlockIndex s) p q -> failed (entries s2 q) = false.
Proof using addr_inj.
  intros R Pp Np HA. destruct (reachable_inv g s R) as [[t I] _]. destruct (InvalidateBlock_spec addr s t p I Pp Np) as (s1 & t1 & E & I1 & M & Ht & Hr & HO).
  assert (R1 : reachable g s1) by (now apply (reach_invalidate g s p s1 true)).
  assert (HA1 : forall q, anc (mapBlockIndex s1) q p -> q <> p -> failed (entries s1 q) = false).
  { rewrite M. intros q Hq Hne. rewrite HO; [now apply HA|]. intros Hp. apply Hne. now apply (anc_antisym _ (inv_tree _ _ _ _ I) q p). }
  rewrite <- M in Pp. destruct (ReconsiderBlock_spec addr addr_inj s1 t1 p I1 Pp HA1) as (I2 & M2 & F2).
  exists s1, t1. ands; [exact E | apply I1 | exact Ht | apply I1 | exact Hr |]. intros s2. ands; [now apply reach_reconsider | apply I2 |].
  rewrite <- M. exact F2.
Qed.
End Reach.
End BlockTreeReach.
