(* ===== verification/BlockTreeExample.v ===== *)
(** Runs of the tree of blocks: a client that keeps only its tip, the tree
    0 - 1 - 2 with the branch 1 - 3 - 4, the witnesses of the theorems of
    [BlockTreeReach], and two runs that leave its hypotheses: a decision
    reconsidered below a failed block, and a block refused as corrupt. *)
From stdpp Require Import base list gmap fin_maps fin_sets.
From S2P Require Import Prelude BaseUint Uint256 Params Chain Pow Kernel BlockTree BlockTreeInv BlockTreeOps BestChain BlockTreeSteps BlockTreeJudge BlockTreeReach.

Module BlockTreeExample.
Import BaseUint Uint256 Chain BlockTree BlockTreeInv BlockTreeOps BestChain BlockTreeSteps BlockTreeJudge BlockTreeReach.

(** Block 4 is invalid. *)
Definition toy_parents (p : nat) : option nat := nth p [None; Some 0%nat; Some 1%nat; Some 1%nat; Some 3%nat] None.
Definition toy_valid (p : nat) : bool := negb (p =? 4)%nat.

#[local] Instance toy : ChainClient (option nat) := {|
  ConnectBlock c p := if toy_valid p then (Some p, Connected) else (c, Refused false true);
  DisconnectBlock c p := (toy_parents p, true);
  ShutdownRequested c := false;
  StakeModifierChecksum c p := 0
|}.

#[local] Program Instance toy_lawful : LawfulClient (option nat) := {|
  parents := toy_parents;
  valid := toy_valid;
  stands_for c p := c = p
|}.
Next Obligation. intros c p ->. cbn. destruct (toy_valid p); auto. Qed.
Next Obligation. intros c p ->. eexists. split; reflexivity. Qed.
Next Obligation. reflexivity. Qed.

Lemma toy_addr_inj a b : Z.of_nat a = Z.of_nat b -> a = b.
Proof. lia. Qed.

Definition bits : Z := 0x1e0ffff0.
Definition hash (n : Z) : base_uint := uint256 n.
Definition genesis : base_uint := hash 1.

(** The state after a call that ends well. *)
Definition after {A} (s : chainstate (C := option nat)) (r : option (chainstate (C := option nat) * A)) : chainstate := match r with Some (s, _) => s | None => s end.

Definition start : chainstate := after (empty_state None) (InitBlockIndex Z.of_nat None genesis 0 bits 0 1).
Definition with_header (h q : Z) (s : chainstate) : chainstate := after s (AddToBlockIndex s (hash h) (hash q) 0 bits 0).
Definition with_data (p : nat) (s : chainstate) : chainstate := match ReceivedBlockTransactions Z.of_nat s p 1 with Some s => s | None => s end.
Definition activated (s : chainstate) : chainstate := after s (ActivateBestChain Z.of_nat (enough s) s).

Lemma bits_work : exists proof, Pow.GetBlockProof bits = Some proof /\ u256 proof 0x100010.
Proof. eexists. split; [vm_compute; reflexivity|]. split; [repeat constructor; vm_compute; intuition discriminate|]. split; vm_compute; reflexivity. Qed.

Lemma start_reachable : reachable Z.of_nat genesis start.
Proof.
  assert (G : genesis_ok None genesis bits 1).
  { constructor; try reflexivity; [destruct bits_work as (r & H); now exists r, 0x100010 | lia]. }
  destruct (InitBlockIndex_spec Z.of_nat None genesis 0 bits 0 1 G) as (s & E & _). apply (reach_start _ _ None 0 bits 0 1 _ G).
  unfold start. now rewrite E.
Qed.

Lemma header_reachable h q p (s : chainstate) : reachable Z.of_nat genesis s -> Kernel.find_block (mapBlockIndex s) (hash h) = None ->
  Kernel.find_block (mapBlockIndex s) (hash q) = Some p -> toy_parents (length (mapBlockIndex s)) = Some p -> W (mapBlockIndex s) p + 0x100010 < 2 ^ 256 ->
  reachable Z.of_nat genesis (with_header h q s).
Proof.
  intros R H1 H2 H3 H4. assert (N : new_header s (hash h) (hash q) bits p).
  { constructor; auto. destruct bits_work as (r & Hr & Hu). exists r, 0x100010. split; [exact Hr|]. split; [exact Hu|]. split; [lia | exact H4]. }
  destruct (reachable_inv Z.of_nat toy_addr_inj genesis s R) as [[t I] _]. destruct (AddToBlockIndex_spec Z.of_nat s t (hash h) (hash q) 0 bits 0 p I N) as (s' & e & E & _).
  unfold with_header. rewrite E. cbn [after]. now apply (reach_header _ _ s (hash h) (hash q) 0 bits 0 p s' (length (mapBlockIndex s))).
Qed.

Lemma data_reachable p (s : chainstate) : reachable Z.of_nat genesis s -> new_data s p 1 -> reachable Z.of_nat genesis (with_data p s).
Proof.
  intros R N. destruct (reachable_inv Z.of_nat toy_addr_inj genesis s R) as [[t I] _]. destruct (ReceivedBlockTransactions_spec Z.of_nat s t p 1 I N) as (s' & E & _).
  unfold with_data. rewrite E. now apply (reach_data _ _ s p 1 s').
Qed.

Lemma activate_reachable (s : chainstate) : reachable Z.of_nat genesis s -> reachable Z.of_nat genesis (activated s).
Proof.
  intros R. destruct (reachable_inv Z.of_nat toy_addr_inj genesis s R) as [[t I] _].
  destruct (ActivateBestChain_ends Z.of_nat toy_addr_inj (enough s) s t t I (turns_enough s t)) as (s' & t' & E & _). unfold activated. rewrite E. cbn [after].
  now apply (reach_activate _ _ s s' true).
Qed.

(** The headers of 1 - 2 and 3 - 4; the data of 4 before that of 3. *)
Definition headers : chainstate := with_header 5 4 (with_header 4 2 (with_header 3 2 (with_header 2 1 start))).
Definition stored_all : chainstate := with_data 3 (with_data 4 (activated (with_data 2 (with_data 1 headers)))).

Ltac by_pointer q := do 5 (destruct q as [|q]; [vm_compute; reflexivity|]).

Ltac new_data_now :=
  constructor;
  [vm_compute; lia | vm_compute; reflexivity | vm_compute; reflexivity
  | intros q Hq; vm_compute in Hq; injection Hq as <-; vm_compute; reflexivity | lia
  | intros q Hq; by_pointer q; exfalso; revert Hq; vm_compute; lia].

Lemma headers_reachable : reachable Z.of_nat genesis headers.
Proof.
  unfold headers. apply (header_reachable 5 4 3); [|vm_compute; reflexivity..]. apply (header_reachable 4 2 1); [|vm_compute; reflexivity..].
  apply (header_reachable 3 2 1); [|vm_compute; reflexivity..]. apply (header_reachable 2 1 0); [|vm_compute; reflexivity..]. exact start_reachable.
Qed.

Lemma stored_all_reachable : reachable Z.of_nat genesis stored_all.
Proof.
  unfold stored_all. apply data_reachable; [|new_data_now]. apply data_reachable; [|new_data_now]. apply activate_reachable.
  apply data_reachable; [|new_data_now]. apply data_reachable; [exact headers_reachable | new_data_now].
Qed.

(** ** Witnesses *)

Lemma CheckBlockIndex_holds_witness : reachable Z.of_nat genesis stored_all /\ CheckBlockIndex Z.of_nat genesis stored_all = true.
Proof. split; [exact stored_all_reachable | apply (CheckBlockIndex_holds Z.of_nat toy_addr_inj genesis stored_all stored_all_reachable)]. Defined.

Lemma ActivateBestChain_best_witness : reachable Z.of_nat genesis stored_all /\
  exists s' t, ActivateBestChain Z.of_nat (enough stored_all) stored_all = Some (s', true) /\ tip s' = Some t /\ client s' = Some t /\
    (forall q, anc (mapBlockIndex stored_all) q t -> toy_valid q = true) /\
    forall p, good_branch stored_all p -> ~ worse Z.of_nat (mapBlockIndex stored_all) (entries stored_all) t p.
Proof. split; [exact stored_all_reachable | apply (ActivateBestChain_best Z.of_nat toy_addr_inj genesis stored_all stored_all_reachable)]. Defined.

(** Block 4 had the most work: its branch is tried, refused, and 2 stays the
    tip, as it came before 3. *)
Lemma stored_all_run :
  (best_candidate Z.of_nat stored_all, tip (activated stored_all), map (fun p => nStatus (entries (activated stored_all) p)) (pointers stored_all)) =
  (Some 4%nat, Some 2%nat, [11; 29; 29; 29; 61]).
Proof. vm_compute. reflexivity. Qed.

Lemma ancestors_of_1 q : anc (mapBlockIndex stored_all) q 1 -> q <> 1%nat -> failed (entries stored_all q) = false.
Proof.
  intros Hq Hne. destruct (reachable_inv Z.of_nat toy_addr_inj genesis stored_all stored_all_reachable) as [[t I] _].
  destruct (anc_facts _ (inv_tree _ _ _ _ I) q 1 ltac:(vm_compute; lia) Hq) as (_ & Hle & _). replace q with 0%nat by lia. vm_compute. reflexivity.
Qed.

Lemma InvalidateBlock_reconsidered_witness : reachable Z.of_nat genesis stored_all /\
  exists s1 t1, InvalidateBlock Z.of_nat stored_all 1 = Some (s1, true) /\ tip s1 = Some t1 /\ ~ anc (mapBlockIndex stored_all) 1 t1 /\ client s1 = Some t1 /\
    refused (entries s1 1) = true /\
    let s2 := ReconsiderBlock Z.of_nat s1 1 in
    reachable Z.of_nat genesis s2 /\ tip s2 = Some t1 /\ forall q, ptr (mapBlockIndex stored_all) q -> anc (mapBlockIndex stored_all) 1 q -> failed (entries s2 q) = false.
Proof.
  split; [exact stored_all_reachable|]. apply (InvalidateBlock_reconsidered Z.of_nat toy_addr_inj genesis stored_all 1 stored_all_reachable);
    [vm_compute; lia | vm_compute; discriminate | exact ancestors_of_1].
Defined.

(** ** Outside the hypotheses *)

(** Block 1 is invalidated, which marks 2 as the child of a failed block; when
    3, another child of 1, is reconsidered, 1 is cleared as its ancestor and
    2 keeps the mark without a cause: an assertion of [CheckBlockIndex] fails. *)
Definition invalidated : chainstate := after (activated stored_all) (InvalidateBlock Z.of_nat (activated stored_all) 1).

Lemma reconsider_below_failed :
  let s := ReconsiderBlock Z.of_nat invalidated 3 in
  (CheckBlockIndex Z.of_nat genesis invalidated, CheckBlockIndex Z.of_nat genesis s, nStatus (entries s 1), nStatus (entries s 2)) = (true, false, 29, 93).
Proof. vm_compute. reflexivity. Qed.
End BlockTreeExample.

(** A block that is refused as possibly corrupt is neither marked nor removed
    from the candidates: [ActivateBestChain] picks it again for ever. *)
Module BlockTreeCorrupt.
Import BaseUint Uint256 Chain BlockTree BlockTreeInv BestChain BlockTreeReach.

#[local] Instance corrupt : ChainClient unit := {|
  ConnectBlock c p := if (p =? 1)%nat then (c, Refused true false) else (c, Connected);
  DisconnectBlock c p := (c, true);
  ShutdownRequested c := false;
  StakeModifierChecksum c p := 0
|}.

Definition entry_0 : CBlockIndex := mkIndex (uint256 1) None None 0 0 0 0 0 (uint256 1).
Definition entry_1 : CBlockIndex := mkIndex (uint256 2) (Some 0%nat) (Some 0%nat) 1 0 0 0 0 (uint256 2).

(** Block 0 is the tip; block 1 has arrived. *)
Definition waiting : chainstate :=
  mkState [entry_0; entry_1] (fun p => match p with 0%nat => mkBlockState 11 1 1 1 | _ => mkBlockState 11 1 2 2 end) [Some 0%nat] {[ 0%nat; 1%nat ]} [] None (Some 1%nat) 3 tt.

Lemma corrupt_block_retried : forall fuel, ActivateBestChain Z.of_nat fuel waiting = None.
Proof.
  induction fuel as [|fuel IH]; [reflexivity|]. transitivity (ActivateBestChain Z.of_nat fuel waiting); [|exact IH]. reflexivity.
Qed.
End BlockTreeCorrupt.
