(* ===== verification/TxCheck.v ===== *)
(** The checks of a transaction that need no other: [CheckTransaction],
    [IsFinalTx] and the signature operation count of main.cpp, with the
    verdicts of [CValidationState] (main.h); and the money the chain creates,
    [GetBlockValue] and [GetMasternodePayment]. *)
From Stdlib Require Import String.
From S2P Require Import Prelude SphTypes BaseUint Script SigEncoding Merkle Params Serialize Transaction.
Open Scope list_scope.

Module TxCheck.
Import Script SigEncoding Params Serialize Transaction Merkle BaseUint.

(** ** Verdicts *)

Inductive mode_state : Set := MODE_VALID | MODE_INVALID | MODE_ERROR.

Record CValidationState : Type := mkState {
  mode : mode_state;
  nDoS : Z;
  strRejectReason : string;
  chRejectCode : Z;
  corruptionPossible : bool;
}.

Definition CValidationState_new : CValidationState := mkState MODE_VALID 0 EmptyString 0 false.

Definition REJECT_INVALID : Z := 0x10.
Definition REJECT_NONSTANDARD : Z := 0x40.

(** [state.DoS(level, false, code, reason)] of a function that returns it. *)
Definition DoS (level code : Z) (reason : string) (s : CValidationState) : bool * CValidationState :=
  (false, match mode s with
          | MODE_ERROR => mkState MODE_ERROR (nDoS s) reason code false
          | _ => mkState MODE_INVALID (nDoS s + level) reason code false
          end).

Definition Invalid (code : Z) (reason : string) (s : CValidationState) : bool * CValidationState := DoS 0 code reason s.

Definition IsInvalid (s : CValidationState) : bool := match mode s with MODE_INVALID => true | _ => false end.

(** [None] is [SCRIPT_ERR_OK]. *)
Definition ScriptErrorString (serror : option ScriptError) : string :=
  match serror with
  | None => "No error"
  | Some SCRIPT_ERR_EVAL_FALSE => "Script evaluated without error but finished with a false/empty top stack element"
  | Some SCRIPT_ERR_VERIFY => "Script failed an OP_VERIFY operation"
  | Some SCRIPT_ERR_EQUALVERIFY => "Script failed an OP_EQUALVERIFY operation"
  | Some SCRIPT_ERR_CHECKMULTISIGVERIFY => "Script failed an OP_CHECKMULTISIGVERIFY operation"
  | Some SCRIPT_ERR_CHECKSIGVERIFY => "Script failed an OP_CHECKSIGVERIFY operation"
  | Some SCRIPT_ERR_NUMEQUALVERIFY => "Script failed an OP_NUMEQUALVERIFY operation"
  | Some SCRIPT_ERR_SCRIPT_SIZE => "Script is too big"
  | Some SCRIPT_ERR_PUSH_SIZE => "Push value size limit exceeded"
  | Some SCRIPT_ERR_OP_COUNT => "Operation limit exceeded"
  | Some SCRIPT_ERR_STACK_SIZE => "Stack size limit exceeded"
  | Some SCRIPT_ERR_SIG_COUNT => "Signature count negative or greater than pubkey count"
  | Some SCRIPT_ERR_PUBKEY_COUNT => "Pubkey count negative or limit exceeded"
  | Some SCRIPT_ERR_BAD_OPCODE => "Opcode missing or not understood"
  | Some SCRIPT_ERR_DISABLED_OPCODE => "Attempted to use a disabled opcode"
  | Some SCRIPT_ERR_INVALID_STACK_OPERATION => "Operation not valid with the current stack size"
  | Some SCRIPT_ERR_INVALID_ALTSTACK_OPERATION => "Operation not valid with the current altstack size"
  | Some SCRIPT_ERR_OP_RETURN => "OP_RETURN was encountered"
  | Some SCRIPT_ERR_UNBALANCED_CONDITIONAL => "Invalid OP_IF construction"
  | Some SCRIPT_ERR_SIG_HASHTYPE => "Signature hash type missing or not understood"
  | Some SCRIPT_ERR_SIG_DER => "Non-canonical DER signature"
  | Some SCRIPT_ERR_MINIMALDATA => "Data push larger than necessary"
  | Some SCRIPT_ERR_SIG_PUSHONLY => "Only non-push operators allowed in signatures"
  | Some SCRIPT_ERR_SIG_HIGH_S => "Non-canonical signature: S value is unnecessarily high"
  | Some SCRIPT_ERR_SIG_NULLDUMMY => "Dummy CHECKMULTISIG argument must be zero"
  | Some SCRIPT_ERR_DISCOURAGE_UPGRADABLE_NOPS => "NOPx reserved for soft-fork upgrades"
  | Some SCRIPT_ERR_PUBKEYTYPE => "Public key is neither compressed or uncompressed"
  | Some SCRIPT_ERR_UNKNOWN_ERROR => "unknown error"
  end%string.

(** What a rejection is made of. *)
Record rejection : Type := mkRejection { level : Z; code : Z; reason : string }.

Definition reject (r : rejection) (s : CValidationState) : bool * CValidationState := DoS (level r) (code r) (reason r) s.

Definition MAX_STANDARD_TX_SIZE : Z := 100000.
Definition LOCKTIME_THRESHOLD : Z := 500000000.

Section Check.
Context {params : CChainParams}.

Definition MoneyRange (nValueOut : Z) : bool := (nValueOut >=? 0) && (nValueOut <=? MaxMoneyOut).

(** The loop over the outputs; [None] when it runs to its end. *)
Fixpoint check_outputs (user : bool) (nValueOut : Z) (vout : list CTxOut) : option rejection :=
  match vout with
  | [] => None
  | txout :: vout =>
      if CTxOut_IsEmpty txout && user then Some (mkRejection 100 0 EmptyString)
      else if nValue txout <? 0 then Some (mkRejection 100 REJECT_INVALID "bad-txns-vout-negative")
      else if MaxMoneyOut <? nValue txout then Some (mkRejection 100 REJECT_INVALID "bad-txns-vout-toolarge")
      else if negb (MoneyRange (nValueOut + nValue txout))
           then Some (mkRejection 100 REJECT_INVALID "bad-txns-txouttotal-toolarge")
      else check_outputs user (nValueOut + nValue txout) vout
  end.

(** [vInOutPoints]: the outpoints seen. *)
Fixpoint check_duplicates (vInOutPoints : list COutPoint) (vin : list CTxIn) : option rejection :=
  match vin with
  | [] => None
  | txin :: vin =>
      if existsb (COutPoint_eq (prevout txin)) vInOutPoints
      then Some (mkRejection 100 REJECT_INVALID "bad-txns-inputs-duplicate")
      else check_duplicates (prevout txin :: vInOutPoints) vin
  end.

Definition vin0_script_size (tx : CTransaction) : Z :=
  match vin tx with i :: _ => Z.of_nat (length (scriptSig i)) | [] => 0 end.

Definition check_inputs (tx : CTransaction) : option rejection :=
  if IsCoinBase tx then
    if (vin0_script_size tx <? 2) || (150 <? vin0_script_size tx)
    then Some (mkRejection 100 REJECT_INVALID "bad-cb-length") else None
  else if IsV5CoinStake tx then
    if 100 <? vin0_script_size tx then Some (mkRejection 100 REJECT_INVALID "bad-cs-length") else None
  else if existsb (fun txin => COutPoint_IsNull (prevout txin)) (vin tx)
  then Some (mkRejection 10 REJECT_INVALID "bad-txns-prevout-null") else None.

Definition CheckTransaction (tx : CTransaction) (s : CValidationState) : bool * CValidationState :=
  if (length (vin tx) =? 0)%nat then DoS 10 REJECT_INVALID "bad-txns-vin-empty" s
  else if (length (vout tx) =? 0)%nat then DoS 10 REJECT_INVALID "bad-txns-vout-empty" s
  else if MAX_STANDARD_TX_SIZE <? GetSerializeSize CTransaction_format tx
  then DoS 100 REJECT_INVALID "bad-txns-oversize" s
  else match check_outputs (negb (IsCoinBase tx) && negb (IsCoinStake tx)) 0 (vout tx) with
       | Some r => reject r s
       | None =>
           match check_duplicates [] (vin tx) with
           | Some r => reject r s
           | None =>
               match check_inputs tx with
               | Some r => reject r s
               | None => (true, s)
               end
           end
       end.

(** ** The money supply *)

Definition nSubsidy (nHeight : Z) : Z :=
  if nHeight =? 0 then 1809759 * COIN
  else if nHeight <? 44641 then COIN * 3 / 2
  else if nHeight <? 570241 then COIN
  else if nHeight <? 1095840 then COIN / 2
  else if nHeight <? 1621440 then COIN / 4
  else COIN / 8.

(** [nMoneySupply] is that of [chainActive.Tip()]. *)
Definition GetBlockValue (nMoneySupply nHeight : Z) : Z :=
  let nSubsidy := nSubsidy nHeight in
  let nSubsidy := if nMoneySupply + nSubsidy >=? MaxMoneyOut then MaxMoneyOut - nMoneySupply else nSubsidy in
  if nMoneySupply >=? MaxMoneyOut then 0 else nSubsidy.

Definition GetMasternodePayment (nHeight blockValue : Z) : Z :=
  if nHeight <? 101 then 0 else Z.quot blockValue 2.
End Check.

(** [nHeight] stands for [chainActive.Height()], [now] for
    [GetAdjustedTime()]. *)
Definition IsFinalTx (nHeight now : Z) (tx : CTransaction) (nBlockHeight nBlockTime : Z) : bool :=
  if nLockTime tx =? 0 then true
  else
    let nBlockHeight := if nBlockHeight =? 0 then nHeight else nBlockHeight in
    let nBlockTime := if nBlockTime =? 0 then now else nBlockTime in
    if nLockTime tx <? (if nLockTime tx <? LOCKTIME_THRESHOLD then nBlockHeight else nBlockTime) then true
    else forallb CTxIn_IsFinal (vin tx).

Definition GetLegacySigOpCount (tx : CTransaction) : Z :=
  fold_left (fun n txout => T32 (n + GetSigOpCount (scriptPubKey txout) false)) (vout tx)
    (fold_left (fun n txin => T32 (n + GetSigOpCount (scriptSig txin) false)) (vin tx) 0).

(** * What an accepted transaction is *)

Definition total (vout : list CTxOut) : Z := fold_right (fun o n => nValue o + n) 0 vout.

Section Accepted.
Context {params : CChainParams}.

(** An output, and the sum of the outputs, is an amount of money; a user's
    output is not empty. *)
Definition outputs_valid (user : bool) (vout : list CTxOut) : Prop :=
  Forall (fun o => 0 <= nValue o <= MaxMoneyOut /\ (user = true -> CTxOut_IsEmpty o = false)) vout /\
  total vout <= MaxMoneyOut.

Lemma total_nonneg vout : Forall (fun o => 0 <= nValue o) vout -> 0 <= total vout.
Proof using. induction 1; unfold total in *; cbn [fold_right]; lia. Qed.

Lemma check_outputs_iff user vout : forall nValueOut, 0 <= nValueOut <= MaxMoneyOut ->
  (check_outputs user nValueOut vout = None <->
   Forall (fun o => 0 <= nValue o <= MaxMoneyOut /\ (user = true -> CTxOut_IsEmpty o = false)) vout /\
   nValueOut + total vout <= MaxMoneyOut).
Proof using.
  induction vout as [|o vout IH]; intros n0 Hn; cbn [check_outputs total fold_right].
  { split; [intros _; split; [constructor | cbn; lia] | reflexivity]. }
  fold (total vout).
  destruct (CTxOut_IsEmpty o && user) eqn:E.
  { split; [discriminate|]. intros [H _]. apply Forall_cons_iff in H as [[_ H] _]. apply andb_prop in E as [E ->].
    now rewrite H in E. }
  destruct (Z.ltb_spec (nValue o) 0).
  { split; [discriminate|]. intros [F _]. apply Forall_cons_iff in F as [F _]. lia. }
  destruct (Z.ltb_spec MaxMoneyOut (nValue o)).
  { split; [discriminate|]. intros [F _]. apply Forall_cons_iff in F as [F _]. lia. }
  assert (Hu : user = true -> CTxOut_IsEmpty o = false) by (intros ->; now rewrite andb_true_r in E).
  unfold MoneyRange. destruct (Z.geb_spec (n0 + nValue o) 0); [|lia].
  destruct (Z.leb_spec (n0 + nValue o) MaxMoneyOut); cbn [andb negb].
  - rewrite IH by lia. rewrite Forall_cons_iff. split; intros [F ?]; repeat split; try apply F; try tauto; lia.
  - split; [discriminate|]. intros [F Ht]. apply Forall_cons_iff in F as [_ F].
    assert (0 <= total vout) by (apply total_nonneg; eapply Forall_impl; [|exact F]; cbn; intros; lia). lia.
Qed.

Lemma COutPoint_eq_iff a b : COutPoint_eq a b = true <-> a = b.
Proof using.
  unfold COutPoint_eq, Merkle.eq_hash. rewrite andb_true_iff, BaseUint.op_eq_spec, Z.eqb_eq.
  destruct a, b; cbn. split; [now intros [-> ->] | intros E; now inversion E].
Qed.

Lemma check_duplicates_iff vin : forall seen,
  check_duplicates seen vin = None <-> NoDup (map prevout vin) /\ (forall o, In o (map prevout vin) -> ~ In o seen).
Proof using.
  induction vin as [|i vin IH]; intros seen; cbn [check_duplicates map].
  { split; [intros _; split; [constructor | tauto] | reflexivity]. }
  destruct (existsb (COutPoint_eq (prevout i)) seen) eqn:E.
  - apply existsb_exists in E as (o & Ho & E). apply COutPoint_eq_iff in E as <-.
    split; [discriminate|]. intros [_ H]. exfalso. apply (H (prevout i)); [now left | exact Ho].
  - assert (Hn : ~ In (prevout i) seen).
    { intros Hi. apply not_true_iff_false in E. apply E, existsb_exists. exists (prevout i). split; [exact Hi | now apply COutPoint_eq_iff]. }
    rewrite IH, NoDup_cons_iff. split.
    + intros [Hd Hs]. split; [split; [|exact Hd]|]; [intros Hi; apply (Hs _ Hi); now left|].
      intros o [<-|Ho]; [exact Hn|]. intros Hi. apply (Hs o Ho). now right.
    + intros [[Hi Hd] Hs]. split; [exact Hd|]. intros o Ho [<-|Hx]; [now apply Hi | apply (Hs o); [now right | exact Hx]].
Qed.

(** The inputs: a script of 2 to 150 bytes for a coinbase, at most 100
    bytes for a version-5 coinstake, and real outpoints otherwise. *)
Definition inputs_valid (tx : CTransaction) : Prop :=
  NoDup (map prevout (vin tx)) /\
  if IsCoinBase tx then 2 <= vin0_script_size tx <= 150
  else if IsV5CoinStake tx then vin0_script_size tx <= 100
  else Forall (fun i => COutPoint_IsNull (prevout i) = false) (vin tx).

Lemma existsb_false {A} (f : A -> bool) l : existsb f l = false <-> Forall (fun x => f x = false) l.
Proof using.
  induction l as [|x l IH]; cbn; [split; [constructor | reflexivity]|]. rewrite orb_false_iff, IH, Forall_cons_iff. tauto.
Qed.

Lemma check_inputs_iff tx : NoDup (map prevout (vin tx)) -> (check_inputs tx = None <-> inputs_valid tx).
Proof using.
  intros Hd. unfold check_inputs, inputs_valid. destruct (IsCoinBase tx); [|destruct (IsV5CoinStake tx)].
  - destruct (Z.ltb_spec (vin0_script_size tx) 2), (Z.ltb_spec 150 (vin0_script_size tx)); cbn [orb];
      (split; [intros E; first [discriminate E | split; [exact Hd | lia]] | intros [_ H1]; first [reflexivity | lia]]).
  - destruct (Z.ltb_spec 100 (vin0_script_size tx)); 
      (split; [intros E; first [discriminate E | split; [exact Hd | lia]] | intros [_ H1]; first [reflexivity | lia]]).
  - rewrite <- existsb_false. destruct (existsb _ _); split; try discriminate; try tauto. now intros [_ H].
Qed.

Lemma value_out_total vout : Forall (fun o => 0 <= nValue o) vout -> forall n0, 0 <= n0 -> n0 + total vout <= int64_max ->
  value_out_loop n0 vout = Value (n0 + total vout).
Proof using.
  induction 1 as [|o vout Ho Hv IH]; intros n0 Hn H; cbn [value_out_loop total fold_right] in *; [f_equal; lia|].
  fold (total vout) in *. pose proof (total_nonneg vout Hv).
  destruct (Z.ltb_spec (nValue o) 0); [lia|]. destruct (Z.ltb_spec int64_max (n0 + nValue o)); [lia|].
  rewrite IH by lia. f_equal. lia.
Qed.

(** A rejection changes nothing but the state. *)
Lemma DoS_false l c r s : fst (DoS l c r s) = false /\ (mode s <> MODE_ERROR -> IsInvalid (snd (DoS l c r s)) = true /\ nDoS (snd (DoS l c r s)) = nDoS s + l).
Proof using. unfold DoS, IsInvalid. destruct (mode s); cbn; split; try reflexivity; intros H; try (split; reflexivity). now destruct H. Qed.

(** The first check that fails. *)
Definition rejection_of (tx : CTransaction) : option rejection :=
  if (length (vin tx) =? 0)%nat then Some (mkRejection 10 REJECT_INVALID "bad-txns-vin-empty")
  else if (length (vout tx) =? 0)%nat then Some (mkRejection 10 REJECT_INVALID "bad-txns-vout-empty")
  else if MAX_STANDARD_TX_SIZE <? GetSerializeSize CTransaction_format tx
  then Some (mkRejection 100 REJECT_INVALID "bad-txns-oversize")
  else match check_outputs (negb (IsCoinBase tx) && negb (IsCoinStake tx)) 0 (vout tx) with
       | Some r => Some r
       | None => match check_duplicates [] (vin tx) with Some r => Some r | None => check_inputs tx end
       end.

Lemma CheckTransaction_first tx s :
  CheckTransaction tx s = match rejection_of tx with Some r => reject r s | None => (true, s) end.
Proof using.
  unfold CheckTransaction, rejection_of. destruct (length (vin tx) =? 0)%nat; [reflexivity|].
  destruct (length (vout tx) =? 0)%nat; [reflexivity|]. destruct (_ <? _); [reflexivity|].
  destruct (check_outputs _ _ _); [reflexivity|]. destruct (check_duplicates _ _); [reflexivity|]. now destruct (check_inputs tx).
Qed.

Ltac some_level := let E := fresh in intros E; inversion E; subst; cbn; lia.

Lemma check_outputs_level user vout : forall n0 r, check_outputs user n0 vout = Some r -> 10 <= level r.
Proof using.
  induction vout as [|o vout IH]; intros n0 r; cbn [check_outputs]; [discriminate|].
  destruct (_ && user); [some_level|]. destruct (_ <? 0); [some_level|]. destruct (_ <? _); [some_level|].
  destruct (negb _); [some_level | apply IH].
Qed.

Lemma check_duplicates_level vin : forall seen r, check_duplicates seen vin = Some r -> 10 <= level r.
Proof using.
  induction vin as [|i vin IH]; intros seen r; cbn [check_duplicates]; [discriminate|].
  destruct (existsb _ _); [some_level | apply IH].
Qed.

Lemma rejection_level tx r : rejection_of tx = Some r -> 10 <= level r.
Proof using.
  unfold rejection_of. destruct (length (vin tx) =? 0)%nat; [some_level|].
  destruct (length (vout tx) =? 0)%nat; [some_level|]. destruct (_ <? _); [some_level|].
  destruct (check_outputs _ _ _) eqn:E1; [intros E; apply Some_inj in E; subst r; now apply check_outputs_level in E1|].
  destruct (check_duplicates _ _) eqn:E2; [intros E; apply Some_inj in E; subst r; now apply check_duplicates_level in E2|].
  unfold check_inputs. destruct (IsCoinBase tx); [|destruct (IsV5CoinStake tx)];
    match goal with |- (if ?b then _ else _) = _ -> _ => destruct b end; first [discriminate | some_level].
Qed.

Lemma rejection_of_iff tx : 0 <= MaxMoneyOut ->
  rejection_of tx = None <->
  vin tx <> [] /\ vout tx <> [] /\ GetSerializeSize CTransaction_format tx <= MAX_STANDARD_TX_SIZE /\
  outputs_valid (negb (IsCoinBase tx) && negb (IsCoinStake tx)) (vout tx) /\ inputs_valid tx.
Proof using.
  intros HM. unfold rejection_of.
  assert (L : forall A (l : list A), (length l =? 0)%nat = true <-> l = []) by (intros A [|]; cbn; split; easy).
  destruct (length (vin tx) =? 0)%nat eqn:E1; [apply L in E1; split; [discriminate | tauto]|].
  destruct (length (vout tx) =? 0)%nat eqn:E2; [apply L in E2; split; [discriminate | tauto]|].
  assert (N1 : vin tx <> []) by (intros E; apply L in E; congruence).
  assert (N2 : vout tx <> []) by (intros E; apply L in E; congruence).
  destruct (Z.ltb_spec MAX_STANDARD_TX_SIZE (GetSerializeSize CTransaction_format tx)); [split; [discriminate | lia]|].
  pose proof (check_outputs_iff (negb (IsCoinBase tx) && negb (IsCoinStake tx)) (vout tx) 0 ltac:(lia)) as Ho.
  rewrite Z.add_0_l in Ho. fold (outputs_valid (negb (IsCoinBase tx) && negb (IsCoinStake tx)) (vout tx)) in Ho.
  destruct (check_outputs _ _ _); [split; [discriminate | intros (_ & _ & _ & Hv & _); now apply Ho in Hv]|].
  pose proof (check_duplicates_iff (vin tx) []) as Hd.
  destruct (check_duplicates _ _).
  - split; [discriminate|]. intros (_ & _ & _ & _ & Hv & _). assert (X : Some r = None) by (apply Hd; split; [exact Hv | tauto]). discriminate X.
  - destruct (proj1 Hd eq_refl) as [Hn _]. rewrite (check_inputs_iff tx Hn). intuition.
Qed.

(** C14: [CheckTransaction] accepts, leaving the verdict as it was, exactly
    the transactions with inputs and outputs, of at most 100000 bytes, whose
    outputs and their sum are amounts of money (not empty, for a user's
    transaction), that spend no outpoint twice and whose inputs have the
    shape of their kind.  Then [GetValueOut] neither throws nor overflows:
    it is the sum of the outputs.  Any other transaction is marked invalid
    with a ban score of at least 10. *)
Theorem CheckTransaction_iff tx s : 0 <= MaxMoneyOut <= int64_max -> mode s <> MODE_ERROR ->
  let valid := vin tx <> [] /\ vout tx <> [] /\ GetSerializeSize CTransaction_format tx <= MAX_STANDARD_TX_SIZE /\
               outputs_valid (negb (IsCoinBase tx) && negb (IsCoinStake tx)) (vout tx) /\ inputs_valid tx in
  (CheckTransaction tx s = (true, s) <-> valid) /\
  (valid -> GetValueOut tx = Value (total (vout tx)) /\ 0 <= total (vout tx) <= MaxMoneyOut) /\
  (~ valid -> exists s', CheckTransaction tx s = (false, s') /\ IsInvalid s' = true /\ nDoS s + 10 <= nDoS s').
Proof using.
  intros HM Hs valid. pose proof (rejection_of_iff tx (proj1 HM)) as Hr. fold valid in Hr. rewrite CheckTransaction_first.
  split; [|split].
  - rewrite <- Hr. destruct (rejection_of tx) as [r|]; [|tauto]. split; [|discriminate].
    intros E. unfold reject in E. destruct (DoS_false (level r) (code r) (reason r) s) as [Hf _]. rewrite E in Hf. discriminate.
  - intros (_ & _ & _ & [Ho Ht] & _).
    assert (Hp : Forall (fun o => 0 <= nValue o) (vout tx)) by (eapply Forall_impl; [|exact Ho]; cbn; intros; lia).
    pose proof (total_nonneg _ Hp). split; [|lia]. unfold GetValueOut. rewrite (value_out_total _ Hp); [f_equal| |]; lia.
  - intros Hn. rewrite <- Hr in Hn. destruct (rejection_of tx) as [r|] eqn:E; [|tauto].
    pose proof (rejection_level _ _ E). destruct (DoS_false (level r) (code r) (reason r) s) as [Hf Hi]. destruct (Hi Hs) as [Hi1 Hi2].
    exists (snd (reject r s)). unfold reject. split; [|split; [exact Hi1 | lia]].
    rewrite (surjective_pairing (DoS _ _ _ _)), Hf. reflexivity.
Qed.

(** The height after which the subsidy only falls. *)
Lemma nSubsidy_range nHeight : 0 < nSubsidy nHeight <= 1809759 * COIN.
Proof using.
  unfold nSubsidy, COIN. repeat (destruct (_ : bool); [cbn; lia|]). cbn. lia.
Qed.

(** C15: no block creates money beyond the limit: while the supply is within
    it, the value of a block is not negative and does not exceed what is
    left; it is the subsidy of the height when that fits, so the supply
    after any sequence of blocks stays within the limit, and reaches it
    only by a last, smaller subsidy.  A masternode is paid no more than the
    block creates. *)
Theorem supply_bounded nMoneySupply : 0 <= nMoneySupply <= MaxMoneyOut ->
  (forall nHeight, let v := GetBlockValue nMoneySupply nHeight in
     0 <= v <= nSubsidy nHeight /\ nMoneySupply + v <= MaxMoneyOut /\
     (nMoneySupply + nSubsidy nHeight <= MaxMoneyOut -> v = nSubsidy nHeight) /\
     (nMoneySupply + nSubsidy nHeight > MaxMoneyOut -> nMoneySupply + v = MaxMoneyOut) /\
     0 <= GetMasternodePayment nHeight v <= v) /\
  (forall heights, nMoneySupply <= fold_left (fun supply h => supply + GetBlockValue supply h) heights nMoneySupply <= MaxMoneyOut).
Proof using.
  intros H0. assert (K : forall s h, 0 <= s <= MaxMoneyOut -> 0 <= GetBlockValue s h <= nSubsidy h /\ s + GetBlockValue s h <= MaxMoneyOut /\
    (s + nSubsidy h <= MaxMoneyOut -> GetBlockValue s h = nSubsidy h) /\ (s + nSubsidy h > MaxMoneyOut -> s + GetBlockValue s h = MaxMoneyOut)).
  { intros s h Hs. pose proof (nSubsidy_range h). unfold GetBlockValue.
    destruct (Z.geb_spec (s + nSubsidy h) MaxMoneyOut), (Z.geb_spec s MaxMoneyOut); lia. }
  split.
  - intros h v. destruct (K nMoneySupply h H0) as (K1 & K2 & K3 & K4). split; [exact K1|]. split; [exact K2|]. split; [exact K3|]. split; [exact K4|].
    unfold GetMasternodePayment. fold v in K1. destruct (h <? 101); [lia|].
    rewrite Z.quot_div_nonneg by lia. pose proof (Z.div_pos v 2). pose proof (Z.div_le_upper_bound v 2 v). lia.
  - intros heights. revert nMoneySupply H0. induction heights as [|h heights IH]; intros s Hs; cbn [fold_left]; [lia|].
    destruct (K s h Hs) as (K1 & K2 & _). destruct (IH (s + GetBlockValue s h)) as [IH1 IH2]; [lia|]. split; [|exact IH2]. eapply Z.le_trans; [|exact IH1]. lia.
Qed.
End Accepted.

Lemma supply_bounded_witness : 0 <= 2999999 * COIN + COIN / 2 <= @MaxMoneyOut CMainParams /\
  (@GetBlockValue CMainParams (2999999 * COIN + COIN / 2) 100000 = COIN / 2) /\
  2999999 * COIN <= fold_left (fun supply h => supply + @GetBlockValue CMainParams supply h) [1; 44641; 2000000] (2999999 * COIN) <= 3000000 * COIN.
Proof.
  split; [split; discriminate|]. split; [reflexivity|].
  exact (proj2 (@supply_bounded CMainParams (2999999 * COIN) ltac:(split; discriminate)) [1; 44641; 2000000]).
Defined.

(** A payment that is accepted, and the same payment to an output that is
    too large. *)
Definition payment (v : Z) : CTransaction :=
  mkTransaction 1 [mkTxIn (mkOutPoint (repeat 7 32) 0) [1; 2] uint256_max32 []] [CTxOut_new v [118]; CTxOut_new 7 [118]] 0.

Lemma CheckTransaction_iff_witness :
  @CheckTransaction CMainParams (payment 5000) CValidationState_new = (true, CValidationState_new) /\
  GetValueOut (payment 5000) = Value 5007 /\
  @CheckTransaction CMainParams (payment (3000001 * COIN)) CValidationState_new
  = (false, mkState MODE_INVALID 100 "bad-txns-vout-toolarge" REJECT_INVALID false).
Proof.
  assert (A : @CheckTransaction CMainParams (payment 5000) CValidationState_new = (true, CValidationState_new)) by (vm_compute; reflexivity).
  split; [exact A|]. split; [|vm_compute; reflexivity].
  destruct (@CheckTransaction_iff CMainParams (payment 5000) CValidationState_new ltac:(split; discriminate) ltac:(discriminate)) as (H1 & H2 & _).
  exact (proj1 (H2 (proj1 H1 A))).
Defined.

End TxCheck.
