(* ===== verification/Connect.v ===== *)
(** Connecting and disconnecting transactions of main.cpp over the cached
    view of the unspent outputs: [HaveInputs], [GetValueIn] (coins.cpp),
    [GetP2SHSigOpCount], [CheckInputs], [UpdateCoins], the loop of
    [ConnectBlock] over the transactions of a block, and [DisconnectBlock].

    The view is [CoinsView.CCoinsViewCache] over any view.  Parameters are
    the verification of a signature by a key, and the heights of the blocks
    of [mapBlockIndex].  Assertions and exceptions end the operation: the
    result [None]. *)
From stdpp Require Import base list gmap fin_maps.
From Stdlib Require Import String.
From S2P Require Import Prelude SphTypes Script SigEncoding Interpreter Standard Params Serialize Transaction SigHash TxCheck Coins CoinsView.
Open Scope list_scope.

Module Connect.
Import Params Transaction TxCheck Coins CoinsView.

(** A pass, a rejection, or an assertion or exception. *)
Inductive checked (A : Type) : Type :=
| Pass (a : A)
| Fails (r : rejection)
| Aborts.
#[global] Arguments Pass {A} a.
#[global] Arguments Fails {A} r.
#[global] Arguments Aborts {A}.

Definition flag_standard_not_mandatory : Z :=
  (SigEncoding.SCRIPT_VERIFY_DERSIG .| SigEncoding.SCRIPT_VERIFY_STRICTENC .| SigEncoding.SCRIPT_VERIFY_MINIMALDATA
   .| SigEncoding.SCRIPT_VERIFY_NULLDUMMY .| SigEncoding.SCRIPT_VERIFY_DISCOURAGE_UPGRADABLE_NOPS).

(** [CScriptCheck]: the script of the spent output, the input and the flags. *)
Record CScriptCheck : Type := mkCheck { check_script : list Z; nIn : nat; nFlags : Z }.

Section Connect.
Context {V : Type} `{!CCoinsView V} {params : CChainParams}.
(** [CPubKey::Verify(hash, sig)] and [mapBlockIndex[...]->nHeight]. *)
Variable Verify : list Z -> list Z -> list Z -> bool.
Variable block_height : list Z -> option Z.
Implicit Types (view : CCoinsViewCache V).

Abbreviation cache := (CCoinsViewCache V) (only parsing).

(** ** Inputs *)

Fixpoint have_inputs (vin : list CTxIn) (view : cache) : bool * cache :=
  match vin with
  | [] => (true, view)
  | txin :: vin =>
      match FetchCoins (hash (prevout txin)) view with
      | (None, view) => (false, view)
      | (Some coins, view) =>
          if negb (IsAvailable coins (n (prevout txin))) then (false, view) else have_inputs vin view
      end
  end.

Definition HaveInputs (tx : CTransaction) (view : cache) : bool * cache :=
  if IsCoinBase tx then (true, view) else have_inputs (vin tx) view.

(** [GetOutputFor]: [None] where its assertion fails. *)
Definition GetOutputFor (input : CTxIn) (view : cache) : option CTxOut * cache :=
  match FetchCoins (hash (prevout input)) view with
  | (Some coins, view) =>
      (if IsAvailable coins (n (prevout input)) then Some (vout_at coins (n (prevout input))) else None, view)
  | (None, view) => (None, view)
  end.

Fixpoint value_in (vin : list CTxIn) (nResult : Z) (view : cache) : option Z * cache :=
  match vin with
  | [] => (Some nResult, view)
  | txin :: vin =>
      match GetOutputFor txin view with
      | (Some o, view) => value_in vin (nResult + nValue o) view
      | (None, view) => (None, view)
      end
  end.

Definition GetValueIn (tx : CTransaction) (view : cache) : option Z * cache :=
  if IsCoinBase tx then (Some 0, view) else value_in (vin tx) 0 view.

Fixpoint p2sh_sigops (vin : list CTxIn) (nSigOps : Z) (view : cache) : option Z * cache :=
  match vin with
  | [] => (Some nSigOps, view)
  | txin :: vin =>
      match GetOutputFor txin view with
      | (Some o, view) =>
          p2sh_sigops vin
            (if Script.IsPayToScriptHash (scriptPubKey o)
             then T32 (nSigOps + Script.GetSigOpCount_P2SH (scriptPubKey o) (scriptSig txin)) else nSigOps) view
      | (None, view) => (None, view)
      end
  end.

Definition GetP2SHSigOpCount (tx : CTransaction) (view : cache) : option Z * cache :=
  if IsCoinBase tx then (Some 0, view) else p2sh_sigops (vin tx) 0 view.

(** ** [CheckInputs] *)

Fixpoint input_values (nSpendHeight : Z) (vin : list CTxIn) (nValueIn : Z) (view : cache) : checked Z * cache :=
  match vin with
  | [] => (Pass nValueIn, view)
  | txin :: vin =>
      match FetchCoins (hash (prevout txin)) view with
      | (None, view) => (Aborts, view)
      | (Some coins, view) =>
          let nValue := nValue (vout_at coins (n (prevout txin))) in
          if (fCoinBase coins || fCoinStake coins) && (nSpendHeight - nHeight coins <? COINBASE_MATURITY)
          then (Fails (mkRejection 0 REJECT_INVALID "bad-txns-premature-spend-of-coinbase"), view)
          else if negb (MoneyRange nValue) || negb (MoneyRange (nValueIn + nValue))
          then (Fails (mkRejection 100 REJECT_INVALID "bad-txns-inputvalues-outofrange"), view)
          else input_values nSpendHeight vin (nValueIn + nValue) view
      end
  end.

(** The fee of a transaction that is no coinstake. *)
Definition check_fee (tx : CTransaction) (nValueIn : Z) : checked unit :=
  if negb (IsCoinStake tx) then
    match GetValueOut tx with
    | Value nValueOut =>
        if nValueIn <? nValueOut then Fails (mkRejection 100 REJECT_INVALID "bad-txns-in-belowout")
        else
          let nTxFee := nValueIn - nValueOut in
          if nTxFee <? 0 then Fails (mkRejection 100 REJECT_INVALID "bad-txns-fee-negative")
          else if negb (MoneyRange (0 + nTxFee)) then Fails (mkRejection 100 REJECT_INVALID "bad-txns-fee-outofrange")
          else Pass tt
    | _ => Aborts
    end
  else Pass tt.

(** [CScriptCheck::operator()]: the error it sets, [None] being none. *)
Definition run_check (tx : CTransaction) (check : CScriptCheck) : option (option SigEncoding.ScriptError) :=
  match Interpreter.VerifyScript (SigHash.CheckSig Verify tx (nIn check)) (nFlags check)
          (scriptSig (SigHash.vin_at tx (nIn check))) (check_script check) with
  | None => None
  | Some (Interpreter.Ok _) => Some None
  | Some (Interpreter.Err e) => Some (Some e)
  end.

Definition rejected_script (e : SigEncoding.ScriptError) : rejection :=
  mkRejection 100 REJECT_INVALID
    ("mandatory-script-verify-flag-failed (" ++ ScriptErrorString (Some e) ++ ")")%string.

(** The second run without the flags that are not mandatory; the message
    reports the error of that run, which has succeeded. *)
Definition rejection_of_script (tx : CTransaction) (check : CScriptCheck) (e : SigEncoding.ScriptError) : option rejection :=
  if negb (nFlags check .& flag_standard_not_mandatory =? 0) then
    match run_check tx (mkCheck (check_script check) (nIn check) (Z.ldiff (nFlags check) flag_standard_not_mandatory)) with
    | None => None
    | Some None =>
        Some (mkRejection 0 REJECT_NONSTANDARD ("non-mandatory-script-verify-flag (" ++ ScriptErrorString None ++ ")")%string)
    | Some (Some _) => Some (rejected_script e)
    end
  else Some (rejected_script e).

(** The second loop; [pvChecks] says whether the checks are collected for
    the threads of the check queue instead of run. *)
Fixpoint script_checks (tx : CTransaction) (flags : Z) (pvChecks : bool) (i : nat) (vin : list CTxIn) (view : cache)
  : checked (list CScriptCheck) * cache :=
  match vin with
  | [] => (Pass [], view)
  | txin :: vin =>
      match FetchCoins (hash (prevout txin)) view with
      | (None, view) => (Aborts, view)
      | (Some coins, view) =>
          let check := mkCheck (scriptPubKey (vout_at coins (n (prevout txin)))) i flags in
          if pvChecks then
            match script_checks tx flags pvChecks (S i) vin view with
            | (Pass l, view) => (Pass (check :: l), view)
            | r => r
            end
          else
            match run_check tx check with
            | None => (Aborts, view)
            | Some None => script_checks tx flags pvChecks (S i) vin view
            | Some (Some e) =>
                (match rejection_of_script tx check e with Some r => Fails r | None => Aborts end, view)
            end
      end
  end.

Definition CheckInputs (tx : CTransaction) (fScriptChecks : bool) (flags : Z) (pvChecks : bool) (inputs : cache)
  : checked (list CScriptCheck) * cache :=
  if negb (IsCoinBase tx) && negb (IsV5CoinStake tx) then
    match HaveInputs tx inputs with
    | (false, inputs) => (Fails (mkRejection 0 0 EmptyString), inputs)
    | (true, inputs) =>
        let '(best, inputs) := Cache_GetBestBlock inputs in
        match block_height best with
        | None => (Aborts, inputs)
        | Some nHeight =>
            match input_values (nHeight + 1) (vin tx) 0 inputs with
            | (Aborts, inputs) => (Aborts, inputs)
            | (Fails r, inputs) => (Fails r, inputs)
            | (Pass nValueIn, inputs) =>
                match check_fee tx nValueIn with
                | Aborts => (Aborts, inputs)
                | Fails r => (Fails r, inputs)
                | Pass _ => if fScriptChecks then script_checks tx flags pvChecks 0 (vin tx) inputs else (Pass [], inputs)
                end
            end
        end
    end
  else (Pass [], inputs).

(** ** [UpdateCoins] *)

Fixpoint spend_inputs (vin : list CTxIn) (vprevout : list CTxInUndo.t) (inputs : cache)
  : option (bool * list CTxInUndo.t * cache) :=
  match vin with
  | [] => Some (true, vprevout, inputs)
  | txin :: vin =>
      match modify (hash (prevout txin))
              (fun c => match Spend c (n (prevout txin)) with
                        | Some (c', undo) => (c', Some undo)
                        | None => (c, None)
                        end) inputs with
      | None => None
      | Some (Some undo, inputs) => spend_inputs vin (vprevout ++ [undo]) inputs
      | Some (None, inputs) => Some (false, vprevout ++ [CTxInUndo.empty], inputs)
      end
  end.

(** The flag, the undo information and the view; when it fails the state is
    marked by [state.Invalid()]. *)
Definition UpdateCoins (tx : CTransaction) (nHeight : Z) (inputs : cache) : option (bool * list CTxInUndo.t * cache) :=
  match (if negb (IsCoinBase tx) && negb (IsV5CoinStake tx) then spend_inputs (vin tx) [] inputs
         else Some (true, [], inputs)) with
  | None => None
  | Some (false, txundo, inputs) => Some (false, txundo, inputs)
  | Some (true, txundo, inputs) =>
      match modify (GetHash tx) (fun _ => (FromTx tx nHeight, tt)) inputs with
      | None => None
      | Some (_, inputs) => Some (true, txundo, inputs)
      end
  end.

(** ** [DisconnectBlock] *)

(** The outputs of the transaction: whether they match, and clear them. *)
Definition remove_outputs (tx : CTransaction) (nHeight : Z) (outs : CCoins) : CCoins * bool :=
  let outs := ClearUnspendable outs in
  let outsBlock := FromTx tx nHeight in
  let outs := if Coins.nVersion outsBlock <? 0
              then mkCoins (fCoinBase outs) (fCoinStake outs) (Coins.vout outs) (Coins.nHeight outs) (Coins.nVersion outsBlock)
              else outs in
  (Clear outs, CCoins_eq outs outsBlock).

(** [if (vout.size() < out.n + 1) vout.resize(out.n + 1)] and the write. *)
Definition put_output (v : list CTxOut) (k : Z) (o : CTxOut) : list CTxOut :=
  let v := if Z.of_nat (length v) <? T32 (k + 1)
           then v ++ repeat CTxOut_SetNull (Z.to_nat (T32 (k + 1)) - length v) else v in
  set_vout v (Z.to_nat k) o.

(** One input: whether the undo information fits, and the coins restored. *)
Definition restore_input (out : COutPoint) (undo : CTxInUndo.t) (coins : CCoins) : CCoins * bool :=
  let '(coins, fClean) :=
    if negb (CTxInUndo.nHeight undo =? 0) then
      (let c := Clear coins in
       mkCoins (CTxInUndo.fCoinBase undo) (fCoinStake c) (Coins.vout c)
               (Serialize.to_signed 32 (CTxInUndo.nHeight undo)) (CTxInUndo.nVersion undo),
       IsPruned coins)
    else (coins, negb (IsPruned coins)) in
  let fClean := fClean && negb (IsAvailable coins (n out)) in
  (with_vout coins (put_output (Coins.vout coins) (n out) (CTxInUndo.txout undo)), fClean).

(** [for (unsigned int j = tx.vin.size(); j-- > 0;)], over the inputs and
    their undo information, last one first. *)
Fixpoint restore_inputs (l : list (COutPoint * CTxInUndo.t)) (fClean : bool) (view : cache) : option (bool * cache) :=
  match l with
  | [] => Some (fClean, view)
  | (out, undo) :: l =>
      match modify (hash out) (restore_input out undo) view with
      | None => None
      | Some (ok, view) => restore_inputs l (fClean && ok) view
      end
  end.

(** One transaction; [inl] is an early [return error(...)]. *)
Definition disconnect_tx (tx : CTransaction) (txundo : option (list CTxInUndo.t)) (nHeight : Z) (fClean : bool) (view : cache)
  : option (unit + bool * cache) :=
  match modify (GetHash tx) (remove_outputs tx nHeight) view with
  | None => None
  | Some (ok, view) =>
      let fClean := fClean && ok in
      if negb (IsCoinBase tx) && negb (IsV5CoinStake tx) then
        match txundo with
        | None => None
        | Some vprevout =>
            if negb (length vprevout =? length (vin tx))%nat then Some (inl tt)
            else match restore_inputs (rev (combine (map prevout (vin tx)) vprevout)) fClean view with
                 | None => None
                 | Some r => Some (inr r)
                 end
        end
      else Some (inr (fClean, view))
  end.

(** [for (int i = block.vtx.size() - 1; i >= 0; i--)], where [i] counts the
    transactions that are left; [vtxundo[i - 1]] belongs to the [i]-th. *)
Fixpoint disconnect_txs (i : nat) (vtx : list CTransaction) (vtxundo : list (list CTxInUndo.t)) (nHeight : Z) (fClean : bool)
    (view : cache) : option (unit + bool * cache) :=
  match i with
  | O => Some (inr (fClean, view))
  | S i =>
      match nth_error vtx i with
      | None => None
      | Some tx =>
          match disconnect_tx tx (match i with O => None | S k => nth_error vtxundo k end) nHeight fClean view with
          | Some (inr (fClean, view)) => disconnect_txs i vtx vtxundo nHeight fClean view
          | r => r
          end
      end
  end.

(** The transactions of [DisconnectBlock]; the undo information has been
    read.  The result is [fClean] and the view at the previous block. *)
Definition DisconnectBlock (vtx : list CTransaction) (vtxundo : list (list CTxInUndo.t)) (nHeight : Z) (hashPrev : list Z)
    (view : cache) : option (unit + bool * cache) :=
  if negb (length vtxundo + 1 =? length vtx)%nat then Some (inl tt)
  else match disconnect_txs (length vtx) vtx vtxundo nHeight true view with
       | Some (inr (fClean, view)) => Some (inr (fClean, SetBestBlock hashPrev view))
       | r => r
       end.
End Connect.

(** * Reading the inputs *)

Section Reading.
Context {V : Type} `{!CCoinsView V, !CoinsSpec V, !ReadableView V} {params : CChainParams}.
Implicit Types (view : CCoinsViewCache V).

(** The output an input spends, with its coins. *)
Definition spent (u : list Z -> option CCoins) (txin : CTxIn) : option (CCoins * CTxOut) :=
  c ← u (hash (prevout txin));
  if IsAvailable c (n (prevout txin)) then Some (c, vout_at c (n (prevout txin))) else None.

(** Outpoints have positions of 32 bits. *)
Definition positioned (vin : list CTxIn) : Prop := Forall (fun i => 0 <= n (prevout i)) vin.

Lemma pruned_unavailable c k : 0 <= k -> IsPruned c = true -> IsAvailable c k = false.
Proof using. intros Hk Hp. rewrite IsAvailable_available by done. by apply IsPruned_available. Qed.

Lemma fetch_spec txin view r view' : 0 <= n (prevout txin) -> wf view -> FetchCoins (hash (prevout txin)) view = (r, view') ->
  unchanged view view' /\
  match r with
  | Some c => spent (utxo view) txin = if IsAvailable c (n (prevout txin)) then Some (c, vout_at c (n (prevout txin))) else None
  | None => spent (utxo view) txin = None
  end.
Proof using All.
  intros Hn Hwf F. destruct (FetchCoins_law _ _ _ _ Hwf F) as [U Hr]. split; [done|]. unfold spent. destruct r as [c|].
  - destruct Hr as (_ & -> & _). unfold unpruned. destruct (IsPruned c) eqn:P; [|done].
    cbn. by rewrite pruned_unavailable.
  - by rewrite Hr.
Qed.

Lemma spent_unchanged view view' txin : unchanged view view' -> spent (utxo view') txin = spent (utxo view) txin.
Proof using. intros (_ & U & _). unfold spent. by rewrite U. Qed.

(** The spent outputs of all inputs. *)
Definition all_spent (u : list Z -> option CCoins) (vin : list CTxIn) (ins : list (CCoins * CTxOut)) : Prop :=
  Forall2 (fun i p => spent u i = Some p) vin ins.

Lemma all_spent_unchanged view view' vin ins : unchanged view view' -> all_spent (utxo view) vin ins -> all_spent (utxo view') vin ins.
Proof using. intros U H. eapply Forall2_impl; [|exact H]. intros i p. cbn beta. by rewrite (spent_unchanged _ _ _ U). Qed.

Lemma have_inputs_spec vin : forall view r view', positioned vin -> wf view -> have_inputs vin view = (r, view') ->
  unchanged view view' /\ (r = true <-> exists ins, all_spent (utxo view) vin ins).
Proof using All.
  induction vin as [|i vin IH]; intros view r view' Hp Hwf; cbn [have_inputs].
  { intros [= <- <-]. split; [by apply unchanged_refl|]. split; [|done]. intros _. exists []. constructor. }
  apply Forall_cons_iff in Hp as [Hi Hp]. destruct (FetchCoins (hash (prevout i)) view) as [o v1] eqn:F.
  destruct (fetch_spec _ _ _ _ Hi Hwf F) as [U Ho].
  assert (Hbad : spent (utxo view) i = None -> ~ exists ins, all_spent (utxo view) (i :: vin) ins).
  { intros E [ins H]. inversion H; congruence. }
  destruct o as [c|]; [|intros [= <- <-]; split; [done|]; split; [done | intros H; by destruct (Hbad Ho)]].
  destruct (IsAvailable c (n (prevout i))); cbn [negb].
  - intros H. destruct (IH v1 r view' Hp (proj1 U) H) as [U' Hr]. split; [by eapply unchanged_trans|]. rewrite Hr. split.
    + intros [ins H1]. eexists (_ :: ins). constructor; [exact Ho|]. eapply Forall2_impl; [|exact H1].
      intros i' p. cbn beta. by rewrite (spent_unchanged _ _ _ U).
    + intros [ins H1]. inversion H1; subst. eexists. by eapply all_spent_unchanged.
  - intros [= <- <-]. split; [done|]. split; [done | intros H; by destruct (Hbad Ho)].
Qed.

Lemma HaveInputs_spec tx view r view' : positioned (vin tx) -> wf view -> HaveInputs tx view = (r, view') ->
  unchanged view view' /\ (r = true <-> IsCoinBase tx = true \/ exists ins, all_spent (utxo view) (vin tx) ins).
Proof using All.
  intros Hp Hwf. unfold HaveInputs. destruct (IsCoinBase tx).
  - intros [= <- <-]. split; [by apply unchanged_refl|]. split; [by left | done].
  - intros H. destruct (have_inputs_spec _ _ _ _ Hp Hwf H) as [U ->]. split; [done|]. split; [by right | by intros [|]].
Qed.

(** A fetch of an input that is there. *)
Lemma fetch_spent i view p : 0 <= n (prevout i) -> wf view -> spent (utxo view) i = Some p ->
  exists view', FetchCoins (hash (prevout i)) view = (Some p.1, view') /\ unchanged view view' /\
    p.2 = vout_at p.1 (n (prevout i)) /\ IsAvailable p.1 (n (prevout i)) = true.
Proof using All.
  intros Hn Hwf Hs. destruct (FetchCoins (hash (prevout i)) view) as [o v1] eqn:F.
  destruct (fetch_spec _ _ _ _ Hn Hwf F) as [U Ho]. destruct o as [c|]; [|congruence].
  rewrite Hs in Ho. destruct (IsAvailable c (n (prevout i))) eqn:E; [|done]. injection Ho as ->. eauto.
Qed.

(** [GetValueIn] is the sum of the spent outputs. *)
Definition total_in (ins : list (CCoins * CTxOut)) : Z := total (map snd ins).

Lemma value_in_spec vin ins : forall view n0, positioned vin -> wf view -> all_spent (utxo view) vin ins ->
  exists view', value_in vin n0 view = (Some (n0 + total_in ins), view') /\ unchanged view view'.
Proof using All.
  revert ins. induction vin as [|i vin IH]; intros ins view n0 Hp Hwf H; inversion H as [|? p ? ins' Hi Hv]; subst; cbn [value_in].
  { exists view. unfold total_in. cbn. rewrite Z.add_0_r. split; [done | by apply unchanged_refl]. }
  apply Forall_cons_iff in Hp as [Hn Hp]. destruct (fetch_spent _ _ _ Hn Hwf Hi) as (v1 & F & U & E2 & Ea).
  unfold GetOutputFor. rewrite F, Ea, <- E2. destruct (IH ins' v1 (n0 + nValue p.2) Hp (proj1 U)) as (v2 & -> & U2).
  { by eapply all_spent_unchanged. }
  exists v2. split; [f_equal; f_equal; unfold total_in, total; cbn; lia | by eapply unchanged_trans].
Qed.

(** ** The loops of [CheckInputs] over the spent outputs *)

Variable Verify : list Z -> list Z -> list Z -> bool.

(** A coinbase or coinstake output is [COINBASE_MATURITY] blocks deep. *)
Definition mature (nSpendHeight : Z) (c : CCoins) : Prop :=
  fCoinBase c || fCoinStake c = true -> COINBASE_MATURITY <= nSpendHeight - nHeight c.

Fixpoint values_of (nSpendHeight : Z) (ins : list (CCoins * CTxOut)) (nValueIn : Z) : checked Z :=
  match ins with
  | [] => Pass nValueIn
  | (coins, o) :: ins =>
      if (fCoinBase coins || fCoinStake coins) && (nSpendHeight - nHeight coins <? COINBASE_MATURITY)
      then Fails (mkRejection 0 REJECT_INVALID "bad-txns-premature-spend-of-coinbase")
      else if negb (MoneyRange (nValue o)) || negb (MoneyRange (nValueIn + nValue o))
      then Fails (mkRejection 100 REJECT_INVALID "bad-txns-inputvalues-outofrange")
      else values_of nSpendHeight ins (nValueIn + nValue o)
  end.

Lemma input_values_spec h vin ins : forall view n0, positioned vin -> wf view -> all_spent (utxo view) vin ins ->
  exists view', input_values h vin n0 view = (values_of h ins n0, view') /\ unchanged view view'.
Proof using All.
  revert ins. induction vin as [|i vin IH]; intros ins view n0 Hp Hwf H; inversion H as [|? p ? ins' Hi Hv]; subst; cbn [input_values values_of].
  { exists view. split; [done | by apply unchanged_refl]. }
  apply Forall_cons_iff in Hp as [Hn Hp]. destruct (fetch_spent _ _ _ Hn Hwf Hi) as (v1 & -> & U & E2 & Ea).
  destruct p as [c o]. cbn [fst snd] in *. subst o.
  destruct (_ && _); [by exists v1|]. destruct (_ || _); [by exists v1|].
  destruct (IH ins' v1 (n0 + nValue (vout_at c (n (prevout i)))) Hp (proj1 U)) as (v2 & -> & U2).
  { by eapply all_spent_unchanged. }
  exists v2. split; [done | by eapply unchanged_trans].
Qed.

Definition money (o : CTxOut) : Prop := 0 <= nValue o <= MaxMoneyOut.

Lemma MoneyRange_iff v : MoneyRange v = true <-> 0 <= v <= MaxMoneyOut.
Proof using. unfold MoneyRange. rewrite andb_true_iff, Z.geb_le, Z.leb_le. done. Qed.

Lemma total_in_nonneg ins : Forall (fun p => money p.2) ins -> 0 <= total_in ins.
Proof using. unfold total_in, total, money. induction 1 as [|p ins [Hp _] _ IH]; cbn in *; lia. Qed.

Lemma values_of_spec h ins : forall n0, 0 <= n0 <= MaxMoneyOut ->
  values_of h ins n0 <> Aborts /\
  (forall m, values_of h ins n0 = Pass m <->
     m = n0 + total_in ins /\ Forall (fun p => mature h p.1 /\ money p.2) ins /\ n0 + total_in ins <= MaxMoneyOut).
Proof using.
  induction ins as [|[c o] ins IH]; intros n0 Hn; cbn [values_of].
  { unfold total_in, total. cbn. split; [done|]. intros m. rewrite Z.add_0_r. split; [intros [= <-]; repeat split; [constructor | lia] | intros [-> _]; done]. }
  assert (Ht : total_in ((c, o) :: ins) = nValue o + total_in ins) by (unfold total_in, total; cbn; done). rewrite Ht.
  destruct ((fCoinBase c || fCoinStake c) && _) eqn:Em.
  { split; [done|]. intros m. split; [done|]. intros (_ & F & _). apply Forall_cons_iff in F as [[Hm _] _].
    apply andb_true_iff in Em as [E1 E2%Z.ltb_lt]. unfold mature in Hm. cbn in Hm. specialize (Hm E1). lia. }
  assert (Hmat : mature h c).
  { intros E. rewrite E in Em. cbn in Em. by apply Z.ltb_ge in Em. }
  destruct (MoneyRange (nValue o)) eqn:E1; cbn [negb orb].
  2: { split; [done|]. intros m. split; [done|]. intros (_ & F & _). apply Forall_cons_iff in F as [[_ Hm] _]. cbn in Hm.
       apply MoneyRange_iff in Hm. congruence. }
  apply MoneyRange_iff in E1. destruct (MoneyRange (n0 + nValue o)) eqn:E2; cbn [negb].
  - apply MoneyRange_iff in E2. destruct (IH (n0 + nValue o) E2) as [IH1 IH2]. split; [done|]. intros m. rewrite IH2, Forall_cons_iff.
    cbn [fst snd]. unfold money at 2. split; intros (-> & F & Hle); repeat split; try tauto; lia.
  - split; [done|]. intros m. split; [done|]. intros (_ & F & Hle). apply Forall_cons_iff in F as [_ F].
    assert (0 <= total_in ins) by (apply total_in_nonneg; eapply Forall_impl; [|exact F]; cbn; tauto).
    assert (MoneyRange (n0 + nValue o) = true) by (apply MoneyRange_iff; lia). congruence.
Qed.

(** The script checks of the inputs, in order. *)
Fixpoint checks_of (flags : Z) (i : nat) (ins : list (CCoins * CTxOut)) : list CScriptCheck :=
  match ins with
  | [] => []
  | p :: ins => mkCheck (scriptPubKey p.2) i flags :: checks_of flags (S i) ins
  end.

Lemma run_check_total tx check : exists r, run_check Verify tx check = Some r.
Proof using.
  unfold run_check. destruct (Interpreter.VerifyScript_total (SigHash.CheckSig Verify tx (nIn check)) (nFlags check)
    (scriptSig (SigHash.vin_at tx (nIn check))) (check_script check)) as [r ->]. destruct r; eauto.
Qed.

Lemma rejection_total tx check e : exists r, rejection_of_script Verify tx check e = Some r.
Proof using.
  unfold rejection_of_script. destruct (negb _); [|eauto]. destruct (run_check_total tx (mkCheck (check_script check) (nIn check)
    (Z.ldiff (nFlags check) flag_standard_not_mandatory))) as [[?|] ->]; eauto.
Qed.

(** Collected, the checks are those of the inputs; run, they all pass or the
    transaction is rejected. *)
Lemma script_checks_spec tx flags pvChecks vin ins : forall i view, positioned vin -> wf view -> all_spent (utxo view) vin ins ->
  exists r view', script_checks Verify tx flags pvChecks i vin view = (r, view') /\ unchanged view view' /\ r <> Aborts /\
    (forall l, r = Pass l <-> if pvChecks then l = checks_of flags i ins
                              else l = [] /\ Forall (fun check => run_check Verify tx check = Some None) (checks_of flags i ins)).
Proof using All.
  revert ins. induction vin as [|txin vin IH]; intros ins i view Hp Hwf H; inversion H as [|? p ? ins' Hi Hv]; subst; cbn [script_checks checks_of].
  { eexists _, _. split; [done|]. split; [by apply unchanged_refl|]. split; [done|]. intros l.
    destruct pvChecks; [split; [by intros [= <-] | by intros ->]|].
    split; [intros [= <-]; split; [done | constructor] | by intros [-> _]]. }
  apply Forall_cons_iff in Hp as [Hn Hp]. destruct (fetch_spent _ _ _ Hn Hwf Hi) as (v1 & -> & U & E2 & Ea). rewrite <- E2.
  destruct (IH ins' (S i) v1 Hp (proj1 U)) as (r & v2 & Hr & U2 & Hab & Hl); [by eapply all_spent_unchanged|].
  pose proof (unchanged_trans _ _ _ U U2) as U'.
  destruct pvChecks.
  - rewrite Hr. destruct r as [l0|r|]; [|exists (Fails r), v2; split; [done|]; split; [done|]; split; [done|]|done].
    + eexists _, _. split; [done|]. split; [done|]. split; [done|]. intros l. pose proof (proj1 (Hl l0) eq_refl) as ->.
      split; [by intros [= <-] | by intros ->].
    + intros l. split; [done|]. intros ->. exfalso. by pose proof (proj2 (Hl _) eq_refl).
  - set (check := mkCheck _ i flags). destruct (run_check_total tx check) as [[e|] Hrun]; rewrite Hrun.
    + destruct (rejection_total tx check e) as [rj ->]. eexists _, _. split; [done|]. split; [done|]. split; [done|].
      intros l. split; [done|]. intros [_ F]. apply Forall_cons_iff in F as [F _]. congruence.
    + rewrite Hr. eexists _, _. split; [done|]. split; [done|]. split; [done|]. intros l. rewrite Hl, Forall_cons_iff. tauto.
Qed.

Lemma value_out_nonneg vout : forall n0 v, value_out_loop n0 vout = Value v -> n0 <= v.
Proof using.
  induction vout as [|o vout IH]; intros n0 v; cbn [value_out_loop]; [intros [= <-]; lia|].
  destruct (Z.ltb_spec (nValue o) 0); [done|]. destruct (_ <? _); [done|]. intros E. apply IH in E. lia.
Qed.

Lemma check_fee_spec tx out value : GetValueOut tx = Value out -> 0 <= value <= MaxMoneyOut ->
  check_fee tx value <> Aborts /\ (check_fee tx value = Pass tt <-> (IsCoinStake tx = false -> out <= value)).
Proof using.
  intros Ho Hv. unfold check_fee. rewrite Ho. destruct (IsCoinStake tx); cbn [negb]; [done|].
  apply value_out_nonneg in Ho. destruct (Z.ltb_spec value out) as [|Hle].
  { split; [done|]. split; [done | intros H1; specialize (H1 eq_refl); lia]. }
  destruct (Z.ltb_spec (value - out) 0); [lia|].
  replace (MoneyRange (0 + (value - out))) with true by (symmetry; apply MoneyRange_iff; lia). done.
Qed.

(** What a transaction with inputs must fulfil at [nSpendHeight]. *)
Definition inputs_pass (tx : CTransaction) (nSpendHeight : Z) (out : Z) (ins : list (CCoins * CTxOut)) : Prop :=
  Forall (fun p => mature nSpendHeight p.1 /\ money p.2) ins /\ total_in ins <= MaxMoneyOut /\
  (IsCoinStake tx = false -> out <= total_in ins).

(** Every input's script verifies. *)
Definition scripts_pass (tx : CTransaction) (l : list CScriptCheck) : Prop :=
  Forall (fun check => run_check Verify tx check = Some None) l.

Lemma all_spent_unique u vin ins ins' : all_spent u vin ins -> all_spent u vin ins' -> ins' = ins.
Proof using.
  unfold all_spent. intros H. revert ins'. induction H; intros ins' H'; inversion H'; subst; [done|]. f_equal; [congruence | eauto].
Qed.

Lemma CheckInputs_spec block_height tx fScriptChecks flags pvChecks view h out :
  wf view -> positioned (vin tx) -> block_height (best view) = Some h -> GetValueOut tx = Value out -> 0 <= MaxMoneyOut ->
  exists r view', CheckInputs Verify block_height tx fScriptChecks flags pvChecks view = (r, view') /\
    unchanged view view' /\ r <> Aborts /\
    forall l, r = Pass l <->
     l = [] /\ (IsCoinBase tx = true \/ IsV5CoinStake tx = true) \/
     IsCoinBase tx = false /\ IsV5CoinStake tx = false /\
     exists ins, all_spent (utxo view) (vin tx) ins /\ inputs_pass tx (h + 1) out ins /\
       l = (if fScriptChecks && pvChecks then checks_of flags 0 ins else []) /\
       (fScriptChecks = true -> pvChecks = false -> scripts_pass tx (checks_of flags 0 ins)).
Proof using All.
  intros Hwf Hp Hh Ho HM. unfold CheckInputs. destruct (IsCoinBase tx) eqn:Ecb; cbn [negb andb].
  { eexists _, _. split; [done|]. split; [by apply unchanged_refl|]. split; [done|].
    intros l. split; [intros [= <-]; auto | by intros [[-> _]|[? _]]]. }
  destruct (IsV5CoinStake tx) eqn:Ev5; cbn [negb].
  { eexists _, _. split; [done|]. split; [by apply unchanged_refl|]. split; [done|].
    intros l. split; [intros [= <-]; auto | by intros [[-> _]|[_ [? _]]]]. }
  destruct (HaveInputs tx view) as [b v1] eqn:EH. destruct (HaveInputs_spec _ _ _ _ Hp Hwf EH) as [U1 Hb]. rewrite Ecb in Hb.
  assert (Hfail : forall rj v', unchanged view v' -> (forall ins, all_spent (utxo view) (vin tx) ins -> ~ inputs_pass tx (h + 1) out ins) ->
    exists r view', (Fails rj, v') = (r, view') /\ unchanged view view' /\ r <> (Aborts : checked (list CScriptCheck)) /\
    forall l, r = Pass l <-> l = [] /\ (false = true \/ false = true) \/ false = false /\ false = false /\
     exists ins, all_spent (utxo view) (vin tx) ins /\ inputs_pass tx (h + 1) out ins /\
       l = (if fScriptChecks && pvChecks then checks_of flags 0 ins else []) /\
       (fScriptChecks = true -> pvChecks = false -> scripts_pass tx (checks_of flags 0 ins))).
  { intros rj v' U Hno. eexists _, _. split; [done|]. split; [done|]. split; [done|]. intros l. split; [done|].
    intros [[_ [?|?]]|(_ & _ & ins & Hi & Hpass & _)]; try done. by destruct (Hno _ Hi). }
  destruct b.
  2: { apply Hfail; [done|]. intros ins Hi _. assert (false = true) by (apply Hb; right; by exists ins). done. }
  destruct (proj1 Hb eq_refl) as [?|[ins Hins]]; [done|].
  assert (Huniq := fun ins' H => all_spent_unique _ _ _ ins' Hins H).
  destruct (Cache_GetBestBlock v1) as [bb v2] eqn:EB. destruct (Cache_GetBestBlock_law _ _ _ (proj1 U1) EB) as [U2 ->].
  replace (best v1) with (best view) by (symmetry; apply U1). rewrite Hh.
  pose proof (unchanged_trans _ _ _ U1 U2) as U12.
  destruct (input_values_spec (h + 1) (vin tx) ins v2 0 Hp (proj1 U12)) as (v3 & -> & U3); [by eapply all_spent_unchanged|].
  pose proof (unchanged_trans _ _ _ U12 U3) as U13.
  destruct (values_of_spec (h + 1) ins 0 ltac:(lia)) as [Hna Hpass]. destruct (values_of (h + 1) ins 0) as [value|rj|] eqn:EV; [|clear Hna|done].
  2: { apply Hfail; [done|]. intros ins' Hi (Hf & Ht & _). rewrite (Huniq _ Hi) in *.
       assert (Fails rj = Pass (0 + total_in ins)) by (apply Hpass; repeat split; [done | lia]). done. }
  destruct (proj1 (Hpass value) eq_refl) as (-> & Hf & Ht). rewrite Z.add_0_l in *.
  assert (Hnn : 0 <= total_in ins) by (apply total_in_nonneg; eapply Forall_impl; [|exact Hf]; cbn; tauto).
  destruct (check_fee_spec tx out (total_in ins) Ho ltac:(lia)) as [Hfa Hfee].
  destruct (check_fee tx (total_in ins)) as [[]|rj|]; [|clear Hfa|done].
  2: { apply Hfail; [done|]. intros ins' Hi (_ & _ & Hfee'). rewrite (Huniq _ Hi) in *. by apply Hfee in Hfee'. }
  pose proof (proj1 Hfee eq_refl) as Hle. assert (Hin : inputs_pass tx (h + 1) out ins) by done. destruct fScriptChecks.
  - destruct (script_checks_spec tx flags pvChecks (vin tx) ins 0 v3 Hp (proj1 U13)) as (r & v4 & -> & U4 & Hra & Hr);
      [by eapply all_spent_unchanged|].
    eexists _, _. split; [done|]. split; [by eapply unchanged_trans|]. split; [done|]. intros l. rewrite Hr. cbn [andb]. split.
    + intros Hl. right. split; [done|]. split; [done|]. exists ins. split; [done|]. split; [done|].
      destruct pvChecks; [done|]. destruct Hl as [-> Hl]. done.
    + intros [[_ [?|?]]|(_ & _ & ins' & Hi & _ & -> & Hs)]; try done. rewrite (Huniq _ Hi) in *.
      destruct pvChecks; [done|]. split; [done | by apply Hs].
  - eexists _, _. split; [done|]. split; [done|]. split; [done|]. cbn [andb]. intros l. split.
    + intros [= <-]. right. split; [done|]. split; [done|]. by exists ins.
    + intros [[-> _]|(_ & _ & ins' & _ & _ & -> & _)]; done.
Qed.

(** C11: over a view that keeps its promise, [CheckInputs] ends with a
    verdict and leaves the unspent outputs as they were; it accepts a
    transaction that has inputs exactly when every input is an unspent
    output, of an amount of money, of a transaction that is no coinbase or
    coinstake younger than the maturity; the amounts add up within the
    limit, to no less than the outputs unless it is a coinstake; and, where
    scripts are checked on the spot, every input's script verifies.  Where
    they are left to the threads, the checks handed over are those of all
    the inputs. *)
Theorem CheckInputs_iff block_height tx fScriptChecks flags pvChecks view h out :
  wf view -> positioned (vin tx) -> block_height (best view) = Some h -> GetValueOut tx = Value out -> 0 <= MaxMoneyOut ->
  exists r view', CheckInputs Verify block_height tx fScriptChecks flags pvChecks view = (r, view') /\
    unchanged view view' /\ r <> Aborts /\
    forall l, r = Pass l <->
     l = [] /\ (IsCoinBase tx = true \/ IsV5CoinStake tx = true) \/
     IsCoinBase tx = false /\ IsV5CoinStake tx = false /\
     exists ins, all_spent (utxo view) (vin tx) ins /\ inputs_pass tx (h + 1) out ins /\
       l = (if fScriptChecks && pvChecks then checks_of flags 0 ins else []) /\
       (fScriptChecks = true -> pvChecks = false -> scripts_pass tx (checks_of flags 0 ins)).
Proof using All. apply CheckInputs_spec. Qed.
End Reading.

End Connect.
