(* ===== verification/Undo.v ===== *)
(** Spending and undoing (main.cpp): [UpdateCoins] refines the spending of
    the inputs in a map of unspent outputs, and the undoing of a transaction
    by [DisconnectBlock] restores that map, but for the coinstake mark of
    coins the transaction had spent to the last output. *)
From stdpp Require Import base list gmap fin_maps.
From S2P Require Import Prelude SphTypes Script Serialize Transaction Params TxCheck Coins CoinsView Connect.
Open Scope list_scope.

Module Undo.
Import Script Params Transaction Coins CoinsView Connect.

#[local] Arguments IsPruned : simpl never.
#[local] Arguments Cleanup : simpl never.
#[local] Arguments GetHash : simpl never.

Abbreviation outputs := (list Z -> option CCoins) (only parsing).

(** * The specification: spending in a map of unspent outputs *)

(** [spends u vin undo u']: the inputs take their outputs one after another. *)
Inductive spends : outputs -> list CTxIn -> list CTxInUndo.t -> outputs -> Prop :=
| spends_nil u u' : (forall t, u' t = u t) -> spends u [] [] u'
| spends_cons u i vin c c' undo u1 l u' :
    u (hash (prevout i)) = Some c -> Spend c (n (prevout i)) = Some (c', undo) ->
    (forall t, u1 t = if decide (hash (prevout i) = t) then unpruned c' else u t) ->
    spends u1 vin l u' -> spends u (i :: vin) (undo :: l) u'.

(** ** What [Spend] does *)

Lemma Spend_shape c k c' undo : 0 <= k -> Spend c k = Some (c', undo) ->
  available (vout c) (Z.to_nat k) = true /\
  c' = Cleanup (with_vout c (set_vout (vout c) (Z.to_nat k) CTxOut_SetNull)) /\
  undo = if (length (vout c') =? 0)%nat then CTxInUndo.mk (vout_at c k) (fCoinBase c) (fCoinStake c) (T32 (nHeight c)) (nVersion c)
         else CTxInUndo.of_txout (vout_at c k).
Proof.
  intros Hk. unfold Spend. destruct (Z.leb_spec (Z.of_nat (length (vout c))) k) as [|Hl]; [done|].
  destruct (CTxOut_IsNull (vout_at c k)) eqn:E; [done|]. intros [= <- <-]. split; [|done].
  unfold available. fold (vout_at c k). rewrite E. by destruct (Nat.ltb_spec (Z.to_nat k) (length (vout c))); [|lia].
Qed.

Lemma Spend_clean c k c' undo : Spend c k = Some (c', undo) -> clean (vout c').
Proof. unfold Spend. destruct (_ <=? _); [done|]. destruct (CTxOut_IsNull _); [done|]. intros [= <- <-]. apply pop_nulls_spec. Qed.

Lemma Cleanup_clean c : clean (vout c) -> Cleanup c = c.
Proof. intros H. unfold Cleanup. rewrite pop_nulls_clean by done. by destruct c. Qed.

Lemma unpruned_available c k : available (vout c) k = true -> unpruned c = Some c.
Proof.
  intros H. unfold unpruned. destruct (IsPruned c) eqn:P; [|done].
  pose proof (proj1 (IsPruned_available c) P k). congruence.
Qed.

(** * Stored coins *)

(** A spent slot is as [SetNull] leaves it. *)
Definition canonical (v : list CTxOut) : Prop := Forall (fun o => CTxOut_IsNull o = true -> o = CTxOut_SetNull) v.

Definition stored_coins (c : CCoins) : Prop :=
  clean (vout c) /\ canonical (vout c) /\ 0 < nHeight c < 2 ^ 31.

Definition stored (u : outputs) : Prop := forall t c, u t = Some c -> stored_coins c.

Lemma canonical_pop v : canonical v -> canonical (pop_nulls (length v) v).
Proof. intros H. destruct (pop_nulls_spec v) as [_ (t & Ht & _)]. unfold canonical in *. rewrite Ht in H. by apply Forall_app in H as [H _]. Qed.

Lemma canonical_set v k : canonical v -> canonical (set_vout v k CTxOut_SetNull).
Proof.
  unfold canonical. revert k. induction v as [|o v IH]; intros [|k] H; cbn [set_vout]; try done; apply Forall_cons_iff in H as [Ho H];
    (constructor; [done|]); [done | by apply IH].
Qed.

Lemma stored_spend c k c' undo : 0 <= k -> stored_coins c -> Spend c k = Some (c', undo) -> stored_coins c'.
Proof.
  intros Hk (Hc & Hcan & Hh) HS. pose proof (Spend_clean _ _ _ _ HS) as Hcl. destruct (Spend_shape _ _ _ _ Hk HS) as (_ & -> & _).
  split; [done|]. split; [|done]. cbn [vout Cleanup with_vout]. by apply canonical_pop, canonical_set.
Qed.

(** ** Putting an output back *)

Lemma set_set_vout v k o : (k < length v)%nat -> set_vout (set_vout v k o) k (nth k v CTxOut_SetNull) = v.
Proof. revert k. induction v as [|x v IH]; intros [|k] H; cbn in *; try lia; [done|]. f_equal. apply IH. lia. Qed.

Lemma nulls v : Forall (fun o => CTxOut_IsNull o = true) v -> canonical v -> v = repeat CTxOut_SetNull (length v).
Proof. unfold canonical. intros Hn Hc. induction v as [|o v IH]; [done|]. apply Forall_cons_iff in Hn as [Ho Hn], Hc as [Hco Hc]. cbn. f_equal; auto. Qed.

Lemma put_back v k : clean v -> canonical v -> available v (Z.to_nat k) = true -> 0 <= k < 2 ^ 32 - 1 ->
  put_output (pop_nulls (length v) (set_vout v (Z.to_nat k) CTxOut_SetNull)) k (nth (Z.to_nat k) v CTxOut_SetNull) = v.
Proof.
  intros Hv Hcan Ha Hk. set (j := Z.to_nat k). set (w := set_vout v j CTxOut_SetNull).
  assert (Hj : (j < length v)%nat) by (unfold available in Ha; fold j in Ha; destruct (Nat.ltb_spec j (length v)); [done | discriminate Ha]).
  assert (Hlen : length w = length v) by apply length_set_vout. rewrite <- Hlen.
  destruct (pop_nulls_spec w) as [_ (t & Ht & Hn)]. set (p := pop_nulls (length w) w) in *.
  assert (Hct : canonical t). { pose proof (canonical_set v j Hcan) as Hcw. fold w in Hcw. unfold canonical in *. rewrite Ht in Hcw. by apply Forall_app in Hcw as [_ ?]. }
  pose proof (nulls t Hn Hct) as Et.
  assert (Hpt : (length p + length t = length v)%nat) by (rewrite <- Hlen, Ht, length_app; done).
  (* what was dropped is the spent output and the nulls before it *)
  assert (Hlast : (length p <= j)%nat -> length v = S j).
  { intros Hpj. destruct Hv as [->|Hl]; [cbn in Hj; lia|]. destruct (Nat.eq_dec (length v) (S j)) as [|Hne]; [done|]. exfalso.
    destruct (exists_last (l := v)) as (q & y & Ev); [by intros ->; cbn in Hj; lia|].
    assert (Hy : nth (length q) w CTxOut_SetNull = y).
    { unfold w. rewrite nth_set_vout, Ev, nth_middle. rewrite Ev, length_app in Hne. cbn in Hne. destruct (Nat.eqb_spec (length q) j); [lia | done]. }
    rewrite Ev, last_last in Hl. rewrite Ev, length_app in Hpt, Hj, Hne. cbn in Hpt, Hj, Hne.
    rewrite Ht, Et, app_nth2, nth_repeat in Hy by lia. by subst y. }
  assert (Hgt : (j < length p)%nat -> t = []).
  { intros Hpj. destruct t as [|o t']; [done|]. exfalso. destruct Hv as [->|Hl]; [cbn in Hj; lia|].
    destruct (exists_last (l := v)) as (q & y & Ev); [by intros ->; cbn in Hj; lia|].
    assert (Hy : nth (length q) w CTxOut_SetNull = y).
    { unfold w. rewrite nth_set_vout, Ev, nth_middle. rewrite Ev, length_app in Hpt. cbn in Hpt. destruct (Nat.eqb_spec (length q) j); [lia | done]. }
    rewrite Ev, last_last in Hl. rewrite Ev, length_app in Hpt. cbn in Hpt.
    rewrite Ht, Et, app_nth2, nth_repeat in Hy by lia. by subst y. }
  unfold put_output. rewrite T32_id by (unfold u32; lia). fold j.
  assert (Hw : (if Z.of_nat (length p) <? k + 1 then p ++ repeat CTxOut_SetNull (Z.to_nat (k + 1) - length p) else p) = w).
  { destruct (Z.ltb_spec (Z.of_nat (length p)) (k + 1)) as [Hlt|Hge].
    - rewrite Ht, Et. do 2 f_equal. assert (length v = S j) by (apply Hlast; lia). lia.
    - rewrite Ht, Hgt by lia. by rewrite app_nil_r. }
  rewrite Hw. by apply set_set_vout.
Qed.

(** ** Clearing the unspendable outputs twice *)

Definition clear_output (o : CTxOut) : CTxOut := if IsUnspendable (scriptPubKey o) then CTxOut_SetNull else o.

Lemma ClearUnspendable_FromTx tx h : ClearUnspendable (FromTx tx h) = FromTx tx h.
Proof.
  unfold FromTx. set (c0 := mkCoins _ _ _ h _). unfold ClearUnspendable at 1 3.
  fold clear_output. unfold ClearUnspendable. fold clear_output.
  set (v := map clear_output (vout c0)).
  assert (E : map clear_output (pop_nulls (length v) v) = pop_nulls (length v) v).
  { destruct (pop_nulls_spec v) as [_ (t & Ht & _)]. set (p := pop_nulls (length v) v) in *.
    assert (Hp : forall o, In o p -> clear_output o = o).
    { intros o Ho. assert (Hv : In o v) by (rewrite Ht; apply in_or_app; by left).
      apply in_map_iff in Hv as (o' & <- & _). unfold clear_output. destruct (IsUnspendable (scriptPubKey o')) eqn:E; [done | by rewrite E]. }
    rewrite <- (map_id p) at 2. by apply map_ext_in. }
  change (vout (Cleanup (with_vout c0 v))) with (pop_nulls (length v) v).
  change (map (fun txout => if IsUnspendable (scriptPubKey txout) then CTxOut_SetNull else txout) (pop_nulls (length v) v))
    with (map clear_output (pop_nulls (length v) v)).
  rewrite E. unfold Cleanup, with_vout. cbn [vout fCoinBase fCoinStake nHeight nVersion].
  f_equal. apply pop_nulls_clean. apply pop_nulls_spec.
Qed.

Lemma FromTx_clean tx h : clean (vout (FromTx tx h)).
Proof. apply pop_nulls_spec. Qed.

Lemma CCoins_eq_refl c : CCoins_eq c c = true.
Proof.
  unfold CCoins_eq. destruct (_ && _); [done|]. rewrite !eqb_reflx, !Z.eqb_refl. cbn [andb].
  induction (vout c) as [|o v IH]; [done|]. cbn [eq_outs]. rewrite IH, andb_true_r. unfold CTxOut_eq, eq_script.
  rewrite !Z.eqb_refl. by destruct (list_eq_dec _ _ _).
Qed.

(** Coins that stand for those of a transaction match them. *)
Lemma remove_outputs_matches tx h c : clean (vout c) -> unpruned c = unpruned (FromTx tx h) ->
  remove_outputs tx h c = (CCoins_empty, true).
Proof.
  intros Hc Hu. unfold remove_outputs. f_equal.
  destruct (IsPruned (FromTx tx h)) eqn:P.
  - assert (Hp : IsPruned c = true) by (unfold unpruned in Hu; rewrite P in Hu; by destruct (IsPruned c)).
    pose proof (clean_pruned c Hc Hp) as Ev. unfold CCoins_eq. rewrite P, andb_true_r.
    replace (IsPruned _) with true; [done|]. unfold IsPruned. destruct (Coins.nVersion (FromTx tx h) <? 0); cbn [vout];
    unfold ClearUnspendable, Cleanup, with_vout; cbn [vout]; by rewrite Ev.
  - assert (c = FromTx tx h) as -> by (unfold unpruned in Hu; rewrite P in Hu; destruct (IsPruned c); congruence).
    rewrite ClearUnspendable_FromTx. destruct (Coins.nVersion (FromTx tx h) <? 0); [|apply CCoins_eq_refl].
    replace (mkCoins _ _ _ _ _) with (FromTx tx h) by (by destruct (FromTx tx h)). apply CCoins_eq_refl.
Qed.

(** ** Undoing in the map *)

Lemma spends_none u vin l u' t : spends u vin l u' -> u t = None -> u' t = None.
Proof.
  induction 1 as [u u' E|u i vin c c' undo u1 l u' Hu HS H1 _ IH]; intros Ht; [congruence|].
  apply IH. rewrite H1. destruct (decide (hash (prevout i) = t)); [congruence | done].
Qed.

Lemma spends_ext u1 u2 vin l u' : (forall t, u1 t = u2 t) -> spends u1 vin l u' -> spends u2 vin l u'.
Proof.
  intros E H. destruct H as [u u' H|u i vin c c' undo w l u' Hu HS H1 H]; [constructor; intros t; by rewrite H, E|].
  econstructor; [by rewrite <- E | exact HS | intros t; by rewrite H1, E | exact H].
Qed.

Lemma spends_length u vin l u' : spends u vin l u' -> length l = length vin.
Proof. induction 1; cbn; congruence. Qed.

Lemma stored_spends_step u i c c' undo u1 : 0 <= n (prevout i) -> stored u -> u (hash (prevout i)) = Some c ->
  Spend c (n (prevout i)) = Some (c', undo) ->
  (forall t, u1 t = if decide (hash (prevout i) = t) then unpruned c' else u t) -> stored u1.
Proof.
  intros Hn Hs Hu HS H1 t d. rewrite H1. destruct (decide _) as [_|_]; [|apply Hs].
  unfold unpruned. destruct (IsPruned c'); [done|]. intros [= <-]. eapply stored_spend; eauto.
Qed.

(** Coins restored from nothing have lost their coinstake mark. *)
Definition unstaked (c : CCoins) : CCoins := mkCoins (fCoinBase c) false (vout c) (nHeight c) (nVersion c).

(** The coins without the mark, where [b]. *)
Definition unmark (b : bool) (o : option CCoins) : option CCoins := if b then unstaked <$> o else o.

Definition gone (o : option CCoins) : bool := match o with None => true | Some _ => false end.

Lemma to_signed_small h : 0 <= h < 2 ^ 31 -> Serialize.to_signed 32 (T32 h) = h.
Proof. intros H. rewrite T32_id by (unfold u32; lia). unfold Serialize.to_signed. destruct (Z.ltb_spec h (2 ^ (32 - 1))); lia. Qed.

(** One input: the coins that are left, with the flag as it may be. *)
Lemma restore_input_spec out c c' undo d h : let k := n out in 0 <= k < 2 ^ 32 - 1 -> stored_coins c -> Spend c k = Some (c', undo) -> clean (vout d) ->
  unpruned d = unmark h (unpruned c') ->
  exists r, restore_input out undo d = (r, true) /\ clean (vout r) /\ unpruned r = Some (if h || (length (vout c') =? 0)%nat then unstaked c else c).
Proof.
  intros k Hk (Hc & Hcan & Hh) HS Hd Hu. pose proof (Spend_clean _ _ _ _ HS) as Hcl'.
  destruct (Spend_shape _ _ _ _ (proj1 Hk) HS) as (Ha & Ec' & Eu). pose proof (put_back _ _ Hc Hcan Ha Hk) as Hput.
  assert (Ev' : vout c' = pop_nulls (length (vout c)) (set_vout (vout c) (Z.to_nat k) CTxOut_SetNull)).
  { rewrite Ec', <- (length_set_vout (vout c) (Z.to_nat k) CTxOut_SetNull) at 1. done. }
  rewrite <- Ev' in Hput. fold (vout_at c k) in Hput.
  assert (Hav' : available (vout c') (Z.to_nat k) = false).
  { rewrite Ev', <- (length_set_vout (vout c) (Z.to_nat k) CTxOut_SetNull), available_pop, available_set by done.
    by rewrite Nat.eqb_refl, andb_false_r. }
  assert (Hc'f : fCoinBase c' = fCoinBase c /\ fCoinStake c' = fCoinStake c /\ nHeight c' = nHeight c /\ nVersion c' = nVersion c) by (by rewrite Ec').
  destruct Hc'f as (F1 & F2 & F3 & F4).
  unfold restore_input. fold k. destruct (Nat.eqb_spec (length (vout c')) 0) as [Hz|Hz].
  - apply nil_length_inv in Hz. assert (Hp : IsPruned c' = true) by (unfold IsPruned; by rewrite Hz).
    unfold unpruned in Hu at 2. rewrite Hp in Hu.
    assert (Hpd : IsPruned d = true) by (unfold unpruned in Hu; by destruct (IsPruned d), h).
    subst undo. cbn [CTxInUndo.nHeight CTxInUndo.fCoinBase CTxInUndo.nVersion CTxInUndo.txout].
    rewrite T32_id by (unfold u32; lia). destruct (Z.eqb_spec (nHeight c) 0); [lia|]. cbn [negb].
    rewrite Hpd. cbn [vout fCoinStake Clear andb]. rewrite Hz in Hput. rewrite Hput.
    pose proof (to_signed_small (nHeight c) ltac:(lia)) as Eh. rewrite T32_id in Eh by (unfold u32; lia). rewrite Eh.
    rewrite IsAvailable_available by (fold k; lia). cbn [available vout length negb andb].
    eexists. split; [done|]. cbn [with_vout vout fCoinBase fCoinStake nHeight nVersion]. split; [done|]. rewrite orb_true_r.
    by apply (unpruned_available _ (Z.to_nat k)).
  - assert (Hp : IsPruned c' = false).
    { destruct (IsPruned c') eqn:P; [|done]. by rewrite (clean_pruned c' Hcl' P) in Hz. }
    unfold unpruned in Hu at 2. rewrite Hp in Hu.
    assert (Ed : d = if h then unstaked c' else c').
    { unfold unpruned in Hu. destruct (IsPruned d); [by destruct h|]. destruct h; cbn in Hu; congruence. }
    assert (Evd : vout d = vout c') by (rewrite Ed; by destruct h).
    assert (Hpd : IsPruned d = false) by (unfold IsPruned in *; by rewrite Evd).
    subst undo. cbn [CTxInUndo.nHeight CTxInUndo.of_txout CTxInUndo.txout]. rewrite Z.eqb_refl. cbn [negb].
    rewrite Hpd, IsAvailable_available, Evd, Hav', Hput by lia. cbn [negb andb].
    eexists. split; [done|]. split; [done|]. rewrite orb_false_r.
    assert (Er : with_vout d (vout c) = if h then unstaked c else c).
    { rewrite Ed. destruct h; unfold with_vout, unstaked; cbn; rewrite F1, ?F2, F3, F4; [done | by destruct c]. }
    rewrite Er. apply (unpruned_available _ (Z.to_nat k)). by destruct h.
Qed.

(** * The code refines it *)

Section Refinement.
Context {V : Type} `{!CCoinsView V, !CoinsSpec V, !ReadableView V}.
Implicit Types (view : CCoinsViewCache V).

(** The positions of the inputs are those of outputs: a null outpoint's is
    the largest number of 32 bits. *)
Definition real_inputs (vin : list CTxIn) : Prop := Forall (fun i => 0 <= n (prevout i) < 2 ^ 32 - 1) vin.

Lemma real_positioned vin : real_inputs vin -> positioned vin.
Proof using. intros H. eapply Forall_impl; [|exact H]. cbn. lia. Qed.

Definition spend_one (k : Z) (c : CCoins) : CCoins * option CTxInUndo.t :=
  match Spend c k with Some (c', undo) => (c', Some undo) | None => (c, None) end.

(** The loop over the inputs ends without a failing assertion; it succeeds
    exactly when the map can be spent from, with the same undo information. *)
Lemma spend_inputs_spec vin : forall acc view, positioned vin -> wf view ->
  exists ok l view', spend_inputs vin acc view = Some (ok, acc ++ l, view') /\ wf view' /\ best view' = best view /\
    if ok : bool then spends (utxo view) vin l (utxo view')
    else forall l' u', ~ spends (utxo view) vin l' u'.
Proof using All.
  induction vin as [|i vin IH]; intros acc view Hp Hwf; cbn [spend_inputs].
  { exists true, [], view. rewrite app_nil_r. split; [done|]. split; [done|]. split; [done|]. by constructor. }
  apply Forall_cons_iff in Hp as [Hn Hp]. fold (spend_one (n (prevout i))).
  destruct (modify_law (hash (prevout i)) (spend_one (n (prevout i))) view Hwf) as (c & v1 & -> & Hc & Hu & Hwf1 & Hb1 & H1).
  unfold spend_one in *. destruct (Spend c (n (prevout i))) as [[c' undo]|] eqn:HS; cbn [fst snd] in *.
  - rewrite Cleanup_clean in H1 by (by eapply Spend_clean).
    destruct (IH (acc ++ [undo]) v1 Hp Hwf1) as (ok & l & v2 & -> & Hwf2 & Hb2 & H2).
    destruct (Spend_shape _ _ _ _ Hn HS) as (Ha & _ & _). rewrite (unpruned_available _ _ Ha) in Hu. symmetry in Hu.
    exists ok, (undo :: l), v2. rewrite <- app_assoc. split; [done|]. split; [done|]. split; [congruence|].
    destruct ok; [by econstructor|]. intros l' u' Hs. inversion Hs as [|? ? ? d d' undo' u1 l1 ? Hd HS' H1' Hs1]; subst.
    assert (d = c) as -> by congruence. assert (d' = c') as -> by congruence.
    apply (H2 l1 u'). assert (E : forall t, u1 t = utxo v1 t) by (intros t; by rewrite H1', H1).
    by apply (spends_ext _ _ _ _ _ E).
  - exists false, [CTxInUndo.empty], v1. split; [done|]. split; [done|]. split; [done|].
    intros l' u' Hs. inversion Hs as [|? ? ? d d' undo' u1 l1 ? Hd HS' H1' Hs1]; subst.
    destruct (Spend_shape _ _ _ _ Hn HS') as (Ha & _ & _). rewrite Hd in Hu. apply unpruned_Some in Hu as [-> _]. congruence.
Qed.

(** ** Connecting a transaction *)

(** Transactions whose inputs are spent. *)
Definition takes_inputs (tx : CTransaction) : bool := negb (IsCoinBase tx) && negb (IsV5CoinStake tx).

Definition add_outputs (tx : CTransaction) (nHeight : Z) (u : outputs) : outputs :=
  fun t => if decide (GetHash tx = t) then unpruned (FromTx tx nHeight) else u t.

Lemma UpdateCoins_spec tx nHeight view : wf view -> positioned (vin tx) ->
  exists ok undo view', UpdateCoins tx nHeight view = Some (ok, undo, view') /\ wf view' /\ best view' = best view /\
    if ok : bool
    then exists u, (if takes_inputs tx then spends (utxo view) (vin tx) undo u else undo = [] /\ forall t, u t = utxo view t) /\
           forall t, utxo view' t = add_outputs tx nHeight u t
    else takes_inputs tx = true /\ forall l u, ~ spends (utxo view) (vin tx) l u.
Proof using All.
  intros Hwf Hp. unfold UpdateCoins. fold (takes_inputs tx).
  assert (H : exists ok undo v1, (if takes_inputs tx then spend_inputs (vin tx) [] view else Some (true, [], view)) = Some (ok, undo, v1) /\
    wf v1 /\ best v1 = best view /\
    if ok : bool then if takes_inputs tx then spends (utxo view) (vin tx) undo (utxo v1) else undo = [] /\ forall t, utxo v1 t = utxo view t
    else takes_inputs tx = true /\ forall l u, ~ spends (utxo view) (vin tx) l u).
  { destruct (takes_inputs tx); [|by exists true, [], view].
    destruct (spend_inputs_spec (vin tx) [] view Hp Hwf) as (ok & l & v1 & -> & H1 & H2 & H3). exists ok, l, v1. destruct ok; eauto 8. }
  destruct H as (ok & undo & v1 & -> & Hwf1 & Hb1 & H). destruct ok; [|by exists false, undo, v1].
  destruct (modify_law (GetHash tx) (fun _ => (FromTx tx nHeight, tt)) v1 Hwf1) as (c & v2 & -> & _ & _ & Hwf2 & Hb2 & H2).
  exists true, undo, v2. split; [done|]. split; [done|]. split; [congruence|]. exists (utxo v1). split; [done|].
  intros t. rewrite H2. cbn [fst]. by rewrite Cleanup_clean by apply FromTx_clean.
Qed.

(** C12: [UpdateCoins] refines the update of the map of unspent outputs: it
    ends without a failing assertion; it succeeds exactly when the inputs
    (if the transaction has any to spend) can be taken from the map one
    after another, each from what the ones before it left; the view then
    stands for the map without them and with the spendable outputs of the
    transaction in place of whatever its identifier stood for, and the undo
    information is that of the spent outputs in order.  The best block is
    not touched. *)
Theorem UpdateCoins_refines tx nHeight view : wf view -> positioned (vin tx) ->
  exists ok undo view', UpdateCoins tx nHeight view = Some (ok, undo, view') /\ wf view' /\ best view' = best view /\
    if ok : bool
    then exists u, (if takes_inputs tx then spends (utxo view) (vin tx) undo u else undo = [] /\ forall t, u t = utxo view t) /\
           forall t, utxo view' t = add_outputs tx nHeight u t
    else takes_inputs tx = true /\ forall l u, ~ spends (utxo view) (vin tx) l u.
Proof using All. apply UpdateCoins_spec. Qed.

(** ** Disconnecting it *)

Lemma restore_inputs_app l1 : forall l2 ok view, restore_inputs (l1 ++ l2) ok view =
  match restore_inputs l1 ok view with Some (ok, view) => restore_inputs l2 ok view | None => None end.
Proof using.
  induction l1 as [|[out undo] l1 IH]; intros l2 ok view; cbn [app restore_inputs]; [done|].
  by destruct (modify _ _ _) as [[? ?]|].
Qed.

Lemma restore_inputs_spec u vin l u' : spends u vin l u' -> stored u -> real_inputs vin ->
  forall s view ok, wf view -> (forall t, utxo view t = unmark (s t) (u' t)) ->
  exists view', restore_inputs (rev (combine (map prevout vin) l)) ok view = Some (ok, view') /\ wf view' /\ best view' = best view /\
    forall t, utxo view' t = unmark (s t || gone (u' t)) (u t).
Proof using All.
  induction 1 as [u u' E|u i vin c c' undo u1 l u' Hu HS H1 Hs IH]; intros Hst Hp s view ok Hwf Hv.
  { exists view. split; [done|]. split; [done|]. split; [done|]. intros t. rewrite Hv, E.
    destruct (u t); cbn [gone]; [by rewrite orb_false_r | by destruct (s t)]. }
  apply Forall_cons_iff in Hp as [Hn Hp]. pose proof (stored_spends_step _ _ _ _ _ _ (proj1 Hn) Hst Hu HS H1) as Hst1.
  destruct (IH Hst1 Hp s view ok Hwf Hv) as (v1 & E1 & Hwf1 & Hb1 & Hv1).
  cbn [map combine rev]. rewrite restore_inputs_app, E1. cbn [restore_inputs].
  destruct (modify_law (hash (prevout i)) (restore_input (prevout i) undo) v1 Hwf1) as (d & v2 & -> & Hd & Hud & Hwf2 & Hb2 & H2).
  set (t0 := hash (prevout i)) in *. assert (H10 : u1 t0 = unpruned c') by (rewrite H1; by destruct (decide _)).
  destruct (restore_input_spec (prevout i) c c' undo d (s t0 || gone (u' t0)) Hn (Hst _ _ Hu) HS Hd) as (r & Er & Hr & Hur).
  { by rewrite Hud, Hv1, H10. }
  rewrite Er in H2 |- *. cbn [fst snd] in *. rewrite andb_true_r. exists v2. split; [done|]. split; [done|]. split; [congruence|].
  intros t. rewrite H2, Cleanup_clean, Hur by done. destruct (decide (t0 = t)) as [<-|Hne].
  - rewrite Hu. replace (s t0 || gone (u' t0) || (length (vout c') =? 0)%nat) with (s t0 || gone (u' t0)).
    { by destruct (s t0 || gone (u' t0)). }
    destruct (Nat.eqb_spec (length (vout c')) 0) as [Hz|]; [|by rewrite orb_false_r]. apply nil_length_inv in Hz.
    assert (u1 t0 = None) as Hnone by (rewrite H10; unfold unpruned, IsPruned; by rewrite Hz).
    rewrite (spends_none _ _ _ _ _ Hs Hnone). cbn [gone]. by rewrite !orb_true_r.
  - rewrite Hv1, H1. by destruct (decide (t0 = t)).
Qed.

(** From whatever view stands for the outputs after the transaction, or has
    lost marks of other transactions than this one. *)
Lemma disconnect_tx_spec tx nHeight u undo u' s view ok :
  stored u -> (takes_inputs tx = true -> real_inputs (vin tx)) -> u (GetHash tx) = None ->
  (if takes_inputs tx then spends u (vin tx) undo u' else forall t, u' t = u t) ->
  wf view -> s (GetHash tx) = false -> (forall t, utxo view t = unmark (s t) (add_outputs tx nHeight u' t)) ->
  exists view', disconnect_tx tx (Some undo) nHeight ok view = Some (inr (ok, view')) /\ wf view' /\ best view' = best view /\
    forall t, utxo view' t = unmark (s t || gone (u' t)) (u t).
Proof using All.
  intros Hst Hp Hnew Hs Hwf Hst0 Hv. unfold disconnect_tx. fold (takes_inputs tx).
  destruct (modify_law (GetHash tx) (remove_outputs tx nHeight) view Hwf) as (c & v1 & -> & Hc & Hu & Hwf1 & Hb1 & H1).
  assert (Hold : u' (GetHash tx) = None).
  { destruct (takes_inputs tx); [by eapply spends_none | by rewrite Hs]. }
  assert (Hrm : remove_outputs tx nHeight c = (CCoins_empty, true)).
  { apply remove_outputs_matches; [done|]. rewrite Hu, Hv, Hst0. unfold add_outputs. by destruct (decide _). }
  rewrite Hrm in *. cbn [fst snd] in *. rewrite andb_true_r.
  assert (Hv1 : forall t, utxo v1 t = unmark (s t) (u' t)).
  { intros t. rewrite H1. destruct (decide (GetHash tx = t)) as [<-|]; [by rewrite Hold, Hst0|].
    rewrite Hv. unfold add_outputs. by destruct (decide _). }
  destruct (takes_inputs tx).
  - rewrite (spends_length _ _ _ _ Hs), Nat.eqb_refl. cbn [negb].
    destruct (restore_inputs_spec _ _ _ _ Hs Hst (Hp eq_refl) s v1 ok Hwf1 Hv1) as (v2 & -> & ? & ? & ?).
    exists v2. split; [done|]. split; [done|]. split; [congruence | done].
  - exists v1. split; [done|]. split; [done|]. split; [done|]. intros t. rewrite Hv1, Hs.
    destruct (u t); cbn [gone]; [by rewrite orb_false_r | by destruct (s t)].
Qed.

(** Disconnecting a transaction right after it was connected, with the
    undo information connecting gave, is clean and gives back the map of
    unspent outputs, except for the coins the transaction had spent to the
    last output: these come back with their outputs, height, version and
    coinbase mark but no longer marked as those of a coinstake (the mark
    that makes the outputs wait for the maturity). *)
Theorem disconnect_gives_back tx nHeight view undo view' :
  wf view -> stored (utxo view) -> positioned (vin tx) -> (takes_inputs tx = true -> real_inputs (vin tx)) ->
  utxo view (GetHash tx) = None -> UpdateCoins tx nHeight view = Some (true, undo, view') ->
  exists view'', disconnect_tx tx (Some undo) nHeight true view' = Some (inr (true, view'')) /\ wf view'' /\ best view'' = best view /\
    forall t, utxo view'' t = unmark (gone (utxo view' t)) (utxo view t).
Proof using All.
  intros Hwf Hst Hpos Hp Hnew HU.
  destruct (UpdateCoins_spec tx nHeight view Hwf Hpos) as (ok & undo0 & v & E & Hwf' & Hb & H).
  rewrite HU in E. injection E as <- <- <-. destruct H as (u' & Hs & Hv).
  destruct (disconnect_tx_spec tx nHeight (utxo view) undo u' (fun _ => false) view' true Hst Hp Hnew) as (v2 & E2 & Hwf2 & Hb2 & H2); [|done..|].
  { destruct (takes_inputs tx); [done | apply Hs]. }
  exists v2. split; [done|]. split; [done|]. split; [congruence|]. intros t. rewrite H2. cbn [orb].
  destruct (utxo view t) as [c|] eqn:Et; [|by destruct (gone _), (gone _)]. rewrite Hv. unfold add_outputs.
  destruct (decide (GetHash tx = t)) as [<-|]; [congruence | done].
Qed.
End Refinement.

End Undo.
