(* ===== verification/ConnectBlock.v ===== *)
(** Connecting the transactions of a block (main.cpp, [ConnectBlock]): the
    rule of BIP30, the loop over the transactions with its counts, the mint
    of the block, and what [DisconnectBlock] makes of the view afterwards.

    [CheckBlock], the reward limit of the budget, the indexes and the undo
    files are not part of this file: the transactions are given, and the undo
    information is handed over in memory. *)
From stdpp Require Import base list gmap fin_maps.
From Stdlib Require Import String.
From S2P Require Import Prelude SphTypes Script SigEncoding Interpreter Serialize Transaction Params SigHash TxCheck Coins CoinsView Connect Undo.
Open Scope list_scope.

Module ConnectBlock.
Import Params Transaction TxCheck Coins CoinsView Connect Undo.

#[local] Arguments IsPruned : simpl never.
#[local] Arguments Cleanup : simpl never.
#[local] Arguments GetHash : simpl never.

Definition MAX_BLOCK_SIGOPS_CURRENT : Z := MAX_BLOCK_SIZE_CURRENT / 50.

(** The height from which zerocoin transactions are rejected. *)
Definition zerocoin_cutoff : Z := 2565000.

(** The locals of the loop.  [vChecks] are the checks added to the queue, with
    their transactions. *)
Record totals : Type := mkTotals {
  nFees : Z;
  nSigOps : Z;
  nValueIn : Z;
  nValueOut : Z;
  vtxundo : list (list CTxInUndo.t);
  vChecks : list (CTransaction * CScriptCheck);
}.

Definition totals_start : totals := mkTotals 0 0 0 0 [] [].

Definition bad_sigops : rejection := mkRejection 100 REJECT_INVALID "bad-blk-sigops".

Section ConnectBlock.
Context {V : Type} `{!CCoinsView V} {params : CChainParams}.
Variable Verify : list Z -> list Z -> list Z -> bool.
Variable block_height : list Z -> option Z.
(** [pindex->nHeight], the script flags with [fStrictPayToScriptHash],
    [fScriptChecks] and whether there are threads for the checks. *)
Variable height flags : Z.
Variable fStrictPayToScriptHash fScriptChecks fThreads : bool.
Implicit Types (view : CCoinsViewCache V).

(** [AccessCoins] finds coins with outputs for none of the identifiers. *)
Fixpoint overwrites (vtx : list CTransaction) view : bool * CCoinsViewCache V :=
  match vtx with
  | [] => (false, view)
  | tx :: vtx =>
      match FetchCoins (GetHash tx) view with
      | (Some coins, view) => if negb (IsPruned coins) then (true, view) else overwrites vtx view
      | (None, view) => overwrites vtx view
      end
  end.

(** The two blocks that [fEnforceBIP30] leaves out, by height and hash (the
    bytes of a hash from the lowest); [phashBlock] is set. *)
Definition bip30_91842 : list Z :=
  [0xec; 0xca; 0xe0; 0x00; 0xe3; 0xc8; 0xe4; 0xe0; 0x93; 0x93; 0x63; 0x60; 0x43; 0x1f; 0x3b; 0x76;
   0x03; 0xc5; 0x63; 0xc1; 0xff; 0x61; 0x81; 0x39; 0x0a; 0x4d; 0x0a; 0x00; 0x00; 0x00; 0x00; 0x00].
Definition bip30_91880 : list Z :=
  [0x21; 0xd7; 0x7c; 0xcb; 0x4c; 0x08; 0x38; 0x6a; 0x04; 0xac; 0x01; 0x96; 0xae; 0x10; 0xf6; 0xa1;
   0xd2; 0xc2; 0xa3; 0x77; 0x55; 0x8c; 0xa1; 0x90; 0xf1; 0x43; 0x07; 0x00; 0x00; 0x00; 0x00; 0x00].

Definition bip30_exempt (hashBlock : list Z) : bool :=
  (height =? 91842) && bool_decide (hashBlock = bip30_91842) || (height =? 91880) && bool_decide (hashBlock = bip30_91880).

(** The value of a historical zerocoin spend. *)
Definition zerocoin_value (tx : CTransaction) : Z :=
  fold_left (fun n txIn => if Script.IsZerocoinSpend (scriptSig txIn) then n + nSequence txIn * COIN else n) (vin tx) 0.

(** The middle of the loop: what the inputs add to the totals. *)
Definition connect_inputs (tx : CTransaction) (st : totals) view : checked totals * CCoinsViewCache V :=
  if tx_IsZerocoinSpend tx then
    (Pass (mkTotals (nFees st) (nSigOps st) (nValueIn st + zerocoin_value tx) (nValueOut st) (vtxundo st) (vChecks st)), view)
  else if negb (IsCoinBase tx) && negb (IsV5CoinStake tx) then
    match HaveInputs tx view with
    | (false, view) => (Fails (mkRejection 100 REJECT_INVALID "bad-txns-inputs-missingorspent"), view)
    | (true, view) =>
        match (if fStrictPayToScriptHash then GetP2SHSigOpCount tx view else (Some 0, view)) with
        | (None, view) => (Aborts, view)
        | (Some n, view) =>
            let nSigOps := T32 (nSigOps st + n) in
            if fStrictPayToScriptHash && (nSigOps >? MAX_BLOCK_SIGOPS_CURRENT) then (Fails bad_sigops, view)
            else
              match GetValueIn tx view with
              | (None, view) => (Aborts, view)
              | (Some value, view) =>
                  match (if negb (IsCoinStake tx) then
                           match GetValueOut tx with Value out => Some (nFees st + (value - out)) | _ => None end
                         else Some (nFees st)) with
                  | None => (Aborts, view)
                  | Some nFees =>
                      match CheckInputs Verify block_height tx fScriptChecks flags fThreads view with
                      | (Pass checks, view) =>
                          (Pass (mkTotals nFees nSigOps (nValueIn st + value) (nValueOut st) (vtxundo st)
                                   (vChecks st ++ map (pair tx) checks)), view)
                      | (Fails r, view) => (Fails r, view)
                      | (Aborts, view) => (Aborts, view)
                      end
                  end
              end
        end
    end
  else (Pass st, view).

(** One turn of the loop; [first] is [i == 0]. *)
Definition connect_tx (first : bool) (tx : CTransaction) (st : totals) view : checked totals * CCoinsViewCache V :=
  let nSigOps := T32 (nSigOps st + GetLegacySigOpCount tx) in
  if nSigOps >? MAX_BLOCK_SIGOPS_CURRENT then (Fails bad_sigops, view)
  else if (height >=? zerocoin_cutoff) && ContainsZerocoins tx then (Fails (mkRejection 100 0 EmptyString), view)
  else
    match connect_inputs tx (mkTotals (nFees st) nSigOps (nValueIn st) (nValueOut st) (vtxundo st) (vChecks st)) view with
    | (Pass st, view) =>
        match GetValueOut tx with
        | Value out =>
            match UpdateCoins tx height view with
            | None => (Aborts, view)
            | Some (false, _, view) => (Fails (mkRejection 0 0 EmptyString), view)
            | Some (true, txundo, view) =>
                (Pass (mkTotals (nFees st) (ConnectBlock.nSigOps st) (nValueIn st) (nValueOut st + out)
                         (if first then vtxundo st else vtxundo st ++ [txundo]) (vChecks st)), view)
            end
        | _ => (Aborts, view)
        end
    | r => r
    end.

Fixpoint connect_txs (first : bool) (vtx : list CTransaction) (st : totals) view : checked totals * CCoinsViewCache V :=
  match vtx with
  | [] => (Pass st, view)
  | tx :: vtx =>
      match connect_tx first tx st view with
      | (Pass st, view) => connect_txs false vtx st view
      | r => r
      end
  end.

(** [nMoneySupply] and [nMint] of the block index. *)
Definition money_supply (nMoneySupplyPrev : Z) (st : totals) : Z := nMoneySupplyPrev + nValueOut st - nValueIn st.
Definition mint (nMoneySupplyPrev : Z) (st : totals) : Z := money_supply nMoneySupplyPrev st - nMoneySupplyPrev + nFees st.

(** The transactions of the block, with the rule of BIP30 before them and
    the new best block after them. *)
Definition ConnectBlock_txs (vtx : list CTransaction) (hashBlock : list Z) view : checked totals * CCoinsViewCache V :=
  match (if bip30_exempt hashBlock then (false, view) else overwrites vtx view) with
  | (true, view) => (Fails (mkRejection 100 REJECT_INVALID "bad-txns-BIP30"), view)
  | (false, view) =>
      match connect_txs true vtx totals_start view with
      | (Pass st, view) => (Pass st, SetBestBlock hashBlock view)
      | r => r
      end
  end.
End ConnectBlock.

(** * The specification: connecting to a map of unspent outputs *)

Section Specification.
Context {params : CChainParams}.
Variable Verify : list Z -> list Z -> list Z -> bool.
Variable height flags : Z.
Variable fScriptChecks : bool.
Implicit Types (u : list Z -> option CCoins).

(** [accepts u tx undo created u']: the transaction, and how much more it
    pays out than it takes. *)
Inductive accepts : (list Z -> option CCoins) -> CTransaction -> list CTxInUndo.t -> Z -> (list Z -> option CCoins) -> Prop :=
| accepts_generated u tx out u' :
    takes_inputs tx = false -> GetValueOut tx = Value out ->
    (forall t, u' t = add_outputs tx height u t) -> accepts u tx [] out u'
| accepts_spending u tx ins undo out u1 u' :
    takes_inputs tx = true -> GetValueOut tx = Value out ->
    all_spent u (vin tx) ins -> inputs_pass tx height out ins ->
    (fScriptChecks = true -> scripts_pass Verify tx (checks_of flags 0 ins)) ->
    spends u (vin tx) undo u1 ->
    (forall t, u' t = add_outputs tx height u1 t) -> accepts u tx undo (out - total_in ins) u'.

Inductive connects : (list Z -> option CCoins) -> list CTransaction -> list (list CTxInUndo.t) -> list Z ->
    (list Z -> option CCoins) -> Prop :=
| connects_nil u u' : (forall t, u' t = u t) -> connects u [] [] [] u'
| connects_cons u tx undo created u1 vtx undos l u' :
    accepts u tx undo created u1 -> connects u1 vtx undos l u' ->
    connects u (tx :: vtx) (undo :: undos) (created :: l) u'.

Lemma all_spent_ext u u' vin ins : (forall t, u t = u' t) -> all_spent u vin ins -> all_spent u' vin ins.
Proof using. intros E H. eapply Forall2_impl; [|exact H]. intros i p. unfold spent. by rewrite E. Qed.

Lemma connects_ext u1 u2 vtx undos l u' : (forall t, u1 t = u2 t) -> connects u1 vtx undos l u' -> connects u2 vtx undos l u'.
Proof using.
  intros E H. destruct H as [u u' E'|u tx undo created v vtx undos l u' Ha H]; [constructor; intros t; by rewrite E', E|].
  econstructor; [|exact H]. destruct Ha as [u tx out v Et Ho Hv|u tx ins undo out w v Et Ho Hi Hp Hsc Hs Hv].
  - constructor; [done..|]. intros t. rewrite Hv. unfold add_outputs. by rewrite E.
  - econstructor; try done; [by eapply all_spent_ext | by eapply spends_ext].
Qed.

(** What the coinbase and the coinstakes of the block create. *)
Fixpoint minted (vtx : list CTransaction) (l : list Z) : Z :=
  match vtx, l with
  | tx :: vtx, created :: l => (if negb (takes_inputs tx) || IsCoinStake tx then created else 0) + minted vtx l
  | _, _ => 0
  end.
End Specification.

(** * The loop refines it *)

Section Loop.
Context {V : Type} `{!CCoinsView V, !CoinsSpec V, !ReadableView V} {params : CChainParams}.
Implicit Types (view : CCoinsViewCache V).
Variable Verify : list Z -> list Z -> list Z -> bool.
Variable block_height : list Z -> option Z.
Variable height flags : Z.
Variable fStrict fScriptChecks fThreads : bool.
Hypothesis HMaxMoney : 0 <= MaxMoneyOut.

Lemma p2sh_sigops_spec vin ins : forall n0 view, positioned vin -> wf view -> all_spent (utxo view) vin ins ->
  exists k view', p2sh_sigops vin n0 view = (Some k, view') /\ unchanged view view'.
Proof using ReadableView0 params.
  revert ins. induction vin as [|i vin IH]; intros ins n0 view Hp Hwf H; inversion H as [|? p ? ins' Hi Hv]; subst; cbn [p2sh_sigops].
  { eexists _, view. split; [done | by apply unchanged_refl]. }
  apply Forall_cons_iff in Hp as [Hn Hp]. destruct (fetch_spent _ _ _ Hn Hwf Hi) as (v1 & F & U & E2 & Ea).
  unfold GetOutputFor. rewrite F, Ea, <- E2.
  match goal with |- context [p2sh_sigops vin ?m v1] => destruct (IH ins' m v1 Hp (proj1 U)) as (k & v2 & -> & U2) end.
  { by eapply all_spent_unchanged. }
  eexists _, v2. split; [done | by eapply unchanged_trans].
Qed.

(** The checks in the queue have passed. *)
Definition queue_passes (l : list (CTransaction * CScriptCheck)) : Prop :=
  Forall (fun p => run_check Verify p.1 p.2 = Some None) l.

Definition connect_txs' := connect_txs Verify block_height height flags fStrict fScriptChecks fThreads.
Definition connect_tx' := connect_tx Verify block_height height flags fStrict fScriptChecks fThreads.
Definition connect_inputs' := connect_inputs Verify block_height flags fStrict fScriptChecks fThreads.

(** ** The inputs of one transaction *)
Lemma connect_inputs_spec tx st view st' view' out :
  wf view -> positioned (vin tx) -> block_height (best view) = Some (height - 1) -> tx_IsZerocoinSpend tx = false ->
  GetValueOut tx = Value out ->
  connect_inputs' tx st view = (Pass st', view') ->
  unchanged view view' /\ nValueOut st' = nValueOut st /\ vtxundo st' = vtxundo st /\
  if takes_inputs tx
  then exists ins l, all_spent (utxo view) (vin tx) ins /\ inputs_pass tx height out ins /\
         vChecks st' = vChecks st ++ l /\
         (queue_passes l -> fScriptChecks = true -> scripts_pass Verify tx (checks_of flags 0 ins)) /\
         nValueIn st' = nValueIn st + total_in ins /\
         nFees st' = nFees st + (if IsCoinStake tx then 0 else total_in ins - out)
  else st' = st.
Proof using All.
  intros Hwf Hp Hbest Hz Ho. unfold connect_inputs', connect_inputs. rewrite Hz. unfold takes_inputs.
  destruct (IsCoinBase tx) eqn:Ecb; cbn [negb andb]; [intros [= <- <-]; split; [by apply unchanged_refl | done]|].
  destruct (IsV5CoinStake tx) eqn:Ev5; cbn [negb]; [intros [= <- <-]; split; [by apply unchanged_refl | done]|].
  destruct (HaveInputs tx view) as [b v1] eqn:EH. destruct (HaveInputs_spec _ _ _ _ Hp Hwf EH) as [U1 Hb]. rewrite Ecb in Hb.
  destruct b; [|done]. destruct (proj1 Hb eq_refl) as [?|[ins Hins]]; [done|].
  assert (Hsig : exists k v2, (if fStrict then GetP2SHSigOpCount tx v1 else (Some 0, v1)) = (Some k, v2) /\ unchanged v1 v2).
  { destruct fStrict; [|exists 0, v1; split; [done | apply unchanged_refl, U1]]. unfold GetP2SHSigOpCount. rewrite Ecb.
    apply (p2sh_sigops_spec _ ins); [done | apply U1 | by eapply all_spent_unchanged]. }
  destruct Hsig as (k & v2 & -> & U2). pose proof (unchanged_trans _ _ _ U1 U2) as U12.
  destruct (fStrict && _); [done|]. unfold GetValueIn. rewrite Ecb.
  destruct (value_in_spec (vin tx) ins v2 0 Hp (proj1 U12)) as (v3 & -> & U3); [by eapply all_spent_unchanged|].
  pose proof (unchanged_trans _ _ _ U12 U3) as U13. rewrite Ho.
  replace (if negb (IsCoinStake tx) then Some (nFees st + (0 + total_in ins - out)) else Some (nFees st))
    with (Some (nFees st + (if IsCoinStake tx then 0 else total_in ins - out))) by (destruct (IsCoinStake tx); cbn [negb]; f_equal; lia).
  destruct (CheckInputs_spec Verify block_height tx fScriptChecks flags fThreads v3 (height - 1) out (proj1 U13) Hp)
    as (r & v4 & -> & U4 & Ha & Hr); [by rewrite (proj2 (proj2 (proj2 U13)))|done..|].
  destruct r as [l|rj|]; try done. intros [= <- <-]. cbn [vChecks nValueOut vtxundo nValueIn nFees].
  split; [by eapply unchanged_trans|]. split; [done|]. split; [done|].
  destruct (proj1 (Hr l) eq_refl) as [[_ [?|?]]|(_ & _ & ins' & Hi' & Hpass & Hl & Hs)]; try congruence.
  assert (ins' = ins) as ->.
  { eapply all_spent_unique; [exact Hins|]. unfold all_spent in *. eapply Forall2_impl; [|exact Hi'].
    intros i p. cbn beta. by rewrite (spent_unchanged _ _ _ U13). }
  exists ins, (map (pair tx) l). split; [done|]. split; [by replace height with (height - 1 + 1) by lia|]. split; [done|]. split; [|lia].
  intros Hq Hsc. rewrite Hsc in Hl. cbn [andb] in Hl. destruct fThreads; [|by apply Hs]. subst l.
  unfold queue_passes in Hq. apply Forall_map in Hq. exact Hq.
Qed.

(** ** One turn of the loop *)
Lemma connect_tx_spec first tx st view st' view' :
  wf view -> positioned (vin tx) -> block_height (best view) = Some (height - 1) -> tx_IsZerocoinSpend tx = false ->
  connect_tx' first tx st view = (Pass st', view') ->
  exists undo created l, wf view' /\ best view' = best view /\
    vtxundo st' = vtxundo st ++ (if first : bool then [] else [undo]) /\ vChecks st' = vChecks st ++ l /\
    (queue_passes l -> accepts Verify height flags fScriptChecks (utxo view) tx undo created (utxo view')) /\
    nFees st <= nFees st' /\
    nValueOut st' - nValueIn st' + nFees st' =
      nValueOut st - nValueIn st + nFees st + (if negb (takes_inputs tx) || IsCoinStake tx then created else 0).
Proof using All.
  intros Hwf Hp Hbest Hz. unfold connect_tx', connect_tx. fold connect_inputs'.
  destruct (_ >? _); [done|]. destruct (_ && _); [done|].
  destruct (connect_inputs' tx _ view) as [[st1|?|] v1] eqn:EI; try done.
  destruct (GetValueOut tx) as [out| |] eqn:Ho; try done.
  destruct (connect_inputs_spec _ _ _ _ _ _ Hwf Hp Hbest Hz Ho EI) as (U1 & HO & HV & HI). cbn in HO, HV.
  destruct (UpdateCoins_spec tx height v1 (proj1 U1) Hp) as (ok & undo & v2 & -> & Hwf2 & Hb2 & HU).
  destruct ok; [|done]. intros [= <- <-]. cbn [vtxundo vChecks nFees nValueIn nValueOut].
  destruct HU as (u1 & Hs & Hu). destruct U1 as (_ & Uu & _ & Ub). destruct (takes_inputs tx) eqn:Et.
  - destruct HI as (ins & l & Hins & Hpass & HC & Hsc & Hvi & Hfe). cbn in HC, Hvi, Hfe.
    exists undo, (out - total_in ins), l. split; [done|]. split; [congruence|].
    split; [rewrite HV; destruct first; [by rewrite app_nil_r | done]|]. split; [done|]. split.
    + intros Hq. econstructor; try done; [auto|]. by eapply spends_ext; [exact Uu|].
    + destruct Hpass as (_ & _ & Hle). rewrite HO, Hvi, Hfe. destruct (IsCoinStake tx); cbn [negb orb]; [lia | specialize (Hle eq_refl); lia].
  - destruct Hs as [-> Hs]. exists [], out, []. split; [done|]. split; [congruence|].
    split; [rewrite HV; destruct first; [by rewrite app_nil_r | done]|]. subst st1. cbn [vChecks nFees nValueIn nValueOut]. rewrite app_nil_r.
    split; [done|]. split; [|cbn [negb orb]; lia]. intros _. constructor; [done..|]. intros t. rewrite Hu. unfold add_outputs. by rewrite Hs, Uu.
Qed.

Lemma connect_txs_spec vtx : forall first st view st' view',
  wf view -> Forall (fun tx => positioned (vin tx) /\ tx_IsZerocoinSpend tx = false) vtx ->
  block_height (best view) = Some (height - 1) ->
  connect_txs' first vtx st view = (Pass st', view') ->
  exists undos created l, wf view' /\ best view' = best view /\
    vtxundo st' = vtxundo st ++ (if first : bool then tail undos else undos) /\ vChecks st' = vChecks st ++ l /\
    (queue_passes l -> connects Verify height flags fScriptChecks (utxo view) vtx undos created (utxo view')) /\
    nFees st <= nFees st' /\
    nValueOut st' - nValueIn st' + nFees st' = nValueOut st - nValueIn st + nFees st + minted vtx created.
Proof using All.
  unfold connect_txs'. induction vtx as [|tx vtx IH]; intros first st view st' view' Hwf Hvtx Hbest; cbn [connect_txs].
  { intros [= <- <-]. exists [], [], []. cbn [minted tail]. rewrite !app_nil_r.
    split; [done|]. split; [done|]. split; [destruct first; by rewrite app_nil_r|]. split; [done|]. split; [|lia]. by constructor. }
  apply Forall_cons_iff in Hvtx as [[Hp Hz] Hvtx]. fold connect_tx'. destruct (connect_tx' first tx st view) as [[st1|?|] v1] eqn:E1; try done.
  destruct (connect_tx_spec _ _ _ _ _ _ Hwf Hp Hbest Hz E1) as (undo & c & l1 & Hwf1 & Hb1 & Hu1 & Hl1 & Ha1 & Hf1 & Hm1).
  intros E2. destruct (IH false st1 v1 st' view' Hwf1 Hvtx) as (undos & cs & l2 & Hwf2 & Hb2 & Hu2 & Hl2 & Ha2 & Hf2 & Hm2); [congruence|exact E2|].
  exists (undo :: undos), (c :: cs), (l1 ++ l2). split; [done|]. split; [congruence|].
  split; [rewrite Hu2, Hu1; destruct first; cbn [tail]; [by rewrite app_nil_r | by rewrite <- app_assoc]|].
  split; [by rewrite Hl2, Hl1, app_assoc|]. split; [|cbn [minted]; lia].
  intros Hq. apply Forall_app in Hq as [Hq1 Hq2]. econstructor; eauto.
Qed.
End Loop.

(** * Undoing a block *)

Lemma value_out_not_null vout : forall n0 v, value_out_loop n0 vout = Value v -> Forall (fun o => CTxOut_IsNull o = false) vout.
Proof.
  induction vout as [|o vout IH]; intros n0 v; cbn [value_out_loop]; [constructor|].
  destruct (Z.ltb_spec (nValue o) 0); [done|]. destruct (_ <? _); [done|]. intros E. constructor; [|by eapply IH].
  unfold CTxOut_IsNull. destruct (Z.eqb_spec (nValue o) (-1)); [lia | done].
Qed.

Lemma FromTx_stored tx h out : GetValueOut tx = Value out -> 0 < h < 2 ^ 31 -> stored_coins (FromTx tx h).
Proof.
  intros Ho Hh. split; [apply FromTx_clean|]. split; [|done]. apply canonical_pop. unfold canonical. cbn [Coins.vout with_vout].
  apply Forall_map. eapply Forall_impl; [|by eapply value_out_not_null]. intros o Hn. cbn beta.
  destruct (Script.IsUnspendable (scriptPubKey o)); [done | congruence].
Qed.

Lemma FromTx_unpruned tx h c : unpruned (FromTx tx h) = Some c -> nHeight c = h.
Proof. intros H. by apply unpruned_Some in H as [-> _]. Qed.

(** Spending keeps the kind and the height of what is left. *)
Lemma spends_header u vin l u' t c' : positioned vin -> spends u vin l u' -> u' t = Some c' ->
  exists c, u t = Some c /\ fCoinStake c' = fCoinStake c /\ fCoinBase c' = fCoinBase c /\ nHeight c' = nHeight c.
Proof.
  intros Hp H. revert Hp. induction H as [u u' E|u i vin c d undo u1 l u' Hu HS H1 Hs IH]; intros Hp Ht; [rewrite E in Ht; eauto|].
  apply Forall_cons_iff in Hp as [Hn Hp]. destruct (IH Hp Ht) as (c1 & Hc1 & F1 & F2 & F3). rewrite H1 in Hc1.
  destruct (decide (hash (prevout i) = t)) as [<-|]; [|eauto]. apply unpruned_Some in Hc1 as [-> _].
  destruct (Spend_shape _ _ _ _ Hn HS) as (_ & -> & _). exists c. split; [done|]. by rewrite F1, F2, F3.
Qed.

(** What is gone was spent by an input. *)
Lemma spends_gone u vin l u' t c : spends u vin l u' -> u t = Some c -> u' t = None -> exists i, In i vin /\ hash (prevout i) = t.
Proof.
  induction 1 as [u u' E|u i vin d d' undo u1 l u' Hu HS H1 Hs IH]; intros Hc Ht; [rewrite E in Ht; congruence|].
  destruct (decide (hash (prevout i) = t)) as [|Hne]; [exists i; split; [by left | done]|].
  destruct IH as (j & Hj & Hjt); [rewrite H1; by destruct (decide _)|done|]. exists j. split; [by right | done].
Qed.

Lemma all_spent_In u vin ins i c : all_spent u vin ins -> In i vin -> u (hash (prevout i)) = Some c -> exists p, In p ins /\ p.1 = c.
Proof.
  unfold all_spent. induction 1 as [|j p vin ins Hj _ IH]; intros [] Hc.
  - subst j. unfold spent in Hj. rewrite Hc in Hj. cbn in Hj. destruct (IsAvailable _ _); [|done]. injection Hj as <-.
    eexists. split; [by left | done].
  - destruct (IH H Hc) as (q & Hq & Hq'). exists q. split; [by right | done].
Qed.

Section Disconnect.
Context {V : Type} `{!CCoinsView V, !CoinsSpec V, !ReadableView V} {params : CChainParams}.
Implicit Types (view : CCoinsViewCache V).
Variable Verify : list Z -> list Z -> list Z -> bool.
Variable height flags : Z.
Variable fScriptChecks : bool.
Hypothesis Hheight : 0 < height < 2 ^ 31.
Hypothesis Hmaturity : 0 < COINBASE_MATURITY.

(** Coins that may come back without their mark: of coinstakes old enough
    to be spent in the block. *)
Definition old_stake (o : option CCoins) : Prop := exists c, o = Some c /\ fCoinStake c = true /\ mature height c.

Lemma added_height tx u c : add_outputs tx height u (GetHash tx) = Some c -> nHeight c = height.
Proof using.
  unfold add_outputs. destruct (decide (GetHash tx = GetHash tx)) as [_|Hne]; [apply FromTx_unpruned | by destruct Hne].
Qed.

Lemma mature_old c : fCoinStake c = true -> mature height c -> nHeight c <> height.
Proof using Hmaturity. unfold mature. intros -> Hm. rewrite orb_true_r in Hm. specialize (Hm eq_refl). lia. Qed.

(** What accepting a transaction did, for its undoing. *)
Lemma accepts_inv u tx undo created u1 : positioned (vin tx) -> stored u -> accepts Verify height flags fScriptChecks u tx undo created u1 ->
  exists mid, (if takes_inputs tx then spends u (vin tx) undo mid else forall t, mid t = u t) /\
    (forall t, u1 t = add_outputs tx height mid t) /\ stored u1 /\
    forall t c, u t = Some c -> mid t = None -> fCoinStake c = true -> mature height c.
Proof using Hheight.
  intros Hp Hst H.
  assert (Hadd : forall mid out, stored mid -> GetValueOut tx = Value out -> (forall t, u1 t = add_outputs tx height mid t) -> stored u1).
  { intros mid out Hmid Ho Hu t c. rewrite Hu. unfold add_outputs. destruct (decide _); [|apply Hmid].
    intros Hc. apply unpruned_Some in Hc as [-> _]. by eapply FromTx_stored. }
  inversion H as [? ? out ? Et Ho Hu|? ? ins ? out mid ? Et Ho Hins Hpass _ Hs Hu]; subst.
  - exists u. rewrite Et. split; [done|]. split; [done|]. split; [by eapply Hadd|]. congruence.
  - exists mid. rewrite Et. split; [done|]. split; [done|]. split.
    + eapply Hadd; [|done|done]. clear - Hs Hst Hp. induction Hs as [u u' E|u i vin c d undo u1 l u' Hu HS H1 Hs IH].
      * intros t c. rewrite E. apply Hst.
      * apply Forall_cons_iff in Hp as [Hn Hp]. apply IH; [done|]. by eapply (stored_spends_step u i c d undo).
    + intros t c Hc Hm Hf. destruct (spends_gone _ _ _ _ _ _ Hs Hc Hm) as (i & Hi & <-).
      destruct (all_spent_In _ _ _ _ _ Hins Hi Hc) as (p & Hpi & <-). destruct Hpass as (Hall & _).
      rewrite List.Forall_forall in Hall. apply (proj1 (Hall p Hpi)).
Qed.

Definition undo_at (vtxundo : list (list CTxInUndo.t)) (i : nat) : option (list CTxInUndo.t) :=
  match i with O => None | S k => nth_error vtxundo k end.

Lemma disconnect_tx_generated tx o o' ok view : takes_inputs tx = false ->
  disconnect_tx tx o height ok view = disconnect_tx tx o' height ok view.
Proof using. unfold disconnect_tx, takes_inputs. intros ->. done. Qed.

(** The shape of a transaction of the block. *)
Definition undoable (tx : CTransaction) : Prop := positioned (vin tx) /\ (takes_inputs tx = true -> real_inputs (vin tx)).

(** Marks are lost of old coinstakes only. *)
Definition marks_lost (s : list Z -> bool) (u : list Z -> option CCoins) : Prop := forall t, s t = true -> old_stake (u t).

(** ** One transaction, after those behind it in the block *)
Lemma disconnect_step u tx undo created u1 s ok view o :
  stored u -> undoable tx -> u (GetHash tx) = None -> accepts Verify height flags fScriptChecks u tx undo created u1 ->
  (takes_inputs tx = true -> o = Some undo) ->
  marks_lost s u1 -> wf view -> (forall t, utxo view t = unmark (s t) (u1 t)) ->
  exists s' view', disconnect_tx tx o height ok view = Some (inr (ok, view')) /\ wf view' /\ best view' = best view /\
    marks_lost s' u /\ forall t, utxo view' t = unmark (s' t) (u t).
Proof using All.
  intros Hst [Hp Hreal] Hnew Ha Ho Hs Hwf Hv. destruct (accepts_inv _ _ _ _ _ Hp Hst Ha) as (mid & Hmid & Hu1 & _ & Hold).
  assert (Hs0 : s (GetHash tx) = false).
  { destruct (s (GetHash tx)) eqn:E; [|done]. destruct (Hs _ E) as (c & Hc & Hf & Hm). rewrite Hu1 in Hc. apply added_height in Hc.
    exfalso. by apply (mature_old _ Hf Hm). }
  assert (E : disconnect_tx tx o height ok view = disconnect_tx tx (Some undo) height ok view).
  { destruct (takes_inputs tx) eqn:Et; [by rewrite Ho | by apply disconnect_tx_generated]. }
  rewrite E. destruct (disconnect_tx_spec tx height u undo mid s view ok Hst Hreal Hnew Hmid Hwf Hs0) as (v1 & -> & Hwf1 & Hb1 & Hv1).
  { intros t. by rewrite Hv, Hu1. }
  exists (fun t => match u t with Some c => (s t || gone (mid t)) && fCoinStake c | None => false end), v1.
  split; [done|]. split; [done|]. split; [done|]. split.
  - intros t Ht. destruct (u t) as [c|] eqn:Ec; [|done]. apply andb_true_iff in Ht as [Ht Hf]. exists c. split; [done|]. split; [done|].
    destruct (gone (mid t)) eqn:Eg; [apply (Hold t c); try done; by destruct (mid t)|]. rewrite orb_false_r in Ht.
    destruct (Hs _ Ht) as (c1 & Hc1 & Hf1 & Hm1). rewrite Hu1 in Hc1. unfold add_outputs in Hc1.
    destruct (decide (GetHash tx = t)) as [<-|]; [congruence|].
    assert (exists c0, u t = Some c0 /\ fCoinStake c1 = fCoinStake c0 /\ fCoinBase c1 = fCoinBase c0 /\ nHeight c1 = nHeight c0) as (c0 & Hc0 & F1 & F2 & F3).
    { destruct (takes_inputs tx); [by eapply spends_header|]. exists c1. by rewrite <- Hmid. }
    assert (c0 = c) as -> by congruence. unfold mature in *. by rewrite <- F1, <- F2, <- F3.
  - intros t. rewrite Hv1. destruct (u t) as [c|]; [|by destruct (s t || gone (mid t))].
    destruct (s t || gone (mid t)); cbn [andb]; [|done]. destruct (fCoinStake c) eqn:Ef; [done|]. cbn. by destruct c; cbn in Ef; subst.
Qed.

(** ** The loop, from the last transaction of [vtx] back to its first *)
Lemma disconnect_txs_spec u vtx undos l u' : connects Verify height flags fScriptChecks u vtx undos l u' ->
  forall pre vtxundo ok view, stored u -> Forall undoable vtx -> NoDup (map GetHash vtx) ->
  (forall tx, In tx vtx -> u (GetHash tx) = None) ->
  (forall k tx undo, nth_error vtx k = Some tx -> nth_error undos k = Some undo -> takes_inputs tx = true ->
     undo_at vtxundo (length pre + k) = Some undo) ->
  wf view -> (forall t, utxo view t = u' t) ->
  exists s view', disconnect_txs (length pre + length vtx) (pre ++ vtx) vtxundo height ok view
      = disconnect_txs (length pre) (pre ++ vtx) vtxundo height ok view' /\
    wf view' /\ best view' = best view /\ marks_lost s u /\ forall t, utxo view' t = unmark (s t) (u t).
Proof using All.
  induction 1 as [u u' E|u tx undo created u1 vtx undos l u' Ha Hc IH]; intros pre vtxundo ok view Hst Hok Hnd Hnew Hun Hwf Hv.
  { exists (fun _ => false), view. cbn [length]. rewrite Nat.add_0_r. split; [done|]. split; [done|]. split; [done|].
    split; [done|]. intros t. by rewrite Hv, E. }
  apply Forall_cons_iff in Hok as [Htx Hok]. cbn [map] in Hnd. apply NoDup_cons_iff in Hnd as [Hnotin Hnd].
  destruct (accepts_inv _ _ _ _ _ (proj1 Htx) Hst Ha) as (mid & Hmid & Hu1 & Hst1 & _).
  destruct (IH (pre ++ [tx]) vtxundo ok view Hst1 Hok Hnd) as (s & v1 & E1 & Hwf1 & Hb1 & Hs1 & Hv1); [| |done|done|].
  { intros tx' Hin. rewrite Hu1. unfold add_outputs. destruct (decide _) as [Eh|].
    - exfalso. apply Hnotin. rewrite Eh. by apply in_map.
    - assert (Hn' : u (GetHash tx') = None) by (apply Hnew; by right). destruct (takes_inputs tx); [by eapply spends_none | by rewrite Hmid]. }
  { intros k tx' undo' Hk Hk' Ht. rewrite length_app. cbn [length]. replace (length pre + 1 + k)%nat with (length pre + S k)%nat by lia.
    by apply (Hun (S k) tx'). }
  rewrite length_app in E1. cbn [length] in E1 |- *. rewrite <- app_assoc in E1. cbn [app] in E1.
  replace (length pre + 1 + length vtx)%nat with (length pre + S (length vtx))%nat in E1 by lia.
  rewrite E1, Nat.add_1_r. cbn [disconnect_txs].
  rewrite nth_error_app2, Nat.sub_diag by done. cbn [nth_error]. fold (undo_at vtxundo (length pre)).
  destruct (disconnect_step u tx undo created u1 s ok v1 (undo_at vtxundo (length pre)) Hst Htx) as (s' & v2 & -> & Hwf2 & Hb2 & Hs2 & Hv2);
    [apply Hnew; by left|done| |done..|].
  { intros Ht. rewrite <- (Nat.add_0_r (length pre)). by apply (Hun 0%nat tx). }
  exists s', v2. split; [done|]. split; [done|]. split; [congruence | done].
Qed.

(** The whole block, its undo information in hand. *)
Lemma DisconnectBlock_spec u vtx undos created vtxundo hashPrev view :
  connects Verify height flags fScriptChecks u vtx undos created (utxo view) -> stored u -> Forall undoable vtx ->
  (exists tx rest, vtx = tx :: rest /\ takes_inputs tx = false) -> NoDup (map GetHash vtx) -> (forall tx, In tx vtx -> u (GetHash tx) = None) ->
  vtxundo = tail undos -> hashPrev <> CoinsView.uint256_0 -> wf view ->
  exists view'', DisconnectBlock vtx vtxundo height hashPrev view = Some (inr (true, view'')) /\ wf view'' /\
    CoinsView.hashBlock view'' = hashPrev /\
    forall t, utxo view'' t = u t \/ exists c, u t = Some c /\ fCoinStake c = true /\ mature height c /\ utxo view'' t = Some (unstaked c).
Proof using All.
  intros Hcon Hst Hund (tx0 & rest & Evtx & Hgen) Hnd Hnew -> Hprev Hwf.
  assert (Hlen : length undos = length vtx) by (clear - Hcon; induction Hcon; cbn; congruence).
  destruct (disconnect_txs_spec _ _ _ _ _ Hcon [] (tail undos) true view Hst Hund Hnd Hnew)
    as (s & v & E & Hwf2 & _ & Hs & Hv); [|done|done|].
  { intros k tx undo Hk Hu Ht. cbn [length Nat.add undo_at]. destruct k as [|k].
    - rewrite Evtx in Hk. cbn in Hk. congruence.
    - by destruct undos. }
  cbn [length Nat.add app disconnect_txs] in E. unfold DisconnectBlock. rewrite E.
  replace (length (tail undos) + 1 =? length vtx)%nat with true.
  2: { rewrite <- Hlen. destruct undos as [|? undos]; [by rewrite Evtx in Hlen|]. cbn. symmetry. apply Nat.eqb_eq. lia. }
  cbn [negb]. eexists. split; [done|]. split; [exact Hwf2|]. split; [done|].
  intros t. change (utxo (SetBestBlock hashPrev v) t) with (utxo v t). rewrite Hv. destruct (s t) eqn:Es; [|by left].
  destruct (Hs t Es) as (c & Hc & Hf & Hm). right. exists c. rewrite Hc. done.
Qed.

Lemma overwrites_spec vtx : forall view view', wf view -> overwrites vtx view = (false, view') ->
  unchanged view view' /\ forall tx, In tx vtx -> utxo view (GetHash tx) = None.
Proof using ReadableView0.
  induction vtx as [|tx vtx IH]; intros view view' Hwf; cbn [overwrites].
  { intros [= <-]. split; [by apply unchanged_refl | done]. }
  destruct (FetchCoins (GetHash tx) view) as [o v1] eqn:F. destruct (FetchCoins_law _ _ _ _ Hwf F) as [U Hr].
  assert (Hk : overwrites vtx v1 = (false, view') -> utxo view (GetHash tx) = None ->
    unchanged view view' /\ forall tx', In tx' (tx :: vtx) -> utxo view (GetHash tx') = None).
  { intros E Hn. destruct (IH v1 view' (proj1 U) E) as [U' Hall]. split; [by eapply unchanged_trans|].
    intros tx' [<-|Hin]; [done|]. rewrite <- (proj1 (proj2 U)). by apply Hall. }
  destruct o as [c|]; [|by intros E; apply Hk]. destruct (IsPruned c) eqn:Ep; cbn [negb]; [|done].
  intros E. apply Hk; [done|]. destruct Hr as (_ & -> & _). unfold unpruned. by rewrite Ep.
Qed.
End Disconnect.

(** * The theorems *)

Section Theorems.
Context {V : Type} `{!CCoinsView V, !CoinsSpec V, !ReadableView V} {params : CChainParams}.
Implicit Types (view : CCoinsViewCache V).
Variable Verify : list Z -> list Z -> list Z -> bool.
Variable block_height : list Z -> option Z.
Variable height flags : Z.
Variable fStrict fScriptChecks fThreads : bool.
Hypothesis HMaxMoney : 0 <= MaxMoneyOut.

Lemma ConnectBlock_spec vtx hashBlock view st view' :
  wf view -> Forall (fun tx => positioned (vin tx) /\ tx_IsZerocoinSpend tx = false) vtx ->
  block_height (best view) = Some (height - 1) ->
  ConnectBlock_txs Verify block_height height flags fStrict fScriptChecks fThreads vtx hashBlock view = (Pass st, view') ->
  queue_passes Verify (vChecks st) ->
  exists undos created,
    connects Verify height flags fScriptChecks (utxo view) vtx undos created (utxo view') /\ wf view' /\
    (bip30_exempt height hashBlock = false -> forall tx, In tx vtx -> utxo view (GetHash tx) = None) /\
    vtxundo st = tail undos /\ 0 <= nFees st /\
    nValueOut st - nValueIn st + nFees st = minted vtx created.
Proof using All.
  intros Hwf Hvtx Hbest. unfold ConnectBlock_txs.
  destruct (if bip30_exempt height hashBlock then (false, view) else overwrites vtx view) as [b v1] eqn:EO. destruct b; [done|].
  assert (HB : unchanged view v1 /\ (bip30_exempt height hashBlock = false -> forall tx, In tx vtx -> utxo view (GetHash tx) = None)).
  { destruct (bip30_exempt height hashBlock); [injection EO as <-; split; [by apply unchanged_refl | done]|].
    destruct (overwrites_spec vtx view v1 Hwf EO) as [U Hnew]. done. }
  destruct HB as [U Hnew].
  destruct (connect_txs _ _ _ _ _ _ _ true vtx totals_start v1) as [[st1|?|] v2] eqn:EC; try done. intros [= <- <-] Hq.
  destruct (connect_txs_spec Verify block_height height flags fStrict fScriptChecks fThreads HMaxMoney vtx true totals_start v1 st1 v2
    (proj1 U) Hvtx) as (undos & created & l & Hwf2 & Hb2 & Hu2 & Hl2 & Ha2 & Hf2 & Hm2); [|done|].
  { by rewrite (proj2 (proj2 (proj2 U))). }
  cbn in Hu2, Hl2, Hf2, Hm2. exists undos, created. split; [|done].
  rewrite Hl2 in Hq. eapply connects_ext; [|exact (Ha2 Hq)]. apply U.
Qed.

(** C1: a block's transactions, connected to a view and with the checks in
    the queue passed, have been accepted one after another from the map of
    unspent outputs the view stood for: each that takes inputs takes
    unspent, mature outputs, no earlier transaction of the block having
    spent them, to at least the value it pays out unless it is a coinstake,
    with scripts that verify.  The mint recorded for the block is exactly
    what its coinbase and coinstakes create, and the fees are not negative;
    no transaction replaces one that has unspent outputs, but in the two
    blocks exempt from BIP30. *)
Theorem ConnectBlock_accepts vtx hashBlock view st view' nMoneySupplyPrev :
  wf view -> Forall (fun tx => positioned (vin tx) /\ tx_IsZerocoinSpend tx = false) vtx ->
  block_height (best view) = Some (height - 1) ->
  ConnectBlock_txs Verify block_height height flags fStrict fScriptChecks fThreads vtx hashBlock view = (Pass st, view') ->
  queue_passes Verify (vChecks st) ->
  exists undos created,
    connects Verify height flags fScriptChecks (utxo view) vtx undos created (utxo view') /\ wf view' /\
    (bip30_exempt height hashBlock = false -> forall tx, In tx vtx -> utxo view (GetHash tx) = None) /\
    0 <= nFees st /\ mint nMoneySupplyPrev st = minted vtx created.
Proof using All.
  intros Hwf Hvtx Hbest HC Hq. destruct (ConnectBlock_spec vtx hashBlock view st view' Hwf Hvtx Hbest HC Hq)
    as (undos & created & ? & ? & ? & _ & ? & Hm). exists undos, created. unfold mint, money_supply. repeat (split; [done|]). lia.
Qed.

(** C2: disconnecting a block from the view its connection left is clean and
    gives back every unspent output the view had before, at the previous
    block: exactly, except that coins of a coinstake old enough to be spent
    may come back without their coinstake mark.  (The first transaction
    takes no inputs and the identifiers differ, as [CheckBlock] and the
    Merkle tree demand; the two blocks exempt from BIP30, which may replace
    unspent outputs, are left out.) *)
Theorem disconnect_block_restores vtx hashBlock hashPrev view st view' :
  wf view -> stored (utxo view) -> 0 < height < 2 ^ 31 -> 0 < COINBASE_MATURITY ->
  Forall (fun tx => undoable tx /\ tx_IsZerocoinSpend tx = false) vtx ->
  (exists tx rest, vtx = tx :: rest /\ takes_inputs tx = false) -> NoDup (map GetHash vtx) ->
  block_height (best view) = Some (height - 1) -> hashPrev <> CoinsView.uint256_0 -> bip30_exempt height hashBlock = false ->
  ConnectBlock_txs Verify block_height height flags fStrict fScriptChecks fThreads vtx hashBlock view = (Pass st, view') ->
  queue_passes Verify (vChecks st) ->
  exists view'', DisconnectBlock vtx (vtxundo st) height hashPrev view' = Some (inr (true, view'')) /\ wf view'' /\
    best view'' = hashPrev /\
    forall t, utxo view'' t = utxo view t \/
      exists c, utxo view t = Some c /\ fCoinStake c = true /\ mature height c /\ utxo view'' t = Some (unstaked c).
Proof using All.
  intros Hwf Hst Hh Hmat Hvtx (tx0 & rest & Evtx & Hgen) Hnd Hbest Hprev Hbip HC Hq.
  destruct (ConnectBlock_spec vtx hashBlock view st view' Hwf) as (undos & created & Hcon & Hwf' & Hnew & Hundo & _ & _); try done.
  { eapply Forall_impl; [|exact Hvtx]. intros tx [[Hp _] Hz]. done. }
  assert (Hund : Forall undoable vtx) by (eapply Forall_impl; [|exact Hvtx]; intros tx [? _]; done).
  specialize (Hnew Hbip).
  destruct (DisconnectBlock_spec Verify height flags fScriptChecks Hh Hmat _ vtx undos created (vtxundo st) hashPrev view' Hcon Hst Hund) as (v & E & Hwf2 & Eh & Hv);
    [by exists tx0, rest | exact Hnd | exact Hnew | exact Hundo | exact Hprev | exact Hwf' |].
  exists v. split; [exact E|]. split; [exact Hwf2|]. split; [|exact Hv]. cbn. rewrite Eh. unfold is_zero. by rewrite bool_decide_eq_false_2.
Qed.
End Theorems.

End ConnectBlock.
