(* ===== verification/ConnectExample.v ===== *)
(** A block over a small set of unspent outputs: the theorems of
    [CoinsView], [Connect], [Undo] and [ConnectBlock] applied to it.

    The database holds the coins of one coinstake of height 10; the block of
    height 100 has a coinbase and a payment that spends them to the last
    output. *)
From stdpp Require Import base list gmap fin_maps.
From Stdlib Require Import String.
From S2P Require Import Prelude SphTypes Script SigEncoding Params Serialize Compressor Transaction SigHash TxCheck Coins CoinsView Connect Undo ConnectBlock.
Open Scope list_scope.

Module ConnectExample.
Import Params Transaction TxCheck Coins CoinsView Connect Undo ConnectBlock.

#[local] Existing Instance CMainParams.

Definition anyone : list Z := [Script.value Script.OP_1].
Definition staked_id : list Z := repeat 1 32.
Definition tip : list Z := repeat 2 32.
Definition block_id : list Z := repeat 3 32.

Definition staked : CCoins := mkCoins false true [CTxOut_SetNull; CTxOut_new 5000 anyone] 10 1.

(** The database holds serialized coins. *)
Definition value (c : CCoins) : list Z := Serialize.Serialize (CCoins_format point_format) c.
Definition db : CCoinsViewDB point_format := mkDB {[ staked_id := value staked ]} (Some tip).
Definition view : CCoinsViewCache (CCoinsViewDB point_format) := CCoinsViewCache_new db.

Definition coinbase : CTransaction := mkTransaction 1 [mkTxIn COutPoint_SetNull [1; 100] uint256_max32 []] [CTxOut_new 700 anyone] 0.
Definition payment : CTransaction := mkTransaction 1 [mkTxIn (mkOutPoint staked_id 1) [] uint256_max32 []] [CTxOut_new 4000 anyone] 0.
Definition vtx : list CTransaction := [coinbase; payment].

Definition verify (_ _ _ : list Z) : bool := false.
Definition height_of (h : list Z) : option Z := if bool_decide (h = tip) then Some 99 else None.
Definition block_flags : Z := SigEncoding.SCRIPT_VERIFY_P2SH .| SigEncoding.SCRIPT_VERIFY_DERSIG.

Lemma staked_read : db_read point_format (value staked) = Some staked.
Proof. vm_compute. reflexivity. Qed.

Lemma view_wf : wf view.
Proof.
  split; [|split; [done|]].
  - intros t c H. change (({[ staked_id := value staked ]} : gmap (list Z) (list Z)) !! t = Some c) in H.
    apply lookup_singleton_Some in H as [<- <-]. exists staked. split; [exact staked_read|]. split; [by right | done].
  - intros t e H. change ((∅ : gmap (list Z) CCoinsCacheEntry) !! t = Some e) in H. by rewrite lookup_empty in H.
Qed.

#[local] Opaque value.

Lemma view_utxo t : utxo view t = if decide (staked_id = t) then Some staked else None.
Proof.
  change (utxo view t) with (denoted db ∅ t). unfold denoted. rewrite lookup_empty. change (utxo db t) with (value ← db_coins db !! t; db_read point_format value). unfold db, db_coins.
  destruct (decide _) as [<-|]; [rewrite lookup_singleton_eq; exact staked_read | by rewrite lookup_singleton_ne]. Qed.

Lemma view_stored : stored (utxo view).
Proof.
  intros t c. rewrite view_utxo. destruct (decide _); [|done]. intros [= <-]. split; [by right|]. split; [|cbn; lia].
  repeat constructor; done.
Qed.

Lemma view_best : best view = tip.
Proof. reflexivity. Qed.

Lemma tip_not_zero : tip <> CoinsView.uint256_0.
Proof. discriminate. Qed.

Lemma tip_height : height_of (best view) = Some (100 - 1).
Proof. reflexivity. Qed.

Lemma payment_new : utxo view (GetHash payment) = None.
Proof. rewrite view_utxo. by rewrite decide_False by (intros E; vm_compute in E; discriminate). Qed.

Lemma payment_positioned : positioned (vin payment).
Proof. repeat constructor. done. Qed.

Lemma payment_real : takes_inputs payment = true -> real_inputs (vin payment).
Proof. intros _. repeat constructor; done. Qed.

Lemma money_limit : 0 <= MaxMoneyOut.
Proof. discriminate. Qed.

Definition connected := ConnectBlock_txs verify height_of 100 block_flags true true false vtx block_id view.

Lemma connected_passes : exists st view', connected = (Pass st, view') /\ vChecks st = [] /\ mint 0 st = 700.
Proof.
  assert (H : match connected with (Pass st, _) => (length (vChecks st) =? 0)%nat && (mint 0 st =? 700) | _ => false end = true) by (vm_compute; reflexivity).
  destruct connected as [[st|?|] v]; try discriminate. exists st, v. split; [done|]. apply andb_true_iff in H as [H1%Nat.eqb_eq H2%Z.eqb_eq].
  by apply nil_length_inv in H1.
Qed.

Lemma vtx_shape : Forall (fun tx => undoable tx /\ tx_IsZerocoinSpend tx = false) vtx.
Proof.
  constructor; [|constructor; [|constructor]]; (split; [split|done]).
  - repeat constructor. done.
  - done.
  - apply payment_positioned.
  - apply payment_real.
Qed.

Lemma vtx_distinct : NoDup (map GetHash vtx).
Proof. repeat constructor; [|easy]. intros [E|[]]. vm_compute in E. discriminate. Qed.

(** * The theorems applied *)

Lemma CheckInputs_iff_witness : exists view', CheckInputs verify height_of payment true block_flags false view = (Pass [], view') /\ unchanged view view'.
Proof.
  destruct (CheckInputs_iff verify height_of payment true block_flags false view 99 4000 view_wf payment_positioned tip_height
    eq_refl money_limit) as (r & v & E & U & _ & Hr).
  assert (H : r = Pass []) by (change r with (fst (r, v)); rewrite <- E; vm_compute; reflexivity).
  exists v. rewrite <- H. split; [exact E | exact U].
Defined.

(** A cache over the cache over the database. *)
Definition stack : CCoinsViewCache (CCoinsViewCache (CCoinsViewDB point_format)) := CCoinsViewCache_new view.

Lemma stack_wf : wf stack.
Proof. split; [apply view_wf|]. split; [done|]. intros t e H. change ((∅ : gmap (list Z) CCoinsCacheEntry) !! t = Some e) in H. by rewrite lookup_empty in H. Qed.

Lemma UpdateCoins_refines_witness : exists undo view' u, UpdateCoins payment 100 stack = Some (true, undo, view') /\
  spends (utxo stack) (vin payment) undo u /\ forall t, utxo view' t = add_outputs payment 100 u t.
Proof.
  destruct (UpdateCoins_refines payment 100 stack stack_wf payment_positioned) as (ok & undo & v & E & _ & _ & H).
  assert (Hok : ok = true).
  { change ok with (match Some (ok, undo, v) with Some (b, _, _) => b | None => false end). rewrite <- E. vm_compute. reflexivity. }
  rewrite Hok in *. destruct H as (u & Hs & Hu). exists undo, v, u. split; [exact E|]. split; [exact Hs | exact Hu].
Defined.

(** The payment over the stack, for the flush. *)
Lemma stack_updated : exists undo v, UpdateCoins payment 100 stack = Some (true, undo, v) /\ wf v /\ utxo v staked_id = None.
Proof.
  destruct (UpdateCoins_spec payment 100 stack stack_wf payment_positioned) as (ok & undo & v & E & Hwf & _).
  assert (H : (ok && match utxo v staked_id with None => true | Some _ => false end)%bool = true).
  { change (match Some (ok, undo, v) with Some (b, _, w) => (b && match utxo w staked_id with None => true | Some _ => false end)%bool | None => false end = true).
    rewrite <- E. vm_compute. reflexivity. }
  apply andb_true_iff in H as [-> H]. exists undo, v. split; [done|]. split; [done|]. by destruct (utxo v staked_id).
Qed.

(** A payment whose version is negative, in a cache over the database. *)
Definition odd : CCoins := mkCoins false false [CTxOut_new 4000 anyone] 100 (- 1).
Definition odd_id : list Z := repeat 9 32.
Definition dirty : CCoinsViewCache (CCoinsViewDB point_format) :=
  mkCache db false tip {[ odd_id := mkEntry odd true true ]}.

Lemma dirty_recordable t e : cacheCoins dirty !! t = Some e -> DIRTY e = true -> IsPruned (coins e) = false -> recordable Compressor.output_ok (coins e).
Proof.
  intros H _ _. change (({[ odd_id := mkEntry odd true true ]} : gmap (list Z) CCoinsCacheEntry) !! t = Some e) in H.
  apply lookup_singleton_Some in H as [_ <-]. split; [by right|]. split; [done|]. split; [|split; [done | by split; split]].
  constructor; [|constructor]. split; [done|]. split; [done|]. split; [|done]. split; [|done]. constructor; [|constructor]. by split.
Qed.

Lemma dirty_wf : wf dirty.
Proof.
  split; [apply view_wf|]. split; [done|]. intros t e H.
  change (({[ odd_id := mkEntry odd true true ]} : gmap (list Z) CCoinsCacheEntry) !! t = Some e) in H.
  apply lookup_singleton_Some in H as [<- <-]. split; [by right|]. split; [vm_compute; reflexivity | discriminate].
Qed.

Lemma Flush_correct_witness :
  (exists undo v v', UpdateCoins payment 100 stack = Some (true, undo, v) /\ Flush v = Some v' /\
     utxo stack staked_id = Some staked /\ utxo (base v') staked_id = None) /\
  exists v', Flush dirty = Some v' /\ utxo (base v') staked_id = Some staked /\ utxo dirty odd_id = Some odd /\
    utxo (base v') odd_id = Some (mkCoins false false [CTxOut_new 4000 anyone] 100 127).
Proof.
  split.
  - destruct stack_updated as (undo & v & E & Hwf & Hu). destruct (proj1 Flush_correct _ _ _ _ v Hwf) as (v' & EF & _ & _ & _ & Hb & _).
    exists undo, v, v'. split; [exact E|]. split; [exact EF|]. split; [vm_compute; reflexivity|]. rewrite Hb. exact Hu.
  - destruct (proj2 Flush_correct point_format Compressor.output_ok (Compressor.CTxOutCompressor_lawful point_parity) dirty dirty_wf dirty_recordable)
      as (v' & EF & _ & _ & _ & Hb & _).
    exists v'. split; [exact EF|]. split; [rewrite Hb; vm_compute; reflexivity|]. split; [vm_compute; reflexivity|]. rewrite Hb. vm_compute. reflexivity.
Defined.

Lemma disconnect_gives_back_witness : exists undo view' view'', UpdateCoins payment 100 view = Some (true, undo, view') /\
  disconnect_tx payment (Some undo) 100 true view' = Some (inr (true, view'')) /\ utxo view'' staked_id = Some (unstaked staked).
Proof.
  assert (H : match UpdateCoins payment 100 view with Some (ok, _, v) => (ok && gone (utxo v staked_id))%bool | None => false end = true)
    by (vm_compute; reflexivity).
  destruct (UpdateCoins payment 100 view) as [[[ok undo] v]|] eqn:E; [|discriminate H].
  apply andb_true_iff in H as [-> H].
  destruct (disconnect_gives_back payment 100 view undo v view_wf view_stored payment_positioned payment_real payment_new E) as (v2 & ED & _ & _ & Hu).
  exists undo, v, v2. split; [reflexivity|]. split; [exact ED|]. rewrite Hu, H. reflexivity.
Defined.

Lemma ConnectBlock_accepts_witness : exists st view' undos created, connected = (Pass st, view') /\
  connects verify 100 block_flags true (utxo view) vtx undos created (utxo view') /\ mint 0 st = minted vtx created /\ mint 0 st = 700.
Proof.
  destruct connected_passes as (st & v & E & Hq & Hm).
  assert (Hvtx : Forall (fun tx => positioned (vin tx) /\ tx_IsZerocoinSpend tx = false) vtx).
  { eapply Forall_impl; [|exact vtx_shape]. intros tx [[Hp _] Hz]. exact (conj Hp Hz). }
  assert (Hpass : queue_passes verify (vChecks st)) by (rewrite Hq; constructor).
  destruct (ConnectBlock_accepts verify height_of 100 block_flags true true false money_limit vtx block_id view st v 0 view_wf Hvtx tip_height E Hpass)
    as (undos & created & Hc & _ & _ & _ & Hmint).
  exists st, v, undos, created. split; [exact E|]. split; [exact Hc|]. split; [exact Hmint | exact Hm].
Defined.

Lemma disconnect_block_restores_witness : exists st view' view'', connected = (Pass st, view') /\
  DisconnectBlock vtx (vtxundo st) 100 tip view' = Some (inr (true, view'')) /\ best view'' = tip /\
  (utxo view'' staked_id = Some staked \/ utxo view'' staked_id = Some (unstaked staked)).
Proof.
  destruct connected_passes as (st & v & E & Hq & Hm).
  assert (Hpass : queue_passes verify (vChecks st)) by (rewrite Hq; constructor).
  assert (Hgen : exists tx rest, vtx = tx :: rest /\ takes_inputs tx = false) by (exists coinbase, [payment]; split; reflexivity).
  destruct (disconnect_block_restores verify height_of 100 block_flags true true false money_limit vtx block_id tip view st v
    view_wf view_stored ltac:(lia) ltac:(reflexivity) vtx_shape Hgen vtx_distinct tip_height tip_not_zero ltac:(reflexivity) E Hpass)
    as (v2 & ED & _ & Hb & Hu).
  exists st, v, v2. split; [exact E|]. split; [exact ED|]. split; [exact Hb|].
  destruct (Hu staked_id) as [H|(c & Hc & _ & _ & H)]; [left; rewrite H; vm_compute; reflexivity|].
  right. rewrite H. f_equal. assert (Hs : Some c = Some staked) by (rewrite <- Hc; vm_compute; reflexivity). by injection Hs as ->.
Defined.

End ConnectExample.
