(* ===== verification/Double.v ===== *)
(** The [double]s of the fee policy: IEEE 754 binary64 with rounding to
    nearest even, as the computations of the Standard Library's [SpecFloat]
    (they are on integers; no primitive floats are used). *)
From Stdlib Require Import SpecFloat.
From S2P Require Import Prelude.

Module Double.

Abbreviation double := spec_float (only parsing).

Definition prec : Z := 53.
Definition emax : Z := 1024.

(** The conversion of an integer. *)
Definition of_Z (z : Z) : double := binary_normalize prec emax z 0 false.

Definition add : double -> double -> double := SFadd prec emax.
Definition sub : double -> double -> double := SFsub prec emax.
Definition mul : double -> double -> double := SFmul prec emax.
Definition div : double -> double -> double := SFdiv prec emax.

(** [a < b], [a > b] and [a >= b]; a NaN compares false. *)
Definition lt (a b : double) : bool := SFltb a b.
Definition gt (a b : double) : bool := SFltb b a.
Definition ge (a b : double) : bool := SFleb b a.

(** The conversion to an integer, which drops the fraction; [None] has no
    integer to give. *)
Definition truncate (d : double) : option Z :=
  match d with
  | S754_zero _ => Some 0
  | S754_finite s m e =>
      let v := if 0 <=? e then Zpos m * 2 ^ e else Zpos m / 2 ^ (- e) in
      Some (if s then - v else v)
  | _ => None
  end.

Definition zero : double := of_Z 0.
Definition one : double := of_Z 1.

(** The literal [0.1]. *)
Definition tenth : double := div one (of_Z 10).

Example tenth_of_a_coin : truncate (mul tenth (of_Z 100000000)) = Some 10000000.
Proof. vm_compute. reflexivity. Qed.
End Double.
