(* ===== verification/FeeEstimator.v ===== *)
(** The entries of the memory pool, [CTxMemPoolEntry] (txmempool.h), and
    the estimator of fees and priorities it keeps, [CBlockAverage] and
    [CMinerPolicyEstimator] (txmempool.cpp).

    [boost::circular_buffer] and [std::random_shuffle] are parameters.  A fee
    rate is its [nSatoshisPerK].  An exception or a failed assertion is
    [None]. *)
From stdpp Require Import base list sets sorting.
From S2P Require Import Prelude SphTypes Double Params Serialize Transaction.
Open Scope list_scope.

(** ** Priorities that need no fee *)

Module CTxMemPoolEntry.
Import Double Params Transaction.

Definition AllowFreeThreshold : double := of_Z (COIN * 1440 / 250).
Definition AllowFree (dPriority : double) : bool := gt dPriority AllowFreeThreshold.

(** [MEMPOOL_HEIGHT] *)
Definition MEMPOOL_HEIGHT : Z := 0x7FFFFFFF.

Record t : Type := mk {
  tx : CTransaction;
  nFee : Z;
  nTxSize : Z;
  nModSize : Z;
  nTime : Z;
  dPriority : double;
  nHeight : Z;
}.

Definition new (_tx : CTransaction) (_nFee _nTime : Z) (_dPriority : double) (_nHeight : Z) : t :=
  let nTxSize := Serialize.GetSerializeSize CTransaction_format _tx in
  mk _tx _nFee nTxSize (CalculateModifiedSize _tx (T32 nTxSize)) _nTime _dPriority _nHeight.

(** [None]: [GetValueOut] throws. *)
Definition GetPriority (e : t) (currentHeight : Z) : option double :=
  match GetValueOut (tx e) with
  | Value nValueOut =>
      let nValueIn := nValueOut + nFee e in
      let deltaPriority := div (mul (of_Z (T32 (currentHeight - nHeight e))) (of_Z nValueIn)) (of_Z (nModSize e)) in
      Some (add (dPriority e) deltaPriority)
  | _ => None
  end.
End CTxMemPoolEntry.

Module FeeEstimator.
Import Double Transaction.
Import CTxMemPoolEntry(AllowFree).

(** ** [CBlockAverage] *)

Record CBlockAverage : Type := mkAverage { feeSamples : list Z; prioritySamples : list double }.

Definition CBlockAverage_new : CBlockAverage := mkAverage [] [].

Definition GetFeePerK (fee : Z) : Z := GetFee fee 1000.

Definition AreSane_fee (fee minRelayFee : Z) : bool :=
  if fee <? 0 then false else negb (GetFeePerK fee >? GetFeePerK minRelayFee * 10000).
Definition AreSane_fees (vecFee : list Z) (minRelayFee : Z) : bool := forallb (fun fee => AreSane_fee fee minRelayFee) vecFee.
Definition AreSane_priority (priority : double) : bool := ge priority zero.
Definition AreSane_priorities (vecPriority : list double) : bool := forallb AreSane_priority vecPriority.

(** [minerPolicyEstimator]: the sorted samples are kept until the next block. *)
Record CMinerPolicyEstimator : Type := mkEstimator {
  history : list CBlockAverage;
  sortedFeeSamples : list Z;
  sortedPrioritySamples : list double;
  nBestSeenHeight : Z;
}.

Definition CMinerPolicyEstimator_new (nEntries : nat) : CMinerPolicyEstimator :=
  mkEstimator (repeat CBlockAverage_new nEntries) [] [] 0.

Definition with_history (s : CMinerPolicyEstimator) (h : list CBlockAverage) : CMinerPolicyEstimator :=
  mkEstimator h (sortedFeeSamples s) (sortedPrioritySamples s) (nBestSeenHeight s).

Section Estimator.
(** [circular_buffer::push_back], its [insert] of a range at the end, and
    [random_shuffle]. *)
Variable push_back : forall A : Type, list A -> A -> list A.
Variable insert_end : forall A : Type, list A -> list A -> list A.
Variable random_shuffle : forall A : Type, list A -> list A.

Definition RecordFee (feeRate : Z) (a : CBlockAverage) : CBlockAverage :=
  mkAverage (push_back _ (feeSamples a) feeRate) (prioritySamples a).
Definition RecordPriority (priority : double) (a : CBlockAverage) : CBlockAverage :=
  mkAverage (feeSamples a) (push_back _ (prioritySamples a) priority).

(** [CBlockAverage::Read], of the vectors the file holds. *)
Definition Read_average (vecFee : list Z) (vecPriority : list double) (minRelayFee : Z) (a : CBlockAverage) : option CBlockAverage :=
  if AreSane_fees vecFee minRelayFee then
    if AreSane_priorities vecPriority then
      Some (mkAverage (insert_end _ (feeSamples a) vecFee) (insert_end _ (prioritySamples a) vecPriority))
    else None
  else None.

(** ** [CMinerPolicyEstimator] *)

Definition seenTxConfirm (feeRate minRelayFee : Z) (dPriority : double) (nBlocksAgo : Z) (s : CMinerPolicyEstimator)
  : option CMinerPolicyEstimator :=
  let nBlocksTruncated := Z.min nBlocksAgo (Z.of_nat (length (history s)) - 1) in
  if nBlocksTruncated <? 0 then None
  else
    let k := Z.to_nat nBlocksTruncated in
    let sufficientFee := feeRate >? minRelayFee in
    let sufficientPriority := AllowFree dPriority in
    Some (with_history s
      (if sufficientFee && negb sufficientPriority && AreSane_fee feeRate minRelayFee
       then alter (RecordFee feeRate) k (history s)
       else if sufficientPriority && negb sufficientFee && AreSane_priority dPriority
       then alter (RecordPriority dPriority) k (history s)
       else history s)).

(** The bucket of an entry, [entriesByConfirmations.at(delta - 1)]. *)
Definition bucket_of (size nBlockHeight : Z) (entry : CTxMemPoolEntry.t) : option nat :=
  let delta := Serialize.to_signed 32 (T32 (nBlockHeight - CTxMemPoolEntry.nHeight entry)) in
  if delta <=? 0 then None
  else Some (Z.to_nat (if delta - 1 >=? size then size - 1 else delta - 1)).

(** At most ten entries of a bucket, at random. *)
Definition sample (e : list CTxMemPoolEntry.t) : list CTxMemPoolEntry.t :=
  if (10 <? length e)%nat then firstn 10 (random_shuffle _ e) else e.

Fixpoint confirm_entries (e : list CTxMemPoolEntry.t) (minRelayFee i : Z) (s : CMinerPolicyEstimator)
  : option CMinerPolicyEstimator :=
  match e with
  | [] => Some s
  | entry :: e =>
      let feeRate := CFeeRate_new (CTxMemPoolEntry.nFee entry) (CTxMemPoolEntry.nTxSize entry) in
      match CTxMemPoolEntry.GetPriority entry (CTxMemPoolEntry.nHeight entry) with
      | None => None
      | Some dPriority =>
          match seenTxConfirm feeRate minRelayFee dPriority i s with
          | None => None
          | Some s => confirm_entries e minRelayFee i s
          end
      end
  end.

Fixpoint confirm_buckets (i : nat) (buckets : list (list CTxMemPoolEntry.t)) (minRelayFee : Z) (s : CMinerPolicyEstimator)
  : option CMinerPolicyEstimator :=
  match buckets with
  | [] => Some s
  | e :: buckets =>
      match confirm_entries (sample e) minRelayFee (Z.of_nat i) s with
      | None => None
      | Some s => confirm_buckets (S i) buckets minRelayFee s
      end
  end.

Definition entriesByConfirmations (size : nat) (nBlockHeight : Z) (entries : list CTxMemPoolEntry.t) : list (list CTxMemPoolEntry.t) :=
  map (fun i => List.filter (fun e => match bucket_of (Z.of_nat size) nBlockHeight e with Some k => (k =? i)%nat | None => false end) entries)
    (seq 0 size).

(** [std::sort] with [std::greater]. *)
Definition fee_after (a b : Z) : Prop := b <= a.
Definition priority_after (a b : double) : Prop := lt a b = false.
#[local] Instance fee_after_dec : RelDecision fee_after := fun a b => Z_le_dec b a.
#[local] Instance priority_after_dec : RelDecision priority_after := fun a b => bool_dec (lt a b) false.

Definition sorted_fees (s : CMinerPolicyEstimator) : list Z :=
  if (length (sortedFeeSamples s) =? 0)%nat then merge_sort fee_after (flat_map feeSamples (history s))
  else sortedFeeSamples s.

Definition sorted_priorities (s : CMinerPolicyEstimator) : list double :=
  if (length (sortedPrioritySamples s) =? 0)%nat then merge_sort priority_after (flat_map prioritySamples (history s))
  else sortedPrioritySamples s.

(** The position in the sorted samples: those of the buckets before and half
    of those of the bucket. *)
Definition sample_index {A} (samples : CBlockAverage -> list A) (n : nat) (hist : list CBlockAverage) (total : nat) : nat :=
  let nBucketSize := length (samples (nth n hist CBlockAverage_new)) in
  let nPrevSize := length (flat_map samples (firstn n hist)) in
  Nat.min (nPrevSize + nBucketSize / 2) (total - 1).

Definition estimateFee (nBlocksToConfirm : Z) (s : CMinerPolicyEstimator) : Z * CMinerPolicyEstimator :=
  let n := nBlocksToConfirm - 1 in
  if (n <? 0) || (n >=? Z.of_nat (length (history s))) then (0, s)
  else
    let sorted := sorted_fees s in
    let s := mkEstimator (history s) sorted (sortedPrioritySamples s) (nBestSeenHeight s) in
    if (length sorted <? 11)%nat then (0, s)
    else (nth (sample_index feeSamples (Z.to_nat n) (history s) (length sorted)) sorted 0, s).

Definition estimatePriority (nBlocksToConfirm : Z) (s : CMinerPolicyEstimator) : double * CMinerPolicyEstimator :=
  let n := nBlocksToConfirm - 1 in
  if (n <? 0) || (n >=? Z.of_nat (length (history s))) then (of_Z (-1), s)
  else
    let sorted := sorted_priorities s in
    let s := mkEstimator (history s) (sortedFeeSamples s) sorted (nBestSeenHeight s) in
    if (length sorted <? 11)%nat then (of_Z (-1), s)
    else (nth (sample_index prioritySamples (Z.to_nat n) (history s) (length sorted)) sorted zero, s).

(** The loop at the end: printing the estimates computes them. *)
Definition log_estimates (s : CMinerPolicyEstimator) : CMinerPolicyEstimator :=
  fold_left (fun s '(i, a) =>
      if (0 <? length (feeSamples a) + length (prioritySamples a))%nat
      then (estimatePriority (Z.of_nat i + 1) (estimateFee (Z.of_nat i + 1) s).2).2 else s)
    (combine (seq 0 (length (history s))) (history s)) s.

Definition seenBlock (entries : list CTxMemPoolEntry.t) (nBlockHeight minRelayFee : Z) (s : CMinerPolicyEstimator)
  : option CMinerPolicyEstimator :=
  if nBlockHeight <=? nBestSeenHeight s then Some s
  else
    let s := mkEstimator (history s) (sortedFeeSamples s) (sortedPrioritySamples s) nBlockHeight in
    match confirm_buckets 0 (entriesByConfirmations (length (history s)) nBlockHeight entries) minRelayFee s with
    | None => None
    | Some s => Some (log_estimates (mkEstimator (history s) [] [] (nBestSeenHeight s)))
    end.

Fixpoint Read_entries (entries : list (list Z * list double)) (minRelayFee : Z) : option (list CBlockAverage) :=
  match entries with
  | [] => Some []
  | (vecFee, vecPriority) :: entries =>
      match Read_average vecFee vecPriority minRelayFee CBlockAverage_new with
      | None => None
      | Some entry =>
          match Read_entries entries minRelayFee with
          | None => None
          | Some fileHistory => Some (entry :: fileHistory)
          end
      end
  end.

(** [Read] of a file that holds the height, the number of entries and the
    entries: the sorted samples stay as they were. *)
Definition Read (nFileBestSeenHeight numEntries : Z) (entries : list (list Z * list double)) (minRelayFee : Z)
    (s : CMinerPolicyEstimator) : option CMinerPolicyEstimator :=
  if (numEntries <=? 0) || (numEntries >? 10000) then None
  else
    match Read_entries (firstn (Z.to_nat numEntries) entries) minRelayFee with
    | None => None
    | Some fileHistory =>
        if (length fileHistory =? 0)%nat then None
        else Some (mkEstimator fileHistory (sortedFeeSamples s) (sortedPrioritySamples s) nFileBestSeenHeight)
    end.

(** * Estimates *)

(** The samples kept sorted are sorted. *)
Definition ready (s : CMinerPolicyEstimator) : Prop := Sorted fee_after (sortedFeeSamples s).

#[local] Instance fee_after_trans : Transitive fee_after.
Proof using. intros a b c. unfold fee_after. lia. Qed.

#[local] Instance fee_after_total : Total fee_after.
Proof using. intros a b. unfold fee_after. lia. Qed.

Lemma sorted_fees_sorted s : ready s -> StronglySorted fee_after (sorted_fees s).
Proof using.
  intros H. unfold sorted_fees. destruct (_ =? _)%nat; [|apply Sorted_StronglySorted; [exact _ | exact H]].
  apply Sorted_StronglySorted; [exact _|]. apply Sorted_merge_sort. exact _.
Qed.

Lemma sorted_nth l : StronglySorted fee_after l -> forall i j, (i <= j < length l)%nat -> nth j l 0 <= nth i l 0.
Proof using.
  induction 1 as [|x l _ IH Hx]; intros i j Hij; cbn in Hij; [lia|].
  destruct i as [|i], j as [|j]; cbn [nth]; try lia; [|apply IH; lia].
  assert (Hin : In (nth j l 0) l) by (apply nth_In; lia).
  exact (proj1 (Forall_forall _ _) Hx _ Hin).
Qed.

Lemma length_firstn_S {A} (f : CBlockAverage -> list A) n : forall h,
  (n < length h)%nat -> length (flat_map f (firstn (S n) h)) = (length (flat_map f (firstn n h)) + length (f (nth n h CBlockAverage_new)))%nat.
Proof using.
  induction n as [|n IH]; intros [|a h] Hn; cbn [length] in Hn; try lia; cbn [firstn flat_map nth].
  - rewrite app_nil_r. cbn. lia.
  - rewrite !(List.length_app (f a)), IH; lia.
Qed.

Lemma sample_index_mono {A} (f : CBlockAverage -> list A) h total n m :
  (n <= m < length h)%nat -> (sample_index f n h total <= sample_index f m h total)%nat.
Proof using.
  intros [Hnm Hm]. induction Hnm as [|m Hnm IH]; [done|]. etransitivity; [apply IH; lia|]. unfold sample_index.
  rewrite (length_firstn_S f m h) by lia.
  assert (length (f (nth m h CBlockAverage_new)) / 2 <= length (f (nth m h CBlockAverage_new)))%nat by (apply Nat.Div0.div_le_upper_bound; lia). lia.
Qed.

Lemma estimateFee_mono s n m :
  ready s -> 1 <= n <= m -> m <= Z.of_nat (length (history s)) -> (estimateFee m s).1 <= (estimateFee n s).1.
Proof using.
  intros Hs Hn Hm. unfold estimateFee.
  rewrite !(proj2 (orb_false_iff _ _)) by (split; [apply Z.ltb_ge; lia | rewrite Z.geb_leb; apply Z.leb_gt; lia]).
  destruct (Nat.ltb_spec (length (sorted_fees s)) 11) as [|Hl]; [done|]. cbn [fst].
  apply sorted_nth; [by apply sorted_fees_sorted|]. split; [apply sample_index_mono; cbn [history]; lia|].
  unfold sample_index. lia.
Qed.

(** The samples are between nothing and ten thousand times the relay fee. *)
Definition sane (minRelayFee : Z) (s : CMinerPolicyEstimator) : Prop :=
  (forall a fee, a ∈ history s -> fee ∈ feeSamples a -> AreSane_fee fee minRelayFee = true) /\
  (forall fee, fee ∈ sortedFeeSamples s -> AreSane_fee fee minRelayFee = true).

Lemma sorted_fees_sane r s fee : sane r s -> fee ∈ sorted_fees s -> AreSane_fee fee r = true.
Proof using.
  intros [Hh Hs]. unfold sorted_fees. destruct (_ =? _)%nat; [|apply Hs]. rewrite merge_sort_Permutation.
  intros H. apply list_elem_of_In, in_flat_map in H as (a & Ha & Hf). by apply (Hh a); apply list_elem_of_In.
Qed.

Lemma estimateFee_sane r s n : sane r s -> sane r (estimateFee n s).2 /\
  ((estimateFee n s).1 = 0 \/ AreSane_fee (estimateFee n s).1 r = true).
Proof using.
  intros Hs. unfold estimateFee. destruct (_ || _); [by auto|].
  assert (Hs' : sane r (mkEstimator (history s) (sorted_fees s) (sortedPrioritySamples s) (nBestSeenHeight s))).
  { split; [apply Hs|]. intros fee. by apply sorted_fees_sane. }
  destruct (Nat.ltb_spec (length (sorted_fees s)) 11); cbn [fst snd]; [by auto|]. split; [done|]. right.
  apply (sorted_fees_sane r s); [done|]. apply list_elem_of_In, nth_In. unfold sample_index. lia.
Qed.

Section Kept.
Hypothesis push_back_in : forall A l (x y : A), y ∈ push_back A l x -> y = x \/ y ∈ l.
Hypothesis insert_end_in : forall A l l' (y : A), y ∈ insert_end A l l' -> y ∈ l \/ y ∈ l'.

Lemma seenTxConfirm_sane r s s' feeRate prio i : sane r s -> seenTxConfirm feeRate r prio i s = Some s' -> sane r s'.
Proof using push_back_in.
  intros Hs. unfold seenTxConfirm. destruct (_ <? _); [done|]. intros [= <-]. split; [|apply Hs]. cbn [with_history history].
  intros a fee Ha Hf. destruct (feeRate >? r) eqn:E1, (AllowFree prio) eqn:E2; cbn [negb andb] in Ha; try by apply (proj1 Hs a).
  - destruct (AreSane_fee feeRate r) eqn:E3; [|by apply (proj1 Hs a)].
    apply list_elem_of_lookup in Ha as [k Hk]. rewrite list_lookup_alter in Hk. destruct (decide _) in Hk.
    + apply fmap_Some in Hk as (a0 & Ha0 & ->). cbn in Hf. apply push_back_in in Hf as [->|Hf]; [done|].
      apply (proj1 Hs a0); [|done]. by eapply list_elem_of_lookup_2.
    + apply (proj1 Hs a); [|done]. by eapply list_elem_of_lookup_2.
  - destruct (AreSane_priority prio); [|by apply (proj1 Hs a)].
    apply list_elem_of_lookup in Ha as [k Hk]. rewrite list_lookup_alter in Hk. destruct (decide _) in Hk.
    + apply fmap_Some in Hk as (a0 & Ha0 & ->). cbn in Hf. apply (proj1 Hs a0); [|done]. by eapply list_elem_of_lookup_2.
    + apply (proj1 Hs a); [|done]. by eapply list_elem_of_lookup_2.
Qed.

Lemma confirm_entries_sane r e i : forall s s', sane r s -> confirm_entries e r i s = Some s' -> sane r s'.
Proof using push_back_in.
  induction e as [|x e IH]; intros s s' Hs; cbn [confirm_entries]; [by intros [= <-]|].
  destruct (CTxMemPoolEntry.GetPriority _ _); [|done]. destruct (seenTxConfirm _ _ _ _ _) eqn:E; [|done].
  apply IH. by eapply seenTxConfirm_sane.
Qed.

Lemma confirm_buckets_sane r b : forall i s s', sane r s -> confirm_buckets i b r s = Some s' -> sane r s'.
Proof using push_back_in.
  induction b as [|x b IH]; intros i s s' Hs; cbn [confirm_buckets]; [by intros [= <-]|].
  destruct (confirm_entries _ _ _ _) eqn:E; [|done]. apply IH. by eapply confirm_entries_sane.
Qed.

Lemma log_estimates_sane r s : sane r s -> sane r (log_estimates s).
Proof using.
  unfold log_estimates. generalize (combine (seq 0 (length (history s))) (history s)) as l. intros l. revert s.
  induction l as [|[i a] l IH]; intros s Hs; cbn [fold_left]; [done|]. apply IH. destruct (_ <? _)%nat; [|done].
  pose proof (proj1 (estimateFee_sane r s (Z.of_nat i + 1) Hs)) as [H1 H2]. unfold estimatePriority.
  destruct (_ || _); [done|]. by destruct (_ <? _)%nat.
Qed.

Lemma Read_entries_sane r l : forall h a fee, Read_entries l r = Some h -> a ∈ h -> fee ∈ feeSamples a -> AreSane_fee fee r = true.
Proof using insert_end_in.
  induction l as [|[vf vp] l IH]; intros h a fee; cbn [Read_entries]; [intros [= <-]; by intros ?%elem_of_nil|].
  unfold Read_average. destruct (AreSane_fees vf r) eqn:E; [|done]. destruct (AreSane_priorities vp); [|done].
  destruct (Read_entries l r) as [h'|]; [|done]. intros [= <-] [->|Ha]%elem_of_cons Hf; [|by eapply IH].
  cbn in Hf. apply insert_end_in in Hf as [Hf|Hf]; [by apply elem_of_nil in Hf|].
  unfold AreSane_fees in E. rewrite forallb_forall in E. by apply E, list_elem_of_In.
Qed.

(** The blocks seen and the files read leave only sane samples. *)
Lemma seenBlock_sane r s s' entries h : sane r s -> seenBlock entries h r s = Some s' -> sane r s'.
Proof using push_back_in.
  intros Hs. unfold seenBlock. destruct (_ <=? _); [by intros [= <-]|].
  destruct (confirm_buckets _ _ _ _) as [s1|] eqn:E; [|done]. intros [= <-]. apply log_estimates_sane.
  apply confirm_buckets_sane in E; [|done]. split; [apply E | by intros ? ?%elem_of_nil].
Qed.

Lemma Read_sane r s s' h k entries : sane r s -> Read h k entries r s = Some s' -> sane r s'.
Proof using insert_end_in.
  intros Hs. unfold Read. destruct (_ || _); [done|]. destruct (Read_entries _ _) as [f|] eqn:E; [|done].
  destruct (_ =? _)%nat; [done|]. intros [= <-]. split; [|apply Hs]. cbn. intros a fee. by eapply Read_entries_sane.
Qed.

Lemma estimateFee_ready n s : ready s -> ready (estimateFee n s).2.
Proof using.
  intros Hs. unfold estimateFee. destruct (_ || _); [done|].
  assert (H : ready (mkEstimator (history s) (sorted_fees s) (sortedPrioritySamples s) (nBestSeenHeight s))).
  { apply StronglySorted_Sorted. by apply sorted_fees_sorted. }
  by destruct (_ <? _)%nat.
Qed.

Lemma estimatePriority_kept n s : history (estimatePriority n s).2 = history s /\ sortedFeeSamples (estimatePriority n s).2 = sortedFeeSamples s.
Proof using. unfold estimatePriority. destruct (_ || _); [done|]. by destruct (_ <? _)%nat. Qed.

Lemma log_estimates_ready s : ready s -> ready (log_estimates s).
Proof using.
  unfold log_estimates. generalize (combine (seq 0 (length (history s))) (history s)) as l. intros l. revert s.
  induction l as [|[i a] l IH]; intros s Hs; cbn [fold_left]; [done|]. apply IH. destruct (_ <? _)%nat; [|done].
  unfold ready. rewrite (proj2 (estimatePriority_kept _ _)). by apply estimateFee_ready.
Qed.

(** The states of an estimator, whatever blocks it has seen, files it has
    read and questions it has answered. *)
Inductive estimator (minRelayFee : Z) : CMinerPolicyEstimator -> Prop :=
| estimator_new k : estimator minRelayFee (CMinerPolicyEstimator_new k)
| estimator_block s entries h s' : estimator minRelayFee s -> seenBlock entries h minRelayFee s = Some s' -> estimator minRelayFee s'
| estimator_file s h k entries s' : estimator minRelayFee s -> Read h k entries minRelayFee s = Some s' -> estimator minRelayFee s'
| estimator_fee s n : estimator minRelayFee s -> estimator minRelayFee (estimateFee n s).2
| estimator_priority s n : estimator minRelayFee s -> estimator minRelayFee (estimatePriority n s).2.

Lemma estimator_good r s : estimator r s -> ready s /\ sane r s.
Proof using push_back_in insert_end_in.
  induction 1 as [k|s entries h s' _ [H1 H2] E|s h k entries s' _ [H1 H2] E|s n _ [H1 H2]|s n _ [H1 H2]].
  - split; [constructor|]. split; [|by intros fee ?%elem_of_nil]. intros a fee Ha Hf. cbn in Ha.
    apply list_elem_of_In, repeat_spec in Ha as ->. by apply elem_of_nil in Hf.
  - split; [|by eapply seenBlock_sane]. revert E. unfold seenBlock. destruct (_ <=? _); [by intros [= <-]|].
    destruct (confirm_buckets _ _ _ _) as [s1|]; [|done]. intros [= <-]. apply log_estimates_ready. constructor.
  - split; [|by eapply Read_sane]. revert E. unfold Read. destruct (_ || _); [done|]. destruct (Read_entries _ _); [|done].
    destruct (_ =? _)%nat; [done|]. by intros [= <-].
  - split; [by apply estimateFee_ready | by apply estimateFee_sane].
  - destruct (estimatePriority_kept n s) as [E1 E2]. unfold ready, sane. by rewrite E1, E2.
Qed.

(** C31: whatever blocks and files the estimator has seen, a fee estimate is
    nothing or within the sane range for the relay fee, and the estimates do
    not grow with the number of blocks one is ready to wait. *)
Theorem estimates_reliable r s n m : estimator r s -> 1 <= n <= m -> m <= Z.of_nat (length (history s)) ->
  (estimateFee m s).1 <= (estimateFee n s).1 /\ ((estimateFee n s).1 = 0 \/ AreSane_fee (estimateFee n s).1 r = true).
Proof using push_back_in insert_end_in.
  intros H Hn Hm. destruct (estimator_good r s H) as [H1 H2]. split; [by apply estimateFee_mono | by apply estimateFee_sane].
Qed.
End Kept.
End Estimator.

(** The theorem at an estimator that has read a file of twenty samples in
    two buckets; the buffers keep everything. *)
Definition snoc (A : Type) (l : list A) (x : A) : list A := l ++ [x].
Definition file_samples : list (list Z * list double) := [(map Z.of_nat (seq 50 10), []); (map Z.of_nat (seq 20 10), [])].

Lemma estimates_reliable_witness : exists s, Read (@app) 7 2 file_samples 10 (CMinerPolicyEstimator_new 25) = Some s /\
  (estimateFee 2 s).1 <= (estimateFee 1 s).1 /\ (estimateFee 1 s).1 = 54.
Proof.
  destruct (Read (@app) 7 2 file_samples 10 (CMinerPolicyEstimator_new 25)) as [s|] eqn:E; [|vm_compute in E; discriminate].
  exists s. split; [reflexivity|].
  assert (Hs : (Z.of_nat (length (history s)) =? 2) && ((estimateFee 1 s).1 =? 54) = true).
  { assert (Some ((Z.of_nat (length (history s)) =? 2) && ((estimateFee 1 s).1 =? 54)) = Some true) as G; [|by injection G].
    transitivity (s ← Read (@app) 7 2 file_samples 10 (CMinerPolicyEstimator_new 25); Some ((Z.of_nat (length (history s)) =? 2) && ((estimateFee 1 s).1 =? 54)));
      [rewrite E; reflexivity | vm_compute; reflexivity]. }
  apply andb_true_iff in Hs as [Hl%Z.eqb_eq Hf%Z.eqb_eq].
  split; [|exact Hf]. refine (proj1 (estimates_reliable snoc (@app) (fun _ l => l) _ _ 10 s 1 2 _ _ _)).
  - intros A l x y H. apply elem_of_app in H as [H|H]; [by right | left; by apply list_elem_of_singleton].
  - intros A l l' y H. by apply elem_of_app.
  - exact (estimator_file _ _ _ 10 (CMinerPolicyEstimator_new 25) 7 2 file_samples s (estimator_new _ _ _ 10 25) E).
  - lia.
  - lia.
Defined.
End FeeEstimator.
