(* ===== verification/MemPool.v ===== *)
(** The memory pool, [CTxMemPool] (txmempool.h, txmempool.cpp), and the view
    it makes of the unspent outputs, [CCoinsViewMemPool].

    A [CInPoint] holds a pointer to the transaction inside an entry of
    [mapTx]: here it is the key of that entry, and following it is looking
    the key up, which fails when the entry is gone ([None], the program
    reading freed memory).  [None] is also a failed assertion and an
    exception.  The maps are walked in the order of their keys. *)
From stdpp Require Import base list gmap fin_maps sorting.
From S2P Require Import Prelude SphTypes Double Script Params Merkle Serialize Transaction TxCheck Coins CoinsView Connect FeeEstimator.
Open Scope list_scope.

(** ** Keys *)

#[export] Instance COutPoint_eq_dec : EqDecision Transaction.COutPoint.
Proof. intros [h k] [h' k']. destruct (decide (h = h')), (decide (k = k')); (left; congruence) || (right; congruence). Defined.

#[export] Instance COutPoint_countable : Countable Transaction.COutPoint.
Proof. refine (inj_countable' (fun o => (Transaction.hash o, Transaction.n o)) (fun p => Transaction.mkOutPoint p.1 p.2) _). by intros []. Defined.

Module MemPool.
Import Double Params Transaction TxCheck Coins CoinsView Connect FeeEstimator.
Import CTxMemPoolEntry(MEMPOOL_HEIGHT).

(** [operator<] of [uint256] and of [COutPoint]. *)
Definition key_le {A} (a b : list Z * A) : Prop := le_val a.1 <= le_val b.1.
Definition outpoint_le {A} (a b : COutPoint * A) : Prop :=
  le_val (hash a.1) < le_val (hash b.1) \/ le_val (hash a.1) = le_val (hash b.1) /\ n a.1 <= n b.1.
#[export] Instance key_le_dec A : RelDecision (@key_le A) := fun a b => Z_le_dec _ _.
#[export] Instance outpoint_le_dec A : RelDecision (@outpoint_le A).
Proof. intros a b. unfold outpoint_le. solve_decision. Defined.

Definition ordered {A} (m : gmap (list Z) A) : list (list Z * A) := merge_sort key_le (map_to_list m).
Definition ordered_points {A} (m : gmap COutPoint A) : list (COutPoint * A) := merge_sort outpoint_le (map_to_list m).

(** ** The state *)

(** [ptx], by the key of its entry, and [n]. *)
Record CInPoint : Type := mkInPoint { ptx : list Z; nIn : nat }.

Record CTxMemPool : Type := mkPool {
  fSanityCheck : bool;
  nTransactionsUpdated : Z;
  minerPolicyEstimator : CMinerPolicyEstimator;
  minRelayFee : Z;
  totalTxSize : Z;
  mapTx : gmap (list Z) CTxMemPoolEntry.t;
  mapNextTx : gmap COutPoint CInPoint;
  mapDeltas : gmap (list Z) (double * Z);
}.

(** The global pool: its size starts at zero as static storage does. *)
Definition CTxMemPool_new (_minRelayFee : Z) : CTxMemPool :=
  mkPool false 0 (CMinerPolicyEstimator_new 25) _minRelayFee 0 ∅ ∅ ∅.

Definition with_txs (p : CTxMemPool) (updated size : Z) (txs : gmap (list Z) CTxMemPoolEntry.t) (next : gmap COutPoint CInPoint) : CTxMemPool :=
  mkPool (fSanityCheck p) updated (minerPolicyEstimator p) (minRelayFee p) size txs next (mapDeltas p).
Definition with_deltas (p : CTxMemPool) (d : gmap (list Z) (double * Z)) : CTxMemPool :=
  mkPool (fSanityCheck p) (nTransactionsUpdated p) (minerPolicyEstimator p) (minRelayFee p) (totalTxSize p) (mapTx p) (mapNextTx p) d.
Definition with_estimator (p : CTxMemPool) (e : CMinerPolicyEstimator) : CTxMemPool :=
  mkPool (fSanityCheck p) (nTransactionsUpdated p) e (minRelayFee p) (totalTxSize p) (mapTx p) (mapNextTx p) (mapDeltas p).

Definition setSanityCheck (_fSanityCheck : bool) (p : CTxMemPool) : CTxMemPool :=
  mkPool _fSanityCheck (nTransactionsUpdated p) (minerPolicyEstimator p) (minRelayFee p) (totalTxSize p) (mapTx p) (mapNextTx p) (mapDeltas p).
Definition AddTransactionsUpdated (k : Z) (p : CTxMemPool) : CTxMemPool :=
  with_txs p (T32 (nTransactionsUpdated p + k)) (totalTxSize p) (mapTx p) (mapNextTx p).

(** ** Reading *)

Definition exists_tx (h : list Z) (p : CTxMemPool) : bool := bool_decide (is_Some (mapTx p !! h)).
Definition lookup (h : list Z) (p : CTxMemPool) : option CTransaction := CTxMemPoolEntry.tx <$> mapTx p !! h.
Definition queryHashes (p : CTxMemPool) : list (list Z) := (ordered (mapTx p)).*1.

(** [*it->second.ptx] *)
Definition deref (p : CTxMemPool) (it : CInPoint) : option CTransaction := lookup (ptx it) p.

(** [pruneSpent]: the outpoints of a hash are next to each other in the map. *)
Definition pruneSpent (hashTx : list Z) (c : CCoins) (p : CTxMemPool) : CCoins :=
  fold_left (fun c it => if decide (hash it.1 = hashTx) then match Spend c (n it.1) with Some (c', _) => c' | None => c end else c)
    (ordered_points (mapNextTx p)) c.

(** ** Adding *)

Definition add_points (h : list Z) (vin : list CTxIn) (m : gmap COutPoint CInPoint) : gmap COutPoint CInPoint :=
  fold_left (fun m '(i, txin) => <[prevout txin := mkInPoint h i]> m) (combine (seq 0 (length vin)) vin) m.

Definition addUnchecked (h : list Z) (entry : CTxMemPoolEntry.t) (p : CTxMemPool) : CTxMemPool :=
  let tx := CTxMemPoolEntry.tx entry in
  with_txs p (T32 (nTransactionsUpdated p + 1)) (T64 (totalTxSize p + CTxMemPoolEntry.nTxSize entry)) (<[h := entry]> (mapTx p))
    (if negb (tx_IsZerocoinSpend tx) then add_points h (vin tx) (mapNextTx p) else mapNextTx p).

(** ** Removing *)

(** The hashes of the transactions that spend the first [k] outputs of [h]. *)
Definition spenders (h : list Z) (k : nat) (p : CTxMemPool) : option (list (list Z)) :=
  foldr (fun i acc =>
      match mapNextTx p !! mkOutPoint h (Z.of_nat i) with
      | None => acc
      | Some it => t ← deref p it; l ← acc; Some (GetHash t :: l)
      end) (Some []) (seq 0 k).

Definition erase_points (vin : list CTxIn) (m : gmap COutPoint CInPoint) : gmap COutPoint CInPoint :=
  fold_left (fun m txin => delete (prevout txin) m) vin m.

Definition erase_entry (h : list Z) (e : CTxMemPoolEntry.t) (p : CTxMemPool) : CTxMemPool :=
  with_txs p (T32 (nTransactionsUpdated p + 1)) (T64 (totalTxSize p - CTxMemPoolEntry.nTxSize e)) (delete h (mapTx p))
    (erase_points (vin (CTxMemPoolEntry.tx e)) (mapNextTx p)).

(** [while (!txToRemove.empty())]; the fuel does not run out
    ([MemPoolOps.remove_spec]). *)
Fixpoint remove_loop (fuel : nat) (txToRemove : list (list Z)) (fRecursive : bool) (removed : list CTransaction) (p : CTxMemPool)
  : option (list CTransaction * CTxMemPool) :=
  match txToRemove with
  | [] => Some (removed, p)
  | h :: txToRemove =>
      match fuel with
      | O => None
      | S fuel =>
          match mapTx p !! h with
          | None => remove_loop fuel txToRemove fRecursive removed p
          | Some e =>
              let tx := CTxMemPoolEntry.tx e in
              l ← (if fRecursive then spenders h (length (Transaction.vout tx)) p else Some []);
              remove_loop fuel (txToRemove ++ l) fRecursive (removed ++ [tx]) (erase_entry h e p)
          end
      end
  end.

Definition remove (origTx : CTransaction) (fRecursive : bool) (removed : list CTransaction) (p : CTxMemPool)
  : option (list CTransaction * CTxMemPool) :=
  let h := GetHash origTx in
  l ← (if fRecursive && negb (exists_tx h p) then spenders h (length (Transaction.vout origTx)) p else Some []);
  remove_loop (S (length l) + size (mapNextTx p)) (h :: l) fRecursive removed p.

Definition ClearPrioritisation (h : list Z) (p : CTxMemPool) : CTxMemPool := with_deltas p (delete h (mapDeltas p)).

Fixpoint removeConflicts_loop (tx : CTransaction) (vin : list CTxIn) (removed : list CTransaction) (p : CTxMemPool)
  : option (list CTransaction * CTxMemPool) :=
  match vin with
  | [] => Some (removed, p)
  | txin :: vin =>
      match mapNextTx p !! prevout txin with
      | None => removeConflicts_loop tx vin removed p
      | Some it =>
          txConflict ← deref p it;
          if decide (GetHash txConflict = GetHash tx) then removeConflicts_loop tx vin removed p
          else '(removed, p) ← remove txConflict true removed p; removeConflicts_loop tx vin removed p
      end
  end.

Definition removeConflicts (tx : CTransaction) (removed : list CTransaction) (p : CTxMemPool) : option (list CTransaction * CTxMemPool) :=
  removeConflicts_loop tx (vin tx) removed p.

Section Block.
Variable push_back : forall A : Type, list A -> A -> list A.
Variable random_shuffle : forall A : Type, list A -> list A.

Fixpoint removeForBlock_loop (vtx : list CTransaction) (conflicts : list CTransaction) (p : CTxMemPool)
  : option (list CTransaction * CTxMemPool) :=
  match vtx with
  | [] => Some (conflicts, p)
  | tx :: vtx =>
      '(_, p) ← remove tx false [] p;
      '(conflicts, p) ← removeConflicts tx conflicts p;
      removeForBlock_loop vtx conflicts (ClearPrioritisation (GetHash tx) p)
  end.

Definition removeForBlock (vtx : list CTransaction) (nBlockHeight : Z) (conflicts : list CTransaction) (p : CTxMemPool)
  : option (list CTransaction * CTxMemPool) :=
  let entries := omap (fun tx => mapTx p !! GetHash tx) vtx in
  e ← seenBlock push_back random_shuffle entries nBlockHeight (minRelayFee p) (minerPolicyEstimator p);
  removeForBlock_loop vtx conflicts (with_estimator p e).
End Block.

Definition clear (p : CTxMemPool) : CTxMemPool := with_txs p (T32 (nTransactionsUpdated p + 1)) 0 ∅ ∅.

(** ** Priorities set by the user: a sum that leaves [CAmount] is undefined. *)

Definition add_amount (a b : Z) : option Z := if Serialize.to_signed 64 (T64 (a + b)) =? a + b then Some (a + b) else None.

Definition PrioritiseTransaction (h : list Z) (dPriorityDelta : double) (nFeeDelta : Z) (p : CTxMemPool) : option CTxMemPool :=
  let '(d, a) := default (zero, 0) (mapDeltas p !! h) in
  a ← add_amount a nFeeDelta;
  Some (with_deltas p (<[h := (add d dPriorityDelta, a)]> (mapDeltas p))).

Definition ApplyDeltas (h : list Z) (dPriorityDelta : double) (nFeeDelta : Z) (p : CTxMemPool) : option (double * Z) :=
  match mapDeltas p !! h with
  | None => Some (dPriorityDelta, nFeeDelta)
  | Some (d, a) => a ← add_amount nFeeDelta a; Some (add dPriorityDelta d, a)
  end.

(** ** Over a view of the unspent outputs *)

(** [CCoinsViewMemPool]: a transaction of the pool before those of the view
    it is backed by; everything else is the backing view's. *)
Record CCoinsViewMemPool (V : Type) : Type := mkPoolView { pool_base : V; mempool : CTxMemPool }.
#[global] Arguments mkPoolView {V} pool_base mempool.
#[global] Arguments pool_base {V} c.
#[global] Arguments mempool {V} c.

#[export] Instance CCoinsViewMemPool_view (V : Type) `{!CCoinsView V} : CCoinsView (CCoinsViewMemPool V) := {
  GetCoins t v :=
    match lookup t (mempool v) with
    | Some tx => (Some (FromTx tx MEMPOOL_HEIGHT), v)
    | None =>
        match GetCoins t (pool_base v) with
        | (Some c, b) => (if IsPruned c then None else Some c, mkPoolView b (mempool v))
        | (None, b) => (None, mkPoolView b (mempool v))
        end
    end;
  HaveCoins t v :=
    if exists_tx t (mempool v) then (true, v)
    else let '(r, b) := HaveCoins t (pool_base v) in (r, mkPoolView b (mempool v));
  GetBestBlock v := let '(h, b) := GetBestBlock (pool_base v) in (h, mkPoolView b (mempool v));
  BatchWrite m h v := b ← BatchWrite m h (pool_base v); Some (mkPoolView b (mempool v));
}.

(** [CCoinsView dummy;] *)
Inductive CCoinsViewNull : Set := Null.

#[export] Instance CCoinsViewNull_view : CCoinsView CCoinsViewNull := {
  GetCoins _ v := (None, v);
  HaveCoins _ v := (false, v);
  GetBestBlock v := (uint256_0, v);
  BatchWrite _ _ _ := None;
}.

Definition SetBackend {V W : Type} (b : W) (v : CCoinsViewCache V) : CCoinsViewCache W :=
  mkCache b (hasModifier v) (hashBlock v) (cacheCoins v).

Section Views.
Context {V : Type} `{!CCoinsView V} {params : CChainParams}.
Variable Verify : list Z -> list Z -> list Z -> bool.
Variable block_height : list Z -> option Z.
Implicit Types (pcoins : CCoinsViewCache V).

(** *** [removeCoinbaseSpends] *)

(** Whether an input of the transaction is gone or not mature; the heights
    are subtracted as [unsigned int]. *)
Fixpoint spends_immature (p : CTxMemPool) (nMemPoolHeight : Z) (vin : list CTxIn) pcoins : option (bool * CCoinsViewCache V) :=
  match vin with
  | [] => Some (false, pcoins)
  | txin :: vin =>
      if exists_tx (hash (prevout txin)) p then spends_immature p nMemPoolHeight vin pcoins
      else
        match FetchCoins (hash (prevout txin)) pcoins with
        | (None, pcoins) => if fSanityCheck p then None else Some (true, pcoins)
        | (Some c, pcoins) =>
            if (fCoinBase c || fCoinStake c) && (T32 (nMemPoolHeight - Coins.nHeight c) <? T32 COINBASE_MATURITY)
            then Some (true, pcoins) else spends_immature p nMemPoolHeight vin pcoins
        end
  end.

Fixpoint immature_txs (p : CTxMemPool) (nMemPoolHeight : Z) (entries : list (list Z * CTxMemPoolEntry.t)) pcoins
  : option (list CTransaction * CCoinsViewCache V) :=
  match entries with
  | [] => Some ([], pcoins)
  | (_, e) :: entries =>
      let tx := CTxMemPoolEntry.tx e in
      '(b, pcoins) ← spends_immature p nMemPoolHeight (vin tx) pcoins;
      '(l, pcoins) ← immature_txs p nMemPoolHeight entries pcoins;
      Some (if (b : bool) then tx :: l else l, pcoins)
  end.

Fixpoint remove_all (l : list CTransaction) (p : CTxMemPool) : option CTxMemPool :=
  match l with
  | [] => Some p
  | tx :: l => '(_, p) ← remove tx true [] p; remove_all l p
  end.

Definition removeCoinbaseSpends (nMemPoolHeight : Z) pcoins (p : CTxMemPool) : option (CTxMemPool * CCoinsViewCache V) :=
  '(transactionsToRemove, pcoins) ← immature_txs p nMemPoolHeight (ordered (mapTx p)) pcoins;
  p ← remove_all transactionsToRemove p;
  Some (p, pcoins).

(** *** [check] *)

(** [mempoolDuplicate], whose base is [pcoins]. *)
Abbreviation duplicate := (CCoinsViewCache (CCoinsViewCache V)) (only parsing).

(** [pcoins->AccessCoins] *)
Definition access_base (t : list Z) (dup : duplicate) : option CCoins * duplicate :=
  let '(r, b) := FetchCoins t (base dup) in (r, with_cache dup b (cacheCoins dup)).

(** The inputs of the entry of [h]: whether one is of the pool. *)
Fixpoint check_points (p : CTxMemPool) (h : list Z) (i : nat) (vin : list CTxIn) (fDependsWait : bool) (dup : duplicate)
  : option (bool * duplicate) :=
  match vin with
  | [] => Some (fDependsWait, dup)
  | txin :: vin =>
      '(fDependsWait, dup) ←
        match lookup (hash (prevout txin)) p with
        | Some tx2 =>
            if (n (prevout txin) <? Z.of_nat (length (Transaction.vout tx2)))
               && negb (CTxOut_IsNull (Transaction.vout_at tx2 (Z.to_nat (n (prevout txin)))))
            then Some (true, dup) else None
        | None =>
            match access_base (hash (prevout txin)) dup with
            | (Some c, dup) => if IsAvailable c (n (prevout txin)) then Some (fDependsWait, dup) else None
            | (None, _) => None
            end
        end;
      it3 ← mapNextTx p !! prevout txin;
      if decide (ptx it3 = h) then if (nIn it3 =? i)%nat then check_points p h (S i) vin fDependsWait dup else None
      else None
  end.

(** The two assertions on a transaction whose inputs are there. *)
Definition check_connect (tx : CTransaction) (dup : duplicate) : option duplicate :=
  match CheckInputs Verify block_height tx false 0 false dup with
  | (Pass _, dup) =>
      match UpdateCoins tx 1000000 dup with
      | Some (true, _, dup) => Some dup
      | _ => None
      end
  | _ => None
  end.

Fixpoint check_entries (p : CTxMemPool) (entries : list (list Z * CTxMemPoolEntry.t)) (checkTotal : Z)
    (waitingOnDependants : list CTxMemPoolEntry.t) (dup : duplicate) : option (Z * list CTxMemPoolEntry.t * duplicate) :=
  match entries with
  | [] => Some (checkTotal, waitingOnDependants, dup)
  | (h, e) :: entries =>
      let tx := CTxMemPoolEntry.tx e in
      let checkTotal := T64 (checkTotal + CTxMemPoolEntry.nTxSize e) in
      '(fDependsWait, dup) ← check_points p h 0 (vin tx) false dup;
      if (fDependsWait : bool) then check_entries p entries checkTotal (waitingOnDependants ++ [e]) dup
      else dup ← check_connect tx dup; check_entries p entries checkTotal waitingOnDependants dup
  end.

(** [while (!waitingOnDependants.empty())]; the fuel does not run out
    ([MemPoolCheck.check_spec]). *)
Fixpoint check_waiting (fuel : nat) (waitingOnDependants : list CTxMemPoolEntry.t) (stepsSinceLastRemove : nat) (dup : duplicate)
  : option duplicate :=
  match waitingOnDependants with
  | [] => Some dup
  | entry :: waitingOnDependants =>
      match fuel with
      | O => None
      | S fuel =>
          match HaveInputs (CTxMemPoolEntry.tx entry) dup with
          | (false, dup) =>
              if (S stepsSinceLastRemove <? S (length waitingOnDependants))%nat
              then check_waiting fuel (waitingOnDependants ++ [entry]) (S stepsSinceLastRemove) dup else None
          | (true, dup) => dup ← check_connect (CTxMemPoolEntry.tx entry) dup; check_waiting fuel waitingOnDependants 0 dup
          end
      end
  end.

Definition check_next (p : CTxMemPool) : bool :=
  forallb (fun '(o, it) =>
      match deref p it with
      | None => false
      | Some ptx' =>
          match mapTx p !! GetHash ptx' with
          | None => false
          | Some e => bool_decide (GetHash ptx' = ptx it)
                      && (nIn it <? length (vin (CTxMemPoolEntry.tx e)))%nat
                      && match nth_error (vin ptx') (nIn it) with Some txin => bool_decide (o = prevout txin) | None => false end
          end
      end) (ordered_points (mapNextTx p)).

Definition check (pcoins : CCoinsViewCache V) (p : CTxMemPool) : option (CCoinsViewCache V) :=
  if negb (fSanityCheck p) then Some pcoins
  else
    '(checkTotal, waitingOnDependants, dup) ← check_entries p (ordered (mapTx p)) 0 [] (CCoinsViewCache_new pcoins);
    let k := length waitingOnDependants in
    dup ← check_waiting (S k * S k) waitingOnDependants 0 dup;
    if check_next p then if totalTxSize p =? checkTotal then Some (base dup) else None else None.
End Views.
End MemPool.
