(* ===== verification/AcceptToMemoryPool.v ===== *)
(** The acceptance of a transaction to the memory pool (main.cpp):
    [IsStandardTx], [AreInputsStandard], [GetMinRelayFee],
    [AcceptToMemoryPool], and what [ConnectTip] and [DisconnectTip] do to the
    pool around the connection of a block.

    The settings, the clocks and the locks of SwiftX are a record of the
    node; [pow] is a parameter.  [None] is a failed assertion, an exception or
    undefined behaviour.  The pool handed to [AcceptToMemoryPool] is always
    the global [mempool]. *)
From stdpp Require Import base list gmap fin_maps.
From Stdlib Require Import String.
From S2P Require Import Prelude SphTypes Double Script SigEncoding Interpreter Standard Params Serialize Transaction SigHash TxCheck Coins CoinsView Connect ConnectBlock FeeEstimator MemPool.
Open Scope list_scope.

Module AcceptToMemoryPool.
Import Double Params Transaction TxCheck Coins CoinsView Connect FeeEstimator MemPool.
Import CTxMemPoolEntry(AllowFree).

Definition REJECT_DUPLICATE : Z := 0x12.
Definition REJECT_INSUFFICIENTFEE : Z := 0x42.
Definition DEFAULT_BLOCK_PRIORITY_SIZE : Z := 50000.
Definition MAX_P2SH_SIGOPS : Z := 15.
Definition MAX_TX_SIGOPS_CURRENT : Z := ConnectBlock.MAX_BLOCK_SIGOPS_CURRENT / 5.

Definition MANDATORY_SCRIPT_VERIFY_FLAGS : Z := SigEncoding.SCRIPT_VERIFY_P2SH.
Definition STANDARD_SCRIPT_VERIFY_FLAGS : Z :=
  MANDATORY_SCRIPT_VERIFY_FLAGS .| SigEncoding.SCRIPT_VERIFY_DERSIG .| SigEncoding.SCRIPT_VERIFY_STRICTENC
  .| SigEncoding.SCRIPT_VERIFY_MINIMALDATA .| SigEncoding.SCRIPT_VERIFY_NULLDUMMY
  .| SigEncoding.SCRIPT_VERIFY_DISCOURAGE_UPGRADABLE_NOPS.

(** Settings, [chainActive.Height()], [GetAdjustedTime()], [GetTime()],
    [mapLockedInputs] and the keys of [mapObfuscationBroadcastTxes]. *)
Record node : Type := mkNode {
  RequireStandard : bool;
  fIsBareMultisigStd : bool;
  fDataCarrier : bool;
  nMaxDatacarrierBytes : nat;
  minRelayTxFee : Z;
  relaypriority : bool;
  limitfreerelay : Z;
  chain_height : Z;
  adjusted_time : Z;
  now : Z;
  mapLockedInputs : gmap COutPoint (list Z);
  mapObfuscationBroadcastTxes : gset (list Z);
}.

(** ** [IsStandardTx] *)

Fixpoint standard_ins (vin : list CTxIn) : option string :=
  match vin with
  | [] => None
  | txin :: vin =>
      if (1650 <? length (scriptSig txin))%nat then Some "scriptsig-size"%string
      else if negb (Script.IsPushOnly (scriptSig txin)) then Some "scriptsig-not-pushonly"%string
      else standard_ins vin
  end.

(** [inl] is the reason, [inr] the number of data outputs. *)
Fixpoint standard_outs (nd : node) (vout : list CTxOut) (nDataOut : Z) : option (string + Z) :=
  match vout with
  | [] => Some (inr nDataOut)
  | txout :: vout =>
      match Standard.IsStandard (fDataCarrier nd) (nMaxDatacarrierBytes nd) (scriptPubKey txout) with
      | None => None
      | Some (false, _) => Some (inl "scriptpubkey"%string)
      | Some (true, Standard.TX_NULL_DATA) => standard_outs nd vout (nDataOut + 1)
      | Some (true, whichType) =>
          if match whichType with Standard.TX_MULTISIG => negb (fIsBareMultisigStd nd) | _ => false end
          then Some (inl "bare-multisig"%string)
          else if IsDust txout (minRelayTxFee nd) then Some (inl "dust"%string)
          else standard_outs nd vout nDataOut
      end
  end.

(** The reason when the transaction is not standard. *)
Definition IsStandardTx (nd : node) (tx : CTransaction) : option (option string) :=
  if (Transaction.nVersion tx >? CURRENT_VERSION) || (Transaction.nVersion tx <? 1) then Some (Some "version"%string)
  else if negb (IsFinalTx (chain_height nd) (adjusted_time nd) tx (chain_height nd + 1) 0) then Some (Some "non-final"%string)
  else if Serialize.GetSerializeSize CTransaction_format tx >=? MAX_STANDARD_TX_SIZE then Some (Some "tx-size"%string)
  else
    match standard_ins (vin tx) with
    | Some reason => Some (Some reason)
    | None =>
        match standard_outs nd (Transaction.vout tx) 0 with
        | None => None
        | Some (inl reason) => Some (Some reason)
        | Some (inr nDataOut) => Some (if nDataOut >? 1 then Some "multi-op-return"%string else None)
        end
    end.

(** ** Over a view of the inputs *)

Section OverInputs.
Context {V : Type} `{!CCoinsView V}.
Implicit Types (view : CCoinsViewCache V).

(** The loop of [AreInputsStandard]; a script of another kind under a script
    hash ends it. *)
Fixpoint inputs_standard (vin : list CTxIn) view : option bool * CCoinsViewCache V :=
  match vin with
  | [] => (Some true, view)
  | txin :: vin =>
      match GetOutputFor txin view with
      | (None, view) => (None, view)
      | (Some prev, view) =>
          match Standard.Solver (scriptPubKey prev) with
          | None => (None, view)
          | Some r =>
              if negb (Standard.ok r) then (Some false, view)
              else
                let nArgsExpected := Standard.ScriptSigArgsExpected (Standard.typeRet r) (Standard.vSolutionsRet r) in
                if nArgsExpected <? 0 then (Some false, view)
                else
                  match Interpreter.EvalScript (fun _ _ _ => false) 0 [] (scriptSig txin) with
                  | None => (None, view)
                  | Some (Interpreter.Err _) => (Some false, view)
                  | Some (Interpreter.Ok stack) =>
                      let enough (n : Z) := Z.of_nat (length stack) =? n in
                      match Standard.typeRet r with
                      | Standard.TX_SCRIPTHASH =>
                          if (length stack =? 0)%nat then (Some false, view)
                          else
                            let subscript := List.last stack [] in
                            match Standard.Solver subscript with
                            | None => (None, view)
                            | Some r2 =>
                                if Standard.ok r2 then
                                  let tmpExpected := Standard.ScriptSigArgsExpected (Standard.typeRet r2) (Standard.vSolutionsRet r2) in
                                  if tmpExpected <? 0 then (Some false, view)
                                  else if enough (nArgsExpected + tmpExpected) then inputs_standard vin view else (Some false, view)
                                else (Some (Script.GetSigOpCount subscript true <=? MAX_P2SH_SIGOPS), view)
                            end
                      | _ => if enough nArgsExpected then inputs_standard vin view else (Some false, view)
                      end
                  end
          end
      end
  end.

Definition AreInputsStandard (tx : CTransaction) view : option bool * CCoinsViewCache V :=
  if IsCoinBase tx then (Some true, view) else inputs_standard (vin tx) view.

(** [CCoinsViewCache::GetPriority]; the products are of [int64_t]. *)
Fixpoint priority_inputs (nHeight : Z) (vin : list CTxIn) (dResult : double) view : option double * CCoinsViewCache V :=
  match vin with
  | [] => (Some dResult, view)
  | txin :: vin =>
      match FetchCoins (hash (prevout txin)) view with
      | (None, view) => (None, view)
      | (Some c, view) =>
          priority_inputs nHeight vin
            (if negb (IsAvailable c (n (prevout txin))) then dResult
             else if Coins.nHeight c <? nHeight
             then add dResult (of_Z (Serialize.to_signed 64 (T64 (nValue (Coins.vout_at c (n (prevout txin))) * (nHeight - Coins.nHeight c)))))
             else dResult) view
      end
  end.

Definition ComputePriority (tx : CTransaction) (dPriorityInputs : double) (nTxSize : Z) : double :=
  let nTxSize := CalculateModifiedSize tx nTxSize in
  if nTxSize =? 0 then zero else div dPriorityInputs (of_Z nTxSize).

Definition GetPriority (tx : CTransaction) (nHeight : Z) view : option double * CCoinsViewCache V :=
  if IsCoinBase tx || IsCoinStake tx then (Some zero, view)
  else match priority_inputs nHeight (vin tx) zero view with
       | (Some dResult, view) => (Some (ComputePriority tx dResult 0), view)
       | (None, view) => (None, view)
       end.
End OverInputs.

(** ** The fee to be relayed *)

Section Accept.
Context {V : Type} `{!CCoinsView V} {params : CChainParams}.
Variable Verify : list Z -> list Z -> list Z -> bool.
Variable block_height : list Z -> option Z.
Variable pow : double -> double -> double.
Variable nd : node.

Definition GetMinRelayFee (tx : CTransaction) (nBytes : Z) (fAllowFree : bool) (p : CTxMemPool) : option Z :=
  '(dPriorityDelta, nFeeDelta) ← ApplyDeltas (GetHash tx) zero 0 p;
  if gt dPriorityDelta zero || (nFeeDelta >? 0) then Some 0
  else
    let nMinFee := GetFee (minRelayTxFee nd) nBytes in
    let nMinFee := if fAllowFree && (nBytes <? DEFAULT_BLOCK_PRIORITY_SIZE - 1000) then 0 else nMinFee in
    Some (if negb (MoneyRange nMinFee) then MaxMoneyOut else nMinFee).

(** The pool, [pcoinsTip] and the statics of the rate limiter. *)
Record globals : Type := mkGlobals {
  pool : CTxMemPool;
  pcoinsTip : CCoinsViewCache V;
  dFreeCount : double;
  nLastTime : Z;
}.

Definition with_pool (s : globals) (p : CTxMemPool) : globals := mkGlobals p (pcoinsTip s) (dFreeCount s) (nLastTime s).
Definition with_tip (s : globals) (v : CCoinsViewCache V) : globals := mkGlobals (pool s) v (dFreeCount s) (nLastTime s).

(** What the function leaves: its value, [*pfMissingInputs] and [state]. *)
Record verdict : Type := mkVerdict { accepted : bool; missing : bool; vstate : CValidationState }.

Definition refuse (r : bool * CValidationState) : verdict := mkVerdict false false r.2.

(** *** The checks that need no inputs *)

Definition admit_tx (state : CValidationState) (tx : CTransaction) : option (verdict + CValidationState) :=
  match CheckTransaction tx state with
  | (false, state) => Some (inl (refuse (DoS 100 REJECT_INVALID "bad-tx" state)))
  | (true, state) =>
      if ContainsZerocoins tx then Some (inl (refuse (DoS 100 REJECT_INVALID "bad-tx-zerocoin" state)))
      else if IsCoinBase tx then Some (inl (refuse (DoS 100 REJECT_INVALID "coinbase" state)))
      else if IsCoinStake tx then Some (inl (refuse (DoS 100 REJECT_INVALID "coinstake" state)))
      else if RequireStandard nd then
        match IsStandardTx nd tx with
        | None => None
        | Some (Some reason) => Some (inl (refuse (DoS 0 REJECT_NONSTANDARD reason state)))
        | Some None => Some (inr state)
        end
      else Some (inr state)
  end.

(** The locks of SwiftX. *)
Definition lock_conflict (tx : CTransaction) : bool :=
  existsb (fun txin => match mapLockedInputs nd !! prevout txin with
                       | Some h => negb (bool_decide (h = GetHash tx))
                       | None => false
                       end) (vin tx).

Definition pool_conflict (tx : CTransaction) (p : CTxMemPool) : bool :=
  existsb (fun txin => bool_decide (is_Some (mapNextTx p !! prevout txin))) (vin tx).

(** *** The inputs *)

Abbreviation pool_view := (CCoinsViewCache (CCoinsViewMemPool (CCoinsViewCache V))) (only parsing).

Fixpoint inputs_known (vin : list CTxIn) (view : pool_view) : bool * pool_view :=
  match vin with
  | [] => (true, view)
  | txin :: vin =>
      match Cache_HaveCoins (hash (prevout txin)) view with
      | (true, view) => inputs_known vin view
      | (false, view) => (false, view)
      end
  end.

(** The view with the inputs of the transaction in its cache, and what they
    add up to. *)
Definition fetch_inputs (state : CValidationState) (tx : CTransaction) (view : pool_view) : option (verdict + Z) * pool_view :=
  match Cache_HaveCoins (GetHash tx) view with
  | (true, view) => (Some (inl (mkVerdict false false state)), view)
  | (false, view) =>
      match inputs_known (vin tx) view with
      | (false, view) => (Some (inl (mkVerdict false true state)), view)
      | (true, view) =>
          match HaveInputs tx view with
          | (false, view) => (Some (inl (refuse (Invalid REJECT_DUPLICATE "bad-txns-inputs-spent" state))), view)
          | (true, view) =>
              let '(_, view) := Cache_GetBestBlock view in
              match GetValueIn tx view with
              | (None, view) => (None, view)
              | (Some nValueIn, view) => (Some (inr nValueIn), view)
              end
          end
      end
  end.

(** *** The policy on fees; the view reads nothing but its cache. *)

Abbreviation cached := (CCoinsViewCache CCoinsViewNull) (only parsing).

(** The rate limiter of free transactions. *)
Definition limit_free (state : CValidationState) (nSize : Z) (s : globals) : (verdict + unit) * globals :=
  let dFreeCount := mul (dFreeCount s) (pow (sub one (div one (of_Z 600))) (of_Z (now nd - nLastTime s))) in
  if ge dFreeCount (of_Z (limitfreerelay nd * 10 * 1000))
  then (inl (refuse (DoS 0 REJECT_INSUFFICIENTFEE "rate limited free transaction" state)),
        mkGlobals (pool s) (pcoinsTip s) dFreeCount (now nd))
  else (inr tt, mkGlobals (pool s) (pcoinsTip s) (add dFreeCount (of_Z nSize)) (now nd)).

Definition fee_policy (state : CValidationState) (tx : CTransaction) (nFees nSize : Z) (fLimitFree ignoreFees : bool) (view : cached) (s : globals)
  : option ((verdict + unit) * cached * globals) :=
  if bool_decide (GetHash tx ∈ mapObfuscationBroadcastTxes nd) then
    d ← truncate (mul tenth (of_Z COIN));
    p ← PrioritiseTransaction (GetHash tx) (of_Z 1000) d (pool s);
    Some (inr tt, view, with_pool s p)
  else if negb ignoreFees then
    txMinFee ← GetMinRelayFee tx nSize true (pool s);
    if fLimitFree && (nFees <? txMinFee)
    then Some (inl (refuse (DoS 0 REJECT_INSUFFICIENTFEE "insufficient fee" state)), view, s)
    else
      '(refused, view) ←
        (if relaypriority nd && (nFees <? GetFee (minRelayTxFee nd) nSize) then
           match GetPriority tx (chain_height nd + 1) view with
           | (None, _) => None
           | (Some d, view) => Some (negb (AllowFree d), view)
           end
         else Some (false, view));
      if (refused : bool) then Some (inl (refuse (DoS 0 REJECT_INSUFFICIENTFEE "insufficient priority" state)), view, s)
      else if fLimitFree && (nFees <? GetFee (minRelayTxFee nd) nSize)
      then let '(r, s) := limit_free state nSize s in Some (r, view, s)
      else Some (inr tt, view, s)
  else Some (inr tt, view, s).

(** Standard inputs and few signature operations. *)
Definition input_policy (state : CValidationState) (tx : CTransaction) (view : cached) : option ((verdict + unit) * cached) :=
  match (if RequireStandard nd then AreInputsStandard tx view else (Some true, view)) with
  | (None, _) => None
  | (Some false, view) => Some (inl (mkVerdict false false state), view)
  | (Some true, view) =>
      match GetP2SHSigOpCount tx view with
      | (None, _) => None
      | (Some k, view) =>
          let nSigOps := T32 (GetLegacySigOpCount tx + k) in
          Some (if nSigOps >? MAX_TX_SIGOPS_CURRENT
                then inl (refuse (DoS 0 REJECT_NONSTANDARD "bad-txns-too-many-sigops" state)) else inr tt, view)
      end
  end.

(** [CheckInputs] with the standard flags, and again with the mandatory ones. *)
Definition verify_inputs (state : CValidationState) (tx : CTransaction) (view : cached) : option (verdict + unit) :=
  match CheckInputs Verify block_height tx true STANDARD_SCRIPT_VERIFY_FLAGS false view with
  | (Aborts, _) => None
  | (Fails r, _) => Some (inl (refuse (reject r state)))
  | (Pass _, view) =>
      match CheckInputs Verify block_height tx true MANDATORY_SCRIPT_VERIFY_FLAGS false view with
      | (Aborts, _) => None
      | (Fails r, _) => Some (inl (refuse (reject r state)))
      | (Pass _, _) => Some (inr tt)
      end
  end.

(** From the inputs in the cache of the view to the entry of the pool. *)
Definition accept_cached (state : CValidationState) (tx : CTransaction) (nValueIn : Z) (fLimitFree fRejectInsaneFee ignoreFees : bool)
    (view : cached) (s : globals) : option (verdict * globals) :=
  '(r, view) ← input_policy state tx view;
  match r with
  | inl v => Some (v, s)
  | inr _ =>
      match GetValueOut tx with
      | Value nValueOut =>
          let nFees := nValueIn - nValueOut in
          match GetPriority tx (chain_height nd) view with
          | (None, _) => None
          | (Some dPriority, view) =>
              let entry := CTxMemPoolEntry.new tx nFees (now nd) dPriority (T32 (chain_height nd)) in
              let nSize := T32 (CTxMemPoolEntry.nTxSize entry) in
              '(r, view, s) ← fee_policy state tx nFees nSize fLimitFree ignoreFees view s;
              match r with
              | inl v => Some (v, s)
              | inr _ =>
                  if fRejectInsaneFee && (nFees >? GetFee (minRelayTxFee nd) nSize * 10000)
                  then Some (mkVerdict false false state, s)
                  else
                    r ← verify_inputs state tx view;
                    match r with
                    | inl v => Some (v, s)
                    | inr _ => Some (mkVerdict true false state, with_pool s (addUnchecked (GetHash tx) entry (pool s)))
                    end
              end
          end
      | _ => None
      end
  end.

Definition AcceptToMemoryPool (state : CValidationState) (tx : CTransaction) (fLimitFree fRejectInsaneFee ignoreFees : bool) (s : globals)
  : option (verdict * globals) :=
  r ← admit_tx state tx;
  match r with
  | inl v => Some (v, s)
  | inr state =>
      if exists_tx (GetHash tx) (pool s) then Some (mkVerdict false false state, s)
      else if lock_conflict tx then Some (refuse (DoS 0 REJECT_INVALID "tx-lock-conflict" state), s)
      else if pool_conflict tx (pool s) then Some (mkVerdict false false state, s)
      else
        let '(r, view) := fetch_inputs state tx (CCoinsViewCache_new (mkPoolView (pcoinsTip s) (pool s))) in
        let s := with_tip s (pool_base (base view)) in
        r ← r;
        match r with
        | inl v => Some (v, s)
        | inr nValueIn => accept_cached state tx nValueIn fLimitFree fRejectInsaneFee ignoreFees (SetBackend Null view) s
        end
  end.

(** ** The pool at a change of the tip *)

(** The transactions of a disconnected block: back to the pool, or out of
    it with all that depends on them. *)
Fixpoint resurrect (vtx : list CTransaction) (s : globals) : option globals :=
  match vtx with
  | [] => Some s
  | tx :: vtx =>
      '(ok, s) ← (if IsCoinBase tx || IsCoinStake tx then Some (false, s)
                  else '(v, s) ← AcceptToMemoryPool CValidationState_new tx false false false s; Some (accepted v, s));
      s ← (if (ok : bool) then Some s else '(_, p) ← remove tx true [] (pool s); Some (with_pool s p));
      resurrect vtx s
  end.

Definition check_pool (s : globals) : option globals :=
  v ← check Verify block_height (pcoinsTip s) (pool s); Some (with_tip s v).

(** [DisconnectTip] of the block at [nHeight], as far as the coins and the
    pool go; [inl] is its failure. *)
Definition DisconnectTip (vtx : list CTransaction) (vtxundo : list (list CTxInUndo.t)) (nHeight : Z) (hashPrev : list Z) (s : globals)
  : option (unit + globals) :=
  s ← check_pool s;
  r ← DisconnectBlock vtx vtxundo nHeight hashPrev (CCoinsViewCache_new (pcoinsTip s));
  match r with
  | inl _ => Some (inl tt)
  | inr (false, _) => Some (inl tt)
  | inr (true, view) =>
      view ← Flush view;
      s ← resurrect vtx (with_tip s (base view));
      '(p, v) ← removeCoinbaseSpends nHeight (pcoinsTip s) (pool s);
      s ← check_pool (mkGlobals p v (dFreeCount s) (nLastTime s));
      Some (inr s)
  end.

Variable push_back : forall A : Type, list A -> A -> list A.
Variable random_shuffle : forall A : Type, list A -> list A.

(** [control.Wait()]: the checks [ConnectBlock] left to the threads. *)
Definition queue_ok (l : list (CTransaction * CScriptCheck)) : bool :=
  forallb (fun p => match run_check Verify p.1 p.2 with Some None => true | _ => false end) l.

(** [ConnectTip] of the block at [nHeight], as far as the coins and the pool
    go; [inl] is its failure, with the reads it has done. *)
Definition ConnectTip (flags : Z) (fStrict fScriptChecks fThreads : bool) (vtx : list CTransaction) (nHeight : Z) (hashBlock : list Z)
    (s : globals) : option (rejection * globals + globals) :=
  s ← check_pool s;
  match ConnectBlock.ConnectBlock_txs Verify block_height nHeight flags fStrict fScriptChecks fThreads vtx hashBlock
          (CCoinsViewCache_new (pcoinsTip s)) with
  | (Aborts, _) => None
  | (Fails r, view) => Some (inl (r, with_tip s (base view)))
  | (Pass st, view) =>
      if negb (queue_ok (ConnectBlock.vChecks st)) then Some (inl (mkRejection 100 0 EmptyString, with_tip s (base view)))
      else
        view ← Flush view;
        '(txConflicted, p) ← removeForBlock push_back random_shuffle vtx nHeight [] (pool s);
        s ← check_pool (with_tip (with_pool s p) (base view));
        Some (inr s)
  end.
End Accept.
End AcceptToMemoryPool.
