(* ===== verification/CoinSet.v ===== *)
(** The unspent outputs by outpoint: what a map from transactions to their
    coins says of every single output, and what [UpdateCoins] and
    [CheckInputs] do to it and ask of it. *)
From stdpp Require Import base list gmap fin_maps sets.
From S2P Require Import Prelude Script Params Transaction TxCheck Coins CoinsView Connect Undo FeeEstimator MemPool.
Open Scope list_scope.

Module CoinSet.
Import Params Transaction TxCheck Coins CoinsView Connect Undo MemPool.

#[local] Arguments IsPruned : simpl never.
#[local] Arguments Cleanup : simpl never.
#[local] Opaque GetHash.

(** An unspent output: whether it is of a coinbase or coinstake, the height
    of its block and the output. *)
Record coin : Type := mkCoin { generated : bool; coin_height : Z; output : CTxOut }.

Definition pair_coin (p : CCoins * CTxOut) : coin := mkCoin (fCoinBase p.1 || fCoinStake p.1) (Coins.nHeight p.1) p.2.

Definition coin_of (c : CCoins) (k : Z) : option coin :=
  if (0 <=? k) && IsAvailable c k then Some (pair_coin (c, Coins.vout_at c k)) else None.

Definition coin_at (u : outputs) (o : COutPoint) : option coin := c ← u (hash o); coin_of c (n o).

(** The outputs a transaction creates at a height. *)
Definition tx_coin (h : Z) (tx : CTransaction) (k : Z) : option coin := coin_of (FromTx tx h) k.

Lemma coin_at_ext u u' o : (forall t, u' t = u t) -> coin_at u' o = coin_at u o.
Proof. intros E. unfold coin_at. by rewrite E. Qed.

Lemma coin_at_spent u i : 0 <= n (prevout i) -> coin_at u (prevout i) = pair_coin <$> spent u i.
Proof.
  intros Hn. unfold coin_at, spent, coin_of. destruct (u (hash (prevout i))) as [c|]; cbn; [|done].
  rewrite (proj2 (Z.leb_le _ _) Hn). cbn. by destruct (IsAvailable _ _).
Qed.

Lemma coin_of_available c k : coin_of c k = if (0 <=? k) && available (vout c) (Z.to_nat k) then Some (pair_coin (c, Coins.vout_at c k)) else None.
Proof. unfold coin_of. destruct (Z.leb_spec 0 k); [|done]. cbn. by rewrite IsAvailable_available. Qed.

(** Coins that denote nothing have no output. *)
Lemma coin_at_unpruned u t c o : (forall t', u t' = if decide (t = t') then unpruned c else None) -> hash o = t -> coin_at u o = coin_of c (n o).
Proof.
  intros Hu <-. unfold coin_at. rewrite Hu. destruct (decide _) as [_|]; [|done]. unfold unpruned. destruct (IsPruned c) eqn:P; [|done].
  cbn. rewrite coin_of_available. rewrite (proj1 (IsPruned_available c) P). by rewrite andb_false_r.
Qed.

Lemma unpruned_coin c k : (c' ← unpruned c; coin_of c' k) = coin_of c k.
Proof.
  unfold unpruned. destruct (IsPruned c) eqn:P; [|done]. cbn. rewrite coin_of_available.
  by rewrite (proj1 (IsPruned_available c) P), andb_false_r.
Qed.

(** ** Spending *)

Lemma Spend_coin c k c' undo k' : 0 <= k -> Spend c k = Some (c', undo) ->
  coin_of c' k' = if decide (k' = k) then None else coin_of c k'.
Proof.
  intros Hk HS. destruct (Spend_shape _ _ _ _ Hk HS) as (Ha & Ec & _). rewrite !coin_of_available.
  destruct (Z.leb_spec 0 k') as [Hk'|]; cbn [andb]; [|by destruct (decide _)].
  assert (Hav : available (vout c') (Z.to_nat k') = available (vout c) (Z.to_nat k') && negb (Z.to_nat k' =? Z.to_nat k)%nat).
  { rewrite Ec. cbn [vout Cleanup with_vout]. unfold Cleanup. cbn [vout with_vout]. by rewrite available_pop, available_set. }
  rewrite Hav. destruct (decide (k' = k)) as [->|Hne]; [by rewrite Nat.eqb_refl, andb_false_r|].
  destruct (Nat.eqb_spec (Z.to_nat k') (Z.to_nat k)) as [|_]; [lia|]. rewrite andb_true_r.
  destruct (available (vout c) (Z.to_nat k')) eqn:Ea; [|done]. f_equal. unfold pair_coin. rewrite Ec.
  unfold Cleanup. cbn [fst snd fCoinBase fCoinStake Coins.nHeight with_vout]. f_equal. unfold Coins.vout_at. cbn [vout with_vout].
  rewrite nth_pop by (rewrite available_set by done; rewrite Ea; apply Bool.negb_true_iff, Nat.eqb_neq; lia).
  rewrite nth_set_vout. destruct (Nat.eqb_spec (Z.to_nat k') (Z.to_nat k)); [lia | done].
Qed.

Lemma Spend_available c k : 0 <= k -> is_Some (Spend c k) <-> is_Some (coin_of c k).
Proof.
  intros Hk. unfold coin_of, Spend, IsAvailable. rewrite (proj2 (Z.leb_le _ _) Hk). cbn [andb].
  destruct (Z.leb_spec (Z.of_nat (length (vout c))) k) as [H|H].
  - destruct (Z.ltb_spec k (Z.of_nat (length (vout c)))); [lia|]. cbn. by rewrite !is_Some_alt.
  - destruct (Z.ltb_spec k (Z.of_nat (length (vout c)))); [|lia]. cbn. destruct (CTxOut_IsNull _); cbn; by rewrite !is_Some_alt.
Qed.

Abbreviation prevouts tx := (map prevout (vin tx)) (only parsing).

(** Spending takes the outpoints of the inputs, each of them there. *)
Lemma spends_coin u vin l u' : spends u vin l u' -> positioned vin ->
  NoDup (map prevout vin) /\ Forall (fun i => is_Some (coin_at u (prevout i))) vin /\
  forall o, coin_at u' o = if decide (o ∈ map prevout vin) then None else coin_at u o.
Proof.
  induction 1 as [u u' E|u i vin c c' undo u1 l u' Hu HS H1 Hs IH]; intros Hp.
  { split; [constructor|]. split; [constructor|]. intros o. rewrite decide_False by apply not_elem_of_nil. by apply coin_at_ext. }
  apply Forall_cons_iff in Hp as [Hn Hp]. destruct (IH Hp) as (Hnd & Hav & Hco).
  assert (Hstep : forall o, coin_at u1 o = if decide (o = prevout i) then None else coin_at u o).
  { intros o. unfold coin_at. rewrite H1. destruct (decide (hash (prevout i) = hash o)) as [Eh|Hh].
    - rewrite unpruned_coin, (Spend_coin _ _ _ _ (n o) Hn HS), <- Eh, Hu. cbn.
      destruct (decide (n o = n (prevout i))), (decide (o = prevout i)); try done; [|congruence].
      exfalso. destruct o, (prevout i); cbn in *; congruence.
    - destruct (decide (o = prevout i)); [congruence | done]. }
  cbn [map]. split; [|split].
  - constructor; [|done]. intros Hin. apply in_map_iff in Hin as (j & Ej & Hj).
    rewrite List.Forall_forall in Hav. specialize (Hav j Hj). rewrite Ej, Hstep in Hav.
    rewrite decide_True in Hav by done. by destruct Hav.
  - constructor.
    + unfold coin_at. rewrite Hu. cbn. apply Spend_available; [done|]. rewrite HS. by eexists.
    + eapply Forall_impl; [|exact Hav]. intros j [d Hd]. rewrite Hstep in Hd. destruct (decide _); [done|]. by exists d.
  - intros o. rewrite Hco, Hstep. destruct (decide (o ∈ map prevout vin)) as [Hin|Hin], (decide (o ∈ prevout i :: map prevout vin)) as [Hin'|Hin'];
      try done; [by destruct Hin'; right|..]; destruct (decide (o = prevout i)) as [->|Hne]; try done.
    + apply elem_of_cons in Hin' as [|]; done.
    + destruct Hin'. by left.
Qed.

(** Whatever can be taken that way is spent. *)
Lemma spends_exist vin : forall u, positioned vin -> NoDup (map prevout vin) -> Forall (fun i => is_Some (coin_at u (prevout i))) vin ->
  exists l u', spends u vin l u'.
Proof.
  induction vin as [|i vin IH]; intros u Hp Hnd Hav; [exists [], u; by constructor|].
  apply Forall_cons_iff in Hp as [Hn Hp], Hav as [Hi Hav]. cbn [map] in Hnd. apply NoDup_cons_iff in Hnd as [Hnew Hnd].
  assert (exists c, u (hash (prevout i)) = Some c /\ is_Some (coin_of c (n (prevout i)))) as (c & Hc & Hco).
  { unfold coin_at in Hi. destruct (u (hash (prevout i))) as [c|]; [|by destruct Hi]. by exists c. }
  apply Spend_available in Hco as [[c' undo] HS]; [|done].
  set (u1 := fun t => if decide (hash (prevout i) = t) then unpruned c' else u t).
  assert (H1 : spends u [i] [undo] u1) by (econstructor; [exact Hc | exact HS | done | by constructor]).
  destruct (spends_coin _ _ _ _ H1) as (_ & _ & Hst); [by constructor|].
  destruct (IH u1 Hp Hnd) as (l & u' & Hs).
  { rewrite !List.Forall_forall in *. intros j Hj. rewrite Hst. rewrite decide_False; [by apply Hav|].
    intros [E|[]%elem_of_nil]%elem_of_cons. apply Hnew. rewrite <- E. by apply in_map. }
  exists (undo :: l), u'. econstructor; [exact Hc | exact HS | done | exact Hs].
Qed.

(** ** Connecting a transaction *)

(** The unspent outputs after the transaction. *)
Definition after (h : Z) (tx : CTransaction) (U : COutPoint -> option coin) (o : COutPoint) : option coin :=
  if decide (hash o = GetHash tx) then tx_coin h tx (n o)
  else if decide (takes_inputs tx = true /\ o ∈ prevouts tx) then None else U o.

Lemma add_outputs_coin tx h u o :
  coin_at (add_outputs tx h u) o = if decide (hash o = GetHash tx) then tx_coin h tx (n o) else coin_at u o.
Proof.
  unfold coin_at, add_outputs. destruct (decide (GetHash tx = hash o)), (decide (hash o = GetHash tx)); try congruence.
  apply unpruned_coin.
Qed.

Section Connecting.
Context {V : Type} `{!CCoinsView V, !CoinsSpec V, !ReadableView V} {params : CChainParams}.
Implicit Types (view : CCoinsViewCache V).

Lemma UpdateCoins_coin tx h view : wf view -> positioned (vin tx) ->
  NoDup (prevouts tx) -> Forall (fun i => is_Some (coin_at (utxo view) (prevout i))) (vin tx) ->
  exists undo view', UpdateCoins tx h view = Some (true, undo, view') /\ wf view' /\ best view' = best view /\
    forall o, coin_at (utxo view') o = after h tx (coin_at (utxo view)) o.
Proof using All.
  intros Hwf Hp Hnd Hav. destruct (UpdateCoins_spec tx h view Hwf Hp) as (ok & undo & v & E & Hwf' & Hb & H).
  destruct ok.
  - exists undo, v. split; [done|]. split; [done|]. split; [done|]. destruct H as (u & Hu & Hv). intros o.
    rewrite (coin_at_ext _ _ o Hv), add_outputs_coin. unfold after. destruct (decide (hash o = _)); [done|].
    destruct (takes_inputs tx).
    + destruct (spends_coin _ _ _ _ Hu Hp) as (_ & _ & ->).
      destruct (decide (o ∈ prevouts tx)), (decide (true = true /\ o ∈ prevouts tx)); try done; tauto.
    + rewrite decide_False by (by intros [? _]). by apply coin_at_ext, Hu.
  - destruct H as [_ Hno]. destruct (spends_exist (vin tx) (utxo view) Hp Hnd Hav) as (l & u' & Hs). by destruct (Hno l u').
Qed.
End Connecting.

(** ** What the inputs must fulfil *)

Section Passing.
Context {params : CChainParams}.

Definition coin_mature (h : Z) (c : coin) : Prop := generated c = true -> COINBASE_MATURITY <= h - coin_height c.

Definition coins_total (ins : list coin) : Z := total (map output ins).

Definition coins_pass (tx : CTransaction) (h out : Z) (ins : list coin) : Prop :=
  Forall (fun c => coin_mature h c /\ money (output c)) ins /\ coins_total ins <= MaxMoneyOut /\
  (IsCoinStake tx = false -> out <= coins_total ins).

Lemma coins_total_pairs ins : coins_total (map pair_coin ins) = total_in ins.
Proof using. unfold coins_total, total_in. by rewrite map_map. Qed.

Lemma inputs_pass_coins tx h out ins : inputs_pass tx h out ins <-> coins_pass tx h out (map pair_coin ins).
Proof using.
  unfold inputs_pass, coins_pass. rewrite coins_total_pairs. rewrite List.Forall_map. done.
Qed.

(** The coins of the inputs. *)
Definition all_coins (U : COutPoint -> option coin) (vin : list CTxIn) (ins : list coin) : Prop :=
  Forall2 (fun i c => U (prevout i) = Some c) vin ins.

Lemma all_spent_coins u vin ins : positioned vin -> all_spent u vin ins -> all_coins (coin_at u) vin (map pair_coin ins).
Proof using.
  intros Hp H. induction H as [|i p vin ins Hi H IH]; [constructor|]. apply Forall_cons_iff in Hp as [Hn Hp].
  constructor; [|by apply IH]. by rewrite coin_at_spent, Hi.
Qed.

Lemma coins_all_spent u vin cs : positioned vin -> all_coins (coin_at u) vin cs ->
  exists ins, all_spent u vin ins /\ cs = map pair_coin ins.
Proof using.
  intros Hp H. induction H as [|i c vin cs Hi H IH]; [exists []; split; [constructor | done]|].
  apply Forall_cons_iff in Hp as [Hn Hp]. destruct (IH Hp) as (ins & Hs & ->).
  rewrite coin_at_spent in Hi by done. apply fmap_Some in Hi as (p & Hp' & ->).
  exists (p :: ins). split; [by constructor | done].
Qed.

Lemma all_coins_available U vin ins : all_coins U vin ins -> Forall (fun i => is_Some (U (prevout i))) vin.
Proof using. induction 1 as [|i c vin ins Hi _ IH]; constructor; [by exists c | done]. Qed.

Lemma all_coins_exist U vin : Forall (fun i => is_Some (U (prevout i))) vin -> exists ins, all_coins U vin ins.
Proof using.
  induction 1 as [|i vin [c Hc] _ [ins IH]]; [exists []; constructor | exists (c :: ins); by constructor].
Qed.

Lemma all_coins_unique U vin ins ins' : all_coins U vin ins -> all_coins U vin ins' -> ins' = ins.
Proof using.
  unfold all_coins. intros H. revert ins'. induction H; intros ins' H'; inversion H'; subst; [done|]. f_equal; [congruence | eauto].
Qed.

(** Coins of the same outputs, possibly more mature, pass as well. *)
Definition no_younger (h h' : Z) (c c' : coin) : Prop := output c' = output c /\ (coin_mature h c -> coin_mature h' c').

Lemma coins_pass_mono tx h h' out ins ins' : Forall2 (no_younger h h') ins ins' -> coins_pass tx h out ins -> coins_pass tx h' out ins'.
Proof using.
  intros H (Hf & Ht & Hle). assert (E : map output ins' = map output ins).
  { clear - H. induction H as [|c c' ins ins' [Ho _] _ IH]; cbn; congruence. }
  unfold coins_pass, coins_total in *. rewrite E. split; [|done]. clear - H Hf.
  induction H as [|c c' ins ins' [Ho Hm] _ IH]; [constructor|]. apply Forall_cons_iff in Hf as [[Hmat Hmon] Hf].
  constructor; [|by apply IH]. split; [auto | by rewrite Ho].
Qed.

(** The height a transaction's outputs are given is of no account, unless
    they are a coinbase's or a coinstake's. *)
Lemma FromTx_header tx h : let c := FromTx tx h in
  fCoinBase c = IsCoinBase tx /\ fCoinStake c = IsCoinStake tx /\ Coins.nHeight c = h.
Proof using. done. Qed.

Lemma tx_coin_height h h' tx k c : tx_coin h tx k = Some c ->
  generated c = IsCoinBase tx || IsCoinStake tx /\ coin_height c = h /\
  tx_coin h' tx k = Some (mkCoin (generated c) h' (output c)).
Proof using.
  unfold tx_coin. rewrite !coin_of_available.
  assert (E : vout (FromTx tx h') = vout (FromTx tx h)) by done. rewrite E.
  destruct (_ && _); [|done]. intros [= <-]. done.
Qed.

Lemma tx_coin_output h tx k c : tx_coin h tx k = Some c ->
  0 <= k < Z.of_nat (length (Transaction.vout tx)) /\ output c = Transaction.vout_at tx (Z.to_nat k) /\ CTxOut_IsNull (output c) = false.
Proof using.
  unfold tx_coin. rewrite coin_of_available. destruct (Z.leb_spec 0 k) as [Hk|]; [|done]. cbn [andb].
  destruct (available _ _) eqn:Ea; [|done]. intros [= <-]. unfold FromTx, ClearUnspendable, Cleanup in *. cbn [vout with_vout pair_coin output snd] in *.
  set (v := map _ (Transaction.vout tx)) in *. rewrite available_pop in Ea.
  unfold Coins.vout_at. cbn [vout with_vout]. fold v. rewrite nth_pop by done.
  unfold available in Ea. apply andb_true_iff in Ea as [Hl Hnn]. apply Nat.ltb_lt in Hl. apply negb_true_iff in Hnn.
  split; [|split; [|done]].
  - unfold v in Hl. rewrite length_map in Hl. lia.
  - unfold v in *. rewrite length_map in Hl.
    rewrite (nth_indep _ _ ((fun txout => if Script.IsUnspendable (scriptPubKey txout) then CTxOut_SetNull else txout) CTxOut_SetNull)) in *
      by (rewrite length_map; lia).
    rewrite (map_nth (fun txout => if Script.IsUnspendable (scriptPubKey txout) then CTxOut_SetNull else txout)) in *.
    unfold Transaction.vout_at. destruct (Script.IsUnspendable _); done.
Qed.
End Passing.

(** ** What the operations do to the view behind the cache: they read it *)

Section Behind.
Context {W : Type} `{!CCoinsView W} {params : CChainParams}.
(** A relation the reads of the base keep to. *)
Context (R : W -> W -> Prop) `{!PreOrder R}.
Hypothesis GetCoins_R : forall t b r b', GetCoins t b = (r, b') -> R b b'.
Implicit Types (v : CCoinsViewCache W).

Lemma FetchCoins_behind t v r v' : FetchCoins t v = (r, v') -> R (base v) (base v').
Proof using GetCoins_R PreOrder0.
  unfold FetchCoins. destruct (cacheCoins v !! t); [by intros [= <- <-]|]. destruct (GetCoins t (base v)) as [[c|] b] eqn:G;
    intros [= <- <-]; by apply GetCoins_R in G.
Qed.

Lemma HaveCoins_behind t v r v' : Cache_HaveCoins t v = (r, v') -> R (base v) (base v').
Proof using GetCoins_R PreOrder0.
  unfold Cache_HaveCoins. destruct (FetchCoins t v) as [[c|] w] eqn:F; intros [= <- <-]; by apply FetchCoins_behind in F.
Qed.

Lemma have_inputs_behind vin : forall v r v', have_inputs vin v = (r, v') -> R (base v) (base v').
Proof using GetCoins_R PreOrder0.
  induction vin as [|i vin IH]; intros v r v'; cbn [have_inputs]; [by intros [= <- <-]|].
  destruct (FetchCoins _ v) as [[c|] w] eqn:F; apply FetchCoins_behind in F; [|by intros [= <- <-]].
  destruct (negb _); [by intros [= <- <-]|]. intros H. etransitivity; [exact F | by eapply IH].
Qed.

Lemma HaveInputs_behind tx v r v' : HaveInputs tx v = (r, v') -> R (base v) (base v').
Proof using GetCoins_R PreOrder0. unfold HaveInputs. destruct (IsCoinBase tx); [by intros [= <- <-] | apply have_inputs_behind]. Qed.

Lemma value_in_behind vin : forall n0 v r v', value_in vin n0 v = (r, v') -> R (base v) (base v').
Proof using GetCoins_R PreOrder0.
  induction vin as [|i vin IH]; intros n0 v r v'; cbn [value_in]; [by intros [= <- <-]|]. unfold GetOutputFor.
  destruct (FetchCoins _ v) as [[c|] w] eqn:F; apply FetchCoins_behind in F; [|by intros [= <- <-]].
  destruct (IsAvailable _ _); [|by intros [= <- <-]]. intros H. etransitivity; [exact F | by eapply IH].
Qed.

Lemma input_values_behind h vin : forall n0 v r v', input_values h vin n0 v = (r, v') -> R (base v) (base v').
Proof using GetCoins_R PreOrder0.
  induction vin as [|i vin IH]; intros n0 v r v'; cbn [input_values]; [by intros [= <- <-]|].
  destruct (FetchCoins _ v) as [[c|] w] eqn:F; apply FetchCoins_behind in F; [|by intros [= <- <-]].
  destruct (_ && _); [by intros [= <- <-]|]. destruct (_ || _); [by intros [= <- <-]|].
  intros H. etransitivity; [exact F | by eapply IH].
Qed.

Lemma modify_behind {A} t (f : CCoins -> CCoins * A) v a v' : modify t f v = Some (a, v') -> R (base v) (base v').
Proof using GetCoins_R PreOrder0.
  unfold modify, ModifyCoins. destruct (hasModifier v); [done|].
  destruct (match cacheCoins v !! t with
      | Some e => (e, base v)
      | None => match GetCoins t (base v) with
                | (None, b) => (mkEntry CCoins_empty false true, b)
                | (Some c, b) => (mkEntry c false (IsPruned c), b) end end) as [e b] eqn:E.
  assert (H : R (base v) b).
  { destruct (cacheCoins v !! t); [by injection E as <- <-|]. destruct (GetCoins t (base v)) as [[c|] b'] eqn:G;
      injection E as <- <-; by apply GetCoins_R in G. }
  cbn. unfold modifier_coins. cbn. rewrite lookup_insert_eq. cbn.
  unfold modifier_release, modifier_assign, with_cache. cbn. rewrite alter_insert_eq, lookup_insert_eq. cbn.
  destruct (_ && _); intros [= <- <-]; exact H.
Qed.

Lemma spend_inputs_behind vin : forall acc v r v', spend_inputs vin acc v = Some (r, v') -> R (base v) (base v').
Proof using GetCoins_R PreOrder0.
  induction vin as [|i vin IH]; intros acc v [b l] v'; cbn [spend_inputs]; [by intros [= <- <- <-]|].
  destruct (modify _ _ v) as [[[u|] w]|] eqn:E; [| |done]; apply modify_behind in E; [|by intros [= <- <- <-]].
  intros H. etransitivity; [exact E | by eapply IH].
Qed.

Lemma UpdateCoins_behind tx h v r v' : UpdateCoins tx h v = Some (r, v') -> R (base v) (base v').
Proof using GetCoins_R PreOrder0.
  unfold UpdateCoins. destruct (if negb (IsCoinBase tx) && negb (IsV5CoinStake tx) then spend_inputs (vin tx) [] v else Some (true, [], v)) as [[[b l] w]|] eqn:E; [|done].
  assert (H : R (base v) (base w)) by (destruct (_ && _); [by apply spend_inputs_behind in E | by injection E as <- <- <-]).
  destruct b; [|by intros [= <- <-]]. destruct (modify _ _ w) as [[[] w']|] eqn:E2; [|done]. apply modify_behind in E2.
  intros [= <- <-]. by etransitivity.
Qed.

Variable Verify : list Z -> list Z -> list Z -> bool.
Variable block_height : list Z -> option Z.
Hypothesis GetBestBlock_R : forall b h b', GetBestBlock b = (h, b') -> R b b'.

Lemma GetBestBlock_behind v h v' : Cache_GetBestBlock v = (h, v') -> R (base v) (base v').
Proof using GetBestBlock_R PreOrder0.
  unfold Cache_GetBestBlock. destruct (is_zero _); [|by intros [= <- <-]]. destruct (GetBestBlock (base v)) as [h' b] eqn:G.
  intros [= <- <-]. by apply GetBestBlock_R in G.
Qed.

Lemma script_checks_behind tx flags pv vin : forall i v r v', script_checks Verify tx flags pv i vin v = (r, v') -> R (base v) (base v').
Proof using GetCoins_R PreOrder0.
  induction vin as [|i vin IH]; intros k v r v'; cbn [script_checks]; [by intros [= <- <-]|].
  destruct (FetchCoins _ v) as [[c|] w] eqn:F; apply FetchCoins_behind in F; [|by intros [= <- <-]]. destruct pv.
  - destruct (script_checks Verify tx flags true (S k) vin w) as [r1 w1] eqn:E. apply IH in E.
    assert (G : R (base v) (base w1)) by (by etransitivity). destruct r1; by intros [= <- <-].
  - destruct (run_check _ _ _) as [[e|]|]; [by intros [= <- <-]| |by intros [= <- <-]].
    intros H. etransitivity; [exact F | by eapply IH].
Qed.

Lemma CheckInputs_behind tx fs flags pv v r v' : CheckInputs Verify block_height tx fs flags pv v = (r, v') -> R (base v) (base v').
Proof using GetCoins_R GetBestBlock_R PreOrder0.
  unfold CheckInputs. destruct (_ && _); [|by intros [= <- <-]].
  destruct (HaveInputs tx v) as [b v1] eqn:E1. apply HaveInputs_behind in E1. destruct b; [|by intros [= <- <-]].
  destruct (Cache_GetBestBlock v1) as [h v2] eqn:E2. apply GetBestBlock_behind in E2.
  assert (H2 : R (base v) (base v2)) by (by etransitivity). destruct (block_height h); [|by intros [= <- <-]].
  destruct (input_values _ _ _ v2) as [r3 v3] eqn:E3. apply input_values_behind in E3.
  assert (H3 : R (base v) (base v3)) by (by etransitivity). destruct r3; [|by intros [= <- <-]..].
  destruct (check_fee _ _); [|by intros [= <- <-]..]. destruct fs; [|by intros [= <- <-]].
  intros H. etransitivity; [exact H3 | by eapply script_checks_behind].
Qed.
End Behind.

(** The reads of a view that can be read. *)
Definition reads {W : Type} `{!CCoinsView W, !CoinsSpec W} (b b' : W) : Prop := wf b -> unchanged b b'.

#[export] Instance reads_preorder {W : Type} `{!CCoinsView W, !CoinsSpec W} : PreOrder (reads (W := W)).
Proof.
  split; [intros b H; by apply unchanged_refl|]. intros b1 b2 b3 H1 H2 H. specialize (H1 H). eapply unchanged_trans; [done|]. apply H2, H1.
Qed.

Lemma GetCoins_reads {W : Type} `{!CCoinsView W, !CoinsSpec W, !ReadableView W} t (b : W) r b' : GetCoins t b = (r, b') -> reads b b'.
Proof. intros G H. by apply (GetCoins_law _ _ _ _ H G). Qed.

Lemma GetBestBlock_reads {W : Type} `{!CCoinsView W, !CoinsSpec W, !ReadableView W} (b : W) h b' : GetBestBlock b = (h, b') -> reads b b'.
Proof. intros G H. by apply (GetBestBlock_law _ _ _ H G). Qed.
End CoinSet.
