(* ===== verification/MemPoolSpec.v ===== *)
(** What the memory pool promises: its transactions, in an order that puts
    parents before children, could be connected one after another on top of
    the unspent outputs of the tip.  [pool_ok] says so pointwise, over a list
    of transactions and the unspent outputs by outpoint; the lemmas say how
    it is kept when transactions are added and removed and when the unspent
    outputs change. *)
From stdpp Require Import base list gmap fin_maps sets.
From S2P Require Import Prelude Params Transaction TxCheck Coins CoinsView Connect Undo FeeEstimator MemPool CoinSet.
Open Scope list_scope.

Module MemPoolSpec.
Import Params Transaction TxCheck Coins CoinsView Connect Undo CoinSet.
Import CTxMemPoolEntry(MEMPOOL_HEIGHT).

#[local] Opaque GetHash.

Abbreviation coinset := (COutPoint -> option coin) (only parsing).
Abbreviation ids l := (map GetHash l) (only parsing).
Abbreviation prevouts tx := (map prevout (vin tx)) (only parsing).

(** The outpoints the transactions spend. *)
Definition points (l : list CTransaction) : list COutPoint := flat_map (fun t => map prevout (vin t)) l.

Definition find_tx (h : list Z) (l : list CTransaction) : option CTransaction := List.find (fun t => bool_decide (GetHash t = h)) l.

(** The outputs a transaction of the pool may spend: those of the others in
    the pool and the unspent ones. *)
Definition provided (l : list CTransaction) (U : coinset) (o : COutPoint) : option coin :=
  match find_tx (hash o) l with
  | Some t => tx_coin MEMPOOL_HEIGHT t (n o)
  | None => U o
  end.

Definition fresh (U : coinset) (h : list Z) : Prop := forall k, U (mkOutPoint h k) = None.

Lemma fresh_at U o : fresh U (hash o) -> U o = None.
Proof. intros H. specialize (H (n o)). by destruct o. Qed.

(** A transaction outside of a block. *)
Record loose (tx : CTransaction) : Prop := {
  loose_coinbase : IsCoinBase tx = false;
  loose_coinstake : IsCoinStake tx = false;
  loose_zerocoin : tx_IsZerocoinSpend tx = false;
  loose_inputs : positioned (vin tx);
  loose_distinct : NoDup (prevouts tx);
}.

(** Parents come first. *)
Fixpoint topo (l : list CTransaction) : Prop :=
  match l with
  | [] => True
  | t :: l => (forall o, In o (prevouts t) -> ~ In (hash o) (ids (t :: l))) /\ topo l
  end.

Section Spec.
Context {params : CChainParams}.
Implicit Types (Q : coin -> Prop) (U : coinset).

(** The inputs of a transaction: coins that may be spent, of amounts that
    cover its outputs. *)
Definition fits Q U (tx : CTransaction) : Prop :=
  exists ins out, GetValueOut tx = Value out /\ all_coins U (vin tx) ins /\
    Forall (fun c => Q c /\ money (output c)) ins /\ coins_total ins <= MaxMoneyOut /\ out <= coins_total ins.

Record pool_ok Q U (l : list CTransaction) : Prop := {
  pool_ids : NoDup (ids l);
  pool_fresh : forall t, In t l -> fresh U (GetHash t);
  pool_points : NoDup (points l);
  pool_txs : forall t, In t l -> loose t /\ fits Q (provided l U) t;
  pool_topo : topo l;
}.

(** ** Looking up *)

Lemma find_tx_Some h l t : find_tx h l = Some t -> In t l /\ GetHash t = h.
Proof using. intros H. apply find_some in H as [H1 H2]. by apply bool_decide_eq_true in H2. Qed.

Lemma find_tx_None h l : find_tx h l = None <-> ~ In h (ids l).
Proof using.
  split.
  - intros H Hin. apply in_map_iff in Hin as (t & <- & Ht). pose proof (find_none _ _ H t Ht) as Hn. by apply bool_decide_eq_false in Hn.
  - intros H. destruct (find_tx h l) as [t|] eqn:E; [|done]. apply find_tx_Some in E as [Ht <-]. destruct H. by apply in_map.
Qed.

Lemma ids_inj l t t' : NoDup (ids l) -> In t l -> In t' l -> GetHash t = GetHash t' -> t = t'.
Proof using.
  induction l as [|x l IH]; cbn [map In]; [intros _ []|]. intros Hnd. apply NoDup_cons_iff in Hnd as [Hn Hnd].
  intros [<-|Ht] [<-|Ht'] E; [reflexivity| | |by apply IH].
  - destruct Hn. rewrite E. by apply in_map.
  - destruct Hn. rewrite <- E. by apply in_map.
Qed.

Lemma find_tx_In l t : NoDup (ids l) -> In t l -> find_tx (GetHash t) l = Some t.
Proof using.
  intros Hnd Ht. destruct (find_tx (GetHash t) l) as [t'|] eqn:E.
  - apply find_tx_Some in E as [Ht' E]. f_equal. by eapply ids_inj.
  - apply find_tx_None in E. destruct E. by apply in_map.
Qed.

Lemma points_In l o : In o (points l) <-> exists t, In t l /\ In o (prevouts t).
Proof using. unfold points. rewrite in_flat_map. done. Qed.

Lemma points_app l l' : points (l ++ l') = points l ++ points l'.
Proof using. unfold points. by rewrite flat_map_app. Qed.

(** No output is spent twice. *)
Lemma points_inj l t t' o : NoDup (points l) -> In t l -> In t' l -> In o (prevouts t) -> In o (prevouts t') -> t = t'.
Proof using.
  induction l as [|x l IH]; cbn [In]; [done|]. unfold points. cbn [flat_map]. fold (points l). intros Hnd.
  assert (Hx : forall o, In o (prevouts x) -> ~ In o (points l)).
  { intros o' Ho Ho'. revert Hnd Ho. clear -Ho'. induction (prevouts x) as [|y ys IH]; cbn [app In]; [done|].
    intros Hnd [->|H]; apply NoDup_cons_iff in Hnd as [Hn Hnd]; [|by apply IH]. destruct Hn. apply in_app_iff. by right. }
  apply NoDup_app_remove_l in Hnd. intros [<-|Ht] [<-|Ht'] Ho Ho'; try done; [| |by apply IH].
  - destruct (Hx o Ho). apply points_In. by exists t'.
  - destruct (Hx o Ho'). apply points_In. by exists t.
Qed.

(** ** Filters *)

Lemma ids_filter keep l : NoDup (ids l) -> NoDup (ids (List.filter keep l)).
Proof using.
  induction l as [|t l IH]; cbn; [done|]. intros Hnd. apply NoDup_cons_iff in Hnd as [Hn Hnd]. destruct (keep t); [|by apply IH].
  cbn. constructor; [|by apply IH]. intros Hin. destruct Hn. apply in_map_iff in Hin as (t' & <- & Ht).
  apply filter_In in Ht as [Ht _]. by apply in_map.
Qed.

Lemma NoDup_app_iff {A} (l l' : list A) : NoDup (l ++ l') <-> NoDup l /\ NoDup l' /\ forall x, In x l -> ~ In x l'.
Proof using.
  induction l as [|x l IH]; cbn [app In].
  - split; [intros H; split; [constructor | done] | tauto].
  - rewrite !NoDup_cons_iff, IH, in_app_iff. split.
    + intros (Hn & H1 & H2 & H3). split; [tauto|]. split; [done|]. intros y [<-|Hy]; [tauto | auto].
    + intros ((Hn & H1) & H2 & H3). split; [intros [|]; [done | by apply (H3 x); auto]|]. split; [done|]. split; [done|]. auto.
Qed.

Lemma points_filter keep l : NoDup (points l) -> NoDup (points (List.filter keep l)).
Proof using.
  induction l as [|t l IH]; cbn [List.filter]; [done|]. unfold points. cbn [flat_map]. fold (points l). intros Hnd.
  apply NoDup_app_iff in Hnd as (H1 & H2 & H3). destruct (keep t); [|by apply IH]. cbn [flat_map]. fold (points (List.filter keep l)).
  apply NoDup_app_iff. split; [done|]. split; [by apply IH|]. intros o Ho Ho'. apply (H3 o Ho).
  apply points_In in Ho' as (t' & Ht & Ho'). apply filter_In in Ht as [Ht _]. apply points_In. by exists t'.
Qed.

Lemma topo_filter keep l : topo l -> topo (List.filter keep l).
Proof using.
  induction l as [|t l IH]; cbn [List.filter topo]; [done|]. intros [Ht Hl]. destruct (keep t); [|by apply IH].
  cbn [topo]. split; [|by apply IH]. intros o Ho Hin. apply (Ht o Ho). cbn [map In] in *. destruct Hin as [|Hin]; [by left|].
  right. apply in_map_iff in Hin as (t' & <- & Hin). apply filter_In in Hin as [Hin _]. by apply in_map.
Qed.

Lemma topo_insert l t l' : topo (l ++ l') -> (forall s o, In s l -> In o (prevouts s) -> hash o <> GetHash t) ->
  (forall o, In o (prevouts t) -> ~ In (hash o) (ids (t :: l'))) -> topo (l ++ t :: l').
Proof using.
  intros Hl Hs Ht. induction l as [|x l IH]; cbn [app topo] in *; [by split|]. destruct Hl as [Hx Hl]. split.
  - intros o Ho Hin. cbn [map In] in *. destruct Hin as [E|Hin]; [by destruct (Hx o Ho); left|].
    rewrite map_app in Hin. cbn [map] in Hin. apply in_app_iff in Hin as [Hin|[E|Hin]].
    + destruct (Hx o Ho). right. rewrite map_app. apply in_app_iff. by left.
    + by apply (Hs x o (or_introl eq_refl) Ho).
    + destruct (Hx o Ho). right. rewrite map_app. apply in_app_iff. by right.
  - apply IH; [done|]. intros s o Hin. apply Hs. by right.
Qed.

Lemma find_tx_filter keep l h : NoDup (ids l) ->
  find_tx h (List.filter keep l) = match find_tx h l with Some t => if keep t then Some t else None | None => None end.
Proof using.
  intros Hnd. destruct (find_tx h l) as [t|] eqn:E.
  - apply find_tx_Some in E as [Ht <-]. destruct (keep t) eqn:K.
    + apply find_tx_In; [by apply ids_filter|]. by apply filter_In.
    + apply find_tx_None. intros Hin. apply in_map_iff in Hin as (t' & Eh & Hin). apply filter_In in Hin as [Hin K'].
      assert (t' = t) as -> by (by eapply ids_inj). congruence.
  - apply find_tx_None. apply find_tx_None in E. intros Hin. apply E. apply in_map_iff in Hin as (t & <- & Hin).
    apply filter_In in Hin as [Hin _]. by apply in_map.
Qed.

(** ** Keeping the promise *)

Lemma fits_mono Q Q' U U' tx :
  (forall i c, In i (vin tx) -> U (prevout i) = Some c -> Q c -> exists c', U' (prevout i) = Some c' /\ output c' = output c /\ Q' c') ->
  fits Q U tx -> fits Q' U' tx.
Proof using.
  intros H (ins & out & Ho & Hi & Hf & Ht & Hle).
  assert (exists ins', all_coins U' (vin tx) ins' /\ Forall (fun c => Q' c /\ money (output c)) ins' /\ map output ins' = map output ins)
    as (ins' & H1 & H2 & H3).
  { clear Ho Ht Hle. induction Hi as [|i c vin ins Hi _ IH]; [exists []; by repeat constructor|]. apply Forall_cons_iff in Hf as [[Hq Hm] Hf].
    destruct (H i c (or_introl eq_refl) Hi Hq) as (c' & Hc' & Ho & Hq').
    destruct IH as (ins' & H1 & H2 & H3); [intros j d Hj; apply H; by right | done|].
    exists (c' :: ins'). split; [by constructor|]. split; [constructor; [by rewrite Ho | done]|]. cbn. congruence. }
  exists ins', out. unfold coins_total in *. rewrite H3. done.
Qed.

Lemma fits_coin Q U tx i : fits Q U tx -> In i (vin tx) -> exists c, U (prevout i) = Some c /\ Q c.
Proof using.
  intros (ins & out & _ & Hi & Hf & _). clear out. revert Hf. induction Hi as [|j c vin ins Hj _ IH]; [done|].
  intros Hf. apply Forall_cons_iff in Hf as [[Hq _] Hf]. intros [<-|Hin]; [by exists c | by apply IH].
Qed.

(** Some transactions go and the unspent outputs change: what the others
    spend must still be provided. *)
Lemma pool_transfer Q Q' U U' keep l : pool_ok Q U l -> let l' := List.filter keep l in
  (forall t, In t l' -> fresh U' (GetHash t)) ->
  (forall t i c, In t l' -> In i (vin t) -> provided l U (prevout i) = Some c -> Q c ->
     exists c', provided l' U' (prevout i) = Some c' /\ output c' = output c /\ Q' c') ->
  pool_ok Q' U' l'.
Proof using.
  intros [H1 H2 H3 H4 H5] l' Hf Hp. split; [by apply ids_filter | done | by apply points_filter | | by apply topo_filter].
  intros t Ht. pose proof Ht as Hin. apply filter_In in Hin as [Hin _]. destruct (H4 t Hin) as [Hl Hfit]. split; [done|].
  eapply fits_mono; [|exact Hfit]. intros i c Hi. by apply (Hp t).
Qed.

(** The hash of an input is that of a transaction of the pool or one with
    unspent outputs. *)
Lemma provided_hash l U o c h : provided l U o = Some c -> fresh U h -> ~ In h (ids l) -> hash o <> h.
Proof using.
  intros Hp Hf Hn <-. unfold provided in Hp. rewrite (proj2 (find_tx_None _ _) Hn) in Hp. rewrite (fresh_at _ _ Hf) in Hp. done.
Qed.

Lemma input_point t i : In i (vin t) -> In (prevout i) (prevouts t).
Proof using. apply in_map. Qed.

Lemma point_input t o : In o (prevouts t) -> exists i, In i (vin t) /\ prevout i = o.
Proof using. intros H. apply in_map_iff in H as (i & <- & Hi). by exists i. Qed.

(** A transaction comes in, before [l'], which may have waited for it. *)
Lemma pool_insert Q U U' l t l' : pool_ok Q U' (l ++ l') -> loose t -> ~ In (GetHash t) (ids (l ++ l')) -> fresh U (GetHash t) ->
  (forall s, In s (l ++ l') -> fresh U (GetHash s)) ->
  (forall o, In o (prevouts t) -> ~ In o (points (l ++ l'))) ->
  (forall s o, In s l -> In o (prevouts s) -> hash o <> GetHash t) ->
  fits Q (provided l U) t -> (forall o, In o (prevouts t) -> ~ In (hash o) (ids l')) ->
  (forall s i c, In s (l ++ l') -> In i (vin s) -> provided (l ++ l') U' (prevout i) = Some c -> Q c ->
     exists c', provided (l ++ t :: l') U (prevout i) = Some c' /\ output c' = output c /\ Q c') ->
  pool_ok Q U (l ++ t :: l').
Proof using.
  intros [H1 H2 H3 H4 H5] Hloose Hnew Hfresh Hfr Hpts Hpar Hfit Hnl Hprov.
  assert (Hids : NoDup (ids (l ++ t :: l'))).
  { rewrite map_app in *. cbn [map]. apply NoDup_app_iff in H1 as (A1 & A2 & A3). rewrite in_app_iff in Hnew.
    apply NoDup_app_iff. split; [done|]. split; [constructor; [tauto | done]|]. intros x Hx [<-|Hx']; [tauto | by apply (A3 x)]. }
  assert (Hself : forall o, In o (prevouts t) -> hash o <> GetHash t).
  { intros o Ho. apply point_input in Ho as (i & Hi & <-). destruct (fits_coin _ _ _ _ Hfit Hi) as (c & Hc & _).
    eapply provided_hash; [exact Hc | done|]. intros Hin. apply Hnew. rewrite map_app. apply in_app_iff. by left. }
  split; [done | | | |].
  - intros s Hin. apply in_app_iff in Hin as [Hin|[<-|Hin]]; [apply Hfr, in_app_iff; by left | done | apply Hfr, in_app_iff; by right].
  - rewrite points_app in *. unfold points at 2. cbn [flat_map]. fold (points l'). apply NoDup_app_iff in H3 as (A1 & A2 & A3).
    apply NoDup_app_iff. split; [done|]. split.
    + apply NoDup_app_iff. split; [apply Hloose|]. split; [done|]. intros o Ho Ho'. apply (Hpts o Ho), in_app_iff. by right.
    + intros o Ho Ho'. apply in_app_iff in Ho' as [Ho'|Ho']; [|by apply (A3 o)]. apply (Hpts o Ho'), in_app_iff. by left.
  - intros s Hin. assert (Hs : s = t \/ In s (l ++ l')).
    { rewrite in_app_iff in *. cbn [In] in Hin. destruct Hin as [|[|]]; auto. }
    destruct Hs as [->|Hs].
    + split; [done|]. eapply fits_mono; [|exact Hfit]. intros i c Hi Hc Hq. exists c. split; [|done]. rewrite <- Hc.
      unfold provided. destruct (find_tx (hash (prevout i)) l) as [s|] eqn:E.
      * apply find_tx_Some in E as [Hs <-]. rewrite find_tx_In; [done | done|]. apply in_app_iff. by left.
      * replace (find_tx (hash (prevout i)) (l ++ t :: l')) with (None : option CTransaction); [done|]. symmetry. apply find_tx_None.
        apply find_tx_None in E. rewrite map_app. cbn [map]. intros [?|[Eh|?]]%in_app_iff; [done | by apply (Hself _ (input_point _ _ Hi)) |].
        by apply (Hnl _ (input_point _ _ Hi)).
    + destruct (H4 s Hs) as [Hl Hf]. split; [done|]. eapply fits_mono; [|exact Hf]. intros i c Hi. by apply (Hprov s).
  - apply topo_insert; [done | done|]. intros o Ho [Eh|Hin]; [by apply (Hself o Ho) | by apply (Hnl o Ho)].
Qed.

(** The simple case: it comes in last. *)
Lemma pool_append Q U l t : pool_ok Q U l -> loose t -> ~ In (GetHash t) (ids l) -> fresh U (GetHash t) ->
  (forall o, In o (prevouts t) -> ~ In o (points l)) -> fits Q (provided l U) t -> pool_ok Q U (l ++ [t]).
Proof using.
  intros Hok Hl Hnew Hf Hp Hfit. eapply (pool_insert Q U U l t []); rewrite ?app_nil_r; try done; [apply Hok| |intros o _ []|].
  - intros s o Hs Ho. apply point_input in Ho as (i & Hi & <-).
    destruct (fits_coin _ _ _ _ (proj2 (pool_txs _ _ _ Hok s Hs)) Hi) as (c & Hc & _). by eapply provided_hash.
  - intros s i c Hs Hi Hc Hq. exists c. split; [|done]. rewrite <- Hc. unfold provided.
    assert (Hne : hash (prevout i) <> GetHash t) by (by eapply provided_hash).
    destruct (find_tx (hash (prevout i)) l) as [s'|] eqn:E.
    + apply find_tx_Some in E as [Hs' <-]. rewrite find_tx_In; [done| |apply in_app_iff; by left].
      rewrite map_app. apply NoDup_app_iff. split; [apply Hok|]. split; [repeat constructor; cbn; tauto|].
      intros x Hx [<-|[]]. done.
    + replace (find_tx (hash (prevout i)) (l ++ [t])) with (None : option CTransaction); [done|]. symmetry. apply find_tx_None.
      apply find_tx_None in E. rewrite map_app. intros [?|[?|[]]]%in_app_iff; congruence.
Qed.
End Spec.
End MemPoolSpec.
