(* ===== verification/MemPoolOps.v ===== *)
(** The maps of the pool and the operations on them, refined: [holds] says
    that a pool stores a list of transactions (in any order), with
    [mapNextTx] the map of the outpoints they spend and the total of their
    sizes; adding and removing act on the list, and [remove] with its queue
    takes out exactly the descendants. *)
From stdpp Require Import base list gmap fin_maps sets.
From S2P Require Import Prelude Params Serialize Transaction TxCheck Coins CoinsView Connect Undo FeeEstimator MemPool CoinSet MemPoolSpec.
Open Scope list_scope.

Module MemPoolOps.
Import Params Transaction TxCheck Coins CoinsView Connect Undo FeeEstimator MemPool CoinSet MemPoolSpec.

#[local] Opaque GetHash.

Abbreviation ids l := (map GetHash l) (only parsing).
Abbreviation prevouts tx := (map prevout (vin tx)) (only parsing).

Definition tx_size (t : CTransaction) : Z := Serialize.GetSerializeSize CTransaction_format t.
#[local] Opaque tx_size.
Definition pool_size (l : list CTransaction) : Z := fold_right (fun t k => tx_size t + k) 0 l.

Lemma pool_size_cons t l : pool_size (t :: l) = tx_size t + pool_size l.
Proof. reflexivity. Qed.

Record holds (p : CTxMemPool) (l : list CTransaction) : Prop := {
  holds_txs : forall h, CTxMemPoolEntry.tx <$> mapTx p !! h = find_tx h l;
  holds_sizes : forall h e, mapTx p !! h = Some e -> CTxMemPoolEntry.nTxSize e = tx_size (CTxMemPoolEntry.tx e);
  holds_next : forall o it, mapNextTx p !! o = Some it <->
    exists t, In t l /\ nth_error (prevouts t) (nIn it) = Some o /\ ptx it = GetHash t;
  holds_total : totalTxSize p = T64 (pool_size l);
}.

(** What the removals leave alone. *)
Definition rest (p : CTxMemPool) := (fSanityCheck p, minerPolicyEstimator p, minRelayFee p, mapDeltas p).

(** What the maps rely on. *)
Record tidy (l : list CTransaction) : Prop := {
  tidy_ids : NoDup (ids l);
  tidy_points : NoDup (points l);
}.

Lemma pool_tidy {params : CChainParams} Q U l : pool_ok Q U l -> tidy l.
Proof. intros H. split; apply H. Qed.

Lemma tidy_filter keep l : tidy l -> tidy (List.filter keep l).
Proof. intros [H1 H2]. split; [by apply ids_filter | by apply points_filter]. Qed.

(** ** Lookups *)

Lemma exists_tx_In p l h : holds p l -> exists_tx h p = true <-> In h (ids l).
Proof.
  intros H. unfold exists_tx. rewrite bool_decide_eq_true. pose proof (holds_txs _ _ H h) as E. split.
  - intros [e He]. rewrite He in E. cbn in E. symmetry in E. apply find_tx_Some in E as [Ht <-]. by apply in_map.
  - intros Hin. destruct (mapTx p !! h) as [e|]; [by exists e|]. cbn in E. symmetry in E. by apply find_tx_None in E.
Qed.

Lemma exists_tx_false p l h : holds p l -> exists_tx h p = false <-> ~ In h (ids l).
Proof. intros H. rewrite <- (exists_tx_In p l h H). by destruct (exists_tx h p). Qed.

Lemma lookup_find p l h : holds p l -> lookup h p = find_tx h l.
Proof. intros H. apply H. Qed.

Lemma entry_of p l t : holds p l -> tidy l -> In t l -> exists e, mapTx p !! GetHash t = Some e /\ CTxMemPoolEntry.tx e = t.
Proof.
  intros H Hl Ht. pose proof (holds_txs _ _ H (GetHash t)) as E. rewrite (find_tx_In l t (tidy_ids _ Hl) Ht) in E.
  apply fmap_Some in E as (e & He & ->). by exists e.
Qed.

Lemma entry_In p l h e : holds p l -> mapTx p !! h = Some e -> In (CTxMemPoolEntry.tx e) l /\ GetHash (CTxMemPoolEntry.tx e) = h.
Proof. intros H He. pose proof (holds_txs _ _ H h) as E. rewrite He in E. cbn in E. symmetry in E. by apply find_tx_Some in E. Qed.

Lemma next_In p l o : holds p l -> is_Some (mapNextTx p !! o) <-> In o (points l).
Proof.
  intros H. split.
  - intros [it Hit]. apply (holds_next _ _ H) in Hit as (t & Ht & Hn & _). apply points_In. exists t. split; [done|]. by eapply nth_error_In.
  - intros Hin. apply points_In in Hin as (t & Ht & Ho). apply In_nth_error in Ho as [i Hi].
    exists (mkInPoint (GetHash t) i). apply (holds_next _ _ H). by exists t.
Qed.

Lemma next_deref p l o it : holds p l -> tidy l -> mapNextTx p !! o = Some it ->
  exists t, In t l /\ In o (prevouts t) /\ deref p it = Some t.
Proof.
  intros H Hl Hit. apply (holds_next _ _ H) in Hit as (t & Ht & Hn & Hp). exists t. split; [done|]. split; [by eapply nth_error_In|].
  unfold deref. rewrite (lookup_find _ _ _ H), Hp. by apply find_tx_In; [apply Hl|].
Qed.

(** The order does not matter. *)
Lemma holds_perm p l l' : tidy l -> Permutation l l' -> holds p l -> holds p l'.
Proof.
  intros Hl HP [H1 H2 H3 H4]. split.
  - intros h. rewrite H1. destruct (find_tx h l) as [t|] eqn:E.
    + apply find_tx_Some in E as [Ht <-]. symmetry. apply find_tx_In; [|by eapply Permutation_in].
      apply (Permutation_NoDup (Permutation_map GetHash HP)), Hl.
    + symmetry. apply find_tx_None. apply find_tx_None in E. intros Hin. apply E. eapply Permutation_in; [|exact Hin].
      apply Permutation_map. by symmetry.
  - done.
  - intros o it. rewrite H3. split; intros (t & Ht & Hr); exists t; (split; [|done]); [by eapply Permutation_in|].
    eapply Permutation_in; [by symmetry | done].
  - rewrite H4. f_equal. clear - HP. induction HP as [|x l1 l2 _ IH|x y l1|l1 l2 l3 _ IH1 _ IH2]; rewrite ?pool_size_cons; [done | by f_equal | lia | congruence].
Qed.

(** ** Adding *)

Lemma add_points_from h vin : forall k (m : gmap COutPoint CInPoint) o it,
  NoDup (map prevout vin) -> (forall o, In o (map prevout vin) -> m !! o = None) ->
  fold_left (fun m '(i, txin) => <[prevout txin := mkInPoint h i]> m) (combine (seq k (length vin)) vin) m !! o = Some it <->
  m !! o = Some it \/ ptx it = h /\ (k <= nIn it)%nat /\ nth_error (map prevout vin) (nIn it - k) = Some o.
Proof.
  induction vin as [|i vin IH]; intros k m o it Hnd Hm; cbn [length seq combine fold_left map].
  { split; [by left|]. intros [|(_ & _ & H)]; [done|]. by destruct (_ - _)%nat. }
  cbn [map] in Hnd. apply NoDup_cons_iff in Hnd as [Hn Hnd]. rewrite IH; [|done|].
  2: { intros o' Ho'. rewrite lookup_insert_ne by (by intros <-). apply Hm. by right. }
  rewrite lookup_insert. destruct (decide (prevout i = o)) as [<-|Hne].
  - split.
    + intros [[= <-]|(_ & _ & H)]; [right; cbn; rewrite Nat.sub_diag; by repeat split|]. destruct Hn. by eapply nth_error_In.
    + intros [H|(Hp & Hk & H)]; [rewrite Hm in H; [done | by left]|]. left. f_equal. destruct (nIn it - k)%nat as [|j] eqn:Ej.
      * destruct it as [h' i']. cbn in *. subst h'. f_equal. lia.
      * destruct Hn. cbn in H. by eapply nth_error_In.
  - split.
    + intros [H|(Hp & Hk & H)]; [by left|]. right. split; [done|]. split; [lia|].
      replace (nIn it - k)%nat with (S (nIn it - S k)) by lia. done.
    + intros [H|(Hp & Hk & H)]; [by left|]. right. split; [done|]. destruct (nIn it - k)%nat as [|j] eqn:Ej; cbn in H; [congruence|].
      split; [lia|]. by replace (nIn it - S k)%nat with j by lia.
Qed.

Lemma T64_add a b : T64 (T64 a + b) = T64 (a + b).
Proof. rewrite !T64_mod. by rewrite Zplus_mod_idemp_l. Qed.

Lemma T64_sub a b : T64 (T64 a - b) = T64 (a - b).
Proof. rewrite !T64_mod. by rewrite Zminus_mod_idemp_l. Qed.

Lemma addUnchecked_holds p l t fee time prio h : holds p l -> tidy l -> ~ In (GetHash t) (ids l) ->
  NoDup (prevouts t) -> (forall o, In o (prevouts t) -> ~ In o (points l)) -> tx_IsZerocoinSpend t = false ->
  holds (addUnchecked (GetHash t) (CTxMemPoolEntry.new t fee time prio h) p) (t :: l).
Proof.
  intros H Hl Hnew Hnd Hpts Hz. unfold addUnchecked. cbn [CTxMemPoolEntry.tx CTxMemPoolEntry.new]. rewrite Hz. cbn [negb].
  split; cbn [with_txs mapTx mapNextTx totalTxSize].
  - intros h'. rewrite lookup_insert. unfold find_tx. cbn [List.find]. destruct (decide (GetHash t = h')) as [<-|Hne].
    + by rewrite bool_decide_eq_true_2.
    + rewrite bool_decide_eq_false_2 by done. apply H.
  - intros h' e. rewrite lookup_insert. destruct (decide _) as [_|_]; [intros [= <-]; done | apply H].
  - intros o it. unfold add_points. rewrite add_points_from; [|done|].
    2: { intros o' Ho'. destruct (mapNextTx p !! o') eqn:E; [|done]. destruct (Hpts o' Ho'). apply (next_In p); [done | by eexists]. }
    rewrite Nat.sub_0_r, (holds_next _ _ H). split.
    + intros [(s & Hs & Hr)|(Hp & _ & Hn)]; [exists s; split; [by right | done] | exists t; split; [by left | done]].
    + intros (s & [<-|Hs] & Hn & Hp); [right; split; [done|]; split; [lia | done] | left; by exists s].
  - cbn [CTxMemPoolEntry.nTxSize]. rewrite (holds_total _ _ H), T64_add. f_equal. apply Z.add_comm.
Qed.

Lemma tidy_cons t l : tidy l -> ~ In (GetHash t) (ids l) -> NoDup (prevouts t) -> (forall o, In o (prevouts t) -> ~ In o (points l)) -> tidy (t :: l).
Proof.
  intros [H1 H2] Hn Hnd Hp. split; [cbn; by constructor|]. unfold points. cbn [flat_map]. fold (points l). by apply NoDup_app_iff.
Qed.

(** ** Removing one transaction *)

Definition other (h : list Z) (t : CTransaction) : bool := negb (bool_decide (GetHash t = h)).

Lemma other_true h t : other h t = true <-> GetHash t <> h.
Proof. unfold other. by rewrite negb_true_iff, bool_decide_eq_false. Qed.

Lemma erase_points_lookup vin : forall m o, erase_points vin m !! o = if decide (o ∈ map prevout vin) then None else m !! o.
Proof.
  induction vin as [|i vin IH]; intros m o; cbn [erase_points fold_left map]; [by rewrite decide_False by apply not_elem_of_nil|].
  fold (erase_points vin (delete (prevout i) m)). rewrite IH, lookup_delete.
  destruct (decide (o ∈ map prevout vin)) as [Hin|Hin], (decide (o ∈ prevout i :: map prevout vin)) as [Hin'|Hin'];
    try done; [by destruct Hin'; right| |]; destruct (decide (prevout i = o)) as [Ho|Hne]; try done.
  - apply elem_of_cons in Hin' as [->|]; done.
  - destruct Hin'. rewrite Ho. by left.
Qed.

Lemma pool_size_split t l : NoDup (ids l) -> In t l -> pool_size l = tx_size t + pool_size (List.filter (other (GetHash t)) l).
Proof.
  induction l as [|s l IH]; cbn [map In List.filter]; [by intros _ []|]. intros Hnd Hin. apply NoDup_cons_iff in Hnd as [Hn Hnd].
  assert (E : forall l, ~ In (GetHash t) (ids l) -> List.filter (other (GetHash t)) l = l).
  { clear. induction l as [|x l IH]; cbn; [done|]. intros H. rewrite IH by tauto.
    rewrite (proj2 (other_true _ _)); [done|]. intros E. apply H. by left. }
  destruct (other (GetHash t) s) eqn:Eo.
  - destruct Hin as [->|Hin]; [by apply other_true in Eo|]. rewrite !pool_size_cons, (IH Hnd Hin). lia.
  - assert (GetHash s = GetHash t) as Es.
    { unfold other in Eo. apply negb_false_iff, bool_decide_eq_true in Eo. done. }
    assert (s = t) as ->.
    { destruct Hin as [|Hin]; [done|]. destruct Hn. rewrite Es. by apply in_map. }
    by rewrite E, pool_size_cons.
Qed.

Lemma filter_filter {A} (f g : A -> bool) l : List.filter f (List.filter g l) = List.filter (fun x => g x && f x) l.
Proof. induction l as [|x l IH]; cbn; [done|]. destruct (g x); cbn; [|done]. destruct (f x); by rewrite IH. Qed.

Lemma erase_entry_holds p l t e : holds p l -> tidy l -> In t l -> mapTx p !! GetHash t = Some e ->
  holds (erase_entry (GetHash t) e p) (List.filter (other (GetHash t)) l).
Proof.
  intros H Hl Ht He. pose proof (entry_In _ _ _ _ H He) as [Hin Eh].
  assert (CTxMemPoolEntry.tx e = t) as Et by exact (ids_inj l _ _ (tidy_ids _ Hl) Hin Ht Eh). clear Eh.
  unfold erase_entry. split; cbn [with_txs mapTx mapNextTx totalTxSize].
  - intros h. rewrite lookup_delete, find_tx_filter by apply Hl. destruct (decide (GetHash t = h)) as [<-|Hne].
    + rewrite (find_tx_In l t (tidy_ids _ Hl) Ht). unfold other. by rewrite bool_decide_eq_true_2.
    + rewrite <- (holds_txs _ _ H). destruct (mapTx p !! h) as [e'|] eqn:E'; [|done]. cbn.
      apply (entry_In _ _ _ _ H) in E' as [_ E']. rewrite (proj2 (other_true _ _)); [done|]. congruence.
  - intros h e'. rewrite lookup_delete. destruct (decide _); [done | apply H].
  - intros o it. rewrite erase_points_lookup, Et. destruct (decide (o ∈ prevouts t)) as [Ho|Ho].
    + split; [done|]. intros (s & Hs & Hn & _). apply filter_In in Hs as [Hs Hk]. apply other_true in Hk.
      destruct Hk. f_equal. apply (points_inj l s t o); [apply Hl | done | done | by eapply nth_error_In | by apply list_elem_of_In].
    + rewrite (holds_next _ _ H). split; intros (s & Hs & Hn & Hp).
      * exists s. split; [|done]. apply filter_In. split; [done|]. apply other_true. intros E.
        apply Ho, list_elem_of_In. replace t with s by (apply (ids_inj l); [apply Hl | exact Hs | exact Ht | exact E]). by eapply nth_error_In.
      * exists s. split; [|done]. by apply filter_In in Hs as [Hs _].
  - rewrite (holds_total _ _ H), T64_sub, (holds_sizes _ _ H _ _ He), Et, (pool_size_split t l (tidy_ids _ Hl) Ht). f_equal. lia.
Qed.

(** ** Removing the descendants *)

Inductive descends (l : list CTransaction) (h0 : list Z) : list Z -> Prop :=
| descends_root : descends l h0 h0
| descends_child t o : descends l h0 (hash o) -> In t l -> In o (prevouts t) -> descends l h0 (GetHash t).

(** Inputs point to outputs that are there. *)
Definition bounded (l : list CTransaction) (s : CTransaction) : Prop :=
  forall t o, In t l -> In o (prevouts t) -> hash o = GetHash s -> 0 <= n o < Z.of_nat (length (Transaction.vout s)).

Lemma bounded_filter keep l s : bounded l s -> bounded (List.filter keep l) s.
Proof. intros H t o Ht. apply filter_In in Ht as [Ht _]. by apply H. Qed.

Lemma spenders_from p l h k : forall a, holds p l -> tidy l ->
  exists qs, foldr (fun i acc => match mapNextTx p !! mkOutPoint h (Z.of_nat i) with
      | None => acc
      | Some it => t ← deref p it; l ← acc; Some (GetHash t :: l) end) (Some []) (seq a k) = Some qs /\
    (forall x, In x qs <-> exists t o, In t l /\ In o (prevouts t) /\ hash o = h /\ Z.of_nat a <= n o < Z.of_nat (a + k) /\ x = GetHash t) /\
    exists os, length os = length qs /\ NoDup os /\ forall o, In o os -> In o (points l) /\ hash o = h /\ Z.of_nat a <= n o.
Proof.
  induction k as [|k IH]; intros a H Hl; cbn [seq foldr].
  { exists []. split; [done|]. split; [|exists []; split; [done|]; split; [constructor | by intros o []]].
    intros x. split; [intros [] | intros (t & o & _ & _ & _ & Hr & _); lia]. }
  destruct (IH (S a) H Hl) as (qs & -> & Hq & os & Hlen & Hnd & Hos).
  destruct (mapNextTx p !! mkOutPoint h (Z.of_nat a)) as [it|] eqn:E.
  - destruct (next_deref _ _ _ _ H Hl E) as (t & Ht & Ho & ->). cbn. exists (GetHash t :: qs). split; [done|]. split.
    + intros x. cbn [In]. rewrite Hq. split.
      * intros [<-|(s & o & Hs & Hso & Hh & Hr & ->)]; [exists t, (mkOutPoint h (Z.of_nat a)) | exists s, o]; (repeat split; try done; cbn; lia).
      * intros (s & o & Hs & Hso & Hh & Hr & ->). destruct (Z.eq_dec (n o) (Z.of_nat a)) as [En|]; [left|].
        { f_equal. eapply points_inj; [apply Hl | done | done | exact Ho|]. replace (mkOutPoint h (Z.of_nat a)) with o; [done|].
          destruct o; cbn in *; congruence. }
        right. exists s, o. repeat split; try done; lia.
    + exists (mkOutPoint h (Z.of_nat a) :: os). split; [cbn; lia|]. split.
      * constructor; [|done]. intros Hin. apply Hos in Hin as (_ & _ & Hin). cbn in Hin. lia.
      * intros o [<-|Hin]; [split; [apply points_In; by exists t | done]|]. apply Hos in Hin as (? & ? & ?). repeat split; try done; lia.
  - exists qs. split; [done|]. split.
    + intros x. rewrite Hq. split; intros (s & o & Hs & Hso & Hh & Hr & ->); exists s, o; repeat split; try done; try lia.
      destruct (Z.eq_dec (n o) (Z.of_nat a)) as [En|]; [|lia]. exfalso.
      assert (Hi : is_Some (mapNextTx p !! o)) by (apply (next_In p l); [done|]; apply points_In; by exists s).
      replace o with (mkOutPoint h (Z.of_nat a)) in Hi by (destruct o; cbn in *; congruence). rewrite E in Hi. by destruct Hi.
    + exists os. split; [done|]. split; [done|]. intros o Hin. apply Hos in Hin as (? & ? & ?). repeat split; try done; lia.
Qed.

(** The spenders of a transaction in reach of its outputs. *)
Lemma spenders_spec p l s : holds p l -> tidy l -> bounded l s ->
  exists qs, spenders (GetHash s) (length (Transaction.vout s)) p = Some qs /\
    (forall x, In x qs <-> exists t o, In t l /\ In o (prevouts t) /\ hash o = GetHash s /\ x = GetHash t) /\
    exists os, length os = length qs /\ NoDup os /\ forall o, In o os -> In o (points l) /\ hash o = GetHash s.
Proof.
  intros H Hl Hb. destruct (spenders_from p l (GetHash s) (length (Transaction.vout s)) 0 H Hl) as (qs & E & Hq & os & H1 & H2 & H3).
  exists qs. split; [exact E|]. split.
  - intros x. rewrite Hq. split.
    + intros (t & o & ? & ? & ? & _ & ?). by exists t, o.
    + intros (t & o & Ht & Ho & Hh & ->). pose proof (Hb t o Ht Ho Hh). exists t, o. repeat split; try done; lia.
  - exists os. split; [done|]. split; [done|]. intros o Ho. by apply H3 in Ho as (? & ? & _).
Qed.

(** The inputs whose transactions the queue may still reach. *)
Definition waiting (l : list CTransaction) : nat :=
  length (List.filter (fun o => bool_decide (hash o ∈ ids l)) (points l)).

Lemma waiting_step l t (os : list COutPoint) : tidy l -> In t l -> NoDup os ->
  (forall o, In o os -> In o (points l) /\ hash o = GetHash t) ->
  (length os + waiting (List.filter (other (GetHash t)) l) <= waiting l)%nat.
Proof.
  intros Hl Ht Hnd Hos. unfold waiting. rewrite <- length_app. apply NoDup_incl_length.
  - apply NoDup_app_iff. split; [done|]. split; [apply NoDup_filter, points_filter, Hl|].
    intros o Ho Ho'. apply filter_In in Ho' as [_ Ho']. apply bool_decide_eq_true, list_elem_of_In in Ho'.
    apply in_map_iff in Ho' as (s & Es & Hs). apply filter_In in Hs as [_ Hs]. apply other_true in Hs.
    apply Hos in Ho as [_ Ho]. congruence.
  - intros o [Ho|Ho]%in_app_iff; apply filter_In.
    + apply Hos in Ho as [Ho ->]. split; [done|]. apply bool_decide_eq_true, list_elem_of_In. by apply in_map.
    + apply filter_In in Ho as [Ho Hh]. apply bool_decide_eq_true, list_elem_of_In in Hh.
      apply points_In in Ho as (s & Hs & Ho). apply filter_In in Hs as [Hs _]. split; [apply points_In; by exists s|].
      apply bool_decide_eq_true, list_elem_of_In. apply in_map_iff in Hh as (r & <- & Hr). apply filter_In in Hr as [Hr _]. by apply in_map.
Qed.

(** The descendants are out, everything else is in. *)
Definition removed_of (l : list CTransaction) (h0 : list Z) (keep : CTransaction -> bool) : Prop :=
  forall t, In t l -> keep t = false <-> descends l h0 (GetHash t).

(** The state of the loop: what has been dealt with, and the children of that
    in the queue. *)
Record searching (l : list CTransaction) (h0 : list Z) (q gone : list (list Z)) (keep : CTransaction -> bool) : Prop := {
  s_sound : forall h, In h q \/ In h gone -> descends l h0 h;
  s_gone : forall t, In t l -> keep t = false <-> In (GetHash t) gone;
  s_children : forall t o, In t l -> keep t = true -> In o (prevouts t) -> In (hash o) gone -> In (GetHash t) q;
  s_root : In h0 q \/ In h0 gone;
  s_known : forall h, In h q -> In h (ids l) \/ h = h0;
  s_outside : ~ In h0 (ids l) -> forall t o, In t l -> keep t = true -> In o (prevouts t) -> hash o = h0 -> In (GetHash t) q;
}.

Lemma searching_done l h0 gone keep : searching l h0 [] gone keep -> removed_of l h0 keep.
Proof.
  intros [S1 S2 S3 S4 _ _] t Ht. rewrite S2 by done. split; [intros H; apply S1; by right|].
  enough (forall h, descends l h0 h -> In h gone) as H by (intros; by apply H).
  clear t Ht. induction 1 as [|t o _ IH Ht Ho]; [by destruct S4|]. apply S2; [done|]. destruct (keep t) eqn:K; [|done].
  destruct (S3 t o Ht K Ho IH).
Qed.

Lemma remove_loop_spec l h0 fuel : tidy l -> (forall s, In s l -> bounded l s) ->
  forall q gone keep removed p, holds p (List.filter keep l) -> searching l h0 q gone keep ->
  (length q + waiting (List.filter keep l) <= fuel)%nat ->
  exists keep' rm p', remove_loop fuel q true removed p = Some (removed ++ rm, p') /\ holds p' (List.filter keep' l) /\
    removed_of l h0 keep' /\ rest p' = rest p /\
    forall t, In t rm <-> In t l /\ keep t = true /\ keep' t = false.
Proof.
  intros Hl Hb. induction fuel as [|fuel IH]; intros q gone keep removed p H HS Hfuel.
  { destruct q as [|h q]; [|cbn in Hfuel; lia]. exists keep, [], p. rewrite app_nil_r. split; [done|]. split; [done|].
    split; [by eapply searching_done|]. split; [done|]. intros t. split; [intros [] | intros (_ & ? & ?); congruence]. }
  destruct q as [|h q]; cbn [remove_loop].
  { exists keep, [], p. rewrite app_nil_r. split; [done|]. split; [done|].
    split; [by eapply searching_done|]. split; [done|]. intros t. split; [intros [] | intros (_ & ? & ?); congruence]. }
  pose proof (tidy_filter keep l Hl) as Hlk.
  destruct (mapTx p !! h) as [e|] eqn:Ee.
  - destruct (entry_In _ _ _ _ H Ee) as [Hin Eh]. set (t := CTxMemPoolEntry.tx e) in *.
    pose proof Hin as [Hint Hkt]%filter_In.
    destruct (spenders_spec p (List.filter keep l) t H Hlk (bounded_filter keep l t (Hb t Hint))) as (qs & Es & Hqs & os & Hos1 & Hos2 & Hos3).
    rewrite <- Eh in *. rewrite Es. cbn [mbind option_bind].
    pose proof (erase_entry_holds p _ t e H Hlk Hin Ee) as H'. rewrite filter_filter in H'.
    pose proof (waiting_step _ t os Hlk Hin Hos2 Hos3) as Hw. rewrite filter_filter in Hw.
    set (keep1 := fun x => keep x && other (GetHash t) x) in *.
    assert (K1 : forall x, keep1 x = true <-> keep x = true /\ GetHash x <> GetHash t).
    { intros x. unfold keep1. by rewrite andb_true_iff, other_true. }
    assert (K0 : forall x, keep1 x = false <-> keep x = false \/ GetHash x = GetHash t).
    { intros x. unfold keep1, other. rewrite andb_false_iff, negb_false_iff, bool_decide_eq_true. done. }
    destruct (IH (q ++ qs) (GetHash t :: gone) keep1 (removed ++ [t]) _ H') as (keep' & rm & p' & -> & Hp' & Hr & Hd & Hrm).
    + destruct HS as [S1 S2 S3 S4 S5 S6]. assert (Ht0 : descends l h0 (GetHash t)) by (apply S1; left; by left). split.
      * intros x [[Hx|Hx]%in_app_iff|[<-|Hx]]; [apply S1; left; by right| |done|apply S1; by right].
        apply Hqs in Hx as (s & o & Hs & Ho & Eo & ->). apply filter_In in Hs as [Hs _]. eapply descends_child; [|done|exact Ho]. by rewrite Eo.
      * intros x Hx. rewrite K0, S2 by done. cbn [In]. split; intros [|]; auto.
      * intros x o Hx Hkx Ho [Eo|Hg]; apply K1 in Hkx as [Hkx Hne]; apply in_app_iff.
        -- right. apply Hqs. exists x, o. split; [by apply filter_In | done].
        -- left. destruct (S3 x o Hx Hkx Ho Hg) as [E|]; [by destruct Hne | done].
      * destruct S4 as [[<-|H0]|H0]; [right; by left | left; apply in_app_iff; by left | right; by right].
      * intros x [Hx|Hx]%in_app_iff; [apply S5; by right|]. left. apply Hqs in Hx as (s & o & Hs & _ & _ & ->).
        apply filter_In in Hs as [Hs _]. by apply in_map.
      * intros Hn x o Hx Hkx Ho Eo. apply K1 in Hkx as [Hkx Hne]. apply in_app_iff. left.
        destruct (S6 Hn x o Hx Hkx Ho Eo) as [E|]; [by destruct Hne | done].
    + rewrite length_app. cbn [length] in Hfuel. lia.
    + exists keep', (t :: rm), p'. rewrite <- app_assoc. split; [done|]. split; [done|]. split; [done|]. split; [done|].
      intros x. cbn [In]. rewrite Hrm, K1. split.
      * intros [<-|(Hx & [Hk _] & Hk')]; [|done]. split; [done|]. split; [done|]. apply Hr; [done|]. apply (s_sound _ _ _ _ _ HS). left. by left.
      * intros (Hx & Hk & Hk'). destruct (decide (GetHash x = GetHash t)) as [E|Hne]; [left; symmetry; by apply (ids_inj l); [apply Hl|..] | by right].
  - assert (Hnot : ~ In h (ids (List.filter keep l))).
    { rewrite <- (exists_tx_In p _ h H). unfold exists_tx. rewrite Ee. by rewrite bool_decide_eq_false_2 by (intros []; done). }
    assert (Hin : In h (ids l) -> In h gone).
    { intros Hin. apply in_map_iff in Hin as (t & <- & Ht). apply (s_gone _ _ _ _ _ HS); [done|]. destruct (keep t) eqn:K; [|done].
      destruct Hnot. apply in_map. by apply filter_In. }
    apply (IH q (h :: gone) keep removed p H); [|cbn [length] in Hfuel; lia].
    destruct HS as [S1 S2 S3 S4 S5 S6]. assert (Hne : forall t, In t l -> keep t = true -> GetHash t <> h).
    { intros t Ht Hk <-. apply Hnot, in_map. by apply filter_In. }
    split.
    + intros x [Hx|[<-|Hx]]; [apply S1; left; by right | apply S1; left; by left | apply S1; by right].
    + intros t Ht. rewrite S2 by done. cbn [In]. split; [by right|]. intros [E|]; [|done]. rewrite <- E. apply Hin. rewrite E. by apply in_map.
    + intros t o Ht Hk Ho [E|Hg].
      * assert (In (GetHash t) (h :: q)) as [E'|]; [|by destruct (Hne t Ht Hk)|done].
        destruct (In_dec (list_eq_dec Z.eq_dec) h (ids l)) as [Hi|Hi]; [apply (S3 t o); [done..|rewrite <- E; auto]|].
        destruct (S5 h (or_introl eq_refl)) as [|Eh0]; [done|]. by apply (S6 ltac:(by rewrite <- Eh0) t o Ht Hk Ho); rewrite <- E.
      * destruct (S3 t o Ht Hk Ho Hg) as [E|]; [by destruct (Hne t Ht Hk) | done].
    + destruct S4 as [[<-|H0]|H0]; [right; by left | by left | right; by right].
    + intros x Hx. apply S5. by right.
    + intros Hn t o Ht Hk Ho Eo. destruct (S6 Hn t o Ht Hk Ho Eo) as [E|]; [by destruct (Hne t Ht Hk) | done].
Qed.

Lemma waiting_le p l : holds p l -> tidy l -> (waiting l <= size (mapNextTx p))%nat.
Proof.
  intros H Hl. unfold waiting. rewrite <- length_map_to_list, <- (length_map fst). apply NoDup_incl_length.
  - apply NoDup_filter, Hl.
  - intros o Ho. apply filter_In in Ho as [Ho _]. apply (next_In p l o H) in Ho as [it Hit].
    apply in_map_iff. exists (o, it). split; [done|]. by apply list_elem_of_In, elem_of_map_to_list.
Qed.

Lemma filter_all {A} (l : list A) : List.filter (fun _ => true) l = l.
Proof. induction l as [|x l IH]; cbn; [done|]. by rewrite IH. Qed.

(** [remove(tx, removed, true)]: the transaction, if it is in the pool, and
    everything that depends on it. *)
Lemma remove_spec p l tx removed : holds p l -> tidy l -> (forall s, In s l -> bounded l s) -> bounded l tx ->
  exists keep rm p', remove tx true removed p = Some (removed ++ rm, p') /\ holds p' (List.filter keep l) /\
    removed_of l (GetHash tx) keep /\ rest p' = rest p /\ forall t, In t rm <-> In t l /\ keep t = false.
Proof.
  intros H Hl Hb Htx. unfold remove. cbn [andb].
  assert (H1 : holds p (List.filter (fun _ => true) l)) by (by rewrite filter_all).
  assert (Hq : exists qs, (if negb (exists_tx (GetHash tx) p) then spenders (GetHash tx) (length (Transaction.vout tx)) p else Some []) = Some qs /\
    searching l (GetHash tx) (GetHash tx :: qs) [] (fun _ => true)).
  { destruct (exists_tx (GetHash tx) p) eqn:Ex; cbn [negb].
    - apply (exists_tx_In p l _ H) in Ex. exists []. split; [done|]. split; try done.
      + intros h [[<-|[]]|[]]. constructor.
      + left. by left.
      + intros h [<-|[]]. by right.
    - apply (exists_tx_false p l _ H) in Ex. destruct (spenders_spec p l tx H Hl Htx) as (qs & -> & Hqs & _). exists qs. split; [done|]. split; try done.
      + intros h [[<-|Hin]|[]]; [constructor|]. apply Hqs in Hin as (s & o & Hs & Ho & Eo & ->).
        eapply descends_child; [|done|exact Ho]. rewrite Eo. constructor.
      + left. by left.
      + intros h [<-|Hin]; [by right|]. left. apply Hqs in Hin as (s & o & Hs & _ & _ & ->). by apply in_map.
      + intros _ t o Ht _ Ho Eo. right. apply Hqs. by exists t, o. }
  destruct Hq as (qs & -> & HS). cbn [mbind option_bind].
  destruct (remove_loop_spec l (GetHash tx) (S (length qs) + size (mapNextTx p)) Hl Hb (GetHash tx :: qs) [] _ removed p H1 HS)
    as (keep & rm & p' & E & Hp & Hr & Hd & Hrm).
  { rewrite filter_all. pose proof (waiting_le p l H Hl). cbn [length]. lia. }
  exists keep, rm, p'. split; [exact E|]. split; [done|]. split; [done|]. split; [done|]. intros t. rewrite Hrm. tauto.
Qed.

(** [remove(tx, removed, false)] *)
Lemma remove_one_spec p l tx removed : holds p l -> tidy l -> 
  exists rm p', remove tx false removed p = Some (removed ++ rm, p') /\ holds p' (List.filter (other (GetHash tx)) l) /\ rest p' = rest p.
Proof.
  intros H Hl. unfold remove. cbn [andb mbind option_bind length]. set (k := size (mapNextTx p)).
  cbn [Nat.add remove_loop]. destruct (mapTx p !! GetHash tx) as [e|] eqn:Ee.
  - destruct (entry_In _ _ _ _ H Ee) as [Hin Eh]. cbn [mbind option_bind app].
    exists [CTxMemPoolEntry.tx e]. eexists. split; [by destruct k|]. split; [|done].
    rewrite <- Eh in Ee |- *. by apply (erase_entry_holds p l).
  - exists [], p. rewrite app_nil_r. split; [by destruct k|]. split; [|done].
    assert (Hn : ~ In (GetHash tx) (ids l)).
    { apply (exists_tx_false p l _ H). unfold exists_tx. rewrite Ee. by apply bool_decide_eq_false_2; intros []. }
    assert (E : List.filter (other (GetHash tx)) l = l); [|by rewrite E].
    clear - Hn. induction l as [|x l IH]; cbn; [done|]. rewrite (proj2 (other_true _ _)) by (intros E; apply Hn; by left).
    f_equal. apply IH. intros Hin. apply Hn. by right.
Qed.

Lemma filter_ext_In {A} (f g : A -> bool) l : (forall x, In x l -> f x = g x) -> List.filter f l = List.filter g l.
Proof.
  intros H. induction l as [|x l IH]; cbn; [done|]. rewrite (H x) by (by left). rewrite IH by (intros; apply H; by right). done.
Qed.

(** ** Sets of transactions that are closed under spending *)

(** What is removed takes its descendants along. *)
Definition closed (l : list CTransaction) (keep : CTransaction -> bool) : Prop :=
  forall t s o, In t l -> In s l -> keep s = false -> In o (prevouts t) -> hash o = GetHash s -> keep t = false.

Lemma removed_of_closed l h keep : removed_of l h keep -> closed l keep.
Proof.
  intros Hr t s o Ht Hs Hk Ho Eo. apply Hr; [done|]. apply (descends_child _ _ t o); [|done..]. rewrite Eo. by apply Hr.
Qed.

Lemma bounded_kept keep l : (forall s, In s l -> bounded l s) -> forall s, In s (List.filter keep l) -> bounded (List.filter keep l) s.
Proof. intros H s Hs. apply bounded_filter, H. by apply filter_In in Hs as [Hs _]. Qed.

Lemma closed_comp l keep keep' : closed l keep -> closed (List.filter keep l) keep' -> closed l (fun t => keep t && keep' t).
Proof.
  intros H1 H2 t s o Ht Hs Hk Ho Eo. apply andb_false_iff. destruct (keep t) eqn:Kt; [right | by left].
  assert (Ks : keep s = true) by (destruct (keep s) eqn:Ks; [done|]; rewrite (H1 t s o Ht Hs Ks Ho Eo) in Kt; discriminate Kt).
  apply (H2 t s o); [by apply filter_In | by apply filter_In | | done | exact Eo]. by rewrite Ks in Hk.
Qed.

Lemma descends_filter keep l h0 h : descends (List.filter keep l) h0 h -> descends l h0 h.
Proof.
  induction 1 as [|t o _ IH Ht Ho]; [constructor|]. apply filter_In in Ht as [Ht _]. by apply (descends_child _ _ t o).
Qed.

(** What several removals take out: descendants of the given transactions. *)
Record removes (l : list CTransaction) (txs : list CTransaction) (keep : CTransaction -> bool) : Prop := {
  removes_closed : closed l keep;
  removes_txs : forall t, In t txs -> In t l -> keep t = false;
  removes_only : forall t, In t l -> keep t = false -> exists s, In s txs /\ descends l (GetHash s) (GetHash t);
}.

Lemma removes_nil l : removes l [] (fun _ => true).
Proof. split; done. Qed.

Lemma removes_cons l tx txs keep keep' : removed_of l (GetHash tx) keep -> removes (List.filter keep l) txs keep' ->
  removes l (tx :: txs) (fun t => keep t && keep' t).
Proof.
  intros Hr [H1 H2 H3]. split.
  - apply closed_comp; [by eapply removed_of_closed | done].
  - intros t [<-|Ht] Hl; apply andb_false_iff; [left; apply Hr; [done | constructor]|]. destruct (keep t) eqn:K; [right | by left].
    apply H2; [done | by apply filter_In].
  - intros t Hl Hk. destruct (keep t) eqn:K; cbn [andb] in Hk.
    + destruct (H3 t) as (s & Hs & Hd); [by apply filter_In | done|]. exists s. split; [by right | by eapply descends_filter].
    + exists tx. split; [by left | by apply Hr].
Qed.

(** Removing several transactions one after another. *)
Lemma remove_all_spec txs : forall p l, holds p l -> tidy l -> (forall s, In s l -> bounded l s) -> (forall s, In s txs -> bounded l s) ->
  exists keep p', remove_all txs p = Some p' /\ holds p' (List.filter keep l) /\ removes l txs keep /\ rest p' = rest p.
Proof.
  induction txs as [|tx txs IH]; intros p l H Hl Hb Hb'; cbn [remove_all].
  { exists (fun _ => true), p. rewrite filter_all. split; [done|]. split; [done|]. split; [apply removes_nil | done]. }
  destruct (remove_spec p l tx [] H Hl Hb) as (keep & rm & p1 & -> & H1 & Hr & Hd & _); [apply Hb'; by left|]. cbn [mbind option_bind].
  destruct (IH p1 (List.filter keep l) H1 (tidy_filter _ _ Hl) (bounded_kept _ _ Hb)) as (keep' & p2 & -> & H2 & Hc & Hd').
  { intros s Hs. apply bounded_filter, Hb'. by right. }
  rewrite filter_filter in H2. exists (fun t => keep t && keep' t), p2. split; [done|]. split; [done|].
  split; [by apply removes_cons | by rewrite Hd'].
Qed.

(** [removeConflicts]: the transactions that spend an input of [tx], and
    their descendants; no two transactions of the pool and the block differ
    and have one hash. *)
Lemma removeConflicts_loop_spec tx vin : forall p l removed, holds p l -> tidy l -> (forall s, In s l -> bounded l s) ->
  exists keep rm p', removeConflicts_loop tx vin removed p = Some (removed ++ rm, p') /\ holds p' (List.filter keep l) /\
    closed l keep /\ rest p' = rest p /\
    (forall t o, In t l -> keep t = true -> In o (map prevout vin) -> In o (prevouts t) -> GetHash t = GetHash tx) /\
    (forall t, In t l -> keep t = false -> exists s o, In s l /\ In o (map prevout vin) /\ In o (prevouts s) /\
       GetHash s <> GetHash tx /\ descends l (GetHash s) (GetHash t)) /\
    forall t, In t rm <-> In t l /\ keep t = false.
Proof.
  induction vin as [|i vin IH]; intros p l removed H Hl Hb; cbn [removeConflicts_loop map].
  { exists (fun _ => true), [], p. rewrite app_nil_r, filter_all. split; [done|]. split; [done|]. split; [by intros ? ? ? ? ? ?|].
    split; [done|]. split; [by intros ? ? ? ? []|]. split; [done|]. intros t. split; [intros [] | by intros []]. }
  destruct (mapNextTx p !! prevout i) as [it|] eqn:E.
  - destruct (next_deref _ _ _ _ H Hl E) as (t0 & Ht0 & Ho0 & ->). cbn [mbind option_bind].
    assert (Huniq : forall t, In t l -> In (prevout i) (prevouts t) -> t = t0).
    { intros t Ht Ho. apply (points_inj l t t0 (prevout i)); [apply Hl | exact Ht | exact Ht0 | exact Ho | exact Ho0]. }
    destruct (decide (GetHash t0 = GetHash tx)) as [Eh|Hne].
    + destruct (IH p l removed H Hl Hb) as (keep & rm & p' & -> & H1 & H2 & H3 & H4 & H5 & H6). exists keep, rm, p'.
      split; [done|]. split; [done|]. split; [done|]. split; [done|]. split; [|split; [|done]].
      * intros t o Ht Hk [<-|Ho] Hot; [rewrite (Huniq t Ht Hot); exact Eh | by apply (H4 t o)].
      * intros t Ht Hk. destruct (H5 t Ht Hk) as (s & o & Hs & Ho & Hso & Hr). exists s, o. exact (conj Hs (conj (or_intror Ho) (conj Hso Hr))).
    + destruct (remove_spec p l t0 removed H Hl Hb (Hb t0 Ht0)) as (keep & rm & p1 & -> & H1 & Hr & Hd & Hrm). cbn [mbind option_bind].
      destruct (IH p1 (List.filter keep l) (removed ++ rm) H1 (tidy_filter _ _ Hl) (bounded_kept _ _ Hb))
        as (keep' & rm' & p2 & -> & H2 & Hc & Hd' & H4 & H5 & H6).
      rewrite filter_filter in H2. exists (fun t => keep t && keep' t), (rm ++ rm'), p2. rewrite app_assoc.
      split; [done|]. split; [done|]. split; [exact (closed_comp _ _ _ (removed_of_closed _ _ _ Hr) Hc)|]. split; [by rewrite Hd'|]. split; [|split].
      * intros t o Ht Hk Ho Hot. apply andb_true_iff in Hk as [Hk Hk']. destruct Ho as [<-|Ho].
        { rewrite (Huniq t Ht Hot) in Hk. rewrite (proj2 (Hr t0 Ht0)) in Hk by constructor. discriminate Hk. }
        apply (H4 t o); [by apply filter_In | done..].
      * intros t Ht Hk. apply andb_false_iff in Hk. destruct (keep t) eqn:K.
        { destruct Hk as [|Hk]; [done|]. destruct (H5 t) as (s & o & Hs & Ho & Hso & Hne' & Hds); [by apply filter_In | done|].
          exists s, o. apply filter_In in Hs as [Hs _]. split; [done|]. exact (conj (or_intror Ho) (conj Hso (conj Hne' (descends_filter _ _ _ _ Hds)))). }
        exists t0, (prevout i). split; [done|]. split; [by left|]. split; [exact Ho0|]. split; [exact Hne | by apply Hr].
      * intros t. rewrite in_app_iff, Hrm, H6, filter_In, andb_false_iff. destruct (keep t); intuition congruence.
  - destruct (IH p l removed H Hl Hb) as (keep & rm & p' & -> & H1 & H2 & H3 & H4 & H5 & H6). exists keep, rm, p'.
    split; [done|]. split; [done|]. split; [done|]. split; [done|]. split; [|split; [|done]].
    + intros t o Ht Hk [<-|Ho] Hot; [|by apply (H4 t o)]. exfalso.
      assert (Hi : is_Some (mapNextTx p !! prevout i)) by (apply (next_In p l _ H), points_In; by exists t).
      rewrite E in Hi. by destruct Hi.
    + intros t Ht Hk. destruct (H5 t Ht Hk) as (s & o & Hs & Ho & Hso & Hr). exists s, o. exact (conj Hs (conj (or_intror Ho) (conj Hso Hr))).
Qed.

(** [clear] *)
Lemma clear_holds p : holds (clear p) [].
Proof.
  split; cbn.
  - intros h. by rewrite lookup_empty.
  - intros h e. by rewrite lookup_empty.
  - intros o it. rewrite lookup_empty. split; [done | by intros (t & [] & _)].
  - done.
Qed.
End MemPoolOps.
