(* ===== verification/MemPoolAccept.v ===== *)
(** [AcceptToMemoryPool], refined: the view of the inputs keeps the promise
    of a readable view, the view that only has its cache answers like the
    one it was filled from, and an accepted transaction fits on top of the
    unspent outputs and the transactions of the pool. *)
From stdpp Require Import base list gmap fin_maps sets.
From Stdlib Require Import String.
From S2P Require Import Prelude Double Script Interpreter Standard Params Serialize Transaction SigHash TxCheck Coins CoinsView Connect Undo ConnectBlock FeeEstimator MemPool AcceptToMemoryPool CoinSet MemPoolSpec MemPoolOps.
Open Scope list_scope.

Module MemPoolAccept.
Import Params Transaction TxCheck Coins CoinsView Connect Undo FeeEstimator MemPool AcceptToMemoryPool CoinSet MemPoolSpec MemPoolOps.
Import CTxMemPoolEntry(MEMPOOL_HEIGHT).

#[local] Opaque GetHash.
#[local] Arguments IsPruned : simpl never.

Abbreviation ids l := (map GetHash l) (only parsing).
Abbreviation prevouts tx := (map prevout (vin tx)) (only parsing).

(** ** The view of the pool can be read *)

Section PoolView.
Context {V : Type} `{!CCoinsView V, !CoinsSpec V, !ReadableView V}.

(** What a transaction of the pool denotes, before what the base does. *)
Definition pool_utxo (p : CTxMemPool) (u : outputs) : outputs :=
  fun t => match lookup t p with Some tx => unpruned (FromTx tx MEMPOOL_HEIGHT) | None => u t end.

#[export] Instance CCoinsViewMemPool_spec : CoinsSpec (CCoinsViewMemPool V) := {
  wf v := wf (pool_base v);
  utxo v := pool_utxo (mempool v) (utxo (pool_base v));
  held _ _ := True;
  best v := best (pool_base v);
  storable _ := True;
  stored_as c := c;
}.

Lemma pool_view_unchanged p (b b' : V) : unchanged b b' -> unchanged (mkPoolView b p) (mkPoolView b' p).
Proof using.
  intros (H1 & H2 & H3 & H4). split; [done|]. split; [|done]. intros t. cbn. unfold pool_utxo. by destruct (lookup t p).
Qed.

#[export] Instance CCoinsViewMemPool_readable : ReadableView (CCoinsViewMemPool V).
Proof using ReadableView0.
  split.
  - intros t [b p] r v' Hwf. cbn. unfold pool_utxo. cbn. destruct (lookup t p) as [tx|].
    + intros [= <- <-]. split; [by apply unchanged_refl|]. split; [apply FromTx_clean | done].
    + destruct (GetCoins t b) as [o b'] eqn:G. destruct (GetCoins_law t b o b' Hwf G) as [U Ho]. destruct o as [c|]; intros [= <- <-].
      * split; [by apply pool_view_unchanged|]. destruct Ho as (Hc & Hu & _). unfold unpruned in Hu |- *. destruct (IsPruned c) eqn:P; [done|].
        by rewrite P.
      * split; [by apply pool_view_unchanged | done].
  - intros [b p] h v' Hwf. cbn. destruct (GetBestBlock b) as [h' b'] eqn:G. destruct (GetBestBlock_law b h' b' Hwf G) as [U ->].
    intros [= <- <-]. split; [by apply pool_view_unchanged | done].
Qed.

Lemma pool_utxo_coin p l u o : holds p l -> coin_at (pool_utxo p u) o = provided l (coin_at u) o.
Proof using.
  intros H. unfold provided, coin_at, pool_utxo. rewrite (lookup_find _ _ _ H). destruct (find_tx (hash o) l) as [t|]; [|done].
  apply unpruned_coin.
Qed.
End PoolView.

(** ** A view that reads nothing but its cache *)

Lemma SetBackend_base {V} (v : CCoinsViewCache V) : SetBackend (base v) v = v.
Proof. by destruct v. Qed.

(** The inputs are in the cache. *)
Definition loaded {V} (v : CCoinsViewCache V) (vin : list CTxIn) : Prop :=
  forall i, In i vin -> is_Some (cacheCoins v !! hash (prevout i)).

(** An operation that answers the same over any backend, and leaves the
    view as it is. *)
Definition steady {V R} (v : CCoinsViewCache V) (f : forall W, CCoinsView W -> CCoinsViewCache W -> R * CCoinsViewCache W) : Prop :=
  exists r, forall W (HW : CCoinsView W) (b : W), f W HW (SetBackend b v) = (r, SetBackend b v).

(** So it may be asked over the dummy. *)
Lemma steady_null {V R} `{!CCoinsView V} (v : CCoinsViewCache V) (f : forall W, CCoinsView W -> CCoinsViewCache W -> R * CCoinsViewCache W) :
  steady v f -> exists r, f CCoinsViewNull _ (SetBackend Null v) = (r, SetBackend Null v) /\ f V _ v = (r, v).
Proof. intros [r H]. exists r. split; [apply H|]. rewrite <- (SetBackend_base v) at 1 2. apply H. Qed.

Section Steady.
Context {V : Type} {params : CChainParams}.
Variable Verify : list Z -> list Z -> list Z -> bool.
Variable block_height : list Z -> option Z.
Implicit Types (v : CCoinsViewCache V).

Lemma loaded_cons v i vin : loaded v (i :: vin) ->
  (exists e, cacheCoins v !! hash (prevout i) = Some e) /\ loaded v vin.
Proof using. intros H. split; [apply H; by left | intros j Hj; apply H; by right]. Qed.

Lemma fetch_steady v t e : cacheCoins v !! t = Some e -> forall W (HW : CCoinsView W) (b : W),
  FetchCoins t (SetBackend b v) = (Some (coins e), SetBackend b v).
Proof using. intros E W HW b. unfold FetchCoins. cbn. by rewrite E. Qed.

Lemma output_steady v i e : cacheCoins v !! hash (prevout i) = Some e -> forall W (HW : CCoinsView W) (b : W),
  GetOutputFor i (SetBackend b v) =
    (if IsAvailable (coins e) (n (prevout i)) then Some (Coins.vout_at (coins e) (n (prevout i))) else None, SetBackend b v).
Proof using. intros E W HW b. unfold GetOutputFor. by rewrite (fetch_steady v _ e E). Qed.

(** The loops over the inputs. *)
Ltac over_any F E1 E2 := intros W HW b; rewrite F, E1, E2; cbn zeta; cbn [negb].

Lemma have_inputs_steady v vin : loaded v vin -> steady v (fun W _ => have_inputs vin).
Proof using.
  induction vin as [|i vin IH]; intros H; [by exists true|]. apply loaded_cons in H as [[e E] H]. cbn [have_inputs].
  destruct (IsAvailable (coins e) (n (prevout i))) eqn:Ea.
  - destruct (IH H) as [r Hr]. exists r. intros W HW b. rewrite (fetch_steady v _ e E), Ea. apply Hr.
  - exists false. intros W HW b. by rewrite (fetch_steady v _ e E), Ea.
Qed.

Lemma value_in_steady v vin : forall n0, loaded v vin -> steady v (fun W _ => value_in vin n0).
Proof using.
  induction vin as [|i vin IH]; intros n0 H; [by exists (Some n0)|]. apply loaded_cons in H as [[e E] H]. cbn [value_in].
  destruct (IsAvailable (coins e) (n (prevout i))) eqn:Ea.
  - destruct (IH (n0 + nValue (Coins.vout_at (coins e) (n (prevout i)))) H) as [r Hr]. exists r. intros W HW b. rewrite (output_steady v _ e E), Ea. apply Hr.
  - exists None. intros W HW b. by rewrite (output_steady v _ e E), Ea.
Qed.

Lemma p2sh_sigops_steady v vin : forall n0, loaded v vin -> steady v (fun W _ => p2sh_sigops vin n0).
Proof using.
  induction vin as [|i vin IH]; intros n0 H; [by exists (Some n0)|]. apply loaded_cons in H as [[e E] H]. cbn [p2sh_sigops].
  destruct (IsAvailable (coins e) (n (prevout i))) eqn:Ea.
  - set (o := Coins.vout_at (coins e) (n (prevout i))).
    destruct (IH (if Script.IsPayToScriptHash (scriptPubKey o)
             then T32 (n0 + Script.GetSigOpCount_P2SH (scriptPubKey o) (scriptSig i)) else n0) H) as [r Hr].
    exists r. intros W HW b. rewrite (output_steady v _ e E), Ea. apply Hr.
  - exists None. intros W HW b. by rewrite (output_steady v _ e E), Ea.
Qed.

Lemma input_values_steady v h vin : forall n0, loaded v vin -> steady v (fun W _ => input_values h vin n0).
Proof using.
  induction vin as [|i vin IH]; intros n0 H; [by exists (Pass n0)|]. apply loaded_cons in H as [[e E] H]. cbn [input_values].
  set (o := Coins.vout_at (coins e) (n (prevout i))).
  destruct ((fCoinBase (coins e) || fCoinStake (coins e)) && (h - Coins.nHeight (coins e) <? COINBASE_MATURITY)) eqn:E1.
  { eexists. intros W HW b. rewrite (fetch_steady v _ e E). cbn zeta. by rewrite E1. }
  destruct (negb (MoneyRange (nValue o)) || negb (MoneyRange (n0 + nValue o))) eqn:E2.
  { eexists. intros W HW b. rewrite (fetch_steady v _ e E). cbn zeta. fold o. by rewrite E1, E2. }
  destruct (IH (n0 + nValue o) H) as [r Hr]. exists r. intros W HW b. rewrite (fetch_steady v _ e E). cbn zeta. fold o. rewrite E1, E2. apply Hr.
Qed.

Lemma script_checks_steady v tx flags vin : forall i, loaded v vin -> steady v (fun W _ => script_checks Verify tx flags false i vin).
Proof using.
  induction vin as [|txin vin IH]; intros i H; [by exists (Pass [])|]. apply loaded_cons in H as [[e E] H]. cbn [script_checks].
  set (check := mkCheck (scriptPubKey (Coins.vout_at (coins e) (n (prevout txin)))) i flags).
  destruct (run_check Verify tx check) as [[er|]|] eqn:Er.
  - eexists. intros W HW b. rewrite (fetch_steady v _ e E). cbn zeta. fold check. by rewrite Er.
  - destruct (IH (S i) H) as [r Hr]. exists r. intros W HW b. rewrite (fetch_steady v _ e E). cbn zeta. fold check. rewrite Er. apply Hr.
  - eexists. intros W HW b. rewrite (fetch_steady v _ e E). cbn zeta. fold check. by rewrite Er.
Qed.

Lemma inputs_standard_steady v vin : loaded v vin -> steady v (fun W _ => inputs_standard vin).
Proof using.
  induction vin as [|i vin IH]; intros H; [by exists (Some true)|]. apply loaded_cons in H as [[e E] H]. destruct (IH H) as [r Hr].
  cbn [inputs_standard].
  assert (G : exists r', forall W (HW : CCoinsView W) (b : W), inputs_standard (i :: vin) (SetBackend b v) = (r', SetBackend b v)).
  { destruct (IsAvailable (coins e) (n (prevout i))) eqn:Ea.
    2: { exists None. intros W HW b. cbn [inputs_standard]. by rewrite (output_steady v _ e E), Ea. }
    set (o := Coins.vout_at (coins e) (n (prevout i))).
    assert (F : forall W (HW : CCoinsView W) (b : W), GetOutputFor i (SetBackend b v) = (Some o, SetBackend b v)).
    { intros W HW b. by rewrite (output_steady v _ e E), Ea. }
    cbn [inputs_standard]. destruct (Standard.Solver (scriptPubKey o)) as [s|] eqn:E1; [|eexists; intros W HW b; rewrite F, E1; done].
    destruct (Standard.ok s) eqn:E2; [|eexists; intros W HW b; rewrite F, E1, E2; done].
    destruct (Standard.ScriptSigArgsExpected (Standard.typeRet s) (Standard.vSolutionsRet s) <? 0) eqn:E3;
      [eexists; over_any F E1 E2; rewrite E3; done|].
    destruct (Interpreter.EvalScript (fun _ _ _ => false) 0 [] (scriptSig i)) as [[stack|er]|] eqn:E4;
      [|eexists; over_any F E1 E2; rewrite E3; done..].
    assert (C : exists r', forall W (HW : CCoinsView W) (b : W),
      (if Z.of_nat (length stack) =? Standard.ScriptSigArgsExpected (Standard.typeRet s) (Standard.vSolutionsRet s)
       then inputs_standard vin (SetBackend b v) else (Some false, SetBackend b v)) = (r', SetBackend b v)).
    { destruct (_ =? _); [by exists r | by eexists]. }
    destruct C as [rc C].
    destruct (Standard.typeRet s) eqn:E5;
      try (exists rc; over_any F E1 E2; rewrite E5, E3; apply C).
    destruct (length stack =? 0)%nat eqn:E6; [eexists; over_any F E1 E2; rewrite E5, E3; done|].
    destruct (Standard.Solver (List.last stack [])) as [s2|] eqn:E7;
      [|eexists; over_any F E1 E2; rewrite E5, E3; done].
    destruct (Standard.ok s2) eqn:E8; [|eexists; over_any F E1 E2; rewrite E5, E3; done].
    destruct (Standard.ScriptSigArgsExpected (Standard.typeRet s2) (Standard.vSolutionsRet s2) <? 0) eqn:E9;
      [eexists; over_any F E1 E2; rewrite E5, E3; done|].
    set (k := Standard.ScriptSigArgsExpected Standard.TX_SCRIPTHASH (Standard.vSolutionsRet s)
              + Standard.ScriptSigArgsExpected (Standard.typeRet s2) (Standard.vSolutionsRet s2)).
    destruct (Z.of_nat (length stack) =? k) eqn:E10; eexists; over_any F E1 E2; rewrite E5, E3; fold k; rewrite E10; [apply Hr | done]. }
  exact G.
Qed.

Lemma priority_inputs_steady v h vin : forall d, loaded v vin -> steady v (fun W _ => priority_inputs h vin d).
Proof using.
  induction vin as [|i vin IH]; intros d H; [by exists (Some d)|]. apply loaded_cons in H as [[e E] H]. cbn [priority_inputs].
  match goal with |- steady v ?f => set (ff := f) end.
  destruct (IH (if negb (IsAvailable (coins e) (n (prevout i))) then d
             else if Coins.nHeight (coins e) <? h
             then Double.add d (Double.of_Z (Serialize.to_signed 64 (T64 (nValue (Coins.vout_at (coins e) (n (prevout i))) * (h - Coins.nHeight (coins e))))))
             else d) H) as [r Hr].
  exists r. intros W HW b. unfold ff. rewrite (fetch_steady v _ e E). apply Hr.
Qed.

(** The operations of the policy, and [CheckInputs], which asks for the best
    block as well. *)
Lemma AreInputsStandard_steady v tx : loaded v (vin tx) -> steady v (fun W _ => AreInputsStandard tx).
Proof using. intros H. unfold AreInputsStandard. destruct (IsCoinBase tx); [by exists (Some true) | by apply inputs_standard_steady]. Qed.

Lemma GetP2SHSigOpCount_steady v tx : loaded v (vin tx) -> steady v (fun W _ => GetP2SHSigOpCount tx).
Proof using. intros H. unfold GetP2SHSigOpCount. destruct (IsCoinBase tx); [by exists (Some 0) | by apply p2sh_sigops_steady]. Qed.

Lemma GetPriority_steady v tx h : loaded v (vin tx) -> steady v (fun W _ => GetPriority tx h).
Proof using.
  intros H. unfold GetPriority. destruct (_ || _); [by eexists|]. destruct (priority_inputs_steady v h (vin tx) Double.zero H) as [[d|] Hr].
  - eexists. intros W HW b. by rewrite Hr.
  - eexists. intros W HW b. by rewrite Hr.
Qed.

Lemma CheckInputs_steady v tx fScriptChecks flags : loaded v (vin tx) -> is_zero (hashBlock v) = false ->
  steady v (fun W _ => CheckInputs Verify block_height tx fScriptChecks flags false).
Proof using.
  intros H Hz. unfold CheckInputs. destruct (_ && _); [|by eexists].
  assert (HI : steady v (fun W _ => HaveInputs tx)).
  { unfold HaveInputs. destruct (IsCoinBase tx); [by exists true | by apply have_inputs_steady]. }
  destruct HI as [r0 H0]. destruct r0; [|eexists; intros W HW b; rewrite H0; done].
  assert (HB : forall W (HW : CCoinsView W) (b : W), Cache_GetBestBlock (SetBackend b v) = (hashBlock v, SetBackend b v)).
  { intros W HW b. unfold Cache_GetBestBlock. cbn. by rewrite Hz. }
  destruct (block_height (hashBlock v)) as [h|] eqn:Eh; [|eexists; intros W HW b; rewrite H0, HB, Eh; done].
  destruct (input_values_steady v (h + 1) (vin tx) 0 H) as [r1 H1].
  destruct r1 as [nValueIn|r|]; [|eexists; intros W HW b; rewrite H0, HB, Eh, H1; done..].
  destruct (check_fee tx nValueIn) as [u|r|] eqn:Ef; [|eexists; intros W HW b; rewrite H0, HB, Eh, H1, Ef; done..].
  destruct fScriptChecks; [|eexists; intros W HW b; rewrite H0, HB, Eh, H1, Ef; done].
  destruct (script_checks_steady v tx flags (vin tx) 0 H) as [r2 H2]. exists r2. intros W HW b. rewrite H0, HB, Eh, H1, Ef. apply H2.
Qed.
End Steady.

(** ** The checks that need no inputs *)

Section Admit.
Context {params : CChainParams}.
Variable nd : node.
Hypothesis HMaxMoney : 0 <= MaxMoneyOut <= Script.int64_max.

(** What an admitted transaction is. *)
Definition admissible (tx : CTransaction) : Prop :=
  loose tx /\ ContainsZerocoins tx = false /\ vin tx <> [] /\ Forall (fun i => COutPoint_IsNull (prevout i) = false) (vin tx) /\
  outputs_valid true (Transaction.vout tx) /\ GetValueOut tx = Value (total (Transaction.vout tx)) /\
  (RequireStandard nd = true -> IsStandardTx nd tx = Some None).

Lemma coinstake_v5 tx : IsCoinStake tx = false -> IsV5CoinStake tx = false.
Proof using.
  unfold IsCoinStake, IsV5CoinStake. destruct (_ && _ && _ && _); [done|]. by destruct (_ && _ && _ && _ && _).
Qed.

Lemma loose_takes tx : loose tx -> takes_inputs tx = true.
Proof using. intros H. unfold takes_inputs. by rewrite (loose_coinbase _ H), (coinstake_v5 _ (loose_coinstake _ H)). Qed.

Lemma admit_tx_spec state tx state' : positioned (vin tx) -> admit_tx nd state tx = Some (inr state') -> state' = state /\ admissible tx.
Proof using HMaxMoney.
  intros Hp. unfold admit_tx. rewrite CheckTransaction_first. destruct (rejection_of tx) as [r|] eqn:Er; [by destruct (reject r state) as [[] ?] eqn:E; unfold reject, DoS in E; destruct (mode state)|].
  destruct (ContainsZerocoins tx) eqn:Ez; [done|]. destruct (IsCoinBase tx) eqn:Ec; [done|]. destruct (IsCoinStake tx) eqn:Es; [done|].
  apply (rejection_of_iff tx (proj1 HMaxMoney)) in Er as (H1 & H2 & H3 & H4 & H5).
  unfold inputs_valid in H5. rewrite Ec, (coinstake_v5 _ Es) in H5. rewrite Ec, Es in H4. cbn [negb andb] in H4.
  assert (Hv : GetValueOut tx = Value (total (Transaction.vout tx))).
  { unfold GetValueOut. rewrite value_out_total; [done| |lia|destruct H4 as [_ H4]; lia].
    destruct H4 as [H4 _]. eapply Forall_impl; [|exact H4]. cbn. intros o [? _]. lia. }
  assert (Ha : (RequireStandard nd = true -> IsStandardTx nd tx = Some None) -> admissible tx).
  { intros Hstd. split; [split; try done; [|apply H5]|].
    - unfold ContainsZerocoins in Ez. by apply orb_false_iff in Ez as [Ez _].
    - split; [exact Ez|]. split; [done|]. split; [apply H5|]. split; [done|]. by split. }
  destruct (RequireStandard nd); [|intros [= <-]; split; [done | by apply Ha]].
  destruct (IsStandardTx nd tx) as [[?|]|]; [done| |done]. intros [= <-]. split; [done | by apply Ha].
Qed.
End Admit.

(** ** The inputs are fetched *)

Section Fetch.
Context {V : Type} `{!CCoinsView V, !CoinsSpec V, !ReadableView V} {params : CChainParams}.
Abbreviation pview := (CCoinsViewCache (CCoinsViewMemPool (CCoinsViewCache V))) (only parsing).
Implicit Types (view : pview).

Lemma have_held {W} `{!CCoinsView W, !CoinsSpec W, !ReadableView W} t (v : CCoinsViewCache W) v' : wf v -> Cache_HaveCoins t v = (true, v') ->
  unchanged v v' /\ is_Some (cacheCoins v' !! t).
Proof using.
  intros Hwf. unfold Cache_HaveCoins. destruct (FetchCoins t v) as [[c|] w] eqn:F; [|done]. intros [= _ <-].
  destruct (FetchCoins_law _ _ _ _ Hwf F) as (U & _ & _ & H). by split.
Qed.

Lemma loaded_unchanged {W} `{!CCoinsView W, !CoinsSpec W, !ReadableView W} (v v' : CCoinsViewCache W) vin : unchanged v v' -> loaded v vin -> loaded v' vin.
Proof using. intros (_ & _ & H & _) Hl i Hi. by apply H, Hl. Qed.

Lemma inputs_known_spec vin : forall view r view', wf view -> inputs_known vin view = (r, view') ->
  unchanged view view' /\ (r = true -> loaded view' vin).
Proof using ReadableView0.
  induction vin as [|i vin IH]; intros view r view' Hwf; cbn [inputs_known].
  { intros [= <- <-]. split; [by apply unchanged_refl | by intros _ ? []]. }
  destruct (Cache_HaveCoins (hash (prevout i)) view) as [[|] v1] eqn:E.
  - destruct (have_held _ _ _ Hwf E) as [U Hh]. intros Hk. destruct (IH v1 r view' (proj1 U) Hk) as [U' Hl].
    split; [by eapply unchanged_trans|]. intros Hr j [<-|Hj]; [by apply U' | by apply Hl].
  - intros [= <- <-]. split; [|done]. by apply (Cache_HaveCoins_law _ _ _ _ Hwf) in E as [? _].
Qed.

Lemma value_in_hashBlock {W} `{!CCoinsView W} vin : forall n0 (v : CCoinsViewCache W) r v', value_in vin n0 v = (r, v') -> hashBlock v' = hashBlock v.
Proof using.
  induction vin as [|i vin IH]; intros n0 v r v'; cbn [value_in]; [by intros [= _ <-]|]. unfold GetOutputFor.
  destruct (FetchCoins (hash (prevout i)) v) as [o v1] eqn:F.
  assert (E : hashBlock v1 = hashBlock v).
  { unfold FetchCoins in F. destruct (cacheCoins v !! _); [by injection F as <- <-|]. destruct (GetCoins _ _) as [[?|] ?]; by injection F as <- <-. }
  destruct o as [c|]; [|by intros [= _ <-]]. destruct (IsAvailable _ _); [|by intros [= _ <-]]. intros H. apply IH in H. congruence.
Qed.

(** The pool stays and the tip is read. *)
Definition pool_reads (b b' : CCoinsViewMemPool (CCoinsViewCache V)) : Prop :=
  mempool b' = mempool b /\ reads (pool_base b) (pool_base b').

#[local] Instance pool_reads_preorder : PreOrder pool_reads.
Proof using.
  split; [intros b; by split|]. intros b1 b2 b3 [E1 H1] [E2 H2]. split; [congruence | by etransitivity].
Qed.

Lemma pool_GetCoins_reads t (b : CCoinsViewMemPool (CCoinsViewCache V)) r b' : GetCoins t b = (r, b') -> pool_reads b b'.
Proof using ReadableView0.
  cbn. destruct (lookup t (mempool b)); [by intros [= _ <-]|].
  pose proof (GetCoins_reads (W := CCoinsViewCache V) t (pool_base b)) as G. cbn in G.
  destruct (FetchCoins t (pool_base b)) as [[c|] w]; intros [= _ <-]; (split; [done|]); by eapply G.
Qed.

Lemma pool_GetBestBlock_reads (b : CCoinsViewMemPool (CCoinsViewCache V)) h b' : GetBestBlock b = (h, b') -> pool_reads b b'.
Proof using ReadableView0.
  cbn. pose proof (GetBestBlock_reads (W := CCoinsViewCache V) (pool_base b)) as G. cbn in G.
  destruct (Cache_GetBestBlock (pool_base b)) as [h' w]. intros [= _ <-]. split; [done | by eapply G].
Qed.

Lemma fetch_inputs_behind state tx view r view' : fetch_inputs state tx view = (r, view') -> pool_reads (base view) (base view').
Proof using ReadableView0.
  pose proof pool_GetCoins_reads as G1. pose proof pool_GetBestBlock_reads as G2.
  unfold fetch_inputs. destruct (Cache_HaveCoins (GetHash tx) view) as [b v1] eqn:E1.
  apply (HaveCoins_behind pool_reads G1) in E1. destruct b; [by intros [= _ <-]|].
  destruct (inputs_known (vin tx) v1) as [b v2] eqn:E2.
  assert (H2 : pool_reads (base v1) (base v2)).
  { clear - E2 G1. revert v1 b v2 E2. induction (vin tx) as [|i l IH]; intros v1 b v2; cbn [inputs_known]; [by intros [= _ <-]|].
    destruct (Cache_HaveCoins (hash (prevout i)) v1) as [c w] eqn:F. apply (HaveCoins_behind pool_reads G1) in F.
    destruct c; [|by intros [= _ <-]]. intros H. etransitivity; [exact F | by eapply IH]. }
  assert (H12 : pool_reads (base view) (base v2)) by (by etransitivity). destruct b; [|by intros [= _ <-]].
  destruct (HaveInputs tx v2) as [b v3] eqn:E3. apply (HaveInputs_behind pool_reads G1) in E3.
  assert (H13 : pool_reads (base view) (base v3)) by (by etransitivity). destruct b; [|by intros [= _ <-]].
  destruct (Cache_GetBestBlock v3) as [h v4] eqn:E4. apply (GetBestBlock_behind pool_reads G2) in E4.
  assert (H14 : pool_reads (base view) (base v4)) by (by etransitivity).
  destruct (GetValueIn tx v4) as [k v5] eqn:E5.
  assert (H5 : pool_reads (base v4) (base v5)).
  { unfold GetValueIn in E5. destruct (IsCoinBase tx); [by injection E5 as _ <-|]. by apply (value_in_behind pool_reads G1) in E5. }
  destruct k; intros [= _ <-]; by etransitivity.
Qed.

Lemma fetch_inputs_spec state tx view r view' : wf view -> positioned (vin tx) -> IsCoinBase tx = false -> best view <> uint256_0 ->
  fetch_inputs state tx view = (r, view') ->
  unchanged view view' /\ r <> None /\
  (forall v, r = Some (inl v) -> accepted v = false) /\
  (forall nValueIn, r = Some (inr nValueIn) ->
     utxo view (GetHash tx) = None /\ loaded view' (vin tx) /\ is_zero (hashBlock view') = false /\
     exists ins, all_spent (utxo view) (vin tx) ins /\ nValueIn = total_in ins).
Proof using All.
  intros Hwf Hp Hcb Hbest. unfold fetch_inputs. destruct (Cache_HaveCoins (GetHash tx) view) as [b v1] eqn:E1.
  destruct (Cache_HaveCoins_law _ _ _ _ Hwf E1) as [U1 Hb1]. destruct b.
  { intros [= <- <-]. split; [done|]. split; [done|]. split; [by intros v [= <-] | done]. }
  assert (Hnew : utxo view (GetHash tx) = None).
  { destruct (utxo view (GetHash tx)) eqn:Eu; [|done]. discriminate (proj2 Hb1 ltac:(discriminate)). }
  destruct (inputs_known (vin tx) v1) as [b v2] eqn:E2. destruct (inputs_known_spec _ _ _ _ (proj1 U1) E2) as [U2 Hl].
  pose proof (unchanged_trans _ _ _ U1 U2) as U12. destruct b.
  2: { intros [= <- <-]. split; [done|]. split; [done|]. split; [by intros v [= <-] | done]. }
  destruct (HaveInputs tx v2) as [b v3] eqn:E3. destruct (HaveInputs_spec _ _ _ _ Hp (proj1 U12) E3) as [U3 Hb3].
  pose proof (unchanged_trans _ _ _ U12 U3) as U13. destruct b.
  2: { intros [= <- <-]. split; [done|]. split; [done|]. split; [by intros v [= <-] | done]. }
  rewrite Hcb in Hb3. destruct (proj1 Hb3 eq_refl) as [?|[ins Hins]]; [done|].
  destruct (Cache_GetBestBlock v3) as [h v4] eqn:E4. destruct (Cache_GetBestBlock_law _ _ _ (proj1 U13) E4) as [U4 Hh].
  pose proof (unchanged_trans _ _ _ U13 U4) as U14.
  assert (Hz : is_zero (hashBlock v4) = false).
  { assert (best v3 <> uint256_0) as Hb by (rewrite (proj2 (proj2 (proj2 U13))); exact Hbest). rewrite <- Hh in Hb.
    unfold Cache_GetBestBlock in E4. destruct (is_zero (hashBlock v3)) eqn:Ez.
    - destruct (GetBestBlock (base v3)) as [h' b']. injection E4 as <- <-. cbn. by apply bool_decide_eq_false.
    - by injection E4 as <- <-. }
  assert (Hs : all_spent (utxo v4) (vin tx) ins) by (eapply all_spent_unchanged; [|eassumption]; by eapply unchanged_trans).
  unfold GetValueIn. rewrite Hcb. destruct (value_in_spec (vin tx) ins v4 0 Hp (proj1 U14) Hs) as (v5 & E5 & U5). rewrite E5.
  intros [= <- <-]. pose proof (unchanged_trans _ _ _ U14 U5) as U15.
  split; [done|]. split; [done|]. split; [done|]. intros k [= <-]. split; [done|]. split; [|split].
  - eapply loaded_unchanged; [exact (unchanged_trans _ _ _ U3 (unchanged_trans _ _ _ U4 U5))|]. by apply Hl.
  - by rewrite (value_in_hashBlock _ _ _ _ _ E5).
  - exists ins. split; [|lia]. eapply Forall2_impl; [|exact Hins]. intros i p. cbn beta. by rewrite (spent_unchanged _ _ _ U12).
Qed.
End Fetch.

(** ** The policy and the checks over the cache *)

(** The same transactions; the deltas may differ. *)
Definition same_txs (p p' : CTxMemPool) : Prop :=
  mapTx p' = mapTx p /\ mapNextTx p' = mapNextTx p /\ totalTxSize p' = totalTxSize p /\ fSanityCheck p' = fSanityCheck p /\
  minerPolicyEstimator p' = minerPolicyEstimator p.

Lemma same_txs_refl p : same_txs p p.
Proof. done. Qed.

Lemma holds_same p p' l : same_txs p p' -> holds p l -> holds p' l.
Proof. intros (E1 & E2 & E3 & _) [H1 H2 H3 H4]. by split; rewrite ?E1, ?E2, ?E3. Qed.

Section Policy.
Context {V : Type} `{!CCoinsView V} {params : CChainParams}.
Variable Verify : list Z -> list Z -> list Z -> bool.
Variable block_height : list Z -> option Z.
Variable pow : Double.double -> Double.double -> Double.double.
Variable nd : node.
Context {W : Type} `{!CCoinsView W}.
Implicit Types (v : CCoinsViewCache W) (s : globals (V := V)).

Lemma input_policy_spec state tx v r w : loaded v (vin tx) -> input_policy nd state tx (SetBackend Null v) = Some (r, w) ->
  w = SetBackend Null v /\ forall vd, r = inl vd -> accepted vd = false.
Proof using CCoinsView1.
  intros Hl. unfold input_policy.
  destruct (steady_null v _ (AreInputsStandard_steady v tx Hl)) as (r1 & E1 & _).
  destruct (steady_null v _ (GetP2SHSigOpCount_steady v tx Hl)) as (r2 & E2 & _).
  assert (H : exists r3, (if RequireStandard nd then AreInputsStandard tx (SetBackend Null v) else (Some true, SetBackend Null v)) = (r3, SetBackend Null v)).
  { destruct (RequireStandard nd); [by exists r1 | by exists (Some true)]. }
  destruct H as [r3 ->]. destruct r3 as [[|]|]; [|by intros [= <- <-]; split; [|intros vd [= <-]]|done].
  rewrite E2. destruct r2 as [k|]; [|done]. destruct (_ >? _); intros [= <- <-]; split; try done. by intros vd [= <-].
Qed.

Lemma PrioritiseTransaction_same h d a p p' : PrioritiseTransaction h d a p = Some p' -> same_txs p p'.
Proof using.
  unfold PrioritiseTransaction. destruct (default _ _) as [d' a']. destruct (add_amount _ _); cbn; [|done]. by intros [= <-].
Qed.

Lemma fee_policy_spec state tx nFees nSize fLimitFree ignoreFees v s r w s' : loaded v (vin tx) ->
  fee_policy pow nd state tx nFees nSize fLimitFree ignoreFees (SetBackend Null v) s = Some (r, w, s') ->
  w = SetBackend Null v /\ pcoinsTip s' = pcoinsTip s /\ same_txs (pool s) (pool s') /\ forall vd, r = inl vd -> accepted vd = false.
Proof using CCoinsView1.
  intros Hl. unfold fee_policy. destruct (bool_decide _).
  { destruct (Double.truncate _) as [d|]; cbn [mbind option_bind]; [|done].
    destruct (PrioritiseTransaction _ _ _ _) as [p|] eqn:Ep; cbn [mbind option_bind]; [|done].
    intros [= <- <- <-]. split; [done|]. split; [done|]. split; [by eapply PrioritiseTransaction_same | done]. }
  destruct ignoreFees; cbn [negb].
  { intros [= <- <- <-]. split; [done|]. split; [done|]. split; [apply same_txs_refl | done]. }
  destruct (GetMinRelayFee _ _ _ _ _) as [txMinFee|]; cbn [mbind option_bind]; [|done].
  destruct (fLimitFree && (nFees <? txMinFee)).
  { intros [= <- <- <-]. split; [done|]. split; [done|]. split; [apply same_txs_refl | by intros vd [= <-]]. }
  destruct (steady_null v _ (GetPriority_steady v tx (chain_height nd + 1) Hl)) as (r1 & E1 & _).
  assert (H : exists o : option (bool * CCoinsViewCache CCoinsViewNull),
    (if relaypriority nd && (nFees <? GetFee (minRelayTxFee nd) nSize) then
       match GetPriority tx (chain_height nd + 1) (SetBackend Null v) with
       | (None, _) => None
       | (Some d, view) => Some (negb (CTxMemPoolEntry.AllowFree d), view)
       end
     else Some (false, SetBackend Null v)) = o /\ forall b w', o = Some (b, w') -> w' = SetBackend Null v).
  { eexists. split; [reflexivity|]. intros b v'. destruct (_ && _); [|by intros [= _ <-]]. rewrite E1. destruct r1; [by intros [= _ <-] | done]. }
  destruct H as (o & -> & Ho). destruct o as [[refused w']|]; cbn [mbind option_bind]; [|done]. rewrite (Ho _ _ eq_refl). destruct refused.
  { intros [= <- <- <-]. split; [done|]. split; [done|]. split; [apply same_txs_refl | by intros vd [= <-]]. }
  destruct (fLimitFree && _).
  - unfold limit_free. destruct (Double.ge _ _); intros [= <- <- <-]; (split; [done|]; split; [done|]; split; [apply same_txs_refl | by intros vd [= <-]]).
  - intros [= <- <- <-]. split; [done|]. split; [done|]. split; [apply same_txs_refl | done].
Qed.

Lemma verify_inputs_spec state tx v r : loaded v (vin tx) -> is_zero (hashBlock v) = false ->
  verify_inputs Verify block_height state tx (SetBackend Null v) = Some r ->
  match r with
  | inl vd => accepted vd = false
  | inr _ => exists l l', CheckInputs Verify block_height tx true STANDARD_SCRIPT_VERIFY_FLAGS false v = (Pass l, v) /\
      CheckInputs Verify block_height tx true MANDATORY_SCRIPT_VERIFY_FLAGS false v = (Pass l', v)
  end.
Proof using CCoinsView1.
  intros Hl Hz. unfold verify_inputs.
  destruct (steady_null v _ (CheckInputs_steady Verify block_height v tx true STANDARD_SCRIPT_VERIFY_FLAGS Hl Hz)) as (r1 & -> & E1).
  destruct (steady_null v _ (CheckInputs_steady Verify block_height v tx true MANDATORY_SCRIPT_VERIFY_FLAGS Hl Hz)) as (r2 & E2 & E2').
  destruct r1 as [l|rj|]; [|by intros [= <-]|done]. rewrite E2. destruct r2 as [l'|rj|]; [|by intros [= <-]|done].
  intros [= <-]. exists l, l'. by rewrite E1, E2'.
Qed.

Lemma accept_cached_spec state tx nValueIn fLimitFree fRejectInsaneFee ignoreFees v s vd s' :
  loaded v (vin tx) -> is_zero (hashBlock v) = false ->
  accept_cached Verify block_height pow nd state tx nValueIn fLimitFree fRejectInsaneFee ignoreFees (SetBackend Null v) s = Some (vd, s') ->
  pcoinsTip s' = pcoinsTip s /\
  if accepted vd then
    (exists l l', CheckInputs Verify block_height tx true STANDARD_SCRIPT_VERIFY_FLAGS false v = (Pass l, v) /\
       CheckInputs Verify block_height tx true MANDATORY_SCRIPT_VERIFY_FLAGS false v = (Pass l', v)) /\
    exists p fee prio, same_txs (pool s) p /\
      pool s' = addUnchecked (GetHash tx) (CTxMemPoolEntry.new tx fee (now nd) prio (T32 (chain_height nd))) p
  else same_txs (pool s) (pool s').
Proof using CCoinsView1.
  intros Hl Hz. unfold accept_cached. destruct (input_policy _ _ _ _) as [[r w]|] eqn:E1; cbn [mbind option_bind]; [|done].
  destruct (input_policy_spec _ _ _ _ _ Hl E1) as [-> Hr]. destruct r as [vd0|].
  { intros [= <- <-]. rewrite (Hr _ eq_refl). split; [done | apply same_txs_refl]. }
  destruct (GetValueOut tx) as [out| |]; [|done..].
  destruct (steady_null v _ (GetPriority_steady v tx (chain_height nd) Hl)) as (rp & -> & _). destruct rp as [dPriority|]; [|done].
  destruct (fee_policy _ _ _ _ _ _ _ _ _ _) as [[[r w] s1]|] eqn:E2; cbn [mbind option_bind]; [|done].
  destruct (fee_policy_spec _ _ _ _ _ _ _ _ _ _ _ Hl E2) as (-> & Htip & Hsame & Hr2). destruct r as [vd0|].
  { intros [= <- <-]. rewrite (Hr2 _ eq_refl). by split. }
  destruct (_ && _); [intros [= <- <-]; by split|].
  destruct (verify_inputs _ _ _ _ _) as [r|] eqn:E3; cbn [mbind option_bind]; [|done].
  pose proof (verify_inputs_spec _ _ _ _ Hl Hz E3) as H3. destruct r as [vd0|].
  - intros [= <- <-]. rewrite H3. by split.
  - intros [= <- <-]. cbn [accepted]. split; [done|]. split; [done|]. by eexists (pool s1), _, _.
Qed.
End Policy.

(** ** The whole *)

Section Whole.
Context {V : Type} `{!CCoinsView V, !CoinsSpec V, !ReadableView V} {params : CChainParams}.
Variable Verify : list Z -> list Z -> list Z -> bool.
Variable block_height : list Z -> option Z.
Variable pow : Double.double -> Double.double -> Double.double.
Variable nd : node.
Hypothesis HMaxMoney : 0 <= MaxMoneyOut <= Script.int64_max.
Implicit Types (s : globals (V := V)).

(** The unspent outputs of the tip. *)
Definition tip_coins s : COutPoint -> option coin := coin_at (utxo (pcoinsTip s)).

(** An accepted transaction: its inputs are unspent or outputs of the pool,
    they cover its outputs, no transaction of the pool spends them, and
    their scripts verify under the standard and the mandatory flags. *)
Record acceptable (U : COutPoint -> option coin) (h : Z) (l : list CTransaction) (tx : CTransaction) : Prop := {
  acc_admissible : admissible nd tx;
  acc_new : ~ In (GetHash tx) (ids l);
  acc_fresh : fresh U (GetHash tx);
  acc_unspent : forall o, In o (prevouts tx) -> ~ In o (points l);
  acc_fits : fits (coin_mature (h + 1)) (provided l U) tx;
}.

(** The scripts of its inputs verify. *)
Definition scripts_verify (u : outputs) (l : list CTransaction) (tx : CTransaction) (flags : Z) (p : CTxMemPool) : Prop :=
  exists ins, all_spent (pool_utxo p u) (vin tx) ins /\ scripts_pass Verify tx (checks_of flags 0 ins).

Lemma pool_conflict_false p l tx : holds p l -> pool_conflict tx p = false -> forall o, In o (prevouts tx) -> ~ In o (points l).
Proof using.
  intros H Hc o Ho Hp. apply point_input in Ho as (i & Hi & <-). unfold pool_conflict in Hc. rewrite existsb_false in Hc.
  rewrite List.Forall_forall in Hc. specialize (Hc i Hi). cbn in Hc. apply bool_decide_eq_false in Hc. by apply Hc, (next_In p l _ H).
Qed.

Lemma coin_none_fresh (u : outputs) h : u h = None -> fresh (coin_at u) h.
Proof using. intros E k. unfold coin_at. cbn. by rewrite E. Qed.

(** What [CheckInputs] has checked, over the view of the pool. *)
Lemma checked_inputs {W} `{!CCoinsView W, !CoinsSpec W, !ReadableView W} (v : CCoinsViewCache W) tx flags l h :
  wf v -> loose tx -> block_height (best v) = Some h -> GetValueOut tx = Value (total (Transaction.vout tx)) ->
  CheckInputs Verify block_height tx true flags false v = (Pass l, v) ->
  exists ins, all_spent (utxo v) (vin tx) ins /\ inputs_pass tx (h + 1) (total (Transaction.vout tx)) ins /\
    scripts_pass Verify tx (checks_of flags 0 ins).
Proof using HMaxMoney.
  intros Hwf Hl Hh Ho Hc. destruct (CheckInputs_spec Verify block_height tx true flags false v h _ Hwf (loose_inputs _ Hl) Hh Ho (proj1 HMaxMoney))
    as (r & v' & E & _ & _ & Hr). rewrite E in Hc. injection Hc as -> ->.
  destruct (proj1 (Hr l) eq_refl) as [[_ [Hb|Hb]]|(_ & _ & ins & H1 & H2 & _ & H3)].
  - by rewrite (loose_coinbase _ Hl) in Hb.
  - by rewrite (coinstake_v5 _ (loose_coinstake _ Hl)) in Hb.
  - exists ins. split; [done|]. split; [done | by apply H3].
Qed.

Lemma AcceptToMemoryPool_spec state tx fLimitFree fRejectInsaneFee ignoreFees s l h vd s' :
  wf (pcoinsTip s) -> best (pcoinsTip s) <> uint256_0 -> block_height (best (pcoinsTip s)) = Some h ->
  holds (pool s) l -> tidy l -> positioned (vin tx) ->
  AcceptToMemoryPool Verify block_height pow nd state tx fLimitFree fRejectInsaneFee ignoreFees s = Some (vd, s') ->
  unchanged (pcoinsTip s) (pcoinsTip s') /\ fSanityCheck (pool s') = fSanityCheck (pool s) /\
  if accepted vd
  then acceptable (tip_coins s) h l tx /\ holds (pool s') (tx :: l) /\
       scripts_verify (utxo (pcoinsTip s)) l tx STANDARD_SCRIPT_VERIFY_FLAGS (pool s) /\
       scripts_verify (utxo (pcoinsTip s)) l tx MANDATORY_SCRIPT_VERIFY_FLAGS (pool s)
  else same_txs (pool s) (pool s').
Proof using All.
  intros Hwf Hbest Hh H Hl Hp. unfold AcceptToMemoryPool.
  destruct (admit_tx nd state tx) as [[vd0|st]|] eqn:E0; cbn [mbind option_bind]; [| |done].
  { intros [= <- <-]. split; [by apply unchanged_refl|]. split; [done|].
    assert (accepted vd0 = false) as ->; [|apply same_txs_refl]. revert E0. unfold admit_tx. destruct (CheckTransaction tx state) as [[] ?]; [|by intros [= <-]].
    destruct (ContainsZerocoins tx); [by intros [= <-]|]. destruct (IsCoinBase tx); [by intros [= <-]|].
    destruct (IsCoinStake tx); [by intros [= <-]|]. destruct (RequireStandard nd); [|done].
    destruct (IsStandardTx nd tx) as [[?|]|]; [by intros [= <-] | done | done]. }
  destruct (admit_tx_spec nd HMaxMoney _ _ _ Hp E0) as [-> Had].
  destruct (exists_tx (GetHash tx) (pool s)) eqn:E1; [by intros [= <- <-]; split; [apply unchanged_refl|]|].
  apply (exists_tx_false _ l _ H) in E1.
  destruct (lock_conflict nd tx); [by intros [= <- <-]; split; [apply unchanged_refl|]|].
  destruct (pool_conflict tx (pool s)) eqn:E2; [by intros [= <- <-]; split; [apply unchanged_refl|]|].
  set (view0 := CCoinsViewCache_new (mkPoolView (pcoinsTip s) (pool s))).
  destruct (fetch_inputs state tx view0) as [r view1] eqn:E3.
  assert (Hwf0 : wf view0).
  { split; [exact Hwf|]. split; [done|]. intros t e. cbn. by rewrite lookup_empty. }
  assert (Hu0 : forall t, utxo view0 t = pool_utxo (pool s) (utxo (pcoinsTip s)) t).
  { intros t. cbn. unfold denoted. cbn. by rewrite lookup_empty. }
  assert (Hbest0 : best view0 = best (pcoinsTip s)) by done.
  destruct (fetch_inputs_spec state tx view0 r view1 Hwf0 Hp (loose_coinbase _ (proj1 Had)) ltac:(by rewrite Hbest0) E3)
    as (U & Hr & Hinl & Hinr).
  pose proof U as (Hwf1 & Hu1 & _ & Hb1).
  destruct (fetch_inputs_behind _ _ _ _ _ E3) as [Epool Htip]. specialize (Htip Hwf). cbn [base view0 CCoinsViewCache_new mempool pool_base] in Epool, Htip.
  destruct r as [[vd0|nValueIn]|]; cbn [mbind option_bind]; [| |done].
  { intros [= <- <-]. rewrite (Hinl _ eq_refl). split; [exact Htip|]. by split. }
  destruct (Hinr _ eq_refl) as (Hnew & Hload & Hz & ins & Hins & _).
  destruct (accept_cached _ _ _ _ _ _ _ _ _ _ _ _) as [[vd1 s1]|] eqn:E4; [|done]. intros [= <- <-].
  destruct (accept_cached_spec Verify block_height pow nd _ _ _ _ _ _ _ _ _ _ Hload Hz E4) as [Etip Hres].
  cbn [pcoinsTip with_tip pool] in Etip, Hres. rewrite Etip. split; [exact Htip|]. destruct (accepted vd1).
  2: { split; [apply Hres | exact Hres]. }
  destruct Hres as ((l1 & l2 & C1 & C2) & p & fee & prio & Hsame & Epool'). split; [rewrite Epool'; apply Hsame|].
  pose proof Had as (Hloose & _ & _ & _ & _ & Hval & _).
  assert (Hh1 : block_height (best view1) = Some h) by (by rewrite Hb1, Hbest0).
  destruct (checked_inputs view1 tx _ l1 h Hwf1 Hloose Hh1 Hval C1) as (ins1 & A1 & P1 & S1).
  destruct (checked_inputs view1 tx _ l2 h Hwf1 Hloose Hh1 Hval C2) as (ins2 & A2 & P2 & S2).
  assert (Hsp : forall x, all_spent (utxo view1) (vin tx) x -> all_spent (pool_utxo (pool s) (utxo (pcoinsTip s))) (vin tx) x).
  { intros x Hx. apply (ConnectBlock.all_spent_ext (utxo view1)); [|exact Hx]. intros t. rewrite Hu1. apply Hu0. }
  assert (Hun : forall o, In o (prevouts tx) -> ~ In o (points l)) by (by apply (pool_conflict_false (pool s))).
  split; [|split; [|split]].
  - split; [exact Had | exact E1 | | exact Hun |].
    + apply coin_none_fresh. rewrite Hu0 in Hnew. unfold pool_utxo in Hnew.
      by rewrite (lookup_find _ _ _ H), (proj2 (find_tx_None _ _) E1) in Hnew.
    + exists (map pair_coin ins1), (total (Transaction.vout tx)). split; [exact Hval|].
      apply inputs_pass_coins in P1 as (P1 & P2' & P3). split; [|split; [exact P1|split; [exact P2' | apply P3, Hloose]]].
      eapply Forall2_impl; [|exact (all_spent_coins _ _ _ Hp (Hsp _ A1))]. intros i c. cbn beta.
      by rewrite (pool_utxo_coin (pool s) l _ _ H).
  - rewrite Epool'. apply addUnchecked_holds; [by apply (holds_same (pool s)) | exact Hl | exact E1 | apply Hloose | exact Hun | apply Hloose].
  - exists ins1. split; [by apply Hsp | exact S1].
  - exists ins2. split; [by apply Hsp | exact S2].
Qed.
End Whole.
End MemPoolAccept.
