(* ===== verification/MemPoolCheck.v ===== *)
(** The sanity check of the pool, [CTxMemPool::check]: none of its
    assertions fails, and its loop over the dependent transactions ends, when
    the pool stores transactions that fit on top of the tip. *)
From stdpp Require Import base list gmap fin_maps sets sorting.
From S2P Require Import Prelude Params Transaction TxCheck Coins CoinsView Connect Undo FeeEstimator MemPool CoinSet MemPoolSpec MemPoolOps AcceptToMemoryPool MemPoolAccept.
Open Scope list_scope.

Module MemPoolCheck.
Import Params Transaction TxCheck Coins CoinsView Connect Undo FeeEstimator MemPool CoinSet MemPoolSpec MemPoolOps AcceptToMemoryPool MemPoolAccept.

#[local] Opaque GetHash.

Abbreviation ids l := (map GetHash l) (only parsing).
Abbreviation prevouts tx := (map prevout (vin tx)) (only parsing).
Abbreviation txs es := (map CTxMemPoolEntry.tx es) (only parsing).

(** ** The entries in the order of their keys *)

Lemma ordered_Permutation {A} (m : gmap (list Z) A) : Permutation (ordered m) (map_to_list m).
Proof. apply merge_sort_Permutation. Qed.

Lemma ordered_In {A} (m : gmap (list Z) A) h a : In (h, a) (ordered m) <-> m !! h = Some a.
Proof. rewrite <- elem_of_map_to_list, <- list_elem_of_In, ordered_Permutation. done. Qed.

Lemma points_Permutation {A} (m : gmap COutPoint A) : Permutation (ordered_points m) (map_to_list m).
Proof. apply merge_sort_Permutation. Qed.

(** The transactions of the entries are those of the list. *)
Lemma entries_Permutation p l : holds p l -> tidy l -> Permutation (txs (ordered (mapTx p)).*2) l.
Proof.
  intros H Hl. apply Permutation.NoDup_Permutation.
  - apply (NoDup_map_inv GetHash). rewrite map_map.
    assert (E : map (fun e => GetHash (CTxMemPoolEntry.tx e)) (ordered (mapTx p)).*2 = (ordered (mapTx p)).*1).
    { rewrite <- list_fmap_compose. apply map_ext_in. intros [h e] Hin. cbn. apply ordered_In in Hin. by apply (entry_In _ _ _ _ H) in Hin as [_ ->]. }
    rewrite E, (ordered_Permutation (mapTx p)). apply base.NoDup_ListNoDup, NoDup_fst_map_to_list.
  - apply (NoDup_map_inv GetHash), Hl.
  - intros t. rewrite in_map_iff. split.
    + intros (e & <- & He). apply in_map_iff in He as ([h e'] & <- & He). apply ordered_In in He. by apply (entry_In _ _ _ _ H) in He as [? _].
    + intros Ht. destruct (entry_of p l t H Hl Ht) as (e & He & Et). exists e. split; [exact Et|].
      apply in_map_iff. exists (GetHash t, e). split; [done | by apply ordered_In].
Qed.

Lemma points_cons t l : points (t :: l) = prevouts t ++ points l.
Proof. reflexivity. Qed.

Lemma find_tx_cons h t l : find_tx h (t :: l) = if bool_decide (GetHash t = h) then Some t else find_tx h l.
Proof. reflexivity. Qed.

Section Check.
Context {V : Type} `{!CCoinsView V, !CoinsSpec V, !ReadableView V} {params : CChainParams}.
Variable Verify : list Z -> list Z -> list Z -> bool.
Variable block_height : list Z -> option Z.
Hypothesis HMaxMoney : 0 <= MaxMoneyOut.
Abbreviation duplicate := (CCoinsViewCache (CCoinsViewCache V)) (only parsing).
Implicit Types (dup : duplicate).

Variable pcoins : CCoinsViewCache V.
Variable h : Z.
Variable p : CTxMemPool.
Variable l : list CTransaction.
Abbreviation U := (coin_at (utxo pcoins)).
Abbreviation Q := (coin_mature (h + 1)).
Hypothesis Hwf : wf pcoins.
Hypothesis Hheight : block_height (best pcoins) = Some h.
Hypothesis Hp : holds p l.
Hypothesis Hok : pool_ok Q U l.

(** The unspent outputs after the transactions of [D]. *)
Definition left (D : list CTransaction) (o : COutPoint) : option coin :=
  if decide (o ∈ points D) then None
  else match find_tx (hash o) D with Some t => tx_coin 1000000 t (n o) | None => U o end.

(** The parents of a transaction in the pool are in [D]. *)
Definition prepared (D : list CTransaction) (t : CTransaction) : Prop :=
  forall o, In o (prevouts t) -> In (hash o) (ids l) -> In (hash o) (ids D).

(** The view after the transactions of [D] have been connected to it. *)
Record stands (D : list CTransaction) dup : Prop := {
  st_wf : wf dup;
  st_best : best dup = best pcoins;
  st_coins : forall o, coin_at (utxo dup) o = left D o;
  st_base : unchanged pcoins (base dup);
  st_incl : incl D l;
  st_ids : NoDup (ids D);
  st_prepared : forall t, In t D -> prepared D t;
}.

Lemma tidy_l : tidy l.
Proof using Hok. by eapply pool_tidy. Qed.

(** An input of a transaction that has not been connected. *)
Lemma left_input D t i c : incl D l -> NoDup (ids D) -> In t l -> ~ In (GetHash t) (ids D) -> In i (vin t) ->
  provided l U (prevout i) = Some c ->
  ~ In (prevout i) (points D) /\
  (In (hash (prevout i)) (ids D) -> exists c', left D (prevout i) = Some c' /\ output c' = output c /\ Q c') /\
  (~ In (hash (prevout i)) (ids l) -> left D (prevout i) = Some c) /\
  (In (hash (prevout i)) (ids l) -> ~ In (hash (prevout i)) (ids D) -> left D (prevout i) = None).
Proof using Hok.
  intros HD Hnd Ht Hnew Hi Hc.
  assert (Hpt : ~ In (prevout i) (points D)).
  { intros Hin. apply points_In in Hin as (s & Hs & Ho). apply Hnew. apply in_map_iff. exists s. split; [|done].
    f_equal. apply (points_inj l s t (prevout i)); [apply Hok | by apply HD | exact Ht | exact Ho | by apply in_map]. }
  split; [exact Hpt|]. unfold left. rewrite decide_False by (by rewrite list_elem_of_In). unfold provided in Hc. split; [|split].
  - intros Hin. apply in_map_iff in Hin as (s & Es & Hs). rewrite <- Es in *. rewrite (find_tx_In D s Hnd Hs).
    rewrite (find_tx_In l s (pool_ids _ _ _ Hok) (HD _ Hs)) in Hc.
    destruct (tx_coin_height _ 1000000 _ _ _ Hc) as (Hg & _ & E). eexists. split; [exact E|]. split; [done|].
    unfold coin_mature. cbn [generated]. rewrite Hg. destruct (pool_txs _ _ _ Hok s (HD _ Hs)) as [Hloose _].
    by rewrite (loose_coinbase _ Hloose), (loose_coinstake _ Hloose).
  - intros Hn. rewrite (proj2 (find_tx_None _ _) Hn) in Hc. replace (find_tx (hash (prevout i)) D) with (None : option CTransaction); [exact Hc|].
    symmetry. apply find_tx_None. intros Hin. apply Hn. apply in_map_iff in Hin as (s & <- & Hs). apply in_map. by apply HD.
  - intros Hin Hn. rewrite (proj2 (find_tx_None _ _) Hn). apply in_map_iff in Hin as (s & Es & Hs).
    apply fresh_at. rewrite <- Es. by apply Hok.
Qed.

(** A transaction whose parents are connected can be connected itself. *)
Lemma left_fits D t : incl D l -> NoDup (ids D) -> In t l -> ~ In (GetHash t) (ids D) -> prepared D t -> fits Q (left D) t.
Proof using Hok.
  intros HD Hnd Ht Hnew Hprep. eapply fits_mono; [|exact (proj2 (pool_txs _ _ _ Hok t Ht))].
  intros i c Hi Hc Hq. destruct (left_input D t i c HD Hnd Ht Hnew Hi Hc) as (_ & H1 & H2 & _).
  destruct (in_dec (list_eq_dec Z.eq_dec) (hash (prevout i)) (ids l)) as [Hin|Hn].
  - apply H1, Hprep; [by apply in_map | done].
  - exists c. by rewrite H2.
Qed.

Lemma topo_self t o : In t l -> In o (prevouts t) -> hash o <> GetHash t.
Proof using Hok.
  intros Ht Ho. destruct (in_split t l Ht) as (l1 & l2 & E). pose proof (pool_topo _ _ _ Hok) as Htopo. rewrite E in Htopo.
  clear - Htopo Ho. induction l1 as [|x l1 IH]; cbn in Htopo; [|exact (IH (proj2 Htopo))]. intros Eh. apply (proj1 Htopo o Ho). left. exact (eq_sym Eh).
Qed.

Lemma left_after D t o : incl D l -> In t l -> ~ In (GetHash t) (ids D) -> (forall s, In s D -> prepared D s) ->
  after 1000000 t (left D) o = left (t :: D) o.
Proof using Hok.
  intros HD Ht Hnew Hprep. unfold after, left. rewrite points_cons, find_tx_cons.
  destruct (decide (hash o = GetHash t)) as [Eh|Hne].
  - rewrite bool_decide_eq_true_2 by done. rewrite decide_False; [done|]. rewrite list_elem_of_In, in_app_iff. intros [Hin|Hin].
    + by apply (topo_self t o Ht Hin).
    + apply points_In in Hin as (s & Hs & Ho). apply Hnew. rewrite <- Eh. apply (Hprep s Hs o Ho). rewrite Eh. by apply in_map.
  - rewrite bool_decide_eq_false_2 by congruence.
    assert (Htk : takes_inputs t = true) by (apply loose_takes; by destruct (pool_txs _ _ _ Hok t Ht)).
    rewrite Htk. destruct (decide (true = true /\ o ∈ prevouts t)) as [[_ Hin]|Hn].
    + rewrite decide_True; [done|]. rewrite list_elem_of_In, in_app_iff. left. by apply list_elem_of_In.
    + destruct (decide (o ∈ points D)) as [Hin|Hout].
      * rewrite decide_True; [done|]. rewrite list_elem_of_In, in_app_iff. right. by apply list_elem_of_In.
      * rewrite decide_False; [done|]. rewrite list_elem_of_In, in_app_iff, <- !list_elem_of_In. tauto.
Qed.

(** ** The assertions on one transaction *)

Lemma check_connect_spec D dup t : stands D dup -> In t l -> ~ In (GetHash t) (ids D) -> prepared D t ->
  exists dup', check_connect Verify block_height t dup = Some dup' /\ stands (t :: D) dup'.
Proof using All.
  intros [S1 S2 S3 S4 S5 S6 S7] Ht Hnew Hprep. destruct (pool_txs _ _ _ Hok t Ht) as [Hl _].
  destruct (left_fits D t S5 S6 Ht Hnew Hprep) as (ins & out & Ho & Hins & Hf & Hle & Hout).
  assert (Hins' : all_coins (coin_at (utxo dup)) (vin t) ins).
  { eapply Forall2_impl; [|exact Hins]. intros i c Hi. cbn beta. by rewrite S3. }
  destruct (coins_all_spent _ _ _ (loose_inputs _ Hl) Hins') as (ps & Hps & ->).
  unfold check_connect.
  destruct (CheckInputs_spec Verify block_height t false 0 false dup h out S1 (loose_inputs _ Hl) ltac:(by rewrite S2) Ho HMaxMoney)
    as (r & v & E & Uv & _ & Hr). rewrite E.
  assert (r = Pass []) as ->.
  { apply Hr. right. split; [apply Hl|]. split.
    { apply coinstake_v5, Hl. }
    exists ps. split; [exact Hps|]. split; [|done]. apply inputs_pass_coins. split; [exact Hf|]. done. }
  assert (Hb1 : unchanged pcoins (base v)).
  { eapply unchanged_trans; [exact S4|].
    exact (CheckInputs_behind reads GetCoins_reads Verify block_height GetBestBlock_reads _ _ _ _ _ _ _ E (proj1 S4)). }
  assert (Hco : forall o, coin_at (utxo v) o = left D o) by (intros o; rewrite <- S3; apply coin_at_ext, Uv).
  destruct (UpdateCoins_coin t 1000000 v (proj1 Uv) (loose_inputs _ Hl) (loose_distinct _ Hl)) as (undo & dup' & E' & Hwf' & Hb' & Hc').
  { apply (all_coins_available _ _ (map pair_coin ps)). eapply Forall2_impl; [|exact Hins]. intros i c Hi. cbn beta. by rewrite Hco. }
  rewrite E'. exists dup'. split; [done|]. split.
  - exact Hwf'.
  - rewrite Hb'. transitivity (best dup); [apply Uv | exact S2].
  - intros o. rewrite Hc'. transitivity (after 1000000 t (left D) o); [|by apply left_after].
    unfold after. destruct (decide _); [done|]. by destruct (decide _).
  - eapply unchanged_trans; [exact Hb1|].
    exact (UpdateCoins_behind reads GetCoins_reads _ _ _ _ _ E' (proj1 Hb1)).
  - intros s [<-|Hs]; [exact Ht | by apply S5].
  - cbn. by constructor.
  - intros s [<-|Hs] o Hin Hid; cbn; right; [by apply Hprep | by apply (S7 s)].
Qed.

(** [pcoins->AccessCoins], behind the back of the duplicate. *)
Lemma rebase_stands D dup b : stands D dup -> unchanged (base dup) b -> stands D (with_cache dup b (cacheCoins dup)).
Proof using.
  intros [S1 S2 S3 S4 S5 S6 S7] U1. destruct S1 as (W1 & W2 & W3). split; try done.
  - split; [apply U1|]. split; [exact W2|]. by eapply entries_ok_unchanged.
  - rewrite <- S2. cbn. destruct (is_zero (hashBlock dup)); [apply U1 | done].
  - intros o. rewrite <- S3. apply coin_at_ext. intros t. by apply (denoted_unchanged _ _ _ _ U1).
  - by eapply unchanged_trans.
Qed.

(** The loop over the inputs of an entry. *)
Lemma check_points_spec t dep vin' : forall pre D dup, In t l -> vin t = pre ++ vin' -> stands D dup ->
  exists dep' dup', check_points p (GetHash t) (length pre) vin' dep dup = Some (dep', dup') /\ stands D dup' /\
    (dep' = true <-> dep = true \/ exists i, In i vin' /\ In (hash (prevout i)) (ids l)).
Proof using All.
  revert dep. induction vin' as [|i vin' IH]; intros dep pre D dup Ht E HS; cbn [check_points].
  { exists dep, dup. split; [done|]. split; [done|]. split; [by left | by intros [|(? & [] & _)]]. }
  assert (Hi : In i (vin t)) by (rewrite E; apply in_app_iff; right; by left).
  destruct (pool_txs _ _ _ Hok t Ht) as [Hl Hf]. destruct (fits_coin _ _ _ _ Hf Hi) as (c & Hc & _).
  assert (Hn0 : 0 <= n (prevout i)).
  { pose proof (loose_inputs _ Hl) as Hpos. unfold positioned in Hpos. rewrite List.Forall_forall in Hpos. by apply Hpos. }
  assert (Hit : mapNextTx p !! prevout i = Some (mkInPoint (GetHash t) (length pre))).
  { apply (holds_next _ _ Hp). exists t. split; [done|]. split; [|done]. cbn. rewrite E, map_app, nth_error_app2; rewrite length_map; [|done].
    by rewrite Nat.sub_diag. }
  assert (Hpre : vin t = (pre ++ [i]) ++ vin') by (by rewrite <- app_assoc).
  assert (Hlen : length (pre ++ [i]) = S (length pre)) by (rewrite length_app; cbn; lia).
  rewrite (lookup_find _ _ _ Hp). unfold provided in Hc. destruct (find_tx (hash (prevout i)) l) as [tx2|] eqn:Ef.
  - destruct (tx_coin_output _ _ _ _ Hc) as (Hr & Ho & Hnull).
    destruct (Z.ltb_spec (n (prevout i)) (Z.of_nat (length (Transaction.vout tx2)))) as [_|]; [|lia]. rewrite Ho in Hnull. rewrite Hnull. cbn [negb andb mbind option_bind].
    rewrite Hit. cbn [mbind option_bind ptx nIn]. rewrite decide_True by done. rewrite Nat.eqb_refl.
    destruct (IH true (pre ++ [i]) D dup Ht Hpre HS) as (dep' & dup' & E' & HS' & Hd). rewrite Hlen in E'. exists dep', dup'. split; [exact E'|]. split; [done|].
    rewrite Hd. split; [intros _; right; exists i; split; [by left|] | intros _; by left].
    apply find_tx_Some in Ef as [H2 <-]. by apply in_map.
  - destruct (FetchCoins (hash (prevout i)) (base dup)) as [o b] eqn:F.
    assert (Wb : wf (base dup)) by apply (st_base _ _ HS).
    assert (Hsp : is_Some (spent (utxo (base dup)) i)).
    { rewrite (spent_unchanged _ _ _ (st_base _ _ HS)). rewrite coin_at_spent in Hc by done. destruct (spent (utxo pcoins) i); [by eexists | done]. }
    destruct (fetch_spec i (base dup) o b Hn0 Wb F) as [Ub Ho]. unfold access_base. rewrite F.
    destruct o as [c'|]; [|rewrite Ho in Hsp; by destruct Hsp]. rewrite Ho in Hsp.
    destruct (IsAvailable c' (n (prevout i))); [|by destruct Hsp]. cbn [mbind option_bind].
    rewrite Hit. cbn [mbind option_bind ptx nIn]. rewrite decide_True by done. rewrite Nat.eqb_refl.
    destruct (IH dep (pre ++ [i]) D _ Ht Hpre (rebase_stands _ _ _ HS Ub)) as (dep' & dup' & E' & HS' & Hd). rewrite Hlen in E'. exists dep', dup'. split; [exact E'|]. split; [done|].
    rewrite Hd. apply find_tx_None in Ef. split; intros [|(j & Hj & Hin)]; try (by left).
    + right. exists j. split; [by right | done].
    + destruct Hj as [<-|Hj]; [done|]. right. by exists j.
Qed.

(** ** The loop over the entries *)

Lemma unchanged_stands D dup dup' : stands D dup -> unchanged dup dup' -> unchanged (base dup) (base dup') -> stands D dup'.
Proof using.
  intros [S1 S2 S3 S4 S5 S6 S7] U1 U2. split; try done.
  - apply U1.
  - rewrite <- S2. apply U1.
  - intros o. rewrite <- S3. apply coin_at_ext, U1.
  - by eapply unchanged_trans.
Qed.

Lemma entry_size e : In (GetHash (CTxMemPoolEntry.tx e), e) (ordered (mapTx p)) -> CTxMemPoolEntry.nTxSize e = tx_size (CTxMemPoolEntry.tx e).
Proof using Hp. intros H. apply ordered_In in H. by apply (holds_sizes _ _ Hp) in H. Qed.

Lemma check_entries_spec entries : forall a waiting D dup,
  (forall h e, In (h, e) entries -> mapTx p !! h = Some e) -> NoDup (ids (D ++ txs waiting ++ txs entries.*2)) -> stands D dup ->
  exists D' waiting' dup', check_entries Verify block_height p entries (T64 a) waiting dup =
      Some (T64 (a + pool_size (txs entries.*2)), waiting', dup') /\ stands D' dup' /\
    Permutation (D' ++ txs waiting') (D ++ txs waiting ++ txs entries.*2).
Proof using All.
  induction entries as [|[h' e] entries IH]; intros a waiting D dup He Hnd HS; cbn [check_entries fmap list_fmap snd map].
  { exists D, waiting, dup. rewrite app_nil_r. cbn. rewrite Z.add_0_r. split; [done|]. split; [done|]. done. }
  pose proof (He h' e (or_introl eq_refl)) as Hm. destruct (entry_In _ _ _ _ Hp Hm) as [Hin Eh].
  set (t := CTxMemPoolEntry.tx e) in *. rewrite (holds_sizes _ _ Hp _ _ Hm). fold t. rewrite T64_add.
  cbn [fmap list_fmap snd map] in Hnd. fold t in Hnd.
  assert (He' : forall h e, In (h, e) entries -> mapTx p !! h = Some e) by (intros ? ? ?; apply He; by right).
  destruct (check_points_spec t false (vin t) [] D dup Hin eq_refl HS) as (dep & dup1 & E1 & HS1 & Hdep).
  rewrite Eh in E1. cbn [length] in E1. rewrite E1. cbn [mbind option_bind]. rewrite pool_size_cons, Z.add_assoc.
  destruct dep.
  - destruct (IH (a + tx_size t) (waiting ++ [e]) D dup1 He') as (D' & w' & dup' & E & HS' & HP); [|exact HS1|].
    { rewrite (map_app CTxMemPoolEntry.tx), <- app_assoc. exact Hnd. }
    exists D', w', dup'. split; [exact E|]. split; [done|]. rewrite HP, (map_app CTxMemPoolEntry.tx), <- app_assoc. done.
  - assert (Hperm : Permutation (D ++ txs waiting ++ t :: txs entries.*2) ((t :: D) ++ txs waiting ++ txs entries.*2)).
    { symmetry. rewrite !app_assoc. apply Permutation_middle. }
    assert (Hnd' : NoDup (ids ((t :: D) ++ txs waiting ++ txs entries.*2))).
    { apply (Permutation_NoDup (Permutation_map GetHash Hperm)). exact Hnd. }
    destruct (check_connect_spec D dup1 t HS1 Hin) as (dup2 & E2 & HS2).
    { cbn [app map] in Hnd'. apply NoDup_cons_iff in Hnd' as [Hn _]. intros H. apply Hn. rewrite map_app. apply in_app_iff. by left. }
    { intros o Ho Hid. assert (false = true) as Hf; [|discriminate Hf]. apply Hdep. right.
      apply point_input in Ho as (i & Hi & <-). by exists i. }
    rewrite E2. cbn [mbind option_bind].
    destruct (IH (a + tx_size t) waiting (t :: D) dup2 He' Hnd' HS2) as (D' & w' & dup' & E & HS' & HP).
    exists D', w', dup'. split; [exact E|]. split; [done|]. rewrite HP. by symmetry.
Qed.

(** ** The loop over the transactions that wait *)

Definition ready (D : list CTransaction) (e : CTxMemPoolEntry.t) : Prop := prepared D (CTxMemPoolEntry.tx e).

(** The first transaction that has not been connected can be. *)
Lemma some_prepared D : incl D l -> (exists t, In t l /\ ~ In (GetHash t) (ids D)) ->
  exists t, In t l /\ ~ In (GetHash t) (ids D) /\ prepared D t.
Proof using Hok.
  intros HD Hex.
  assert (G : forall l2 l1, l = l1 ++ l2 -> (forall t, In t l1 -> In (GetHash t) (ids D)) ->
    (exists t, In t l2 /\ ~ In (GetHash t) (ids D)) -> exists t, In t l /\ ~ In (GetHash t) (ids D) /\ prepared D t).
  { induction l2 as [|t l2 IH]; intros l1 E H1 (s & Hs & Hn); [done|].
    destruct (in_dec (list_eq_dec Z.eq_dec) (GetHash t) (ids D)) as [Hin|Hout].
    - apply (IH (l1 ++ [t])); [by rewrite <- app_assoc| |].
      + intros x Hx. apply in_app_iff in Hx as [Hx|[<-|[]]]; [by apply H1 | exact Hin].
      + exists s. split; [|exact Hn]. destruct Hs as [Es|Hs]; [|exact Hs]. destruct Hn. rewrite <- Es. exact Hin.
    - exists t. split; [rewrite E; apply in_app_iff; right; by left|]. split; [exact Hout|].
      intros o Ho Hid. rewrite E, map_app in Hid. apply in_app_iff in Hid as [Hid|Hid].
      + apply in_map_iff in Hid as (x & Ex & Hx). rewrite <- Ex. by apply H1.
      + exfalso. pose proof (pool_topo _ _ _ Hok) as Htopo. rewrite E in Htopo. clear - Htopo Ho Hid.
        induction l1 as [|x l1 IH]; [exact (proj1 Htopo o Ho Hid) | exact (IH (proj2 Htopo))]. }
  by apply (G l []).
Qed.

(** [HaveInputs] tells which. *)
Lemma have_ready D dup t : stands D dup -> In t l -> ~ In (GetHash t) (ids D) ->
  exists b dup', HaveInputs t dup = (b, dup') /\ stands D dup' /\ (b = true <-> prepared D t).
Proof using All.
  intros HS Ht Hnew. destruct (HaveInputs t dup) as [b dup'] eqn:E. exists b, dup'. split; [done|].
  destruct (pool_txs _ _ _ Hok t Ht) as [Hl Hf].
  destruct (HaveInputs_spec _ _ _ _ (loose_inputs _ Hl) (st_wf _ _ HS) E) as [U1 Hb].
  assert (Hbase : unchanged (base dup) (base dup')).
  { exact (HaveInputs_behind reads GetCoins_reads _ _ _ _ E (proj1 (st_wf _ _ HS))). }
  split; [by eapply unchanged_stands|]. rewrite Hb, (loose_coinbase _ Hl). split.
  - intros [?|[ins Hins]]; [done|]. intros o Ho Hid. destruct (in_dec (list_eq_dec Z.eq_dec) (hash o) (ids D)) as [|Hn]; [done|]. exfalso.
    apply point_input in Ho as (i & Hi & <-). destruct (fits_coin _ _ _ _ Hf Hi) as (c & Hc & _).
    destruct (left_input D t i c (st_incl _ _ HS) (st_ids _ _ HS) Ht Hnew Hi Hc) as (_ & _ & _ & Hnone).
    apply (all_spent_coins _ _ _ (loose_inputs _ Hl)), all_coins_available in Hins. rewrite List.Forall_forall in Hins.
    specialize (Hins i Hi). rewrite (st_coins _ _ HS), (Hnone Hid Hn) in Hins. by destruct Hins.
  - intros Hprep. right. destruct (left_fits D t (st_incl _ _ HS) (st_ids _ _ HS) Ht Hnew Hprep) as (ins & out & _ & Hins & _).
    assert (Hins' : all_coins (coin_at (utxo dup)) (vin t) ins).
    { eapply Forall2_impl; [|exact Hins]. intros i c Hi. cbn beta. by rewrite (st_coins _ _ HS). }
    destruct (coins_all_spent _ _ _ (loose_inputs _ Hl) Hins') as (ps & Hps & _). by exists ps.
Qed.

(** The last entries of the queue have been found not to be ready. *)
Lemma check_waiting_spec fuel : forall front back D dup,
  Permutation (D ++ txs (front ++ back)) l -> stands D dup -> Forall (fun e => ~ ready D e) back ->
  (length (front ++ back) * length (front ++ back) + length front <= fuel)%nat ->
  exists dup', check_waiting Verify block_height fuel (front ++ back) (length back) dup = Some dup' /\ unchanged pcoins (base dup').
Proof using All.
  induction fuel as [|fuel IH]; intros front back D dup HP HS Hback Hfuel.
  { destruct (front ++ back) as [|e w] eqn:E; [exists dup; split; [done | exact (st_base _ _ HS)] | cbn in Hfuel; lia]. }
  destruct (front ++ back) as [|e w] eqn:Ew; [exists dup; split; [done | exact (st_base _ _ HS)]|].
  cbn [check_waiting].
  assert (Hex : exists s, In s (e :: w) /\ ready D s).
  { destruct (some_prepared D (st_incl _ _ HS)) as (t & Ht & Hn & Hprep).
    - exists (CTxMemPoolEntry.tx e). split; [eapply Permutation_in; [exact HP|]; apply in_app_iff; right; by left|].
      pose proof (Permutation_NoDup (Permutation_map GetHash (Permutation_sym HP)) (pool_ids _ _ _ Hok)) as Hnd.
      rewrite map_app in Hnd. apply NoDup_app_iff in Hnd as (_ & _ & Hd). intros Hin. apply (Hd _ Hin). by left.
    - eapply Permutation_in in Ht; [|exact (Permutation_sym HP)]. apply in_app_iff in Ht as [Ht|Ht]; [destruct Hn; by apply in_map|].
      apply in_map_iff in Ht as (s & <- & Hs). by exists s. }
  assert (Hin : In (CTxMemPoolEntry.tx e) l) by (eapply Permutation_in; [exact HP|]; apply in_app_iff; right; by left).
  assert (Hnew : ~ In (GetHash (CTxMemPoolEntry.tx e)) (ids D)).
  { pose proof (Permutation_NoDup (Permutation_map GetHash (Permutation_sym HP)) (pool_ids _ _ _ Hok)) as Hnd.
    rewrite map_app in Hnd. apply NoDup_app_iff in Hnd as (_ & _ & Hd). intros Hi. apply (Hd _ Hi). by left. }
  destruct (have_ready D dup _ HS Hin Hnew) as (b & dup1 & -> & HS1 & Hb). destruct b.
  - destruct (check_connect_spec D dup1 _ HS1 Hin Hnew (proj1 Hb eq_refl)) as (dup2 & -> & HS2). cbn [mbind option_bind].
    pose proof (IH w [] (CTxMemPoolEntry.tx e :: D) dup2) as G. rewrite app_nil_r in G. cbn [length] in G. apply G; [|done|constructor|].
    + rewrite <- HP. cbn [map]. by rewrite <- Permutation_middle.
    + cbn [length] in Hfuel. nia.
  - destruct front as [|f front].
    { cbn [app] in Ew. subst back. destruct Hex as (s & Hs & Hr). rewrite List.Forall_forall in Hback. by destruct (Hback s Hs). }
    cbn [app] in Ew. injection Ew as -> <-.
    assert (Hnr : ~ ready D e) by (intros Hr; by apply Hb in Hr).
    destruct front as [|f front].
    { exfalso. destruct Hex as (s & [<-|Hs] & Hr); [done|]. rewrite List.Forall_forall in Hback. by destruct (Hback s Hs). }
    destruct (Nat.ltb_spec (S (length back)) (S (length ((f :: front) ++ back)))) as [_|Hlt]; [|rewrite length_app in Hlt; cbn [length] in Hlt; lia].
    pose proof (IH (f :: front) (back ++ [e]) D dup1) as G. rewrite app_assoc in G.
    replace (length (back ++ [e])) with (S (length back)) in G by (rewrite length_app; cbn; lia). apply G.
    + rewrite <- HP. rewrite map_app. cbn [map]. by rewrite <- Permutation_cons_append.
    + exact HS1.
    + apply Forall_app. split; [done | by constructor].
    + clear - Hfuel. repeat (rewrite length_app in * || cbn [length] in * ).
      replace (S (length front) + length back + 1)%nat with (S (S (length front) + length back)) by lia. lia.
Qed.

(** ** The loop over [mapNextTx] *)

Lemma check_next_spec : check_next p = true.
Proof using Hp Hok.
  unfold check_next. apply forallb_forall. intros [o it] Hin. rewrite <- list_elem_of_In in Hin.
  assert (Hit : mapNextTx p !! o = Some it).
  { apply elem_of_map_to_list. by rewrite <- (points_Permutation (mapNextTx p)). }
  apply (holds_next _ _ Hp) in Hit as (t & Ht & Hn & Hpt). unfold deref. rewrite (lookup_find _ _ _ Hp), Hpt.
  rewrite (find_tx_In l t (pool_ids _ _ _ Hok) Ht). destruct (entry_of p l t Hp tidy_l Ht) as (e & -> & ->).
  rewrite bool_decide_eq_true_2 by done. cbn [andb]. rewrite nth_error_map in Hn.
  destruct (nth_error (vin t) (nIn it)) as [txin|] eqn:En; [|done]. injection Hn as Hn. apply andb_true_iff. split.
  - apply Nat.ltb_lt. apply nth_error_Some. by rewrite En.
  - by apply bool_decide_eq_true_2.
Qed.

(** ** No assertion fails *)

Lemma check_spec : exists pcoins', check Verify block_height pcoins p = Some pcoins' /\ unchanged pcoins pcoins'.
Proof using All.
  unfold check. destruct (fSanityCheck p); cbn [negb]; [|exists pcoins; split; [done | by apply unchanged_refl]].
  pose proof (entries_Permutation p l Hp tidy_l) as HE.
  destruct (check_entries_spec (ordered (mapTx p)) 0 [] [] (CCoinsViewCache_new pcoins)) as (D & w & dup & E & HS & HP).
  - intros k e. apply ordered_In.
  - cbn [app]. apply (Permutation_NoDup (Permutation_map GetHash (Permutation_sym HE))), Hok.
  - split; try done; [by intros x | constructor].
  - change (T64 0) with 0 in E. rewrite E. cbn [mbind option_bind app] in *. rewrite HE in HP.
    destruct (check_waiting_spec (S (length w) * S (length w)) w [] D dup) as (dup' & E' & U').
    + by rewrite app_nil_r.
    + exact HS.
    + constructor.
    + rewrite app_nil_r. lia.
    + rewrite app_nil_r in E'. cbn [length] in E'. rewrite E'. cbn [mbind option_bind]. rewrite check_next_spec.
      rewrite (holds_total _ _ Hp). replace (pool_size (txs (ordered (mapTx p)).*2)) with (pool_size l).
      * rewrite Z.add_0_l, Z.eqb_refl. by exists (base dup').
      * clear - HE. induction HE as [|x l1 l2 _ IH|x y l1|l1 l2 l3 _ IH1 _ IH2]; rewrite ?pool_size_cons; [done | by f_equal | lia | congruence].
Qed.
End Check.
End MemPoolCheck.
