(* ===== verification/MemPoolTip.v ===== *)
(** The pool when the tip of the chain changes: [ConnectTip] and
    [DisconnectTip] leave it consistent with the unspent outputs of the new
    tip, and no assertion on the way fails. *)
From stdpp Require Import base list gmap fin_maps sets.
From S2P Require Import Prelude Double Script Params Serialize Transaction TxCheck Coins CoinsView Connect Undo ConnectBlock FeeEstimator MemPool AcceptToMemoryPool CoinSet MemPoolSpec MemPoolOps MemPoolAccept MemPoolCheck.
Open Scope list_scope.

Module MemPoolTip.
Import Params Transaction TxCheck Coins CoinsView Connect Undo ConnectBlock FeeEstimator MemPool AcceptToMemoryPool CoinSet MemPoolSpec MemPoolOps MemPoolAccept MemPoolCheck.
Import CTxMemPoolEntry(MEMPOOL_HEIGHT).

#[local] Opaque GetHash.

Abbreviation ids l := (map GetHash l) (only parsing).
Abbreviation prevouts tx := (map prevout (vin tx)) (only parsing).
Abbreviation coinset := (COutPoint -> option coin) (only parsing).

(** ** Consistent pools *)

Section Pools.
Context {params : CChainParams}.
Implicit Types (Q : coin -> Prop) (U : coinset) (l : list CTransaction) (p : CTxMemPool).

Lemma input_coin Q U l t o : pool_ok Q U l -> In t l -> In o (prevouts t) -> exists c, provided l U o = Some c /\ Q c.
Proof using.
  intros Hok Ht Ho. apply point_input in Ho as (i & Hi & <-). by apply (fits_coin _ _ _ _ (proj2 (pool_txs _ _ _ Hok t Ht)) Hi).
Qed.

Lemma bounded_by Q U l s : pool_ok Q U l ->
  (forall o c, hash o = GetHash s -> provided l U o = Some c -> 0 <= n o < Z.of_nat (length (Transaction.vout s))) -> bounded l s.
Proof using. intros Hok H t o Ht Ho Eo. destruct (input_coin _ _ _ _ _ Hok Ht Ho) as (c & Hc & _). by apply (H o c). Qed.

Lemma pool_bounded Q U l s : pool_ok Q U l -> In s l -> bounded l s.
Proof using.
  intros Hok Hs. apply (bounded_by Q U); [done|]. intros o c Eo. unfold provided. rewrite Eo, (find_tx_In l s (pool_ids _ _ _ Hok) Hs).
  intros Hc. apply (tx_coin_output _ _ _ _ Hc).
Qed.

(** A weaker demand on the coins, and unspent outputs that say the same. *)
Lemma pool_mono Q Q' U U' l : (forall c, Q c -> Q' c) -> (forall o, U' o = U o) -> pool_ok Q U l -> pool_ok Q' U' l.
Proof using.
  intros HQ HU Hok. rewrite <- (filter_all l). apply (pool_transfer Q Q' U U' _ l Hok); rewrite filter_all.
  - intros t Ht k. rewrite HU. by apply (pool_fresh _ _ _ Hok t Ht).
  - intros t i c _ _ Hc Hq. exists c. split; [|auto]. rewrite <- Hc. unfold provided. by destruct (find_tx _ l).
Qed.

Lemma tx_coin_loose h s k c : loose s -> tx_coin h s k = Some c -> generated c = false.
Proof using. intros Hl Hc. destruct (tx_coin_height _ h _ _ _ Hc) as (-> & _). by rewrite (loose_coinbase _ Hl), (loose_coinstake _ Hl). Qed.

Lemma find_tx_kept keep l s : NoDup (ids l) -> In s l -> keep s = true -> find_tx (GetHash s) (List.filter keep l) = Some s.
Proof using. intros Hnd Hs Hk. rewrite find_tx_filter by done. by rewrite (find_tx_In l s Hnd Hs), Hk. Qed.

Lemma find_tx_not_kept keep l h : find_tx h l = None -> find_tx h (List.filter keep l) = None.
Proof using.
  intros H. apply find_tx_None. apply find_tx_None in H. intros Hin. apply H. apply in_map_iff in Hin as (t & <- & Ht).
  apply filter_In in Ht as [Ht _]. by apply in_map.
Qed.

(** Taking out transactions with all that depends on them; the unspent
    outputs may lose what nothing left needs. *)
Lemma pool_evict Q U U' keep l : pool_ok Q U l -> closed l keep ->
  (forall t, In t l -> keep t = true -> fresh U' (GetHash t)) ->
  (forall t o c, In t l -> keep t = true -> In o (prevouts t) -> find_tx (hash o) l = None -> U o = Some c -> U' o = Some c) ->
  pool_ok Q U' (List.filter keep l).
Proof using.
  intros Hok Hcl Hfr HU. apply (pool_transfer Q Q U U' keep l Hok).
  - intros t Ht. apply filter_In in Ht as [Ht Hk]. by apply Hfr.
  - intros t i c Ht Hi Hc Hq. apply filter_In in Ht as [Ht Hk]. exists c. split; [|done]. revert Hc. unfold provided.
    destruct (find_tx (hash (prevout i)) l) as [s|] eqn:Es.
    + apply find_tx_Some in Es as [Hs Es]. rewrite <- Es. rewrite find_tx_kept; [done | apply Hok | done|].
      destruct (keep s) eqn:Ks; [done|]. pose proof (Hcl t s (prevout i) Ht Hs Ks (input_point _ _ Hi) (eq_sym Es)) as Kt. congruence.
    + intros Hc. rewrite (find_tx_not_kept keep l _ Es). by apply (HU t _ c Ht Hk (input_point _ _ Hi)).
Qed.
End Pools.

(** ** A transaction of a block takes the place of one in the pool *)

Section Step.
Context {params : CChainParams}.
Variable Q : coin -> Prop.
Hypothesis Hgen : forall c, generated c = false -> Q c.
Implicit Types (U : coinset) (l : list CTransaction) (p : CTxMemPool) (b : CTransaction).

(** Why a transaction leaves the pool when [b] is connected: it is [b], or
    it descends from one that spends an input of [b]. *)
Definition evicted_by l b (t : CTransaction) : Prop :=
  GetHash t = GetHash b \/
  exists s o, In s l /\ In o (prevouts b) /\ In o (prevouts s) /\ GetHash s <> GetHash b /\ descends l (GetHash s) (GetHash t).

Lemma evicted_filter keep l b t : evicted_by (List.filter keep l) b t -> evicted_by l b t.
Proof using.
  intros [E|(s & o & Hs & H1 & H2 & H3 & Hd)]; [left; exact E|]. right. exists s, o. apply filter_In in Hs as [Hs _].
  exact (conj Hs (conj H1 (conj H2 (conj H3 (descends_filter _ _ _ _ Hd))))).
Qed.

Lemma pool_connect U U' H b l keep : pool_ok Q U l -> fresh U (GetHash b) -> (forall t, In t l -> GetHash t = GetHash b -> t = b) ->
  (forall o, U' o = after H b U o) -> closed (List.filter (other (GetHash b)) l) keep ->
  (forall t o, In t l -> other (GetHash b) t = true -> keep t = true -> In o (prevouts t) -> ~ In o (prevouts b)) ->
  pool_ok Q U' (List.filter (fun t => other (GetHash b) t && keep t) l).
Proof using Hgen.
  intros Hok Hfr Hsame HU Hcl Hno. apply (pool_transfer Q Q U U' _ l Hok).
  - intros t Ht k. apply filter_In in Ht as [Ht Hk]. apply andb_true_iff in Hk as [Hk _]. apply other_true in Hk.
    rewrite HU. unfold after. cbn [hash]. rewrite decide_False by exact Hk. rewrite (pool_fresh _ _ _ Hok t Ht k). by destruct (decide _).
  - intros t i c Ht Hi Hc Hq. apply filter_In in Ht as [Ht Hk]. apply andb_true_iff in Hk as [Hko Hk].
    pose proof (input_point _ _ Hi) as Ho. set (keeps := fun t => other (GetHash b) t && keep t). revert Hc. unfold provided.
    destruct (find_tx (hash (prevout i)) l) as [s|] eqn:Es.
    + apply find_tx_Some in Es as [Hs Es]. intros Hc. pose proof (tx_coin_loose _ _ _ _ (proj1 (pool_txs _ _ _ Hok s Hs)) Hc) as Hg.
      destruct (decide (GetHash s = GetHash b)) as [Eb|Hne].
      * rewrite (Hsame s Hs Eb) in Hc. replace (find_tx (hash (prevout i)) (List.filter keeps l)) with (None : option CTransaction).
        -- rewrite HU. unfold after. rewrite decide_True by (rewrite <- Es; exact Eb).
           destruct (tx_coin_height _ H _ _ _ Hc) as (_ & _ & ->). eexists. split; [reflexivity|]. split; [done|]. by apply Hgen.
        -- symmetry. apply find_tx_None. intros Hin. apply in_map_iff in Hin as (s' & Es' & Hs'). apply filter_In in Hs' as [_ Hs'].
           apply andb_true_iff in Hs' as [Hs' _]. apply other_true in Hs'. apply Hs'. rewrite Es', <- Es. exact Eb.
      * rewrite <- Es. pose proof (proj2 (other_true _ _) Hne) as Hos. clear Hne.
        rewrite find_tx_kept; [exact (ex_intro _ c (conj Hc (conj eq_refl Hq))) | apply Hok | exact Hs|]. unfold keeps. apply andb_true_iff.
        split; [exact Hos|]. destruct (keep s) eqn:Ks; [reflexivity|]. exfalso. symmetry in Es.
        rewrite (Hcl t s (prevout i) (proj2 (filter_In _ _ _) (conj Ht Hko)) (proj2 (filter_In _ _ _) (conj Hs Hos)) Ks Ho Es) in Hk. discriminate Hk.
    + intros Hc. rewrite (find_tx_not_kept keeps l _ Es). exists c. split; [|exact (conj eq_refl Hq)]. rewrite HU. unfold after.
      rewrite decide_False. 2: { intros E. rewrite <- E in Hfr. rewrite (fresh_at _ _ Hfr) in Hc. discriminate Hc. }
      rewrite decide_False; [exact Hc|]. intros [_ Hin]. apply list_elem_of_In in Hin. by apply (Hno t (prevout i)).
Qed.

Lemma connect_step U U' H b p l conflicts : holds p l -> pool_ok Q U l -> fresh U (GetHash b) ->
  (forall t, In t l -> GetHash t = GetHash b -> t = b) -> (forall o, U' o = after H b U o) ->
  exists keep r p1 rm p2, remove b false [] p = Some (r, p1) /\ removeConflicts b conflicts p1 = Some (conflicts ++ rm, p2) /\
    holds (ClearPrioritisation (GetHash b) p2) (List.filter keep l) /\ pool_ok Q U' (List.filter keep l) /\
    fSanityCheck p2 = fSanityCheck p /\
    (forall t, In t l -> keep t = true -> GetHash t <> GetHash b /\ forall o, In o (prevouts t) -> ~ In o (prevouts b)) /\
    (forall t, In t l -> keep t = false -> evicted_by l b t).
Proof using Hgen.
  intros Hp Hok Hfr Hsame HU. pose proof (pool_tidy _ _ _ Hok) as Hl.
  destruct (remove_one_spec p l b [] Hp Hl) as (r & p1 & E1 & Hp1 & Hr1).
  destruct (removeConflicts_loop_spec b (vin b) p1 _ conflicts Hp1 (tidy_filter _ _ Hl)) as (keep & rm & p2 & E2 & Hp2 & Hcl & Hr2 & Hno & Hev & _).
  { apply bounded_kept. intros s Hs. by eapply pool_bounded. }
  rewrite filter_filter in Hp2. exists (fun t => other (GetHash b) t && keep t), r, p1, rm, p2.
  assert (Hno' : forall t o, In t l -> other (GetHash b) t = true -> keep t = true -> In o (prevouts t) -> ~ In o (prevouts b)).
  { intros t o Ht Hk Hk' Ho Hob. pose proof Hk as Hne. apply other_true in Hne. apply Hne.
    exact (Hno t o (proj2 (filter_In _ _ _) (conj Ht Hk)) Hk' Hob Ho). }
  split; [exact E1|]. split; [exact E2|]. split; [by apply (holds_same p2)|]. split; [by apply (pool_connect U U' H)|]. split.
  - transitivity (fSanityCheck p1); [exact (f_equal (fun x => x.1.1.1) Hr2) | exact (f_equal (fun x => x.1.1.1) Hr1)].
  - split.
    + intros t Ht Hk. apply andb_true_iff in Hk as [Hk Hk']. split; [by apply other_true | intros o Ho; exact (Hno' t o Ht Hk Hk' Ho)].
    + intros t Ht Hk. destruct (other (GetHash b) t) eqn:Ko; cbn [andb] in Hk.
      * destruct (Hev t (proj2 (filter_In _ _ _) (conj Ht Ko)) Hk) as (s & o & Hs & Ho & Hso & Hne & Hd). right. exists s, o.
        apply filter_In in Hs as [Hs _]. exact (conj Hs (conj Ho (conj Hso (conj Hne (descends_filter _ _ _ _ Hd))))).
      * left. unfold other in Ko. apply negb_false_iff, bool_decide_eq_true in Ko. exact Ko.
Qed.
End Step.

(** ** A block takes its transactions out of the pool *)

Section Blocks.
Context {params : CChainParams}.
Variable Verify : list Z -> list Z -> list Z -> bool.
Variable height flags : Z.
Variable fScriptChecks : bool.
Implicit Types (l vtx : list CTransaction) (p : CTxMemPool).

Lemma accepts_after u tx undo created u' : positioned (vin tx) -> accepts Verify height flags fScriptChecks u tx undo created u' ->
  forall o, coin_at u' o = after height tx (coin_at u) o.
Proof using.
  intros Hp Ha o. revert Hp. destruct Ha as [u0 tx0 out u1 Ht _ Hu|u0 tx0 ins undo0 out u1 u2 Ht _ _ _ _ Hs Hu]; intros Hp; rewrite (coin_at_ext _ _ o Hu), add_outputs_coin; unfold after;
    destruct (decide (hash o = _)); try done; rewrite Ht.
  - by rewrite decide_False by (intros [? _]; done).
  - destruct (spends_coin _ _ _ _ Hs Hp) as (_ & _ & ->).
    destruct (decide (o ∈ prevouts tx0)), (decide (true = true /\ o ∈ prevouts tx0)); try done; tauto.
Qed.

Lemma after_fresh h tx (U : coinset) k : fresh U k -> GetHash tx <> k -> fresh (after h tx U) k.
Proof using.
  intros Hf Hne j. unfold after. cbn [hash]. rewrite decide_False by exact (not_eq_sym Hne). rewrite (Hf j). by destruct (decide _).
Qed.

Lemma removeForBlock_loop_spec Q u vtx undos created u' : (forall c, generated c = false -> Q c) ->
  connects Verify height flags fScriptChecks u vtx undos created u' -> Forall (fun tx => positioned (vin tx)) vtx ->
  NoDup (ids vtx) -> (forall b, In b vtx -> fresh (coin_at u) (GetHash b)) ->
  forall l p conflicts, (forall t b, In t l -> In b vtx -> GetHash t = GetHash b -> t = b) ->
  holds p l -> pool_ok Q (coin_at u) l ->
  exists keep rm p', removeForBlock_loop vtx conflicts p = Some (conflicts ++ rm, p') /\
    holds p' (List.filter keep l) /\ pool_ok Q (coin_at u') (List.filter keep l) /\ fSanityCheck p' = fSanityCheck p /\
    (forall t b, In t l -> keep t = true -> In b vtx -> GetHash t <> GetHash b /\ forall o, In o (prevouts t) -> ~ In o (prevouts b)) /\
    (forall t, In t l -> keep t = false -> exists b, In b vtx /\ evicted_by l b t).
Proof using.
  intros Hgen. induction 1 as [u u' Hu|u b undo cr u1 vtx undos crs u' Ha Hcon IH]; intros Hpos Hnd Hfr l p conflicts Hsame Hp Hok; cbn [removeForBlock_loop].
  { exists (fun _ => true), [], p. rewrite app_nil_r, filter_all. split; [done|]. split; [done|]. split; [|done].
    eapply pool_mono; [|intros o; apply coin_at_ext, Hu|exact Hok]. done. }
  apply Forall_cons_iff in Hpos as [Hpb Hpos]. cbn [map] in Hnd. apply NoDup_cons_iff in Hnd as [Hnew Hnd].
  pose proof (accepts_after _ _ _ _ _ Hpb Ha) as Haf.
  destruct (connect_step Q Hgen (coin_at u) (coin_at u1) height b p l conflicts Hp Hok (Hfr b (or_introl eq_refl)))
    as (keep & r & p1 & rm & p2 & E1 & E2 & Hp2 & Hok2 & Es & Hk & Hev).
  { intros t Ht. apply (Hsame t b Ht). by left. }
  { exact Haf. }
  rewrite E1. cbn [mbind option_bind]. rewrite E2. cbn [mbind option_bind].
  destruct (IH Hpos Hnd) with (l := List.filter keep l) (p := ClearPrioritisation (GetHash b) p2) (conflicts := conflicts ++ rm)
    as (keep' & rm' & p3 & E3 & Hp3 & Hok3 & Es3 & Hk' & Hev').
  { intros b' Hb' k. rewrite Haf. apply after_fresh; [apply Hfr; by right|]. intros E. apply Hnew. rewrite E. by apply in_map. }
  { intros t b' Ht Hb'. apply filter_In in Ht as [Ht _]. apply (Hsame t b' Ht). by right. }
  { exact Hp2. }
  { exact Hok2. }
  rewrite filter_filter in Hp3, Hok3. exists (fun t => keep t && keep' t), (rm ++ rm'), p3. rewrite app_assoc.
  split; [exact E3|]. split; [exact Hp3|]. split; [exact Hok3|]. split; [etransitivity; [exact Es3 | exact Es]|]. split.
  - intros t b' Ht Hkt [<-|Hb']; apply andb_true_iff in Hkt as [K1 K2]; [exact (Hk t Ht K1)|].
    exact (Hk' t b' (proj2 (filter_In _ _ _) (conj Ht K1)) K2 Hb').
  - intros t Ht Hkt. destruct (keep t) eqn:K; cbn [andb] in Hkt.
    + destruct (Hev' t (proj2 (filter_In _ _ _) (conj Ht K)) Hkt) as (b' & Hb' & He). exists b'. split; [by right | by eapply evicted_filter].
    + exists b. split; [by left | exact (Hev t Ht K)].
Qed.
End Blocks.

(** ** Connecting a block reads the view behind the cache *)

Section Reading.
Context {W : Type} `{!CCoinsView W, !CoinsSpec W, !ReadableView W} {params : CChainParams}.
Variable Verify : list Z -> list Z -> list Z -> bool.
Variable block_height : list Z -> option Z.
Variable height flags : Z.
Variable fStrict fScriptChecks fThreads : bool.
Implicit Types (v : CCoinsViewCache W).

Lemma overwrites_reads vtx : forall v r v', overwrites vtx v = (r, v') -> reads (base v) (base v').
Proof using ReadableView0.
  induction vtx as [|tx vtx IH]; intros v r v'; cbn [overwrites]; [by intros [= _ <-]|].
  destruct (FetchCoins (GetHash tx) v) as [o w] eqn:F. apply (FetchCoins_behind reads GetCoins_reads) in F.
  assert (Hk : forall r v', overwrites vtx w = (r, v') -> reads (base v) (base v')) by (intros ? ? E; etransitivity; [exact F | by eapply IH]).
  destruct o as [c|]; [|by apply Hk]. destruct (negb (IsPruned c)); [by intros [= _ <-] | by apply Hk].
Qed.

Lemma p2sh_sigops_reads vin : forall n0 v r v', p2sh_sigops vin n0 v = (r, v') -> reads (base v) (base v').
Proof using ReadableView0.
  induction vin as [|i vin IH]; intros n0 v r v'; cbn [p2sh_sigops]; [by intros [= _ <-]|]. unfold GetOutputFor.
  destruct (FetchCoins _ v) as [[c|] w] eqn:F; apply (FetchCoins_behind reads GetCoins_reads) in F; [|by intros [= _ <-]].
  destruct (IsAvailable _ _); [|by intros [= _ <-]]. intros E. etransitivity; [exact F | by eapply IH].
Qed.

Lemma GetValueIn_reads tx v r v' : GetValueIn tx v = (r, v') -> reads (base v) (base v').
Proof using ReadableView0.
  unfold GetValueIn. destruct (IsCoinBase tx); [by intros [= _ <-] | apply (value_in_behind reads GetCoins_reads)].
Qed.

Lemma connect_inputs_reads tx st v r v' :
  connect_inputs Verify block_height flags fStrict fScriptChecks fThreads tx st v = (r, v') -> reads (base v) (base v').
Proof using ReadableView0.
  unfold connect_inputs. destruct (tx_IsZerocoinSpend tx); [by intros [= _ <-]|]. destruct (_ && _); [|by intros [= _ <-]].
  destruct (HaveInputs tx v) as [b v1] eqn:E1. apply (HaveInputs_behind reads GetCoins_reads) in E1. destruct b; [|by intros [= _ <-]].
  destruct (if fStrict then GetP2SHSigOpCount tx v1 else (Some 0, v1)) as [k v2] eqn:E2.
  assert (H2 : reads (base v) (base v2)).
  { etransitivity; [exact E1|]. destruct fStrict; [|by injection E2 as _ <-]. unfold GetP2SHSigOpCount in E2.
    destruct (IsCoinBase tx); [by injection E2 as _ <- | by apply p2sh_sigops_reads in E2]. }
  destruct k as [k|]; [|by intros [= _ <-]]. cbn zeta. destruct (_ && _); [by intros [= _ <-]|].
  destruct (GetValueIn tx v2) as [x v3] eqn:E3. apply GetValueIn_reads in E3.
  assert (H3 : reads (base v) (base v3)) by (etransitivity; [exact H2 | exact E3]). destruct x as [x|]; [|by intros [= _ <-]].
  destruct (if negb (IsCoinStake tx) then _ else _) as [f|]; [|by intros [= _ <-]].
  destruct (CheckInputs Verify block_height tx fScriptChecks flags fThreads v3) as [c v4] eqn:E4.
  apply (CheckInputs_behind reads GetCoins_reads Verify block_height GetBestBlock_reads) in E4.
  assert (H4 : reads (base v) (base v4)) by (etransitivity; [exact H3 | exact E4]). by destruct c; intros [= _ <-].
Qed.

Lemma connect_txs_reads vtx : forall first st v r v',
  connect_txs Verify block_height height flags fStrict fScriptChecks fThreads first vtx st v = (r, v') -> reads (base v) (base v').
Proof using ReadableView0.
  induction vtx as [|tx vtx IH]; intros first st v r v'; cbn [connect_txs]; [by intros [= _ <-]|].
  destruct (connect_tx Verify block_height height flags fStrict fScriptChecks fThreads first tx st v) as [r1 v1] eqn:E1.
  assert (H1 : reads (base v) (base v1)).
  { revert E1. unfold connect_tx. cbn zeta. destruct (_ >? _); [by intros [= _ <-]|]. destruct (_ && _); [by intros [= _ <-]|].
    destruct (connect_inputs _ _ _ _ _ _ _ _ v) as [r2 v2] eqn:E2. apply connect_inputs_reads in E2. destruct r2; [|by intros [= _ <-]..].
    destruct (GetValueOut tx); [|by intros [= _ <-]..].
    destruct (UpdateCoins tx height v2) as [[[b undo] v3]|] eqn:E3; [|by intros [= _ <-]].
    apply (UpdateCoins_behind reads GetCoins_reads) in E3. assert (reads (base v) (base v3)) by (etransitivity; [exact E2 | exact E3]).
    by destruct b; intros [= _ <-]. }
  destruct r1; [|by intros [= _ <-]..]. intros E. etransitivity; [exact H1 | by eapply IH].
Qed.

Lemma ConnectBlock_reads vtx hashBlock v r v' :
  ConnectBlock_txs Verify block_height height flags fStrict fScriptChecks fThreads vtx hashBlock v = (r, v') -> reads (base v) (base v').
Proof using ReadableView0.
  unfold ConnectBlock_txs. destruct (if bip30_exempt height hashBlock then (false, v) else overwrites vtx v) as [b v1] eqn:E1.
  assert (reads (base v) (base v1)) by (destruct (bip30_exempt _ _); [by injection E1 as <- <- | by eapply overwrites_reads]).
  clear E1. rename H into E1. destruct b; [by intros [= _ <-]|].
  destruct (connect_txs _ _ _ _ _ _ _ true vtx totals_start v1) as [r2 v2] eqn:E2. apply connect_txs_reads in E2.
  assert (reads (base v) (base v2)) by (etransitivity; [exact E1 | exact E2]). by destruct r2; intros [= _ <-].
Qed.
End Reading.

(** ** [ConnectTip] *)

Section Connect.
Context {V : Type} `{!CCoinsView V, !CoinsSpec V, !ReadableView V} {params : CChainParams}.
Variable Verify : list Z -> list Z -> list Z -> bool.
Variable block_height : list Z -> option Z.
Hypothesis HMaxMoney : 0 <= MaxMoneyOut.
Implicit Types (s : globals (V := V)).

(** The pool stores transactions that can be connected on top of the tip,
    which is at height [h]. *)
Record consistent (h : Z) (s : globals (V := V)) (l : list CTransaction) : Prop := {
  con_wf : wf (pcoinsTip s);
  con_height : block_height (best (pcoinsTip s)) = Some h;
  con_holds : holds (pool s) l;
  con_ok : pool_ok (coin_mature (h + 1)) (tip_coins s) l;
}.

Lemma unchanged_consistent h s l v : consistent h s l -> unchanged (pcoinsTip s) v -> consistent h (with_tip s v) l.
Proof using.
  intros [C1 C2 C3 C4] U. split; [apply U | | exact C3 |]; cbn [pcoinsTip with_tip].
  - by rewrite (proj2 (proj2 (proj2 U))).
  - eapply pool_mono; [|intros o; apply coin_at_ext, U | exact C4]. done.
Qed.

Lemma check_pool_spec h s l : consistent h s l ->
  exists v, check_pool Verify block_height s = Some (with_tip s v) /\ unchanged (pcoinsTip s) v.
Proof using ReadableView0 HMaxMoney.
  intros [C1 C2 C3 C4]. destruct (check_spec Verify block_height HMaxMoney (pcoinsTip s) h (pool s) l C1 C2 C3 C4) as (v & E & U).
  exists v. unfold check_pool. by rewrite E.
Qed.

Lemma cache_new_wf (v : CCoinsViewCache V) : wf v -> wf (CCoinsViewCache_new v).
Proof using. intros H. split; [exact H|]. split; [done|]. intros t e. cbn. by rewrite lookup_empty. Qed.

Lemma cache_new_utxo (v : CCoinsViewCache V) t : utxo (CCoinsViewCache_new v) t = utxo v t.
Proof using. cbn. unfold denoted. cbn. by rewrite lookup_empty. Qed.

Lemma coin_mature_mono h h' c : h <= h' -> coin_mature h c -> coin_mature h' c.
Proof using. intros Hh H Hg. specialize (H Hg). lia. Qed.

Lemma coin_mature_free h c : generated c = false -> coin_mature h c.
Proof using. intros E H. congruence. Qed.

Variable push_back : forall A : Type, list A -> A -> list A.
Variable random_shuffle : forall A : Type, list A -> list A.

Lemma removeForBlock_spec u vtx undos created u' flags fScriptChecks nHeight h h' l p :
  connects Verify nHeight flags fScriptChecks u vtx undos created u' -> h <= h' -> Forall (fun tx => positioned (vin tx)) vtx ->
  NoDup (ids vtx) -> (forall b, In b vtx -> fresh (coin_at u) (GetHash b)) ->
  (forall t b, In t l -> In b vtx -> GetHash t = GetHash b -> t = b) ->
  holds p l -> pool_ok (coin_mature h) (coin_at u) l ->
  match removeForBlock push_back random_shuffle vtx nHeight [] p with
  | None => seenBlock push_back random_shuffle (omap (fun tx => mapTx p !! GetHash tx) vtx) nHeight (minRelayFee p) (minerPolicyEstimator p) = None
  | Some (conflicts, p') => exists keep,
      holds p' (List.filter keep l) /\ pool_ok (coin_mature h') (coin_at u') (List.filter keep l) /\ fSanityCheck p' = fSanityCheck p /\
      (forall t b, In t l -> keep t = true -> In b vtx -> GetHash t <> GetHash b /\ forall o, In o (prevouts t) -> ~ In o (prevouts b)) /\
      (forall t, In t l -> keep t = false -> exists b, In b vtx /\ evicted_by l b t)
  end.
Proof using.
  intros Hcon Hh Hpos Hnd Hfr Hsame Hp Hok. unfold removeForBlock.
  destruct (seenBlock _ _ _ _ _ _) as [e|]; cbn [mbind option_bind]; [|reflexivity].
  destruct (removeForBlock_loop_spec Verify nHeight flags fScriptChecks (coin_mature h') u vtx undos created u' (coin_mature_free h') Hcon Hpos Hnd Hfr
    l (with_estimator p e) [] Hsame) as (keep & rm & p' & -> & H1 & H2 & H3 & H4).
  { by destruct Hp. }
  { eapply pool_mono; [|intros o; reflexivity|exact Hok]. intros c. by apply coin_mature_mono. }
  exists keep. exact (conj H1 (conj H2 (conj H3 H4))).
Qed.

Lemma connects_ext_end height flags fScriptChecks u vtx undos l u1 u2 : (forall t, u2 t = u1 t) ->
  connects Verify height flags fScriptChecks u vtx undos l u1 -> connects Verify height flags fScriptChecks u vtx undos l u2.
Proof using.
  intros E H. induction H as [u u' E'|u tx undo created v vtx undos l u' Ha H IH]; [constructor; intros t; by rewrite E, E'|].
  econstructor; [exact Ha | by apply IH].
Qed.

Lemma ConnectBlock_hash height flags fStrict fScriptChecks fThreads vtx h (v v' : CCoinsViewCache (CCoinsViewCache V)) st :
  ConnectBlock_txs Verify block_height height flags fStrict fScriptChecks fThreads vtx h v = (Pass st, v') -> CoinsView.hashBlock v' = h.
Proof using.
  unfold ConnectBlock_txs. destruct (if bip30_exempt height h then (false, v) else overwrites vtx v) as [[|] v1]; [done|].
  destruct (connect_txs _ _ _ _ _ _ _ true vtx totals_start v1) as [[?|?|] v2]; try done. by intros [= _ <-].
Qed.

Lemma ConnectTip_pool flags fStrict fScriptChecks fThreads vtx nHeight hashBlock s l :
  consistent (nHeight - 1) s l ->
  Forall (fun tx => positioned (vin tx) /\ tx_IsZerocoinSpend tx = false) vtx -> NoDup (ids vtx) ->
  (forall t b, In t l -> In b vtx -> GetHash t = GetHash b -> t = b) ->
  hashBlock <> uint256_0 -> block_height hashBlock = Some nHeight -> bip30_exempt nHeight hashBlock = false ->
  match ConnectTip Verify block_height push_back random_shuffle flags fStrict fScriptChecks fThreads vtx nHeight hashBlock s with
  | None =>
      (exists tip, unchanged (pcoinsTip s) tip /\
         fst (ConnectBlock_txs Verify block_height nHeight flags fStrict fScriptChecks fThreads vtx hashBlock (CCoinsViewCache_new tip)) = Aborts) \/
      seenBlock push_back random_shuffle (omap (fun tx => mapTx (pool s) !! GetHash tx) vtx) nHeight (minRelayFee (pool s))
        (minerPolicyEstimator (pool s)) = None
  | Some (inl (_, s')) => unchanged (pcoinsTip s) (pcoinsTip s') /\ pool s' = pool s
  | Some (inr s') => exists undos created keep,
      connects Verify nHeight flags fScriptChecks (utxo (pcoinsTip s)) vtx undos created (utxo (pcoinsTip s')) /\
      best (pcoinsTip s') = hashBlock /\ consistent nHeight s' (List.filter keep l) /\ fSanityCheck (pool s') = fSanityCheck (pool s) /\
      (forall t b, In t l -> keep t = true -> In b vtx -> GetHash t <> GetHash b /\ forall o, In o (prevouts t) -> ~ In o (prevouts b)) /\
      (forall t, In t l -> keep t = false -> exists b, In b vtx /\ evicted_by l b t)
  end.
Proof using ReadableView0 HMaxMoney.
  intros HC Hvtx Hnd Hsame Hh0 Hh Hex. unfold ConnectTip. destruct (check_pool_spec _ s l HC) as (tip & -> & U0). cbn [mbind option_bind].
  pose proof (unchanged_consistent _ _ _ _ HC U0) as [C1 C2 C3 C4]. cbn [pcoinsTip with_tip pool] in *.
  destruct (ConnectBlock_txs _ _ _ _ _ _ _ vtx hashBlock (CCoinsViewCache_new tip)) as [r view] eqn:E.
  pose proof (ConnectBlock_reads _ _ _ _ _ _ _ _ _ _ _ _ E C1) as Hread. cbn [base CCoinsViewCache_new] in Hread.
  pose proof (unchanged_trans _ _ _ U0 Hread) as U1.
  destruct r as [st|rj|]; [|by split|left; exists tip; by rewrite E].
  destruct (queue_ok Verify (vChecks st)) eqn:Eq; cbn [negb]; [|by split].
  assert (Hq : queue_passes Verify (vChecks st)).
  { apply List.Forall_forall. intros x Hx. unfold queue_ok in Eq. rewrite forallb_forall in Eq. specialize (Eq x Hx).
    by destruct (run_check Verify x.1 x.2) as [[|]|]. }
  destruct (ConnectBlock_spec Verify block_height nHeight flags fStrict fScriptChecks fThreads HMaxMoney vtx hashBlock _ st view
    (cache_new_wf tip C1) Hvtx C2 E Hq) as (undos & created & Hcon & Hwf & Hnew & _).
  assert (Hcon' : connects Verify nHeight flags fScriptChecks (utxo (pcoinsTip s)) vtx undos created (utxo view)).
  { eapply connects_ext; [|exact Hcon]. intros t. rewrite cache_new_utxo. apply U0. }
  destruct (Flush_cache view Hwf) as (v2 & E2 & Hwf2 & _ & _ & Hu2 & Hb2). rewrite E2. cbn [mbind option_bind].
  pose proof (ConnectBlock_hash _ _ _ _ _ _ _ _ _ _ E) as Eh. destruct (Hb2 ltac:(by rewrite Eh)) as [Hbest _].
  assert (Hbest' : best (base v2) = hashBlock).
  { rewrite Hbest. cbn. rewrite Eh. unfold is_zero. by rewrite bool_decide_eq_false_2. }
  assert (Hpos : Forall (fun tx => positioned (vin tx)) vtx) by (eapply Forall_impl; [|exact Hvtx]; by intros tx [? _]).
  assert (Hfr : forall b, In b vtx -> fresh (coin_at (utxo (pcoinsTip s))) (GetHash b)).
  { intros b Hb. apply coin_none_fresh. rewrite <- (proj1 (proj2 U0)), <- cache_new_utxo. by apply Hnew. }
  assert (Hok : pool_ok (coin_mature (nHeight - 1 + 1)) (coin_at (utxo (pcoinsTip s))) l) by apply HC.
  pose proof (removeForBlock_spec _ vtx undos created _ flags fScriptChecks nHeight (nHeight - 1 + 1) (nHeight + 1) l (pool s)
    Hcon' ltac:(lia) Hpos Hnd Hfr Hsame C3 Hok) as HR.
  destruct (removeForBlock _ _ _ _ _ _) as [[conflicts p']|]; cbn [mbind option_bind]; [|by right].
  destruct HR as (keep & H1 & H2 & H3 & H4).
  set (s1 := with_tip (with_pool s p') (base v2)).
  assert (Hw2 : wf (base v2)) by apply Hwf2.
  assert (HC1 : consistent nHeight s1 (List.filter keep l)).
  { split; [exact Hw2 | by unfold s1; cbn [pcoinsTip with_tip]; rewrite Hbest' | exact H1 |].
    eapply pool_mono; [|intros o; apply coin_at_ext, Hu2|exact H2]. done. }
  change (with_tip (with_pool (with_tip s tip) p') (base v2)) with s1.
  destruct (check_pool_spec _ s1 _ HC1) as (v3 & E3 & U3). rewrite E3. cbn [mbind option_bind].
  exists undos, created, keep. split.
  { eapply connects_ext_end; [|exact Hcon']. intros t. cbn [pcoinsTip with_tip]. rewrite (proj1 (proj2 U3)). apply Hu2. }
  split; [cbn [pcoinsTip with_tip]; by rewrite (proj2 (proj2 (proj2 U3)))|].
  split; [by apply unchanged_consistent|]. split; [exact H3 | exact H4].
Qed.
End Connect.

(** ** [removeCoinbaseSpends] *)

Section Immature.
Context {V : Type} `{!CCoinsView V, !CoinsSpec V, !ReadableView V} {params : CChainParams}.
Variable H : Z.
Hypothesis HH : 0 <= H < 2 ^ 32.
Hypothesis HMat : 0 <= COINBASE_MATURITY < 2 ^ 32.
Implicit Types (v : CCoinsViewCache V) (U : coinset).

(** An input of the chain that is gone or may not be spent yet at [H]. *)
Definition immature_input (l : list CTransaction) U (o : COutPoint) : bool :=
  match find_tx (hash o) l with
  | Some _ => false
  | None => match U o with Some c => generated c && (H - coin_height c <? COINBASE_MATURITY) | None => true end
  end.

Definition immature_tx (l : list CTransaction) U (t : CTransaction) : bool := existsb (immature_input l U) (prevouts t).

(** The coins are of the blocks up to [H]. *)
Definition recorded U : Prop := forall o c, U o = Some c -> 0 <= coin_height c <= H.

Lemma spends_immature_spec p l U inputs : holds p l -> recorded U -> positioned inputs ->
  (forall i, In i inputs -> exists c, provided l U (prevout i) = Some c) ->
  forall v, wf v -> (forall o, coin_at (utxo v) o = U o) ->
  exists v', spends_immature p H inputs v = Some (existsb (immature_input l U) (map prevout inputs), v') /\ unchanged v v'.
Proof using All.
  intros Hp Hrec Hpos Hin. induction inputs as [|i inputs IH]; intros v Hwf HU; cbn [spends_immature map existsb].
  { exists v. split; [done | by apply unchanged_refl]. }
  apply Forall_cons_iff in Hpos as [Hn Hpos]. destruct (Hin i (or_introl eq_refl)) as (c & Hc).
  assert (Hin' : forall j, In j inputs -> exists c, provided l U (prevout j) = Some c) by (intros j Hj; apply Hin; by right).
  unfold immature_input at 1. unfold provided in Hc. destruct (find_tx (hash (prevout i)) l) as [s|] eqn:Es.
  - assert (exists_tx (hash (prevout i)) p = true) as ->.
    { apply (exists_tx_In p l _ Hp). apply find_tx_Some in Es as [Hs <-]. by apply in_map. }
    by apply IH.
  - assert (exists_tx (hash (prevout i)) p = false) as ->.
    { apply (exists_tx_false p l _ Hp). by apply find_tx_None. }
    destruct (FetchCoins (hash (prevout i)) v) as [o v1] eqn:F. destruct (FetchCoins_law _ _ _ _ Hwf F) as [U1 Ho].
    rewrite Hc. pose proof Hc as Hc'. rewrite <- HU in Hc'. unfold coin_at in Hc'.
    destruct o as [cs|]; [|by rewrite Ho in Hc'].
    destruct Ho as (_ & Hu & _). assert (generated c = (fCoinBase cs || fCoinStake cs) /\ coin_height c = Coins.nHeight cs) as [-> Eh].
    { rewrite Hu in Hc'. rewrite unpruned_coin in Hc'. unfold coin_of in Hc'. destruct (_ && _); [|done]. by injection Hc' as <-. }
    pose proof (Hrec _ _ Hc) as Hr. rewrite Eh in *.
    replace (T32 (H - Coins.nHeight cs) <? T32 COINBASE_MATURITY) with (H - Coins.nHeight cs <? COINBASE_MATURITY).
    2: { rewrite !T32_mod, !Z.mod_small by lia. done. }
    destruct (_ && _); cbn [orb].
    + by exists v1.
    + destruct (IH Hpos Hin' v1 (proj1 U1)) as (v2 & E & U2).
      { intros o. rewrite <- HU. apply coin_at_ext, U1. }
      exists v2. split; [exact E | by eapply unchanged_trans].
Qed.

Lemma immature_txs_spec p l U Q : holds p l -> recorded U -> pool_ok Q U l -> forall entries v,
  (forall h e, In (h, e) entries -> In (CTxMemPoolEntry.tx e) l) -> wf v -> (forall o, coin_at (utxo v) o = U o) ->
  exists v', immature_txs p H entries v = Some (List.filter (immature_tx l U) (map CTxMemPoolEntry.tx entries.*2), v') /\ unchanged v v'.
Proof using All.
  intros Hp Hrec Hok. induction entries as [|[h e] entries IH]; intros v He Hwf HU; cbn [immature_txs fmap list_fmap snd map List.filter].
  { exists v. split; [done | by apply unchanged_refl]. }
  set (t := CTxMemPoolEntry.tx e). pose proof (He h e (or_introl eq_refl)) as Ht. fold t in Ht.
  destruct (pool_txs _ _ _ Hok t Ht) as [Hl Hf].
  destruct (spends_immature_spec p l U (vin t) Hp Hrec (loose_inputs _ Hl)) with (v := v) as (v1 & E1 & U1); [|done|done|].
  { intros i Hi. destruct (fits_coin _ _ _ _ Hf Hi) as (c & Hc & _). by exists c. }
  rewrite E1. cbn [mbind option_bind].
  destruct (IH v1) as (v2 & E2 & U2); [intros ? ? Hin; apply (He h0); by right | apply U1 | intros o; rewrite <- HU; apply coin_at_ext, U1|].
  rewrite E2. cbn [mbind option_bind]. exists v2. split; [|by eapply unchanged_trans].
  fold (immature_tx l U t). by destruct (immature_tx l U t).
Qed.

Lemma removeCoinbaseSpends_spec p l v : let U := coin_at (utxo v) in
  wf v -> holds p l -> pool_ok (fun _ => True) U l -> recorded U ->
  exists p' v' keep, removeCoinbaseSpends H v p = Some (p', v') /\ unchanged v v' /\ holds p' (List.filter keep l) /\
    pool_ok (coin_mature H) U (List.filter keep l) /\ rest p' = rest p /\
    (forall t, In t l -> keep t = false <-> exists s, In s l /\ immature_tx l U s = true /\ descends l (GetHash s) (GetHash t)).
Proof using All.
  intros U Hwf Hp Hok Hrec. unfold removeCoinbaseSpends.
  assert (Hent : forall h e, In (h, e) (ordered (mapTx p)) -> In (CTxMemPoolEntry.tx e) l).
  { intros h e Hin. apply ordered_In in Hin. by apply (entry_In _ _ _ _ Hp) in Hin as [? _]. }
  destruct (immature_txs_spec p l U _ Hp Hrec Hok _ v Hent Hwf ltac:(done)) as (v' & E & Uv). rewrite E. cbn [mbind option_bind].
  pose proof (entries_Permutation p l Hp (pool_tidy _ _ _ Hok)) as HE.
  set (ts := List.filter (immature_tx l U) _) in *.
  assert (Hts : forall t, In t ts <-> In t l /\ immature_tx l U t = true).
  { intros t. unfold ts. rewrite filter_In. split; intros [Ht ?]; (split; [|done]); eapply Permutation_in; [exact HE | done | exact (Permutation_sym HE) | done]. }
  destruct (remove_all_spec ts p l Hp (pool_tidy _ _ _ Hok)) as (keep & p' & E' & Hp' & Hrm & Hrest).
  { intros s Hs. by eapply pool_bounded. }
  { intros s Hs. apply Hts in Hs as [Hs _]. by eapply pool_bounded. }
  rewrite E'. cbn [mbind option_bind]. exists p', v', keep. split; [done|]. split; [done|]. split; [done|]. split; [|split; [done|]].
  - apply (pool_transfer (fun _ => True) _ U U keep l Hok).
    + intros t Ht. apply filter_In in Ht as [Ht _]. by apply Hok.
    + intros t i c Ht Hi Hc _. apply filter_In in Ht as [Ht Hk]. exists c. pose proof (input_point _ _ Hi) as Ho. revert Hc. unfold provided.
      destruct (find_tx (hash (prevout i)) l) as [s|] eqn:Es.
      * intros Hc. apply find_tx_Some in Es as [Hs Es]. pose proof (tx_coin_loose _ _ _ _ (proj1 (pool_txs _ _ _ Hok s Hs)) Hc) as Hg.
        rewrite <- Es, find_tx_kept; [split; [exact Hc|]; split; [done | by apply coin_mature_free] | apply Hok | exact Hs |].
        destruct (keep s) eqn:Ks; [done|]. pose proof (removes_closed _ _ _ Hrm t s (prevout i) Ht Hs Ks Ho (eq_sym Es)) as Kt. congruence.
      * intros Hc. rewrite (find_tx_not_kept keep l _ Es). split; [exact Hc|]. split; [done|]. intros Hg.
        destruct (immature_tx l U t) eqn:Ei.
        { rewrite (removes_txs _ _ _ Hrm t) in Hk; [done | by apply Hts | done]. }
        unfold immature_tx in Ei. rewrite existsb_false in Ei. rewrite List.Forall_forall in Ei. specialize (Ei _ Ho). unfold immature_input in Ei.
        rewrite Es, Hc, Hg in Ei. cbn [andb] in Ei. apply Z.ltb_ge in Ei. done.
  - intros t Ht. split.
    + intros Hk. destruct (removes_only _ _ _ Hrm t Ht Hk) as (s & Hs & Hd). apply Hts in Hs as [Hs Hi]. by exists s.
    + intros (s & Hs & Hi & Hd).
      assert (G : forall h, descends l (GetHash s) h -> exists x, In x l /\ GetHash x = h /\ keep x = false).
      { clear t Ht Hd. induction 1 as [|t o _ (x & Hx & Ex & Kx) Ht Ho].
        - exists s. split; [exact Hs|]. split; [reflexivity|]. apply (removes_txs _ _ _ Hrm); [by apply Hts | exact Hs].
        - exists t. split; [exact Ht|]. split; [reflexivity|]. exact (removes_closed _ _ _ Hrm t x o Ht Hx Kx Ho (eq_sym Ex)). }
      destruct (G _ Hd) as (x & Hx & Ex & Kx). rewrite <- (ids_inj l x t (pool_ids _ _ _ Hok) Hx Ht Ex). exact Kx.
Qed.
End Immature.
End MemPoolTip.
