(* ===== verification/MemPoolReorg.v ===== *)
(** Disconnecting the tip: the transactions of the block go back to the pool
    one by one, while those that wait for the rest of the block are still
    there; in the end the pool is consistent with the tip before the block. *)
From stdpp Require Import base list gmap fin_maps sets.
From S2P Require Import Prelude Double Script Params Serialize Transaction TxCheck Coins CoinsView Connect Undo ConnectBlock FeeEstimator MemPool AcceptToMemoryPool CoinSet MemPoolSpec MemPoolOps MemPoolAccept MemPoolCheck MemPoolTip.
Open Scope list_scope.

Module MemPoolReorg.
Import Params Transaction TxCheck Coins CoinsView Connect Undo ConnectBlock FeeEstimator MemPool AcceptToMemoryPool CoinSet MemPoolSpec MemPoolOps MemPoolAccept MemPoolCheck MemPoolTip.
Import CTxMemPoolEntry(MEMPOOL_HEIGHT).

#[local] Opaque GetHash.

Abbreviation ids l := (map GetHash l) (only parsing).
Abbreviation prevouts tx := (map prevout (vin tx)) (only parsing).
Abbreviation coinset := (COutPoint -> option coin) (only parsing).

(** ** The pool between the two tips *)

Section Between.
Context {params : CChainParams}.
Variable Q : coin -> Prop.
Variable U : coinset.
Implicit Types (B R l : list CTransaction).

Abbreviation any := (fun _ : coin => True) (only parsing).

(** Of the disconnected block the transactions [B] are still to come back;
    [R] have come back, [l] were in the pool before. *)
Record between B R l : Prop := {
  bt_whole : pool_ok any (provided B U) (R ++ l);
  bt_back : pool_ok Q U R;
  bt_fresh : forall t, In t l -> fresh U (GetHash t);
  bt_new : forall t, In t (R ++ l) -> ~ In (GetHash t) (ids B);
  bt_ids : NoDup (ids B);
  bt_block : forall b, In b B -> fresh U (GetHash b);
  bt_inputs : forall b o, In b B -> IsCoinBase b || IsCoinStake b = false -> In o (prevouts b) -> ~ In (hash o) (ids l);
}.

Lemma provided_new B o : fresh U (hash o) -> ~ In (hash o) (ids B) -> provided B U o = None.
Proof using. intros Hf Hn. unfold provided. rewrite (proj2 (find_tx_None _ _) Hn). by apply fresh_at. Qed.

Lemma provided_cons_ne b B o : hash o <> GetHash b -> provided (b :: B) U o = provided B U o.
Proof using. intros Hne. unfold provided. rewrite find_tx_cons, bool_decide_eq_false_2 by exact (not_eq_sym Hne). done. Qed.

Lemma provided_cons_eq b B o : hash o = GetHash b -> provided (b :: B) U o = tx_coin MEMPOOL_HEIGHT b (n o).
Proof using. intros E. unfold provided. rewrite find_tx_cons, bool_decide_eq_true_2 by exact (eq_sym E). done. Qed.

Lemma between_fresh B R l t : between B R l -> In t (R ++ l) -> fresh U (GetHash t).
Proof using.
  intros H Ht. apply in_app_iff in Ht as [Ht|Ht]; [by apply (pool_fresh _ _ _ (bt_back _ _ _ H)) | by apply (bt_fresh _ _ _ H)].
Qed.

Lemma fresh_provided B h : fresh U h -> ~ In h (ids B) -> fresh (provided B U) h.
Proof using. intros Hf Hn k. by apply provided_new. Qed.

Lemma ids_app_cons R b l : ids (R ++ b :: l) = ids R ++ GetHash b :: ids l.
Proof using. by rewrite map_app. Qed.

(** ** One comes back *)

Lemma between_accept b B R l : between (b :: B) R l -> loose b -> (forall o, In o (prevouts b) -> ~ In o (points (R ++ l))) ->
  fits Q (provided (R ++ l) U) b -> between B (R ++ [b]) l.
Proof using.
  intros HB Hl Hun Hfit. pose proof HB as [W1 W2 W3 W4 W5 W6 W7]. cbn [map] in W5. apply NoDup_cons_iff in W5 as [Hnb Hnd].
  pose proof (W6 b (or_introl eq_refl)) as Hfb.
  assert (Hgen : IsCoinBase b || IsCoinStake b = false) by (by rewrite (loose_coinbase _ Hl), (loose_coinstake _ Hl)).
  assert (Hnl : forall o, In o (prevouts b) -> ~ In (hash o) (ids l)) by (intros o Ho; exact (W7 b o (or_introl eq_refl) Hgen Ho)).
  assert (Hidb : ~ In (GetHash b) (ids (R ++ l))).
  { intros Hin. apply in_map_iff in Hin as (t & Et & Ht). apply (W4 t Ht). left. exact (eq_sym Et). }
  assert (HidR : ~ In (GetHash b) (ids R)) by (intros Hin; apply Hidb; rewrite map_app; apply in_app_iff; by left).
  assert (Hnew : forall t, In t (R ++ l) -> ~ In (GetHash t) (ids B)) by (intros t Ht Hin; apply (W4 t Ht); by right).
  assert (HfitR : forall o c, In o (prevouts b) -> provided (R ++ l) U o = Some c -> provided R U o = Some c).
  { intros o c Ho. unfold provided. destruct (find_tx (hash o) R) as [s|] eqn:Es.
    - apply find_tx_Some in Es as [Hs Es]. rewrite <- Es. rewrite (find_tx_In (R ++ l) s (pool_ids _ _ _ W1)); [done|]. apply in_app_iff. by left.
    - assert (find_tx (hash o) (R ++ l) = None) as ->; [|done]. apply find_tx_None. rewrite map_app. apply find_tx_None in Es.
      intros [?|?]%in_app_iff; [exact (Es H) | exact (Hnl o Ho H)]. }
  assert (HR : pool_ok Q U (R ++ [b])).
  { apply pool_append; [exact W2 | exact Hl | exact HidR | exact Hfb | |].
    - intros o Ho Hin. apply (Hun o Ho). rewrite points_app. apply in_app_iff. by left.
    - eapply fits_mono; [|exact Hfit]. intros i c Hi Hc Hq. exists c. split; [by apply HfitR; [apply input_point|] | by split]. }
  assert (Hids : NoDup (ids (R ++ b :: l))).
  { rewrite ids_app_cons. pose proof (pool_ids _ _ _ W1) as Hnd'. rewrite map_app in Hnd', Hidb. apply NoDup_app_iff in Hnd' as (N1 & N2 & N3).
    rewrite in_app_iff in Hidb. apply NoDup_app_iff. split; [exact N1|]. split; [constructor; [tauto | exact N2]|].
    intros x Hx [<-|Hx']; [tauto | exact (N3 x Hx Hx')]. }
  assert (Hin2 : forall t, In t ((R ++ [b]) ++ l) -> t = b \/ In t (R ++ l)).
  { intros t. rewrite !in_app_iff. cbn [In]. intros [[|[<-|[]]]|]; auto. }
  split.
  - rewrite <- app_assoc. cbn [app]. apply (pool_insert any (provided B U) (provided (b :: B) U) R b l W1 Hl Hidb); try done.
    + by apply fresh_provided.
    + intros s Hs. apply fresh_provided; [by apply (between_fresh _ _ _ _ HB) | by apply Hnew].
    + intros s o Hs Ho. destruct (input_coin _ _ _ _ _ W2 Hs Ho) as (c & Hc & _). by apply (provided_hash R U o c).
    + eapply fits_mono; [|exact Hfit]. intros i c Hi Hc _. exists c. split; [|by split]. apply HfitR in Hc; [|by apply input_point].
      revert Hc. unfold provided at 1 2. destruct (find_tx (hash (prevout i)) R); [done|]. intros Hc. unfold provided.
      assert (find_tx (hash (prevout i)) B = None) as ->; [|done]. apply find_tx_None. intros Hin.
      apply in_map_iff in Hin as (b' & Eb & Hb'). assert (Hf : fresh U (hash (prevout i))) by (rewrite <- Eb; apply W6; by right).
      rewrite (fresh_at _ _ Hf) in Hc. done.
    + intros s i c Hs Hi Hc _. exists c. split; [|by split]. revert Hc. unfold provided at 1 3.
      destruct (find_tx (hash (prevout i)) (R ++ l)) as [s'|] eqn:Es.
      * apply find_tx_Some in Es as [Hs' Es]. rewrite <- Es. rewrite (find_tx_In (R ++ b :: l) s' Hids); [done|].
        apply in_app_iff in Hs' as [|]; apply in_app_iff; [by left | right; by right].
      * apply find_tx_None in Es. destruct (decide (hash (prevout i) = GetHash b)) as [Eb|Hne].
        -- rewrite (provided_cons_eq b B _ Eb). rewrite Eb. rewrite (find_tx_In (R ++ b :: l) b Hids); [done|]. apply in_app_iff. right. by left.
        -- rewrite (provided_cons_ne b B _ Hne). assert (find_tx (hash (prevout i)) (R ++ b :: l) = None) as ->; [|done].
           apply find_tx_None. rewrite ids_app_cons. rewrite map_app in Es. intros [Hin|[Eb|Hin]]%in_app_iff;
             [apply Es, in_app_iff; by left | exact (Hne (eq_sym Eb)) | apply Es, in_app_iff; by right].
  - exact HR.
  - exact W3.
  - intros t Ht Hin. apply Hin2 in Ht as [->|Ht]; [exact (Hnb Hin) | exact (Hnew t Ht Hin)].
  - exact Hnd.
  - intros b' Hb'. apply W6. by right.
  - intros b' o Hb'. apply W7. by right.
Qed.

(** ** One does not, and takes what depends on it along *)

Lemma closed_app keep R l : closed (R ++ l) keep -> closed R keep.
Proof using. intros H t s o Ht Hs. apply H; apply in_app_iff; by left. Qed.

Lemma between_remove b B R l keep : between (b :: B) R l -> removed_of (R ++ l) (GetHash b) keep ->
  between B (List.filter keep R) (List.filter keep l).
Proof using.
  intros HB Hrm. pose proof HB as [W1 W2 W3 W4 W5 W6 W7]. cbn [map] in W5. apply NoDup_cons_iff in W5 as [Hnb Hnd].
  pose proof (removed_of_closed _ _ _ Hrm) as Hcl.
  assert (Hnew : forall t, In t (R ++ l) -> ~ In (GetHash t) (ids B)) by (intros t Ht Hin; apply (W4 t Ht); by right).
  split.
  - rewrite <- List.filter_app. apply (pool_evict any (provided (b :: B) U) (provided B U) keep (R ++ l) W1 Hcl).
    + intros t Ht _. apply fresh_provided; [by apply (between_fresh _ _ _ _ HB) | by apply Hnew].
    + intros t o c Ht Hk Ho _ Hc. rewrite <- Hc. symmetry. apply provided_cons_ne. intros E.
      assert (keep t = false) as Kt; [|congruence]. apply (Hrm t Ht). apply (descends_child _ _ t o); [rewrite E; constructor | exact Ht | exact Ho].
  - apply (pool_evict Q U U keep R W2 (closed_app _ _ _ Hcl)); [|done]. intros t Ht _. by apply (pool_fresh _ _ _ W2).
  - intros t Ht. apply filter_In in Ht as [Ht _]. by apply W3.
  - intros t Ht. rewrite <- List.filter_app in Ht. apply filter_In in Ht as [Ht _]. by apply Hnew.
  - exact Hnd.
  - intros b' Hb'. apply W6. by right.
  - intros b' o Hb' Hg Ho Hin. apply (W7 b' o (or_intror Hb') Hg Ho). apply in_map_iff in Hin as (t & <- & Ht).
    apply filter_In in Ht as [Ht _]. by apply in_map.
Qed.

(** What has come back descends from nothing that has not. *)
Lemma between_descends b B R l h : between (b :: B) R l -> descends (R ++ l) (GetHash b) h -> ~ In h (ids R) /\ fresh U h.
Proof using.
  intros HB. pose proof HB as [W1 W2 W3 W4 _ W6 _]. induction 1 as [|t o _ [IH1 IH2] Ht Ho].
  - split; [|apply W6; by left]. intros Hin. apply in_map_iff in Hin as (t & Et & Ht). apply (W4 t); [apply in_app_iff; by left|].
    left. exact (eq_sym Et).
  - assert (HnR : ~ In t R).
    { intros HR. destruct (input_coin _ _ _ _ _ W2 HR Ho) as (c & Hc & _). revert Hc. unfold provided.
      rewrite (proj2 (find_tx_None _ _) IH1), (fresh_at _ _ IH2). done. }
    apply in_app_iff in Ht as [Ht|Ht]; [by destruct HnR|]. split; [|by apply W3].
    pose proof (pool_ids _ _ _ W1) as Hnd. rewrite map_app in Hnd. apply NoDup_app_iff in Hnd as (_ & _ & N).
    intros Hin. apply (N _ Hin). by apply in_map.
Qed.

Lemma between_keeps b B R l keep : between (b :: B) R l -> removed_of (R ++ l) (GetHash b) keep -> List.filter keep R = R.
Proof using.
  intros HB Hrm. rewrite <- (filter_all R) at 2. apply filter_ext_in. intros t Ht. destruct (keep t) eqn:K; [done|].
  apply (Hrm t) in K; [|apply in_app_iff; by left]. apply (between_descends _ _ _ _ _ HB) in K as [K _]. destruct K. by apply in_map.
Qed.

(** What is in the queue of [remove] for a transaction of the block. *)
Lemma between_bounded b B R l : between (b :: B) R l -> (forall s, In s (R ++ l) -> bounded (R ++ l) s) /\ bounded (R ++ l) b.
Proof using.
  intros HB. pose proof HB as [W1 _ _ W4 _ _ _]. split; [intros s Hs; by eapply pool_bounded|].
  apply (bounded_by _ _ _ _ W1). intros o c Eo. unfold provided at 1.
  assert (find_tx (hash o) (R ++ l) = None) as ->.
  { apply find_tx_None. rewrite Eo. intros Hin. apply in_map_iff in Hin as (t & Et & Ht). apply (W4 t Ht). left. exact (eq_sym Et). }
  rewrite (provided_cons_eq b B o Eo). intros Hc. apply (tx_coin_output _ _ _ _ Hc).
Qed.
End Between.

Lemma descends_incl l l' h0 h : incl l l' -> descends l h0 h -> descends l' h0 h.
Proof. intros Hi. induction 1 as [|t o _ IH Ht Ho]; [constructor|]. apply (descends_child _ _ t o); [exact IH | by apply Hi | exact Ho]. Qed.

(** ** [resurrect] *)

Section Resurrect.
Context {V : Type} `{!CCoinsView V, !CoinsSpec V, !ReadableView V} {params : CChainParams}.
Variable Verify : list Z -> list Z -> list Z -> bool.
Variable block_height : list Z -> option Z.
Variable pow : Double.double -> Double.double -> Double.double.
Variable nd : node.
Hypothesis HMaxMoney : 0 <= MaxMoneyOut <= Script.int64_max.
Implicit Types (s : globals (V := V)).

(** A run over the transactions [B] of the block, which has accepted back
    those of [A], in their order: the ones that are not generated and that
    [AcceptToMemoryPool] accepts in the state the run has reached.  The
    others are removed, with what depends on them. *)
Inductive resurrects : list CTransaction -> globals -> list CTransaction -> globals -> Prop :=
| no_more s : resurrects [] s [] s
| comes_back tx B s v s1 A s2 : IsCoinBase tx || IsCoinStake tx = false ->
    AcceptToMemoryPool Verify block_height pow nd CValidationState_new tx false false false s = Some (v, s1) -> accepted v = true ->
    resurrects B s1 A s2 -> resurrects (tx :: B) s (tx :: A) s2
| stays_out tx B s s1 rm p A s2 :
    (if IsCoinBase tx || IsCoinStake tx then s1 = s
     else exists v, AcceptToMemoryPool Verify block_height pow nd CValidationState_new tx false false false s = Some (v, s1) /\ accepted v = false) ->
    remove tx true [] (pool s1) = Some (rm, p) -> resurrects B (with_pool s1 p) A s2 -> resurrects (tx :: B) s A s2.

(** The run reaches a transaction whose acceptance does not return. *)
Definition stuck (B : list CTransaction) s : Prop :=
  exists before tx after A s', B = before ++ tx :: after /\ resurrects before s A s' /\ IsCoinBase tx || IsCoinStake tx = false /\
    AcceptToMemoryPool Verify block_height pow nd CValidationState_new tx false false false s' = None.

Lemma resurrects_incl B s A s' : resurrects B s A s' -> incl A B.
Proof using.
  induction 1 as [s|tx B s v s1 A s2 _ _ _ _ IH|tx B s s1 rm p A s2 _ _ _ IH]; intros t Ht; [exact Ht | |].
  - destruct Ht as [<-|Ht]; [by left | right; by apply IH].
  - right. by apply IH.
Qed.

Lemma resurrects_cons b B s A s1 A' s2 : resurrects [b] s A s1 -> resurrects B s1 A' s2 -> resurrects (b :: B) s (A ++ A') s2.
Proof using.
  intros H1 H2. inversion H1 as [|? ? ? v ? A0 ? Hg E Ha H|? ? ? s3 rm p ? ? Hg E H]; subst.
  - inversion H; subst. cbn [app]. by eapply comes_back.
  - inversion H; subst. by eapply stays_out.
Qed.

Lemma stuck_cons b B s A s1 : resurrects [b] s A s1 -> stuck B s1 -> stuck (b :: B) s.
Proof using.
  intros H1 (pre & tx & post & A' & s' & -> & H2 & Hg & E). exists (b :: pre), tx, post, (A ++ A'), s'. split; [done|].
  split; [by eapply resurrects_cons | exact (conj Hg E)].
Qed.

(** The tip the pool is to fit on. *)
Record tip_at (h : Z) (U : coinset) s : Prop := {
  tip_wf : wf (pcoinsTip s);
  tip_best : best (pcoinsTip s) <> uint256_0;
  tip_height : block_height (best (pcoinsTip s)) = Some h;
  tip_same : forall o, tip_coins s o = U o;
}.

Lemma tip_at_unchanged h U s s' : tip_at h U s -> unchanged (pcoinsTip s) (pcoinsTip s') -> tip_at h U s'.
Proof using.
  intros [T1 T2 T3 T4] (H1 & H2 & H3 & H4). split; [exact H1 | by rewrite H4 | by rewrite H4 |].
  intros o. rewrite <- T4. by apply coin_at_ext.
Qed.

(** One turn of the loop. *)
Lemma resurrect_step h U b B R l s : let Q := coin_mature (h + 1) in
  between Q U (b :: B) R l -> tip_at h U s -> holds (pool s) (R ++ l) -> positioned (vin b) ->
  match resurrect Verify block_height pow nd [b] s with
  | None => stuck [b] s
  | Some s' => tip_at h U s' /\ unchanged (pcoinsTip s) (pcoinsTip s') /\ fSanityCheck (pool s') = fSanityCheck (pool s) /\
      exists A keep, resurrects [b] s A s' /\ between Q U B (R ++ A) (List.filter keep l) /\
        holds (pool s') ((R ++ A) ++ List.filter keep l) /\
        (forall t, In t l -> keep t = false -> A = [] /\ descends (R ++ l) (GetHash b) (GetHash t))
  end.
Proof using All.
  intros Q HB HT Hp Hpos. cbn [resurrect].
  assert (Hrem : forall s1, (if IsCoinBase b || IsCoinStake b then s1 = s
     else exists v, AcceptToMemoryPool Verify block_height pow nd CValidationState_new b false false false s = Some (v, s1) /\ accepted v = false) ->
    holds (pool s1) (R ++ l) ->
    exists p, (x ← remove b true [] (pool s1); let '(_, p) := x in Some (with_pool s1 p)) = Some (with_pool s1 p) /\
      fSanityCheck p = fSanityCheck (pool s1) /\
      exists A keep, resurrects [b] s A (with_pool s1 p) /\ between Q U B (R ++ A) (List.filter keep l) /\ holds p ((R ++ A) ++ List.filter keep l) /\
        (forall t, In t l -> keep t = false -> A = [] /\ descends (R ++ l) (GetHash b) (GetHash t))).
  { intros s1 Hout Hp1. destruct (between_bounded _ _ _ _ _ _ HB) as [Hb1 Hb2].
    destruct (remove_spec (pool s1) (R ++ l) b [] Hp1 (pool_tidy _ _ _ (bt_whole _ _ _ _ _ HB)) Hb1 Hb2) as (keep & rm & p' & E & Hp' & Hrm & Hr & _).
    exists p'. rewrite E. split; [done|]. split; [exact (f_equal (fun x => x.1.1.1) Hr)|].
    pose proof (between_keeps _ _ _ _ _ _ _ HB Hrm) as HkR. pose proof (between_remove _ _ _ _ _ _ _ HB Hrm) as HB'. rewrite HkR in HB'.
    exists [], keep. rewrite app_nil_r. split; [eapply stays_out; [exact Hout | exact E | apply no_more]|]. split; [exact HB'|].
    split; [by rewrite List.filter_app, HkR in Hp'|].
    intros t Ht Hk. split; [done|]. apply (Hrm t); [apply in_app_iff; by right | exact Hk]. }
  destruct (IsCoinBase b || IsCoinStake b) eqn:Eg; cbn [mbind option_bind].
  { destruct (Hrem s eq_refl Hp) as (p' & E & Es & HR). rewrite E. split; [by destruct HT|].
    split; [apply unchanged_refl, HT|]. split; [exact Es | exact HR]. }
  destruct (AcceptToMemoryPool _ _ _ _ _ b _ _ _ s) as [[v s1]|] eqn:EA; cbn [mbind option_bind].
  2: { exists [], b, [], [], s. split; [done|]. split; [apply no_more|]. split; [exact Eg | exact EA]. }
  destruct (AcceptToMemoryPool_spec Verify block_height pow nd HMaxMoney CValidationState_new b false false false s (R ++ l) h v s1
    (tip_wf _ _ _ HT) (tip_best _ _ _ HT) (tip_height _ _ _ HT) Hp (pool_tidy _ _ _ (bt_whole _ _ _ _ _ HB)) Hpos EA) as (U1 & Es & Hv).
  pose proof (tip_at_unchanged _ _ _ _ HT U1) as HT1. destruct (accepted v) eqn:Ev.
  - cbn [mbind option_bind]. split; [exact HT1|]. split; [exact U1|]. split; [exact Es|]. destruct Hv as (Hacc & Hp1 & _).
    exists [b], (fun _ => true). rewrite filter_all. destruct Hacc as [[Hl _] _ _ Hun Hfit].
    assert (Hf : fits Q (provided (R ++ l) U) b).
    { eapply fits_mono; [|exact Hfit]. intros i c _ Hc Hq. exists c. split; [|by split].
      rewrite <- Hc. unfold provided. destruct (find_tx _ _); [done|]. symmetry. apply (tip_same _ _ _ HT). }
    pose proof (between_accept Q U b B R l HB Hl Hun Hf) as HB'.
    split; [eapply comes_back; [exact Eg | exact EA | exact Ev | apply no_more]|]. split; [exact HB'|]. split; [|intros t _ Hk; discriminate Hk].
    rewrite <- app_assoc. cbn [app]. eapply holds_perm; [| |exact Hp1]; [|apply Permutation_middle].
    pose proof (pool_tidy _ _ _ (bt_whole _ _ _ _ _ HB')) as [N1 N2]. rewrite <- app_assoc in N1, N2. cbn [app] in N1, N2. split.
    + eapply Permutation_NoDup; [|exact N1]. apply Permutation_map, Permutation_sym, Permutation_middle.
    + eapply Permutation_NoDup; [|exact N2]. unfold points. apply Permutation_flat_map, Permutation_sym, Permutation_middle.
  - pose proof (holds_same _ _ _ Hv Hp) as Hp2.
    destruct (Hrem s1 (ex_intro _ v (conj eq_refl Ev)) Hp2) as (p' & E & Es' & HR). rewrite E. cbn [mbind option_bind].
    split; [by destruct HT1|]. split; [exact U1|]. split; [by rewrite <- Es | exact HR].
Qed.

Lemma resurrect_cons b B s : resurrect Verify block_height pow nd (b :: B) s =
  match resurrect Verify block_height pow nd [b] s with
  | None => None
  | Some s' => resurrect Verify block_height pow nd B s'
  end.
Proof using.
  cbn [resurrect]. destruct (if _ || _ then _ else _) as [[ok s1]|]; cbn [mbind option_bind]; [|done]. by destruct (if ok then _ else _).
Qed.

Lemma resurrect_spec h U B : forall R l s, let Q := coin_mature (h + 1) in
  between Q U B R l -> tip_at h U s -> holds (pool s) (R ++ l) -> Forall (fun tx => positioned (vin tx)) B ->
  match resurrect Verify block_height pow nd B s with
  | None => stuck B s
  | Some s' => tip_at h U s' /\ unchanged (pcoinsTip s) (pcoinsTip s') /\ fSanityCheck (pool s') = fSanityCheck (pool s) /\
      exists A keep, resurrects B s A s' /\ between Q U [] (R ++ A) (List.filter keep l) /\ holds (pool s') ((R ++ A) ++ List.filter keep l) /\
        (forall t, In t l -> keep t = false -> exists b, In b B /\ ~ In b A /\ descends (R ++ B ++ l) (GetHash b) (GetHash t))
  end.
Proof using All.
  induction B as [|b B IH]; intros R l s Q HB HT Hp Hpos.
  { cbn [resurrect]. split; [exact HT|]. split; [apply unchanged_refl, HT|]. split; [done|]. exists [], (fun _ => true).
    rewrite filter_all, app_nil_r. split; [apply no_more|]. split; [exact HB|]. split; [exact Hp|]. intros t _ Hk. discriminate Hk. }
  apply Forall_cons_iff in Hpos as [Hpb Hpos]. rewrite resurrect_cons.
  pose proof (resurrect_step h U b B R l s HB HT Hp Hpb) as H1. destruct (resurrect _ _ _ _ [b] s) as [s1|].
  2: { destruct H1 as (pre & tx & post & A & s' & E & Hr & H1). destruct pre as [|? [|]]; [|discriminate E..]. injection E as <- <-.
    inversion Hr; subst. exists [], b, B, [], s'. split; [done|]. split; [apply no_more | exact H1]. }
  destruct H1 as (HT1 & U1 & Es1 & A1 & keep & Hr1 & HB1 & Hp1 & Hd1).
  pose proof (IH (R ++ A1) (List.filter keep l) s1 HB1 HT1 Hp1 Hpos) as H2. destruct (resurrect _ _ _ _ B s1) as [s2|].
  2: { by eapply stuck_cons. }
  destruct H2 as (HT2 & U2 & Es2 & A2 & keep' & Hr2 & HB2 & Hp2 & Hd2). split; [exact HT2|]. split; [by eapply unchanged_trans|].
  split; [by rewrite Es2|]. rewrite filter_filter in HB2, Hp2. exists (A1 ++ A2), (fun t => keep t && keep' t). rewrite app_assoc.
  split; [by eapply resurrects_cons|]. split; [exact HB2|]. split; [exact Hp2|].
  pose proof (resurrects_incl _ _ _ _ Hr1) as Hi1. pose proof (resurrects_incl _ _ _ _ Hr2) as Hi2.
  pose proof (bt_ids _ _ _ _ _ HB) as Hnd. cbn [map] in Hnd. apply NoDup_cons_iff in Hnd as [Hnb _].
  assert (HbB : ~ In b B) by (intros Hin; apply Hnb; by apply in_map).
  intros t Ht Hk. destruct (keep t) eqn:K; cbn [andb] in Hk.
  - destruct (Hd2 t (proj2 (filter_In _ _ _) (conj Ht K)) Hk) as (b' & Hb' & Hn & Hd). exists b'. split; [by right|]. split.
    { intros [Hin|Hin]%in_app_iff; [|exact (Hn Hin)]. apply Hi1 in Hin as [<-|[]]. exact (HbB Hb'). }
    eapply descends_incl; [|exact Hd]. intros x. rewrite !in_app_iff. cbn [In]. intros [[Hx|Hx]|[Hx|Hx]]; [tauto | | tauto |].
    + apply Hi1 in Hx as [<-|[]]. tauto.
    + apply filter_In in Hx as [Hx _]. tauto.
  - destruct (Hd1 t Ht K) as [-> Hd]. exists b. split; [by left|]. split; [intros Hin; apply HbB, Hi2; exact Hin|].
    eapply descends_incl; [|exact Hd]. intros x. rewrite !in_app_iff. cbn [In]. tauto.
Qed.
End Resurrect.

(** ** What a block leaves unspent, and what it takes *)

Section Block.
Context {params : CChainParams}.
Variable Verify : list Z -> list Z -> list Z -> bool.
Variable height flags : Z.
Variable fScriptChecks : bool.
Implicit Types (vtx l : list CTransaction).

Abbreviation connects := (ConnectBlock.connects Verify height flags fScriptChecks) (only parsing).

Lemma connects_coin u vtx undos created u' : connects u vtx undos created u' -> Forall (fun tx => positioned (vin tx)) vtx -> NoDup (ids vtx) ->
  forall o c, coin_at u' o = Some c ->
  match find_tx (hash o) vtx with Some b => tx_coin height b (n o) = Some c | None => coin_at u o = Some c end.
Proof using.
  induction 1 as [u u' Hu|u b undo cr u1 vtx undos crs u' Ha Hcon IH]; intros Hpos Hnd o c Hc.
  { cbn. by rewrite <- (coin_at_ext u u' o Hu). }
  apply Forall_cons_iff in Hpos as [Hpb Hpos]. cbn [map] in Hnd. apply NoDup_cons_iff in Hnd as [Hnew Hnd].
  specialize (IH Hpos Hnd o c Hc). rewrite find_tx_cons. destruct (find_tx (hash o) vtx) as [b'|] eqn:Ef.
  - rewrite bool_decide_eq_false_2; [exact IH|]. intros E. apply find_tx_Some in Ef as [Hb' Eb']. apply Hnew. rewrite E, <- Eb'. by apply in_map.
  - rewrite (accepts_after Verify height flags fScriptChecks _ _ _ _ _ Hpb Ha) in IH. unfold after in IH.
    destruct (decide (hash o = GetHash b)) as [E|Hne].
    + rewrite bool_decide_eq_true_2 by exact (eq_sym E). exact IH.
    + rewrite bool_decide_eq_false_2 by exact (not_eq_sym Hne). destruct (decide _); [discriminate IH | exact IH].
Qed.

Lemma connects_inputs u vtx undos created u' : connects u vtx undos created u' -> Forall (fun tx => positioned (vin tx)) vtx ->
  forall b o, In b vtx -> takes_inputs b = true -> In o (prevouts b) -> In (hash o) (ids vtx) \/ is_Some (coin_at u o).
Proof using.
  induction 1 as [u u' Hu|u b undo cr u1 vtx undos crs u' Ha Hcon IH]; intros Hpos b' o Hb' Ht Ho; [destruct Hb'|].
  apply Forall_cons_iff in Hpos as [Hpb Hpos]. destruct Hb' as [<-|Hb'].
  - right. apply point_input in Ho as (i & Hi & <-). destruct Ha as [|u tx ins undo out v w Et _ Hins _ _ _ _]; [congruence|].
    apply (all_spent_coins _ _ _ Hpb), all_coins_available in Hins. rewrite List.Forall_forall in Hins. by apply Hins.
  - destruct (IH Hpos b' o Hb' Ht Ho) as [Hin|Hs]; [left; by right|].
    rewrite (accepts_after Verify height flags fScriptChecks _ _ _ _ _ Hpb Ha) in Hs. unfold after in Hs.
    destruct (decide (hash o = GetHash b)) as [E|]; [left; left; exact (eq_sym E)|]. right. destruct (decide _); [by destruct Hs | exact Hs].
Qed.

(** Unspent outputs given back: the same outputs. *)
Definition given_back (u : outputs) (U : coinset) : Prop :=
  forall o, match coin_at u o with
            | Some c => exists c', U o = Some c' /\ output c' = output c /\ coin_height c' = coin_height c
            | None => U o = None
            end.

Lemma given_back_fresh u U h : given_back u U -> u h = None -> fresh U h.
Proof using.
  intros H E k. specialize (H (mkOutPoint h k)). unfold coin_at in H. cbn [hash n] in H. by rewrite E in H.
Qed.

Lemma between_start Q Q' u vtx undos created u' l U : connects u vtx undos created u' -> Forall (fun tx => positioned (vin tx)) vtx ->
  NoDup (ids vtx) -> (forall b, In b vtx -> u (GetHash b) = None) -> given_back u U ->
  pool_ok Q (coin_at u') l -> (forall t, In t l -> u (GetHash t) = None /\ ~ In (GetHash t) (ids vtx)) ->
  between Q' U vtx [] l.
Proof using.
  intros Hcon Hpos Hnd Hnew HU Hok Hl. split; cbn [app]; try done.
  - rewrite <- (filter_all l). apply (pool_transfer Q _ (coin_at u') _ _ l Hok); rewrite filter_all.
    + intros t Ht. destruct (Hl t Ht) as [H1 H2]. apply fresh_provided; [by eapply given_back_fresh | exact H2].
    + intros t i c Ht Hi Hc _. unfold provided at 1 in Hc. unfold provided at 1. destruct (find_tx (hash (prevout i)) l); [exists c; by split|].
      apply (connects_coin _ _ _ _ _ Hcon Hpos Hnd) in Hc. unfold provided. destruct (find_tx (hash (prevout i)) vtx) as [b|].
      * destruct (tx_coin_height _ MEMPOOL_HEIGHT _ _ _ Hc) as (_ & _ & E). eexists. split; [exact E | by split].
      * pose proof (HU (prevout i)) as G. rewrite Hc in G. destruct G as (c' & E & Ho & _). exists c'. split; [exact E | by split].
  - split; try done; constructor.
  - intros t Ht. destruct (Hl t Ht) as [H1 _]. by eapply given_back_fresh.
  - intros t Ht. apply (Hl t Ht).
  - intros b Hb. eapply given_back_fresh; [exact HU | by apply Hnew].
  - intros b o Hb Hg Ho Hin. apply orb_false_iff in Hg as [G1 G2].
    assert (Ht : takes_inputs b = true) by (unfold takes_inputs; by rewrite G1, (coinstake_v5 _ G2)).
    apply in_map_iff in Hin as (t & Et & Ht'). destruct (Hl t Ht') as [L1 L2].
    destruct (connects_inputs _ _ _ _ _ Hcon Hpos b o Hb Ht Ho) as [Hin|Hs]; [apply L2; rewrite Et; exact Hin|].
    unfold coin_at in Hs. rewrite <- Et, L1 in Hs. by destruct Hs.
Qed.
End Block.

(** ** [DisconnectTip] *)

Section Disconnect.
Context {V : Type} `{!CCoinsView V, !CoinsSpec V, !ReadableView V} {params : CChainParams}.
Variable Verify : list Z -> list Z -> list Z -> bool.
Variable block_height : list Z -> option Z.
Variable pow : Double.double -> Double.double -> Double.double.
Variable nd : node.
Hypothesis HMaxMoney : 0 <= MaxMoneyOut <= Script.int64_max.
Hypothesis HMat : 0 < COINBASE_MATURITY < 2 ^ 32.
Implicit Types (s : globals (V := V)).

(** Coins come back as they were, a coinstake's perhaps without its mark. *)
Definition come_back (h : Z) (u u' : outputs) : Prop :=
  forall t, u' t = u t \/ exists c, u t = Some c /\ fCoinStake c = true /\ mature h c /\ u' t = Some (unstaked c).

Lemma come_back_given h u u' : come_back h u u' -> given_back u (coin_at u').
Proof using.
  intros H o. destruct (H (hash o)) as [E|(c & E & _ & _ & E')].
  - unfold coin_at. rewrite E. destruct (c ← u (hash o); coin_of c (n o)) as [c|]; [by exists c | done].
  - unfold coin_at. rewrite E, E'. cbn [mbind option_bind]. rewrite !coin_of_available. cbn [vout unstaked].
    destruct (_ && _); [|done]. by eexists.
Qed.

(** The coins are of blocks up to [h]. *)
Definition up_to (h : Z) (u : outputs) : Prop := forall t c, u t = Some c -> nHeight c <= h.

Lemma recorded_given h u U : stored u -> up_to h u -> given_back u U -> recorded h U.
Proof using.
  intros Hst Hup HU o c Hc. specialize (HU o). destruct (coin_at u o) as [c0|] eqn:E0.
  - destruct HU as (c' & E & _ & Eh). assert (c' = c) as -> by congruence. rewrite Eh.
    unfold coin_at in E0. destruct (u (hash o)) as [cs|] eqn:Eu; [|done]. cbn in E0. rewrite coin_of_available in E0.
    destruct (_ && _); [|done]. injection E0 as <-. cbn. pose proof (Hup _ _ Eu). destruct (Hst _ _ Eu) as (_ & _ & Hpos). lia.
  - rewrite HU in Hc. done.
Qed.

Lemma immature_input_coin h l U Q t o : pool_ok Q U l -> In t l -> In o (prevouts t) -> immature_input h l U o = true ->
  exists c, U o = Some c /\ ~ coin_mature h c.
Proof using.
  intros Hok Ht Ho. destruct (input_coin _ _ _ _ _ Hok Ht Ho) as (c & Hc & _). unfold immature_input, provided in *.
  destruct (find_tx (hash o) l); [done|]. rewrite Hc. intros E. apply andb_true_iff in E as [Hg Hm]. apply Z.ltb_lt in Hm.
  exists c. split; [done|]. intros H. specialize (H Hg). lia.
Qed.

(** Why a transaction leaves the pool when the block is disconnected: it
    needs a transaction of the block that was not accepted back, or an output
    that is no longer mature. *)
Definition orphaned (h : Z) (U : coinset) (vtx A l : list CTransaction) (t : CTransaction) : Prop :=
  (In t l /\ exists b, In b vtx /\ ~ In b A /\ descends (vtx ++ l) (GetHash b) (GetHash t)) \/
  exists x o c, In x (A ++ l) /\ In o (prevouts x) /\ U o = Some c /\ ~ coin_mature h c /\
    descends (A ++ l) (GetHash x) (GetHash t).

(** The state with the coins of before the block, at the previous block,
    which the transactions of the block come back to. *)
Definition rewound (u : outputs) (nHeight : Z) (hashPrev : list Z) s s1 : Prop :=
  pool s1 = pool s /\ dFreeCount s1 = dFreeCount s /\ nLastTime s1 = nLastTime s /\
  come_back nHeight u (utxo (pcoinsTip s1)) /\ best (pcoinsTip s1) = hashPrev.

Lemma DisconnectTip_pool u vtx undos created flags fScriptChecks nHeight hashPrev s l :
  consistent block_height nHeight s l ->
  connects Verify nHeight flags fScriptChecks u vtx undos created (utxo (pcoinsTip s)) ->
  stored u -> up_to nHeight u -> 0 < nHeight < 2 ^ 31 -> Forall undoable vtx ->
  (exists tx rest, vtx = tx :: rest /\ takes_inputs tx = false) -> NoDup (ids vtx) -> (forall tx, In tx vtx -> u (GetHash tx) = None) ->
  (forall t, In t l -> u (GetHash t) = None /\ ~ In (GetHash t) (ids vtx)) ->
  hashPrev <> uint256_0 -> block_height hashPrev = Some (nHeight - 1) ->
  exists s1, rewound u nHeight hashPrev s s1 /\
  match DisconnectTip Verify block_height pow nd vtx (tail undos) nHeight hashPrev s with
  | None => stuck Verify block_height pow nd vtx s1
  | Some (inl _) => False
  | Some (inr s') => exists A s2 keep,
      resurrects Verify block_height pow nd vtx s1 A s2 /\ fmap fst (removeCoinbaseSpends nHeight (pcoinsTip s2) (pool s2)) = Some (pool s') /\
      come_back nHeight u (utxo (pcoinsTip s')) /\ best (pcoinsTip s') = hashPrev /\
      consistent block_height (nHeight - 1) s' (List.filter keep (A ++ l)) /\
      fSanityCheck (pool s') = fSanityCheck (pool s) /\
      (forall t, In t (A ++ l) -> keep t = false -> orphaned nHeight (tip_coins s') vtx A l t)
  end.
Proof using All.
  intros HC Hcon Hst Hup Hh Hund Hfirst Hnd Hnew Hl Hprev Hph. unfold DisconnectTip.
  destruct (check_pool_spec Verify block_height (proj1 HMaxMoney) _ s l HC) as (tip & -> & U0). cbn [mbind option_bind].
  pose proof (unchanged_consistent _ _ _ _ _ HC U0) as [C1 C2 C3 C4]. cbn [pcoinsTip with_tip pool] in *.
  assert (Hcon' : connects Verify nHeight flags fScriptChecks u vtx undos created (utxo (CCoinsViewCache_new tip))).
  { eapply connects_ext_end; [|exact Hcon]. intros t. rewrite cache_new_utxo. apply U0. }
  destruct (DisconnectBlock_spec Verify nHeight flags fScriptChecks Hh (proj1 HMat) u vtx undos created (tail undos) hashPrev _ Hcon' Hst Hund
    Hfirst Hnd Hnew eq_refl Hprev (cache_new_wf tip C1)) as (view & E & Hwf & Eh & Hback).
  rewrite E. cbn [mbind option_bind].
  destruct (Flush_cache view Hwf) as (v2 & E2 & Hwf2 & _ & _ & Hu2 & Hb2). rewrite E2. cbn [mbind option_bind].
  destruct (Hb2 ltac:(by rewrite Eh)) as [Hbest _].
  assert (Hbest' : best (base v2) = hashPrev).
  { rewrite Hbest. cbn. rewrite Eh. unfold is_zero. by rewrite bool_decide_eq_false_2. }
  assert (Hback' : come_back nHeight u (utxo (base v2))) by (intros t; rewrite Hu2; apply Hback).
  pose proof (come_back_given _ _ _ Hback') as HU. set (U := coin_at (utxo (base v2))) in *.
  assert (Hpos : Forall (fun tx => positioned (vin tx)) vtx) by (eapply Forall_impl; [|exact Hund]; by intros tx [? _]).
  assert (Hok : pool_ok (coin_mature (nHeight + 1)) (coin_at (utxo (pcoinsTip s))) l) by apply HC.
  pose proof (between_start Verify nHeight flags fScriptChecks _ (coin_mature (nHeight - 1 + 1)) u vtx undos created _ l U Hcon Hpos Hnd Hnew HU Hok Hl) as HB.
  set (s1 := with_tip (with_tip s tip) (base v2)) in *.
  assert (HT : tip_at block_height (nHeight - 1) U s1).
  { split; cbn [s1 pcoinsTip with_tip]; [apply Hwf2 | by rewrite Hbest' | by rewrite Hbest' | done]. }
  exists s1. split; [exact (conj eq_refl (conj eq_refl (conj eq_refl (conj Hback' Hbest'))))|].
  pose proof (resurrect_spec Verify block_height pow nd HMaxMoney (nHeight - 1) U vtx [] l s1 HB HT C3 Hpos) as HR.
  destruct (resurrect Verify block_height pow nd vtx s1) as [s2|]; cbn [mbind option_bind]; [|exact HR].
  destruct HR as (HT2 & U2 & Es2 & A & keep & Hrun & HB2 & Hp2 & Hd2). cbn [app] in HB2, Hp2, Hd2.
  assert (HU2 : forall o, coin_at (utxo (pcoinsTip s2)) o = U o) by (intros o; apply (tip_same _ _ _ _ HT2)).
  set (keep1 := fun t => existsb (fun a => bool_decide (GetHash a = GetHash t)) A || keep t).
  assert (HkA : forall t, In t A -> keep1 t = true).
  { intros t Ht. apply orb_true_iff. left. apply existsb_exists. exists t. split; [exact Ht|]. by apply bool_decide_eq_true_2. }
  assert (Hkl : forall t, In t l -> keep1 t = keep t).
  { intros t Ht. unfold keep1. destruct (existsb _ A) eqn:E0; [|done]. apply existsb_exists in E0 as (a & Ha & Ea). apply bool_decide_eq_true in Ea.
    destruct (proj2 (Hl t Ht)). rewrite <- Ea. apply in_map. exact (resurrects_incl _ _ _ _ _ _ _ _ Hrun _ Ha). }
  assert (Hk1 : A ++ List.filter keep l = List.filter keep1 (A ++ l)).
  { rewrite List.filter_app. f_equal.
    - rewrite <- (filter_all A) at 1. apply filter_ext_in. intros t Ht. symmetry. exact (HkA t Ht).
    - apply filter_ext_in. intros t Ht. symmetry. exact (Hkl t Ht). }
  assert (HW : pool_ok (fun _ => True) (coin_at (utxo (pcoinsTip s2))) (A ++ List.filter keep l)).
  { eapply pool_mono; [| |exact (bt_whole _ _ _ _ _ HB2)]; [done|]. exact HU2. }
  assert (HH : 0 <= nHeight < 2 ^ 32) by (clear - Hh; lia).
  assert (Hrec : recorded nHeight (coin_at (utxo (pcoinsTip s2)))).
  { intros o c Hc. rewrite HU2 in Hc. by apply (recorded_given nHeight u U Hst Hup HU o). }
  destruct (removeCoinbaseSpends_spec nHeight HH (conj (Z.lt_le_incl _ _ (proj1 HMat)) (proj2 HMat)) (pool s2) _ (pcoinsTip s2) (tip_wf _ _ _ _ HT2) Hp2 HW Hrec)
    as (p' & v' & keep' & E3 & U3 & Hp3 & Hok3 & Hr3 & Hev3).
  rewrite E3. cbn [mbind option_bind]. rewrite Hk1, filter_filter in Hp3, Hok3.
  set (s3 := mkGlobals p' v' (dFreeCount s2) (nLastTime s2)).
  assert (HC3 : consistent block_height (nHeight - 1) s3 (List.filter (fun t => keep1 t && keep' t) (A ++ l))).
  { split; cbn [s3 pcoinsTip pool]; [apply U3 | rewrite (proj2 (proj2 (proj2 U3))); apply HT2 | exact Hp3 |].
    eapply pool_mono; [| |exact Hok3]; [intros c; by apply coin_mature_mono; lia | intros o; apply coin_at_ext, U3]. }
  destruct (check_pool_spec Verify block_height (proj1 HMaxMoney) _ s3 _ HC3) as (v4 & E4 & U4). rewrite E4. cbn [mbind option_bind].
  exists A, s2, (fun t => keep1 t && keep' t). rewrite E3. split; [exact Hrun|]. split; [done|].
  assert (U24 : unchanged (pcoinsTip s1) v4) by exact (unchanged_trans _ _ _ U2 (unchanged_trans _ _ _ U3 U4)).
  split; [intros t; cbn [pcoinsTip with_tip]; rewrite (proj1 (proj2 U24)); apply Hback'|].
  split; [cbn [pcoinsTip with_tip]; rewrite (proj2 (proj2 (proj2 U24))); exact Hbest'|].
  split; [by apply unchanged_consistent|].
  split; [transitivity (fSanityCheck (pool s2)); [exact (f_equal (fun x => x.1.1.1) Hr3) | exact Es2]|].
  assert (Hsame : forall o, tip_coins (with_tip s3 v4) o = U o) by (intros o; apply coin_at_ext, U24).
  intros t Ht Hk. destruct (keep1 t) eqn:K; cbn [andb] in Hk.
  - right. assert (Hin : In t (A ++ List.filter keep l)) by (rewrite Hk1; by apply filter_In).
    apply (Hev3 t Hin) in Hk as (x & Hx & Hi & Hd). apply existsb_exists in Hi as (o & Ho & Hi).
    destruct (immature_input_coin _ _ _ _ _ _ HW Hx Ho Hi) as (c & Hc & Hm).
    assert (Hincl : incl (A ++ List.filter keep l) (A ++ l)) by (rewrite Hk1; intros y Hy; by apply filter_In in Hy as [Hy _]).
    exists x, o, c. split; [by apply Hincl|]. split; [exact Ho|]. split; [rewrite Hsame, <- HU2; exact Hc|]. split; [exact Hm|].
    by eapply descends_incl.
  - left. apply in_app_iff in Ht as [Ht|Ht]; [by rewrite (HkA t Ht) in K|]. rewrite (Hkl t Ht) in K. exact (conj Ht (Hd2 t Ht K)).
Qed.
End Disconnect.
End MemPoolReorg.
