(* ===== verification/MemPoolTheorems.v ===== *)
(** What holds of the memory pool: it is kept consistent with the tip, that
    is, what it stores could be connected on top of it, by the acceptance of
    transactions, by removals and by the tip going up and down; and the
    assertions of the sanity check hold of every consistent pool. *)
From stdpp Require Import base list gmap fin_maps sets.
From S2P Require Import Prelude Double Script Params Serialize Transaction TxCheck Coins CoinsView Connect Undo ConnectBlock FeeEstimator MemPool AcceptToMemoryPool CoinSet MemPoolSpec MemPoolOps MemPoolAccept MemPoolCheck MemPoolTip MemPoolReorg.
Open Scope list_scope.

Module MemPoolTheorems.
Import Params Transaction TxCheck Coins CoinsView Connect Undo ConnectBlock FeeEstimator MemPool AcceptToMemoryPool CoinSet MemPoolSpec MemPoolOps MemPoolAccept MemPoolCheck MemPoolTip MemPoolReorg.

#[local] Opaque GetHash.

Abbreviation ids l := (map GetHash l) (only parsing).
Abbreviation prevouts tx := (map prevout (vin tx)) (only parsing).

(** The empty pool is consistent with every tip. *)
Lemma new_consistent {V} `{!CCoinsView V, !CoinsSpec V} {params : CChainParams} block_height h (tip : CCoinsViewCache V) fee d t :
  wf tip -> block_height (best tip) = Some h -> consistent block_height h (mkGlobals (CTxMemPool_new fee) tip d t) [].
Proof.
  intros Hwf Hh. split; [done | done | | by split; try done; constructor].
  split; [intros k; apply fmap_None, lookup_empty | intros k e E | intros o it | done]; cbn in *.
  - by rewrite lookup_empty in E.
  - rewrite lookup_empty. split; [done | by intros (x & [] & _)].
Qed.

Section Theorems.
Context {V : Type} `{!CCoinsView V, !CoinsSpec V, !ReadableView V} {params : CChainParams}.
Variable Verify : list Z -> list Z -> list Z -> bool.
Variable block_height : list Z -> option Z.
Variable pow : Double.double -> Double.double -> Double.double.
Variable nd : node.
Hypothesis HMaxMoney : 0 <= MaxMoneyOut <= Script.int64_max.
Implicit Types (s : globals (V := V)) (l vtx : list CTransaction).

Abbreviation consistent := (MemPoolTip.consistent block_height) (only parsing).

Lemma accepted_consistent state tx fLimitFree fRejectInsaneFee ignoreFees s l h vd s' :
  consistent h s l -> best (pcoinsTip s) <> uint256_0 -> positioned (vin tx) ->
  AcceptToMemoryPool Verify block_height pow nd state tx fLimitFree fRejectInsaneFee ignoreFees s = Some (vd, s') ->
  unchanged (pcoinsTip s) (pcoinsTip s') /\
  if accepted vd
  then acceptable nd (tip_coins s) h l tx /\ consistent h s' (l ++ [tx]) /\
       scripts_verify Verify (utxo (pcoinsTip s)) l tx STANDARD_SCRIPT_VERIFY_FLAGS (pool s) /\
       scripts_verify Verify (utxo (pcoinsTip s)) l tx MANDATORY_SCRIPT_VERIFY_FLAGS (pool s)
  else consistent h s' l /\ same_txs (pool s) (pool s').
Proof using ReadableView0 HMaxMoney.
  intros [C1 C2 C3 C4] Hbest Hp E.
  destruct (AcceptToMemoryPool_spec Verify block_height pow nd HMaxMoney state tx fLimitFree fRejectInsaneFee ignoreFees s l h vd s'
    C1 Hbest C2 C3 (pool_tidy _ _ _ C4) Hp E) as (U & _ & Hv).
  assert (Hc : forall l', holds (pool s') l' -> pool_ok (coin_mature (h + 1)) (tip_coins s) l' -> consistent h s' l').
  { intros l' Hl Hok. split; [apply U | by rewrite (proj2 (proj2 (proj2 U))) | exact Hl |].
    eapply pool_mono; [|intros o; apply coin_at_ext, U|exact Hok]. done. }
  split; [exact U|]. destruct (accepted vd); [|split; [apply Hc; [by apply (holds_same (pool s)) | done] | exact Hv]]. destruct Hv as (Ha & Hl & S1 & S2).
  split; [exact Ha|]. split; [|by split]. pose proof Ha as [[Hloose _] A2 A3 A4 A5].
  assert (Hok : pool_ok (coin_mature (h + 1)) (tip_coins s) (l ++ [tx])) by (by apply pool_append).
  apply Hc; [|exact Hok]. eapply holds_perm; [| |exact Hl]; [|apply Permutation_cons_append].
  apply tidy_cons; [by eapply pool_tidy | exact A2 | apply Hloose | exact A4].
Qed.

(** C3: a transaction [AcceptToMemoryPool] accepts is well formed, is neither
    a coinbase nor a coinstake, is not in the pool nor on the chain, spends
    mature unspent outputs of the chain or outputs of the pool that nothing
    in the pool spends, of a total that covers its outputs, and its scripts
    verify under the standard and the mandatory flags; the pool with it is
    consistent again.  A refused one leaves the transactions of the pool,
    what they spend, their sizes and the fee estimates as they were: only the
    user's deltas, which an obfuscation broadcast raises, and the rate
    limiter of free transactions can have moved.  The unspent outputs of the
    tip never change. *)
Theorem AcceptToMemoryPool_consistent state tx fLimitFree fRejectInsaneFee ignoreFees s l h vd s' :
  consistent h s l -> best (pcoinsTip s) <> uint256_0 -> positioned (vin tx) ->
  AcceptToMemoryPool Verify block_height pow nd state tx fLimitFree fRejectInsaneFee ignoreFees s = Some (vd, s') ->
  unchanged (pcoinsTip s) (pcoinsTip s') /\
  if accepted vd
  then acceptable nd (tip_coins s) h l tx /\ consistent h s' (l ++ [tx]) /\
       scripts_verify Verify (utxo (pcoinsTip s)) l tx STANDARD_SCRIPT_VERIFY_FLAGS (pool s) /\
       scripts_verify Verify (utxo (pcoinsTip s)) l tx MANDATORY_SCRIPT_VERIFY_FLAGS (pool s)
  else consistent h s' l /\ same_txs (pool s) (pool s').
Proof using ReadableView0 HMaxMoney. apply accepted_consistent. Qed.

(** C7: [remove] with [fRecursive] ends, takes out of a consistent pool
    exactly the transaction, if it is there, and the transactions that
    descend from it, reports them, and leaves a consistent pool. *)
Theorem remove_descendants tx removed s l h :
  consistent h s l -> In tx l ->
  exists keep rm p', remove tx true removed (pool s) = Some (removed ++ rm, p') /\
    (forall t, In t l -> keep t = false <-> descends l (GetHash tx) (GetHash t)) /\
    (forall t, In t rm <-> In t l /\ keep t = false) /\
    consistent h (with_pool s p') (List.filter keep l).
Proof using ReadableView0.
  intros [C1 C2 C3 C4] Htx.
  destruct (remove_spec (pool s) l tx removed C3 (pool_tidy _ _ _ C4)) as (keep & rm & p' & E & Hp & Hr & _ & Hrm).
  { intros x Hx. by eapply pool_bounded. }
  { by eapply pool_bounded. }
  exists keep, rm, p'. split; [exact E|]. split; [exact Hr|]. split; [exact Hrm|]. split; [done | done | exact Hp |].
  apply (pool_evict _ (tip_coins s)); [exact C4 | by eapply removed_of_closed | |done]. intros t Ht _. by apply (pool_fresh _ _ _ C4).
Qed.

(** C6: on a consistent pool every assertion of [CTxMemPool::check] holds,
    and its loop over the transactions that wait for others ends: the check
    returns, having only read the unspent outputs. *)
Theorem check_passes s l h : consistent h s l ->
  exists tip, check Verify block_height (pcoinsTip s) (pool s) = Some tip /\ unchanged (pcoinsTip s) tip.
Proof using ReadableView0 HMaxMoney. intros [C1 C2 C3 C4]. exact (check_spec Verify block_height (proj1 HMaxMoney) (pcoinsTip s) h (pool s) l C1 C2 C3 C4). Qed.

Variable push_back : forall A : Type, list A -> A -> list A.
Variable random_shuffle : forall A : Type, list A -> list A.

(** C4: [ConnectTip] over a consistent pool.  When the block connects, its
    transactions have been accepted from the unspent outputs of the tip one
    after another, the new tip is the block, and the pool is consistent with
    it: what stays is not in the block and spends no input of it, what goes
    is in the block or descends from a transaction that spends an input of
    one.  When the block is refused, the pool and what the tip stands for are
    as before.  No assertion on the way fails: the call can only be stopped
    inside [ConnectBlock] or the fee estimator.  (The two blocks exempt from
    BIP30 are left out.) *)
Theorem ConnectTip_consistent flags fStrict fScriptChecks fThreads vtx nHeight hashBlock s l :
  consistent (nHeight - 1) s l ->
  Forall (fun tx => positioned (vin tx) /\ tx_IsZerocoinSpend tx = false) vtx -> NoDup (ids vtx) ->
  (forall t b, In t l -> In b vtx -> GetHash t = GetHash b -> t = b) ->
  hashBlock <> uint256_0 -> block_height hashBlock = Some nHeight -> bip30_exempt nHeight hashBlock = false ->
  match ConnectTip Verify block_height push_back random_shuffle flags fStrict fScriptChecks fThreads vtx nHeight hashBlock s with
  | None =>
      (exists tip, unchanged (pcoinsTip s) tip /\
         fst (ConnectBlock_txs Verify block_height nHeight flags fStrict fScriptChecks fThreads vtx hashBlock (CCoinsViewCache_new tip)) = Aborts) \/
      seenBlock push_back random_shuffle (omap (fun tx => mapTx (pool s) !! GetHash tx) vtx) nHeight (minRelayFee (pool s))
        (minerPolicyEstimator (pool s)) = None
  | Some (inl (_, s')) => unchanged (pcoinsTip s) (pcoinsTip s') /\ pool s' = pool s
  | Some (inr s') => exists undos created keep,
      connects Verify nHeight flags fScriptChecks (utxo (pcoinsTip s)) vtx undos created (utxo (pcoinsTip s')) /\
      best (pcoinsTip s') = hashBlock /\ consistent nHeight s' (List.filter keep l) /\ fSanityCheck (pool s') = fSanityCheck (pool s) /\
      (forall t b, In t l -> keep t = true -> In b vtx -> GetHash t <> GetHash b /\ forall o, In o (prevouts t) -> ~ In o (prevouts b)) /\
      (forall t, In t l -> keep t = false -> exists b, In b vtx /\ evicted_by l b t)
  end.
Proof using ReadableView0 HMaxMoney.
  intros H1 H2 H3 H4 H5 H6 H7.
  exact (ConnectTip_pool Verify block_height (proj1 HMaxMoney) push_back random_shuffle flags fStrict fScriptChecks fThreads vtx nHeight hashBlock s l H1 H2 H3 H4 H5 H6 H7).
Qed.

(** C5: [DisconnectTip] over a consistent pool and the tip the block left.
    The unspent outputs of before the block come back (a coinstake old enough
    to be spent perhaps without its mark) and the tip is the previous block.
    From there the transactions of the block are tried one after another:
    [A] are those, not generated, that [AcceptToMemoryPool] accepts in the
    state the ones before them left.  The pool is then [A] and what it held
    before, without what [removeCoinbaseSpends] takes out and what depended
    on a transaction of the block that was not accepted back, and it is
    consistent with the new tip.  A transaction that was accepted back can
    only go again for an output that is no longer mature.  No assertion on
    the way fails: the call returns unless the run comes to a transaction
    whose acceptance, in the state reached, does not. *)
Theorem DisconnectTip_consistent u vtx undos created flags fScriptChecks nHeight hashPrev s l :
  0 < COINBASE_MATURITY < 2 ^ 32 -> consistent nHeight s l ->
  connects Verify nHeight flags fScriptChecks u vtx undos created (utxo (pcoinsTip s)) ->
  stored u -> up_to nHeight u -> 0 < nHeight < 2 ^ 31 -> Forall undoable vtx ->
  (exists tx rest, vtx = tx :: rest /\ takes_inputs tx = false) -> NoDup (ids vtx) -> (forall tx, In tx vtx -> u (GetHash tx) = None) ->
  (forall t, In t l -> u (GetHash t) = None /\ ~ In (GetHash t) (ids vtx)) ->
  hashPrev <> uint256_0 -> block_height hashPrev = Some (nHeight - 1) ->
  exists s1, rewound u nHeight hashPrev s s1 /\
  match DisconnectTip Verify block_height pow nd vtx (tail undos) nHeight hashPrev s with
  | None => stuck Verify block_height pow nd vtx s1
  | Some (inl _) => False
  | Some (inr s') => exists A s2 keep,
      resurrects Verify block_height pow nd vtx s1 A s2 /\ fmap fst (removeCoinbaseSpends nHeight (pcoinsTip s2) (pool s2)) = Some (pool s') /\
      come_back nHeight u (utxo (pcoinsTip s')) /\ best (pcoinsTip s') = hashPrev /\
      consistent (nHeight - 1) s' (List.filter keep (A ++ l)) /\
      fSanityCheck (pool s') = fSanityCheck (pool s) /\
      (forall t, In t (A ++ l) -> keep t = false -> orphaned nHeight (tip_coins s') vtx A l t)
  end.
Proof using ReadableView0 HMaxMoney. intros HMat. exact (DisconnectTip_pool Verify block_height pow nd HMaxMoney HMat u vtx undos created flags fScriptChecks nHeight hashPrev s l). Qed.
End Theorems.
End MemPoolTheorems.
