(* ===== verification/MemPoolExample.v ===== *)
(** The theorems of the memory pool applied to a pool of three transactions
    over the coins of one: [kept] and [doomed] spend the two, [child] spends
    [doomed]; a block then pays with the second coin. *)
From stdpp Require Import base list gmap fin_maps sets.
From S2P Require Import Prelude Double Script SigEncoding Params Serialize Transaction TxCheck Coins CoinsView Connect Undo ConnectBlock FeeEstimator MemPool AcceptToMemoryPool CoinSet MemPoolSpec MemPoolOps MemPoolAccept MemPoolCheck MemPoolTip MemPoolReorg MemPoolTheorems.
Open Scope list_scope.

Module MemPoolExample.
Import Params Transaction TxCheck Coins CoinsView Connect Undo ConnectBlock FeeEstimator MemPool AcceptToMemoryPool CoinSet MemPoolSpec MemPoolOps MemPoolAccept MemPoolCheck MemPoolTip MemPoolReorg MemPoolTheorems.

#[local] Existing Instance CMainParams.
#[local] Opaque GetHash AcceptToMemoryPool ConnectTip DisconnectTip remove check.

Definition anyone : list Z := [Script.value Script.OP_1].
Definition fund_id : list Z := repeat 1 32.
Definition tip : list Z := repeat 2 32.
Definition block_id : list Z := repeat 3 32.

Definition fund : CCoins := mkCoins false false [CTxOut_new 5000 anyone; CTxOut_new 6000 anyone] 10 1.
Definition value (c : CCoins) : list Z := Serialize.Serialize (CCoins_format point_format) c.
Definition db : CCoinsViewDB point_format := mkDB {[ fund_id := value fund ]} (Some tip).
Definition view : CCoinsViewCache (CCoinsViewDB point_format) := CCoinsViewCache_new db.

Definition spend (h : list Z) (k v : Z) : CTransaction := mkTransaction 1 [mkTxIn (mkOutPoint h k) [] uint256_max32 []] [CTxOut_new v anyone] 0.
Definition kept : CTransaction := spend fund_id 0 4000.
Definition doomed : CTransaction := spend fund_id 1 5500.
Definition child : CTransaction := spend (GetHash doomed) 0 5000.
Definition payment : CTransaction := spend fund_id 1 5900.
Definition coinbase : CTransaction := mkTransaction 1 [mkTxIn COutPoint_SetNull [1; 100] uint256_max32 []] [CTxOut_new 700 anyone] 0.
Definition vtx : list CTransaction := [coinbase; payment].

Definition verify (_ _ _ : list Z) : bool := false.
Definition pow (x _ : Double.double) : Double.double := x.
Definition height_of (h : list Z) : option Z := if bool_decide (h = tip) then Some 99 else if bool_decide (h = block_id) then Some 100 else None.
Definition nd : node := mkNode false true true 80 0 false 15 99 0 0 ∅ ∅.
Definition block_flags : Z := SigEncoding.SCRIPT_VERIFY_P2SH .| SigEncoding.SCRIPT_VERIFY_DERSIG.
Definition push (A : Type) (l : list A) (x : A) : list A := l ++ [x].
Definition unshuffled (A : Type) (l : list A) : list A := l.

(** ** The pool *)

Abbreviation state := (globals (V := CCoinsViewDB point_format)) (only parsing).
Abbreviation good := (consistent height_of) (only parsing).

Definition accept (tx : CTransaction) (s : state) : option (verdict * state) :=
  AcceptToMemoryPool verify height_of pow nd CValidationState_new tx false false false s.
Definition taken (tx : CTransaction) (s : state) : bool := match accept tx s with Some (v, _) => accepted v | None => false end.
Definition next (tx : CTransaction) (s : state) : state := match accept tx s with Some (_, s') => s' | None => s end.

Definition s0 : state := mkGlobals (setSanityCheck true (CTxMemPool_new 0)) view Double.zero 0.
Definition s1 : state := next kept s0.
Definition s2 : state := next doomed s1.
Definition s3 : state := next child s2.

Lemma pool_money_limit : 0 <= MaxMoneyOut <= Script.int64_max.
Proof. vm_compute. split; discriminate. Qed.

Lemma fund_read : db_read point_format (value fund) = Some fund.
Proof. vm_compute. reflexivity. Qed.

Lemma pool_view_wf : wf view.
Proof.
  split; [|split; [done|]].
  - intros t c H. change (({[ fund_id := value fund ]} : gmap (list Z) (list Z)) !! t = Some c) in H.
    apply lookup_singleton_Some in H as [<- <-]. exists fund. split; [exact fund_read|]. split; [by right | done].
  - intros t e H. change ((∅ : gmap (list Z) CCoinsCacheEntry) !! t = Some e) in H. by rewrite lookup_empty in H.
Qed.

Lemma s0_good : good 99 s0 [].
Proof.
  pose proof (new_consistent height_of 99 view 0 Double.zero 0 pool_view_wf eq_refl) as [C1 C2 C3 C4].
  split; [exact C1 | exact C2 | | exact C4]. destruct C3 as [H1 H2 H3 H4]. by split.
Qed.

Lemma spend_positioned h k v : 0 <= k -> positioned (vin (spend h k v)).
Proof. intros H. repeat constructor. exact H. Qed.

Lemma step_good tx s l : good 99 s l -> best (pcoinsTip s) = tip -> positioned (vin tx) -> taken tx s = true ->
  good 99 (next tx s) (l ++ [tx]) /\ best (pcoinsTip (next tx s)) = tip.
Proof.
  intros HC Hb Hp Ht. unfold taken, next in *. destruct (accept tx s) as [[v s']|] eqn:E; [|discriminate Ht].
  destruct (accepted_consistent verify height_of pow nd pool_money_limit CValidationState_new tx false false false s l 99 v s' HC) as (U & Hv);
    [rewrite Hb; discriminate | exact Hp | exact E |].
  rewrite Ht in Hv. split; [apply Hv|]. rewrite (proj2 (proj2 (proj2 U))). exact Hb.
Qed.

(** ** The block that is connected and disconnected *)

Definition connecting := ConnectTip verify height_of push unshuffled block_flags true true false vtx 100 block_id s3.
Definition outcome {A B : Type} (d : B) (r : option (A + B)) : B := match r with Some (inr s) => s | _ => d end.
Definition s4 : state := outcome s3 connecting.

(** The undo information: the output the payment took. *)
Definition undo : list (list CTxInUndo.t) := match Spend fund 1 with Some (_, u) => [[u]] | None => [] end.
Definition disconnecting := DisconnectTip verify height_of pow nd vtx undo 100 tip s4.
Definition s5 : state := outcome s4 disconnecting.

Definition done_well {A B : Type} (r : option (A + B)) : bool := match r with Some (inr _) => true | _ => false end.

(** All of it, computed once. *)
Lemma all_computed : taken kept s0 && taken doomed s1 && taken child s2 && done_well connecting && done_well disconnecting &&
  exists_tx (GetHash payment) (pool s5) = true.
Proof. vm_compute. reflexivity. Qed.

Lemma all_done : taken kept s0 && taken doomed s1 && taken child s2 && done_well connecting && done_well disconnecting = true.
Proof. exact (proj1 (andb_prop _ _ all_computed)). Qed.

Lemma payment_back : exists_tx (GetHash payment) (pool s5) = true.
Proof. exact (proj2 (andb_prop _ _ all_computed)). Qed.

Lemma all_taken : taken kept s0 && taken doomed s1 && taken child s2 = true.
Proof. exact (proj1 (andb_prop _ _ (proj1 (andb_prop _ _ all_done)))). Qed.

Lemma taken_kept : taken kept s0 = true.
Proof. exact (proj1 (andb_prop _ _ (proj1 (andb_prop _ _ all_taken)))). Qed.

Lemma taken_doomed : taken doomed s1 = true.
Proof. exact (proj2 (andb_prop _ _ (proj1 (andb_prop _ _ all_taken)))). Qed.

Lemma taken_child : taken child s2 = true.
Proof. exact (proj2 (andb_prop _ _ all_taken)). Qed.

Lemma s1_good : good 99 s1 [kept] /\ best (pcoinsTip s1) = tip.
Proof. apply (step_good kept s0 []); [apply s0_good | reflexivity | apply spend_positioned; lia | exact taken_kept]. Qed.

Lemma s2_good : good 99 s2 [kept; doomed] /\ best (pcoinsTip s2) = tip.
Proof. destruct s1_good as [H1 H2]. apply (step_good doomed s1 [kept]); [exact H1 | exact H2 | apply spend_positioned; lia | exact taken_doomed]. Qed.

Definition pooled : list CTransaction := [kept; doomed; child].

Lemma s3_good : good 99 s3 pooled.
Proof.
  destruct s2_good as [H1 H2]. apply (step_good child s2 [kept; doomed]); [exact H1 | exact H2 | apply spend_positioned; lia | exact taken_child].
Qed.

Lemma AcceptToMemoryPool_consistent_witness : exists v s', accept child s2 = Some (v, s') /\ accepted v = true /\
  acceptable nd (tip_coins s2) 99 [kept; doomed] child /\ good 99 s' pooled.
Proof.
  destruct s2_good as [HC Hb]. pose proof taken_child as Ht.
  unfold taken in Ht. destruct (accept child s2) as [[v s']|] eqn:E; [|discriminate Ht].
  destruct (AcceptToMemoryPool_consistent verify height_of pow nd pool_money_limit CValidationState_new child false false false s2 [kept; doomed] 99 v s'
    HC ltac:(rewrite Hb; discriminate) (spend_positioned _ 0 5000 ltac:(lia)) E) as (_ & Hv).
  rewrite Ht in Hv. exists v, s'. split; [reflexivity|]. split; [exact Ht|]. split; [apply Hv | apply Hv].
Defined.

Lemma remove_descendants_witness : exists keep rm p', remove doomed true [] (pool s3) = Some (rm, p') /\ In child rm /\
  good 99 (with_pool s3 p') (List.filter keep pooled).
Proof.
  assert (Hin : In doomed pooled) by (right; left; reflexivity).
  destruct (remove_descendants height_of doomed [] s3 pooled 99 s3_good Hin) as (keep & rm & p' & E & Hk & Hrm & HC).
  exists keep, rm, p'. split; [exact E|]. split; [|exact HC]. apply Hrm.
  assert (Hc : In child pooled) by (right; right; left; reflexivity). split; [exact Hc|]. apply (Hk child Hc).
  apply (descends_child _ _ child (mkOutPoint (GetHash doomed) 0)); [constructor | exact Hc | left; reflexivity].
Defined.

Lemma check_passes_witness : exists v, check verify height_of (pcoinsTip s3) (pool s3) = Some v /\ unchanged (pcoinsTip s3) v.
Proof.
  destruct (check_passes verify height_of pool_money_limit s3 pooled 99 s3_good) as (v & E & U). exists v. split; [exact E | exact U].
Defined.

(** ** The block *)

Lemma pool_vtx_shape : Forall undoable vtx.
Proof. constructor; [|constructor; [|constructor]]; (split; [repeat constructor; done|]); [discriminate | intros _; repeat constructor; done]. Qed.

Lemma vtx_positioned : Forall (fun tx => positioned (vin tx) /\ tx_IsZerocoinSpend tx = false) vtx.
Proof. constructor; [|constructor; [|constructor]]; (split; [repeat constructor; done | reflexivity]). Qed.

(** The identifiers, computed once. *)
Lemma all_distinct : bool_decide (base.NoDup (fund_id :: map GetHash (vtx ++ pooled))) = true.
Proof. vm_compute. reflexivity. Qed.

Lemma all_apart : NoDup (fund_id :: map GetHash (vtx ++ pooled)).
Proof. apply base.NoDup_ListNoDup. exact (bool_decide_eq_true_1 _ all_distinct). Qed.

Lemma not_fund t : In t (vtx ++ pooled) -> GetHash t <> fund_id.
Proof. intros Ht E. pose proof all_apart as H. apply NoDup_cons_iff in H as [H _]. apply H. rewrite <- E. by apply in_map. Qed.

Lemma pool_vtx_distinct : NoDup (map GetHash vtx).
Proof. pose proof all_apart as H. apply NoDup_cons_iff in H as [_ H]. rewrite map_app in H. by apply NoDup_app_iff in H as (H & _ & _). Qed.

Lemma apart t b : In t pooled -> In b vtx -> GetHash t <> GetHash b.
Proof.
  intros Ht Hb E. pose proof all_apart as H. apply NoDup_cons_iff in H as [_ H]. rewrite map_app in H. apply NoDup_app_iff in H as (_ & _ & H).
  apply (H (GetHash b)); [by apply in_map|]. rewrite <- E. by apply in_map.
Qed.

Lemma outcome_done {A B : Type} (d : B) (r : option (A + B)) : done_well r = true -> r = Some (inr (outcome d r)).
Proof. by destruct r as [[?|?]|]. Qed.

Lemma connecting_done : connecting = Some (inr s4).
Proof.
  apply outcome_done. exact (proj2 (andb_prop _ _ (proj1 (andb_prop _ _ all_done)))).
Qed.

Lemma s4_good : exists undos created keep, connects verify 100 block_flags true (utxo (pcoinsTip s3)) vtx undos created (utxo (pcoinsTip s4)) /\
  best (pcoinsTip s4) = block_id /\ good 100 s4 (List.filter keep pooled).
Proof.
  pose proof (ConnectTip_pool verify height_of (proj1 pool_money_limit) push unshuffled block_flags true true false vtx 100 block_id s3 pooled
    s3_good vtx_positioned pool_vtx_distinct (fun t b Ht Hb E => False_ind _ (apart t b Ht Hb E)) ltac:(discriminate) eq_refl eq_refl) as H.
  change (ConnectTip _ _ _ _ _ _ _ _ _ _ _ _) with connecting in H. rewrite connecting_done in H.
  destruct H as (undos & created & keep & H1 & H2 & H3 & _). exists undos, created, keep. exact (conj H1 (conj H2 H3)).
Qed.

Lemma ConnectTip_consistent_witness : exists s' keep, connecting = Some (inr s') /\ best (pcoinsTip s') = block_id /\
  good 100 s' (List.filter keep pooled) /\ keep doomed = false.
Proof.
  pose proof (ConnectTip_consistent verify height_of pool_money_limit push unshuffled block_flags true true false vtx 100 block_id s3 pooled
    s3_good vtx_positioned pool_vtx_distinct (fun t b Ht Hb E => False_ind _ (apart t b Ht Hb E)) ltac:(discriminate) eq_refl eq_refl) as H.
  change (ConnectTip _ _ _ _ _ _ _ _ _ _ _ _) with connecting in H. rewrite connecting_done in H.
  destruct H as (_ & _ & keep & _ & H2 & H3 & _ & H4 & _). exists s4, keep. split; [exact connecting_done|]. split; [exact H2|]. split; [exact H3|].
  destruct (keep doomed) eqn:K; [|reflexivity]. exfalso.
  refine (proj2 (H4 doomed payment _ K _) (mkOutPoint fund_id 1) _ _); [right; left | right; left | left | left]; reflexivity.
Defined.

(** ** And back *)

Lemma db_utxo t : utxo (pcoinsTip s3) t = if decide (fund_id = t) then Some fund else None.
Proof.
  assert (U : forall tx s l, good 99 s l -> best (pcoinsTip s) = tip -> positioned (vin tx) -> taken tx s = true ->
    utxo (pcoinsTip (next tx s)) t = utxo (pcoinsTip s) t).
  { intros tx s l HC Hb Hp Ht. unfold taken, next in *. destruct (accept tx s) as [[v s']|] eqn:E; [|discriminate Ht].
    destruct (accepted_consistent verify height_of pow nd pool_money_limit CValidationState_new tx false false false s l 99 v s' HC) as ((_ & U & _) & _);
      [rewrite Hb; discriminate | exact Hp | exact E | apply U]. }
  destruct s1_good as [G1 B1], s2_good as [G2 B2].
  transitivity (utxo (pcoinsTip s2) t); [apply (U child s2 [kept; doomed]); [exact G2 | exact B2 | apply spend_positioned; lia | exact taken_child]|].
  transitivity (utxo (pcoinsTip s1) t); [apply (U doomed s1 [kept]); [exact G1 | exact B1 | apply spend_positioned; lia | exact taken_doomed]|].
  transitivity (utxo (pcoinsTip s0) t); [apply (U kept s0 []); [exact s0_good | reflexivity | apply spend_positioned; lia | exact taken_kept]|].
  change (utxo (pcoinsTip s0) t) with (denoted db ∅ t). unfold denoted. rewrite lookup_empty. change (utxo db t) with (value ← db_coins db !! t; db_read point_format value). unfold db, db_coins.
  destruct (decide _) as [<-|]; [rewrite lookup_singleton_eq; exact fund_read | by rewrite lookup_singleton_ne].
Qed.

Lemma only_fund t : t <> fund_id -> utxo (pcoinsTip s3) t = None.
Proof. intros H. rewrite db_utxo. by rewrite decide_False by exact (not_eq_sym H). Qed.

Lemma db_stored : stored (utxo (pcoinsTip s3)).
Proof.
  intros t c. rewrite db_utxo. destruct (decide _); [|done]. intros [= <-]. split; [by right|]. split; [|cbn; lia]. repeat constructor; done.
Qed.

Lemma db_up_to : up_to 100 (utxo (pcoinsTip s3)).
Proof. intros t c. rewrite db_utxo. destruct (decide _); [|done]. intros [= <-]. cbn. lia. Qed.

Lemma undo_known undos created u' : connects verify 100 block_flags true (utxo (pcoinsTip s3)) vtx undos created u' -> tail undos = undo.
Proof.
  intros H. inversion H as [|? ? un1 ? u1 ? uns1 ? ? H1 H2]; subst. inversion H2 as [|? ? un2 ? u2 ? uns2 ? ? H3 H4]; subst. inversion H4; subst.
  cbn [tail]. assert (E1 : u1 fund_id = Some fund).
  { inversion H1 as [? ? ? ? _ _ Hu|? ? ? ? ? ? ? Ht]; subst; [|vm_compute in Ht; discriminate Ht]. rewrite Hu. unfold add_outputs.
    rewrite decide_False by (apply not_fund; left; reflexivity). rewrite db_utxo. by rewrite decide_True. }
  inversion H3 as [? ? ? ? Ht|? ? ? ? ? ? ? _ _ _ _ _ Hs _]; subst; [vm_compute in Ht; discriminate Ht|].
  change (vin payment) with [mkTxIn (mkOutPoint fund_id 1) [] uint256_max32 []] in Hs.
  inversion Hs as [|? ? ? c c' un ? l ? Hc HS _ Hr]; subst. inversion Hr; subst.
  change (u1 fund_id = Some c) in Hc. change (Spend c 1 = Some (c', un)) in HS.
  rewrite E1 in Hc. injection Hc as <-. unfold undo. rewrite HS. reflexivity.
Qed.

Lemma disconnecting_done : disconnecting = Some (inr s5).
Proof. apply outcome_done. exact (proj2 (andb_prop _ _ all_done)). Qed.

Lemma DisconnectTip_consistent_witness : exists s' l, disconnecting = Some (inr s') /\ best (pcoinsTip s') = tip /\ good 99 s' l /\ In payment l.
Proof.
  destruct s4_good as (undos & created & keep & Hcon & Hb & HC). pose proof (undo_known _ _ _ Hcon) as Eu.
  assert (Hgen : exists tx rest, vtx = tx :: rest /\ takes_inputs tx = false) by (exists coinbase, [payment]; split; reflexivity).
  assert (Hnew : forall tx, In tx vtx -> utxo (pcoinsTip s3) (GetHash tx) = None).
  { intros tx Hin. apply only_fund, not_fund, in_app_iff. left. exact Hin. }
  assert (Hout : forall t, In t (List.filter keep pooled) -> utxo (pcoinsTip s3) (GetHash t) = None /\ ~ In (GetHash t) (map GetHash vtx)).
  { intros t Ht. apply filter_In in Ht as [Ht _]. split.
    - apply only_fund, not_fund, in_app_iff. right. exact Ht.
    - intros Hin. apply in_map_iff in Hin as (b & Eb & Hin). exact (apart t b Ht Hin (eq_sym Eb)). }
  pose proof (DisconnectTip_consistent verify height_of pow nd pool_money_limit (utxo (pcoinsTip s3)) vtx undos created block_flags true 100 tip s4 _
    ltac:(vm_compute; split; reflexivity) HC Hcon db_stored db_up_to ltac:(lia) pool_vtx_shape Hgen pool_vtx_distinct Hnew Hout ltac:(discriminate) eq_refl) as H.
  rewrite Eu in H. change (DisconnectTip _ _ _ _ _ _ _ _ _) with disconnecting in H. rewrite disconnecting_done in H.
  destruct H as (s1' & _ & A & s2' & keep' & Hrun & _ & _ & H1 & H2 & _). exists s5. eexists. split; [exact disconnecting_done|]. split; [exact H1|].
  split; [exact H2|]. apply filter_In.
  destruct (List.in_dec (list_eq_dec Z.eq_dec) (GetHash payment) (map GetHash (List.filter keep' (A ++ List.filter keep pooled)))) as [Hin|Hn].
  - apply in_map_iff in Hin as (t & Et & Ht). apply filter_In in Ht as [Ht Hk]. apply in_app_iff in Ht as [Ht|Ht].
    + apply (resurrects_incl _ _ _ _ _ _ _ _ Hrun) in Ht as Hv. destruct Hv as [<-|[<-|[]]]; [|split; [apply in_app_iff; left; exact Ht | exact Hk]].
      pose proof pool_vtx_distinct as Hd. apply NoDup_cons_iff in Hd as [Hd _]. destruct Hd. left. exact (eq_sym Et).
    + apply filter_In in Ht as [Ht _]. destruct (apart t payment Ht ltac:(right; left; reflexivity) Et).
  - pose proof payment_back as Hp. rewrite (proj2 (exists_tx_false _ _ _ (con_holds _ _ _ _ H2)) Hn) in Hp. discriminate Hp.
Defined.

(** ** Standard inputs, in one order *)

(** An output to a script hash and one to a bare [OP_NOP]; the redeem script
    is of no standard kind. *)
Definition to_hash : list Z := [Script.value Script.OP_HASH160; 20] ++ repeat 7 20 ++ [Script.value Script.OP_EQUAL].
Definition redeem : list Z := [Script.value Script.OP_1; Script.value Script.OP_DROP; Script.value Script.OP_1].
Definition odd : CCoins := mkCoins false false [CTxOut_new 10 to_hash; CTxOut_new 10 [Script.value Script.OP_NOP]] 10 1.
Definition odd_view : CCoinsViewCache (CCoinsViewDB point_format) := CCoinsViewCache_new (mkDB {[ fund_id := value odd ]} (Some tip)).
Definition by_hash : CTxIn := mkTxIn (mkOutPoint fund_id 0) (3 :: redeem) uint256_max32 [].
Definition bare : CTxIn := mkTxIn (mkOutPoint fund_id 1) [] uint256_max32 [].
Definition spend_both (l : list CTxIn) : CTransaction := mkTransaction 1 l [CTxOut_new 20 anyone] 0.

(** [AreInputsStandard] ends at the first input with such a redeem script:
    the same two inputs are standard or not by their order. *)
Lemma standard_by_order : fst (AreInputsStandard (spend_both [by_hash; bare]) odd_view) = Some true /\
  fst (AreInputsStandard (spend_both [bare; by_hash]) odd_view) = Some false.
Proof. vm_compute. split; reflexivity. Qed.
End MemPoolExample.
